(* ===== verification/_CoqProject ===== *)
-Q . S2P
Prelude.v
RustText.v
BTree.v
NtTypes.v
OutcomeVerdicts.v
DecimalAmount.v
Economics.v
EconomicsFacts.v
OutcomeGroups.v
OutcomeGroupsFacts.v
F64.v
PositionContract.v
ExecutableCost.v
ExecutableCostFacts.v
GroupScanner.v
GroupScannerFacts.v
LossGovernor.v
KillSwitch.v
KillSwitchCancel.v
OrderIntent.v
KillSwitchFlatten.v
KillSwitchRouter.v
LossProtection.v
LossProtectionFacts.v
LossProtectionSafety.v
LossHaltActions.v
ManualRecovery.v
ManualRecoveryFacts.v
CapitalReservation.v
CapitalReservationFacts.v
CapitalAdmissionState.v
CapitalAdmission.v
CapitalAdmissionFacts.v
ReservationRecovery.v
SubmitAdmissionState.v
SubmitCapital.v
SubmitCapitalFacts.v
SubmitAdmission.v
SubmitAdmissionFacts.v
SubmitPermits.v
SubmitLedger.v
SubmitAdmissionSafety.v
SubmitAdmissionRuns.v
CancelRecord.v
CancelRecordFacts.v
RequoteBudget.v
RequoteBudgetFacts.v
RequoteWindow.v
BudgetTokens.v
QuoteLifecycle.v
QuoteLifecycleFacts.v
MarketQuote.v
QuoteLifecycleSafety.v
QuoteOutcomes.v
MarketQuoteFacts.v
QuoteControl.v
EventFence.v
MakerRisk.v
BasketAdmission.v
BasketAdmissionFacts.v
TakerExposure.v
TakerExposureFacts.v
MakerInventory.v
Settlement.v
TakerSettlement.v
TakerSettlementFacts.v
LossFeed.v
LossFeedFacts.v
