(* ===== verification/Prelude.v ===== *)
(** * bolt-v2: verification of quote governance, risk gates and outcome baskets

    bolt-v2 trades binary prediction markets on top of NautilusTrader (NT).  A maker
    quotes the two legs (yes and no) of a market; every order action crosses an NT
    "sink", and venue rate limits, capital and losses are guarded by components that
    refuse before the sink is reached.  This library models that core.

    ** The program's parts and how they interact

    - _Requote budget_ ([src/src/bolt_v3_requote_budget.rs]): two sliding windows
      (submit commands, REST calls) behind one lock, a ledger of outstanding
      reservations, and an owned reservation token whose [Drop] refunds or charges.
    - _Quote lifecycle_ ([src/src/bolt_v3_quote_lifecycle.rs]): one governed transaction
      per leg.  Its state owns budget tokens; pricing and order events, arming, sink
      crossing, route outcomes and terminal refinements reduce it.  [MarketQuote] is
      the controller of the two legs and [MakerQuoteLifecycleHandle] the handle other
      threads refine a leg through; both share the leg by reference.
    - _Capital reservation_ ([src/src/bolt_v3_capital_reservation.rs]): the ledger of
      committed but unfilled capital of a pool.
    - _Loss governor_ ([src/src/bolt_v3_loss_governor.rs]): admission against loss and
      drawdown limits on a fresh snapshot.
    - _Capital admission_ ([src/src/bolt_v3_capital_admission.rs],
      [src/src/bolt_v3_capital_admission_state.rs]): the gate of an order: it validates
      the state of the node, asks the loss governor, computes the worst-case liability
      and reserves it in the ledger.
    - _Maker control_ ([src/src/bolt_v3_maker_quote_control.rs],
      [src/src/bolt_v3_maker_quote_set.rs], [src/src/bolt_v3_maker_event_fence.rs],
      [src/src/bolt_v3_maker_risk.rs]): plans the commands of a leg from target prices,
      fences venue reports by order identity, and turns a refusal of the loss governor
      into a wind-down of the market.
    - _Kill switch_ ([src/src/bolt_v3_kill_switch.rs]): the halt state machine the loss
      governor triggers and only an operator resets.
    - _Loss protection_ ([src/src/bolt_v3_loss_protection.rs], and the
      store of [src/src/bolt_v3_kill_switch_store.rs]): the owner of the durable figures.  It books
      realised losses and mark observations, persists every change before it acts on it,
      halts the kill switch when a limit is reached and recovers after a restart.
    - _Halt actions_ ([src/src/bolt_v3_kill_switch_cancel.rs],
      [src/src/bolt_v3_kill_switch_flatten.rs],
      [src/src/bolt_v3_kill_switch_action_router.rs], the order templates of
      [src/src/bolt_v3_order_intent.rs]): what a halted switch plans: a cancel for every
      outstanding order, a reducing order for every open position, and the verdict over
      what became of them.
    - _Loss halt actions_ ([src/src/bolt_v3_loss_halt_actions.rs], the handler of
      [src/src/bolt_v3_live_node/risk_admission_loss.rs]): the trading state a refusal of
      the loss governor asks the node for, and the manual recoveries from it.
    - _Manual recovery_ ([src/src/bolt_v3_loss_governor_manual_recovery_ops.rs]): the
      operator's command that re-arms the durable switch after a loss halt, with its audit.
    - _Submit admission_ ([src/src/bolt_v3_submit_admission.rs], the recovery facts of
      [src/src/bolt_v3_current_evidence/facts.rs]): the one door to the sink.  Behind a
      mutex it keeps the kill-switch state it was told, the loss inputs, counters per
      client, the ids in flight, the durable authority and the capital side: the gate of
      capital admission with an index of the reservations by order.  Admission evaluates
      a request against all of them, reserves, appends the decision to the evidence log
      and hands out a permit; the permit crosses the sink once or rolls everything back
      when it is dropped.  Rebuilds from the node's open orders, retirement of ended
      orders and fills keep the index and the ledger true to the venue.
    - _Cancel coordinator_ ([src/src/bolt_v3_order_execution/tracked_order_economics/]
      [cancel_coordinator.rs]): drives the cancellation of one resting order by spaced
      cancel and query operations until a terminal observation or its deadline.
    - _Economics_ ([src/crates/economics-core/]): what a decision is estimated to cost at
      the venue, valued in the reporting currency, and its net edge.
    - _Outcome groups_ ([src/src/bolt_v3_outcome_groups.rs],
      [src/src/bolt_v3_outcome_group_proofs.rs]): instruments over one question, the
      payouts of each in every terminal state, and the proofs that bind them.
    - _The outcome basket pipeline_: [src/src/bolt_v3_executable_cost.rs] prices a leg
      against its book; [src/src/bolt_v3_outcome_group_scanner.rs] looks for baskets of
      legs that pay more than they cost in every terminal state of a validated group; and
      [src/src/bolt_v3_basket_admission.rs] admits such a basket among a limited number of
      open ones, reserving its orders through submit admission as one.
    - _Loss runtime feed_ ([src/src/bolt_v3_loss_runtime_feed.rs]): makes, of the account
      states, portfolio snapshots and position events of the node, the snapshot the loss
      governor judges, and hands it to submit admission and the halt handler.
    - _The edge taker's exposure_
      ([src/src/strategies/binary_oracle_edge_taker/exposure.rs], the contract of
      [src/src/bolt_v3_position_contract.rs]): the machine that owns the one position the
      strategy may have.
    - _Settlement_ ([src/src/bolt_v3_binary_settlement.rs],
      [src/src/bolt_v3_binary_settlement_runtime.rs],
      [src/src/bolt_v3_settlement_booking.rs], and the handlers of
      [src/src/strategies/binary_oracle_edge_taker/mod.rs]): what a resolved market pays,
      and the booking of it: durable first, then handed to loss protection.
    - _Maker inventory_ ([src/src/bolt_v3_maker_inventory.rs]): the net position of the
      maker from its fills and orders.

    ** The files

    - [Prelude]: results, the monad [Rust] of stateful code that may panic with its
      total ([runs]) and partial ([yields]) correctness, [u64] arithmetic, sums.
    - [RustText]: strings as Unicode scalar values: [trim], UTF-8, paths.
    - [BTree]: [BTreeMap] as a sorted association list over the class [Ord] of derived
      orders, and membership of a slice.
    - [NtTypes]: the enumerations of NT the program matches on, and the class of its
      opaque identifiers, quantities and prices with their orders.
    - [OutcomeVerdicts]: reports by key merged to the worse one, then to a verdict: the
      shape both supervisors share.
    - [DecimalAmount]: the class of operations of the third-party [Decimal] and the laws
      the proofs rely on, with a concrete instance.
    - [Economics], [EconomicsFacts]: the crate.  The aggregation of a quote equals a
      reference that evaluates each component on its own; a quote expires with the first
      evidence it rests on and the net edge never counts more than the estimates allow.
    - [OutcomeGroups], [OutcomeGroupsFacts]: the data, the canonical encoding and
      [ValidatedOutcomeGroup::validate].  The encoding is injective up to the order of its
      fields, a validated group pays what its roles say, and groups that claim one venue
      identity settle alike.
    - [ExecutableCost], [ExecutableCostFacts]: both sweeps of a book on doubles: a prefix
      of the book, every level but the last in full, within the limit.
    - [GroupScanner], [GroupScannerFacts]: [scan_outcome_group_candidate]; an admissible
      basket pays more than its cost in every terminal state.
    - [BasketAdmission], [BasketAdmissionFacts]: [BoltV3BasketAdmissionState] and its
      permits over the world of submit admission.  An admitted basket is a scanned one;
      the quantities scanned, and orders that buy at least these, pay more than the claims
      cost in every terminal state.  Admission and the drop of a permit take two locks, so
      a step of a history of baskets ([basket_reachable]) is what happens under one of
      them; every such history is a history of submit admission, so that the theorems of
      [SubmitAdmissionSafety] apply, and the open baskets stay within their cap.
    - [LossGovernor]: [evaluate_loss_admission] and its diagnostics; fails closed, and
      decides exactly by the configured limits.
    - [KillSwitch]: [transition_kill_switch_state], [KillSwitchManualResetEvidence::new]
      and [halt_id_for_trigger] (the digest is a parameter); re-arming needs an
      authorised reset on clean reconciliation, halts keep their identity, identifiers
      come from injective pre-images, two states are dead.
    - [KillSwitchCancel], [KillSwitchFlatten], [KillSwitchRouter]: candidates, snapshots,
      plans and verdicts of the two supervisors, and the dry-run router.  A plan exists
      exactly when its gates hold, has one command per order or open position, on the
      closing side, and none else; the verdicts are exact; no state the switch can reach
      lets a supervisor or the router act.  Planning to flatten panics exactly when the
      action id of an otherwise accepted request is no client order id.
    - [OrderIntent]: the check of a configured order template, the validation of an order
      and the factory call; both checks agree, and building never panics.
    - [LossHaltActions]: the handler of loss decisions and both manual recoveries; the
      trading state is never lowered by the handler, and a node is reactivated only by a
      justified recovery.
    - [ManualRecovery], [ManualRecoveryFacts]: the recovery command over a file and an
      audit whose operations fail at will.  It always returns, arms the file only when it
      may and after its attempt is in the audit, and, composed with the start of
      [LossProtection], does not let a node trade whose daily figure is at the limit.
    - [LossProtection], [LossProtectionFacts], [LossProtectionSafety]: the coordinator
      [KillSwitchLossProtection] over the durable [KillSwitchStore], as code in the monad
      [Rust] whose store operations may each fail.  The invariant [lp_ok] holds after
      every operation; on every history of operations and restarts the switch is armed
      only while the booked figures are within the limit, a restart never re-arms, an
      observation is booked at most once, a pending halt is resolved at its deadline and
      a restart finds the figures that were acknowledged.
    - [CapitalReservation], [CapitalReservationFacts]: every method of
      [ReservationLedger]; accepted reservations and revaluations keep the pool solvent,
      releases and rollbacks give back exactly what was reserved, reservations stay
      unique and positive under any sequence of operations.
    - [F64]: IEEE doubles as the Standard Library's [spec_float], and the numeric guards.
    - [CapitalAdmissionState], [CapitalAdmission], [CapitalAdmissionFacts]:
      [evaluate_capital_admission] and [CapitalAdmissionGate].  An acceptance passed
      every gate and reserved exactly the worst case, which is computed exactly; a
      refusal has a reason and no effect; a rebuild from open orders is all or nothing;
      an unreconciled gate admits nothing.
    - [ReservationRecovery]: [ReservationRecoveryFacts] with [apply] and [validate], and
      [recover], the replay of a log.
    - [SubmitAdmissionState], [SubmitCapital], [SubmitAdmission]: the data of submit
      admission; its capital side, rollback and sink transitions; its operations in the
      monad [Rust], every handler whole.
    - [SubmitCapitalFacts], [SubmitAdmissionFacts], [SubmitPermits], [SubmitLedger]: what
      each operation does to the invariant [submit_inv]: [SubmitCapitalFacts] to the pair
      of ledger and index, [SubmitAdmissionFacts] what an evaluation and its record come
      to, [SubmitPermits] admissions, baskets, sink crossings and drops, [SubmitLedger]
      rebuilds, retirements, fills and inputs.
    - [SubmitAdmissionSafety]: the histories of a process ([submit_step],
      [submit_reachable]: a start on a recovered log, then any interleaving of the
      operations and of uses and drops of the permits that are out), with evidence writes
      that fail at will.  In every such history the books agree, an order id crosses the
      sink at most once, approval limits hold, a permit is always honoured, capital past
      the sink is freed only by the retirement of its order, and the log replays to the
      authority in memory.  An admission passed every gate; a refusal, and an admission
      followed by a drop, change nothing that matters; a basket is all or nothing.
    - [SubmitAdmissionRuns]: a concrete process taken from its start through a rebuild,
      an admission, a sink crossing and a basket.
    - [CancelRecord], [CancelRecordFacts]: the recovery record of one order with its
      history [recovery_run] of requests, observations, reservations and completions.
      Operations are spaced by the cadence and counted, the identity captured first stays
      fixed, and a validated cadence leaves room for a retry before the deadline.
    - [RequoteBudget], [RequoteBudgetFacts]: the windows, the pair and the tokens, and
      the invariant [pair_inv]: at every instant from the last charge on, what the
      windows count plus what is outstanding stays within the caps.  So the charge at
      the sink boundary never overflows and a cancel-resubmit is prepaid in full.
    - [RequoteWindow]: [try_acquire] against a reference limiter that keeps the whole
      history: same decisions, no window over the cap, minimum spacing.
    - [BudgetTokens]: the token operations on the heap of pairs as total,
      frame-respecting moves of ledger entries; reserving and aborting is a round trip.
    - [QuoteLifecycle]: the data, projections and all reducers of one leg, and the entry
      points [QuoteTransactionReductionRequest::apply] ([reduction_apply]) and
      [MakerQuoteLifecycleRefinementRequest::apply] ([refinement_apply]).
    - [QuoteLifecycleFacts]: token ownership: every reducer runs without a panic, moves
      only the tokens of its own state, and leaks none.
    - [QuoteLifecycleSafety]: wind-down is absorbing and emits cancels only; a
      reconciliation hold is left only by terminal truth; dispositions are refined,
      never rewritten.
    - [QuoteOutcomes]: route outcomes are idempotent, fenced by generation and mutually
      exclusive; arming and aborting is a round trip; a prepaid replacement needs no
      budget.
    - [MarketQuote], [MarketQuoteFacts]: the controller over the [world] of shared
      transactions and pairs.  Each lock acquisition is one atomic step, so the
      reachable worlds cover every interleaving: caps hold, nothing panics, every
      ledger entry has exactly one owner, and a drained market stays drained.
    - [QuoteControl]: [drive_quote_leg] and [drive_binary_quote_set]; planning reads only,
      and what it plans can be armed at the cost of its action.
    - [EventFence]: [ExpectedIdentity]; only reports of the current order pass.
    - [MakerRisk]: [maker_risk_mode_for_loss_decision] and [apply_maker_risk_mode]; a
      refusal of the loss governor ends quoting.
    - [PositionContract]: the sides that belong together and what is known of a position's
      market.
    - [TakerExposure], [TakerExposureFacts]: [ExposureOwner] with every operation, and what
      an entry fill does to it.  In every history ([exposure_reachable]) an occupied
      exposure refuses another entry, tracks one position of one entry order, and becomes
      flat only by a report that names what it holds.
    - [MakerInventory]: the whole file; the snapshot of filled, open and inflight orders is
      the inventory the maker would have if all of them were filled.
    - [Settlement]: payouts, the booking decision and the recovery of booked facts.
    - [TakerSettlement], [TakerSettlementFacts]: the settlement handlers of the strategy.
      In every history of starts, ticks, retries and failing appends no settlement is
      recorded or delivered twice, and nothing is delivered that is not durable, whatever
      the runtime sink does.
    - [LossFeed], [LossFeedFacts]: [LossGovernorRuntimeFeed] and its three events.  The
      published per-trade figure is at most the last reported profit of every open
      position, so a position at the limit makes the governor refuse
      ([open_position_loss_halts]).

    ** Modelling choices

    A [u64] is a [Z] with its range written out; plain subtraction wraps, as in the
    release profile, and [expect] on [None] or [Err] is a panic ([None]).  An
    [Arc<Mutex<..>>] is a location of a heap.  Values Rust drops at the end of a scope
    are dropped explicitly.  All definitions are total and executable:
    recursion is structural on the deque, the ledger or the list of operations.  One loop
    has fuel, the eviction of reject episodes: each round removes one, so the size of the
    map is enough ([evict_oldest_size]).
    [debug_assert!] is compiled out in release and not modelled; logging, [serde] and
    [Debug] implementations have no counterpart.  Lock poisoning cannot occur, since the
    release profile aborts on panic.

    ** Assumptions

    The sink clock of an attempt is not before the clock its reservation was made at,
    and proposals refer to allocated pairs ([op_ok]); decimal amounts lie on one grid
    and fit the mantissa ([DecimalLaws], [d_money]).  [denied_call_evicts] in
    [RequoteWindow] shows why the window needs a clock that does not go back.  A store
    operation of [LossProtection] succeeds or fails as a whole, by an outcome that is an
    argument of the operation ([store_reliable]: no two in a row fail); a crash in the
    middle of an operation is not modelled.  Decimal text and currency codes are classes
    with laws ([DecimalTextLaws], [CurrencyLaws]).

    SHA-256 is a parameter; theorems that conclude equal contents from equal digests say
    so as "or two different texts collide".  The sign test of a decimal
    ([DecimalSignLaws]), the order of NT prices as doubles ([BookPriceLaws]) and the
    conversion of a decimal to a double and back ([DecimalF64]) are classes with instances
    for the witnesses.  That a basket profits is exact on amounts of the decimal grid
    ([exact_amounts]); beyond it the code rounds.

    NT's identifiers, quantities and prices are types with an order and the conversions
    the code calls ([NtTypes]).  An operation of the recovery command on the store fails
    by an argument that also says whether the file was replaced, or the audit line written
    whole or torn, before the failure.

    [ClientOrderId::from] panics on a string it rejects, so [client_order_from] is
    partial.  Every operation of submit admission holds its mutex throughout and is one
    atomic step; whether the [n]-th evidence record is appended is a parameter ([evidence_io]),
    and a record that is not leaves nothing behind.  A rebuild is given reservations that
    carry the attribution of their order ([snapshot_attributed]); the operation the node
    builds them with provides it ([from_attribution_attributed]).  Theorems on refusals,
    drops and sink crossings assume that the revision, a [u64], is not exhausted.  The
    open baskets are behind a lock of their own.

    The operations of the exposure are given, as the handlers give them, the entry, exit or
    residual read from it ([op_allowed]); an entry fill, which reads the entry before it
    materializes the position, is one operation ([entry_fill]).

    A drive of the cancel coordinator, an observation and the reservation it leads to,
    runs to completion on the actor's thread.

    ** Not modelled, and the plan

    Of loss protection, [record_position_event] (NT position events) and the JSON form of
    the store are left out.  Of submit admission, the builders of requests from NT orders
    and their notional arithmetic, the economics records (only the validity horizon is
    judged), the message texts of errors and the entry points compiled for tests only.
    Of the cancel coordinator, the registry of tracked orders and its economics.
    Of order templates, the normalisation of quantities on NT types.
    Of the sources of outcome groups, the builders from venue metadata.  Of the strategies,
    everything but the exposure and the settlement of the edge taker: pricing and entry
    decisions, lifecycle evidence, health reports and subscriptions.  Of the loss runtime
    feed, the subscription to the message bus.

    What would come next: the registry of tracked orders composed with the quote
    lifecycle, the maker's order plans, and quoting arithmetic on [F64].  Outside the plan:
    estimators of volatility and drift, NT adapters and providers (network I/O), the
    evidence codecs, the backtesting crate and the configuration and deployment tools. *)

From Stdlib Require Import ZArith Lia.
From stdpp Require Import sorting strings gmap numbers list.

Open Scope Z_scope.

(** ** Results of fallible Rust code *)

Inductive Result (A E : Type) : Type :=
| Ok (a : A)
| Err (e : E).
Arguments Ok {A E} a.
Arguments Err {A E} e.

Definition is_ok {A E} (r : Result A E) : bool :=
  match r with Ok _ => true | Err _ => false end.

(** The [?] operator, [ok_or] and a guard that returns early. *)
Definition result_bind {A B E} (r : Result A E) (f : A → Result B E) : Result B E :=
  match r with Ok a => f a | Err e => Err e end.

(** [Option::is_some]. *)
Definition is_some {A} (o : option A) : bool := match o with Some _ => true | None => false end.

Definition ok_or {A E} (o : option A) (e : E) : Result A E :=
  match o with Some a => Ok a | None => Err e end.

Definition ensure {E} (b : bool) (e : E) : Result unit E := if b then Ok tt else Err e.

Declare Scope rust_scope.
Delimit Scope rust_scope with rust.
Notation "x ←? r ; k" := (result_bind r (λ x, k))
  (at level 20, r at level 100, k at level 200, right associativity) : rust_scope.
Notation "r ;;? k" := (result_bind r (λ _, k))
  (at level 100, k at level 200, right associativity) : rust_scope.
Open Scope rust_scope.

Lemma result_bind_Ok {A B E} (r : Result A E) (f : A → Result B E) b :
  result_bind r f = Ok b ↔ ∃ a, r = Ok a ∧ f a = Ok b.
Proof. destruct r as [a|e]; simpl; [|by split; [|intros (? & ? & ?)]]. split; [eauto|]. by intros (? & [= <-] & ?). Qed.

Lemma ok_or_Ok {A E} (o : option A) (e : E) a : ok_or o e = Ok a ↔ o = Some a.
Proof. destruct o; simpl; split; congruence. Qed.

Lemma ensure_Ok {E} b (e : E) u : ensure b e = Ok u ↔ b = true.
Proof. destruct b, u; simpl; by split. Qed.

(** [for x in l { f(x)?; }]. *)
Fixpoint try_each {A E} (f : A → Result unit E) (l : list A) : Result unit E :=
  match l with
  | [] => Ok tt
  | x :: l => f x ;;? try_each f l
  end.

Lemma try_each_Ok {A E} (f : A → Result unit E) l u :
  try_each f l = Ok u ↔ Forall (λ x, f x = Ok tt) l.
Proof.
  destruct u. induction l as [|x l IH]; simpl; [by split; [constructor|]|].
  rewrite result_bind_Ok, Forall_cons, <- IH. split; [by intros ([] & ? & ?)|intros []; eauto].
Qed.

(** Pure code that may panic ([None]) or fail: [?] on it. *)
Definition opt_try {A B E} (m : option (Result A E)) (f : A → option (Result B E)) : option (Result B E) :=
  match m with
  | None => None
  | Some (Err e) => Some (Err e)
  | Some (Ok a) => f a
  end.

Notation "x ←?! m ; k" := (opt_try m (λ x, k))
  (at level 20, m at level 100, k at level 200, right associativity) : rust_scope.
Notation "m ;;?! k" := (opt_try m (λ _, k))
  (at level 100, k at level 200, right associativity) : rust_scope.

Lemma opt_try_Ok {A B E} (m : option (Result A E)) (f : A → option (Result B E)) b :
  opt_try m f = Some (Ok b) ↔ ∃ a, m = Some (Ok a) ∧ f a = Some (Ok b).
Proof. destruct m as [[a|e]|]; simpl; naive_solver. Qed.

(** ** Rust code that reads and writes shared state and may panic

    [Rust S A] is a computation over a state [S]; [None] is a panic (the release
    profile aborts on panic, so nothing runs after it). *)

Definition Rust (S A : Type) : Type := S → option (A * S).

#[global] Instance rust_ret {S} : MRet (Rust S) := λ A a s, Some (a, s).
#[global] Instance rust_bind {S} : MBind (Rust S) := λ A B f m s,
  match m s with
  | Some (a, s') => f a s'
  | None => None
  end.

Definition panic {S A} : Rust S A := λ _, None.

(** A pure but panicking expression lifted into the monad. *)
Definition lift_panic {S A} (o : option A) : Rust S A := λ s,
  match o with
  | Some a => Some (a, s)
  | None => None
  end.

(** [?] inside stateful code: an [Err] returns early, with the state as it is. *)
Definition try_bind {S A B E} (m : Rust S (Result A E)) (f : A → Rust S (Result B E))
    : Rust S (Result B E) :=
  m ≫= λ r, match r with Ok a => f a | Err e => mret (Err e) end.

Notation "x ←! m ; k" := (try_bind m (λ x, k))
  (at level 20, m at level 100, k at level 200, right associativity) : rust_scope.
Notation "m ;;! k" := (try_bind m (λ _, k))
  (at level 100, k at level 200, right associativity) : rust_scope.

(** Read the state, or replace it. *)
Definition rust_get {S A} (f : S → A) : Rust S A := λ s, Some (f s, s).
Definition rust_modify {S} (f : S → S) : Rust S unit := λ s, Some (tt, f s).

Lemma rust_bind_Some {S A B} (m : Rust S A) (f : A → Rust S B) s b s'' :
  (m ≫= f) s = Some (b, s'') ↔ ∃ a s', m s = Some (a, s') ∧ f a s' = Some (b, s'').
Proof.
  unfold mbind, rust_bind. split.
  - destruct (m s) as [[a s']|] eqn:E; naive_solver.
  - intros (a & s' & -> & H). exact H.
Qed.

Lemma rust_bind_step {S A B} (m : Rust S A) (f : A → Rust S B) s a s' :
  m s = Some (a, s') → (m ≫= f) s = f a s'.
Proof. unfold mbind, rust_bind. by intros ->. Qed.

Lemma rust_ret_eq {S A} (a : A) (s : S) : (mret a : Rust S A) s = Some (a, s).
Proof. done. Qed.

(** Total correctness: from [s] the computation returns, without a panic, a
    result and a state that satisfy [Q]. *)
Definition runs {S A} (m : Rust S A) (s : S) (Q : A → S → Prop) : Prop :=
  ∃ a s', m s = Some (a, s') ∧ Q a s'.

Lemma runs_ret {S A} (a : A) (s : S) (Q : A → S → Prop) : Q a s → runs (mret a) s Q.
Proof. intros H. by exists a, s. Qed.

Lemma runs_bind {S A B} (m : Rust S A) (f : A → Rust S B) s (Q : B → S → Prop) :
  runs m s (λ a s', runs (f a) s' Q) → runs (m ≫= f) s Q.
Proof.
  intros (a & s' & Hm & b & s'' & Hf & HQ). exists b, s''. split; [|done].
  by rewrite (rust_bind_step _ _ _ _ _ Hm).
Qed.

Lemma runs_try {S A B E} (m : Rust S (Result A E)) (f : A → Rust S (Result B E)) s Q :
  runs m s (λ r s', match r with Ok a => runs (f a) s' Q | Err e => Q (Err e) s' end) →
  runs (try_bind m f) s Q.
Proof.
  intros (r & s' & Hm & Hr). apply runs_bind. exists r, s'. split; [done|].
  destruct r; [done|]. by apply runs_ret.
Qed.

Lemma runs_get {S A} (f : S → A) s (Q : A → S → Prop) : Q (f s) s → runs (rust_get f) s Q.
Proof. intros H. by exists (f s), s. Qed.

Lemma runs_modify {S} (f : S → S) s (Q : unit → S → Prop) : Q tt (f s) → runs (rust_modify f) s Q.
Proof. intros H. by exists tt, (f s). Qed.

Lemma runs_mono {S A} (m : Rust S A) s (P Q : A → S → Prop) :
  runs m s P → (∀ a s', P a s' → Q a s') → runs m s Q.
Proof. intros (a & s' & Hm & HP) HPQ. exists a, s'. auto. Qed.

(** The same of the runs that return: a panic ends the process and its history. *)
Definition safe {S A} (m : Rust S A) (s : S) (Q : A → S → Prop) : Prop :=
  ∀ a s', m s = Some (a, s') → Q a s'.

Lemma runs_safe {S A} (m : Rust S A) s Q : runs m s Q → safe m s Q.
Proof. intros (a & s' & Hm & HQ) b s'' Hm'. rewrite Hm in Hm'. by injection Hm' as <- <-. Qed.

Lemma safe_bind {S A B} (m : Rust S A) (f : A → Rust S B) s (Q : B → S → Prop) :
  safe m s (λ a s', safe (f a) s' Q) → safe (m ≫= f) s Q.
Proof. intros Hm b s'' (a & s' & Ha & Hb)%rust_bind_Some. by eapply Hm. Qed.

Lemma safe_try {S A B E} (m : Rust S (Result A E)) (f : A → Rust S (Result B E)) s Q :
  safe m s (λ r s', match r with Ok a => safe (f a) s' Q | Err e => Q (Err e) s' end) →
  safe (try_bind m f) s Q.
Proof.
  intros Hm. apply safe_bind. intros r s' Hr. specialize (Hm r s' Hr).
  destruct r; [done|]. by apply runs_safe, runs_ret.
Qed.

Lemma safe_lift {S A} (o : option A) (s : S) (Q : A → S → Prop) :
  (∀ a, o = Some a → Q a s) → safe (lift_panic o) s Q.
Proof. intros HQ a s'. unfold lift_panic. destruct o; [|done]. intros [= <- <-]. by apply HQ. Qed.

Lemma runs_lift {S A} (o : option A) a (s : S) (Q : A → S → Prop) :
  o = Some a → Q a s → runs (lift_panic o) s Q.
Proof. intros -> HQ. by exists a, s. Qed.

Lemma safe_mono {S A} (m : Rust S A) s (P Q : A → S → Prop) :
  safe m s P → (∀ a s', P a s' → Q a s') → safe m s Q.
Proof. intros Hm HPQ a s' Ha. auto. Qed.

Lemma safe_and {S A} (m : Rust S A) s (P Q : A → S → Prop) :
  safe m s P → safe m s Q → safe m s (λ a s', P a s' ∧ Q a s').
Proof. intros HP HQ a s' Ha. auto. Qed.

Lemma runs_safe_mono {S A} (m : Rust S A) s (P Q : A → S → Prop) :
  runs m s P → (∀ a s', P a s' → Q a s') → safe m s Q.
Proof. intros Hm HPQ. by apply runs_safe, (runs_mono _ _ P). Qed.

(** Partial correctness of the returned value, whatever the state: used for facts
    about results that no heap can change. *)
Definition yields {S A} (m : Rust S A) (P : A → Prop) : Prop :=
  ∀ s a s', m s = Some (a, s') → P a.

Lemma yields_ret {S A} (a : A) (P : A → Prop) : P a → yields (mret a : Rust S A) P.
Proof. intros HP s b s' [= <- <-]. done. Qed.

Lemma yields_bind {S A B} (m : Rust S A) (f : A → Rust S B) (P : A → Prop) (Q : B → Prop) :
  yields m P → (∀ a, P a → yields (f a) Q) → yields (m ≫= f) Q.
Proof.
  intros Hm Hf s b s'' (a & s' & Ha & Hb)%rust_bind_Some.
  eapply Hf; [by eapply Hm|exact Hb].
Qed.

Lemma yields_any {S A} (m : Rust S A) : yields m (λ _, True).
Proof. done. Qed.

Lemma yields_mono {S A} (m : Rust S A) (P Q : A → Prop) :
  yields m P → (∀ a, P a → Q a) → yields m Q.
Proof. intros Hm HPQ s a s' Ha. eauto. Qed.

(** ** Machine-width unsigned integers

    A [u64] is a [Z]; the operations write out the range. *)

Definition u64_max : Z := 2 ^ 64 - 1.

Definition is_u64 (n : Z) : Prop := 0 ≤ n ≤ u64_max.

Definition u64_checked_add (a b : Z) : option Z :=
  if a + b <=? u64_max then Some (a + b) else None.

Definition u64_checked_sub (a b : Z) : option Z := if b <=? a then Some (a - b) else None.

(** [NANOS_PER_MILLI_U64] of [src/src/bolt_v3_numeric.rs]. *)
Definition NANOS_PER_MILLI_U64 : Z := 1000000.

Definition u64_checked_mul (a b : Z) : option Z := if a * b <=? u64_max then Some (a * b) else None.

(** Plain [-] in the release profile: wraps modulo 2^64. *)
Definition u64_wrapping_sub (a b : Z) : Z := (a - b) mod 2 ^ 64.

(** Plain [+] in the release profile. *)
Definition u64_wrapping_add (a b : Z) : Z := (a + b) mod 2 ^ 64.

(** A [u32] is a [Z] too. *)
Definition u32_max : Z := 2 ^ 32 - 1.

Definition u32_checked_add (a b : Z) : option Z :=
  if a + b <=? u32_max then Some (a + b) else None.
Definition u32_checked_sub (a b : Z) : option Z := if b <=? a then Some (a - b) else None.
Definition u32_saturating_add (a b : Z) : Z := Z.min (a + b) u32_max.
Definition u64_saturating_sub (a b : Z) : Z := Z.max (a - b) 0.

Definition is_power_of_two (n : Z) : bool := (0 <? n) && (Z.land n (n - 1) =? 0).

Lemma u32_checked_add_Some a b c :
  u32_checked_add a b = Some c ↔ c = a + b ∧ a + b ≤ u32_max.
Proof.
  unfold u32_checked_add. destruct (Z.leb_spec (a + b) u32_max) as [L|L].
  - split; [by intros [= <-]|]. by intros [-> _].
  - split; [done|]. intros [_ ?]. lia.
Qed.

Lemma u32_checked_sub_Some a b c : u32_checked_sub a b = Some c ↔ c = a - b ∧ b ≤ a.
Proof.
  unfold u32_checked_sub. destruct (Z.leb_spec b a) as [L|L].
  - split; [by intros [= <-]|]. by intros [-> _].
  - split; [done|]. intros [_ ?]. lia.
Qed.

Lemma u64_checked_add_Some a b c :
  u64_checked_add a b = Some c ↔ c = a + b ∧ a + b ≤ u64_max.
Proof.
  unfold u64_checked_add. destruct (Z.leb_spec (a + b) u64_max) as [L|L].
  - split; [by intros [= <-]|]. by intros [-> _].
  - split; [done|]. intros [_ ?]. lia.
Qed.

Lemma u64_checked_add_None a b : u64_checked_add a b = None ↔ u64_max < a + b.
Proof.
  unfold u64_checked_add. destruct (Z.leb_spec (a + b) u64_max) as [L|L].
  - split; [done|lia].
  - by split.
Qed.

Lemma u64_wrapping_sub_exact a b :
  is_u64 a → 0 ≤ b ≤ a → u64_wrapping_sub a b = a - b.
Proof.
  unfold is_u64, u64_max, u64_wrapping_sub. intros Ha Hb.
  apply Z.mod_small. lia.
Qed.

(** ** Sums of integer lists *)

Definition Zsum (l : list Z) : Z := foldr Z.add 0 l.

Lemma Zsum_app l k : Zsum (l ++ k) = Zsum l + Zsum k.
Proof. induction l as [|x l IH]; simpl; [done|]. rewrite IH. lia. Qed.

Lemma Zsum_nonneg l : Forall (λ x, 0 ≤ x) l → 0 ≤ Zsum l.
Proof. induction 1; simpl; lia. Qed.

#[global] Instance Zsum_Permutation : Proper ((≡ₚ) ==> (=)) Zsum.
Proof. intros l k. induction 1; simpl; lia. Qed.

(** [try_fold(0, checked_add)]: the total, or [None] once a partial sum leaves [u64]. *)
Fixpoint u64_checked_sum (acc : Z) (l : list Z) : option Z :=
  match l with
  | [] => Some acc
  | x :: l' =>
      match u64_checked_add acc x with
      | Some acc' => u64_checked_sum acc' l'
      | None => None
      end
  end.

Lemma u64_checked_sum_spec l acc :
  Forall (λ x, 0 ≤ x) l → acc ≤ u64_max →
  u64_checked_sum acc l =
    if acc + Zsum l <=? u64_max then Some (acc + Zsum l) else None.
Proof.
  intros Hl. revert acc. induction Hl as [|x l Hx Hl IH]; intros acc Hacc; simpl.
  - rewrite Z.add_0_r. by destruct (Z.leb_spec acc u64_max); [|lia].
  - pose proof (Zsum_nonneg l Hl).
    destruct (u64_checked_add acc x) as [acc'|] eqn:E.
    + apply u64_checked_add_Some in E as [-> ?]. rewrite IH by lia.
      by rewrite !Z.add_assoc.
    + apply u64_checked_add_None in E.
      by destruct (Z.leb_spec (acc + (x + Zsum l)) u64_max); [lia|].
Qed.

(** ** Automation shared by the components *)

Create HintDb bolt.
Create Rewrite HintDb bolt.
#[export] Hint Resolve Zsum_nonneg : bolt.
#[export] Hint Rewrite @rust_ret_eq Zsum_app : bolt.

(** Take apart a monadic run in the hypotheses, one bind at a time. *)
Ltac rust_inv :=
  repeat match goal with
  | H : (_ ≫= _) _ = Some _ |- _ => apply rust_bind_Some in H as (? & ? & ? & ?)
  | H : mret _ _ = Some _ |- _ => injection H as ? ?; subst
  | H : Some _ = Some _ |- _ => injection H as ? ?; subst
  end.

(** Take apart a chain of [?] that came out [Ok]. *)
Ltac result_inv :=
  repeat match goal with
  | H : result_bind _ _ = Ok _ |- _ =>
      let a := fresh "a" in let E := fresh "E" in
      apply result_bind_Ok in H as (a & E & H); simpl in H
  | H : ok_or _ _ = Ok _ |- _ => apply ok_or_Ok in H
  | H : ensure _ _ = Ok _ |- _ => apply ensure_Ok in H
  | H : Ok _ = Ok _ |- _ => injection H as H
  end.

(** Step through a computation whose next action cannot panic. *)
Ltac runs_step :=
  lazymatch goal with
  | |- runs (mret _) _ _ => apply runs_ret
  | |- runs (mbind _ _) _ _ => apply runs_bind
  | |- runs (try_bind _ _) _ _ => apply runs_try
  | |- runs (rust_get _) _ _ => apply runs_get
  | |- runs (rust_modify _) _ _ => apply runs_modify
  | |- safe (mret _) _ _ => apply runs_safe, runs_ret
  | |- safe (mbind _ _) _ _ => apply safe_bind
  | |- safe (try_bind _ _) _ _ => apply safe_try
  | |- safe (rust_get _) _ _ => apply runs_safe, runs_get
  | |- safe (rust_modify _) _ _ => apply runs_safe, runs_modify
  | |- safe (lift_panic _) _ _ => apply safe_lift
  end.

(** Split the boolean comparisons of the code. *)
Ltac zcases :=
  repeat match goal with
  | H : context [?a <=? ?b] |- _ => destruct (Z.leb_spec a b)
  | H : context [?a <? ?b] |- _ => destruct (Z.ltb_spec a b)
  | H : context [?a =? ?b] |- _ => destruct (Z.eqb_spec a b)
  | |- context [?a <=? ?b] => destruct (Z.leb_spec a b)
  | |- context [?a <? ?b] => destruct (Z.ltb_spec a b)
  | |- context [?a =? ?b] => destruct (Z.eqb_spec a b)
  end.
