(* ===== verification/RustText.v ===== *)
(** * Rust strings

    A [String] is a sequence of Unicode scalar values, a list of [Z].  What the
    sources use of it: [trim], [is_empty], [len] and [bytes] of the UTF-8 encoding,
    [to_be_bytes] and [to_string] of a [u64], the Unix reading of a path ([is_absolute],
    [components]), and the iteration of a [BTreeMap<String, _>] by ascending key. *)

From Stdlib Require Import ZArith Lia DecimalString DecimalN.
From stdpp Require Import sorting strings gmap numbers list.
From S2P Require Import Prelude.

Open Scope Z_scope.

Definition text : Type := list Z.
Definition bytes : Type := list Z.

(** An ASCII literal of the source. *)
Definition lit (s : string) : text :=
  (λ a, Z.of_nat (Ascii.nat_of_ascii a)) <$> String.list_ascii_of_string s.

(** ** Whitespace *)

(** [char::is_whitespace]: the Unicode property White_Space. *)
Definition is_whitespace (c : Z) : bool :=
  ((9 <=? c) && (c <=? 13)) || (c =? 32) || (c =? 133) || (c =? 160) || (c =? 5760) ||
  ((8192 <=? c) && (c <=? 8202)) || (c =? 8232) || (c =? 8233) || (c =? 8239) ||
  (c =? 8287) || (c =? 12288).

(** [char::is_control]: the Unicode category Cc. *)
Definition is_control (c : Z) : bool :=
  ((0 <=? c) && (c <=? 31)) || ((127 <=? c) && (c <=? 159)).

Fixpoint trim_start (s : text) : text :=
  match s with
  | [] => []
  | c :: s' => if is_whitespace c then trim_start s' else s
  end.

Definition trim (s : text) : text := reverse (trim_start (reverse (trim_start s))).

Definition is_empty {A} (s : list A) : bool :=
  match s with [] => true | _ :: _ => false end.

(** [s.trim().is_empty()]. *)
Definition blank (s : text) : bool := is_empty (trim s).

Lemma trim_start_nil s : trim_start s = [] ↔ Forall (λ c, is_whitespace c = true) s.
Proof.
  induction s as [|c s IH]; simpl; [by split|].
  rewrite Forall_cons. destruct (is_whitespace c); [rewrite IH; by split; [|intros []]|].
  split; [done|by intros []].
Qed.

Lemma trim_start_head s c s' : trim_start s = c :: s' → is_whitespace c = false.
Proof.
  induction s as [|d s IH]; simpl; [done|].
  destruct (is_whitespace d) eqn:Hd; [done|]. by intros [= -> ->].
Qed.

(** A string is blank exactly when it has no character but whitespace. *)
Lemma blank_spec s : blank s = true ↔ Forall (λ c, is_whitespace c = true) s.
Proof.
  unfold blank, trim. rewrite <- trim_start_nil.
  assert (Hrev : ∀ l : text, is_empty (reverse l) = true ↔ l = []).
  { intros l. split; [|by intros ->]. intros H. destruct (reverse l) as [|x r] eqn:E; [|done].
    by rewrite <- (reverse_involutive l), E. }
  rewrite Hrev, trim_start_nil. split; [|by intros ->].
  intros Hall. rewrite Forall_reverse in Hall.
  destruct (trim_start s) as [|c s'] eqn:E; [done|].
  apply trim_start_head in E. inversion Hall. congruence.
Qed.

(** ** Bytes *)

(** UTF-8 of one scalar value. *)
Definition utf8_char (c : Z) : bytes :=
  if c <? 128 then [c]
  else if c <? 2048 then [192 + c / 64; 128 + c mod 64]
  else if c <? 65536 then [224 + c / 4096; 128 + (c / 64) mod 64; 128 + c mod 64]
  else [240 + c / 262144; 128 + (c / 4096) mod 64; 128 + (c / 64) mod 64; 128 + c mod 64].

Definition as_bytes (s : text) : bytes := s ≫= utf8_char.

Definition len (s : text) : Z := Z.of_nat (length (as_bytes s)).

Definition is_ascii_hexdigit (b : Z) : bool :=
  ((48 <=? b) && (b <=? 57)) || ((65 <=? b) && (b <=? 70)) || ((97 <=? b) && (b <=? 102)).

(** The [n] low bytes of [v], most significant first. *)
Fixpoint be_bytes (n : nat) (v : Z) : bytes :=
  match n with
  | O => []
  | S n => be_bytes n (v / 256) ++ [v mod 256]
  end.

Definition to_be_bytes (v : Z) : bytes := be_bytes 8 v.

Lemma be_bytes_length n v : length (be_bytes n v) = n.
Proof. revert v. induction n as [|n IH]; intros v; simpl; [done|]. rewrite length_app, IH. simpl. lia. Qed.

Lemma be_bytes_inj n v w :
  0 ≤ v < 256 ^ Z.of_nat n → 0 ≤ w < 256 ^ Z.of_nat n → be_bytes n v = be_bytes n w → v = w.
Proof.
  revert v w. induction n as [|n IH]; intros v w Hv Hw; simpl; [lia|].
  rewrite Nat2Z.inj_succ, Z.pow_succ_r in Hv, Hw by lia.
  intros [Hd [= Hm]]%app_inj_2; [|done].
  assert (v / 256 = w / 256).
  { apply IH; [| |done]; split; try (apply Z.div_pos; lia); apply Z.div_lt_upper_bound; lia. }
  rewrite (Z.div_mod v 256), (Z.div_mod w 256) by lia. congruence.
Qed.

Lemma to_be_bytes_inj v w : is_u64 v → is_u64 w → to_be_bytes v = to_be_bytes w → v = w.
Proof. unfold is_u64, u64_max. intros Hv Hw. apply be_bytes_inj; simpl; lia. Qed.

(** ** Paths *)

Definition slash : Z := 47.
Definition dot : Z := 46.

(** The segments of a path between its slashes. *)
Fixpoint split_slash (s : text) : list text :=
  match s with
  | [] => [[]]
  | c :: s' =>
      if c =? slash then [] :: split_slash s'
      else match split_slash s' with
           | seg :: segs => (c :: seg) :: segs
           | [] => [[c]]
           end
  end.

Definition path_is_absolute (s : text) : bool :=
  match s with c :: _ => c =? slash | [] => false end.

(** Some component of the path is [Component::ParentDir]. *)
Definition has_parent_dir (s : text) : bool :=
  existsb (λ seg, bool_decide (seg = [dot; dot])) (split_slash s).

(** ** UTF-8 is injective *)

Definition scalar (c : Z) : Prop := 0 ≤ c < 1114112.

(** The lead byte tells the length of the encoding and the top bits of the value. *)
Lemma utf8_char_app_inj c d r r' :
  scalar c → scalar d → utf8_char c ++ r = utf8_char d ++ r' → c = d ∧ r = r'.
Proof.
  unfold scalar, utf8_char. intros Hc Hd.
  destruct (Z.ltb_spec c 128), (Z.ltb_spec c 2048), (Z.ltb_spec c 65536); try lia;
  destruct (Z.ltb_spec d 128), (Z.ltb_spec d 2048), (Z.ltb_spec d 65536); try lia; simpl;
  intros E; simplify_eq; split; try done;
  repeat match goal with H : _ + _ = _ + _ |- _ => revert H end;
  repeat match goal with H : _ = _ + _ |- _ => revert H end;
  Z.to_euclidean_division_equations; lia.
Qed.

Lemma utf8_char_ne_nil c : utf8_char c ≠ [].
Proof. unfold utf8_char. by repeat case_match. Qed.

Lemma as_bytes_inj s t :
  Forall scalar s → Forall scalar t → as_bytes s = as_bytes t → s = t.
Proof.
  intros Hs. revert t. induction Hs as [|c s Hc Hs IH]; intros [|d t] Ht; unfold as_bytes; csimpl.
  - done.
  - intros E. symmetry in E. apply app_eq_nil in E as [E _]. by apply utf8_char_ne_nil in E.
  - intros E. apply app_eq_nil in E as [E _]. by apply utf8_char_ne_nil in E.
  - apply Forall_cons in Ht as [Hd Ht]. intros [-> E]%utf8_char_app_inj; [|done|done].
    f_equal. by apply IH.
Qed.

(** No character but NUL encodes to a zero byte. *)
Lemma as_bytes_no_nul s : Forall (λ c, scalar c ∧ c ≠ 0) s → Forall (λ b, b ≠ 0) (as_bytes s).
Proof.
  induction 1 as [|c s [Hc Hn] Hs IH]; unfold as_bytes; csimpl; [constructor|].
  apply Forall_app. split; [|done]. unfold scalar, utf8_char in *.
  repeat case_match; repeat constructor; zcases; Z.to_euclidean_division_equations; lia.
Qed.

(** A NUL-terminated field followed by anything is uniquely split. *)
Lemma nul_split (a b r r' : bytes) :
  Forall (λ x, x ≠ 0) a → Forall (λ x, x ≠ 0) b →
  a ++ [0] ++ r = b ++ [0] ++ r' → a = b ∧ r = r'.
Proof.
  intros Ha. revert b. induction Ha as [|x a Hx Ha IH]; intros [|y b] Hb; simpl.
  - by intros [= ->].
  - apply Forall_cons in Hb as [? _]. intros [= <- _]. done.
  - by intros [= ? _].
  - apply Forall_cons in Hb as [_ Hb]. intros [= <- E]. destruct (IH b Hb E) as [-> ->]. done.
Qed.

(** ** Numbers in text, and ordered maps *)

(** [n.to_string()] of an unsigned integer. *)
Definition u64_to_string (n : Z) : text :=
  lit (NilZero.string_of_uint (N.to_uint (Z.to_N n))).

(** [String: Ord]: lexicographic; UTF-8 preserves the order of scalar values. *)
Fixpoint text_leb (s t : text) : bool :=
  match s, t with
  | [], _ => true
  | _ :: _, [] => false
  | a :: s', b :: t' => if a =? b then text_leb s' t' else a <? b
  end.

Definition key_le {A} (x y : text * A) : Prop := text_leb x.1 y.1 = true.

#[global] Instance key_le_dec {A} : RelDecision (key_le (A := A)).
Proof. intros x y. unfold key_le. apply _. Defined.

(** [map.iter()] of a [BTreeMap<String, A>]. *)
Definition btree_iter {A} (m : gmap text A) : list (text * A) :=
  merge_sort key_le (map_to_list m).

Lemma btree_iter_perm {A} (m : gmap text A) : btree_iter m ≡ₚ map_to_list m.
Proof. apply merge_sort_Permutation. Qed.

Lemma elem_of_btree_iter {A} (m : gmap text A) k a : (k, a) ∈ btree_iter m ↔ m !! k = Some a.
Proof. by rewrite btree_iter_perm, elem_of_map_to_list. Qed.

Lemma btree_iter_fst {A} (m : gmap text A) : NoDup (btree_iter m).*1.
Proof. rewrite btree_iter_perm. apply NoDup_fst_map_to_list. Qed.

(** [bolt_v3_numeric::is_sha256_hex_digest]: 64 bytes, each a digit or [a] to [f]. *)
Definition is_sha256_hex_digest (value : text) : bool :=
  (len value =? 64) &&
  forallb (λ b, ((48 <=? b) && (b <=? 57)) || ((97 <=? b) && (b <=? 102))) (as_bytes value).
