(* ===== verification/BTree.v ===== *)
(** * Ordered maps

    [std::collections::BTreeMap] and [BTreeSet] as association lists in ascending order
    of their keys, for the code whose results depend on the order of iteration or that
    updates entries in place ([entry(..).or_insert], [entry(..).and_modify(..).or_insert]).
    The order of the keys is a class with its laws; tuples compare lexicographically. *)

From Stdlib Require Import ZArith Lia.
From stdpp Require Import sorting strings gmap numbers list.
From S2P Require Import Prelude.
From S2P Require Import RustText.

Open Scope Z_scope.

(** ** Keys *)

(** [Ord::cmp]. *)
Class Ord (K : Type) := ord_cmp : K → K → comparison.

(** What [Ord] documents: a total order that agrees with equality. *)
Class OrdLaws (K : Type) `{Ord K} : Prop := {
  cmp_eq (a b : K) : ord_cmp a b = Eq ↔ a = b;
  cmp_swap (a b : K) : ord_cmp b a = CompOpp (ord_cmp a b);
  cmp_trans (a b c : K) : ord_cmp a b = Lt → ord_cmp b c = Lt → ord_cmp a c = Lt;
}.

#[global] Instance ord_Z : Ord Z := Z.compare.
#[global] Instance ord_Z_laws : OrdLaws Z.
Proof.
  split; unfold ord_cmp, ord_Z; intros *.
  - apply Z.compare_eq_iff.
  - apply Z.compare_antisym.
  - rewrite !Z.compare_lt_iff. lia.
Qed.

(** [(a, b).cmp(..)]. *)
#[global] Instance ord_pair {A B} `{Ord A, Ord B} : Ord (A * B) := λ x y,
  match ord_cmp x.1 y.1 with
  | Eq => ord_cmp x.2 y.2
  | c => c
  end.

(** [str::cmp]: UTF-8 preserves the order of the scalar values. *)
Fixpoint list_cmp {A} `{Ord A} (s t : list A) : comparison :=
  match s, t with
  | [], [] => Eq
  | [], _ :: _ => Lt
  | _ :: _, [] => Gt
  | a :: s', b :: t' => match ord_cmp a b with Eq => list_cmp s' t' | c => c end
  end.
#[global] Instance ord_list {A} `{Ord A} : Ord (list A) := list_cmp.

Section Laws.
Context `{HA : OrdLaws A} `{HB : OrdLaws B}.

Lemma cmp_refl (a : A) : ord_cmp a a = Eq.
Proof. by apply cmp_eq. Qed.

Lemma cmp_gt (a b : A) : ord_cmp a b = Gt ↔ ord_cmp b a = Lt.
Proof. rewrite (cmp_swap a b). destruct (ord_cmp a b); simpl; split; congruence. Qed.

(** Equality of keys is decidable; a local instance where it is needed. *)
Definition ord_eq_decision : EqDecision A.
Proof.
  intros a b. destruct (ord_cmp a b) eqn:E; [left; by apply cmp_eq|right|right];
    intros ->; by rewrite cmp_refl in E.
Defined.

Lemma ord_pair_cmp (x y : A * B) :
  ord_cmp x y = match ord_cmp x.1 y.1 with Eq => ord_cmp x.2 y.2 | c => c end.
Proof. done. Qed.

#[global] Instance ord_pair_laws : OrdLaws (A * B).
Proof.
  split.
  - intros [a b] [a' b']. rewrite ord_pair_cmp; simpl. destruct (ord_cmp a a') eqn:E.
    + apply cmp_eq in E as ->. rewrite cmp_eq. split; congruence.
    + split; [done|]. intros [= -> ->]. by rewrite cmp_refl in E.
    + split; [done|]. intros [= -> ->]. by rewrite cmp_refl in E.
  - intros [a b] [a' b']. rewrite !ord_pair_cmp; simpl. rewrite (cmp_swap a a').
    destruct (ord_cmp a a'); simpl; [|done|done]. apply cmp_swap.
  - intros [a b] [a' b'] [a'' b'']. rewrite !ord_pair_cmp; simpl.
    destruct (ord_cmp a a') eqn:E1; [apply cmp_eq in E1 as ->; by destruct (ord_cmp a' a''); [apply cmp_trans|..]| |done].
    intros _. destruct (ord_cmp a' a'') eqn:E2; [apply cmp_eq in E2 as ->; by rewrite E1| |done].
    by rewrite (cmp_trans _ _ _ E1 E2).
Qed.

#[global] Instance ord_list_laws : OrdLaws (list A).
Proof.
  split; unfold ord_cmp, ord_list.
  - intros s. induction s as [|a s IH]; intros [|b t]; simpl; try (by split).
    destruct (ord_cmp a b) eqn:E.
    + apply cmp_eq in E as ->. rewrite IH. split; congruence.
    + split; [done|]. intros [= -> ->]. by rewrite cmp_refl in E.
    + split; [done|]. intros [= -> ->]. by rewrite cmp_refl in E.
  - intros s. induction s as [|a s IH]; intros [|b t]; simpl; try done.
    rewrite (cmp_swap a b). destruct (ord_cmp a b); simpl; [|done|done]. apply IH.
  - intros s. induction s as [|a s IH]; intros [|b t] [|c u]; simpl; try done.
    destruct (ord_cmp a b) eqn:E1; [apply cmp_eq in E1 as ->; by destruct (ord_cmp b c); [apply IH|..]| |done].
    intros _. destruct (ord_cmp b c) eqn:E2; [apply cmp_eq in E2 as ->; by rewrite E1| |done].
    by rewrite (cmp_trans _ _ _ E1 E2).
Qed.
End Laws.

(** [slice.contains(&x)]. *)
Definition slice_contains {A} `{Ord A} (l : list A) (x : A) : bool :=
  existsb (λ y, match ord_cmp y x with Eq => true | _ => false end) l.

Lemma slice_contains_spec {A} `{OrdLaws A} (l : list A) x : slice_contains l x = true ↔ x ∈ l.
Proof.
  unfold slice_contains. rewrite existsb_exists. split.
  - intros (y & Hy & E). destruct (ord_cmp y x) eqn:C; [|done|done]. apply cmp_eq in C as ->.
    by apply list_elem_of_In.
  - intros Hx. exists x. rewrite cmp_refl. split; [by apply list_elem_of_In|done].
Qed.

(** ** Maps *)

Section Map.
Context `{HK : OrdLaws K} {V : Type}.

Definition BTreeMap : Type := list (K * V).

(** [map.get(&k)]. *)
Fixpoint bt_get (m : BTreeMap) (k : K) : option V :=
  match m with
  | [] => None
  | (k', v) :: m' =>
      match ord_cmp k k' with
      | Lt => None
      | Eq => Some v
      | Gt => bt_get m' k
      end
  end.

(** [map.entry(k).and_modify(|old| *old = f(old)).or_insert(v)]. *)
Fixpoint bt_upsert (f : V → V) (m : BTreeMap) (k : K) (v : V) : BTreeMap :=
  match m with
  | [] => [(k, v)]
  | (k', v') :: m' =>
      match ord_cmp k k' with
      | Lt => (k, v) :: m
      | Eq => (k', f v') :: m'
      | Gt => (k', v') :: bt_upsert f m' k v
      end
  end.

(** [map.entry(k).or_insert(v)] and [map.insert(k, v)]. *)
Definition bt_or_insert : BTreeMap → K → V → BTreeMap := bt_upsert id.
Definition bt_insert (m : BTreeMap) (k : K) (v : V) : BTreeMap := bt_upsert (λ _, v) m k v.

Definition bt_keys (m : BTreeMap) : list K := m.*1.
Definition bt_values (m : BTreeMap) : list V := m.*2.

(** Keys ascend strictly. *)
Definition bt_sorted (m : BTreeMap) : Prop := StronglySorted (λ a b, ord_cmp a b = Lt) (bt_keys m).

Lemma bt_upsert_keys f m k v k' : k' ∈ bt_keys (bt_upsert f m k v) ↔ k' = k ∨ k' ∈ bt_keys m.
Proof.
  unfold bt_keys. induction m as [|[k0 v0] m IH]; simpl; [set_solver|].
  destruct (ord_cmp k k0) eqn:E; csimpl; rewrite ?elem_of_cons, ?IH; [|set_solver..].
  apply cmp_eq in E. set_solver.
Qed.

Lemma bt_upsert_sorted f m k v : bt_sorted m → bt_sorted (bt_upsert f m k v).
Proof.
  unfold bt_sorted. induction m as [|[k0 v0] m IH]; simpl; [repeat constructor|].
  intros [Hm H0]%StronglySorted_inv. destruct (ord_cmp k k0) eqn:E; simpl.
  - by constructor.
  - constructor; [by constructor|]. constructor; [done|].
    apply (Forall_impl _ _ _ H0). intros x. by apply cmp_trans.
  - constructor; [by apply IH|]. apply Forall_forall. intros x [->|Hx]%bt_upsert_keys.
    + by apply cmp_gt.
    + by apply (proj1 (Forall_forall _ _) H0).
Qed.

Lemma bt_get_None m k : bt_sorted m → bt_get m k = None ↔ k ∉ bt_keys m.
Proof.
  unfold bt_sorted. induction m as [|[k0 v0] m IH]; simpl; [split; [set_solver|done]|].
  intros [Hm H0]%StronglySorted_inv. rewrite not_elem_of_cons. destruct (ord_cmp k k0) eqn:E.
  - apply cmp_eq in E. naive_solver.
  - split; [|done]. intros _. split.
    + intros ->. by rewrite cmp_refl in E.
    + intros Hk. apply (proj1 (Forall_forall _ _) H0) in Hk.
      pose proof (cmp_trans _ _ _ E Hk) as Hc. by rewrite cmp_refl in Hc.
  - rewrite (IH Hm). split; [|tauto]. intros Hk. split; [|done].
    intros ->. by rewrite cmp_refl in E.
Qed.

Lemma bt_get_Some m k v : bt_sorted m → bt_get m k = Some v ↔ (k, v) ∈ m.
Proof.
  unfold bt_sorted. induction m as [|[k0 v0] m IH]; simpl; [split; [done|set_solver]|].
  intros Hs. pose proof Hs as [Hm H0]%StronglySorted_inv. rewrite elem_of_cons.
  assert (Hgt : ∀ w, (k, w) ∈ m → ord_cmp k0 k = Lt).
  { intros w Hw. apply (proj1 (Forall_forall _ _) H0). apply list_elem_of_fmap. by exists (k, w). }
  destruct (ord_cmp k k0) eqn:E.
  - apply cmp_eq in E as ->. split; [intros [= ->]; by left|].
    intros [[= ->]|Hin]; [done|]. apply Hgt in Hin. by rewrite cmp_refl in Hin.
  - split; [done|]. intros [[= -> ->]|Hin]; [by rewrite cmp_refl in E|].
    apply Hgt in Hin. apply cmp_gt in Hin. congruence.
  - rewrite (IH Hm). split; [by right|]. intros [[= -> ->]|?]; [by rewrite cmp_refl in E|done].
Qed.

Lemma bt_get_upsert f m k v : bt_sorted m →
  bt_get (bt_upsert f m k v) k = Some (from_option f v (bt_get m k)).
Proof.
  unfold bt_sorted. induction m as [|[k0 v0] m IH]; simpl; [by rewrite cmp_refl|].
  intros [Hm H0]%StronglySorted_inv. destruct (ord_cmp k k0) eqn:E; simpl; rewrite ?E; [done|by rewrite cmp_refl|].
  by apply IH.
Qed.

Lemma bt_get_upsert_ne f m k v k' : k' ≠ k → bt_get (bt_upsert f m k v) k' = bt_get m k'.
Proof.
  intros Hne. assert (Hk : ord_cmp k' k ≠ Eq) by by rewrite cmp_eq.
  induction m as [|[k0 v0] m IH]; simpl.
  - by destruct (ord_cmp k' k).
  - destruct (ord_cmp k k0) eqn:E; simpl; [| |by rewrite IH].
    { apply cmp_eq in E as <-. by destruct (ord_cmp k' k). }
    destruct (ord_cmp k' k) eqn:E'; [done| |done]. by rewrite (cmp_trans _ _ _ E' E).
Qed.

Lemma bt_sorted_NoDup m : bt_sorted m → NoDup (bt_keys m).
Proof.
  unfold bt_sorted. induction 1 as [|k ks Hs IH Hk]; constructor; [|done].
  intros Hin. apply (proj1 (Forall_forall _ _) Hk) in Hin. by rewrite cmp_refl in Hin.
Qed.

(** [for (k, v) in l { map.entry(k).or_insert(v); }]: the first of equal keys is kept. *)
Definition bt_first (l : list (K * V)) : BTreeMap :=
  foldl (λ m e, bt_or_insert m e.1 e.2) [] l.

Lemma foldl_or_insert l m : bt_sorted m →
  let m' := foldl (λ m e, bt_or_insert m e.1 e.2) m l in
  bt_sorted m' ∧
  (∀ k, k ∈ bt_keys m' ↔ k ∈ bt_keys m ∨ k ∈ l.*1) ∧
  (∀ k v, bt_get m k = Some v → bt_get m' k = Some v) ∧
  (∀ e, e ∈ m' → e ∈ m ∨ e ∈ l).
Proof.
  revert m. induction l as [|[k0 v0] l IH]; intros m Hm; csimpl; [set_solver|].
  destruct (IH (bt_or_insert m k0 v0)) as (Hs & Hk & Hg & He); [by apply bt_upsert_sorted|].
  split; [done|]. split; [|split].
  - intros k. rewrite Hk. unfold bt_or_insert. rewrite bt_upsert_keys. set_solver.
  - intros k v Hv. apply Hg. unfold bt_or_insert. destruct (ord_cmp k k0) eqn:E;
      [|rewrite bt_get_upsert_ne; [done|intros ->; by rewrite cmp_refl in E]..].
    apply cmp_eq in E as ->. by rewrite bt_get_upsert, Hv.
  - intros [k v] [Hin|Hin]%He; [|set_solver]. rewrite elem_of_cons.
    apply bt_get_Some in Hin; [|by apply bt_upsert_sorted]. unfold bt_or_insert in Hin.
    destruct (ord_cmp k k0) eqn:E;
      [|rewrite bt_get_upsert_ne in Hin by (intros ->; by rewrite cmp_refl in E);
        apply bt_get_Some in Hin; tauto..].
    apply cmp_eq in E as ->. rewrite bt_get_upsert in Hin by done.
    destruct (bt_get m k0) eqn:G; simpl in Hin; [|naive_solver].
    apply bt_get_Some in G; naive_solver.
Qed.

Lemma bt_first_sorted l : bt_sorted (bt_first l).
Proof. apply foldl_or_insert. constructor. Qed.

Lemma bt_first_keys l k : k ∈ bt_keys (bt_first l) ↔ k ∈ l.*1.
Proof.
  destruct (foldl_or_insert l []) as (_ & Hk & _); [constructor|]. unfold bt_first. rewrite Hk.
  set_solver.
Qed.

Lemma bt_first_entries l e : e ∈ bt_first l → e ∈ l.
Proof.
  destruct (foldl_or_insert l []) as (_ & _ & _ & He); [constructor|].
  intros [Hin|?]%He; [set_solver|done].
Qed.

(** [map.remove(&k)]. *)
Fixpoint bt_remove (m : BTreeMap) (k : K) : BTreeMap :=
  match m with
  | [] => []
  | (k', v) :: m' =>
      match ord_cmp k k' with
      | Lt => m
      | Eq => m'
      | Gt => (k', v) :: bt_remove m' k
      end
  end.

Lemma bt_remove_Some m k v : bt_get m k = Some v → m ≡ₚ (k, v) :: bt_remove m k.
Proof.
  induction m as [|[k' v'] m IH]; simpl; [done|]. destruct (ord_cmp k k') eqn:E; [|done|].
  - apply cmp_eq in E as ->. by intros [= ->].
  - intros Hm. rewrite (IH Hm) at 1. constructor.
Qed.

Lemma bt_remove_None m k : bt_get m k = None → bt_remove m k = m.
Proof.
  induction m as [|[k' v'] m IH]; simpl; [done|]. destruct (ord_cmp k k') eqn:E; [done|done|].
  intros Hm. by rewrite IH.
Qed.

Lemma bt_remove_elem m k e : e ∈ bt_remove m k → e ∈ m.
Proof.
  induction m as [|[k' v'] m IH]; simpl; [done|]. destruct (ord_cmp k k'); set_solver.
Qed.

Lemma bt_remove_sorted m k : bt_sorted m → bt_sorted (bt_remove m k).
Proof.
  unfold bt_sorted. induction m as [|[k' v'] m IH]; simpl; [done|].
  intros [Hm Hk]%StronglySorted_inv. destruct (ord_cmp k k'); [done|by constructor|]. simpl.
  constructor; [by apply IH|]. rewrite Forall_forall in Hk |- *. intros x Hx. apply Hk.
  unfold bt_keys in *. apply list_elem_of_fmap in Hx as (e & -> & He). apply list_elem_of_fmap.
  exists e. split; [done|]. by eapply bt_remove_elem.
Qed.

Lemma bt_remove_length m k : (length (bt_remove m k) ≤ length m)%nat.
Proof. induction m as [|[k' v'] m IH]; simpl; [done|]. destruct (ord_cmp k k'); simpl; lia. Qed.

Lemma bt_get_remove m k : bt_sorted m → bt_get (bt_remove m k) k = None.
Proof.
  intros Hm. apply bt_get_None; [by apply bt_remove_sorted|].
  destruct (bt_get m k) as [v|] eqn:Hg.
  - pose proof (bt_sorted_NoDup m Hm) as Hn. unfold bt_keys in *. rewrite (bt_remove_Some _ _ _ Hg) in Hn.
    csimpl in Hn. by apply NoDup_cons in Hn as [? _].
  - rewrite (bt_remove_None _ _ Hg). by apply bt_get_None.
Qed.

Lemma bt_get_remove_ne m k k' : bt_sorted m → k' ≠ k → bt_get (bt_remove m k) k' = bt_get m k'.
Proof.
  intros Hm Hne. pose proof (bt_remove_sorted m k Hm) as Hr. apply option_eq. intros v.
  rewrite !bt_get_Some by done. destruct (bt_get m k) as [v'|] eqn:Hg.
  - rewrite (bt_remove_Some _ _ _ Hg) at 2. rewrite elem_of_cons. split; [by right|]. intros [[= -> _]|?]; done.
  - by rewrite bt_remove_None.
Qed.

(** Removing what was just inserted. *)
Lemma bt_remove_insert m k v : bt_get m k = None → bt_remove (bt_insert m k v) k = m.
Proof.
  unfold bt_insert. induction m as [|[k' v'] m IH]; simpl; [by rewrite cmp_refl|].
  destruct (ord_cmp k k') eqn:E; simpl; rewrite ?E, ?cmp_refl; [done|done|]. intros Hm. by rewrite IH.
Qed.

End Map.
Arguments BTreeMap K V : clear implicits.

(** Values collected by a key of their own: one value per key, none lost, none invented. *)
Lemma bt_first_by_key `{OrdLaws A} {B : Type} (key : B → A) (l : list B) :
  let kept := bt_values (bt_first ((λ b, (key b, b)) <$> l)) in
  NoDup (key <$> kept) ∧
  (∀ b, b ∈ kept → b ∈ l) ∧
  (∀ b, b ∈ l → ∃ b', b' ∈ kept ∧ key b' = key b).
Proof.
  simpl. set (entries := (λ b, (key b, b)) <$> l).
  assert (Hkey : ∀ k b, (k, b) ∈ bt_first entries → k = key b ∧ b ∈ l).
  { intros k b (b' & [= -> ->] & Hin)%bt_first_entries%list_elem_of_fmap. done. }
  assert (Hfst : key <$> bt_values (bt_first entries) = bt_keys (bt_first entries)).
  { unfold bt_values, bt_keys. rewrite <- list_fmap_compose. apply list_fmap_ext.
    intros i [k b] Hi. by apply list_elem_of_lookup_2, Hkey in Hi as [-> _]. }
  split; [|split].
  - rewrite Hfst. apply bt_sorted_NoDup, bt_first_sorted.
  - intros b ((k & b') & -> & [_ Hin]%Hkey)%list_elem_of_fmap. done.
  - intros b Hb. assert (Hk : key b ∈ bt_keys (bt_first entries)).
    { rewrite bt_first_keys. unfold entries. rewrite <- list_fmap_compose. apply list_elem_of_fmap. by exists b. }
    rewrite <- Hfst in Hk. apply list_elem_of_fmap in Hk as (b' & ? & ?). by exists b'.
Qed.
Create HintDb btree.
#[export] Hint Resolve bt_first_sorted bt_upsert_sorted : btree.
