(* ===== verification/NtTypes.v ===== *)
(** * NautilusTrader types

    What the code uses of the third-party platform: its enumerations, and a class
    [NtTypes] of its identifiers, prices and quantities with the operations called on
    them.  The laws are those of [Ord] and [Eq]; [demo_nt] is a concrete instance. *)

From Stdlib Require Import ZArith Lia.
From stdpp Require Import sorting strings gmap numbers list.
From S2P Require Import Prelude.
From S2P Require Import RustText.
From S2P Require Import BTree.

Open Scope Z_scope.

(** ** Enumerations *)

Inductive OrderSide : Type := OrderBuy | OrderSell | NoOrderSide.
Inductive PositionSide : Type := PositionLong | PositionShort | PositionFlat | NoPositionSide.
Inductive TradingState : Type := TradingActive | TradingHalted | TradingReducing.

Inductive OrderStatus : Type :=
| StatusInitialized
| StatusDenied
| StatusEmulated
| StatusReleased
| StatusSubmitted
| StatusAccepted
| StatusRejected
| StatusCanceled
| StatusExpired
| StatusTriggered
| StatusPendingUpdate
| StatusPendingCancel
| StatusPartiallyFilled
| StatusFilled
| StatusVoided.

Inductive OrderType : Type :=
| TypeMarket | TypeLimit | TypeStopMarket | TypeStopLimit | TypeMarketToLimit
| TypeMarketIfTouched | TypeLimitIfTouched | TypeTrailingStopMarket | TypeTrailingStopLimit.

Inductive TimeInForce : Type :=
| TifGtc | TifIoc | TifFok | TifGtd | TifDay | TifAtTheOpen | TifAtTheClose.

#[global] Instance OrderSide_eq_dec : EqDecision OrderSide.
Proof. solve_decision. Defined.
#[global] Instance PositionSide_eq_dec : EqDecision PositionSide.
Proof. solve_decision. Defined.
#[global] Instance TradingState_eq_dec : EqDecision TradingState.
Proof. solve_decision. Defined.
#[global] Instance OrderStatus_eq_dec : EqDecision OrderStatus.
Proof. solve_decision. Defined.
#[global] Instance OrderType_eq_dec : EqDecision OrderType.
Proof. solve_decision. Defined.
#[global] Instance TimeInForce_eq_dec : EqDecision TimeInForce.
Proof. solve_decision. Defined.

(** ** Identifiers, prices and quantities *)

Class NtTypes := {
  AccountId : Type;
  InstrumentId : Type;
  StrategyId : Type;
  ClientOrderId : Type;
  PositionId : Type;
  Quantity : Type;
  Price : Type;
  TriggerType : Type;
  TrailingOffsetType : Type;
  account_ord :: Ord AccountId;
  instrument_ord :: Ord InstrumentId;
  strategy_ord :: Ord StrategyId;
  client_order_ord :: Ord ClientOrderId;
  position_ord :: Ord PositionId;
  account_ord_laws :: OrdLaws AccountId;
  instrument_ord_laws :: OrdLaws InstrumentId;
  strategy_ord_laws :: OrdLaws StrategyId;
  client_order_ord_laws :: OrdLaws ClientOrderId;
  position_ord_laws :: OrdLaws PositionId;
  quantity_eq_dec :: EqDecision Quantity;
  account_new_checked : text → option AccountId;            (* AccountId::new_checked *)
  instrument_from_as_ref : text → option InstrumentId;      (* InstrumentId::from_as_ref *)
  strategy_new_checked : text → option StrategyId;          (* StrategyId::new_checked *)
  client_order_new_checked : text → option ClientOrderId;   (* ClientOrderId::new_checked *)
  client_order_from : text → option ClientOrderId;          (* ClientOrderId::from, which panics *)
  quantity_is_zero : Quantity → bool;                       (* Quantity::is_zero *)
  price_is_positive : Price → bool;                         (* Price::is_positive *)
  price_ltb : Price → Price → bool;                         (* a < b *)
  order_status_is_closed : OrderStatus → bool;              (* OrderStatus::is_closed *)
}.

(** A concrete platform: identifiers are their text, amounts are in raw units. *)
Definition non_blank (s : text) : option text := if blank s then None else Some s.

(** A client order id is in ASCII. *)
Definition ascii_only (s : text) : option text := if forallb (λ c, c <? 128) s then non_blank s else None.

Definition demo_nt : NtTypes := {|
  AccountId := text; InstrumentId := text; StrategyId := text; ClientOrderId := text;
  PositionId := text; Quantity := Z; Price := Z; TriggerType := Z; TrailingOffsetType := Z;
  account_new_checked := non_blank;
  instrument_from_as_ref := non_blank;
  strategy_new_checked := non_blank;
  client_order_new_checked := ascii_only;
  client_order_from := ascii_only;
  quantity_is_zero q := q =? 0;
  price_is_positive p := 0 <? p;
  price_ltb := Z.ltb;
  order_status_is_closed s :=
    match s with
    | StatusDenied | StatusRejected | StatusCanceled | StatusExpired | StatusFilled => true
    | _ => false
    end;
|}.
