(* ===== verification/OutcomeVerdicts.v ===== *)
(** * Verdicts over keyed outcomes

    The kill switch judges the outcomes of its cancel and of its flatten commands by the
    same two loops: collect the reported outcomes per command, keeping the worse of two
    and refusing one that names no command, then merge the verdicts of all commands, a
    command without an outcome counting as [missing].  Here once, over any order of
    severity; [aggregate_rank] says what the loops compute: the verdict is at least as
    severe as [n] exactly when a command is missing and that is as severe, or a reported
    outcome is. *)

From Stdlib Require Import ZArith Lia.
From stdpp Require Import sorting strings gmap numbers list.
From S2P Require Import Prelude.
From S2P Require Import BTree.

Open Scope Z_scope.

Section Aggregation.
Context `{HK : OrdLaws K} {O R E : Type}.
Context (worse : O → O → O) (verdict : O → R) (join : R → R → R) (best missing : R).

(** [for outcome in outcomes { .. entry(k).and_modify(worse).or_insert(o) }]. *)
Fixpoint collect_outcomes (known : BTreeMap K unit) (unknown : E) (acc : BTreeMap K O)
    (outcomes : list (K * O)) : Result (BTreeMap K O) E :=
  match outcomes with
  | [] => Ok acc
  | (k, o) :: outcomes' =>
      match bt_get known k with
      | None => Err unknown
      | Some _ =>
          collect_outcomes known unknown (bt_upsert (λ existing, worse existing o) acc k o) outcomes'
      end
  end.

(** [for command in commands { result = join(result, ..) }]. *)
Definition merge_verdicts (reported : BTreeMap K O) (commands : list K) : R :=
  foldl (λ result k, join result (from_option verdict missing (bt_get reported k))) best commands.

Definition expected_keys (commands : list K) : BTreeMap K unit :=
  bt_first ((λ k, (k, tt)) <$> commands).

Definition aggregate (unknown : E) (commands : list K) (outcomes : list (K * O)) : Result R E :=
  reported ←? collect_outcomes (expected_keys commands) unknown [] outcomes;
  Ok (merge_verdicts reported commands).

Lemma expected_keys_None commands k : bt_get (expected_keys commands) k = None ↔ k ∉ commands.
Proof.
  unfold expected_keys. rewrite bt_get_None by auto with btree.
  rewrite bt_first_keys, <- list_fmap_compose. unfold compose. simpl. by rewrite list_fmap_id.
Qed.

Lemma expected_keys_Some commands k u : bt_get (expected_keys commands) k = Some u → k ∈ commands.
Proof.
  unfold expected_keys. intros Hin%bt_get_Some; [|auto with btree].
  apply bt_first_entries, list_elem_of_fmap in Hin as (k' & [= -> ->] & Hin). done.
Qed.

(** An outcome under no command ends the collection; otherwise all are collected. *)
Lemma aggregate_Err unknown commands outcomes e :
  aggregate unknown commands outcomes = Err e ↔
  e = unknown ∧ ∃ k o, (k, o) ∈ outcomes ∧ k ∉ commands.
Proof.
  unfold aggregate. generalize (@nil (K * O)) as acc.
  induction outcomes as [|[k o] outcomes IH]; intros acc; simpl.
  - split; [done|]. intros (_ & k & o & Hin & _). by apply not_elem_of_nil in Hin.
  - destruct (bt_get (expected_keys commands) k) eqn:G.
    + apply expected_keys_Some in G. rewrite IH. set_solver.
    + apply expected_keys_None in G. simpl. split; [|by intros [-> _]].
      intros [= ->]. split; [done|]. exists k, o. set_solver.
Qed.

Lemma aggregate_known unknown commands outcomes r k o :
  aggregate unknown commands outcomes = Ok r → (k, o) ∈ outcomes → k ∈ commands.
Proof.
  intros Hok Hin. destruct (bt_get (expected_keys commands) k) eqn:G; [by eapply expected_keys_Some|].
  apply expected_keys_None in G.
  assert (aggregate unknown commands outcomes = Err unknown); [|congruence].
  apply aggregate_Err. split; [done|]. by exists k, o.
Qed.

(** Severity: the merge takes the maximum, and the worse of two outcomes has it. *)
Context (rank : R → Z).
Hypothesis rank_join : ∀ a b, rank (join a b) = Z.max (rank a) (rank b).
Hypothesis rank_worse : ∀ a b, rank (verdict (worse a b)) = Z.max (rank (verdict a)) (rank (verdict b)).

(** What is collected of [outcomes]. *)
Definition collected (outcomes : list (K * O)) (m : BTreeMap K O) : Prop :=
  bt_sorted m ∧
  (∀ k, bt_get m k = None ↔ k ∉ outcomes.*1) ∧
  (∀ k v n, bt_get m k = Some v → n ≤ rank (verdict v) ↔ ∃ o, (k, o) ∈ outcomes ∧ n ≤ rank (verdict o)).

Lemma collected_snoc outcomes m k o :
  collected outcomes m →
  collected (outcomes ++ [(k, o)]) (bt_upsert (λ existing, worse existing o) m k o).
Proof.
  intros (Hs & Hn & Hv). split; [auto with btree|]. split.
  - intros k'. rewrite bt_get_None by auto with btree. rewrite bt_upsert_keys, fmap_app.
    specialize (Hn k'). rewrite (bt_get_None m k' Hs) in Hn. set_solver.
  - intros k' v n. destruct (ord_cmp k' k) eqn:C.
    2,3: rewrite bt_get_upsert_ne by (intros ->; by rewrite cmp_refl in C); intros G;
      rewrite (Hv k' v n G); setoid_rewrite elem_of_app; setoid_rewrite list_elem_of_singleton;
      split; [naive_solver|]; intros (o' & [?|[= -> ->]] & ?); [eauto|by rewrite cmp_refl in C].
    apply cmp_eq in C as ->. rewrite bt_get_upsert by done. intros [= <-].
    destruct (bt_get m k) as [v|] eqn:G; simpl.
    + rewrite rank_worse, Z.max_le_iff, (Hv k v n G). setoid_rewrite elem_of_app.
      setoid_rewrite list_elem_of_singleton. naive_solver.
    + apply Hn in G. setoid_rewrite elem_of_app. setoid_rewrite list_elem_of_singleton.
      split; [intros; exists o; split; [by right|done]|]. intros (o' & [Hin|[= ->]] & ?); [|done].
      destruct G. apply list_elem_of_fmap. by exists (k, o').
Qed.

Lemma collect_outcomes_Ok known unknown outcomes m :
  collect_outcomes known unknown [] outcomes = Ok m → collected outcomes m.
Proof.
  assert (Hgen : ∀ done acc, collected done acc →
    collect_outcomes known unknown acc outcomes = Ok m → collected (done ++ outcomes) m).
  { induction outcomes as [|[k o] outcomes IH]; intros prefix acc Hc; simpl.
    - intros [= <-]. by rewrite app_nil_r.
    - destruct (bt_get known k); [|done]. intros Hrest.
      rewrite cons_middle, (assoc_L (++)). eapply IH; [|done]. by apply collected_snoc. }
  apply (Hgen []). split; [constructor|]. split; [|done]. intros k. split; [set_solver|done].
Qed.

Lemma merge_verdicts_rank m commands n :
  rank best < n →
  n ≤ rank (merge_verdicts m commands) ↔
  ∃ k, k ∈ commands ∧ n ≤ rank (from_option verdict missing (bt_get m k)).
Proof.
  intros Hn. unfold merge_verdicts.
  assert (Hgen : ∀ acc, n ≤ rank (foldl (λ result k,
      join result (from_option verdict missing (bt_get m k))) acc commands) ↔
    n ≤ rank acc ∨ ∃ k, k ∈ commands ∧ n ≤ rank (from_option verdict missing (bt_get m k))).
  { induction commands as [|k commands IH]; intros acc; simpl; [set_solver|].
    rewrite IH, rank_join, Z.max_le_iff. set_solver. }
  rewrite Hgen. split; [intros [?|?]; [lia|done]|by right].
Qed.

Lemma aggregate_rank unknown commands outcomes r n :
  aggregate unknown commands outcomes = Ok r → rank best < n →
  n ≤ rank r ↔
    (∃ k, k ∈ commands ∧ k ∉ outcomes.*1 ∧ n ≤ rank missing) ∨
    (∃ k o, (k, o) ∈ outcomes ∧ n ≤ rank (verdict o)).
Proof.
  intros Hok Hn. pose proof (λ k o, aggregate_known _ _ _ _ k o Hok) as Hknown.
  unfold aggregate in Hok. apply result_bind_Ok in Hok as (m & Hm & [= <-]).
  apply collect_outcomes_Ok in Hm as (_ & Hnone & Hsome).
  rewrite merge_verdicts_rank by done. split.
  - intros (k & Hk & Hr). destruct (bt_get m k) as [v|] eqn:G; simpl in Hr.
    + apply (Hsome k v n G) in Hr as (o & ? & ?). right. by exists k, o.
    + apply Hnone in G. left. by exists k.
  - intros [(k & Hk & G & Hr)|(k & o & Hin & Hr)].
    + exists k. apply Hnone in G. by rewrite G.
    + exists k. split; [by eapply Hknown|]. destruct (bt_get m k) as [v|] eqn:G; simpl.
      * apply (Hsome k v n G). by exists o.
      * apply Hnone in G. destruct G. apply list_elem_of_fmap. by exists (k, o).
Qed.

End Aggregation.
