(* ===== verification/DecimalAmount.v ===== *)
(** * The decimal interface

    [rust_decimal::Decimal] is a third-party type: a signed 96-bit integer with a
    power-of-ten scale.  The components are written against its operations
    ([DecimalOps]) and verified against what they rely on ([DecimalLaws]): on a grid
    of amounts at one scale, comparison is comparison of values, [==] is reflexive, and a checked
    addition, subtraction or multiplication whose result is on the grid and fits the
    mantissa is exact.  Results that do not fit are not specified.  [ZDecimal] is a
  concrete instance. *)

From Stdlib Require Import ZArith Lia.
From stdpp Require Import sorting strings gmap numbers list.
From S2P Require Import Prelude RustText.

Open Scope Z_scope.

Class DecimalOps (D : Type) := {
  d_zero : D;                               (* Decimal::ZERO *)
  d_one : D;                                (* Decimal::ONE *)
  d_max : D;                                (* Decimal::MAX *)
  d_ltb : D → D → bool;                     (* a < b *)
  d_eqb : D → D → bool;                     (* a == b *)
  d_checked_add : D → D → option D;
  d_checked_sub : D → D → option D;
  d_checked_mul : D → D → option D;
  d_neg : D → D;                            (* -a *)
}.

(** [a <= b], [a > b] and [a >= b] of the total order. *)
Definition d_leb `{DecimalOps D} (a b : D) : bool := negb (d_ltb b a).
Definition d_gtb `{DecimalOps D} (a b : D) : bool := d_ltb b a.
Definition d_geb `{DecimalOps D} (a b : D) : bool := negb (d_ltb a b).

(** [a - b]: panics where the checked subtraction has no result. *)
Definition d_sub `{DecimalOps D} (a b : D) : option D := d_checked_sub a b.

Class DecimalLaws (D : Type) `{DecimalOps D} := {
  d_value : D → Z;                          (* in units of the grid *)
  d_exact : D → Prop;                       (* on the grid *)
  d_limit : Z;                              (* the mantissa at the grid's scale *)
  d_unit : Z;                               (* the value of one *)
  d_limit_nonneg : 0 ≤ d_limit;
  d_unit_pos : 0 < d_unit;
  d_zero_exact : d_exact d_zero ∧ d_value d_zero = 0;
  d_one_exact : d_exact d_one ∧ d_value d_one = d_unit;
  d_ltb_value a b : d_exact a → d_exact b → d_ltb a b = (d_value a <? d_value b);
  d_eqb_value a b : d_exact a → d_exact b → d_eqb a b = (d_value a =? d_value b);
  d_eqb_refl a : d_eqb a a = true;
  d_add_exact a b : d_exact a → d_exact b → Z.abs (d_value a + d_value b) ≤ d_limit →
    ∃ c, d_checked_add a b = Some c ∧ d_exact c ∧ d_value c = d_value a + d_value b;
  d_sub_exact a b : d_exact a → d_exact b → Z.abs (d_value a - d_value b) ≤ d_limit →
    ∃ c, d_checked_sub a b = Some c ∧ d_exact c ∧ d_value c = d_value a - d_value b;
  d_mul_exact a b v : d_exact a → d_exact b → d_value a * d_value b = v * d_unit → Z.abs v ≤ d_limit →
    ∃ c, d_checked_mul a b = Some c ∧ d_exact c ∧ d_value c = v;
  d_neg_exact a : d_exact a → d_exact (d_neg a) ∧ d_value (d_neg a) = - d_value a;
}.

(** [Decimal::to_string] and [Decimal::from_str]: printing and parsing is a round trip. *)
Class DecimalText (D : Type) := {
  d_to_string : D → text;
  d_from_str : text → option D;
}.

Class DecimalTextLaws (D : Type) `{DecimalText D} := {
  d_text_round_trip d : d_from_str (d_to_string d) = Some d;
}.

(** Signs and division, for the code that uses them. *)
Class DecimalSigns (D : Type) := {
  d_is_zero : D → bool;
  d_is_sign_negative : D → bool;
  d_checked_div : D → D → option D;
}.

Section Order.
Context `{DecimalLaws D}.

Lemma d_leb_value a b : d_exact a → d_exact b → d_leb a b = (d_value a <=? d_value b).
Proof. intros Ha Hb. unfold d_leb. rewrite d_ltb_value by done. by rewrite Z.leb_antisym. Qed.

Lemma d_gtb_value a b : d_exact a → d_exact b → d_gtb a b = (d_value b <? d_value a).
Proof. intros Ha Hb. unfold d_gtb. by rewrite d_ltb_value. Qed.

Lemma d_geb_value a b : d_exact a → d_exact b → d_geb a b = (d_value b <=? d_value a).
Proof. intros Ha Hb. unfold d_geb. rewrite d_ltb_value by done. by rewrite Z.leb_antisym. Qed.

(** An amount of money: on the grid, not negative, and small enough that sums and
    differences of four of them fit. *)
Definition d_money (d : D) : Prop := d_exact d ∧ 0 ≤ d_value d ∧ 4 * d_value d ≤ d_limit.

Lemma d_money_sub a b :
  d_money a → d_money b →
  ∃ c, d_checked_sub a b = Some c ∧ d_exact c ∧ d_value c = d_value a - d_value b.
Proof. intros (Ha & ? & ?) (Hb & ? & ?). apply d_sub_exact; [done|done|lia]. Qed.

End Order.

(** ** A concrete instance: millionths with a 96-bit mantissa *)

Definition zdec_limit : Z := 2 ^ 96 - 1.
Definition zdec_unit : Z := 1000000.

Definition zdec_fit (z : Z) : option Z := if Z.abs z <=? zdec_limit then Some z else None.

#[global] Instance ZDecimal : DecimalOps Z := {
  d_zero := 0;
  d_one := zdec_unit;
  d_max := zdec_limit;
  d_ltb := Z.ltb;
  d_eqb := Z.eqb;
  d_checked_add a b := zdec_fit (a + b);
  d_checked_sub a b := zdec_fit (a - b);
  d_checked_mul a b := zdec_fit (a * b / zdec_unit);
  d_neg := Z.opp;
}.

Lemma zdec_fit_Some z : Z.abs z ≤ zdec_limit → zdec_fit z = Some z.
Proof. unfold zdec_fit. by destruct (Z.leb_spec (Z.abs z) zdec_limit); [|lia]. Qed.

#[global] Instance ZDecimalLaws : DecimalLaws Z.
Proof.
  refine {| d_value := λ z : Z, z; d_exact := λ z, Z.abs z ≤ zdec_limit; d_limit := zdec_limit;
            d_unit := zdec_unit |}.
  - done.
  - done.
  - done.
  - done.
  - done.
  - done.
  - apply Z.eqb_refl.
  - intros a b _ _ Hc. exists (a + b). split_and!; [by apply zdec_fit_Some|done|done].
  - intros a b _ _ Hc. exists (a - b). split_and!; [by apply zdec_fit_Some|done|done].
  - intros a b v _ _ Hv Hc. exists v. split_and!; [|done|done].
    simpl. rewrite Hv, Z.div_mul by done. by apply zdec_fit_Some.
  - intros a Ha. simpl. by rewrite Z.abs_opp.
Defined.

#[global] Instance ZDecimalSigns : DecimalSigns Z := {
  d_is_zero a := a =? 0;
  d_is_sign_negative a := a <? 0;
  d_checked_div a b := if b =? 0 then None else zdec_fit (a * zdec_unit / b);
}.

(** The text of a whole number of millionths, one code point wide. *)
#[global] Instance demo_decimal_text : DecimalText Z :=
  {| d_to_string := λ z, [z]; d_from_str := λ s, match s with [z] => Some z | _ => None end |}.

#[global] Instance demo_decimal_text_laws : DecimalTextLaws Z.
Proof. by split. Qed.
