(* ===== verification/Economics.v ===== *)
(** * Economics of a decision: valuation, quote and edge

    The crate [economics-core]: a venue estimates the charges and credits of a decision
    as signed amounts of currencies or assets; [value_with_routes] converts them to the
    reporting currency over routes of rates, [validate_and_aggregate_quote] checks the
    estimate and sums what an admission may rely on ([core_total]) and what is merely
    forecast, and [fold_net_edge] sets the result against the gross value.  This file
    holds the data and the operations; [EconomicsFacts] the theorems.

    Identifiers are strings that passed [validate_identifier]; texts of errors other than
    their data are left out. *)

From Stdlib Require Import ZArith Lia.
From stdpp Require Import sorting strings gmap numbers list.
From S2P Require Import Prelude.
From S2P Require Import RustText.
From S2P Require Import BTree.
From S2P Require Import DecimalAmount.

Open Scope Z_scope.

(** ** Types ([types.rs]) *)

Definition CurrencyId : Type := text.
Definition AssetId : Type := text.
Definition ActionId : Type := text.
Definition PositionId : Type := text.
Definition EconomicComponentId : Type := text.
Definition FormulaId : Type := text.
Definition SourceIdentity : Type := text.
Definition SnapshotId : Type := text.
Definition ValuationRouteId : Type := text.
Definition DecisionCorrelationId : Type := text.
Definition EdgeBasisPolicyId : Type := text.

Inductive NativeUnitId : Type :=
| UnitCurrency (id : CurrencyId)
| UnitAsset (id : AssetId).

#[global] Instance NativeUnitId_eq_dec : EqDecision NativeUnitId.
Proof. solve_decision. Defined.

Inductive EconomicsError : Type :=
| EmptyIdentifier (field : text)
| NonCanonicalIdentifier (field : text)
| NonPositiveValue (field : text)
| ZeroNativeEffect
| InvalidPlannedFill
| MissingHoldingHorizon
| MissingDebitRiskBound (component_id : EconomicComponentId)
| InvalidDebitRiskBound (component_id : EconomicComponentId)
| DuplicateComponent (component_id : EconomicComponentId)
| DuplicateCalculationFactor (factor_id : FormulaId)
| EconomicClassSignMismatch (component_id : EconomicComponentId)
| EffectScopeMismatch (component_id : EconomicComponentId)
| InvalidSourceTimeline (source_id : SourceIdentity)
| StaleSource (source_id : SourceIdentity)
| MissingValuation (from : NativeUnitId) (to : CurrencyId)
| ContradictoryValuation (from : NativeUnitId) (to : CurrencyId)
| InvalidValuationRoute (route_id : ValuationRouteId)
| StaleValuation (route_id : ValuationRouteId)
| EdgeBasisPolicyMismatch
| EdgeBasisScopeMismatch
| StaleEdgeBasis
| GrossCurrencyMismatch (gross_currency reporting_currency : CurrencyId)
| InvalidExitVsHoldHysteresis
| MissingGuaranteedPointValuation (component_id : EconomicComponentId)
| RequiredCapabilityStale (valid_until : Z)
| ArithmeticOverflow.

Definition validate_identifier (field value : text) : Result text EconomicsError :=
  if is_empty value then Err (EmptyIdentifier field)
  else if negb (bool_decide (trim value = value)) || existsb is_control value
       then Err (NonCanonicalIdentifier field)
  else Ok value.

Inductive NativeUnitKind : Type := KindCurrency | KindAsset.

Definition native_unit_try_id (k : NativeUnitKind) (value : text) : Result NativeUnitId EconomicsError :=
  match k with
  | KindCurrency => id ←? validate_identifier (lit "currency_id") value; Ok (UnitCurrency id)
  | KindAsset => id ←? validate_identifier (lit "asset_id") value; Ok (UnitAsset id)
  end.

Inductive InventoryApplication : Type := AlreadyAppliedToGrossFill | ApplyOnceToNetPortfolio.

Inductive OrderSide : Type := Buy | Sell.
Inductive LiquidityRole : Type := GuaranteedMaker | Taker.
Inductive PositionSide : Type := Long | Short.

Inductive LifecyclePath : Type :=
| PlannedExit
| HoldToSettlement
| HoldToRedemption
| Transfer (action_id : ActionId).

Inductive RiskBoundAuthority : Type := VenueMaximum | VenueRateCapWithPriceStress | OperatorRiskLimit.

Inductive AdmissionTreatment : Type :=
| GuaranteedConditionalOnAction
| RiskBound (authority : RiskBoundAuthority)
| ForecastOnly.

Inductive EconomicClass : Type := Charge | Credit.
Inductive ExecutionKind : Type := ProtocolTrading | AttachedRoutingCharge.
Inductive CarryKind : Type := Funding | BorrowInterest | SuppliedBalanceInterest.
Inductive IncentiveKind : Type := MakerRebate | LiquidityReward | HoldingReward | ReferralReward | FeeCredit.
Inductive EconomicKind : Type :=
| KindExecution (k : ExecutionKind)
| KindCarry (k : CarryKind)
| KindIncentive (k : IncentiveKind).

Inductive EconomicScope : Type :=
| ScopeDecision (decision_correlation_id : DecisionCorrelationId)
| ScopePositionInterval (position_id : PositionId) (starts_at ends_at : Z)
| ScopeAction (action_id : ActionId).

Record SourceValidity : Type := mkSource {
  source_identity : SourceIdentity;
  source_snapshot_id : SnapshotId;
  source_at_ns : Z;
  source_fetched_at_ns : Z;
  source_valid_until_ns : Z;
}.

Section Economics.
Context {D : Type} `{DecimalOps D} `{DecimalSigns D}.

Inductive SignedNativeEffect : Type :=
| CurrencyAmount (amount : D) (currency_id : CurrencyId)
| AssetQuantity (quantity : D) (asset_id : AssetId) (inventory_application : InventoryApplication).

(** The constructors [SignedNativeEffect::currency] and [asset]. *)
Definition effect_currency (amount : D) (currency_id : CurrencyId) : Result SignedNativeEffect EconomicsError :=
  if d_is_zero amount then Err ZeroNativeEffect else Ok (CurrencyAmount amount currency_id).

Definition effect_asset (quantity : D) (asset_id : AssetId) (application : InventoryApplication)
    : Result SignedNativeEffect EconomicsError :=
  if d_is_zero quantity then Err ZeroNativeEffect else Ok (AssetQuantity quantity asset_id application).

Definition effect_amount (e : SignedNativeEffect) : D :=
  match e with CurrencyAmount amount _ => amount | AssetQuantity quantity _ _ => quantity end.

Definition effect_unit (e : SignedNativeEffect) : NativeUnitId :=
  match e with CurrencyAmount _ id => UnitCurrency id | AssetQuantity _ id _ => UnitAsset id end.

Record PlannedFillLeg : Type := mkFillLeg { leg_price : D; leg_quantity : D }.

Record PositionContext : Type := mkPositionContext {
  position_id : PositionId;
  position_side : PositionSide;
  position_quantity : D;
  holding_horizon_ns : Z;
}.

Record CalculationFactor : Type := mkFactor { factor_id : FormulaId; factor_value : D }.

Inductive PointEstimate : Type :=
| NonZero (effect : SignedNativeEffect)
| ProvenZero (zero_factor_id : FormulaId).

Record EstimatedEffect : Type := mkEstimatedEffect {
  component_id : EconomicComponentId;
  component_class : EconomicClass;
  component_kind : EconomicKind;
  component_scope : EconomicScope;
  point_estimate : PointEstimate;
  debit_risk_bound : option SignedNativeEffect;
  admission_treatment : AdmissionTreatment;
  calculation_factors : list CalculationFactor;
  formula_id : FormulaId;
  component_source : SourceValidity;
}.

(** ** Valuation ([valuation.rs]) *)

Record ValuationLeg : Type := mkValuationLeg {
  vleg_from : NativeUnitId;
  vleg_to : NativeUnitId;
  to_units_per_from_unit : D;
  vleg_source : SourceIdentity;
  vleg_snapshot_id : SnapshotId;
  vleg_observed_at_ns : Z;
  vleg_fetched_at_ns : Z;
  vleg_valid_until_ns : Z;
}.

Record ValuationRoute : Type := mkValuationRoute {
  route_id : ValuationRouteId;
  route_from : NativeUnitId;
  route_to : CurrencyId;
  route_legs : list ValuationLeg;
  route_valid_until_ns : Z;
}.

Record ValuationEvidence : Type := mkValuation {
  native_effect : SignedNativeEffect;
  normalized_amount : D;
  valuation_currency : CurrencyId;
  valuation_route_id : option ValuationRouteId;
  valuation_snapshot_ids : list SnapshotId;
  valued_at_ns : Z;
  valuation_valid_until_ns : option Z;
}.

(** One leg of [validate_route]; [visited] is the set of units seen so far. *)
Definition leg_invalid (valued_at : Z) (current : NativeUnitId) (visited : list NativeUnitId)
    (leg : ValuationLeg) : bool :=
  negb (bool_decide (vleg_from leg = current))
  || d_leb (to_units_per_from_unit leg) d_zero
  || (vleg_fetched_at_ns leg <? vleg_observed_at_ns leg)
  || (valued_at <? vleg_fetched_at_ns leg)
  || (vleg_valid_until_ns leg <? vleg_fetched_at_ns leg)
  || (vleg_valid_until_ns leg <? valued_at)
  || bool_decide (vleg_to leg ∈ visited).

(** The loop over the legs: the unit it ends in. *)
Fixpoint validate_legs (valued_at : Z) (current : NativeUnitId) (visited : list NativeUnitId)
    (legs : list ValuationLeg) : option NativeUnitId :=
  match legs with
  | [] => Some current
  | leg :: legs =>
      if leg_invalid valued_at current visited leg then None
      else validate_legs valued_at (vleg_to leg) (vleg_to leg :: visited) legs
  end.

Definition validate_route (route : ValuationRoute) (valued_at : Z) : Result unit EconomicsError :=
  if route_valid_until_ns route <? valued_at then Err (StaleValuation (route_id route))
  else if is_empty (route_legs route) then Err (InvalidValuationRoute (route_id route))
  else match validate_legs valued_at (route_from route) [route_from route] (route_legs route) with
       | None => Err (InvalidValuationRoute (route_id route))
       | Some current =>
           if negb (bool_decide (current = UnitCurrency (route_to route)))
           then Err (InvalidValuationRoute (route_id route)) else Ok tt
       end.

(** The rate of a route. *)
Fixpoint legs_rate (rate : D) (legs : list ValuationLeg) : Result D EconomicsError :=
  match legs with
  | [] => Ok rate
  | leg :: legs =>
      rate ←? ok_or (d_checked_mul rate (to_units_per_from_unit leg)) ArithmeticOverflow;
      legs_rate rate legs
  end.

Definition route_matches (from : NativeUnitId) (to : CurrencyId) (route : ValuationRoute) : bool :=
  bool_decide (route_from route = from) && bool_decide (route_to route = to).

Definition value_with_routes (effect : SignedNativeEffect) (reporting_currency : CurrencyId)
    (routes : list ValuationRoute) (valued_at : Z) : Result ValuationEvidence EconomicsError :=
  let from := effect_unit effect in
  if bool_decide (from = UnitCurrency reporting_currency) then
    Ok (mkValuation effect (effect_amount effect) reporting_currency None [] valued_at None)
  else
    match filter (λ route, route_matches from reporting_currency route = true) routes with
    | [] => Err (MissingValuation from reporting_currency)
    | _ :: _ :: _ => Err (ContradictoryValuation from reporting_currency)
    | [route] =>
        validate_route route valued_at;;?
        rate ←? legs_rate d_one (route_legs route);
        amount ←? ok_or (d_checked_mul (effect_amount effect) rate) ArithmeticOverflow;
        Ok (mkValuation effect amount reporting_currency (Some (route_id route))
              (vleg_snapshot_id <$> route_legs route) valued_at
              (Some (foldl (λ deadline leg, Z.min deadline (vleg_valid_until_ns leg))
                       (route_valid_until_ns route) (route_legs route))))
    end.

(** ** The quote ([quote.rs]) *)

Record EconomicsQuoteRequest : Type := mkQuoteRequest {
  execution_client_id : text;
  request_account_id : text;
  request_instrument_id : text;
  product_surface_id : text;
  request_order_side : OrderSide;
  liquidity_role : LiquidityRole;
  planned_fill_legs : list PlannedFillLeg;
  routing_attached_charge : option text;
  request_position : option PositionContext;
  lifecycle_path : LifecyclePath;
  reporting_policy_id : text;
  request_reporting_currency : CurrencyId;
  request_edge_basis_policy_id : EdgeBasisPolicyId;
  requested_at_ns : Z;
  request_decision_correlation_id : DecisionCorrelationId;
}.

(** The fold of [PlannedFillNotional::from_legs]. *)
Fixpoint legs_notional (total : D) (legs : list PlannedFillLeg) : option D :=
  match legs with
  | [] => Some total
  | leg :: legs =>
      if d_leb (leg_price leg) d_zero || d_leb (leg_quantity leg) d_zero then None
      else notional ← d_checked_mul (leg_price leg) (leg_quantity leg);
           total ← d_checked_add total notional;
           legs_notional total legs
  end.

Definition planned_fill_notional_from_legs (legs : list PlannedFillLeg) : Result D EconomicsError :=
  if is_empty legs then Err InvalidPlannedFill
  else amount ←? ok_or (legs_notional d_zero legs) InvalidPlannedFill;
       if d_leb amount d_zero then Err InvalidPlannedFill else Ok amount.

Definition request_validate (r : EconomicsQuoteRequest) : Result unit EconomicsError :=
  planned_fill_notional_from_legs (planned_fill_legs r);;?
  match request_position r with
  | None => Ok tt
  | Some position =>
      if d_leb (position_quantity position) d_zero then Err (NonPositiveValue (lit "position_quantity"))
      else if holding_horizon_ns position =? 0 then Err MissingHoldingHorizon
      else Ok tt
  end.

Record VenueQuoteEstimate : Type := mkEstimate {
  estimate_authority : SourceValidity;
  dependency_sources : list SourceValidity;
  estimate_components : list EstimatedEffect;
}.

Record EvaluatedEconomicsComponent : Type := mkEvaluated {
  evaluated_component : EstimatedEffect;
  point_valuation : option ValuationEvidence;
  debit_risk_bound_valuation : option ValuationEvidence;
}.

Record EconomicsQuote : Type := mkQuote {
  quote_decision_correlation_id : DecisionCorrelationId;
  quote_requested_at_ns : Z;
  quote_edge_basis_policy_id : EdgeBasisPolicyId;
  quote_components : list EvaluatedEconomicsComponent;
  core_total : D;
  forecast_total : D;
  forecast_complete : bool;
  missing_forecast_component_ids : list EconomicComponentId;
  quote_source_snapshot_ids : list SnapshotId;
  quote_reporting_currency : CurrencyId;
  quote_valid_until_ns : Z;
  forecast_valid_until_ns : option Z;
}.

Definition validate_component_scope (r : EconomicsQuoteRequest) (c : EstimatedEffect)
    : Result unit EconomicsError :=
  let matches_request :=
    match component_scope c with
    | ScopeDecision id => bool_decide (id = request_decision_correlation_id r)
    | ScopePositionInterval id starts_at ends_at =>
        match request_position r with
        | None => false
        | Some position =>
            bool_decide (id = position_id position) && (starts_at =? requested_at_ns r)
            && match u64_checked_add (requested_at_ns r) (holding_horizon_ns position) with
               | Some expected_end => ends_at =? expected_end
               | None => false
               end
        end
    | ScopeAction id =>
        match lifecycle_path r with
        | Transfer request_id => bool_decide (id = request_id)
        | _ => false
        end
    end in
  ensure matches_request (EffectScopeMismatch (component_id c)).

Definition validate_component_source (requested_at : Z) (s : SourceValidity) : Result unit EconomicsError :=
  if (source_fetched_at_ns s <? source_at_ns s) || (requested_at <? source_fetched_at_ns s)
     || (source_valid_until_ns s <? source_fetched_at_ns s)
  then Err (InvalidSourceTimeline (source_identity s))
  else if source_valid_until_ns s <? requested_at then Err (StaleSource (source_identity s))
  else Ok tt.

Definition guaranteed_point_amount (c : EstimatedEffect) (point : option ValuationEvidence)
    : Result D EconomicsError :=
  match point_estimate c with
  | ProvenZero _ => Ok d_zero
  | NonZero _ =>
      ok_or (normalized_amount <$> point) (MissingGuaranteedPointValuation (component_id c))
  end.

(** The first factor whose id was seen before. *)
Fixpoint first_duplicate (seen : list FormulaId) (factors : list CalculationFactor)
    : option CalculationFactor :=
  match factors with
  | [] => None
  | f :: factors =>
      if bool_decide (factor_id f ∈ seen) then Some f else first_duplicate (factor_id f :: seen) factors
  end.

Definition validate_factors (c : EstimatedEffect) : Result unit EconomicsError :=
  match first_duplicate [] (calculation_factors c) with
  | Some duplicate => Err (DuplicateCalculationFactor (factor_id duplicate))
  | None => Ok tt
  end.

Definition is_forecast_only (c : EstimatedEffect) : bool :=
  match admission_treatment c with ForecastOnly => true | _ => false end.

Definition is_charge (c : EstimatedEffect) : bool :=
  match component_class c with Charge => true | Credit => false end.

Definition validate_component_sign (c : EstimatedEffect) : Result unit EconomicsError :=
  match point_estimate c with
  | NonZero effect =>
      ensure (match component_class c, d_is_sign_negative (effect_amount effect) with
              | Charge, true | Credit, false => true
              | _, _ => false
              end) (EconomicClassSignMismatch (component_id c))
  | ProvenZero id =>
      if is_forecast_only c || negb (is_charge c)
         || negb (existsb (λ f, bool_decide (factor_id f = id) && d_is_zero (factor_value f))
                    (calculation_factors c))
      then Err (EconomicClassSignMismatch (component_id c)) else Ok tt
  end.

(** The variables of the loop of [validate_and_aggregate_quote]. *)
Record QuoteAccumulator : Type := mkAcc {
  acc_component_ids : list EconomicComponentId;
  acc_components : list EvaluatedEconomicsComponent;
  acc_core_total : D;
  acc_forecast_total : D;
  acc_forecast_complete : bool;
  acc_missing : list EconomicComponentId;
  acc_snapshots : BTreeMap SnapshotId unit;
  acc_valid_until : Z;
  acc_forecast_valid_until : option Z;
}.

Definition insert_snapshots (ids : list SnapshotId) (set : BTreeMap SnapshotId unit)
    : BTreeMap SnapshotId unit := foldl (λ set id, bt_insert set id tt) set ids.

(** [component_ids.insert] and [source_snapshot_ids.insert]. *)
Definition acc_seen (a : QuoteAccumulator) (c : EstimatedEffect) : QuoteAccumulator :=
  mkAcc (component_id c :: acc_component_ids a) (acc_components a) (acc_core_total a)
    (acc_forecast_total a) (acc_forecast_complete a) (acc_missing a)
    (insert_snapshots [source_snapshot_id (component_source c)] (acc_snapshots a))
    (acc_valid_until a) (acc_forecast_valid_until a).

(** A forecast component that cannot be valued: recorded as missing. *)
Definition acc_forecast_missing (a : QuoteAccumulator) (c : EstimatedEffect) : QuoteAccumulator :=
  mkAcc (acc_component_ids a) (acc_components a ++ [mkEvaluated c None None]) (acc_core_total a)
    (acc_forecast_total a) false (acc_missing a ++ [component_id c]) (acc_snapshots a)
    (acc_valid_until a) None.

(** The valuation of the point estimate; [None] where the loop continues. *)
Definition value_point (r : EconomicsQuoteRequest) (routes : list ValuationRoute) (c : EstimatedEffect)
    : Result (option (option ValuationEvidence)) EconomicsError :=
  match point_estimate c with
  | ProvenZero _ => Ok (Some None)
  | NonZero effect =>
      match value_with_routes effect (request_reporting_currency r) routes (requested_at_ns r) with
      | Ok valuation => Ok (Some (Some valuation))
      | Err (MissingValuation _ _ as error) | Err (StaleValuation _ as error) =>
          if is_forecast_only c then Ok None else Err error
      | Err error => Err error
      end
  end.

Definition acc_forecast (a : QuoteAccumulator) (point : option ValuationEvidence)
    : Result QuoteAccumulator EconomicsError :=
  match point with
  | None => Ok a
  | Some v =>
      total ←? ok_or (d_checked_add (acc_forecast_total a) (normalized_amount v)) ArithmeticOverflow;
      Ok (mkAcc (acc_component_ids a) (acc_components a) (acc_core_total a) total
            (acc_forecast_complete a) (acc_missing a)
            (insert_snapshots (valuation_snapshot_ids v) (acc_snapshots a))
            (acc_valid_until a) (acc_forecast_valid_until a))
  end.

(** [valid_until_ns.min(deadline)] where there is one. *)
Definition min_deadline (valid_until : Z) (deadline : option Z) : Z :=
  match deadline with Some deadline => Z.min valid_until deadline | None => valid_until end.

Definition point_deadline (point : option ValuationEvidence) : option Z :=
  v ← point; valuation_valid_until_ns v.

(** [core_total], the horizon and the snapshots after a component the admission relies on. *)
Definition acc_core (a : QuoteAccumulator) (amount : D) (snapshots : list SnapshotId) (valid_until : Z)
    : Result QuoteAccumulator EconomicsError :=
  total ←? ok_or (d_checked_add (acc_core_total a) amount) ArithmeticOverflow;
  Ok (mkAcc (acc_component_ids a) (acc_components a) total (acc_forecast_total a)
        (acc_forecast_complete a) (acc_missing a) (insert_snapshots snapshots (acc_snapshots a))
        valid_until (acc_forecast_valid_until a)).

(** The debit risk bound of a component, valued and compared with the point estimate. *)
Definition value_bound (r : EconomicsQuoteRequest) (routes : list ValuationRoute) (c : EstimatedEffect)
    (point : option ValuationEvidence) : Result ValuationEvidence EconomicsError :=
  bound ←? ok_or (debit_risk_bound c) (MissingDebitRiskBound (component_id c));
  if d_geb (effect_amount bound) d_zero then Err (InvalidDebitRiskBound (component_id c))
  else
    valuation ←? value_with_routes bound (request_reporting_currency r) routes (requested_at_ns r);
    if d_geb (normalized_amount valuation) d_zero then Err (InvalidDebitRiskBound (component_id c))
    else if match point with
            | Some point => d_gtb (normalized_amount valuation) (normalized_amount point)
            | None => false
            end
         then Err (InvalidDebitRiskBound (component_id c))
    else Ok valuation.

(** The match on the admission treatment. *)
Definition acc_treatment (r : EconomicsQuoteRequest) (routes : list ValuationRoute) (a : QuoteAccumulator)
    (c : EstimatedEffect) (point : option ValuationEvidence)
    : Result (QuoteAccumulator * option ValuationEvidence) EconomicsError :=
  let source_deadline := source_valid_until_ns (component_source c) in
  match admission_treatment c with
  | GuaranteedConditionalOnAction =>
      let valid_until := min_deadline (acc_valid_until a) (point_deadline point) in
      normalized ←? guaranteed_point_amount c point;
      a ←? acc_core a normalized [] (Z.min valid_until source_deadline);
      Ok (a, None)
  | RiskBound _ =>
      let valid_until := min_deadline (acc_valid_until a) (point_deadline point) in
      valuation ←? value_bound r routes c point;
      a ←? acc_core a (normalized_amount valuation) (valuation_snapshot_ids valuation)
             (Z.min (min_deadline valid_until (valuation_valid_until_ns valuation)) source_deadline);
      Ok (a, Some valuation)
  | ForecastOnly =>
      let forecast_valid_until :=
        (λ deadline, min_deadline (Z.min deadline source_deadline) (point_deadline point))
          <$> acc_forecast_valid_until a in
      Ok (mkAcc (acc_component_ids a) (acc_components a) (acc_core_total a) (acc_forecast_total a)
            (acc_forecast_complete a) (acc_missing a) (acc_snapshots a) (acc_valid_until a)
            forecast_valid_until, None)
  end.

Definition acc_push (a : QuoteAccumulator) (e : EvaluatedEconomicsComponent) : QuoteAccumulator :=
  mkAcc (acc_component_ids a) (acc_components a ++ [e]) (acc_core_total a) (acc_forecast_total a)
    (acc_forecast_complete a) (acc_missing a) (acc_snapshots a) (acc_valid_until a)
    (acc_forecast_valid_until a).

(** One round of the loop. *)
Definition aggregate_component (r : EconomicsQuoteRequest) (routes : list ValuationRoute)
    (a : QuoteAccumulator) (c : EstimatedEffect) : Result QuoteAccumulator EconomicsError :=
  if bool_decide (component_id c ∈ acc_component_ids a) then Err (DuplicateComponent (component_id c))
  else
    validate_component_scope r c;;?
    validate_factors c;;?
    validate_component_sign c;;?
    let a := acc_seen a c in
    match validate_component_source (requested_at_ns r) (component_source c) with
    | Err error => if is_forecast_only c then Ok (acc_forecast_missing a c) else Err error
    | Ok _ =>
        point ←? value_point r routes c;
        match point with
        | None => Ok (acc_forecast_missing a c)
        | Some point =>
            a ←? acc_forecast a point;
            treated ←? acc_treatment r routes a c point;
            Ok (acc_push (fst treated) (mkEvaluated c point (snd treated)))
        end
    end.

Fixpoint aggregate_components (r : EconomicsQuoteRequest) (routes : list ValuationRoute)
    (a : QuoteAccumulator) (components : list EstimatedEffect) : Result QuoteAccumulator EconomicsError :=
  match components with
  | [] => Ok a
  | c :: components =>
      a ←? aggregate_component r routes a c;
      aggregate_components r routes a components
  end.

Definition validate_sources (requested_at : Z) (sources : list SourceValidity) : Result unit EconomicsError :=
  try_each (validate_component_source requested_at) sources.

(** The variables before the loop. *)
Definition acc_start (e : VenueQuoteEstimate) : QuoteAccumulator :=
  let valid_until :=
    foldl (λ deadline s, Z.min deadline (source_valid_until_ns s))
      (source_valid_until_ns (estimate_authority e)) (dependency_sources e) in
  mkAcc [] [] d_zero d_zero true []
    (insert_snapshots (source_snapshot_id <$> estimate_authority e :: dependency_sources e) [])
    valid_until (Some valid_until).

Definition validate_and_aggregate_quote (r : EconomicsQuoteRequest) (e : VenueQuoteEstimate)
    (routes : list ValuationRoute) : Result EconomicsQuote EconomicsError :=
  request_validate r;;?
  validate_component_source (requested_at_ns r) (estimate_authority e);;?
  validate_sources (requested_at_ns r) (dependency_sources e);;?
  a ←? aggregate_components r routes (acc_start e) (estimate_components e);
  Ok (mkQuote (request_decision_correlation_id r) (requested_at_ns r) (request_edge_basis_policy_id r)
        (acc_components a) (acc_core_total a) (acc_forecast_total a) (acc_forecast_complete a)
        (acc_missing a) (bt_keys (acc_snapshots a)) (request_reporting_currency r) (acc_valid_until a)
        (if acc_forecast_complete a
         then (λ deadline, Z.min deadline (acc_valid_until a)) <$> acc_forecast_valid_until a
         else None)).

(** [EconomicsQuote::cap_valid_until_ns]: the quote is left alone on an error. *)
Definition cap_valid_until_ns (q : EconomicsQuote) (valid_until : Z) : Result EconomicsQuote EconomicsError :=
  if valid_until <? quote_requested_at_ns q then Err (RequiredCapabilityStale valid_until)
  else
    Ok (mkQuote (quote_decision_correlation_id q) (quote_requested_at_ns q) (quote_edge_basis_policy_id q)
          (quote_components q) (core_total q) (forecast_total q) (forecast_complete q)
          (missing_forecast_component_ids q) (quote_source_snapshot_ids q) (quote_reporting_currency q)
          (Z.min (quote_valid_until_ns q) valid_until)
          ((λ deadline, Z.min deadline valid_until) <$> forecast_valid_until_ns q)).

(** [EconomicsQuote::capability_health] and [EconomicsCapabilityHealth::allows_admission]. *)
Definition allows_admission (required_valid_until now : Z) : Result unit EconomicsError :=
  if required_valid_until <? now then Err (RequiredCapabilityStale required_valid_until) else Ok tt.

Definition capability_health (q : EconomicsQuote) : Z := quote_valid_until_ns q.

(** ** The edge ([edge.rs]) *)

Record GrossExpectedValue : Type := mkGross { gross_amount : D; gross_currency_id : CurrencyId }.

Inductive ExitVsHoldDecision : Type := Hold | Exit.

Record FeeAdjustedLegValue : Type := mkLegValue { gross_value : D; execution_economics : D }.

Definition net_value (v : FeeAdjustedLegValue) : Result D EconomicsError :=
  ok_or (d_checked_add (gross_value v) (execution_economics v)) ArithmeticOverflow.

Record FeeAdjustedExitVsHoldComparison : Type := mkComparison {
  comparison_decision : ExitVsHoldDecision;
  hold_net_value : D;
  exit_net_value : D;
}.

Definition compare_fee_adjusted_exit_vs_hold (hold exit : FeeAdjustedLegValue) (hysteresis : D)
    : Result FeeAdjustedExitVsHoldComparison EconomicsError :=
  if d_is_sign_negative hysteresis then Err InvalidExitVsHoldHysteresis
  else
    hold_net ←? net_value hold;
    exit_net ←? net_value exit;
    threshold ←? ok_or (d_checked_add hold_net hysteresis) ArithmeticOverflow;
    Ok (mkComparison (if d_gtb exit_net threshold then Exit else Hold) hold_net exit_net).

Definition edge_basis_amount_try_new (amount : D) : Result D EconomicsError :=
  if d_leb amount d_zero then Err (NonPositiveValue (lit "edge_basis_amount")) else Ok amount.

Record EdgeBasisEvidence : Type := mkEdgeBasis {
  basis_policy_id : EdgeBasisPolicyId;
  resolver_id : FormulaId;
  product_metadata_source : SourceIdentity;
  policy_version : Z;
  basis_normalized_amount : D;
  basis_scope : EconomicScope;
  basis_source_snapshot_ids : list SnapshotId;
  basis_valid_until_ns : Z;
}.

Record NetEdgeQuote : Type := mkNetEdge {
  net_gross_expected_value : D;
  core_net_edge : D;
  forecast_net_edge : D;
  core_edge_ratio : D;
  forecast_edge_ratio : D;
  net_basis : EdgeBasisEvidence;
}.

Definition fold_net_edge (gross : GrossExpectedValue) (q : EconomicsQuote) (basis : EdgeBasisEvidence)
    : Result NetEdgeQuote EconomicsError :=
  if negb (bool_decide (gross_currency_id gross = quote_reporting_currency q))
  then Err (GrossCurrencyMismatch (gross_currency_id gross) (quote_reporting_currency q))
  else if negb (bool_decide (basis_policy_id basis = quote_edge_basis_policy_id q))
  then Err EdgeBasisPolicyMismatch
  else if negb (match basis_scope basis with
                | ScopeDecision id => bool_decide (id = quote_decision_correlation_id q)
                | _ => false
                end)
  then Err EdgeBasisScopeMismatch
  else if basis_valid_until_ns basis <? quote_requested_at_ns q then Err StaleEdgeBasis
  else
    core ←? ok_or (d_checked_add (gross_amount gross) (core_total q)) ArithmeticOverflow;
    forecast ←? ok_or (d_checked_add (gross_amount gross) (forecast_total q)) ArithmeticOverflow;
    core_ratio ←? ok_or (d_checked_div core (basis_normalized_amount basis)) ArithmeticOverflow;
    forecast_ratio ←? ok_or (d_checked_div forecast (basis_normalized_amount basis)) ArithmeticOverflow;
    Ok (mkNetEdge (gross_amount gross) core forecast core_ratio forecast_ratio basis).

End Economics.
Arguments SignedNativeEffect D : clear implicits.
Arguments PlannedFillLeg D : clear implicits.
Arguments PositionContext D : clear implicits.
Arguments CalculationFactor D : clear implicits.
Arguments PointEstimate D : clear implicits.
Arguments EstimatedEffect D : clear implicits.
Arguments ValuationLeg D : clear implicits.
Arguments ValuationRoute D : clear implicits.
Arguments ValuationEvidence D : clear implicits.
Arguments EconomicsQuoteRequest D : clear implicits.
Arguments VenueQuoteEstimate D : clear implicits.
Arguments EvaluatedEconomicsComponent D : clear implicits.
Arguments EconomicsQuote D : clear implicits.
Arguments QuoteAccumulator D : clear implicits.
Arguments GrossExpectedValue D : clear implicits.
Arguments FeeAdjustedLegValue D : clear implicits.
Arguments FeeAdjustedExitVsHoldComparison D : clear implicits.
Arguments EdgeBasisEvidence D : clear implicits.
Arguments NetEdgeQuote D : clear implicits.
