(* ===== verification/EconomicsFacts.v ===== *)
(** * Economics: what a quote promises

    [validate_and_aggregate_quote] runs one loop with nine mutable variables.  Here it is
    proved equal to a reference ([reference_quote]) that evaluates every component on its
    own and then takes sums, minima and sets.  From it follow what an admission relies on:
    the quote expires with the first piece of evidence it rests on, the core total never
    counts more than the point estimates of the components it may count, and valuation
    never turns a charge into a credit.  The comparison of exit and hold has no pair of
    inputs on which it flips back and forth. *)

From Stdlib Require Import ZArith Lia.
From stdpp Require Import sorting strings gmap numbers list.
From S2P Require Import Prelude.
From S2P Require Import RustText.
From S2P Require Import BTree.
From S2P Require Import DecimalAmount.
From S2P Require Import Economics.

Open Scope Z_scope.

(** What the proofs rely on of the sign and the order of a [Decimal]: the order is
    asymmetric, the sign of a product is that of its factors or the product is zero, and
    division is exact where the quotient is on the grid. *)
Class DecimalSignLaws (D : Type) `{DecimalLaws D} `{DecimalSigns D} : Prop := {
  d_is_zero_value a : d_exact a → d_is_zero a = (d_value a =? 0);
  d_sign_value a : d_exact a → d_value a ≠ 0 → d_is_sign_negative a = (d_value a <? 0);
  d_ltb_asym a b : d_ltb a b = true → d_ltb b a = false;
  d_mul_nonneg a b c : d_checked_mul a b = Some c →
    d_ltb a d_zero = false → d_ltb b d_zero = false → d_ltb c d_zero = false;
  d_mul_nonpos a b c : d_checked_mul a b = Some c →
    d_ltb d_zero a = false → d_ltb b d_zero = false → d_ltb d_zero c = false;
  d_div_exact a b v : d_exact a → d_exact b → d_value b ≠ 0 → v * d_value b = d_value a * d_unit →
    Z.abs v ≤ d_limit → ∃ c, d_checked_div a b = Some c ∧ d_exact c ∧ d_value c = v;
}.

#[global] Instance ZDecimalSignLaws : DecimalSignLaws Z.
Proof.
  split; simpl.
  - done.
  - done.
  - intros a b ?%Z.ltb_lt. apply Z.ltb_ge. lia.
  - unfold zdec_fit. intros a b c Hc Ha%Z.ltb_ge Hb%Z.ltb_ge. case_match; simplify_eq. apply Z.ltb_ge.
    apply Z.div_pos; [nia|done].
  - unfold zdec_fit. intros a b c Hc Ha%Z.ltb_ge Hb%Z.ltb_ge. case_match; simplify_eq. apply Z.ltb_ge.
    apply Z.div_le_upper_bound; [done|nia].
  - intros a b v _ _ Hb Hv Hl. exists v. split_and!; [|done|done].
    rewrite (proj2 (Z.eqb_neq b 0) Hb), <- Hv, Z.div_mul by done. by apply zdec_fit_Some.
Qed.

Section Facts.
Context {D : Type} `{DecimalOps D} `{DecimalSigns D}.
Implicit Types (r : EconomicsQuoteRequest D) (c : EstimatedEffect D) (a : QuoteAccumulator D)
  (ev : EvaluatedEconomicsComponent D) (v : ValuationEvidence D) (routes : list (ValuationRoute D)).

(** ** The reference *)

(** One component on its own. *)
Definition evaluate_component r routes c : Result (EvaluatedEconomicsComponent D) EconomicsError :=
  validate_component_scope r c;;?
  validate_factors c;;?
  validate_component_sign c;;?
  match validate_component_source (requested_at_ns r) (component_source c) with
  | Err error => if is_forecast_only c then Ok (mkEvaluated c None None) else Err error
  | Ok _ =>
      point ←? value_point r routes c;
      match point, admission_treatment c with
      | None, _ => Ok (mkEvaluated c None None)
      | Some point, GuaranteedConditionalOnAction =>
          guaranteed_point_amount c point;;? Ok (mkEvaluated c point None)
      | Some point, RiskBound _ =>
          bound ←? value_bound r routes c point; Ok (mkEvaluated c point (Some bound))
      | Some point, ForecastOnly => Ok (mkEvaluated c point None)
      end
  end.

(** What a component adds to the core total, to the forecast, and its horizons. *)
Definition core_amount ev : option D :=
  match admission_treatment (evaluated_component ev) with
  | GuaranteedConditionalOnAction => Some (from_option normalized_amount d_zero (point_valuation ev))
  | RiskBound _ => normalized_amount <$> debit_risk_bound_valuation ev
  | ForecastOnly => None
  end.

Definition forecast_amount ev : option D := normalized_amount <$> point_valuation ev.

(** A forecast that could not be valued. *)
Definition forecast_unvalued ev : bool :=
  is_forecast_only (evaluated_component ev) &&
  match point_valuation ev with None => true | Some _ => false end.

Definition deadlines ev : list Z :=
  source_valid_until_ns (component_source (evaluated_component ev)) ::
  omap valuation_valid_until_ns (option_list (point_valuation ev)) ++
  omap valuation_valid_until_ns (option_list (debit_risk_bound_valuation ev)).

Definition core_deadlines ev : list Z :=
  if is_forecast_only (evaluated_component ev) then [] else deadlines ev.
Definition forecast_deadlines ev : list Z :=
  if is_forecast_only (evaluated_component ev) then deadlines ev else [].

Definition snapshots ev : list SnapshotId :=
  source_snapshot_id (component_source (evaluated_component ev)) ::
  from_option valuation_snapshot_ids [] (point_valuation ev) ++
  from_option valuation_snapshot_ids [] (debit_risk_bound_valuation ev).

Definition min_all (t : Z) (ts : list Z) : Z := foldl Z.min t ts.

Fixpoint checked_sum (total : D) (amounts : list D) : option D :=
  match amounts with
  | [] => Some total
  | x :: amounts => total ← d_checked_add total x; checked_sum total amounts
  end.

Definition reference_quote r (e : VenueQuoteEstimate D) evs core forecast : EconomicsQuote D :=
  let sources := estimate_authority e :: dependency_sources e in
  let valid_until := min_all (source_valid_until_ns (estimate_authority e))
    ((source_valid_until_ns <$> dependency_sources e) ++ (evs ≫= core_deadlines)) in
  let missing := (component_id ∘ evaluated_component) <$> filter (λ ev, forecast_unvalued ev = true) evs in
  mkQuote (request_decision_correlation_id r) (requested_at_ns r) (request_edge_basis_policy_id r)
    evs core forecast (is_empty missing) missing
    (bt_keys (insert_snapshots ((source_snapshot_id <$> sources) ++ (evs ≫= snapshots)) []))
    (request_reporting_currency r) valid_until
    (if is_empty missing then Some (min_all valid_until (evs ≫= forecast_deadlines)) else None).

(** ** One round of the loop *)

Definition acc_after a ev core forecast : QuoteAccumulator D :=
  let id := component_id (evaluated_component ev) in
  mkAcc (id :: acc_component_ids a) (acc_components a ++ [ev]) core forecast
    (acc_forecast_complete a && negb (forecast_unvalued ev))
    (acc_missing a ++ if forecast_unvalued ev then [id] else [])
    (insert_snapshots (snapshots ev) (acc_snapshots a))
    (min_all (acc_valid_until a) (core_deadlines ev))
    (if forecast_unvalued ev then None
     else (λ t, min_all t (forecast_deadlines ev)) <$> acc_forecast_valid_until a).

Lemma insert_snapshots_app ids ids' set :
  insert_snapshots (ids ++ ids') set = insert_snapshots ids' (insert_snapshots ids set).
Proof. apply foldl_app. Qed.

Lemma min_all_app t ts ts' : min_all t (ts ++ ts') = min_all (min_all t ts) ts'.
Proof. apply foldl_app. Qed.

Lemma min_all_spec t ts x : x ≤ min_all t ts ↔ x ≤ t ∧ Forall (λ y, x ≤ y) ts.
Proof.
  unfold min_all. revert t. induction ts as [|y ts IH]; intros t; simpl.
  - split; [intros; split; [done|constructor]|by intros []].
  - rewrite IH, Z.min_glb_iff, Forall_cons. tauto.
Qed.

(** A point estimate of zero is refused for a forecast. *)
Lemma sign_checked_forecast c u :
  validate_component_sign c = Ok u → is_forecast_only c = true → ∃ effect, point_estimate c = NonZero effect.
Proof.
  unfold validate_component_sign. intros Hs Hf. rewrite Hf in Hs. destruct (point_estimate c); [by eauto|done].
Qed.

Lemma value_point_zero r routes c point id :
  value_point r routes c = Ok (Some point) → point_estimate c = ProvenZero id → point = None.
Proof. unfold value_point. intros Hv Hp. rewrite Hp in Hv. congruence. Qed.

Lemma value_point_some r routes c point effect :
  value_point r routes c = Ok (Some point) → point_estimate c = NonZero effect →
  ∃ v, point = Some v ∧
    value_with_routes effect (request_reporting_currency r) routes (requested_at_ns r) = Ok v.
Proof.
  unfold value_point. intros Hv Hp. rewrite Hp in Hv.
  destruct (value_with_routes _ _ _ _) as [v|e]; [naive_solver|]. destruct e; try done; by destruct (is_forecast_only c).
Qed.

Lemma value_point_continue r routes c :
  value_point r routes c = Ok None → is_forecast_only c = true.
Proof.
  unfold value_point. destruct (point_estimate c); [|done].
  destruct (value_with_routes _ _ _ _) as [v|e]; [done|]. destruct e; try done; by destruct (is_forecast_only c).
Qed.

Lemma forecast_missing_after a c :
  is_forecast_only c = true →
  acc_forecast_missing (acc_seen a c) c = acc_after a (mkEvaluated c None None) (acc_core_total a) (acc_forecast_total a).
Proof.
  intros Hf. unfold acc_forecast_missing, acc_after, forecast_unvalued, core_deadlines, snapshots. simpl.
  rewrite Hf. simpl. by rewrite andb_false_r.
Qed.

Lemma acc_forecast_Ok a point a' :
  acc_forecast a point = Ok a' ↔
  ∃ forecast, checked_sum (acc_forecast_total a) (option_list (normalized_amount <$> point)) = Some forecast ∧
    a' = mkAcc (acc_component_ids a) (acc_components a) (acc_core_total a) forecast
      (acc_forecast_complete a) (acc_missing a)
      (insert_snapshots (from_option valuation_snapshot_ids [] point) (acc_snapshots a))
      (acc_valid_until a) (acc_forecast_valid_until a).
Proof.
  destruct point as [v|]; simpl.
  - rewrite result_bind_Ok. setoid_rewrite ok_or_Ok.
    destruct (d_checked_add (acc_forecast_total a) (normalized_amount v)); simpl; naive_solver.
  - destruct a; naive_solver.
Qed.

Lemma acc_core_Ok a amount ids t a' :
  acc_core a amount ids t = Ok a' ↔
  ∃ core, checked_sum (acc_core_total a) [amount] = Some core ∧
    a' = mkAcc (acc_component_ids a) (acc_components a) core (acc_forecast_total a)
      (acc_forecast_complete a) (acc_missing a) (insert_snapshots ids (acc_snapshots a)) t
      (acc_forecast_valid_until a).
Proof.
  unfold acc_core. rewrite result_bind_Ok. setoid_rewrite ok_or_Ok. simpl.
  destruct (d_checked_add (acc_core_total a) amount); simpl; naive_solver.
Qed.

Lemma guaranteed_amount_Ok r routes c point amount :
  value_point r routes c = Ok (Some point) → guaranteed_point_amount c point = Ok amount →
  amount = from_option normalized_amount d_zero point.
Proof.
  intros Hv. unfold guaranteed_point_amount. destruct (point_estimate c) as [effect|id] eqn:Hp.
  - destruct (value_point_some _ _ _ _ _ Hv Hp) as (v & -> & _). simpl. congruence.
  - rewrite (value_point_zero _ _ _ _ _ Hv Hp). simpl. congruence.
Qed.

Lemma min_all_cons t x ts : min_all t (x :: ts) = Z.min (min_all t ts) x.
Proof. unfold min_all. revert t. induction ts as [|y ts IH]; intros t; simpl in *; [done|]. rewrite <- IH. simpl. f_equal. lia. Qed.

Lemma min_deadline_all t d : min_deadline t d = min_all t (option_list d).
Proof. by destruct d. Qed.

Lemma point_deadlines (point : option (ValuationEvidence D)) :
  omap valuation_valid_until_ns (option_list point) = option_list (point_deadline point).
Proof. destruct point as [v|]; [|done]. simpl. by destruct (valuation_valid_until_ns v). Qed.

Lemma deadlines_all t c point bound :
  min_all t (deadlines (mkEvaluated c point bound)) =
  Z.min (min_deadline (min_deadline t (point_deadline point)) (point_deadline bound))
    (source_valid_until_ns (component_source c)).
Proof.
  unfold deadlines. rewrite min_all_cons, min_all_app, !point_deadlines, !min_deadline_all. done.
Qed.

Lemma valued_not_missing c point bound :
  (is_forecast_only c = true → is_Some point) → forecast_unvalued (mkEvaluated c point bound) = false.
Proof.
  unfold forecast_unvalued. simpl. destruct (is_forecast_only c); [|done]. intros [v ->]; done.
Qed.

(** The variables after a component that is relied on, and after a forecast. *)
Lemma core_after a c point bound core forecast :
  is_forecast_only c = false →
  acc_push (mkAcc (component_id c :: acc_component_ids a) (acc_components a) core forecast
      (acc_forecast_complete a) (acc_missing a)
      (insert_snapshots (from_option valuation_snapshot_ids [] bound)
        (insert_snapshots (from_option valuation_snapshot_ids [] point)
          (insert_snapshots [source_snapshot_id (component_source c)] (acc_snapshots a))))
      (Z.min (min_deadline (min_deadline (acc_valid_until a) (point_deadline point)) (point_deadline bound))
         (source_valid_until_ns (component_source c)))
      (acc_forecast_valid_until a)) (mkEvaluated c point bound) =
  acc_after a (mkEvaluated c point bound) core forecast.
Proof.
  intros Hf. unfold acc_push, acc_after. rewrite valued_not_missing by (by rewrite Hf).
  rewrite <- deadlines_all. unfold core_deadlines, forecast_deadlines. simpl. rewrite Hf, andb_true_r, app_nil_r.
  rewrite <- !insert_snapshots_app. f_equal. by destruct (acc_forecast_valid_until a).
Qed.

Lemma forecast_after a c v core forecast :
  is_forecast_only c = true →
  acc_push (mkAcc (component_id c :: acc_component_ids a) (acc_components a) core forecast
      (acc_forecast_complete a) (acc_missing a)
      (insert_snapshots (valuation_snapshot_ids v)
        (insert_snapshots [source_snapshot_id (component_source c)] (acc_snapshots a)))
      (acc_valid_until a)
      ((λ deadline, min_deadline (Z.min deadline (source_valid_until_ns (component_source c)))
                      (point_deadline (Some v))) <$> acc_forecast_valid_until a)) (mkEvaluated c (Some v) None) =
  acc_after a (mkEvaluated c (Some v) None) core forecast.
Proof.
  intros Hf. unfold acc_push, acc_after. rewrite valued_not_missing by eauto.
  unfold core_deadlines, forecast_deadlines, deadlines. simpl. rewrite Hf, andb_true_r, !app_nil_r.
  unfold snapshots. simpl. rewrite ?app_nil_r. f_equal.
  destruct (acc_forecast_valid_until a) as [t|]; [|done]. simpl. f_equal.
  by destruct (valuation_valid_until_ns v).
Qed.

Local Opaque acc_core acc_forecast checked_sum insert_snapshots.

(** The end of the round once the point estimate is valued. *)
Lemma acc_valued_Ok r routes a c point a' :
  value_point r routes c = Ok (Some point) → (is_forecast_only c = true → is_Some point) →
  (a1 ←? acc_forecast (acc_seen a c) point;
   treated ←? acc_treatment r routes a1 c point;
   Ok (acc_push (fst treated) (mkEvaluated c point (snd treated)))) = Ok a' ↔
  ∃ ev core forecast,
    match admission_treatment c with
    | GuaranteedConditionalOnAction => guaranteed_point_amount c point;;? Ok (mkEvaluated c point None)
    | RiskBound _ => bound ←? value_bound r routes c point; Ok (mkEvaluated c point (Some bound))
    | ForecastOnly => Ok (mkEvaluated c point None)
    end = Ok ev ∧
    checked_sum (acc_core_total a) (option_list (core_amount ev)) = Some core ∧
    checked_sum (acc_forecast_total a) (option_list (forecast_amount ev)) = Some forecast ∧
    a' = acc_after a ev core forecast.
Proof.
  intros Hv Hfc.
  pose proof (core_after a c point) as Hcore. pose proof (forecast_after a c) as Hforecast.
  unfold acc_treatment, is_forecast_only in *. destruct (admission_treatment c) eqn:Ht; simpl; split.
  all: try (intros (a1 & (forecast & Hf & ->)%acc_forecast_Ok & Ha)%result_bind_Ok; simpl in Hf, Ha).
  all: try (intros (ev & core & forecast & He & Hc & Hf & ->)).
  all: try (assert (Hfo : ∀ Hf', acc_forecast (acc_seen a c) point = Ok _) by
    (intros Hf'; exact (proj2 (acc_forecast_Ok (acc_seen a c) point _) (ex_intro _ forecast (conj Hf' eq_refl))))).
  - rewrite !result_bind_Ok in Ha. destruct Ha as ([a2 bound] & Ha & [= <-]).
    apply result_bind_Ok in Ha as (amount & Hg & (a3 & (core & Hc & ->)%acc_core_Ok & [= <- <-])%result_bind_Ok).
    pose proof (guaranteed_amount_Ok _ _ _ _ _ Hv Hg) as ->.
    exists (mkEvaluated c point None), core, forecast. unfold core_amount. simpl. rewrite Ht, Hg.
    split_and!; [done..|exact (Hcore None core forecast eq_refl)].
  - apply result_bind_Ok in He as (amount & Hg & [= <-]). unfold core_amount in Hc. simpl in Hc.
    rewrite Ht in Hc. pose proof (guaranteed_amount_Ok _ _ _ _ _ Hv Hg) as ->. rewrite (Hfo Hf), Hg. simpl.
    erewrite (proj2 (acc_core_Ok _ _ _ _ _)); [|exists core; split; [exact Hc|reflexivity]]. simpl. f_equal.
    exact (Hcore None core forecast eq_refl).
  - rewrite !result_bind_Ok in Ha. destruct Ha as ([a2 bound] & Ha & [= <-]).
    apply result_bind_Ok in Ha as (b & Hg & (a3 & (core & Hc & ->)%acc_core_Ok & [= <- <-])%result_bind_Ok).
    exists (mkEvaluated c point (Some b)), core, forecast. unfold core_amount. simpl. rewrite Ht, Hg.
    split_and!; [done..|exact (Hcore (Some b) core forecast eq_refl)].
  - apply result_bind_Ok in He as (b & Hg & [= <-]). unfold core_amount in Hc. simpl in Hc.
    rewrite Ht in Hc. rewrite (Hfo Hf), Hg. simpl.
    erewrite (proj2 (acc_core_Ok _ _ _ _ _)); [|exists core; split; [exact Hc|reflexivity]]. simpl. f_equal.
    exact (Hcore (Some b) core forecast eq_refl).
  - injection Ha as <-. destruct (Hfc eq_refl) as [v ->].
    exists (mkEvaluated c (Some v) None), (acc_core_total a), forecast. unfold core_amount. simpl. rewrite Ht.
    split_and!; [done..|exact (Hforecast v (acc_core_total a) forecast eq_refl)].
  - injection He as <-. destruct (Hfc eq_refl) as [v ->]. unfold core_amount in Hc. simpl in Hc. rewrite Ht in Hc.
    injection Hc as <-. rewrite (Hfo Hf). simpl. f_equal. exact (Hforecast v (acc_core_total a) forecast eq_refl).
Qed.

Local Transparent checked_sum.

(** A round succeeds exactly when the component is new, evaluates and fits the totals. *)
Lemma aggregate_component_Ok r routes a c a' :
  aggregate_component r routes a c = Ok a' ↔
  component_id c ∉ acc_component_ids a ∧
  ∃ ev core forecast, evaluate_component r routes c = Ok ev ∧
    checked_sum (acc_core_total a) (option_list (core_amount ev)) = Some core ∧
    checked_sum (acc_forecast_total a) (option_list (forecast_amount ev)) = Some forecast ∧
    a' = acc_after a ev core forecast.
Proof.
  unfold aggregate_component, evaluate_component.
  case_bool_decide as Hin; [naive_solver|].
  destruct (validate_component_scope r c); simpl; [|naive_solver].
  destruct (validate_factors c); simpl; [|naive_solver].
  destruct (validate_component_sign c) as [u|] eqn:Hsign; simpl; [|naive_solver].
  assert (Hmissing : is_forecast_only c = true →
    Ok (acc_forecast_missing (acc_seen a c) c) = Ok (E := EconomicsError) a' ↔
    component_id c ∉ acc_component_ids a ∧
    ∃ ev core forecast, Ok (E := EconomicsError) (mkEvaluated c None None) = Ok ev ∧
      checked_sum (acc_core_total a) (option_list (core_amount ev)) = Some core ∧
      checked_sum (acc_forecast_total a) (option_list (forecast_amount ev)) = Some forecast ∧
      a' = acc_after a ev core forecast).
  { intros Hf. rewrite (forecast_missing_after a c Hf). split.
    - intros [= <-]. split; [done|]. do 3 eexists. split_and!; [done| |done|done].
      unfold core_amount, is_forecast_only in *. simpl. by destruct (admission_treatment c).
    - intros (_ & ev & core & forecast & [= <-] & Hc & [= <-] & ->). f_equal. f_equal.
      unfold core_amount, is_forecast_only in *. simpl in Hc. destruct (admission_treatment c); try done. by injection Hc. }
  destruct (validate_component_source _ _).
  - destruct (value_point r routes c) as [[point|]|e] eqn:Hv; simpl; [| |naive_solver].
    + assert (Hfc : is_forecast_only c = true → is_Some point).
      { intros Hf. destruct (sign_checked_forecast _ _ Hsign Hf) as [effect Hp].
        destruct (value_point_some _ _ _ _ _ Hv Hp) as (v & -> & _). eauto. }
      rewrite (acc_valued_Ok r routes a c point a' Hv Hfc). naive_solver.
    + apply Hmissing. by eapply value_point_continue.
  - destruct (is_forecast_only c) eqn:Hf; [by apply Hmissing|naive_solver].
Qed.

Lemma evaluate_component_same r routes c ev :
  evaluate_component r routes c = Ok ev → evaluated_component ev = c.
Proof.
  unfold evaluate_component. intros Hev. result_inv.
  destruct (validate_component_source _ _); [|by destruct (is_forecast_only c); simplify_eq].
  result_inv. repeat case_match; result_inv; by simplify_eq.
Qed.

(** The variables after a list of components. *)
Definition acc_run a evs core forecast : QuoteAccumulator D :=
  let missing := (component_id ∘ evaluated_component) <$> filter (λ ev, forecast_unvalued ev = true) evs in
  mkAcc (reverse ((component_id ∘ evaluated_component) <$> evs) ++ acc_component_ids a)
    (acc_components a ++ evs) core forecast (acc_forecast_complete a && is_empty missing)
    (acc_missing a ++ missing) (insert_snapshots (evs ≫= snapshots) (acc_snapshots a))
    (min_all (acc_valid_until a) (evs ≫= core_deadlines))
    (if is_empty missing then (λ t, min_all t (evs ≫= forecast_deadlines)) <$> acc_forecast_valid_until a
     else None).

Lemma acc_run_nil a : acc_run a [] (acc_core_total a) (acc_forecast_total a) = a.
Proof.
  destruct a as [ids cs co fo fc mi sn vu fv]. unfold acc_run. simpl.
  rewrite !app_nil_r, andb_true_r. f_equal. by destruct fv.
Qed.

Lemma acc_run_cons a ev evs core forecast core1 forecast1 :
  acc_run (acc_after a ev core1 forecast1) evs core forecast = acc_run a (ev :: evs) core forecast.
Proof.
  unfold acc_run, acc_after. cbv zeta. rewrite !bind_cons, fmap_cons, reverse_cons.
  cbn [acc_component_ids acc_components acc_core_total acc_forecast_total acc_forecast_complete acc_missing
       acc_snapshots acc_valid_until acc_forecast_valid_until].
  rewrite <- !app_assoc, insert_snapshots_app, min_all_app.
  destruct (forecast_unvalued ev) eqn:Hu.
  - rewrite (filter_cons_True _ ev), fmap_cons by done. cbn [is_empty negb]. rewrite !andb_false_r, andb_false_l.
    f_equal. by case_match.
  - rewrite (filter_cons_False _ ev) by (by rewrite Hu). cbn [negb]. rewrite andb_true_r. f_equal.
    case_match; [|done]. destruct (acc_forecast_valid_until a); [|done]. simpl. by rewrite min_all_app.
Qed.

Lemma checked_sum_app total xs ys :
  checked_sum total (xs ++ ys) = checked_sum total xs ≫= λ t, checked_sum t ys.
Proof.
  revert total. induction xs as [|x xs IH]; intros total; simpl; [done|].
  destruct (d_checked_add total x); simpl; [apply IH|done].
Qed.

(** The loop over all components. *)
Lemma aggregate_components_Ok r routes cs a a' :
  aggregate_components r routes a cs = Ok a' ↔
  NoDup (component_id <$> cs) ∧ (∀ id, id ∈ component_id <$> cs → id ∉ acc_component_ids a) ∧
  ∃ evs core forecast, Forall2 (λ c ev, evaluate_component r routes c = Ok ev) cs evs ∧
    checked_sum (acc_core_total a) (omap core_amount evs) = Some core ∧
    checked_sum (acc_forecast_total a) (omap forecast_amount evs) = Some forecast ∧
    a' = acc_run a evs core forecast.
Proof.
  revert a. induction cs as [|c cs IH]; intros a; simpl.
  - split.
    + intros [= <-]. split; [constructor|]. split; [by intros id ?%elem_of_nil|].
      exists [], (acc_core_total a), (acc_forecast_total a). by rewrite acc_run_nil.
    + intros (_ & _ & evs & core & forecast & ->%Forall2_nil_inv_l & [= <-] & [= <-] & ->).
      by rewrite acc_run_nil.
  - rewrite result_bind_Ok. setoid_rewrite aggregate_component_Ok. setoid_rewrite IH.
    assert (Hsplit : ∀ total f (ev : EvaluatedEconomicsComponent D) evs,
      checked_sum total (omap f (ev :: evs)) =
      checked_sum total (option_list (f ev)) ≫= λ t, checked_sum t (omap f evs)).
    { intros total f ev evs. simpl. destruct (f ev); [|done]. simpl. by destruct (d_checked_add total _). }
    rewrite NoDup_cons. split.
    + intros (a1 & (Hnew & ev & core & forecast & Hev & Hc & Hf & ->) & Hnd & Hdis & evs & core' & forecast' &
        Hevs & Hc' & Hf' & ->).
      pose proof (evaluate_component_same _ _ _ _ Hev) as Hsame. simpl in Hdis. rewrite Hsame in Hdis.
      split_and!; [|done| |].
      * intros Hin. apply (Hdis _ Hin). left.
      * intros id [->|Hin]%elem_of_cons; [done|]. intros Hin'. apply (Hdis _ Hin). by right.
      * exists (ev :: evs), core', forecast'. rewrite !Hsplit, Hc, Hf. split_and!; [by constructor|done|done|].
        by rewrite acc_run_cons.
    + intros ((Hnin & Hnd) & Hdis & evs0 & core' & forecast' & Hevs & Hc & Hf & ->).
      apply Forall2_cons_inv_l in Hevs as (ev & evs & Hev & Hevs & ->).
      rewrite Hsplit in Hc, Hf. apply bind_Some in Hc as (core & Hc & Hc'). apply bind_Some in Hf as (forecast & Hf & Hf').
      exists (acc_after a ev core forecast). split; [split; [apply Hdis; left|by eauto 10]|].
      pose proof (evaluate_component_same _ _ _ _ Hev) as Hsame. split; [done|]. split.
      * simpl. rewrite Hsame. intros id Hin [->|Hin']%elem_of_cons; [done|]. by apply (Hdis id); [right|].
      * exists evs, core', forecast'. by rewrite acc_run_cons.
Qed.

(** ** The whole quote *)

Definition source_fresh (t : Z) (s : SourceValidity) : Prop :=
  source_at_ns s ≤ source_fetched_at_ns s ≤ t ∧ t ≤ source_valid_until_ns s.

Lemma validate_component_source_Ok t s u : validate_component_source t s = Ok u ↔ source_fresh t s.
Proof.
  unfold validate_component_source, source_fresh. destruct u.
  destruct (Z.ltb_spec (source_fetched_at_ns s) (source_at_ns s)), (Z.ltb_spec t (source_fetched_at_ns s)),
    (Z.ltb_spec (source_valid_until_ns s) (source_fetched_at_ns s)), (Z.ltb_spec (source_valid_until_ns s) t);
    simpl; split; try done; lia.
Qed.

Lemma validate_sources_Ok t ss u : validate_sources t ss = Ok u ↔ Forall (source_fresh t) ss.
Proof.
  unfold validate_sources. rewrite try_each_Ok. apply Forall_iff. intros s. apply validate_component_source_Ok.
Qed.

(** What an accepted estimate is, and the quote it gives. *)
Definition quote_of r (e : VenueQuoteEstimate D) routes evs (q : EconomicsQuote D) : Prop :=
  request_validate r = Ok tt ∧
  Forall (source_fresh (requested_at_ns r)) (estimate_authority e :: dependency_sources e) ∧
  NoDup (component_id <$> estimate_components e) ∧
  Forall2 (λ c ev, evaluate_component r routes c = Ok ev) (estimate_components e) evs ∧
  ∃ core forecast,
    checked_sum d_zero (omap core_amount evs) = Some core ∧
    checked_sum d_zero (omap forecast_amount evs) = Some forecast ∧
    q = reference_quote r e evs core forecast.

Lemma foldl_min_all t (ss : list SourceValidity) :
  foldl (λ deadline s, Z.min deadline (source_valid_until_ns s)) t ss = min_all t (source_valid_until_ns <$> ss).
Proof. revert t. induction ss as [|s ss IH]; intros t; csimpl; [done|]. apply IH. Qed.

Lemma acc_start_run r e evs core forecast :
  let a := acc_run (acc_start e) evs core forecast in
  mkQuote (request_decision_correlation_id r) (requested_at_ns r) (request_edge_basis_policy_id r)
    (acc_components a) (acc_core_total a) (acc_forecast_total a) (acc_forecast_complete a)
    (acc_missing a) (bt_keys (acc_snapshots a)) (request_reporting_currency r) (acc_valid_until a)
    (if acc_forecast_complete a
     then (λ deadline, Z.min deadline (acc_valid_until a)) <$> acc_forecast_valid_until a
     else None) = reference_quote r e evs core forecast.
Proof.
  unfold reference_quote, acc_run, acc_start. cbv zeta.
  cbn [acc_component_ids acc_components acc_core_total acc_forecast_total acc_forecast_complete acc_missing
       acc_snapshots acc_valid_until acc_forecast_valid_until].
  rewrite !app_nil_l, andb_true_l, insert_snapshots_app, foldl_min_all, min_all_app. f_equal.
  case_match; [|done]. simpl. f_equal. apply Z.le_antisymm.
  - apply min_all_spec. pose proof (Z.le_min_l (min_all (min_all (source_valid_until_ns (estimate_authority e))
      (source_valid_until_ns <$> dependency_sources e)) (evs ≫= forecast_deadlines)) (min_all
      (min_all (source_valid_until_ns (estimate_authority e)) (source_valid_until_ns <$> dependency_sources e))
      (evs ≫= core_deadlines))) as Hl. apply min_all_spec in Hl as [_ Hl]. split; [apply Z.le_min_r|done].
  - set (x := min_all _ (evs ≫= forecast_deadlines)) at 1.
    assert (Hx : x ≤ x) by lia. unfold x in Hx at 2. apply min_all_spec in Hx as [Hv Hf].
    apply Z.min_glb; [|done]. apply min_all_spec. split; [|done]. apply min_all_spec in Hv. tauto.
Qed.

Lemma aggregate_reference r e routes q :
  validate_and_aggregate_quote r e routes = Ok q ↔ ∃ evs, quote_of r e routes evs q.
Proof.
  unfold validate_and_aggregate_quote, quote_of. setoid_rewrite Forall_cons. split.
  - intros ([] & Hr & ([] & Ha%validate_component_source_Ok & ([] & Hd%validate_sources_Ok & (a & Hrun & [= <-])%result_bind_Ok)
      %result_bind_Ok)%result_bind_Ok)%result_bind_Ok.
    apply aggregate_components_Ok in Hrun as (Hnd & _ & evs & core & forecast & Hevs & Hc & Hf & ->).
    exists evs. split_and!; [done..|]. exists core, forecast. split_and!; [done..|]. apply acc_start_run.
  - intros (evs & Hr & [Ha Hd] & Hnd & Hevs & core & forecast & Hc & Hf & ->).
    rewrite Hr. simpl. rewrite (proj2 (validate_component_source_Ok _ _ tt) Ha). simpl.
    rewrite (proj2 (validate_sources_Ok _ _ tt) Hd). simpl.
    rewrite (proj2 (aggregate_components_Ok r routes (estimate_components e) (acc_start e)
      (acc_run (acc_start e) evs core forecast))).
    + cbn [result_bind]. f_equal. apply acc_start_run.
    + split; [done|]. split; [by intros id _ ?%elem_of_nil|]. by exists evs, core, forecast.
Qed.

(** C36: The loop of the aggregation computes the reference: an estimate is accepted exactly when
    the request is valid, the authority and all dependencies are fresh, the component ids
    are distinct, every component evaluates on its own and neither total overflows; the
    quote then holds the evaluated components in order, the totals of the amounts relied
    on and forecast, exactly the unvalued forecasts as missing, all snapshots sorted and
    without repetition, and as horizons the minima of the deadlines. *)
Theorem quote_matches_reference r e routes q :
  validate_and_aggregate_quote r e routes = Ok q ↔ ∃ evs, quote_of r e routes evs q.
Proof. apply aggregate_reference. Qed.

(** ** Routes *)

(** A chain of legs from one unit to another over units not met before, every leg with a
    positive rate and valid at the time of the valuation. *)
Inductive leg_chain (t : Z) : NativeUnitId → list NativeUnitId → list (ValuationLeg D) → NativeUnitId → Prop :=
| chain_end u seen : leg_chain t u seen [] u
| chain_leg u seen leg legs w :
    vleg_from leg = u → vleg_to leg ∉ seen → d_ltb d_zero (to_units_per_from_unit leg) = true →
    vleg_observed_at_ns leg ≤ vleg_fetched_at_ns leg ≤ t → t ≤ vleg_valid_until_ns leg →
    leg_chain t (vleg_to leg) (vleg_to leg :: seen) legs w → leg_chain t u seen (leg :: legs) w.

Lemma leg_invalid_false t u seen (leg : ValuationLeg D) :
  leg_invalid t u seen leg = false ↔
  vleg_from leg = u ∧ vleg_to leg ∉ seen ∧ d_ltb d_zero (to_units_per_from_unit leg) = true ∧
  vleg_observed_at_ns leg ≤ vleg_fetched_at_ns leg ≤ t ∧ t ≤ vleg_valid_until_ns leg.
Proof.
  unfold leg_invalid, d_leb.
  rewrite !orb_false_iff, !negb_false_iff, bool_decide_eq_true, bool_decide_eq_false, !Z.ltb_ge. naive_solver lia.
Qed.

Lemma validate_legs_chain t u seen legs w :
  validate_legs t u seen legs = Some w ↔ leg_chain t u seen legs w.
Proof.
  revert u seen. induction legs as [|leg legs IH]; intros u seen; simpl.
  - split; [intros [= <-]; constructor|]. intros Hc. by inversion Hc.
  - destruct (leg_invalid t u seen leg) eqn:Hl.
    + split; [done|]. intros Hc. inversion Hc; subst.
      assert (leg_invalid t (vleg_from leg) seen leg = false); [|congruence]. by apply leg_invalid_false.
    + apply leg_invalid_false in Hl as (Hf & Hs & Hr & Ht & Hv). rewrite IH. split.
      * intros Hc. by constructor.
      * intros Hc. by inversion Hc.
Qed.

(** A route an effect may be valued over. *)
Definition route_valid (t : Z) (route : ValuationRoute D) : Prop :=
  t ≤ route_valid_until_ns route ∧ route_legs route ≠ [] ∧
  leg_chain t (route_from route) [route_from route] (route_legs route) (UnitCurrency (route_to route)).

Lemma validate_route_Ok t route u : validate_route route t = Ok u ↔ route_valid t route.
Proof.
  unfold validate_route, route_valid. setoid_rewrite <- validate_legs_chain. destruct u.
  destruct (Z.ltb_spec (route_valid_until_ns route) t); [split; [done|lia]|].
  destruct (route_legs route) as [|leg legs]; [split; [done|naive_solver]|]. cbn [is_empty].
  destruct (validate_legs _ _ _ _) as [w|]; [|naive_solver].
  case_bool_decide; simpl; naive_solver.
Qed.

Definition legs_deadline (route : ValuationRoute D) : Z :=
  min_all (route_valid_until_ns route) (vleg_valid_until_ns <$> route_legs route).

Lemma foldl_legs_deadline t (legs : list (ValuationLeg D)) :
  foldl (λ deadline leg, Z.min deadline (vleg_valid_until_ns leg)) t legs = min_all t (vleg_valid_until_ns <$> legs).
Proof. revert t. induction legs as [|l legs IH]; intros t; csimpl; [done|]. apply IH. Qed.

Lemma chain_deadlines t u seen legs w :
  leg_chain t u seen legs w → Forall (λ d, t ≤ d) (vleg_valid_until_ns <$> legs).
Proof. induction 1; csimpl; [constructor|]. by constructor. Qed.

Lemma route_valid_deadline t route : route_valid t route → t ≤ legs_deadline route.
Proof. intros (Ht & _ & Hc). apply min_all_spec. split; [done|]. by eapply chain_deadlines. Qed.

(** The valuation of an effect: of the reporting currency itself, or over the one route. *)
Lemma value_with_routes_Ok effect currency routes t v :
  value_with_routes effect currency routes t = Ok v →
  native_effect v = effect ∧ valuation_currency v = currency ∧ valued_at_ns v = t ∧
  ((effect_unit effect = UnitCurrency currency ∧ normalized_amount v = effect_amount effect ∧
    valuation_valid_until_ns v = None) ∨
   ∃ route rate, filter (λ x, route_matches (effect_unit effect) currency x = true) routes = [route] ∧
     route_valid t route ∧ legs_rate d_one (route_legs route) = Ok rate ∧
     d_checked_mul (effect_amount effect) rate = Some (normalized_amount v) ∧
     valuation_route_id v = Some (route_id route) ∧ valuation_valid_until_ns v = Some (legs_deadline route)).
Proof.
  unfold value_with_routes. case_bool_decide as Hu; [intros [= <-]; naive_solver|].
  destruct (filter _ routes) as [|route [|? ?]] eqn:Hr; [done| |done]. intros Hv.
  apply result_bind_Ok in Hv as (u & Hok%validate_route_Ok & Hv).
  apply result_bind_Ok in Hv as (rate & Hrate & Hv). apply result_bind_Ok in Hv as (amount & Ham%ok_or_Ok & [= <-]).
  split_and!; [done..|]. right. exists route, rate. simpl. rewrite foldl_legs_deadline. by split_and!.
Qed.

Lemma valuation_deadline effect currency routes t v d :
  value_with_routes effect currency routes t = Ok v → valuation_valid_until_ns v = Some d → t ≤ d.
Proof.
  intros (_ & _ & _ & [(_ & _ & Hn)|(route & rate & _ & Hr & _ & _ & _ & Hd)])%value_with_routes_Ok E; [congruence|].
  rewrite Hd in E. injection E as <-. by apply route_valid_deadline.
Qed.

(** ** The horizon *)

Lemma evaluate_component_inv r routes c ev :
  evaluate_component r routes c = Ok ev → is_forecast_only c = false →
  source_fresh (requested_at_ns r) (component_source c) ∧
  value_point r routes c = Ok (Some (point_valuation ev)) ∧
  match admission_treatment c with
  | RiskBound _ => ∃ b, value_bound r routes c (point_valuation ev) = Ok b ∧ debit_risk_bound_valuation ev = Some b
  | _ => debit_risk_bound_valuation ev = None
  end.
Proof.
  unfold evaluate_component. intros Hev Hf.
  apply result_bind_Ok in Hev as (u1 & _ & Hev). apply result_bind_Ok in Hev as (u2 & _ & Hev).
  apply result_bind_Ok in Hev as (u3 & _ & Hev).
  destruct (validate_component_source _ _) as [u|] eqn:Hs; [|by rewrite Hf in Hev].
  apply validate_component_source_Ok in Hs. split; [done|].
  apply result_bind_Ok in Hev as ([point|] & Hp & Hev); [|by apply value_point_continue in Hp; congruence].
  destruct (admission_treatment c) eqn:Ht.
  - apply result_bind_Ok in Hev as (x & _ & [= <-]). done.
  - apply result_bind_Ok in Hev as (b & Hb & [= <-]). simpl. eauto.
  - by injection Hev as <-.
Qed.

Lemma value_point_deadline r routes c point d :
  value_point r routes c = Ok (Some point) → point_deadline point = Some d → requested_at_ns r ≤ d.
Proof.
  intros Hv Hd. destruct (point_estimate c) as [effect|id] eqn:Hp.
  - destruct (value_point_some _ _ _ _ _ Hv Hp) as (v & -> & Hval). by eapply valuation_deadline.
  - by rewrite (value_point_zero _ _ _ _ _ Hv Hp) in Hd.
Qed.

Lemma value_bound_Ok r routes c point b :
  value_bound r routes c point = Ok b ↔
  ∃ bound, debit_risk_bound c = Some bound ∧ d_ltb (effect_amount bound) d_zero = true ∧
    value_with_routes bound (request_reporting_currency r) routes (requested_at_ns r) = Ok b ∧
    d_ltb (normalized_amount b) d_zero = true ∧
    ∀ p, point = Some p → d_ltb (normalized_amount p) (normalized_amount b) = false.
Proof.
  unfold value_bound, d_geb, d_gtb. rewrite result_bind_Ok. setoid_rewrite ok_or_Ok.
  destruct (debit_risk_bound c) as [bound|]; [|naive_solver]. split.
  - intros (bound' & [= <-] & Hb). destruct (d_ltb (effect_amount bound) d_zero) eqn:Hneg; [|done]. simpl in Hb.
    apply result_bind_Ok in Hb as (v & Hv & Hb). destruct (d_ltb (normalized_amount v) d_zero) eqn:Hn; [|done]. simpl in Hb.
    destruct point as [p|]; [destruct (d_ltb (normalized_amount p) (normalized_amount v)) eqn:Hc; [done|]|];
      injection Hb as <-; eexists; split_and!; try done; naive_solver.
  - intros (bound' & [= <-] & Hneg & Hv & Hn & Hp). exists bound. split; [done|]. rewrite Hneg. simpl. rewrite Hv. simpl.
    rewrite Hn. simpl. destruct point as [p|]; [|done]. by rewrite (Hp p eq_refl).
Qed.

Lemma evaluated_deadlines r routes c ev :
  evaluate_component r routes c = Ok ev → is_forecast_only c = false →
  Forall (λ d, requested_at_ns r ≤ d) (deadlines ev).
Proof.
  intros Hev Hf. pose proof (evaluate_component_same _ _ _ _ Hev) as Hc.
  destruct (evaluate_component_inv _ _ _ _ Hev Hf) as ([_ Hs] & Hp & Hb). unfold deadlines. rewrite Hc, !point_deadlines.
  constructor; [done|]. apply Forall_app. split.
  - destruct (point_deadline (point_valuation ev)) as [d|] eqn:Hd; [|constructor].
    constructor; [|constructor]. by eapply value_point_deadline.
  - destruct (debit_risk_bound_valuation ev) as [b|]; [|constructor]. simpl.
    destruct (valuation_valid_until_ns b) as [d|] eqn:Hd; [|constructor]. constructor; [|constructor].
    destruct (admission_treatment c); [done| |done]. destruct Hb as (b' & Hb & [= <-]).
    apply value_bound_Ok in Hb as (bound & _ & _ & Hv & _). by eapply valuation_deadline.
Qed.

Lemma Forall2_members {A B} (P : A → B → Prop) l k y :
  Forall2 P l k → y ∈ k → ∃ x, x ∈ l ∧ P x y.
Proof.
  intros HF [i Hi]%list_elem_of_lookup. destruct (Forall2_lookup_r _ _ _ _ _ HF Hi) as (x & Hx & HP).
  exists x. split; [by eapply list_elem_of_lookup_2|done].
Qed.

(** The evidence an admission on a quote relies on is valid at a time. *)
Definition evidence_valid (e : VenueQuoteEstimate D) (q : EconomicsQuote D) (now : Z) : Prop :=
  (∀ s, s ∈ estimate_authority e :: dependency_sources e → now ≤ source_valid_until_ns s) ∧
  ∀ ev, ev ∈ quote_components q → is_forecast_only (evaluated_component ev) = false →
    Forall (λ d, now ≤ d) (deadlines ev).

Lemma quote_horizon r e routes evs q now :
  quote_of r e routes evs q → now ≤ quote_valid_until_ns q ↔ evidence_valid e q now.
Proof.
  intros (_ & _ & _ & _ & core & forecast & _ & _ & ->). unfold evidence_valid. cbn [quote_valid_until_ns reference_quote].
  rewrite min_all_spec, Forall_app, Forall_fmap, !Forall_forall. setoid_rewrite list_elem_of_bind. simpl. split.
  - intros (Ha & Hd & Hevs). split.
    + intros s [->|Hs]%elem_of_cons; [done|by apply Hd].
    + intros ev Hev Hf. apply Forall_forall. intros d Hd'. apply Hevs. exists ev. split; [|done].
      unfold core_deadlines. by rewrite Hf.
  - intros (Hs & Hevs). split; [apply Hs; left|]. split.
    + intros s Hin. apply Hs. by right.
    + intros d (ev & Hd & Hev). unfold core_deadlines in Hd. destruct (is_forecast_only _) eqn:Hf; [by apply elem_of_nil in Hd|].
      specialize (Hevs ev Hev Hf). rewrite Forall_forall in Hevs. by apply Hevs.
Qed.

Lemma quote_fresh r e routes evs q : quote_of r e routes evs q → evidence_valid e q (requested_at_ns r).
Proof.
  intros (_ & Hs & _ & Hevs & core & forecast & _ & _ & ->). split.
  - intros s Hin. rewrite Forall_forall in Hs. by destruct (Hs s Hin).
  - simpl. intros ev Hev Hf. destruct (Forall2_members _ _ _ _ Hevs Hev) as (c & Hc & Hok).
    pose proof (evaluate_component_same _ _ _ _ Hok) as Hsame. rewrite Hsame in Hf. by eapply evaluated_deadlines.
Qed.

Lemma allows_admission_Ok t now : is_ok (allows_admission t now) = true ↔ now ≤ t.
Proof. unfold allows_admission. destruct (Z.ltb_spec t now); simpl; split; (done || lia). Qed.

(** A quote lets an admission pass exactly as long as all the evidence it relies on is
    valid: the authority, the dependencies, and of every component that is not a mere
    forecast the source, the valuation and the valuation of its bound.  At the time of
    the request it lets it pass; capping its horizon makes it expire at the cap as well,
    and is refused when the quote would be expired at its request. *)
Lemma quote_expires_with_evidence r e routes q now :
  validate_and_aggregate_quote r e routes = Ok q →
  (is_ok (allows_admission (capability_health q) now) = true ↔ evidence_valid e q now) ∧
  is_ok (allows_admission (capability_health q) (requested_at_ns r)) = true ∧
  ∀ cap, (is_ok (cap_valid_until_ns q cap) = true ↔ requested_at_ns r ≤ cap) ∧
    ∀ q', cap_valid_until_ns q cap = Ok q' →
      (is_ok (allows_admission (capability_health q') now) = true ↔ evidence_valid e q now ∧ now ≤ cap) ∧
      core_total q' = core_total q ∧ quote_components q' = quote_components q.
Proof.
  intros (evs & Hq)%aggregate_reference. unfold capability_health. rewrite !allows_admission_Ok.
  rewrite !(quote_horizon _ _ _ _ _ _ Hq). split; [done|]. split; [by eapply quote_fresh|].
  intros cap. assert (Hreq : quote_requested_at_ns q = requested_at_ns r).
  { destruct Hq as (_ & _ & _ & _ & core & forecast & _ & _ & ->). done. }
  unfold cap_valid_until_ns. rewrite Hreq. destruct (Z.ltb_spec cap (requested_at_ns r)) as [Hlt|Hle]; simpl.
  - split; [split; [done|lia]|done].
  - split; [done|]. intros q' [= <-]. simpl. rewrite allows_admission_Ok, Z.min_glb_iff.
    by rewrite (quote_horizon _ _ _ _ _ _ Hq).
Qed.

End Facts.

(** ** Amounts *)

Section Amounts.
Context {D : Type} `{DecimalSignLaws D}.
Implicit Types (r : EconomicsQuoteRequest D) (c : EstimatedEffect D) (q : EconomicsQuote D)
  (ev : EvaluatedEconomicsComponent D) (v : ValuationEvidence D) (routes : list (ValuationRoute D)).

Lemma d_one_nonneg : d_ltb d_one d_zero = false.
Proof.
  destruct d_zero_exact as [Hz Ez], d_one_exact as [Ho Eo]. rewrite d_ltb_value, Ez, Eo by done.
  apply Z.ltb_ge. pose proof d_unit_pos. lia.
Qed.

Lemma legs_rate_nonneg t u seen (legs : list (ValuationLeg D)) w rate rate' :
  leg_chain t u seen legs w → d_ltb rate d_zero = false → legs_rate rate legs = Ok rate' →
  d_ltb rate' d_zero = false.
Proof.
  intros Hc. revert rate. induction Hc as [|u seen leg legs w _ _ Hpos _ _ _ IH]; intros rate Hr; simpl.
  - by intros [= <-].
  - intros (rate1 & Hm%ok_or_Ok & Hl)%result_bind_Ok. apply (IH rate1); [|done].
    eapply d_mul_nonneg; [done|done|]. by apply d_ltb_asym.
Qed.

(** A valuation is over the reporting currency itself or over the one configured route from
    the unit of the effect to it, a chain of valid legs with positive rates that meets no
    unit twice; it expires with the route or its first leg, not before the time it was
    made, and turns no charge into a credit and no credit into a charge. *)
Lemma valuation_sound effect currency routes t v :
  value_with_routes effect currency routes t = Ok v →
  native_effect v = effect ∧ valuation_currency v = currency ∧
  (∀ d, valuation_valid_until_ns v = Some d → t ≤ d) ∧
  (effect_unit effect = UnitCurrency currency ∧ normalized_amount v = effect_amount effect ∨
   ∃ route, route ∈ routes ∧ route_from route = effect_unit effect ∧ route_to route = currency ∧
     (∀ other, other ∈ routes → route_from other = effect_unit effect → route_to other = currency → other = route) ∧
     route_valid t route ∧ valuation_valid_until_ns v = Some (legs_deadline route)) ∧
  (d_ltb d_zero (effect_amount effect) = false → d_ltb d_zero (normalized_amount v) = false) ∧
  (d_ltb (effect_amount effect) d_zero = false → d_ltb (normalized_amount v) d_zero = false).
Proof.
  intros Hv.
  destruct (value_with_routes_Ok _ _ _ _ _ Hv) as (Hn & Hc & _ & Hcases). split_and!; [done|done| | | |].
  - intros d Hd'. by eapply valuation_deadline.
  - destruct Hcases as [(Hu & Ha & _)|(route & rate & Hf & Hr & _ & _ & _ & Hdl)]; [by left|]. right. exists route.
    assert (Hin : ∀ x, x ∈ routes ∧ route_matches (effect_unit effect) currency x = true ↔ x = route).
    { intros x. rewrite <- (list_elem_of_singleton x route), <- Hf, list_elem_of_filter. tauto. }
    destruct (proj2 (Hin route) eq_refl) as [Hmem Hm]. unfold route_matches in *.
    rewrite andb_true_iff, !bool_decide_eq_true in Hm. destruct Hm. split_and!; try done.
    intros other Ho Hfrom Hto. apply Hin. split; [done|]. by rewrite !bool_decide_true.
  - intros Hs. destruct Hcases as [(_ & -> & _)|(route & rate & _ & (_ & _ & Hch) & Hr & Hm & _)]; [done|].
    eapply d_mul_nonpos; [done|done|]. by eapply legs_rate_nonneg; [|apply d_one_nonneg|].
  - intros Hs. destruct Hcases as [(_ & -> & _)|(route & rate & _ & (_ & _ & Hch) & Hr & Hm & _)]; [done|].
    eapply d_mul_nonneg; [done|done|]. by eapply legs_rate_nonneg; [|apply d_one_nonneg|].
Qed.

(** *** Totals *)

Lemma checked_sum_exact xs total :
  d_exact total → Forall d_exact xs →
  Z.abs (d_value total) + Zsum ((λ x, Z.abs (d_value x)) <$> xs) ≤ d_limit →
  ∃ s, checked_sum total xs = Some s ∧ d_exact s ∧ d_value s = d_value total + Zsum (d_value <$> xs).
Proof.
  intros Ht Hxs. revert total Ht. induction Hxs as [|x xs Hx Hxs IH]; intros total Ht; csimpl; intros Hl.
  - exists total. split_and!; [done|done|lia].
  - assert (0 ≤ Zsum ((λ x, Z.abs (d_value x)) <$> xs)).
    { apply Zsum_nonneg, Forall_fmap, Forall_forall. intros y _. simpl. lia. }
    destruct (d_add_exact total x Ht Hx) as (s & Hs & Es & Vs); [lia|]. rewrite Hs. simpl.
    destruct (IH s Es) as (s' & Hs' & Es' & Vs'); [rewrite Vs; lia|]. exists s'. split_and!; [done|done|lia].
Qed.

(** The point estimate of a component, in the reporting currency. *)
Definition point_value ev : Z := d_value (from_option normalized_amount d_zero (point_valuation ev)).

(** The components an admission relies on. *)
Definition relied q : list (EvaluatedEconomicsComponent D) :=
  filter (λ ev, is_forecast_only (evaluated_component ev) = false) (quote_components q).

(** The amounts of a quote are on the grid, and their sum with the gross value fits. *)
Definition amounts_exact (gross : D) q : Prop :=
  d_exact gross ∧
  (∀ ev v, ev ∈ quote_components q → point_valuation ev = Some v ∨ debit_risk_bound_valuation ev = Some v →
     d_exact (normalized_amount v)) ∧
  Z.abs (d_value gross) + Zsum ((λ x, Z.abs (d_value x)) <$> omap core_amount (quote_components q)) ≤ d_limit.

Lemma core_amount_exact ev :
  (∀ v, point_valuation ev = Some v ∨ debit_risk_bound_valuation ev = Some v → d_exact (normalized_amount v)) →
  ∀ x, core_amount ev = Some x → d_exact x.
Proof.
  intros Hex x. unfold core_amount. destruct (admission_treatment _); [| |done].
  - intros [= <-]. destruct (point_valuation ev); simpl; [auto|apply d_zero_exact].
  - intros (v & Hv & ->)%fmap_Some. auto.
Qed.

(** A component that is relied on counts at most its point estimate. *)
Lemma core_amount_le r routes c ev :
  evaluate_component r routes c = Ok ev → is_forecast_only c = false →
  (∀ v, point_valuation ev = Some v ∨ debit_risk_bound_valuation ev = Some v → d_exact (normalized_amount v)) →
  ∃ x, core_amount ev = Some x ∧ d_value x ≤ point_value ev.
Proof.
  intros Hev Hf Hex. pose proof (evaluate_component_same _ _ _ _ Hev) as Hc.
  destruct (evaluate_component_inv _ _ _ _ Hev Hf) as (_ & _ & Hb). unfold core_amount, point_value. rewrite Hc.
  unfold is_forecast_only in Hf. destruct (admission_treatment c); [| |done].
  - eexists. split; [done|lia].
  - destruct Hb as (b & (bound & _ & _ & _ & Hneg & Hle)%value_bound_Ok & Hbv). rewrite Hbv. eexists. split; [done|].
    assert (Eb : d_exact (normalized_amount b)) by auto. destruct d_zero_exact as [Hz Ez].
    destruct (point_valuation ev) as [p|]; simpl.
    + specialize (Hle p eq_refl). rewrite d_ltb_value in Hle by auto. apply Z.ltb_ge in Hle. lia.
    + rewrite d_ltb_value, Ez in Hneg by done. apply Z.ltb_lt in Hneg. lia.
Qed.

Lemma core_sum_le r routes cs evs :
  Forall2 (λ c ev, evaluate_component r routes c = Ok ev) cs evs →
  (∀ ev v, ev ∈ evs → point_valuation ev = Some v ∨ debit_risk_bound_valuation ev = Some v →
     d_exact (normalized_amount v)) →
  Zsum (d_value <$> omap core_amount evs) ≤
  Zsum (point_value <$> filter (λ ev, is_forecast_only (evaluated_component ev) = false) evs).
Proof.
  intros Hevs. induction Hevs as [|c ev cs evs Hev _ IH]; intros Hex; [done|].
  assert (Htail := IH (λ ev' v Hin, Hex ev' v (list_elem_of_further _ _ _ Hin))).
  pose proof (evaluate_component_same _ _ _ _ Hev) as Hc.
  destruct (is_forecast_only c) eqn:Hf.
  - rewrite filter_cons_False by (rewrite Hc; congruence).
    assert (Hn : core_amount ev = None).
    { unfold core_amount, is_forecast_only in *. rewrite Hc. by destruct (admission_treatment c). }
    simpl. by rewrite Hn.
  - rewrite filter_cons_True by (by rewrite Hc).
    destruct (core_amount_le _ _ _ _ Hev Hf) as (x & Hx & Hle); [intros v; apply Hex; left|].
    csimpl. rewrite Hx. csimpl. lia.
Qed.

(** C37: The net edge of a quote is conservative: it is the gross value plus exactly the
    amounts relied on, and so at most the gross value plus their point estimates,
    whatever credits are forecast beside them; and it is made only for a gross value in
    the reporting currency and a basis of the policy and decision of the quote that was
    valid when it was requested. *)
Theorem net_edge_conservative r e routes q gross basis n :
  validate_and_aggregate_quote r e routes = Ok q → fold_net_edge gross q basis = Ok n →
  amounts_exact (gross_amount gross) q →
  d_value (core_net_edge n) = d_value (gross_amount gross) + Zsum (d_value <$> omap core_amount (quote_components q)) ∧
  d_value (core_net_edge n) ≤ d_value (gross_amount gross) + Zsum (point_value <$> relied q) ∧
  gross_currency_id gross = request_reporting_currency r ∧
  basis_policy_id basis = request_edge_basis_policy_id r ∧
  basis_scope basis = ScopeDecision (request_decision_correlation_id r) ∧
  requested_at_ns r ≤ basis_valid_until_ns basis.
Proof.
  intros (evs & _ & _ & _ & Hevs & core & forecast & Hc & _ & ->)%aggregate_reference Hn (Hg & Hex & Hl).
  unfold fold_net_edge in Hn. cbn [quote_reporting_currency quote_edge_basis_policy_id quote_decision_correlation_id
    quote_requested_at_ns core_total forecast_total reference_quote quote_components] in *.
  case_bool_decide as Hcur; [|done]. case_bool_decide as Hpol; [|done]. simpl in Hn.
  destruct (basis_scope basis) as [id| |] eqn:Hscope; try done. case_bool_decide as Hid; [|done]. simpl in Hn.
  destruct (Z.ltb_spec (basis_valid_until_ns basis) (requested_at_ns r)); [done|].
  apply result_bind_Ok in Hn as (net & Hnet%ok_or_Ok & Hn).
  assert (Hnet' : core_net_edge n = net) by (result_inv; by simplify_eq).
  assert (Hce : Forall d_exact (omap core_amount evs)).
  { apply Forall_forall. intros x (ev & Hev & Hx)%list_elem_of_omap. eapply core_amount_exact; [|done].
    intros v. by apply Hex. }
  destruct d_zero_exact as [Hz Ez].
  destruct (checked_sum_exact _ d_zero Hz Hce) as (s & Hs & Es & Vs); [rewrite Ez; lia|].
  rewrite Hs in Hc. injection Hc as ->.
  assert (Habs : Z.abs (Zsum (d_value <$> omap core_amount evs)) ≤
    Zsum ((λ x, Z.abs (d_value x)) <$> omap core_amount evs)).
  { clear. induction (omap core_amount evs); csimpl; lia. }
  destruct (d_add_exact (gross_amount gross) core Hg Es) as (net' & Hadd & _ & Vn); [lia|].
  rewrite Hadd in Hnet. injection Hnet as ->. rewrite Hnet'.
  pose proof (core_sum_le _ _ _ _ Hevs Hex). unfold relied. cbn [quote_components reference_quote].
  split_and!; try done; [lia|lia|by subst].
Qed.

(** Exit and hold do not alternate: if exiting beats holding by more than the hysteresis,
    then with the same values exchanged it does not, and a decision to exit is worth
    strictly more than the hysteresis. *)
Lemma exit_hold_no_oscillation hold exit h d :
  compare_fee_adjusted_exit_vs_hold hold exit h = Ok d → comparison_decision d = Exit →
  d_exact h → d_exact (hold_net_value d) → d_exact (exit_net_value d) →
  Z.abs (d_value (hold_net_value d)) + d_value h ≤ d_limit → Z.abs (d_value (exit_net_value d)) + d_value h ≤ d_limit →
  0 ≤ d_value h < d_value (exit_net_value d) - d_value (hold_net_value d) ∧
  ∃ d', compare_fee_adjusted_exit_vs_hold exit hold h = Ok d' ∧ comparison_decision d' = Hold.
Proof.
  unfold compare_fee_adjusted_exit_vs_hold. intros Hc Hdec Hh Hho Hex Lho Lex.
  destruct (d_is_sign_negative h) eqn:Hs; [done|].
  assert (Hnn : 0 ≤ d_value h).
  { destruct (Z.eq_dec (d_value h) 0) as [->|Hne]; [done|]. rewrite d_sign_value in Hs by done. by apply Z.ltb_ge in Hs. }
  apply result_bind_Ok in Hc as (hn & Hhn & Hc). apply result_bind_Ok in Hc as (en & Hen & Hc).
  apply result_bind_Ok in Hc as (th & Hth%ok_or_Ok & [= <-]). simpl in *.
  destruct (d_gtb en th) eqn:Hgt; [|done].
  destruct (d_add_exact hn h Hho Hh) as (th' & Hth' & Eth & Vth); [lia|]. rewrite Hth in Hth'. injection Hth' as <-.
  rewrite d_gtb_value in Hgt by done. apply Z.ltb_lt in Hgt. split; [lia|].
  rewrite Hen, Hhn. simpl. destruct (d_add_exact en h Hex Hh) as (t2 & Ht2 & Et2 & Vt2); [lia|].
  rewrite Ht2. simpl. eexists. split; [done|]. simpl. rewrite d_gtb_value by done.
  destruct (Z.ltb_spec (d_value t2) (d_value hn)); [lia|done].
Qed.

End Amounts.

(** ** A concrete quote *)

Definition demo_econ_source (valid_until : Z) : SourceValidity :=
  mkSource (lit "venue") (lit "snapshot-1") 1 2 valid_until.

Definition demo_econ_request : EconomicsQuoteRequest Z :=
  mkQuoteRequest (lit "client") (lit "account") (lit "instrument") (lit "surface") Buy Taker
    [mkFillLeg 500000 1000000] None None PlannedExit (lit "policy") (lit "USD") (lit "basis") 10 (lit "d").

Definition demo_econ_component (id : string) (class : EconomicClass) (point : SignedNativeEffect Z)
    (bound : option (SignedNativeEffect Z)) (treatment : AdmissionTreatment) (valid_until : Z) : EstimatedEffect Z :=
  mkEstimatedEffect (lit id) class (KindExecution ProtocolTrading) (ScopeDecision (lit "d")) (NonZero point) bound
    treatment [] (lit "formula") (demo_econ_source valid_until).

Definition demo_token (quantity : Z) : SignedNativeEffect Z :=
  AssetQuantity quantity (lit "TOK") ApplyOnceToNetPortfolio.

(** A fee, a carry bounded in tokens, and a forecast rebate whose source is stale. *)
Definition demo_econ_estimate : VenueQuoteEstimate Z :=
  mkEstimate (demo_econ_source 100) []
    [demo_econ_component "fee" Charge (CurrencyAmount (-20000) (lit "USD")) None GuaranteedConditionalOnAction 50;
     demo_econ_component "carry" Charge (demo_token (-1000000)) (Some (demo_token (-2000000)))
       (RiskBound VenueMaximum) 90;
     demo_econ_component "rebate" Credit (CurrencyAmount 5000 (lit "USD")) None ForecastOnly 5].

Definition demo_econ_routes : list (ValuationRoute Z) :=
  [mkValuationRoute (lit "tok-usd") (UnitAsset (lit "TOK")) (lit "USD")
     [mkValuationLeg (UnitAsset (lit "TOK")) (UnitCurrency (lit "USD")) 500000 (lit "oracle") (lit "snapshot-2") 3 4 60] 70].

Definition demo_econ_quote : EconomicsQuote Z :=
  match validate_and_aggregate_quote demo_econ_request demo_econ_estimate demo_econ_routes with
  | Ok q => q
  | Err _ => mkQuote [] 0 [] [] 0 0 true [] [] [] 0 None
  end.

Lemma demo_econ_quote_Ok :
  validate_and_aggregate_quote demo_econ_request demo_econ_estimate demo_econ_routes = Ok demo_econ_quote.
Proof. vm_compute. reflexivity. Qed.

Example demo_econ_totals :
  (core_total demo_econ_quote, forecast_total demo_econ_quote, missing_forecast_component_ids demo_econ_quote,
   quote_valid_until_ns demo_econ_quote, forecast_valid_until_ns demo_econ_quote) =
  (-1020000, -520000, [lit "rebate"], 50, None).
Proof. vm_compute. reflexivity. Qed.

Lemma quote_expires_with_evidence_witness :
  is_ok (allows_admission (capability_health demo_econ_quote) 51) = true ↔
  evidence_valid demo_econ_estimate demo_econ_quote 51.
Proof.
  exact (proj1 (quote_expires_with_evidence demo_econ_request demo_econ_estimate demo_econ_routes demo_econ_quote 51
    demo_econ_quote_Ok)).
Defined.

Lemma valuation_sound_witness :
  d_ltb d_zero (normalized_amount (mkValuation (demo_token (-4)) (-2) (lit "USD") (Some (lit "tok-usd"))
    [lit "snapshot-2"] 10 (Some 60))) = false.
Proof.
  refine (proj1 (proj2 (proj2 (proj2 (proj2 (valuation_sound (demo_token (-4)) (lit "USD") demo_econ_routes 10 _ _))))) _);
    vm_compute; reflexivity.
Defined.

Definition demo_basis : EdgeBasisEvidence Z :=
  mkEdgeBasis (lit "basis") (lit "resolver") (lit "metadata") 1 500000 (ScopeDecision (lit "d")) [] 20.

Definition demo_net_edge : NetEdgeQuote Z :=
  mkNetEdge 3000000 1980000 2480000 3960000 4960000 demo_basis.

Lemma net_edge_conservative_witness : core_net_edge demo_net_edge = 1980000 ∧
  d_value (core_net_edge demo_net_edge) ≤ 3000000 + Zsum (point_value <$> relied demo_econ_quote).
Proof.
  split; [reflexivity|].
  refine (proj1 (proj2 (net_edge_conservative demo_econ_request demo_econ_estimate demo_econ_routes demo_econ_quote
    (mkGross 3000000 (lit "USD")) demo_basis demo_net_edge demo_econ_quote_Ok _ _))); [vm_compute; reflexivity|].
  split_and!; [by vm_compute| |by vm_compute].
  intros ev v Hin Hv. apply list_elem_of_lookup in Hin as [i Hi].
  destruct i as [|[|[|i]]]; vm_compute in Hi; try done; injection Hi as <-; simpl in Hv;
    destruct Hv as [Hv|Hv]; try done; injection Hv as <-; by vm_compute.
Defined.

Lemma exit_hold_no_oscillation_witness :
  ∃ d', compare_fee_adjusted_exit_vs_hold (mkLegValue 900000 (-10000)) (mkLegValue 700000 0) 50000 = Ok d' ∧
    comparison_decision d' = Hold.
Proof.
  apply (exit_hold_no_oscillation (mkLegValue 700000 0) (mkLegValue 900000 (-10000)) 50000
    (mkComparison Exit 700000 890000)); by vm_compute.
Defined.
