(* ===== verification/OutcomeGroups.v ===== *)
(** * Outcome groups

    [src/src/bolt_v3_outcome_groups.rs]: a set of instruments over one question, the
    payout of every instrument in every terminal state, and the proofs that bind them: a
    grouping proof, attested role bindings, attested payouts of void states and a digest
    over the canonical encoding of it all.  This file holds the data, the canonical
    encoding and the validation; [OutcomeGroupsFacts] the theorems.

    A [BTreeMap] is a sorted association list ([BTree]).  SHA-256 in hexadecimal is a
    parameter, as are the text of an instrument and the normal form of a decimal; a client
    and a venue are only ever printed and are their text.  [Index] on a missing key is a
    panic ([None]). *)

From Stdlib Require Import ZArith Lia.
From stdpp Require Import sorting strings gmap numbers list.
From S2P Require Import Prelude.
From S2P Require Import RustText.
From S2P Require Import BTree.
From S2P Require Import NtTypes.
From S2P Require Import DecimalAmount.

Open Scope Z_scope.

(** [InstrumentId::to_string]. *)
Class InstrumentText `{NtTypes} := instrument_to_string : InstrumentId → text.

(** [Decimal::normalize]. *)
Class DecimalNormalize (D : Type) := d_normalize : D → D.

(** ** Data *)

Definition OutcomeGroupId : Type := text.
Definition OutcomeLegId : Type := text.
Definition TerminalStateId : Type := text.
Definition SettlementAssetId : Type := text.

Inductive OutcomeGroupSourceKind : Type := Polymarket | Hyperliquid | OperatorAttestedSource.

Inductive OutcomeLegRole : Type :=
| PaysOnTerminalState (state : TerminalStateId)
| PaysUnlessTerminalState (state : TerminalStateId)
| UnsupportedMultiState (states : list TerminalStateId).

#[global] Instance OutcomeLegRole_eq_dec : EqDecision OutcomeLegRole.
Proof. solve_decision. Defined.

Inductive TerminalStateKind : Type := Standard | VoidState | Fallback.

Definition is_standard (k : TerminalStateKind) : bool := match k with Standard => true | _ => false end.

Record TerminalState : Type := mkTerminalState {
  state_id : TerminalStateId;
  state_label : text;
  terminal_kind : TerminalStateKind;
}.

(** The proofs of [src/src/bolt_v3_outcome_group_proofs.rs]. *)
Record PolymarketDiscoveryScopeEvidence : Type := mkDiscoveryScope {
  scope_source_id : text;
  scope_event_slugs : list text;
  scope_market_slugs : list text;
  gamma_query_fingerprint : option text;
  cache_key_fingerprint : text;
}.

Record NegRiskGroupingProof : Type := mkNegRiskProof {
  neg_risk_market_id : text;
  discovery_scope : PolymarketDiscoveryScopeEvidence;
  neg_risk_market_slugs : list text;
  neg_risk_proof_fingerprint : text;
}.

Record StructuredOutcomeGroupingProof : Type := mkStructuredProof {
  structured_question : Z;
  structured_outcome_indices : list Z;
  structured_proof_fingerprint : text;
}.

Inductive GroupingProof : Type :=
| PolymarketNegRisk (proof : NegRiskGroupingProof)
| HyperliquidOutcome (proof : StructuredOutcomeGroupingProof)
| OperatorAttestedGrouping (settlement_contract_id attestation_id attestation_sha256 proof_fingerprint : text).

#[global] Instance DiscoveryScope_eq_dec : EqDecision PolymarketDiscoveryScopeEvidence.
Proof. solve_decision. Defined.
#[global] Instance NegRiskProof_eq_dec : EqDecision NegRiskGroupingProof.
Proof. solve_decision. Defined.
#[global] Instance StructuredProof_eq_dec : EqDecision StructuredOutcomeGroupingProof.
Proof. solve_decision. Defined.
#[global] Instance GroupingProof_eq_dec : EqDecision GroupingProof.
Proof. solve_decision. Defined.

Inductive AttestedLegRef : Type :=
| NativeLegId (native_leg_id : text)
| OutcomeAndSide (outcome_label side_label : text).

Record PositiveSideBinding : Type := mkBinding {
  binding_terminal_state_label : text;
  pays_on_leg : AttestedLegRef;
  pays_unless_leg : AttestedLegRef;
}.

Inductive RoleBindingProof : Type :=
| OperatorAttestedBinding (attestation_id : text) (positive_side_bindings : list PositiveSideBinding)
    (attestation_sha256 proof_fingerprint : text)
| VenueStructuredBinding (source_id : text) (question : Z) (outcome_indices : list Z) (proof_fingerprint : text).

Inductive TerminalStateConvention : Type :=
| ExactlyOneWinner
| UnsupportedConvention (value : text).

Inductive SettlementSourceKind : Type := SettlementVenueStructuredFields | SettlementOperatorAttested.

Inductive TerminalPayoutDerivation : Type := StandardRowsPlusAttestedVectors.

Inductive PriceScaleAssertionSource : Type :=
| ScaleVenueStructuredFields (proof_fingerprint : text)
| ScaleOperatorAttested (attestation_sha256 : text).

Inductive OrderConstraintSource : Type :=
| ConfigFloorWithNtPrecision (source_id : text)
| NtInstrumentWithConfigFloor (source_id : text).

Inductive OutcomeGroupValidationError : Type :=
| GroupMissingGroupingProof
| DuplicateGroupingIdentityConflict
| DuplicateLegId (leg : OutcomeLegId)
| EmptyTerminalStates
| UnsupportedTerminalStateConvention
| UnsupportedMultiStateLegRole (leg : OutcomeLegId)
| MissingRoleBindingProof
| MissingPositiveSideBinding (state : TerminalStateId)
| DuplicatePositiveSideBinding (state : TerminalStateId)
| UnknownTerminalStateLabel (label : text)
| MissingPayoutRow (state : TerminalStateId)
| MissingNonStandardPayoutVector (state : TerminalStateId)
| DuplicateNonStandardPayoutVector (state : TerminalStateId)
| PayoutMatrixDimensionMismatch (state : TerminalStateId)
| PayoutMatrixValueMismatch (state : TerminalStateId)
| UnknownTerminalState (state : TerminalStateId)
| UnknownLegInMatrix (leg : OutcomeLegId)
| AttestedLegUnknown
| AttestedLegAmbiguous
| AttestedColumnOrderMismatch
| AttestationHashMismatch (field : text)
| InvalidSha256 (field : text)
| OutOfBoundsPayout (state : TerminalStateId)
| MixedSettlementAsset (leg : OutcomeLegId)
| InvalidNormalizedPriceScaleEvidence
| InvalidOrderConstraintFloor (leg : OutcomeLegId)
| InvalidOperatorString
| MetadataFingerprintMismatch.

Section Data.
Context {D : Type} `{NtTypes}.

Record AttestedPayoutVector : Type := mkPayoutVector {
  vector_terminal_state_id : TerminalStateId;
  vector_label : text;
  vector_cols : list AttestedLegRef;
  vector_payouts : list D;
  refund_convention : text;
  vector_attestation_sha256 : text;
}.

Record SettlementRules : Type := mkSettlementRules {
  terminal_state_convention : TerminalStateConvention;
  settlement_source_kind : SettlementSourceKind;
  non_standard_terminal_payouts : list AttestedPayoutVector;
  terminal_payout_derivation : TerminalPayoutDerivation;
}.

Record PayoutMatrix : Type := mkPayoutMatrix {
  matrix_cols : list OutcomeLegId;
  payout_per_unit_by_state : BTreeMap TerminalStateId (list D);
}.

(** [BinaryOnePayoutEqualsOneSettlementUnit], the only constructor. *)
Record NormalizedPriceScaleEvidence : Type := mkPriceScale {
  scale_settlement_asset_id : SettlementAssetId;
  payout_per_contract : D;
  price_units_per_payout : D;
  assertion_source : PriceScaleAssertionSource;
}.

Record OutcomeLegOrderConstraints : Type := mkOrderConstraints {
  min_quantity : D;
  min_notional : option D;
  quantity_step : D;
  constraint_source : OrderConstraintSource;
}.

Record OutcomeLeg : Type := mkOutcomeLeg {
  leg_id : OutcomeLegId;
  leg_instrument_id : InstrumentId;
  native_leg_id : text;
  leg_settlement_asset_id : SettlementAssetId;
  outcome_label : text;
  side_label : text;
  leg_role : OutcomeLegRole;
  price_scale : NormalizedPriceScaleEvidence;
  order_constraints : OutcomeLegOrderConstraints;
}.

Record OutcomeGroup : Type := mkOutcomeGroup {
  group_id : OutcomeGroupId;
  source_client_id : text;
  group_venue : text;
  source_kind : OutcomeGroupSourceKind;
  group_settlement_asset_id : SettlementAssetId;
  terminal_states : BTreeMap TerminalStateId TerminalState;
  tradable_legs : BTreeMap OutcomeLegId OutcomeLeg;
  payout_matrix : PayoutMatrix;
  grouping_proof : option GroupingProof;
  role_binding_proof : option RoleBindingProof;
  settlement_rules : SettlementRules;
  freshness_source_id : text;
  metadata_fingerprint : text;
}.

End Data.
Arguments AttestedPayoutVector D : clear implicits.
Arguments SettlementRules D : clear implicits.
Arguments PayoutMatrix D : clear implicits.
Arguments NormalizedPriceScaleEvidence D : clear implicits.
Arguments OutcomeLegOrderConstraints D : clear implicits.
Arguments OutcomeLeg D {_}.
Arguments OutcomeGroup D {_}.

(** ** The canonical encoding *)

Record CanonicalField : Type := mkField { field_path : list text; field_value : text }.

(** [CanonicalField::new] on literal segments. *)
Definition field (path : list string) (value : text) : CanonicalField := mkField (lit <$> path) value.

Definition push_len (n : nat) : bytes := to_be_bytes (Z.of_nat n).

Definition push_bytes (value : bytes) : bytes := push_len (length value) ++ value.

Definition field_cmp (a b : CanonicalField) : comparison :=
  match ord_cmp (field_path a) (field_path b) with
  | Eq => ord_cmp (field_value a) (field_value b)
  | c => c
  end.

(** The order of [sort_by]. *)
Definition field_le (a b : CanonicalField) : Prop := field_cmp a b ≠ Gt.

#[global] Instance field_le_dec : RelDecision field_le.
Proof. intros a b. unfold field_le. apply _. Defined.

Definition field_bytes (f : CanonicalField) : bytes :=
  push_len (length (field_path f)) ++ (field_path f ≫= λ segment, push_bytes (as_bytes segment))
  ++ push_bytes (as_bytes (field_value f)).

Definition CANONICAL_PREFIX : bytes := lit "bolt-v3-outcome-group-canonical-v2" ++ [0].

Definition canonical_bytes (fields : list CanonicalField) : bytes :=
  let fields := merge_sort field_le fields in
  CANONICAL_PREFIX ++ push_len (length fields) ++ (fields ≫= field_bytes).

(** *** The fields of a group *)

Definition index_to_string (i : nat) : text := u64_to_string (Z.of_nat i).

Definition prefixed_path (prefix : list text) (segment : string) : list text := prefix ++ [lit segment].

Definition pfield (prefix : list text) (segment : string) (value : text) : CanonicalField :=
  mkField (prefixed_path prefix segment) value.

Definition append_string_list_fields (prefix : list text) (values : list text) : list CanonicalField :=
  imap (λ i value, mkField (prefix ++ [index_to_string i]) value) values.

Definition append_attested_leg_ref_fields (prefix : list text) (r : AttestedLegRef) : list CanonicalField :=
  match r with
  | NativeLegId id => [pfield prefix "kind" (lit "native_leg_id"); pfield prefix "native_leg_id" id]
  | OutcomeAndSide outcome side =>
      [pfield prefix "kind" (lit "outcome_and_side"); pfield prefix "outcome_label" outcome;
       pfield prefix "side_label" side]
  end.

Definition append_positive_side_binding_fields (prefix : list text) (b : PositiveSideBinding)
    : list CanonicalField :=
  pfield prefix "terminal_state_label" (binding_terminal_state_label b) ::
  append_attested_leg_ref_fields (prefixed_path prefix "pays_on_leg") (pays_on_leg b) ++
  append_attested_leg_ref_fields (prefixed_path prefix "pays_unless_leg") (pays_unless_leg b).

Definition source_kind_label (k : OutcomeGroupSourceKind) : text :=
  match k with
  | Polymarket => lit "polymarket"
  | Hyperliquid => lit "hyperliquid"
  | OperatorAttestedSource => lit "operator_attested"
  end.

Definition terminal_state_kind_label (k : TerminalStateKind) : text :=
  match k with Standard => lit "standard" | VoidState => lit "void" | Fallback => lit "fallback" end.

Definition settlement_source_kind_label (k : SettlementSourceKind) : text :=
  match k with
  | SettlementVenueStructuredFields => lit "venue_structured_fields"
  | SettlementOperatorAttested => lit "operator_attested"
  end.

Definition terminal_payout_derivation_label (d : TerminalPayoutDerivation) : text :=
  match d with StandardRowsPlusAttestedVectors => lit "standard_rows_plus_attested_vectors" end.

Definition append_grouping_identity_fields (p : GroupingProof) : list CanonicalField :=
  match p with
  | PolymarketNegRisk proof =>
      [field ["grouping"; "kind"] (lit "polymarket_neg_risk");
       field ["grouping"; "neg_risk_market_id"] (neg_risk_market_id proof);
       field ["grouping"; "source_id"] (scope_source_id (discovery_scope proof));
       field ["grouping"; "cache_key_fingerprint"] (cache_key_fingerprint (discovery_scope proof))] ++
      append_string_list_fields [lit "grouping"; lit "market_slugs"] (neg_risk_market_slugs proof)
  | HyperliquidOutcome proof =>
      [field ["grouping"; "kind"] (lit "hyperliquid_outcome");
       field ["grouping"; "question"] (u64_to_string (structured_question proof))] ++
      append_string_list_fields [lit "grouping"; lit "outcome_indices"]
        (u64_to_string <$> structured_outcome_indices proof)
  | OperatorAttestedGrouping contract attestation _ _ =>
      [field ["grouping"; "kind"] (lit "operator_attested");
       field ["grouping"; "settlement_contract_id"] contract;
       field ["grouping"; "attestation_id"] attestation]
  end.

Definition append_role_fields (prefix : list text) (role : OutcomeLegRole) : list CanonicalField :=
  match role with
  | PaysOnTerminalState state =>
      [pfield prefix "role_kind" (lit "pays_on_terminal_state"); pfield prefix "terminal_state_id" state]
  | PaysUnlessTerminalState state =>
      [pfield prefix "role_kind" (lit "pays_unless_terminal_state"); pfield prefix "terminal_state_id" state]
  | UnsupportedMultiState states =>
      pfield prefix "role_kind" (lit "unsupported_multi_state") ::
      append_string_list_fields (prefixed_path prefix "terminal_state_ids") states
  end.

Definition append_role_binding_proof_fields (prefix : list text) (p : RoleBindingProof) : list CanonicalField :=
  match p with
  | OperatorAttestedBinding attestation bindings sha fingerprint =>
      [pfield prefix "kind" (lit "operator_attested"); pfield prefix "attestation_id" attestation;
       pfield prefix "attestation_sha256" sha; pfield prefix "proof_fingerprint" fingerprint] ++
      concat (imap (λ i b, append_positive_side_binding_fields
                             (prefix ++ [lit "positive_side_bindings"; index_to_string i]) b) bindings)
  | VenueStructuredBinding source question indices fingerprint =>
      [pfield prefix "kind" (lit "venue_structured_fields"); pfield prefix "source_id" source;
       pfield prefix "question" (u64_to_string question)] ++
      append_string_list_fields (prefixed_path prefix "outcome_indices") (u64_to_string <$> indices) ++
      [pfield prefix "proof_fingerprint" fingerprint]
  end.

Section Group.
Context {D : Type} `{DecimalOps D} `{DecimalText D} `{DecimalNormalize D} `{InstrumentText}.

(** [hex::encode(Sha256::digest(bytes))]. *)
Context (sha256_hex : bytes → text).
Implicit Types g : OutcomeGroup D.

Definition canonical_fingerprint (fields : list CanonicalField) : text := sha256_hex (canonical_bytes fields).

Definition normalize_decimal (value : D) : text :=
  if d_eqb value d_zero then lit "0" else d_to_string (d_normalize value).

Definition append_price_scale_metadata_fields (prefix : list text) (s : NormalizedPriceScaleEvidence D)
    : list CanonicalField :=
  [pfield prefix "kind" (lit "binary_one_payout_equals_one_settlement_unit");
   pfield prefix "settlement_asset_id" (scale_settlement_asset_id s);
   pfield prefix "payout_per_contract" (normalize_decimal (payout_per_contract s));
   pfield prefix "price_units_per_payout" (normalize_decimal (price_units_per_payout s))] ++
  match assertion_source s with
  | ScaleVenueStructuredFields fingerprint =>
      [pfield prefix "assertion_source_kind" (lit "venue_structured_fields");
       pfield prefix "assertion_source_fingerprint" fingerprint]
  | ScaleOperatorAttested sha =>
      [pfield prefix "assertion_source_kind" (lit "operator_attested");
       pfield prefix "assertion_source_fingerprint" sha]
  end.

Definition append_payout_matrix_fields (prefix : list text) (m : PayoutMatrix D) : list CanonicalField :=
  append_string_list_fields (prefixed_path prefix "cols") (matrix_cols m) ++
  (payout_per_unit_by_state m ≫= λ '(state, payouts),
     imap (λ i payout, mkField (prefix ++ [lit "payout_per_unit_by_state"; state; index_to_string i])
                         (normalize_decimal payout)) payouts).

Definition append_attested_payout_vector_fields (prefix : list text) (v : AttestedPayoutVector D)
    : list CanonicalField :=
  [pfield prefix "terminal_state_id" (vector_terminal_state_id v); pfield prefix "label" (vector_label v);
   pfield prefix "refund_convention" (refund_convention v);
   pfield prefix "attestation_sha256" (vector_attestation_sha256 v)] ++
  concat (imap (λ i col, append_attested_leg_ref_fields (prefix ++ [lit "cols"; index_to_string i]) col)
            (vector_cols v)) ++
  imap (λ i payout, mkField (prefix ++ [lit "payouts"; index_to_string i]) (normalize_decimal payout))
    (vector_payouts v).

Definition append_settlement_rules_fields (prefix : list text) (r : SettlementRules D) : list CanonicalField :=
  match terminal_state_convention r with
  | ExactlyOneWinner => [pfield prefix "terminal_state_convention" (lit "exactly_one_winner")]
  | UnsupportedConvention value =>
      [pfield prefix "terminal_state_convention" (lit "unsupported");
       pfield prefix "terminal_state_convention_value" value]
  end ++
  [pfield prefix "settlement_source_kind" (settlement_source_kind_label (settlement_source_kind r));
   pfield prefix "terminal_payout_derivation"
     (terminal_payout_derivation_label (terminal_payout_derivation r))] ++
  concat (imap (λ i v, append_attested_payout_vector_fields
                         (prefix ++ [lit "non_standard_terminal_payouts"; index_to_string i]) v)
            (non_standard_terminal_payouts r)).

Definition terminal_state_fields (states : BTreeMap TerminalStateId TerminalState) : list CanonicalField :=
  states ≫= λ '(id, state),
    [mkField [lit "terminal_states"; id; lit "label"] (state_label state);
     mkField [lit "terminal_states"; id; lit "kind"] (terminal_state_kind_label (terminal_kind state))].

Definition leg_fields (legs : BTreeMap OutcomeLegId (OutcomeLeg D)) : list CanonicalField :=
  legs ≫= λ '(id, leg),
    [mkField [lit "legs"; id; lit "instrument_id"] (instrument_to_string (leg_instrument_id leg));
     mkField [lit "legs"; id; lit "native_leg_id"] (native_leg_id leg);
     mkField [lit "legs"; id; lit "settlement_asset_id"] (leg_settlement_asset_id leg);
     mkField [lit "legs"; id; lit "outcome_label"] (outcome_label leg);
     mkField [lit "legs"; id; lit "side_label"] (side_label leg)] ++
    append_role_fields [lit "legs"; id] (leg_role leg) ++
    append_price_scale_metadata_fields [lit "legs"; id; lit "price_scale"] (price_scale leg).

(** The fields of [expected_metadata_fingerprint]. *)
Definition metadata_fields g : list CanonicalField :=
  [field ["group"; "group_id"] (group_id g);
   field ["group"; "source_client_id"] (source_client_id g);
   field ["group"; "venue"] (group_venue g);
   field ["group"; "source_kind"] (source_kind_label (source_kind g));
   field ["group"; "settlement_asset_id"] (group_settlement_asset_id g);
   field ["group"; "freshness_source_id"] (freshness_source_id g)] ++
  match grouping_proof g with Some proof => append_grouping_identity_fields proof | None => [] end ++
  terminal_state_fields (terminal_states g) ++
  leg_fields (tradable_legs g) ++
  append_payout_matrix_fields [lit "payout_matrix"] (payout_matrix g) ++
  append_settlement_rules_fields [lit "settlement_rules"] (settlement_rules g) ++
  match role_binding_proof g with
  | Some proof => append_role_binding_proof_fields [lit "role_binding_proof"] proof
  | None => []
  end.

Definition expected_metadata_fingerprint g : text := canonical_fingerprint (metadata_fields g).

(** The fields of [settlement_identity_fingerprint]. *)
Definition settlement_identity_fields g : list CanonicalField :=
  [field ["settlement"; "asset_id"] (group_settlement_asset_id g)] ++
  terminal_state_fields (terminal_states g) ++
  append_payout_matrix_fields [lit "payout_matrix"] (payout_matrix g) ++
  append_settlement_rules_fields [lit "settlement_rules"] (settlement_rules g).

Definition settlement_identity_fingerprint g : text := canonical_fingerprint (settlement_identity_fields g).

Definition role_binding_fields (bindings : list PositiveSideBinding) : list CanonicalField :=
  concat (imap (λ i b, append_positive_side_binding_fields [lit "positive_side_bindings"; index_to_string i] b)
            bindings).

Definition role_binding_attestation_sha256 (bindings : list PositiveSideBinding) : text :=
  canonical_fingerprint (role_binding_fields bindings).

Definition payout_vector_fields (state label : text) (cols : list AttestedLegRef) (payouts : list D)
    (refund : text) : list CanonicalField :=
  [field ["terminal_state_id"] state; field ["label"] label; field ["refund_convention"] refund] ++
  concat (imap (λ i col, append_attested_leg_ref_fields [lit "cols"; index_to_string i] col) cols) ++
  imap (λ i payout, mkField [lit "payouts"; index_to_string i] (normalize_decimal payout)) payouts.

Definition payout_vector_attestation_sha256 (state label : text) (cols : list AttestedLegRef)
    (payouts : list D) (refund : text) : text :=
  canonical_fingerprint (payout_vector_fields state label cols payouts refund).

(** ** Validation *)

Definition is_lowercase_sha256 (value : text) : bool := is_sha256_hex_digest value.

Definition validate_sha256_field (name : string) (value : text) : Result unit OutcomeGroupValidationError :=
  if is_lowercase_sha256 value then Ok tt else Err (InvalidSha256 (lit name)).

Definition native_identity (p : GroupingProof) : text :=
  match p with
  | PolymarketNegRisk proof => lit "polymarket:" ++ neg_risk_market_id proof
  | HyperliquidOutcome proof => lit "hyperliquid:" ++ u64_to_string (structured_question proof)
  | OperatorAttestedGrouping contract _ _ _ => lit "operator:" ++ contract
  end.

Definition validate_sha_fields (p : GroupingProof) : Result unit OutcomeGroupValidationError :=
  match p with
  | PolymarketNegRisk proof =>
      validate_sha256_field "grouping_proof.proof_fingerprint" (neg_risk_proof_fingerprint proof);;?
      match gamma_query_fingerprint (discovery_scope proof) with
      | Some fingerprint =>
          validate_sha256_field "grouping_proof.discovery_scope.gamma_query_fingerprint" fingerprint
      | None => Ok tt
      end;;?
      validate_sha256_field "grouping_proof.discovery_scope.cache_key_fingerprint"
        (cache_key_fingerprint (discovery_scope proof))
  | HyperliquidOutcome proof =>
      validate_sha256_field "grouping_proof.proof_fingerprint" (structured_proof_fingerprint proof)
  | OperatorAttestedGrouping _ _ sha fingerprint =>
      validate_sha256_field "grouping_proof.attestation_sha256" sha;;?
      validate_sha256_field "grouping_proof.proof_fingerprint" fingerprint
  end.

(** The invisible characters refused beside control characters. *)
Definition disallowed_format_char (c : Z) : bool :=
  bool_decide (c ∈ [173; 847; 1564; 4447; 4448; 6068; 6069; 6158; 65279]) ||
  ((8203 <=? c) && (c <=? 8207)) || ((8234 <=? c) && (c <=? 8238)) ||
  ((8288 <=? c) && (c <=? 8292)) || ((8294 <=? c) && (c <=? 8303)).

Definition validate_operator_text (value : text) : Result unit OutcomeGroupValidationError :=
  if existsb (λ c, is_control c || disallowed_format_char c) value then Err InvalidOperatorString else Ok tt.

Definition validate_attested_leg_ref_text (r : AttestedLegRef) : Result unit OutcomeGroupValidationError :=
  match r with
  | NativeLegId id => validate_operator_text id
  | OutcomeAndSide outcome side => validate_operator_text outcome;;? validate_operator_text side
  end.

Definition validate_leg_role_text (role : OutcomeLegRole) : Result unit OutcomeGroupValidationError :=
  match role with
  | PaysOnTerminalState state | PaysUnlessTerminalState state => validate_operator_text state
  | UnsupportedMultiState states => try_each validate_operator_text states
  end.

Definition validate_role_binding_proof_text (p : RoleBindingProof) : Result unit OutcomeGroupValidationError :=
  match p with
  | OperatorAttestedBinding attestation bindings _ _ =>
      validate_operator_text attestation;;?
      try_each (λ b, validate_operator_text (binding_terminal_state_label b);;?
                     validate_attested_leg_ref_text (pays_on_leg b);;?
                     validate_attested_leg_ref_text (pays_unless_leg b)) bindings
  | VenueStructuredBinding source _ _ _ => validate_operator_text source
  end.

Definition validate_grouping_proof_text (p : GroupingProof) : Result unit OutcomeGroupValidationError :=
  match p with
  | PolymarketNegRisk proof =>
      validate_operator_text (neg_risk_market_id proof);;?
      validate_operator_text (scope_source_id (discovery_scope proof));;?
      try_each validate_operator_text (scope_event_slugs (discovery_scope proof));;?
      try_each validate_operator_text (scope_market_slugs (discovery_scope proof));;?
      try_each validate_operator_text (neg_risk_market_slugs proof)
  | HyperliquidOutcome _ => Ok tt
  | OperatorAttestedGrouping contract attestation _ _ =>
      validate_operator_text contract;;? validate_operator_text attestation
  end.

Definition validate_operator_strings g : Result unit OutcomeGroupValidationError :=
  validate_operator_text (group_id g);;?
  validate_operator_text (group_settlement_asset_id g);;?
  validate_operator_text (freshness_source_id g);;?
  try_each (λ '(id, state), validate_operator_text id;;? validate_operator_text (state_id state);;?
                            validate_operator_text (state_label state)) (terminal_states g);;?
  try_each (λ '(id, leg),
      validate_operator_text id;;?
      validate_operator_text (instrument_to_string (leg_instrument_id leg));;?
      validate_operator_text (native_leg_id leg);;?
      validate_operator_text (leg_settlement_asset_id leg);;?
      validate_operator_text (outcome_label leg);;?
      validate_operator_text (side_label leg);;?
      validate_leg_role_text (leg_role leg)) (tradable_legs g);;?
  try_each validate_operator_text (matrix_cols (payout_matrix g));;?
  try_each validate_operator_text (bt_keys (payout_per_unit_by_state (payout_matrix g)));;?
  proof ←? ok_or (grouping_proof g) GroupMissingGroupingProof;
  validate_grouping_proof_text proof;;?
  match role_binding_proof g with
  | Some proof => validate_role_binding_proof_text proof
  | None => Ok tt
  end;;?
  try_each (λ v, validate_operator_text (vector_terminal_state_id v);;?
                 validate_operator_text (vector_label v);;?
                 validate_operator_text (refund_convention v);;?
                 try_each validate_attested_leg_ref_text (vector_cols v))
    (non_standard_terminal_payouts (settlement_rules g));;?
  match terminal_state_convention (settlement_rules g) with
  | UnsupportedConvention value => validate_operator_text value
  | ExactlyOneWinner => Ok tt
  end.

Definition validate_price_scale (s : NormalizedPriceScaleEvidence D) (asset : SettlementAssetId)
    : Result unit OutcomeGroupValidationError :=
  if negb (bool_decide (scale_settlement_asset_id s = asset))
     || negb (d_eqb (payout_per_contract s) d_one) || negb (d_eqb (price_units_per_payout s) d_one)
  then Err InvalidNormalizedPriceScaleEvidence
  else match assertion_source s with
       | ScaleVenueStructuredFields fingerprint =>
           validate_sha256_field "price_scale.proof_fingerprint" fingerprint
       | ScaleOperatorAttested sha => validate_sha256_field "price_scale.attestation_sha256" sha
       end.

Definition validate_order_constraints (leg : OutcomeLegId) (c : OutcomeLegOrderConstraints D)
    : Result unit OutcomeGroupValidationError :=
  if d_leb (min_quantity c) d_zero || d_leb (quantity_step c) d_zero
     || match min_notional c with Some m => d_leb m d_zero | None => false end
  then Err (InvalidOrderConstraintFloor leg) else Ok tt.

Definition is_multi_state (role : OutcomeLegRole) : bool :=
  match role with UnsupportedMultiState _ => true | _ => false end.

Definition validate_leg_assets_scales_and_constraints g : Result unit OutcomeGroupValidationError :=
  try_each (λ '(id, leg),
      ensure (bool_decide (leg_settlement_asset_id leg = group_settlement_asset_id g)) (MixedSettlementAsset id);;?
      validate_price_scale (price_scale leg) (group_settlement_asset_id g);;?
      validate_order_constraints id (order_constraints leg);;?
      ensure (negb (is_multi_state (leg_role leg))) (UnsupportedMultiStateLegRole id)) (tradable_legs g).

Definition contains_key {V} (m : BTreeMap text V) (k : text) : bool :=
  match bt_get m k with Some _ => true | None => false end.

Definition validate_payout_matrix_shape g : Result unit OutcomeGroupValidationError :=
  let cols := matrix_cols (payout_matrix g) in
  let rows := payout_per_unit_by_state (payout_matrix g) in
  try_each (λ leg, ensure (contains_key (tradable_legs g) leg) (UnknownLegInMatrix leg)) cols;;?
  ensure (Nat.eqb (length (remove_dups cols)) (length cols)
          && Nat.eqb (length cols) (length (tradable_legs g))) (PayoutMatrixDimensionMismatch []);;?
  try_each (λ state, ensure (contains_key (terminal_states g) state) (UnknownTerminalState state)) (bt_keys rows);;?
  try_each (λ state, ensure (contains_key rows state) (MissingPayoutRow state)) (bt_keys (terminal_states g));;?
  try_each (λ '(state, row),
      ensure (Nat.eqb (length row) (length cols)) (PayoutMatrixDimensionMismatch state);;?
      ensure (negb (existsb (λ payout, d_ltb payout d_zero || d_gtb payout d_one) row))
        (OutOfBoundsPayout state)) rows.

(** [Vec<Decimal> == Vec<Decimal>]. *)
Fixpoint row_eqb (a b : list D) : bool :=
  match a, b with
  | [], [] => true
  | x :: a, y :: b => d_eqb x y && row_eqb a b
  | _, _ => false
  end.

Definition leg_ref_matches (r : AttestedLegRef) (leg : OutcomeLeg D) : bool :=
  match r with
  | NativeLegId id => bool_decide (native_leg_id leg = id)
  | OutcomeAndSide outcome side => bool_decide (outcome_label leg = outcome) && bool_decide (side_label leg = side)
  end.

Definition resolve_attested_leg g (r : AttestedLegRef) : Result OutcomeLegId OutcomeGroupValidationError :=
  match filter (λ e, leg_ref_matches r e.2 = true) (tradable_legs g) with
  | [] => Err AttestedLegUnknown
  | [(id, _)] => Ok id
  | _ => Err AttestedLegAmbiguous
  end.

(** [iter().map(f).collect::<Result<Vec<_>, _>>()]. *)
Fixpoint try_map {A B E} (f : A → Result B E) (l : list A) : Result (list B) E :=
  match l with
  | [] => Ok []
  | x :: l => y ←? f x; ys ←? try_map f l; Ok (y :: ys)
  end.

Definition validate_attested_payout_vector g (v : AttestedPayoutVector D)
    : option (Result unit OutcomeGroupValidationError) :=
  let name := "non_standard_terminal_payouts.attestation_sha256"%string in
  Some (validate_sha256_field name (vector_attestation_sha256 v));;?!
  Some (ensure (bool_decide
          (payout_vector_attestation_sha256 (vector_terminal_state_id v) (vector_label v) (vector_cols v)
             (vector_payouts v) (refund_convention v) = vector_attestation_sha256 v))
          (AttestationHashMismatch (lit name)));;?!
  Some (ensure (Nat.eqb (length (vector_payouts v)) (length (matrix_cols (payout_matrix g))))
          (PayoutMatrixDimensionMismatch (vector_terminal_state_id v)));;?!
  resolved ←?! Some (try_map (resolve_attested_leg g) (vector_cols v));
  Some (ensure (bool_decide (resolved = matrix_cols (payout_matrix g))) AttestedColumnOrderMismatch);;?!
  match bt_get (payout_per_unit_by_state (payout_matrix g)) (vector_terminal_state_id v) with
  | None => None
  | Some row =>
      Some (ensure (row_eqb (vector_payouts v) row) (PayoutMatrixValueMismatch (vector_terminal_state_id v)))
  end.

Definition non_standard_states g : list TerminalStateId :=
  bt_keys (filter (λ e, is_standard (terminal_kind e.2) = false) (terminal_states g)).

(** The loop over the vectors; it returns the states seen. *)
Fixpoint validate_vectors g (seen : list TerminalStateId) (vectors : list (AttestedPayoutVector D))
    : option (Result (list TerminalStateId) OutcomeGroupValidationError) :=
  match vectors with
  | [] => Some (Ok seen)
  | v :: vectors =>
      let state := vector_terminal_state_id v in
      Some (ensure (bool_decide (state ∈ non_standard_states g)) (UnknownTerminalState state));;?!
      Some (ensure (negb (bool_decide (state ∈ seen))) (DuplicateNonStandardPayoutVector state));;?!
      validate_attested_payout_vector g v;;?!
      validate_vectors g (state :: seen) vectors
  end.

Definition validate_non_standard_payouts g : option (Result unit OutcomeGroupValidationError) :=
  seen ←?! validate_vectors g [] (non_standard_terminal_payouts (settlement_rules g));
  Some (try_each (λ state, ensure (bool_decide (state ∈ seen)) (MissingNonStandardPayoutVector state))
          (non_standard_states g)).

Definition payout_for_role (leg : OutcomeLegId) (role : OutcomeLegRole) (row : TerminalStateId)
    : Result D OutcomeGroupValidationError :=
  match role with
  | PaysOnTerminalState state => Ok (if bool_decide (state = row) then d_one else d_zero)
  | PaysUnlessTerminalState state => Ok (if bool_decide (state = row) then d_zero else d_one)
  | UnsupportedMultiState _ => Err (UnsupportedMultiStateLegRole leg)
  end.

(** The rows of the standard states. *)
Fixpoint derive_rows (legs : BTreeMap OutcomeLegId (OutcomeLeg D))
    (states : BTreeMap TerminalStateId TerminalState)
    : Result (BTreeMap TerminalStateId (list D)) OutcomeGroupValidationError :=
  match states with
  | [] => Ok []
  | (id, state) :: states =>
      if is_standard (terminal_kind state) then
        row ←? try_map (λ '(leg, l), payout_for_role leg (leg_role l) id) legs;
        rows ←? derive_rows legs states;
        Ok ((id, row) :: rows)
      else derive_rows legs states
  end.

Definition derive_standard_payout_matrix (states : BTreeMap TerminalStateId TerminalState)
    (legs : BTreeMap OutcomeLegId (OutcomeLeg D)) (convention : TerminalStateConvention)
    : Result (PayoutMatrix D) OutcomeGroupValidationError :=
  match convention with
  | UnsupportedConvention _ => Err UnsupportedTerminalStateConvention
  | ExactlyOneWinner =>
      rows ←? derive_rows legs states;
      Ok (mkPayoutMatrix (bt_keys legs) rows)
  end.

Definition validate_standard_rows g : Result unit OutcomeGroupValidationError :=
  expected ←? derive_standard_payout_matrix (terminal_states g) (tradable_legs g)
                (terminal_state_convention (settlement_rules g));
  ensure (bool_decide (matrix_cols expected = matrix_cols (payout_matrix g))) (PayoutMatrixValueMismatch []);;?
  try_each (λ '(state, row),
      ensure (match bt_get (payout_per_unit_by_state (payout_matrix g)) state with
              | Some actual => row_eqb actual row
              | None => false
              end) (PayoutMatrixValueMismatch state)) (payout_per_unit_by_state expected).

(** The map from labels to states; a label used twice is refused. *)
Fixpoint label_map (acc : BTreeMap text TerminalStateId) (states : BTreeMap TerminalStateId TerminalState)
    : Result (BTreeMap text TerminalStateId) OutcomeGroupValidationError :=
  match states with
  | [] => Ok acc
  | (id, state) :: states =>
      if contains_key acc (state_label state) then Err (UnknownTerminalStateLabel (state_label state))
      else label_map (bt_insert acc (state_label state) id) states
  end.

(** One binding of [validate_positive_side_bindings]: the state it binds. *)
Definition validate_binding g (labels : BTreeMap text TerminalStateId) (seen : list TerminalStateId)
    (b : PositiveSideBinding) : option (Result TerminalStateId OutcomeGroupValidationError) :=
  match bt_get labels (binding_terminal_state_label b) with
  | None => Some (Err (UnknownTerminalStateLabel (binding_terminal_state_label b)))
  | Some state =>
      terminal ← bt_get (terminal_states g) state;
      Some (ensure (is_standard (terminal_kind terminal)) (PayoutMatrixValueMismatch state));;?!
      Some (ensure (negb (bool_decide (state ∈ seen))) (DuplicatePositiveSideBinding state));;?!
      on_id ←?! Some (resolve_attested_leg g (pays_on_leg b));
      unless_id ←?! Some (resolve_attested_leg g (pays_unless_leg b));
      on_leg ← bt_get (tradable_legs g) on_id;
      unless_leg ← bt_get (tradable_legs g) unless_id;
      Some (ensure (bool_decide (leg_role on_leg = PaysOnTerminalState state)
                    && bool_decide (leg_role unless_leg = PaysUnlessTerminalState state))
              (PayoutMatrixValueMismatch state));;?!
      Some (Ok state)
  end.

Fixpoint validate_bindings g (labels : BTreeMap text TerminalStateId) (seen : list TerminalStateId)
    (bindings : list PositiveSideBinding)
    : option (Result (list TerminalStateId) OutcomeGroupValidationError) :=
  match bindings with
  | [] => Some (Ok seen)
  | b :: bindings =>
      state ←?! validate_binding g labels seen b;
      validate_bindings g labels (state :: seen) bindings
  end.

Definition validate_positive_side_bindings g (bindings : list PositiveSideBinding)
    : option (Result unit OutcomeGroupValidationError) :=
  labels ←?! Some (label_map [] (terminal_states g));
  seen ←?! validate_bindings g labels [] bindings;
  Some (try_each (λ '(id, state),
            ensure (negb (is_standard (terminal_kind state)) || bool_decide (id ∈ seen))
              (MissingPositiveSideBinding id)) (terminal_states g)).

Definition validate_role_bindings g : option (Result unit OutcomeGroupValidationError) :=
  match role_binding_proof g with
  | None => Some (Err MissingRoleBindingProof)
  | Some (OperatorAttestedBinding _ bindings sha fingerprint) =>
      Some (validate_sha256_field "role_binding_proof.attestation_sha256" sha);;?!
      Some (validate_sha256_field "role_binding_proof.proof_fingerprint" fingerprint);;?!
      Some (ensure (bool_decide (role_binding_attestation_sha256 bindings = sha))
              (AttestationHashMismatch (lit "role_binding_proof.attestation_sha256")));;?!
      validate_positive_side_bindings g bindings
  | Some (VenueStructuredBinding _ _ _ fingerprint) =>
      Some (validate_sha256_field "role_binding_proof.proof_fingerprint" fingerprint)
  end.

(** [ValidatedOutcomeGroup::validate]. *)
Definition validate_outcome_group g : option (Result unit OutcomeGroupValidationError) :=
  Some (ensure (negb (is_empty (terminal_states g))) EmptyTerminalStates);;?!
  proof ←?! Some (ok_or (grouping_proof g) GroupMissingGroupingProof);
  Some (validate_sha_fields proof);;?!
  Some (match terminal_state_convention (settlement_rules g) with
        | ExactlyOneWinner => Ok tt
        | UnsupportedConvention _ => Err UnsupportedTerminalStateConvention
        end);;?!
  Some (validate_operator_strings g);;?!
  Some (validate_leg_assets_scales_and_constraints g);;?!
  Some (validate_payout_matrix_shape g);;?!
  validate_non_standard_payouts g;;?!
  Some (validate_standard_rows g);;?!
  validate_role_bindings g;;?!
  Some (ensure (is_lowercase_sha256 (metadata_fingerprint g)
                && bool_decide (metadata_fingerprint g = expected_metadata_fingerprint g))
          MetadataFingerprintMismatch).

(** ** Sets of groups *)

Fixpoint build_leg_map_from (acc : BTreeMap OutcomeLegId (OutcomeLeg D)) (legs : list (OutcomeLeg D))
    : Result (BTreeMap OutcomeLegId (OutcomeLeg D)) OutcomeGroupValidationError :=
  match legs with
  | [] => Ok acc
  | leg :: legs =>
      if contains_key acc (leg_id leg) then Err (DuplicateLegId (leg_id leg))
      else build_leg_map_from (bt_insert acc (leg_id leg) leg) legs
  end.

Definition build_leg_map (legs : list (OutcomeLeg D))
    : Result (BTreeMap OutcomeLegId (OutcomeLeg D)) OutcomeGroupValidationError := build_leg_map_from [] legs.

(** The loop of [validate_grouping_identity_set]. *)
Fixpoint identity_set_from (seen : BTreeMap text text) (groups : list (OutcomeGroup D))
    : Result unit OutcomeGroupValidationError :=
  match groups with
  | [] => Ok tt
  | g :: groups =>
      match grouping_proof g with
      | None => identity_set_from seen groups
      | Some proof =>
          let identity := native_identity proof in
          let fingerprint := settlement_identity_fingerprint g in
          if match bt_get seen identity with
             | Some previous => negb (bool_decide (previous = fingerprint))
             | None => false
             end
          then Err DuplicateGroupingIdentityConflict
          else identity_set_from (bt_insert seen identity fingerprint) groups
      end
  end.

Definition validate_grouping_identity_set (groups : list (OutcomeGroup D))
    : Result unit OutcomeGroupValidationError := identity_set_from [] groups.

End Group.
