(* ===== verification/OutcomeGroupsFacts.v ===== *)
(** * Outcome groups: what the digests and the validation guarantee

    The canonical encoding is injective up to the order of the fields, so that equal
    digests mean equal content unless SHA-256 collides.  From it: the groups of an
    accepted set that claim the same venue identity agree on their settlement.  A
    validated group pays what its roles say: the validation does not panic, every
    standard row is derived from the roles, every other row is attested, and the two legs
    an attested binding names pay one unit together in every standard state. *)

From Stdlib Require Import ZArith Lia DecimalString DecimalN.
From stdpp Require Import sorting strings gmap numbers list.
From S2P Require Import Prelude.
From S2P Require Import RustText.
From S2P Require Import BTree.
From S2P Require Import NtTypes.
From S2P Require Import DecimalAmount.
From S2P Require Import OutcomeGroups.

Open Scope Z_scope.

(** ** The encoding *)

(** Lengths fit the eight bytes they are written in. *)
Definition fits (n : nat) : Prop := Z.of_nat n < 2 ^ 64.

Definition text_ok (s : text) : Prop := Forall scalar s ∧ fits (length (as_bytes s)).

Definition field_ok (f : CanonicalField) : Prop :=
  Forall text_ok (field_path f) ∧ fits (length (field_path f)) ∧ text_ok (field_value f).

Lemma push_len_app_inj n m r r' : fits n → fits m → push_len n ++ r = push_len m ++ r' → n = m ∧ r = r'.
Proof.
  unfold fits, push_len. intros Hn Hm. intros [Hb Hr]%app_inj_1; [|by unfold to_be_bytes; rewrite !be_bytes_length].
  split; [|done]. apply Nat2Z.inj, to_be_bytes_inj; [unfold is_u64, u64_max; lia..|done].
Qed.

Lemma push_bytes_app_inj (a b r r' : bytes) :
  fits (length a) → fits (length b) → push_bytes a ++ r = push_bytes b ++ r' → a = b ∧ r = r'.
Proof.
  unfold push_bytes. intros Ha Hb. rewrite <- !app_assoc. intros [Hl Hr]%push_len_app_inj; [|done..].
  by apply app_inj_1.
Qed.

Lemma push_text_app_inj (a b : text) (r r' : bytes) :
  text_ok a → text_ok b → push_bytes (as_bytes a) ++ r = push_bytes (as_bytes b) ++ r' → a = b ∧ r = r'.
Proof. intros [Sa Fa] [Sb Fb] [E Hr]%push_bytes_app_inj; [|done..]. split; [by apply as_bytes_inj|done]. Qed.

Lemma segments_app_inj (p q : list text) (r r' : bytes) :
  length p = length q → Forall text_ok p → Forall text_ok q →
  (p ≫= λ s, push_bytes (as_bytes s)) ++ r = (q ≫= λ s, push_bytes (as_bytes s)) ++ r' → p = q ∧ r = r'.
Proof.
  intros Hl Hp. revert q Hl. induction Hp as [|a p Ha Hp IH]; intros [|b q] Hl Hq; try done.
  apply Forall_cons in Hq as [Hb Hq]. rewrite !bind_cons, <- !app_assoc.
  intros [-> Hr]%push_text_app_inj; [|done..]. apply IH in Hr as [-> ->]; [done|simpl in Hl; lia|done].
Qed.

Lemma field_bytes_app_inj f h r r' :
  field_ok f → field_ok h → field_bytes f ++ r = field_bytes h ++ r' → f = h ∧ r = r'.
Proof.
  intros (Hp & Hl & Hv) (Hp' & Hl' & Hv'). unfold field_bytes. rewrite <- !app_assoc.
  intros [Hlen E]%push_len_app_inj; [|done..]. apply segments_app_inj in E as [Hpath E]; [|done..].
  apply push_text_app_inj in E as [Hval E]; [|done..]. destruct f, h; simpl in *. by subst.
Qed.

Lemma fields_bytes_inj fs hs :
  length fs = length hs → Forall field_ok fs → Forall field_ok hs →
  fs ≫= field_bytes = hs ≫= field_bytes → fs = hs.
Proof.
  intros Hl Hf. revert hs Hl. induction Hf as [|f fs Hf Hfs IH]; intros [|h hs] Hl Hh; try done.
  apply Forall_cons in Hh as [Hh Hhs]. rewrite !bind_cons. intros [-> Hr]%field_bytes_app_inj; [|done..].
  f_equal. apply IH; [simpl in Hl; lia|done|done].
Qed.

(** The sort puts equal sets of fields into one order. *)
#[local] Instance field_le_total : Total field_le.
Proof.
  intros a b. unfold field_le, field_cmp. rewrite (cmp_swap (field_path a) (field_path b)).
  destruct (ord_cmp (field_path a) (field_path b)); simpl; [|by left|by right].
  rewrite (cmp_swap (field_value a) (field_value b)). destruct (ord_cmp (field_value a) (field_value b)); simpl; auto.
Qed.

Lemma field_cmp_pair a b :
  field_cmp a b = ord_cmp (field_path a, field_value a) (field_path b, field_value b).
Proof. done. Qed.

#[local] Instance field_le_trans : Transitive field_le.
Proof.
  intros a b c. unfold field_le. rewrite !field_cmp_pair.
  set (x := (field_path a, field_value a)). set (y := (field_path b, field_value b)).
  set (z := (field_path c, field_value c)). intros Hxy Hyz Hxz. apply cmp_gt in Hxz.
  destruct (ord_cmp x y) eqn:E1; [|clear Hxy|done].
  - apply cmp_eq in E1. rewrite E1 in Hxz. by apply Hyz, cmp_gt.
  - pose proof (cmp_trans _ _ _ Hxz E1) as Hzy. by apply Hyz, cmp_gt.
Qed.

#[local] Instance field_le_antisymm : AntiSymm (=) field_le.
Proof.
  intros a b. unfold field_le. rewrite !field_cmp_pair. intros Hab Hba.
  rewrite (cmp_swap (field_path a, field_value a)) in Hba.
  destruct (ord_cmp (field_path a, field_value a) (field_path b, field_value b)) eqn:E; [|done..].
  apply cmp_eq in E. destruct a, b; simpl in *. congruence.
Qed.

Lemma merge_sort_fields fs hs : merge_sort field_le fs = merge_sort field_le hs ↔ fs ≡ₚ hs.
Proof.
  split.
  - intros E. rewrite <- (merge_sort_Permutation field_le fs), E. apply merge_sort_Permutation.
  - intros E. apply (StronglySorted_unique field_le).
    + apply (StronglySorted_merge_sort field_le).
    + apply (StronglySorted_merge_sort field_le).
    + by rewrite !merge_sort_Permutation.
Qed.

Definition fields_ok (fs : list CanonicalField) : Prop := Forall field_ok fs ∧ fits (length fs).

(** Two lists of fields encode to the same bytes exactly when they hold the same fields. *)
Lemma canonical_bytes_iff fs hs :
  fields_ok fs → fields_ok hs → canonical_bytes fs = canonical_bytes hs ↔ fs ≡ₚ hs.
Proof.
  intros [Hf Lf] [Hh Lh]. rewrite <- merge_sort_fields. unfold canonical_bytes. split; [|by intros ->].
  intros E. apply app_inv_head in E.
  pose proof (merge_sort_Permutation field_le fs) as Pf. pose proof (merge_sort_Permutation field_le hs) as Ph.
  apply push_len_app_inj in E as [Hl E]; [|by rewrite Pf|by rewrite Ph].
  apply fields_bytes_inj; [done|by rewrite Pf|by rewrite Ph|done].
Qed.

(** ** The validation *)

(** A computation that may panic does not, when its parts do not. *)
Lemma opt_try_runs {A B X} (m : option (Result A X)) (f : A → option (Result B X)) :
  is_Some m → (∀ a, m = Some (Ok a) → is_Some (f a)) → is_Some (opt_try m f).
Proof. intros [[a|e] ->] Hf; simpl; eauto. Qed.

(** Takes an accepting computation apart, a check at a time. *)
Ltac accept_inv :=
  repeat match goal with
  | H : opt_try _ _ = Some (Ok _) |- _ =>
      let a := fresh "a" in let E := fresh "E" in apply opt_try_Ok in H as (a & E & H)
  | H : Some _ = Some _ |- _ => injection H as H
  | H : result_bind _ _ = Ok _ |- _ =>
      let a := fresh "a" in let E := fresh "E" in apply result_bind_Ok in H as (a & E & H)
  | H : ok_or _ _ = Ok _ |- _ => apply ok_or_Ok in H
  | H : ensure _ _ = Ok _ |- _ => apply ensure_Ok in H
  | H : try_each _ _ = Ok _ |- _ => apply try_each_Ok in H; rewrite Forall_forall in H
  end.

Ltac runs_chain :=
  repeat match goal with |- is_Some (opt_try _ _) => apply opt_try_runs; [eauto|intros ? ?] end.

Lemma try_map_Ok {A B X} (f : A → Result B X) l ys : try_map f l = Ok ys ↔ Forall2 (λ x y, f x = Ok y) l ys.
Proof.
  revert ys. induction l as [|x l IH]; intros ys; simpl.
  - split; [by intros [= <-]|by inversion 1].
  - split.
    + intros Hm. accept_inv. simplify_eq. constructor; [done|by apply IH].
    + inversion 1 as [|? y ? ys' Hx Hl]; subst. rewrite Hx. cbn [result_bind]. by apply IH in Hl as ->.
Qed.

Lemma fmap_lookup_1 {A B} (f : A → B) (l : list A) i x : l !! i = Some x → (f <$> l) !! i = Some (f x).
Proof. intros Hi. by rewrite list_lookup_fmap, Hi. Qed.

Lemma contains_key_elem {V} (m : BTreeMap text V) k : bt_sorted m → contains_key m k = true ↔ k ∈ bt_keys m.
Proof.
  intros Hm. unfold contains_key. pose proof (bt_get_None m k Hm) as Hk. destruct (bt_get m k) eqn:E.
  - split; [intros _|done]. destruct (decide (k ∈ bt_keys m)); [done|]. by apply Hk in n.
  - split; [done|]. intros Hin. by destruct (proj1 Hk eq_refl).
Qed.

Lemma bt_key_entry {V} (m : BTreeMap text V) k : k ∈ bt_keys m ↔ ∃ v, (k, v) ∈ m.
Proof.
  unfold bt_keys. rewrite list_elem_of_fmap. split; [intros ([? v] & -> & ?); by exists v|].
  intros [v Hv]. by exists (k, v).
Qed.

(** What the type [BTreeMap] guarantees of a group. *)
Definition group_maps {D : Type} `{NtTypes} (g : OutcomeGroup D) : Prop :=
  bt_sorted (terminal_states g) ∧ bt_sorted (tradable_legs g) ∧
  bt_sorted (payout_per_unit_by_state (payout_matrix g)).

(** The payout the role of a leg gives in a standard state. *)
Definition role_payout {D : Type} `{DecimalOps D} (role : OutcomeLegRole) (state : TerminalStateId) : D :=
  match role with
  | PaysOnTerminalState s => if bool_decide (s = state) then d_one else d_zero
  | PaysUnlessTerminalState s => if bool_decide (s = state) then d_zero else d_one
  | UnsupportedMultiState _ => d_zero
  end.

Section Validation.
Context {D : Type} `{DecimalOps D} `{DecimalText D} `{DecimalNormalize D} `{InstrumentText}.
Context (sha256_hex : bytes → text).
Implicit Types g : OutcomeGroup D.

Lemma row_eqb_Forall2 (a b : list D) : row_eqb a b = true ↔ Forall2 (λ x y, d_eqb x y = true) a b.
Proof.
  revert b. induction a as [|x a IH]; intros [|y b]; simpl.
  - split; [constructor|done].
  - split; [done|by inversion 1].
  - split; [done|by inversion 1].
  - rewrite andb_true_iff, IH. split; [intros []; by constructor|by inversion 1].
Qed.

Lemma resolve_attested_leg_Ok g r id :
  resolve_attested_leg g r = Ok id →
  ∃ leg, (id, leg) ∈ tradable_legs g ∧ leg_ref_matches r leg = true ∧
    ∀ id' leg', (id', leg') ∈ tradable_legs g → leg_ref_matches r leg' = true → id' = id.
Proof.
  unfold resolve_attested_leg. destruct (filter _ _) as [|[id' leg] [|]] eqn:E; [done| |done].
  intros [= ->]. assert (He : ∀ e, e ∈ [(id, leg)] ↔ leg_ref_matches r e.2 = true ∧ e ∈ tradable_legs g).
  { intros e. by rewrite <- E, list_elem_of_filter. }
  exists leg. destruct (He (id, leg)) as [Hi _]. rewrite list_elem_of_singleton in Hi. destruct Hi as [Hm Hin]; [done|].
  split_and!; [done|done|]. intros id' leg' Hin' Hm'. destruct (He (id', leg')) as [_ Hi'].
  rewrite list_elem_of_singleton in Hi'. specialize (Hi' (conj Hm' Hin')). congruence.
Qed.

Lemma resolve_leg_get g r id :
  bt_sorted (tradable_legs g) → resolve_attested_leg g r = Ok id → ∃ leg, bt_get (tradable_legs g) id = Some leg.
Proof. intros Hl (leg & Hin & _)%resolve_attested_leg_Ok. exists leg. by apply bt_get_Some. Qed.

(** *** The shape of the matrix *)

Record matrix_shape g : Prop := {
  shape_cols leg : leg ∈ matrix_cols (payout_matrix g) → leg ∈ bt_keys (tradable_legs g);
  shape_rows state :
    state ∈ bt_keys (payout_per_unit_by_state (payout_matrix g)) ↔ state ∈ bt_keys (terminal_states g);
  shape_row state row :
    (state, row) ∈ payout_per_unit_by_state (payout_matrix g) →
    length row = length (matrix_cols (payout_matrix g)) ∧
    Forall (λ p, d_ltb p d_zero = false ∧ d_gtb p d_one = false) row;
}.

Lemma existsb_false {A} (f : A → bool) l : existsb f l = false ↔ Forall (λ x, f x = false) l.
Proof. induction l as [|x l IH]; simpl; [split; [constructor|done]|]. by rewrite orb_false_iff, Forall_cons, IH. Qed.

Lemma matrix_shape_Ok g : group_maps g → validate_payout_matrix_shape g = Ok tt → matrix_shape g.
Proof.
  intros (Hs & Hl & Hr) Hv. unfold validate_payout_matrix_shape in Hv. accept_inv.
  split.
  - intros leg Hleg. apply E in Hleg. accept_inv. by apply contains_key_elem in Hleg.
  - intros state. split; intros Hin.
    + apply E1 in Hin. accept_inv. by apply contains_key_elem in Hin.
    + apply E2 in Hin. accept_inv. by apply contains_key_elem in Hin.
  - intros state row Hin. apply Hv in Hin. simpl in Hin. accept_inv. apply Nat.eqb_eq in E3.
    split; [done|]. apply negb_true_iff, existsb_false in Hin. eapply Forall_impl; [done|].
    intros p Hp. by apply orb_false_iff in Hp.
Qed.

(** *** Void states *)

(** The row of a void state is the vector its attestation signs, column by column. *)
Definition vector_attested g (v : AttestedPayoutVector D) (row : list D) : Prop :=
  v ∈ non_standard_terminal_payouts (settlement_rules g) ∧
  payout_vector_attestation_sha256 sha256_hex (vector_terminal_state_id v) (vector_label v) (vector_cols v)
    (vector_payouts v) (refund_convention v) = vector_attestation_sha256 v ∧
  Forall2 (λ c id, resolve_attested_leg g c = Ok id) (vector_cols v) (matrix_cols (payout_matrix g)) ∧
  row_eqb (vector_payouts v) row = true.

Lemma non_standard_states_elem g id :
  id ∈ non_standard_states g ↔ ∃ st, (id, st) ∈ terminal_states g ∧ is_standard (terminal_kind st) = false.
Proof.
  unfold non_standard_states. rewrite bt_key_entry. split.
  - intros [st Hst]. apply list_elem_of_filter in Hst as [Hk Hin]. eauto.
  - intros (st & Hin & Hk). exists st. by apply list_elem_of_filter.
Qed.

Lemma shape_bt_get g state :
  group_maps g → matrix_shape g → state ∈ bt_keys (terminal_states g) →
  ∃ row, bt_get (payout_per_unit_by_state (payout_matrix g)) state = Some row.
Proof.
  intros (_ & _ & Hr) Hsh Hin. apply (shape_rows g Hsh), bt_key_entry in Hin as [row Hrow].
  exists row. by apply bt_get_Some.
Qed.

Lemma attested_vector_runs g v :
  group_maps g → matrix_shape g → vector_terminal_state_id v ∈ non_standard_states g →
  is_Some (validate_attested_payout_vector sha256_hex g v).
Proof.
  intros Hg Hsh Hin. apply non_standard_states_elem in Hin as (st & Hin & _).
  destruct (shape_bt_get g (vector_terminal_state_id v) Hg Hsh) as [row Hrow]; [apply bt_key_entry; eauto|].
  unfold validate_attested_payout_vector. runs_chain. rewrite Hrow. eauto.
Qed.

Lemma vectors_run g seen vs :
  group_maps g → matrix_shape g → is_Some (validate_vectors sha256_hex g seen vs).
Proof.
  intros Hg Hsh. revert seen. induction vs as [|v vs IH]; intros seen; cbn [validate_vectors]; [eauto|].
  apply opt_try_runs; [eauto|]. intros u Hu. accept_inv. apply bool_decide_eq_true in Hu.
  pose proof (attested_vector_runs g v Hg Hsh Hu). by runs_chain.
Qed.

Lemma vectors_Ok g seen vs out :
  validate_vectors sha256_hex g seen vs = Some (Ok out) →
  vs ⊆ non_standard_terminal_payouts (settlement_rules g) →
  ∀ s, s ∈ out → s ∈ seen ∨ ∃ v row, vector_terminal_state_id v = s ∧
    bt_get (payout_per_unit_by_state (payout_matrix g)) s = Some row ∧ vector_attested g v row.
Proof.
  revert seen. induction vs as [|v vs IH]; intros seen Hv Hsub s Hs; cbn [validate_vectors] in Hv; [left; congruence|].
  accept_inv. destruct (IH _ Hv) with (s := s) as [[->|Hseen]%elem_of_cons|Hrow]; [set_solver|done| |by left|by right].
  right. exists v. unfold validate_attested_payout_vector in E1. accept_inv.
  destruct (bt_get _ (vector_terminal_state_id v)) as [row|]; [|done]. accept_inv.
  exists row. split_and!; [done|done|]. apply bool_decide_eq_true in E3, E6. subst.
  split_and!; [set_solver|done|by apply try_map_Ok|done].
Qed.

(** *** Standard states *)

Definition role_row (legs : BTreeMap OutcomeLegId (OutcomeLeg D)) (state : TerminalStateId) : list D :=
  (λ e : OutcomeLegId * OutcomeLeg D, role_payout (leg_role e.2) state) <$> legs.

Lemma payout_for_role_Ok leg role state (p : D) : payout_for_role leg role state = Ok p → p = role_payout role state.
Proof. by destruct role; simpl; intros [= <-]. Qed.

Lemma role_row_Ok (legs : BTreeMap OutcomeLegId (OutcomeLeg D)) state row :
  try_map (λ '(leg, l), payout_for_role leg (leg_role l) state) legs = Ok row → row = role_row legs state.
Proof.
  intros Hm%try_map_Ok. unfold role_row. induction Hm as [|[leg l] p legs row Hp _ IH]; [done|].
  csimpl. rewrite <- IH. f_equal. by apply payout_for_role_Ok in Hp.
Qed.

Lemma derive_rows_Ok legs states rows id st :
  derive_rows legs states = Ok rows → (id, st) ∈ states → is_standard (terminal_kind st) = true →
  (id, role_row legs id) ∈ rows.
Proof.
  revert rows. induction states as [|[id' st'] states IH]; intros rows Hd Hin Hk; [set_solver|].
  cbn [derive_rows] in Hd. destruct (is_standard (terminal_kind st')) eqn:Hk'.
  - accept_inv. injection Hd as <-. apply elem_of_cons in Hin as [[= <- <-]|Hin].
    + apply role_row_Ok in E as <-. set_solver.
    + apply elem_of_cons. right. by eapply IH.
  - apply elem_of_cons in Hin as [[= <- <-]|Hin]; [congruence|]. by eapply IH.
Qed.

Lemma standard_rows_Ok g :
  validate_standard_rows g = Ok tt →
  matrix_cols (payout_matrix g) = bt_keys (tradable_legs g) ∧
  ∀ id st, (id, st) ∈ terminal_states g → is_standard (terminal_kind st) = true →
    ∃ row, bt_get (payout_per_unit_by_state (payout_matrix g)) id = Some row ∧
      row_eqb row (role_row (tradable_legs g) id) = true.
Proof.
  intros Hv. unfold validate_standard_rows, derive_standard_payout_matrix in Hv.
  destruct (terminal_state_convention _); [|done]. accept_inv. injection E as <-.
  cbn [matrix_cols payout_per_unit_by_state] in *. apply bool_decide_eq_true in E0.
  split; [done|]. intros id st Hin Hk. pose proof (derive_rows_Ok _ _ _ _ _ E1 Hin Hk) as Hrow.
  apply Hv in Hrow. cbv beta iota in Hrow. accept_inv. destruct (bt_get _ id) as [row|]; [|done]. eauto.
Qed.

(** *** Attested bindings *)

Lemma label_map_sub acc states out :
  label_map acc states = Ok out → bt_sorted acc →
  bt_sorted out ∧ ∀ l id, (l, id) ∈ out → (l, id) ∈ acc ∨ ∃ st, (id, st) ∈ states ∧ state_label st = l.
Proof.
  revert acc. induction states as [|[id st] states IH]; intros acc Hm Hs; cbn [label_map] in Hm.
  { injection Hm as <-. split; [done|]. by left. }
  destruct (contains_key acc (state_label st)); [done|].
  apply IH in Hm as [Hso Hout]; [|by apply bt_upsert_sorted]. split; [done|]. intros l id' Hin.
  apply Hout in Hin as [Hin|(st' & Hin & Hl)]; [|right; exists st'; split; [by right|done]].
  apply bt_get_Some in Hin; [|by apply bt_upsert_sorted].
  destruct (decide (l = state_label st)) as [->|Hne].
  - unfold bt_insert in Hin. rewrite bt_get_upsert in Hin by done. right. exists st.
    split; [|done]. destruct (bt_get acc (state_label st)); simplify_eq/=; left.
  - unfold bt_insert in Hin. rewrite bt_get_upsert_ne in Hin by done. left. by apply bt_get_Some.
Qed.

(** The two legs an attestation binds to a state. *)
Definition bound_legs g (state : TerminalStateId) (on_id unless_id : OutcomeLegId) : Prop :=
  ∃ on_leg unless_leg,
    (on_id, on_leg) ∈ tradable_legs g ∧ leg_role on_leg = PaysOnTerminalState state ∧
    (unless_id, unless_leg) ∈ tradable_legs g ∧ leg_role unless_leg = PaysUnlessTerminalState state.

(** A binding is for the state of its label, and the legs its references resolve to are
    the pays-on and the pays-unless leg of that state. *)
Definition binding_names g (b : PositiveSideBinding) (id : TerminalStateId) (st : TerminalState) : Prop :=
  (id, st) ∈ terminal_states g ∧ is_standard (terminal_kind st) = true ∧
  state_label st = binding_terminal_state_label b ∧
  ∃ on_id unless_id, resolve_attested_leg g (pays_on_leg b) = Ok on_id ∧
    resolve_attested_leg g (pays_unless_leg b) = Ok unless_id ∧ bound_legs g id on_id unless_id.

Lemma binding_runs g labels seen b :
  group_maps g → bt_sorted labels → (∀ l id, (l, id) ∈ labels → id ∈ bt_keys (terminal_states g)) →
  is_Some (validate_binding g labels seen b).
Proof.
  intros (Hs & Hl & _) Hls Hlabels. unfold validate_binding.
  destruct (bt_get labels _) as [state|] eqn:Hb; [|eauto]. apply bt_get_Some in Hb; [|done].
  apply Hlabels, bt_key_entry in Hb as [st Hst].
  assert (bt_get (terminal_states g) state = Some st) as -> by by apply bt_get_Some.
  cbn [mbind option_bind]. runs_chain. accept_inv.
  match goal with E : resolve_attested_leg _ (pays_on_leg b) = Ok ?a, F : resolve_attested_leg _ _ = Ok ?c |- _ =>
    destruct (resolve_leg_get g _ _ Hl E) as [? ->], (resolve_leg_get g _ _ Hl F) as [? ->] end.
  cbn [mbind option_bind]. runs_chain. eauto.
Qed.

(** What [label_map] makes of the states. *)
Definition labels_of g (labels : BTreeMap text TerminalStateId) : Prop :=
  bt_sorted labels ∧ ∀ l id, (l, id) ∈ labels → ∃ st, (id, st) ∈ terminal_states g ∧ state_label st = l.

Lemma binding_Ok g labels seen b state :
  group_maps g → labels_of g labels → validate_binding g labels seen b = Some (Ok state) →
  ∃ st, binding_names g b state st.
Proof.
  intros (Hts & Hl & _) [Hls Hlab] Hb. unfold validate_binding in Hb.
  destruct (bt_get labels _) as [state'|] eqn:Hlb; [|done]. apply bt_get_Some in Hlb; [|done].
  destruct (bt_get (terminal_states g) state') as [st|] eqn:Hst; [|done]. cbn [mbind option_bind] in Hb. accept_inv.
  destruct (bt_get (tradable_legs g) a1) as [on_leg|] eqn:Hon; [|done]. cbn [mbind option_bind] in Hb.
  destruct (bt_get (tradable_legs g) a2) as [unless_leg|] eqn:Hunless; [|done]. cbn [mbind option_bind] in Hb.
  accept_inv. simplify_eq. apply andb_true_iff in E3 as [Eon Eun].
  apply bool_decide_eq_true in Eon, Eun. apply bt_get_Some in Hon, Hunless; [|done..].
  destruct (Hlab _ _ Hlb) as (st' & Hst' & Hlbl). apply bt_get_Some in Hst'; [|done].
  rewrite Hst in Hst'. injection Hst' as <-. apply bt_get_Some in Hst; [|done].
  exists st. split_and!; [done|done|done|]. exists a1, a2. split_and!; [done|done|]. by exists on_leg, unless_leg.
Qed.

Lemma bindings_run g labels seen bs :
  group_maps g → bt_sorted labels → (∀ l id, (l, id) ∈ labels → id ∈ bt_keys (terminal_states g)) →
  is_Some (validate_bindings g labels seen bs).
Proof.
  intros Hg Hls Hlabels. revert seen. induction bs as [|b bs IH]; intros seen; cbn [validate_bindings]; [eauto|].
  pose proof (binding_runs g labels seen b Hg Hls Hlabels). by runs_chain.
Qed.

Lemma bindings_Ok g labels seen bs out :
  group_maps g → labels_of g labels → validate_bindings g labels seen bs = Some (Ok out) →
  (∀ s, s ∈ out → s ∈ seen ∨ ∃ b st, b ∈ bs ∧ binding_names g b s st) ∧
  (∀ b, b ∈ bs → ∃ s st, binding_names g b s st).
Proof.
  intros Hg Hls. revert seen. induction bs as [|b bs IH]; intros seen Hv; cbn [validate_bindings] in Hv.
  { injection Hv as <-. split; [by left|]. by intros b ?%elem_of_nil. }
  accept_inv. destruct (IH _ Hv) as [Hout Hall]. destruct (binding_Ok _ _ _ _ _ Hg Hls E) as [st Hst]. split.
  - intros s Hs. destruct (Hout s Hs) as [[->|Hin]%elem_of_cons|(b' & st' & Hb' & Hn)]; [|by left|].
    + right. exists b, st. split; [left|done].
    + right. exists b', st'. split; [by right|done].
  - intros b' [->|Hb']%elem_of_cons; [by exists a, st|by apply Hall].
Qed.

Lemma positive_side_bindings_run g bs : group_maps g → is_Some (validate_positive_side_bindings g bs).
Proof.
  intros Hg. unfold validate_positive_side_bindings. apply opt_try_runs; [eauto|]. intros labels Hm. accept_inv.
  apply label_map_sub in Hm as [Hs Hsub]; [|constructor].
  assert (∀ l id, (l, id) ∈ labels → id ∈ bt_keys (terminal_states g)) as Hlab.
  { intros l id [Hin|(st & Hin & _)]%Hsub; [set_solver|]. apply bt_key_entry. by exists st. }
  pose proof (bindings_run g labels [] bs Hg Hs Hlab). by runs_chain.
Qed.

(** Every standard state is bound by an attestation, and every attestation binds one. *)
Definition states_bound g (bs : list PositiveSideBinding) : Prop :=
  (∀ id st, (id, st) ∈ terminal_states g → is_standard (terminal_kind st) = true →
     ∃ b, b ∈ bs ∧ binding_names g b id st) ∧
  (∀ b, b ∈ bs → ∃ id st, binding_names g b id st).

Lemma positive_side_bindings_Ok g bs :
  group_maps g → validate_positive_side_bindings g bs = Some (Ok tt) → states_bound g bs.
Proof.
  intros Hg Hv. unfold validate_positive_side_bindings in Hv. accept_inv.
  assert (Hls : labels_of g a).
  { apply label_map_sub in E as [Hs Hsub]; [|constructor]. split; [done|].
    intros l id [Hin|Hin]%Hsub; [set_solver|done]. }
  destruct (bindings_Ok _ _ _ _ _ Hg Hls E0) as [Hout Hall]. split; [|done].
  intros id st Hin Hk. pose proof Hin as Hin'. apply Hv in Hin. cbv beta iota in Hin. accept_inv.
  rewrite Hk in Hin. apply bool_decide_eq_true in Hin.
  destruct (Hout id Hin) as [?|(b & st' & Hb & Hn)]; [set_solver|]. exists b. split; [done|].
  destruct Hn as (Hst' & Hrest). destruct Hg as (Hts & _). apply bt_get_Some in Hst', Hin'; [|done..].
  rewrite Hin' in Hst'. injection Hst' as <-. split; [by apply bt_get_Some|done].
Qed.

(** *** The whole validation *)

Record validated_group g : Prop := {
  vg_cols : matrix_cols (payout_matrix g) = bt_keys (tradable_legs g);
  vg_states state :
    state ∈ bt_keys (payout_per_unit_by_state (payout_matrix g)) ↔ state ∈ bt_keys (terminal_states g);
  vg_some_state : terminal_states g ≠ [];
  vg_row id st : (id, st) ∈ terminal_states g →
    ∃ row, bt_get (payout_per_unit_by_state (payout_matrix g)) id = Some row ∧
      length row = length (tradable_legs g) ∧
      Forall (λ p, d_ltb p d_zero = false ∧ d_gtb p d_one = false) row ∧
      if is_standard (terminal_kind st) then row_eqb row (role_row (tradable_legs g) id) = true
      else ∃ v, vector_terminal_state_id v = id ∧ vector_attested g v row;
  vg_leg id leg : (id, leg) ∈ tradable_legs g →
    leg_settlement_asset_id leg = group_settlement_asset_id g ∧ is_multi_state (leg_role leg) = false;
  vg_bindings attestation bindings sha fingerprint :
    role_binding_proof g = Some (OperatorAttestedBinding attestation bindings sha fingerprint) →
    role_binding_attestation_sha256 sha256_hex bindings = sha ∧ states_bound g bindings;
  vg_metadata : metadata_fingerprint g = expected_metadata_fingerprint sha256_hex g;
}.

Lemma role_bindings_run g : group_maps g → is_Some (validate_role_bindings sha256_hex g).
Proof.
  intros Hg. unfold validate_role_bindings. destruct (role_binding_proof g) as [[]|]; [|by eauto..].
  runs_chain. by apply positive_side_bindings_run.
Qed.

Lemma validation_runs g : group_maps g → is_Some (validate_outcome_group sha256_hex g).
Proof.
  intros Hg. unfold validate_outcome_group.
  do 6 (apply opt_try_runs; [eauto|intros ? _]).
  apply opt_try_runs; [eauto|]. intros [] Hsh. injection Hsh as Hsh. apply matrix_shape_Ok in Hsh; [|done].
  apply opt_try_runs.
  { unfold validate_non_standard_payouts. pose proof (vectors_run g [] (non_standard_terminal_payouts (settlement_rules g)) Hg Hsh).
    runs_chain. eauto. }
  intros _ _. pose proof (role_bindings_run g Hg). runs_chain. eauto.
Qed.

Lemma validation_rows g :
  group_maps g → matrix_shape g → validate_non_standard_payouts sha256_hex g = Some (Ok tt) →
  validate_standard_rows g = Ok tt → ∀ id st, (id, st) ∈ terminal_states g →
  ∃ row, bt_get (payout_per_unit_by_state (payout_matrix g)) id = Some row ∧
    if is_standard (terminal_kind st) then row_eqb row (role_row (tradable_legs g) id) = true
    else ∃ v, vector_terminal_state_id v = id ∧ vector_attested g v row.
Proof.
  intros Hg Hsh Hns Hst id st Hin. destruct (is_standard (terminal_kind st)) eqn:Hk.
  { apply standard_rows_Ok in Hst as [_ Hst]. by eapply Hst. }
  unfold validate_non_standard_payouts in Hns. accept_inv.
  assert (id ∈ non_standard_states g) as Hid by (apply non_standard_states_elem; eauto).
  apply Hns in Hid. accept_inv. apply bool_decide_eq_true in Hid.
  destruct (vectors_Ok _ _ _ _ E ltac:(done) id Hid) as [?|(v & row & Hv & Hrow & Hatt)]; [set_solver|]. eauto.
Qed.

Lemma validation_bindings g attestation bindings sha fingerprint :
  group_maps g → validate_role_bindings sha256_hex g = Some (Ok tt) →
  role_binding_proof g = Some (OperatorAttestedBinding attestation bindings sha fingerprint) →
  role_binding_attestation_sha256 sha256_hex bindings = sha ∧ states_bound g bindings.
Proof.
  intros Hg Hv Hp. unfold validate_role_bindings in Hv. rewrite Hp in Hv. accept_inv.
  apply bool_decide_eq_true in E1. split; [done|]. by apply positive_side_bindings_Ok.
Qed.

Lemma validation_Ok g :
  group_maps g → validate_outcome_group sha256_hex g = Some (Ok tt) → validated_group g.
Proof.
  intros Hg Hv. unfold validate_outcome_group in Hv. accept_inv. subst.
  apply negb_true_iff in E. apply andb_true_iff in Hv as [_ Hmeta%bool_decide_eq_true].
  destruct a5, a6, a7, a8. pose proof (matrix_shape_Ok g Hg E5) as Hsh. pose proof (standard_rows_Ok g E7) as [Hcols _].
  split; [done|by apply shape_rows|by destruct (terminal_states g)| |  | |done].
  - intros id st Hin. destruct (validation_rows g Hg Hsh E6 E7 id st Hin) as (row & Hrow & Hkind).
    exists row. pose proof Hrow as He. apply bt_get_Some in He; [|apply Hg].
    destruct (shape_row g Hsh _ _ He) as [Hlen Hb]. rewrite Hcols in Hlen. unfold bt_keys in Hlen.
    rewrite length_fmap in Hlen. done.
  - intros id leg Hin. unfold validate_leg_assets_scales_and_constraints in E4. accept_inv.
    apply E4 in Hin. cbv beta iota in Hin. accept_inv. apply negb_true_iff in Hin. split; [|done].
    by eapply bool_decide_eq_true.
  - intros. by eapply validation_bindings.
Qed.

(** C38: Validating an outcome group never panics, and a validated group pays what it claims:
    the columns of the payout matrix are the tradable legs, it has one row per terminal
    state, every payout is between zero and one, the row of a standard state is the one
    the roles of the legs give, the row of any other state is a payout vector whose
    attestation digest matches and whose columns resolve to the legs in order, and the
    metadata digest is that of the group.  When an operator attests the roles, the
    bindings match their digest, every standard state has a binding under its label, every
    binding is for a standard state, and the references of a binding resolve to the legs
    that pay on and pay unless that state. *)
Theorem validated_group_sound g :
  group_maps g →
  ∃ r, validate_outcome_group sha256_hex g = Some r ∧ (r = Ok tt → validated_group g).
Proof.
  intros Hg. destruct (validation_runs g Hg) as [r Hr]. exists r. split; [done|].
  intros ->. by apply validation_Ok.
Qed.

End Validation.

(** *** A bound pair of legs *)

Section Pair.
Context {D : Type} `{DecimalLaws D} `{DecimalText D} `{DecimalNormalize D} `{InstrumentText}.
Context (sha256_hex : bytes → text).
Implicit Types g : OutcomeGroup D.

Lemma role_payout_value role state :
  d_exact (role_payout role state : D) ∧
  d_value (role_payout role state : D) =
    match role with
    | PaysOnTerminalState s => if bool_decide (s = state) then d_unit else 0
    | PaysUnlessTerminalState s => if bool_decide (s = state) then 0 else d_unit
    | UnsupportedMultiState _ => 0
    end.
Proof. destruct d_zero_exact, d_one_exact. destruct role; simpl; try case_bool_decide; done. Qed.

(** A leg of a validated group and what it pays in a standard state. *)
Lemma standard_payout_value g id st row i leg_id leg :
  validated_group sha256_hex g → (id, st) ∈ terminal_states g → is_standard (terminal_kind st) = true →
  bt_get (payout_per_unit_by_state (payout_matrix g)) id = Some row → Forall d_exact row →
  tradable_legs g !! i = Some (leg_id, leg) →
  ∃ p, row !! i = Some p ∧ d_value p = d_value (role_payout (leg_role leg) id : D).
Proof.
  intros Hg Hin Hk Hrow Hex Hi. destruct (vg_row _ _ Hg _ _ Hin) as (row' & Hrow' & _ & _ & Heq).
  simplify_eq. rewrite Hk in Heq. apply row_eqb_Forall2 in Heq.
  assert (role_row (tradable_legs g) id !! i = Some (role_payout (leg_role leg) id : D)) as Hr.
  { exact (fmap_lookup_1 (λ e : OutcomeLegId * OutcomeLeg D, role_payout (leg_role e.2) id) _ _ _ Hi). }
  destruct (Forall2_lookup_r _ _ _ _ _ Heq Hr) as (p & Hp & Hpe). exists p. split; [done|].
  rewrite d_eqb_value in Hpe; [by apply Z.eqb_eq|by eapply Forall_lookup_1|apply role_payout_value].
Qed.

(** In a validated group whose roles an operator attests, every standard state has a
    pays-on and a pays-unless leg, and whichever standard state settles, one unit of each
    pays exactly one settlement unit together. *)
Lemma attested_pair_pays_one g attestation bindings sha fingerprint state st :
  group_maps g → validate_outcome_group sha256_hex g = Some (Ok tt) →
  role_binding_proof g = Some (OperatorAttestedBinding attestation bindings sha fingerprint) →
  (∀ id row, bt_get (payout_per_unit_by_state (payout_matrix g)) id = Some row → Forall d_exact row) →
  (state, st) ∈ terminal_states g → is_standard (terminal_kind st) = true →
  ∃ i j on_id unless_id, bound_legs g state on_id unless_id ∧
    matrix_cols (payout_matrix g) !! i = Some on_id ∧ matrix_cols (payout_matrix g) !! j = Some unless_id ∧
    ∀ t tst row, (t, tst) ∈ terminal_states g → is_standard (terminal_kind tst) = true →
      bt_get (payout_per_unit_by_state (payout_matrix g)) t = Some row →
      ∃ p q, row !! i = Some p ∧ row !! j = Some q ∧ d_value p + d_value q = d_unit.
Proof.
  intros Hm Hv%validation_Ok Hp Hex Hin Hk; [|done].
  destruct (vg_bindings _ _ Hv _ _ _ _ Hp) as [_ Hb]. destruct Hb as [Hb _].
  destruct (Hb _ _ Hin Hk) as (_ & _ & _ & _ & _ & on_id & unless_id & _ & _ & Hbound).
  pose proof Hbound as (on_leg & un_leg & Hon & Ron & Hun & Run).
  apply list_elem_of_lookup in Hon as [i Hi], Hun as [j Hj]. exists i, j, on_id, unless_id.
  rewrite (vg_cols _ _ Hv). split_and!; [done|exact (fmap_lookup_1 fst _ _ _ Hi)|exact (fmap_lookup_1 fst _ _ _ Hj)|].
  intros t tst row Ht Htk Hrow.
  destruct (standard_payout_value g t tst row i _ _ Hv Ht Htk Hrow (Hex _ _ Hrow) Hi) as (p & Hpi & Hpv).
  destruct (standard_payout_value g t tst row j _ _ Hv Ht Htk Hrow (Hex _ _ Hrow) Hj) as (q & Hqj & Hqv).
  exists p, q. split_and!; [done..|]. rewrite Hpv, Hqv, Ron, Run.
  rewrite !(proj2 (role_payout_value _ _)). case_bool_decide; lia.
Qed.

End Pair.

(** ** Sets of groups *)

Lemma lit_inj s t : lit s = lit t → s = t.
Proof.
  unfold lit. intros E. apply list_fmap_eq_inj in E.
  - rewrite <- (String.string_of_list_ascii_of_string s), E. apply String.string_of_list_ascii_of_string.
  - intros a b Hab%Nat2Z.inj. rewrite <- (Ascii.ascii_nat_embedding a), Hab. apply Ascii.ascii_nat_embedding.
Qed.

Lemma u64_to_string_inj n m : 0 ≤ n → 0 ≤ m → u64_to_string n = u64_to_string m → n = m.
Proof.
  unfold u64_to_string. intros Hn Hm E%lit_inj. apply Z2N.inj; [done..|]. apply Unsigned.to_uint_inj.
  assert (Hnil : ∀ k, N.to_uint k ≠ Decimal.Nil) by (intros [|p]; [done|apply DecimalPos.Unsigned.to_uint_nonnil]).
  pose proof (NilZero.usu _ (Hnil (Z.to_N n))) as Un. pose proof (NilZero.usu _ (Hnil (Z.to_N m))) as Um.
  rewrite E in Un. congruence.
Qed.

Lemma index_to_string_inj i j : index_to_string i = index_to_string j → i = j.
Proof. intros E%u64_to_string_inj; lia. Qed.

(** Fields below a path. *)
Definition under (prefix : list text) (fs : list CanonicalField) : Prop :=
  ∀ f, f ∈ fs → prefix `prefix_of` field_path f.

Lemma under_nil prefix : under prefix [].
Proof. intros f Hf. set_solver. Qed.

Lemma under_app prefix fs hs : under prefix fs → under prefix hs → under prefix (fs ++ hs).
Proof. intros Hf Hh f [?|?]%elem_of_app; auto. Qed.

Lemma under_cons prefix f fs : prefix `prefix_of` field_path f → under prefix fs → under prefix (f :: fs).
Proof. intros Hf Hfs h [->|?]%elem_of_cons; auto. Qed.

Lemma under_shorter prefix more fs : under (prefix ++ more) fs → under prefix fs.
Proof. intros Hf f Hin. etrans; [by apply prefix_app_r|by apply Hf]. Qed.

Lemma elem_of_imap {A B} (F : nat → A → B) l y : y ∈ imap F l ↔ ∃ i x, l !! i = Some x ∧ y = F i x.
Proof.
  rewrite list_elem_of_lookup. setoid_rewrite list_lookup_imap_Some. naive_solver.
Qed.

Lemma under_imap {A} prefix (F : nat → A → CanonicalField) l :
  (∀ i x, prefix `prefix_of` field_path (F i x)) → under prefix (imap F l).
Proof. intros HF f (i & x & _ & ->)%elem_of_imap. apply HF. Qed.

Lemma under_concat_imap {A} prefix (F : nat → A → list CanonicalField) l :
  (∀ i x, under prefix (F i x)) → under prefix (concat (imap F l)).
Proof.
  intros HF f Hf. apply list_elem_of_In, in_concat in Hf as (fs & Hfs & Hf).
  apply list_elem_of_In, elem_of_imap in Hfs as (i & x & _ & ->). apply (HF i x). by apply list_elem_of_In.
Qed.

Ltac under_tac :=
  repeat first [apply under_nil | apply under_app | apply under_cons; [apply prefix_app_r; reflexivity|]
               | apply under_imap; intros; apply prefix_app_r; reflexivity].

Lemma leg_ref_under prefix r : under prefix (append_attested_leg_ref_fields prefix r).
Proof. destruct r; simpl; under_tac. Qed.

Section Sets.
Context {D : Type} `{DecimalOps D} `{DecimalText D} `{DecimalNormalize D} `{InstrumentText}.
Context (sha256_hex : bytes → text).
Implicit Types g h : OutcomeGroup D.

Lemma payout_vector_under prefix (v : AttestedPayoutVector D) :
  under prefix (append_attested_payout_vector_fields prefix v).
Proof.
  unfold append_attested_payout_vector_fields. under_tac. apply under_concat_imap. intros i col.
  eapply under_shorter, leg_ref_under.
Qed.

Lemma settlement_rules_under prefix (r : SettlementRules D) : under prefix (append_settlement_rules_fields prefix r).
Proof.
  unfold append_settlement_rules_fields. apply under_app; [destruct (terminal_state_convention r); under_tac|].
  under_tac. apply under_concat_imap. intros i v. eapply under_shorter, payout_vector_under.
Qed.

Lemma state_fields_elem states f :
  f ∈ terminal_state_fields states ↔
  ∃ id st, (id, st) ∈ states ∧
    (f = mkField [lit "terminal_states"; id; lit "label"] (state_label st) ∨
     f = mkField [lit "terminal_states"; id; lit "kind"] (terminal_state_kind_label (terminal_kind st))).
Proof.
  unfold terminal_state_fields. rewrite list_elem_of_bind.
  split; [intros ([id st] & Hf & Hin)|intros (id & st & Hin & Hf)].
  - exists id, st. split; [done|]. rewrite !elem_of_cons, elem_of_nil in Hf. tauto.
  - exists (id, st). split; [|done]. rewrite !elem_of_cons, elem_of_nil. tauto.
Qed.

Lemma matrix_fields_elem (m : PayoutMatrix D) f :
  f ∈ append_payout_matrix_fields [lit "payout_matrix"] m ↔
  (∃ i c, matrix_cols m !! i = Some c ∧ f = mkField [lit "payout_matrix"; lit "cols"; index_to_string i] c) ∨
  (∃ s row i p, (s, row) ∈ payout_per_unit_by_state m ∧ row !! i = Some p ∧
     f = mkField [lit "payout_matrix"; lit "payout_per_unit_by_state"; s; index_to_string i] (normalize_decimal p)).
Proof.
  unfold append_payout_matrix_fields, append_string_list_fields, prefixed_path. cbn [app].
  rewrite elem_of_app, elem_of_imap, list_elem_of_bind. apply or_iff_compat_l.
  split; [intros ([s row] & Hf & Hin)|intros (s & row & i & p & Hin & Hp & ->)].
  - apply elem_of_imap in Hf as (i & p & Hp & ->). by exists s, row, i, p.
  - exists (s, row). split; [|done]. apply elem_of_imap. by exists i, p.
Qed.

Lemma settlement_field_cases g f :
  f ∈ settlement_identity_fields g ↔
  f = field ["settlement"; "asset_id"] (group_settlement_asset_id g) ∨
  (∃ id st, (id, st) ∈ terminal_states g ∧
     (f = mkField [lit "terminal_states"; id; lit "label"] (state_label st) ∨
      f = mkField [lit "terminal_states"; id; lit "kind"] (terminal_state_kind_label (terminal_kind st)))) ∨
  (∃ i c, matrix_cols (payout_matrix g) !! i = Some c ∧
     f = mkField [lit "payout_matrix"; lit "cols"; index_to_string i] c) ∨
  (∃ s row i p, (s, row) ∈ payout_per_unit_by_state (payout_matrix g) ∧ row !! i = Some p ∧
     f = mkField [lit "payout_matrix"; lit "payout_per_unit_by_state"; s; index_to_string i] (normalize_decimal p)) ∨
  f ∈ append_settlement_rules_fields [lit "settlement_rules"] (settlement_rules g).
Proof.
  unfold settlement_identity_fields.
  rewrite !elem_of_app, list_elem_of_singleton, state_fields_elem, matrix_fields_elem. tauto.
Qed.

(** The text of a normalized payout: column [i] of the row of state [s]. *)
Definition normalized_payout g (s : TerminalStateId) (i : nat) : option text :=
  row ← bt_get (payout_per_unit_by_state (payout_matrix g)) s; normalize_decimal <$> (row !! i).

Lemma rules_field_head g f :
  f ∈ append_settlement_rules_fields [lit "settlement_rules"] (settlement_rules g) →
  head (field_path f) = Some (lit "settlement_rules").
Proof. intros [k Hk]%settlement_rules_under. by rewrite Hk. Qed.

Local Opaque lit.

Ltac decode_tac :=
  unfold field in *; cbn [fmap list_fmap] in *; simplify_eq/=;
  repeat match goal with
  | E : lit _ = lit _ |- _ => apply lit_inj in E; discriminate E
  | E : lit _ ≠ lit _ |- _ => done
  | E : index_to_string _ = index_to_string _ |- _ => apply index_to_string_inj in E; subst
  | E : _ ∈ append_settlement_rules_fields _ _ |- _ => apply rules_field_head in E; simplify_eq/=
  end.

Lemma asset_field g a :
  field ["settlement"; "asset_id"] a ∈ settlement_identity_fields g ↔ a = group_settlement_asset_id g.
Proof.
  rewrite settlement_field_cases. split; [|intros ->; by left].
  intros [?|[(? & ? & ? & [?|?])|[(? & ? & ? & ?)|[(? & ? & ? & ? & ? & ? & ?)|?]]]]; by decode_tac.
Qed.

Lemma label_field g id l :
  mkField [lit "terminal_states"; id; lit "label"] l ∈ settlement_identity_fields g ↔
  ∃ st, (id, st) ∈ terminal_states g ∧ state_label st = l.
Proof.
  rewrite settlement_field_cases. split; [|intros (st & ? & <-); right; left; eauto 10].
  intros [?|[(? & ? & ? & [?|?])|[(? & ? & ? & ?)|[(? & ? & ? & ? & ? & ? & ?)|?]]]]; decode_tac; eauto.
Qed.

Lemma kind_field g id k :
  mkField [lit "terminal_states"; id; lit "kind"] k ∈ settlement_identity_fields g ↔
  ∃ st, (id, st) ∈ terminal_states g ∧ terminal_state_kind_label (terminal_kind st) = k.
Proof.
  rewrite settlement_field_cases. split; [|intros (st & ? & <-); right; left; eauto 10].
  intros [?|[(? & ? & ? & [?|?])|[(? & ? & ? & ?)|[(? & ? & ? & ? & ? & ? & ?)|?]]]]; decode_tac; eauto.
Qed.

Lemma col_field g i c :
  mkField [lit "payout_matrix"; lit "cols"; index_to_string i] c ∈ settlement_identity_fields g ↔
  matrix_cols (payout_matrix g) !! i = Some c.
Proof.
  rewrite settlement_field_cases. split; [|intros ?; right; right; left; eauto 10].
  intros [?|[(? & ? & ? & [?|?])|[(? & ? & ? & ?)|[(? & ? & ? & ? & ? & ? & ?)|?]]]]; decode_tac; eauto.
Qed.

Lemma payout_field g s i t :
  group_maps g →
  mkField [lit "payout_matrix"; lit "payout_per_unit_by_state"; s; index_to_string i] t
    ∈ settlement_identity_fields g ↔ normalized_payout g s i = Some t.
Proof.
  intros (_ & _ & Hr). unfold normalized_payout. rewrite settlement_field_cases, bind_Some. split.
  - intros [?|[(? & ? & ? & [?|?])|[(? & ? & ? & ?)|[(? & row & ? & ? & ? & Hp & ?)|?]]]]; decode_tac.
    exists row. rewrite Hp. split; [by apply bt_get_Some|done].
  - intros (row & Hrow & Ht). apply fmap_Some in Ht as (p & Hp & ->). apply bt_get_Some in Hrow; [|done].
    right; right; right; left. eauto 10.
Qed.

(** *** The accepted sets *)

(** The identity a group claims and the digest of its settlement. *)
Definition claim g : option (text * text) :=
  (λ p, (native_identity p, settlement_identity_fingerprint sha256_hex g)) <$> grouping_proof g.

Lemma bt_get_insert (m : BTreeMap text text) k v k' :
  bt_sorted m → bt_get (bt_insert m k v) k' = if decide (k' = k) then Some v else bt_get m k'.
Proof.
  intros Hm. unfold bt_insert. case_decide; [subst|by apply bt_get_upsert_ne].
  rewrite bt_get_upsert by done. by destruct (bt_get m k).
Qed.

Lemma no_conflict (o : option text) f :
  match o with Some previous => negb (bool_decide (previous = f)) | None => false end = false ↔
  (∀ f', o = Some f' → f' = f).
Proof.
  destruct o as [f'|]; [|by split]. rewrite negb_false_iff, bool_decide_eq_true. split; [congruence|auto].
Qed.

Lemma identity_set_from_cons seen g groups :
  identity_set_from sha256_hex seen (g :: groups) =
  match claim g with
  | None => identity_set_from sha256_hex seen groups
  | Some (identity, fingerprint) =>
      if match bt_get seen identity with
         | Some previous => negb (bool_decide (previous = fingerprint))
         | None => false
         end
      then Err DuplicateGroupingIdentityConflict
      else identity_set_from sha256_hex (bt_insert seen identity fingerprint) groups
  end.
Proof. unfold claim. cbn [identity_set_from]. by destruct (grouping_proof g). Qed.

Lemma identity_set_Ok seen groups :
  bt_sorted seen →
  identity_set_from sha256_hex seen groups = Ok tt ↔
  (∀ g k f f', g ∈ groups → claim g = Some (k, f) → bt_get seen k = Some f' → f' = f) ∧
  (∀ g h k f f', g ∈ groups → h ∈ groups → claim g = Some (k, f) → claim h = Some (k, f') → f' = f).
Proof.
  revert seen. induction groups as [|g groups IH]; intros seen Hs; [split; [set_solver|done]|].
  rewrite identity_set_from_cons. destruct (claim g) as [[k f]|] eqn:Hg.
  2:{ rewrite IH by done. split; intros [Hin Hpair]; split.
      - intros h k f f' [->|Hh]%elem_of_cons He; [congruence|by eapply Hin].
      - intros h h' k f f' [->|Hh]%elem_of_cons [->|Hh']%elem_of_cons He He'; [congruence..|by eapply (Hpair h h')].
      - intros h k f f' Hh. apply (Hin h). by right.
      - intros h h' k f f' Hh Hh'. by apply (Hpair h h'); right. }
  destruct (match bt_get seen k with Some _ => _ | None => _ end) eqn:Hc.
  { split; [done|]. intros [Hin _]. destruct (bt_get seen k) as [f'|] eqn:Hk; [|done].
    apply negb_true_iff, bool_decide_eq_false in Hc. destruct Hc. eapply (Hin g); [by left|done..]. }
  rewrite no_conflict in Hc. rewrite IH by by apply bt_upsert_sorted. split; intros [Hin Hpair].
  - assert (Hall : ∀ h f', h ∈ groups → claim h = Some (k, f') → f = f').
    { intros h f' Hh He. eapply Hin; [done..|]. by rewrite bt_get_insert, decide_True. }
    split.
    + intros h k' f0 f' [->|Hh]%elem_of_cons He Hget; [simplify_eq; auto|].
      destruct (decide (k' = k)) as [->|]; [rewrite (Hc _ Hget); eauto|].
      eapply Hin; [done..|]. by rewrite bt_get_insert, decide_False.
    + intros h h' k' f0 f' [->|Hh]%elem_of_cons [->|Hh']%elem_of_cons He He'; simplify_eq; eauto.
      symmetry. eauto.
  - split; [|by intros h h' k' f0 f' Hh Hh'; apply (Hpair h h'); right].
    intros h k' f0 f' Hh He. rewrite bt_get_insert by done. case_decide as Hk.
    + subst. intros [= <-]. apply (Hpair h g k); [by right|by left|done|done].
    + apply (Hin h); [by right|done].
Qed.

(** Two groups of an accepted set that claim one identity have the same settlement fields. *)
Lemma accepted_same_fields groups g h p q :
  validate_grouping_identity_set sha256_hex groups = Ok tt → g ∈ groups → h ∈ groups →
  grouping_proof g = Some p → grouping_proof h = Some q → native_identity p = native_identity q →
  fields_ok (settlement_identity_fields g) → fields_ok (settlement_identity_fields h) →
  (settlement_identity_fingerprint sha256_hex g = settlement_identity_fingerprint sha256_hex h →
   canonical_bytes (settlement_identity_fields g) = canonical_bytes (settlement_identity_fields h)) →
  settlement_identity_fields g ≡ₚ settlement_identity_fields h.
Proof.
  intros Hv Hg Hh Hp Hq Hid Fg Fh Hsha. unfold validate_grouping_identity_set in Hv.
  apply identity_set_Ok in Hv as [_ Hpair]; [|constructor]. apply canonical_bytes_iff; [done..|]. apply Hsha.
  symmetry. apply (Hpair g h (native_identity p)); [done|done|..]; unfold claim; [by rewrite Hp|by rewrite Hq, Hid].
Qed.

(** Groups that settle alike: the asset, the states with their labels and kinds, the
    columns, and the payout of every column in every state. *)
Record settles_alike g h : Prop := {
  same_asset : group_settlement_asset_id g = group_settlement_asset_id h;
  same_states id l k :
    (∃ st, (id, st) ∈ terminal_states g ∧ state_label st = l ∧ terminal_kind st = k) ↔
    (∃ st, (id, st) ∈ terminal_states h ∧ state_label st = l ∧ terminal_kind st = k);
  same_cols : matrix_cols (payout_matrix g) = matrix_cols (payout_matrix h);
  same_payouts s i : normalized_payout g s i = normalized_payout h s i;
}.

Lemma kind_label_inj k k' : terminal_state_kind_label k = terminal_state_kind_label k' → k = k'.
Proof. destruct k, k'; cbn [terminal_state_kind_label]; intros E; try done; apply lit_inj in E; discriminate E. Qed.

Lemma same_states_incl g h id st :
  group_maps h → settlement_identity_fields g ⊆ settlement_identity_fields h → (id, st) ∈ terminal_states g →
  ∃ st', (id, st') ∈ terminal_states h ∧ state_label st' = state_label st ∧ terminal_kind st' = terminal_kind st.
Proof.
  intros (Hs & _) Hsub Hin.
  destruct (proj1 (label_field h id (state_label st))) as (st1 & Hin1 & Hl); [apply Hsub, label_field; eauto|].
  destruct (proj1 (kind_field h id (terminal_state_kind_label (terminal_kind st)))) as (st2 & Hin2 & Hk);
    [apply Hsub, kind_field; eauto|].
  apply bt_get_Some in Hin1, Hin2; [|done..]. simplify_eq. apply bt_get_Some in Hin1; [|done].
  apply kind_label_inj in Hk. eauto.
Qed.

Lemma same_fields_settle g h :
  group_maps g → group_maps h → settlement_identity_fields g ≡ₚ settlement_identity_fields h → settles_alike g h.
Proof.
  intros Mg Mh HP. assert (Hiff : ∀ f, f ∈ settlement_identity_fields g ↔ f ∈ settlement_identity_fields h)
    by (intros f; by rewrite HP).
  split.
  - apply asset_field, Hiff, asset_field. done.
  - intros id l k. split; intros (st & Hin & <- & <-).
    + apply (same_states_incl g h); [done|intros f; apply Hiff|done].
    + apply (same_states_incl h g); [done|intros f; apply Hiff|done].
  - apply list_eq. intros i. apply option_eq. intros c. by rewrite <- !col_field.
  - intros s i. apply option_eq. intros t. by rewrite <- !payout_field.
Qed.

(** C39: In a set of groups that passes the identity check, two groups that claim the same
    venue identity settle alike: same asset, same terminal states with the same labels
    and kinds, same columns and same normalized payout of every column in every state
    (unless SHA-256 collides on their two encodings). *)
Theorem same_identity_settles_alike groups g h p q :
  validate_grouping_identity_set sha256_hex groups = Ok tt → g ∈ groups → h ∈ groups →
  group_maps g → group_maps h →
  grouping_proof g = Some p → grouping_proof h = Some q → native_identity p = native_identity q →
  fields_ok (settlement_identity_fields g) → fields_ok (settlement_identity_fields h) →
  (settlement_identity_fingerprint sha256_hex g = settlement_identity_fingerprint sha256_hex h →
   canonical_bytes (settlement_identity_fields g) = canonical_bytes (settlement_identity_fields h)) →
  settles_alike g h.
Proof. intros. apply same_fields_settle; [done..|]. by eapply accepted_same_fields. Qed.

End Sets.

(** ** A concrete group *)

#[local] Instance scalar_dec c : Decision (scalar c).
Proof. unfold scalar. apply _. Defined.
#[local] Instance fits_dec n : Decision (fits n).
Proof. unfold fits. apply _. Defined.
#[local] Instance text_ok_dec s : Decision (text_ok s).
Proof. unfold text_ok. apply _. Defined.
#[local] Instance field_ok_dec f : Decision (field_ok f).
Proof. unfold field_ok. apply _. Defined.
#[local] Instance fields_ok_dec fs : Decision (fields_ok fs).
Proof. unfold fields_ok. apply _. Defined.

(** A toy digest: the number of bytes, in hexadecimal. *)
Fixpoint hex_digits (n : nat) (z : Z) : text :=
  match n with
  | O => []
  | S n => let d := z mod 16 in (if d <? 10 then 48 + d else 87 + d) :: hex_digits n (z / 16)
  end.

Definition demo_digest (b : bytes) : text := hex_digits 64 (Z.of_nat (length b)).

Module Demo.
#[local] Instance nt : NtTypes := demo_nt.
#[local] Instance itext : InstrumentText := λ i, i.
#[local] Instance dnorm : DecimalNormalize Z := λ d, d.

Definition zeros : text := demo_digest [].

Definition leg (id instrument : string) (outcome side : string) (role : OutcomeLegRole) : OutcomeLegId * OutcomeLeg Z :=
  (lit id, {| leg_id := lit id; leg_instrument_id := lit instrument; native_leg_id := lit id;
     leg_settlement_asset_id := lit "USDC"; outcome_label := lit outcome; side_label := lit side; leg_role := role;
     price_scale := mkPriceScale (lit "USDC") 1000000 1000000 (ScaleVenueStructuredFields zeros);
     order_constraints := mkOrderConstraints 1 None 1 (ConfigFloorWithNtPrecision (lit "config")) |}).

Definition legs : BTreeMap OutcomeLegId (OutcomeLeg Z) :=
  [leg "no-no" "no-no" "NO" "NO" (PaysUnlessTerminalState (lit "no"));
   leg "no-yes" "no" "NO" "YES" (PaysOnTerminalState (lit "no"));
   leg "yes-no" "yes-no" "YES" "NO" (PaysUnlessTerminalState (lit "yes"));
   leg "yes-yes" "yes" "YES" "YES" (PaysOnTerminalState (lit "yes"))].

Definition states : BTreeMap TerminalStateId TerminalState :=
  [(lit "no", mkTerminalState (lit "no") (lit "NO") Standard);
   (lit "void", mkTerminalState (lit "void") (lit "VOID") VoidState);
   (lit "yes", mkTerminalState (lit "yes") (lit "YES") Standard)].

Definition void_cols : list AttestedLegRef :=
  [NativeLegId (lit "no-no"); NativeLegId (lit "no-yes"); NativeLegId (lit "yes-no");
   OutcomeAndSide (lit "YES") (lit "YES")].

Definition bindings : list PositiveSideBinding :=
  [mkBinding (lit "YES") (NativeLegId (lit "yes-yes")) (NativeLegId (lit "yes-no"));
   mkBinding (lit "NO") (OutcomeAndSide (lit "NO") (lit "YES")) (NativeLegId (lit "no-no"))].

Definition void_vector : AttestedPayoutVector Z :=
  mkPayoutVector (lit "void") (lit "VOID") void_cols [500000; 500000; 500000; 500000] (lit "half")
    (payout_vector_attestation_sha256 demo_digest (lit "void") (lit "VOID") void_cols
       [500000; 500000; 500000; 500000] (lit "half")).

Definition unsigned_group (id : string) : OutcomeGroup Z := {|
  group_id := lit id; source_client_id := lit "client"; group_venue := lit "VENUE"; source_kind := Polymarket;
  group_settlement_asset_id := lit "USDC"; terminal_states := states; tradable_legs := legs;
  payout_matrix := mkPayoutMatrix (bt_keys legs)
    [(lit "no", [0; 1000000; 1000000; 0]); (lit "void", [500000; 500000; 500000; 500000]);
     (lit "yes", [1000000; 0; 0; 1000000])];
  grouping_proof := Some (OperatorAttestedGrouping (lit "contract") (lit "attestation") zeros zeros);
  role_binding_proof := Some (OperatorAttestedBinding (lit "attestation") bindings
                                (role_binding_attestation_sha256 demo_digest bindings) zeros);
  settlement_rules := mkSettlementRules ExactlyOneWinner SettlementOperatorAttested [void_vector]
                        StandardRowsPlusAttestedVectors;
  freshness_source_id := lit "source"; metadata_fingerprint := [] |}.

Definition group (id : string) : OutcomeGroup Z :=
  let g := unsigned_group id in {|
  group_id := group_id g; source_client_id := source_client_id g; group_venue := group_venue g;
  source_kind := source_kind g; group_settlement_asset_id := group_settlement_asset_id g;
  terminal_states := terminal_states g; tradable_legs := tradable_legs g; payout_matrix := payout_matrix g;
  grouping_proof := grouping_proof g; role_binding_proof := role_binding_proof g;
  settlement_rules := settlement_rules g; freshness_source_id := freshness_source_id g;
  metadata_fingerprint := expected_metadata_fingerprint demo_digest g |}.

Lemma group_validates : validate_outcome_group demo_digest (group "a") = Some (Ok tt).
Proof. vm_compute. reflexivity. Qed.

Lemma sorted_keys {V} (m : BTreeMap text V) :
  Sorted (λ a b, ord_cmp a b = Lt) (bt_keys m) → bt_sorted m.
Proof. apply Sorted_StronglySorted. intros a b c. apply cmp_trans. Qed.

Lemma group_sorted id : group_maps (group id).
Proof. split_and!; apply sorted_keys; repeat constructor. Qed.

Lemma validated_group_sound_witness :
  validate_outcome_group demo_digest (group "a") = Some (Ok tt) ∧ validated_group demo_digest (group "a").
Proof.
  split; [apply group_validates|].
  destruct (validated_group_sound demo_digest (group "a") (group_sorted "a")) as (r & Hr & Hv).
  apply Hv. rewrite group_validates in Hr. congruence.
Defined.

(** Both payouts of the bound pair of [yes], in both standard states. *)
Lemma attested_pair_pays_one_witness :
  ∃ i j on_id unless_id, bound_legs (group "a") (lit "yes") on_id unless_id ∧
    matrix_cols (payout_matrix (group "a")) !! i = Some on_id ∧
    matrix_cols (payout_matrix (group "a")) !! j = Some unless_id ∧
    ∀ t tst row, (t, tst) ∈ terminal_states (group "a") → is_standard (terminal_kind tst) = true →
      bt_get (payout_per_unit_by_state (payout_matrix (group "a"))) t = Some row →
      ∃ p q, row !! i = Some p ∧ row !! j = Some q ∧ d_value p + d_value q = d_unit.
Proof.
  eapply (attested_pair_pays_one demo_digest (group "a")).
  - apply group_sorted.
  - apply group_validates.
  - reflexivity.
  - intros id row Hrow. apply bt_get_Some in Hrow; [|apply (group_sorted "a")].
    repeat (apply elem_of_cons in Hrow as [[= -> ->]|Hrow]; [repeat constructor; done|]). by apply elem_of_nil in Hrow.
  - do 2 right. left.
  - reflexivity.
Defined.

(** Two groups of one state and one leg that differ in their identifier only. *)
Definition small_group (id : string) : OutcomeGroup Z := {|
  group_id := lit id; source_client_id := lit "c"; group_venue := lit "V"; source_kind := Polymarket;
  group_settlement_asset_id := lit "U"; terminal_states := [(lit "y", mkTerminalState (lit "y") (lit "Y") Standard)];
  tradable_legs := [leg "l" "l" "Y" "Y" (PaysOnTerminalState (lit "y"))];
  payout_matrix := mkPayoutMatrix [lit "l"] [(lit "y", [1000000])];
  grouping_proof := Some (OperatorAttestedGrouping (lit "k") (lit "a") zeros zeros); role_binding_proof := None;
  settlement_rules := mkSettlementRules ExactlyOneWinner SettlementOperatorAttested [] StandardRowsPlusAttestedVectors;
  freshness_source_id := lit "s"; metadata_fingerprint := [] |}.

Lemma small_same_fields : settlement_identity_fields (small_group "a") = settlement_identity_fields (small_group "b").
Proof. reflexivity. Qed.

Lemma small_fields_ok id : fields_ok (settlement_identity_fields (small_group id)).
Proof. apply (bool_decide_unpack _). vm_compute. exact I. Qed.

Lemma small_sorted id : group_maps (small_group id).
Proof. split_and!; apply sorted_keys; repeat constructor. Qed.

Lemma same_identity_settles_alike_witness :
  small_group "a" ≠ small_group "b" ∧ settles_alike (small_group "a") (small_group "b").
Proof.
  split; [intros E; apply (f_equal group_id) in E; discriminate E|].
  eapply (same_identity_settles_alike demo_digest [small_group "a"; small_group "b"]).
  - vm_compute. reflexivity.
  - left.
  - right. left.
  - apply small_sorted.
  - apply small_sorted.
  - reflexivity.
  - reflexivity.
  - reflexivity.
  - apply small_fields_ok.
  - apply small_fields_ok.
  - intros _. apply (f_equal canonical_bytes), small_same_fields.
Defined.

End Demo.
