(* ===== verification/F64.v ===== *)
(** * Double-precision floats

    An [f64] is the Standard Library's [spec_float] at precision 53 and exponent bound
    1024 (IEEE 754 binary64, round to nearest even): an inductive type with executable
    operations and no axioms.  The second part models the guards the maker uses of
    [src/src/bolt_v3_numeric.rs]. *)

From Stdlib Require Import ZArith Lia SpecFloat.
From stdpp Require Import sorting strings gmap numbers list.
From S2P Require Import Prelude.

Open Scope Z_scope.

Abbreviation f64 := spec_float.

(** [m * 2^e], rounded to the nearest double. *)
Definition f64_of (m e : Z) : f64 := binary_normalize 53 1024 m e false.

Definition f64_add : f64 → f64 → f64 := SFadd 53 1024.
Definition f64_mul : f64 → f64 → f64 := SFmul 53 1024.
Definition f64_neg : f64 → f64 := SFopp.
Definition f64_sub : f64 → f64 → f64 := SFsub 53 1024.
Definition f64_div : f64 → f64 → f64 := SFdiv 53 1024.

(** [<], [<=], [>] and [>=] of [PartialOrd]: false as soon as one side is NaN. *)
Definition f64_lt (a b : f64) : bool := SFltb a b.
Definition f64_le (a b : f64) : bool := SFleb a b.
Definition f64_gt (a b : f64) : bool := SFltb b a.
Definition f64_ge (a b : f64) : bool := SFleb b a.
Definition f64_eq (a b : f64) : bool := SFeqb a b.
Definition f64_abs (a : f64) : f64 := SFabs a.

Definition is_finite (a : f64) : bool :=
  match a with
  | S754_zero _ | S754_finite _ _ _ => true
  | S754_infinity _ | S754_nan => false
  end.

(** ** [bolt_v3_numeric] *)

Definition ZERO_F64 : f64 := S754_zero false.
Definition UNIT_F64 : f64 := f64_of 1 0.
Definition TWO_F64 : f64 := f64_of 2 0.
Definition HALF_F64 : f64 := f64_div UNIT_F64 TWO_F64.

Definition is_positive_finite (value : f64) : bool := is_finite value && f64_gt value ZERO_F64.

Definition is_non_negative_finite (value : f64) : bool := is_finite value && f64_ge value ZERO_F64.

(** [(0.0..=1.0).contains(&value)]. *)
Definition sanitize_probability (value : f64) : option f64 :=
  if is_finite value && (f64_le ZERO_F64 value && f64_le value UNIT_F64) then Some value else None.

Definition sanitize_open_probability (value eps : f64) : option f64 :=
  if negb (is_finite value) || negb (is_finite eps) then None
  else if negb (f64_gt eps ZERO_F64 && f64_lt eps HALF_F64) then None
  else if f64_lt eps value && f64_lt value (f64_sub UNIT_F64 eps) then Some value
  else None.

(** The doubles nearest to 0.01, 0.40 and 0.55, as the source's literals denote. *)
Definition f64_ratio (a b : Z) : f64 := f64_div (f64_of a 0) (f64_of b 0).

Example half_is_half : HALF_F64 = f64_of 1 (-1).
Proof. by vm_compute. Qed.

Example sanitize_interior :
  sanitize_open_probability (f64_ratio 40 100) (f64_ratio 1 100) = Some (f64_ratio 40 100) ∧
  sanitize_open_probability (f64_ratio 1 100) (f64_ratio 1 100) = None ∧
  sanitize_open_probability S754_nan (f64_ratio 1 100) = None ∧
  sanitize_open_probability HALF_F64 HALF_F64 = None.
Proof. by vm_compute. Qed.

(** What is let through is the value itself, finite and above a positive collar. *)
Lemma sanitize_open_probability_Some value eps p :
  sanitize_open_probability value eps = Some p →
  p = value ∧ is_finite p = true ∧ is_finite eps = true ∧ f64_gt eps ZERO_F64 = true ∧
  f64_lt eps p = true ∧ f64_lt p (f64_sub UNIT_F64 eps) = true.
Proof.
  unfold sanitize_open_probability.
  destruct (is_finite value) eqn:Hv, (is_finite eps) eqn:He; cbn [negb orb andb]; try done.
  destruct (f64_gt eps ZERO_F64) eqn:Hz, (f64_lt eps HALF_F64); cbn [negb orb andb]; try done.
  destruct (f64_lt eps value) eqn:Hlo, (f64_lt value (f64_sub UNIT_F64 eps)) eqn:Hhi; cbn [negb orb andb]; try done.
  by intros [= <-].
Qed.
