(* ===== verification/PositionContract.v ===== *)
(** * The contract of a position

    [src/src/bolt_v3_position_contract.rs]: what is known of the market a position was
    taken in ([BoltV3PositionMarketLifecycle]) and the order and position sides that
    belong together.  Of an instrument, [recover_from_instrument] reads a context the
    market family derives; the context is an argument. *)

From Stdlib Require Import ZArith Lia.
From stdpp Require Import sorting strings gmap numbers list.
From S2P Require Import Prelude.
From S2P Require Import RustText.
From S2P Require Import NtTypes.
From S2P Require Import F64.

Open Scope Z_scope.

(** ** Sides of a position *)

Definition expected_position_side_for_entry_order (side : OrderSide) : option PositionSide :=
  match side with
  | OrderBuy => Some PositionLong
  | OrderSell => Some PositionShort
  | _ => None
  end.

Definition expected_exit_order_side_for_position (side : PositionSide) : option OrderSide :=
  match side with
  | PositionLong => Some OrderSell
  | PositionShort => Some OrderBuy
  | _ => None
  end.

Definition is_observed_open_side (side : PositionSide) : bool :=
  match side with PositionLong | PositionShort => true | _ => false end.

(** ** The market of a position *)

Inductive OutcomeSide : Type := OutcomeUp | OutcomeDown.

#[global] Instance OutcomeSide_eq_dec : EqDecision OutcomeSide.
Proof. solve_decision. Defined.

Definition MILLIS_PER_SECOND_U64 : Z := 1000.

(** [Option::or] and [Option::filter]. *)
Definition opt_or {A} (o p : option A) : option A := match o with Some _ => o | None => p end.
Definition opt_filter {A} (f : A → bool) (o : option A) : option A :=
  a ← o; if f a then Some a else None.

Record BoltV3PositionMarketLifecycle : Type := mkLifecycle {
  lc_market_id : option text;
  lc_outcome_side : option OutcomeSide;
  lc_strike_price : option f64;
  lc_interval_end_ms : option Z;
  lc_selection_published_at_ms : option Z;
  lc_seconds_to_expiry_at_selection : option Z;
}.

Implicit Types l : BoltV3PositionMarketLifecycle.

Definition lifecycle_missing : BoltV3PositionMarketLifecycle := mkLifecycle None None None None None None.

Definition from_entry_context (market_id : option text) (outcome_side : option OutcomeSide)
    (strike_price interval_open : option f64)
    (interval_end_ms selection_published_at_ms seconds_to_expiry_at_selection : option Z)
    : BoltV3PositionMarketLifecycle :=
  mkLifecycle market_id outcome_side (opt_filter is_positive_finite (opt_or strike_price interval_open))
    interval_end_ms selection_published_at_ms seconds_to_expiry_at_selection.

(** What the market family says of an instrument. *)
Record UpdownPositionInstrumentContext : Type := mkUpdownContext {
  context_market_id : text;
  context_side : OutcomeSide;
  context_activation_milliseconds : Z;
  context_expiration_milliseconds : option Z;
}.

Definition recover_from_instrument (context : option UpdownPositionInstrumentContext)
    : BoltV3PositionMarketLifecycle :=
  match context with
  | None => lifecycle_missing
  | Some context =>
      let interval_end := context_expiration_milliseconds context in
      let selection := Some (context_activation_milliseconds context) in
      mkLifecycle (Some (context_market_id context)) (Some (context_side context)) None interval_end selection
        (selection_ms ← selection; end_ms ← interval_end;
         duration ← u64_checked_sub end_ms selection_ms; Some (duration / MILLIS_PER_SECOND_U64))
  end.

Definition interval_end_ms_from_selection (selection_published_at_ms seconds_to_expiry : option Z) : option Z :=
  published ← selection_published_at_ms;
  seconds ← seconds_to_expiry;
  millis ← u64_checked_mul seconds MILLIS_PER_SECOND_U64;
  u64_checked_add published millis.

Definition settlement_strike l : option f64 := opt_filter is_positive_finite (lc_strike_price l).

Definition interval_end_ms l : option Z :=
  opt_or (lc_interval_end_ms l)
    (interval_end_ms_from_selection (lc_selection_published_at_ms l) (lc_seconds_to_expiry_at_selection l)).

Definition seconds_to_expiry_from_selection (selection_published_at_ms seconds_to_expiry : option Z) (now_ms : Z)
    : option Z :=
  published ← selection_published_at_ms;
  seconds ← seconds_to_expiry;
  Some (u64_saturating_sub seconds (u64_saturating_sub now_ms published / MILLIS_PER_SECOND_U64)).

Definition seconds_to_expiry_at l (now_ms : Z) : option Z :=
  opt_or (seconds_to_expiry_from_selection (lc_selection_published_at_ms l) (lc_seconds_to_expiry_at_selection l) now_ms)
    (end_ms ← interval_end_ms l; Some (u64_saturating_sub end_ms now_ms / MILLIS_PER_SECOND_U64)).

Definition interval_ended_at l (now_ms : Z) : bool :=
  match interval_end_ms l with Some end_ms => end_ms <=? now_ms | None => false end.

Definition matches_resolution_tick_ms l (resolution_ts_ms : Z) : bool :=
  bool_decide (interval_end_ms l = Some resolution_ts_ms).

Definition market_matches_or_missing l (market_id : option text) : bool :=
  match lc_market_id l with None => true | Some _ => bool_decide (lc_market_id l = market_id) end.

Definition interval_end_matches l (other : BoltV3PositionMarketLifecycle) : bool :=
  match interval_end_ms l, interval_end_ms other with
  | Some end_ms, Some other_end_ms => end_ms =? other_end_ms
  | _, _ => false
  end.

Definition fill_missing_from l (other : BoltV3PositionMarketLifecycle) : BoltV3PositionMarketLifecycle :=
  mkLifecycle (opt_or (lc_market_id l) (lc_market_id other))
    (opt_or (lc_outcome_side l) (lc_outcome_side other))
    (opt_or (lc_strike_price l) (lc_strike_price other))
    (opt_or (lc_interval_end_ms l) (lc_interval_end_ms other))
    (opt_or (lc_selection_published_at_ms l) (lc_selection_published_at_ms other))
    (opt_or (lc_seconds_to_expiry_at_selection l) (lc_seconds_to_expiry_at_selection other)).

Definition without_outcome_side l : BoltV3PositionMarketLifecycle :=
  mkLifecycle (lc_market_id l) None (lc_strike_price l) (lc_interval_end_ms l)
    (lc_selection_published_at_ms l) (lc_seconds_to_expiry_at_selection l).

(** ** Lemmas *)

Lemma opt_filter_Some {A} (f : A → bool) o a : opt_filter f o = Some a ↔ o = Some a ∧ f a = true.
Proof.
  destruct o as [b|]; cbn; [|by split; [|intros []]]. destruct (f b) eqn:Hb; split.
  - intros [= ->]. done.
  - by intros [[= ->] _].
  - done.
  - intros [[= ->] ?]. congruence.
Qed.

Lemma opt_or_again {A} (o p : option A) : opt_or (opt_or o p) p = opt_or o p.
Proof. by destruct o, p. Qed.

(** What is known of a market stays known when more is learnt, and learning it again
    changes nothing. *)
Lemma fill_missing_keeps l other :
  (∀ m, lc_market_id l = Some m → lc_market_id (fill_missing_from l other) = Some m) ∧
  (∀ s, lc_outcome_side l = Some s → lc_outcome_side (fill_missing_from l other) = Some s) ∧
  (∀ p, settlement_strike l = Some p → settlement_strike (fill_missing_from l other) = Some p) ∧
  fill_missing_from (fill_missing_from l other) other = fill_missing_from l other.
Proof.
  split_and!.
  - intros m Hm. cbn. by rewrite Hm.
  - intros s Hs. cbn. by rewrite Hs.
  - unfold settlement_strike. intros p [Hp Hf]%opt_filter_Some. apply opt_filter_Some. split; [cbn; by rewrite Hp|done].
  - unfold fill_missing_from. cbn. f_equal; apply opt_or_again.
Qed.

(** The test [position_market_lifecycle_derives_recovered_updown_context_and_predicates]. *)
Example recovered_lifecycle :
  let l := recover_from_instrument (Some (mkUpdownContext (lit "market-1") OutcomeUp 600000 (Some 900000))) in
  interval_end_ms l = Some 900000 ∧ seconds_to_expiry_at l 750000 = Some 150 ∧
  interval_ended_at l 899999 = false ∧ interval_ended_at l 900000 = true ∧
  matches_resolution_tick_ms l 900000 = true ∧ settlement_strike l = None.
Proof. by vm_compute. Qed.
