(* ===== verification/ExecutableCost.v ===== *)
(** * Executable cost

    [src/src/bolt_v3_executable_cost.rs]: the price of buying or selling a notional or a
    quantity against a visible book, level by level from the best price, within a limit
    of basis points from the touch.  Doubles are [F64]; a [BTreeMap<Price, f64>] is a
    sorted association list; the order and the value of an NT price are a class.

    The two sweeps of the code (one per side) differ in the iteration and in the
    comparison with the limit only; [sweep_notional] and [sweep_quantity] take both as
    arguments. *)

From Stdlib Require Import ZArith Lia SpecFloat.
From stdpp Require Import sorting strings gmap numbers list.
From S2P Require Import Prelude.
From S2P Require Import RustText.
From S2P Require Import BTree.
From S2P Require Import F64.
From S2P Require Import NtTypes.

Open Scope Z_scope.

(** [Price::cmp] and [Price::as_f64]. *)
Class BookPrice `{NtTypes} := {
  price_ord :: Ord Price;
  price_ord_laws :: OrdLaws Price;
  price_as_f64 : Price → f64;
}.

(** The value of a price grows with the price. *)
Class BookPriceLaws `{BookPrice} : Prop :=
  price_as_f64_mono a b : ord_cmp a b = Lt → f64_le (price_as_f64 a) (price_as_f64 b) = true.

(** ** Doubles *)

(** [f64::min]: a NaN gives way to the other side. *)
Definition f64_min (a b : f64) : f64 :=
  match a, b with
  | S754_nan, _ => b
  | _, S754_nan => a
  | _, _ => if f64_le a b then a else b
  end.

(** [value as f64] of an unsigned integer. *)
Definition u64_as_f64 (value : Z) : f64 := f64_of value 0.

Definition BPS_DENOMINATOR : f64 := f64_of 10000 0.
Definition CENTS_PER_SHARE : f64 := f64_of 100 0.
Definition F64_EPSILON : f64 := f64_of 1 (-52).
Definition NOTIONAL_FLOAT_TOLERANCE_EPSILON_MULTIPLIER : f64 := f64_of 10000 0.

Definition notional_float_tolerance (reference_notional : f64) : f64 :=
  f64_mul (f64_mul (f64_abs reference_notional) F64_EPSILON) NOTIONAL_FLOAT_TOLERANCE_EPSILON_MULTIPLIER.

(** ** Data *)

Inductive ExecutableCostBlockReason : Type :=
| MissingOrderBook
| InsufficientDepth
| InvalidCost
| UnsupportedOrderShape.

Record ExecutableFillLeg : Type := mkFill { fill_price : f64; fill_quantity : f64 }.

Record ExactSizeVwap : Type := mkVwap {
  vwap_price : f64;
  vwap_quantity : f64;
  vwap_limit_price : f64;
  exact_size_filled : bool;
  fill_legs : list ExecutableFillLeg;
  candidate_levels : list ExecutableFillLeg;
}.

Record ExecutableCostBreakdown : Type := mkBreakdown {
  cost_vwap_price : option f64;
  cost_vwap_quantity : option f64;
  cost_limit_price : option f64;
  cost_exact_size_filled : bool;
  gross_cost_cents : f64;
  slippage_buffer_cents : f64;
  total_adjusted_cost_cents : f64;
  cost_available : bool;
  cost_block_reason : option ExecutableCostBlockReason;
}.

(** [ExecutableCostBreakdown::blocked]. *)
Definition breakdown_blocked (reason : ExecutableCostBlockReason) : ExecutableCostBreakdown :=
  mkBreakdown None None None false ZERO_F64 ZERO_F64 ZERO_F64 false (Some reason).

Section Cost.
Context `{BookPrice}.

Record ExecutableBookQuote : Type := mkBook {
  best_bid : option f64;
  best_ask : option f64;
  bid_levels : BTreeMap Price f64;
  ask_levels : BTreeMap Price f64;
}.

(** The touch of a side, whether it buys, the levels in the order they are taken and the
    test that ends the sweep. *)
Definition side_touch (book : ExecutableBookQuote) (side : OrderSide)
    : Result (option f64 * bool) ExecutableCostBlockReason :=
  match side with
  | OrderBuy => Ok (best_ask book, true)
  | OrderSell => Ok (best_bid book, false)
  | _ => Err UnsupportedOrderShape
  end.

Definition side_levels (book : ExecutableBookQuote) (side : OrderSide) : list (Price * f64) :=
  match side with
  | OrderBuy => ask_levels book
  | OrderSell => reverse (bid_levels book)
  | _ => []
  end.

Definition beyond (is_buy : bool) (allowed price : f64) : bool :=
  if is_buy then f64_gt price allowed else f64_lt price allowed.

Definition allowed_price (is_buy : bool) (best_touch depth_limit : f64) : f64 :=
  if is_buy then f64_mul best_touch (f64_add UNIT_F64 depth_limit)
  else f64_mul best_touch (f64_sub UNIT_F64 depth_limit).

(** The common opening of both pricings: the side and the worst price it may reach. *)
Definition price_limit (book : ExecutableBookQuote) (side : OrderSide) (vwap_depth_limit_bps : Z)
    : Result (bool * f64) ExecutableCostBlockReason :=
  let depth_limit := f64_div (u64_as_f64 vwap_depth_limit_bps) BPS_DENOMINATOR in
  touch ←? side_touch book side;
  best_touch ←? ok_or (v ← touch.1; if is_positive_finite v then Some v else None) MissingOrderBook;
  let allowed := allowed_price touch.2 best_touch depth_limit in
  ensure (is_positive_finite allowed) InvalidCost;;?
  Ok (touch.2, allowed).

(** ** A notional *)

Record NotionalSweep : Type := mkNotionalSweep {
  ns_remaining : f64;
  ns_quantity : f64;
  ns_notional : f64;
  ns_limit : option f64;
  ns_fills : list ExecutableFillLeg;
  ns_candidates : list ExecutableFillLeg;
}.

(** [consume_exact_notional_level]: the remaining notional and the filled totals after a level. *)
Definition consume_exact_notional_level (price size remaining quantity notional : f64)
    : Result (f64 * f64 * f64) ExecutableCostBlockReason :=
  if f64_le remaining ZERO_F64 then Ok (remaining, quantity, notional)
  else if negb (is_positive_finite price) || negb (is_positive_finite size) then Err InvalidCost
  else
    let level_notional := f64_mul price size in
    if negb (is_positive_finite level_notional) then Err InvalidCost
    else
      let take_notional := f64_min remaining level_notional in
      let take_quantity := f64_div take_notional price in
      Ok (f64_sub remaining take_notional, f64_add quantity take_quantity, f64_add notional take_notional).

Fixpoint sweep_notional (stop : f64 → bool) (levels : list (Price * f64)) (s : NotionalSweep)
    : Result NotionalSweep ExecutableCostBlockReason :=
  match levels with
  | [] => Ok s
  | (p, size) :: levels =>
      let price := price_as_f64 p in
      if stop price then Ok s
      else
        next ←? consume_exact_notional_level price size (ns_remaining s) (ns_quantity s) (ns_notional s);
        let '(remaining, quantity, notional) := next in
        let s' :=
          if f64_lt remaining (ns_remaining s)
          then mkNotionalSweep remaining quantity notional (Some price)
                 (ns_fills s ++ [mkFill price (f64_sub quantity (ns_quantity s))])
                 (ns_candidates s ++ [mkFill price size])
          else mkNotionalSweep remaining quantity notional (ns_limit s) (ns_fills s) (ns_candidates s) in
        if f64_le remaining ZERO_F64 then Ok s' else sweep_notional stop levels s'
  end.

Definition price_exact_size_vwap (book : ExecutableBookQuote) (side : OrderSide)
    (edge_pricing_notional : f64) (vwap_depth_limit_bps : Z) : Result ExactSizeVwap ExecutableCostBlockReason :=
  ensure (is_positive_finite edge_pricing_notional) InvalidCost;;?
  limit ←? price_limit book side vwap_depth_limit_bps;
  let '(is_buy, allowed_vwap) := limit in
  s ←? sweep_notional (beyond is_buy allowed_vwap) (side_levels book side)
         (mkNotionalSweep edge_pricing_notional ZERO_F64 ZERO_F64 None [] []);
  ensure (negb (f64_gt (ns_remaining s) (notional_float_tolerance edge_pricing_notional)
                || negb (is_positive_finite (ns_quantity s)))) InsufficientDepth;;?
  let price := f64_div (ns_notional s) (ns_quantity s) in
  ensure (is_positive_finite price) InvalidCost;;?
  limit_price ←? ok_or (v ← ns_limit s; if is_positive_finite v then Some v else None) InvalidCost;
  ensure (if is_buy then f64_le price allowed_vwap && f64_le limit_price allowed_vwap
          else f64_ge price allowed_vwap && f64_ge limit_price allowed_vwap) InsufficientDepth;;?
  Ok (mkVwap price (ns_quantity s) limit_price true (ns_fills s) (ns_candidates s)).

(** ** A quantity *)

Record QuantitySweep : Type := mkQuantitySweep {
  qs_remaining : f64;
  qs_quantity : f64;
  qs_notional : f64;
  qs_fills : list ExecutableFillLeg;
  qs_candidates : list ExecutableFillLeg;
}.

(** [consume_quantity_level] and the candidate the loop pushes after it. *)
Definition consume_quantity_level (price available : f64) (s : QuantitySweep)
    : Result QuantitySweep ExecutableCostBlockReason :=
  if negb (is_positive_finite price) || negb (is_positive_finite available) then Err InvalidCost
  else
    let quantity := f64_min (qs_remaining s) available in
    let notional := f64_mul price quantity in
    if negb (is_positive_finite quantity) || negb (is_positive_finite notional) then Err InvalidCost
    else Ok (mkQuantitySweep (f64_sub (qs_remaining s) quantity) (f64_add (qs_quantity s) quantity)
               (f64_add (qs_notional s) notional) (qs_fills s ++ [mkFill price quantity])
               (qs_candidates s ++ [mkFill price available])).

Fixpoint sweep_quantity (stop : f64 → bool) (levels : list (Price * f64)) (s : QuantitySweep)
    : Result QuantitySweep ExecutableCostBlockReason :=
  match levels with
  | [] => Ok s
  | (p, available) :: levels =>
      if stop (price_as_f64 p) then Ok s
      else
        s ←? consume_quantity_level (price_as_f64 p) available s;
        if f64_le (qs_remaining s) ZERO_F64 then Ok s else sweep_quantity stop levels s
  end.

Definition price_bounded_quantity_vwap (book : ExecutableBookQuote) (side : OrderSide)
    (requested_quantity : f64) (vwap_depth_limit_bps : Z) : Result ExactSizeVwap ExecutableCostBlockReason :=
  ensure (is_positive_finite requested_quantity) InvalidCost;;?
  limit ←? price_limit book side vwap_depth_limit_bps;
  let '(is_buy, allowed_limit) := limit in
  s ←? sweep_quantity (beyond is_buy allowed_limit) (side_levels book side)
         (mkQuantitySweep requested_quantity ZERO_F64 ZERO_F64 [] []);
  let filled_exactly := f64_le (qs_remaining s) (notional_float_tolerance requested_quantity) in
  ensure (is_positive_finite (qs_quantity s)) InsufficientDepth;;?
  let price := f64_div (qs_notional s) (qs_quantity s) in
  limit_price ←? ok_or (v ← fill_price <$> last (qs_fills s); if is_positive_finite v then Some v else None) InvalidCost;
  ensure (is_positive_finite price) InvalidCost;;?
  Ok (mkVwap price (qs_quantity s) limit_price filled_exactly (qs_fills s) (qs_candidates s)).

Definition compile_bounded_risk_reducing_ioc := price_bounded_quantity_vwap.

Definition executable_cost_breakdown (vwap : ExactSizeVwap) (slippage_buffer_bps : Z)
    : Result ExecutableCostBreakdown ExecutableCostBlockReason :=
  let gross := f64_mul (vwap_price vwap) CENTS_PER_SHARE in
  let buffer := f64_div (f64_mul gross (u64_as_f64 slippage_buffer_bps)) BPS_DENOMINATOR in
  let total := f64_add gross buffer in
  if negb (is_positive_finite gross) || negb (is_positive_finite total) then Err InvalidCost
  else Ok (mkBreakdown (Some (vwap_price vwap)) (Some (vwap_quantity vwap)) (Some (vwap_limit_price vwap))
             (exact_size_filled vwap) gross buffer total true None).

End Cost.
