(* ===== verification/ExecutableCostFacts.v ===== *)
(** * Executable cost: what a sweep takes

    A bounded quantity takes the visible levels from the best price on: a prefix of the
    book, every level but the last in full, nothing past the limit, and everything within
    the limit unless the request is filled.  A notional takes levels in the same order,
    within the limit, and reports the last one it used.  The facts on doubles are exact
    ([x - x] is zero, [min] is one of its arguments); no rounding is assumed away. *)

From Stdlib Require Import ZArith Lia SpecFloat.
From stdpp Require Import sorting strings gmap numbers list.
From S2P Require Import Prelude.
From S2P Require Import RustText.
From S2P Require Import BTree.
From S2P Require Import F64.
From S2P Require Import NtTypes.
From S2P Require Import ExecutableCost.

Open Scope Z_scope.

(** ** Doubles *)

Lemma f64_sub_self x : is_finite x = true → f64_sub x x = ZERO_F64.
Proof.
  destruct x as [s| | |s m e]; try done; intros _; unfold f64_sub.
  - by destruct s.
  - cbn [SFsub]. rewrite Z.min_id. unfold shl_align. by rewrite Z.sub_diag.
Qed.

Lemma positive_finite_is_finite x : is_positive_finite x = true → is_finite x = true.
Proof. unfold is_positive_finite. by intros [? _]%andb_true_iff. Qed.

Lemma f64_le_refl x : is_finite x = true → f64_le x x = true.
Proof.
  destruct x as [s| | |s m e]; try done; intros _; unfold f64_le, SFleb; simpl; try done.
  rewrite Z.compare_refl. change (Pos.compare_cont Eq m m) with (Pos.compare m m). rewrite Pos.compare_refl. by destruct s.
Qed.

(** Not negative and not NaN. *)
Definition f64_nonneg (x : f64) : Prop :=
  match x with S754_zero _ | S754_finite false _ _ | S754_infinity false => True | _ => False end.

Lemma f64_le_zero_nonneg x t : f64_le x ZERO_F64 = true → f64_nonneg t → f64_le x t = true.
Proof. by destruct x as [?|[]| |[]], t as [?|[]| |[]]. Qed.

(** [min] is one of its arguments, and no more than the second. *)
Lemma f64_min_cases a b :
  is_finite b = true → (f64_min a b = a ∨ f64_min a b = b) ∧ f64_le (f64_min a b) b = true.
Proof.
  intros Hb. assert (Hr := f64_le_refl b Hb). unfold f64_min.
  destruct a as [?|?| |?], b as [?|?| |?]; try done; try (split; [by right|done]);
    match goal with |- context [if f64_le ?x ?y then _ else _] => destruct (f64_le x y) eqn:E end;
    rewrite ?E; auto.
Qed.

(** *** A product of positive doubles is not negative *)

Lemma shr_1_nonneg mrs : 0 ≤ shr_m mrs → 0 ≤ shr_m (shr_1 mrs).
Proof. destruct mrs as [[|[p|p|]|p] r s]; simpl; lia. Qed.

Lemma iter_pos_nonneg n mrs : 0 ≤ shr_m mrs → 0 ≤ shr_m (SpecFloat.iter_pos shr_1 n mrs).
Proof.
  revert mrs. induction n as [n IH|n IH|]; intros mrs Hm; simpl; [apply IH, IH, shr_1_nonneg|apply IH, IH|apply shr_1_nonneg]; done.
Qed.

Lemma shr_nonneg mrs e n : 0 ≤ shr_m mrs → 0 ≤ shr_m (shr mrs e n).1.
Proof. intros Hm. destruct n; simpl; try done. by apply iter_pos_nonneg. Qed.

Lemma shr_fexp_nonneg m e l : 0 ≤ m → 0 ≤ shr_m (shr_fexp 53 1024 m e l).1.
Proof. intros Hm. apply shr_nonneg. by destruct l as [|[]]. Qed.

Lemma round_nearest_even_nonneg m l : 0 ≤ m → 0 ≤ round_nearest_even m l.
Proof. destruct l as [|[]]; simpl; try lia. destruct (Z.even m); lia. Qed.

Lemma round_aux_nonneg m e l : 0 ≤ m → f64_nonneg (binary_round_aux 53 1024 false m e l).
Proof.
  intros Hm. unfold binary_round_aux. pose proof (shr_fexp_nonneg m e l Hm) as H1.
  destruct (shr_fexp 53 1024 m e l) as [mrs' e']. simpl in H1.
  pose proof (shr_fexp_nonneg _ e' loc_Exact (round_nearest_even_nonneg _ (loc_of_shr_record mrs') H1)) as H2.
  destruct (shr_fexp _ _ (round_nearest_even _ _) _ _) as [mrs'' e'']. simpl in H2.
  destruct (shr_m mrs''); [done| |lia]. by destruct (_ <=? _).
Qed.

Lemma f64_mul_nonneg x m e : f64_nonneg x → f64_nonneg (f64_mul x (S754_finite false m e)).
Proof. destruct x as [[]|[]| |[]]; try done. intros _. by apply round_aux_nonneg. Qed.

Lemma tolerance_nonneg x : is_positive_finite x = true → f64_nonneg (notional_float_tolerance x).
Proof.
  intros Hx. unfold notional_float_tolerance.
  change F64_EPSILON with (S754_finite false 4503599627370496 (-104)).
  change NOTIONAL_FLOAT_TOLERANCE_EPSILON_MULTIPLIER with (S754_finite false 5497558138880000 (-39)).
  apply f64_mul_nonneg, f64_mul_nonneg. by destruct x as [|[]| |[]].
Qed.

(** ** A bounded quantity *)

Section Sweeps.
Context `{BookPrice}.

Definition level_leg (l : Price * f64) : ExecutableFillLeg := mkFill (price_as_f64 l.1) l.2.

(** Fills of the levels taken: at their prices, no more than each shows, and all of every
    level but the last. *)
Record takes (fills : list ExecutableFillLeg) (taken : list (Price * f64)) : Prop := {
  takes_each : Forall2 (λ f l, fill_price f = price_as_f64 l.1 ∧ f64_le (fill_quantity f) l.2 = true) fills taken;
  takes_whole i f l : fills !! i = Some f → taken !! i = Some l → (S i < length taken)%nat → fill_quantity f = l.2;
}.

Lemma takes_nil : takes [] [].
Proof. split; [constructor|by intros i f l]. Qed.

Lemma takes_one price f l :
  fill_price f = price_as_f64 (price, l).1 → f64_le (fill_quantity f) l = true → takes [f] [(price, l)].
Proof. intros Hp Hq. split; [by repeat constructor|]. intros i f' l' _ _ Hi. simpl in Hi. lia. Qed.

Lemma takes_cons f fills l taken :
  fill_price f = price_as_f64 l.1 → f64_le (fill_quantity f) l.2 = true → fill_quantity f = l.2 →
  takes fills taken → takes (f :: fills) (l :: taken).
Proof.
  intros Hp Hq Hw [He Hwh]. split; [by constructor|].
  intros [|i] f' l' Hf Hl Hi; simplify_eq/=; [done|]. eapply Hwh; [done..|lia].
Qed.

Lemma takes_last fills taken : takes fills taken → price_as_f64 ∘ fst <$> last taken = fill_price <$> last fills.
Proof.
  intros [He _]. apply Forall2_reverse in He. rewrite <- !head_reverse.
  destruct He as [|f l ? ? [Hp _] _]; [done|]. simpl. by rewrite Hp.
Qed.

(** A level is taken whole, or what remained is taken and nothing remains. *)
Lemma consume_quantity_Ok price available s s' :
  consume_quantity_level price available s = Ok s' →
  ∃ f, qs_fills s' = qs_fills s ++ [f] ∧ qs_candidates s' = qs_candidates s ++ [mkFill price available] ∧
    fill_price f = price ∧ f64_le (fill_quantity f) available = true ∧
    (fill_quantity f = available ∨ qs_remaining s' = ZERO_F64).
Proof.
  unfold consume_quantity_level. destruct (is_positive_finite price); [|done].
  destruct (is_positive_finite available) eqn:Ha; [|done]. cbn [negb orb].
  destruct (is_positive_finite (f64_min _ _)) eqn:Hq; [|done]. cbn [negb orb].
  destruct (is_positive_finite (f64_mul _ _)); [|done]. intros [= <-].
  apply positive_finite_is_finite in Ha, Hq. destruct (f64_min_cases (qs_remaining s) available Ha) as [Hm Hle].
  exists (mkFill price (f64_min (qs_remaining s) available)). simpl. split_and!; try done.
  destruct Hm as [Hm|Hm]; [right|by left]. rewrite Hm in Hq |- *. by apply f64_sub_self.
Qed.

(** Where a sweep ends: with nothing remaining, at the end of the book or at a level past
    the limit. *)
Definition sweep_ends (stop : f64 → bool) (remaining : f64) (rest : list (Price * f64)) : Prop :=
  f64_le remaining ZERO_F64 = true ∨ rest = [] ∨ ∃ l rest', rest = l :: rest' ∧ stop (price_as_f64 l.1) = true.

Lemma sweep_quantity_Ok stop levels s s' :
  sweep_quantity stop levels s = Ok s' →
  ∃ taken rest fills, levels = taken ++ rest ∧
    qs_candidates s' = qs_candidates s ++ (level_leg <$> taken) ∧ qs_fills s' = qs_fills s ++ fills ∧
    takes fills taken ∧ Forall (λ l, stop (price_as_f64 l.1) = false) taken ∧
    sweep_ends stop (qs_remaining s') rest.
Proof.
  revert s. induction levels as [|[p available] levels IH]; intros s Hs; cbn [sweep_quantity] in Hs.
  { injection Hs as <-. exists [], [], []. rewrite !app_nil_r. split_and!; [done..|apply takes_nil|done|by right; left]. }
  destruct (stop (price_as_f64 p)) eqn:Hstop.
  { injection Hs as <-. exists [], ((p, available) :: levels), []. rewrite !app_nil_r.
    split_and!; [done..|apply takes_nil|done|right; right; eauto]. }
  apply result_bind_Ok in Hs as (s1 & Hc & Hs). apply consume_quantity_Ok in Hc as (f & Hf & Hcand & Hp & Hle & Hq).
  destruct (f64_le (qs_remaining s1) ZERO_F64) eqn:Hz.
  { injection Hs as <-. exists [(p, available)], levels, [f]. split_and!; [done|done|done|by apply takes_one|by constructor|by left]. }
  destruct (IH _ Hs) as (taken & rest & fills & -> & Hc & Hfs & Ht & Hall & Hend).
  exists ((p, available) :: taken), rest, (f :: fills). rewrite Hc, Hfs, Hcand, Hf, <- !app_assoc.
  split_and!; [done|done|done| |by constructor|done].
  apply takes_cons; [done|done| |done]. destruct Hq as [Hq|Hq]; [done|]. by rewrite Hq in Hz.
Qed.

(** C26: A risk-reducing order takes the book from the best price on: the levels it uses are
    a prefix of the side of the book, every one of them but the last is taken whole and the
    last no further than it shows, none lies past the limit in basis points from the touch,
    the reported limit price is the price of the last level, and an order reported as not
    filled in full took every level within the limit. *)
Theorem bounded_ioc_takes_book book side quantity bps v :
  compile_bounded_risk_reducing_ioc book side quantity bps = Ok v →
  ∃ is_buy allowed taken rest, price_limit book side bps = Ok (is_buy, allowed) ∧
    side_levels book side = taken ++ rest ∧
    candidate_levels v = level_leg <$> taken ∧ takes (fill_legs v) taken ∧
    Forall (λ l, beyond is_buy allowed (price_as_f64 l.1) = false) taken ∧
    (fill_price <$> last (fill_legs v) = Some (vwap_limit_price v)) ∧
    (price_as_f64 ∘ fst <$> last taken = Some (vwap_limit_price v)) ∧
    (exact_size_filled v = false →
     rest = [] ∨ ∃ l rest', rest = l :: rest' ∧ beyond is_buy allowed (price_as_f64 l.1) = true).
Proof.
  unfold compile_bounded_risk_reducing_ioc, price_bounded_quantity_vwap. intros Hv.
  apply result_bind_Ok in Hv as (u & Hreq & Hv). apply ensure_Ok in Hreq.
  apply result_bind_Ok in Hv as ([is_buy allowed] & Hlim & Hv).
  apply result_bind_Ok in Hv as (s & Hs & Hv). apply result_bind_Ok in Hv as (u1 & _ & Hv).
  apply result_bind_Ok in Hv as (lp & Hlp & Hv). apply ok_or_Ok in Hlp.
  apply result_bind_Ok in Hv as (u2 & _ & Hv). injection Hv as <-. cbn [candidate_levels fill_legs vwap_limit_price exact_size_filled].
  destruct (sweep_quantity_Ok _ _ _ _ Hs) as (taken & rest & fills & Hlev & Hc & Hf & Ht & Hall & Hend).
  cbn [qs_candidates qs_fills app] in Hc, Hf. rewrite Hf, Hc in *.
  assert (fill_price <$> last fills = Some lp) as Hlast.
  { destruct (fill_price <$> last fills) as [x|]; [|done]. cbn [mbind option_bind] in Hlp.
    by destruct (is_positive_finite x). }
  exists is_buy, allowed, taken, rest. split_and!; try done.
  - rewrite <- Hlast. apply takes_last, Ht.
  - intros Hex. destruct Hend as [Hz|Hend]; [|done].
    pose proof (f64_le_zero_nonneg _ _ Hz (tolerance_nonneg _ Hreq)). congruence.
Qed.

(** ** An exact notional *)

(** The fills and the candidates of a sweep name the same levels of the book, in order. *)
Lemma sweep_notional_Ok stop levels s s' :
  sweep_notional stop levels s = Ok s' →
  ∃ used fills, used `sublist_of` levels ∧
    ns_candidates s' = ns_candidates s ++ (level_leg <$> used) ∧ ns_fills s' = ns_fills s ++ fills ∧
    fill_price <$> fills = price_as_f64 ∘ fst <$> used ∧
    Forall (λ l, stop (price_as_f64 l.1) = false) used ∧
    ns_limit s' = match last used with Some l => Some (price_as_f64 l.1) | None => ns_limit s end.
Proof.
  revert s. induction levels as [|[p size] levels IH]; intros s Hs; cbn [sweep_notional] in Hs.
  { injection Hs as <-. exists [], []. by rewrite !app_nil_r. }
  destruct (stop (price_as_f64 p)) eqn:Hstop.
  { injection Hs as <-. exists [], []. rewrite !app_nil_r. split_and!; [apply sublist_nil_l|done..]. }
  apply result_bind_Ok in Hs as ([[remaining quantity] notional] & _ & Hs).
  destruct (f64_lt remaining (ns_remaining s)).
  - set (f := mkFill _ _) in Hs. destruct (f64_le remaining ZERO_F64).
    + injection Hs as <-. exists [(p, size)], [f].
      split_and!; [apply sublist_skip, sublist_nil_l|done|done|done|by constructor|done].
    + destruct (IH _ Hs) as (used & fills & Hsub & Hc & Hf & Hp & Hall & Hl).
      exists ((p, size) :: used), (f :: fills). rewrite Hc, Hf. cbn [ns_candidates ns_fills]. rewrite <- !app_assoc.
      split_and!; [by apply sublist_skip|done|done|by csimpl; rewrite Hp|by constructor|].
      rewrite Hl, last_cons. by destruct (last used).
  - destruct (f64_le remaining ZERO_F64).
    + injection Hs as <-. exists [], []. rewrite !app_nil_r. split_and!; [apply sublist_nil_l|done..].
    + destruct (IH _ Hs) as (used & fills & Hsub & Hc & Hf & Hp & Hall & Hl).
      exists used, fills. split_and!; [by apply sublist_cons|done..].
Qed.

(** A priced notional uses levels of the book in order and within the limit; its average
    price and its limit price, that of the last level used, are within the limit too. *)
Lemma exact_size_vwap_within_limit book side notional bps v :
  price_exact_size_vwap book side notional bps = Ok v →
  ∃ is_buy allowed used, price_limit book side bps = Ok (is_buy, allowed) ∧
    used `sublist_of` side_levels book side ∧ candidate_levels v = level_leg <$> used ∧
    fill_price <$> fill_legs v = price_as_f64 ∘ fst <$> used ∧
    Forall (λ l, beyond is_buy allowed (price_as_f64 l.1) = false) used ∧
    price_as_f64 ∘ fst <$> last used = Some (vwap_limit_price v) ∧
    (if is_buy then f64_le (vwap_price v) allowed else f64_ge (vwap_price v) allowed) = true ∧
    is_positive_finite (vwap_price v) = true ∧ is_positive_finite (vwap_quantity v) = true.
Proof.
  unfold price_exact_size_vwap. intros Hv.
  apply result_bind_Ok in Hv as (u & _ & Hv). apply result_bind_Ok in Hv as ([is_buy allowed] & Hlim & Hv).
  apply result_bind_Ok in Hv as (s & Hs & Hv). apply result_bind_Ok in Hv as (u1 & Hrem & Hv). apply ensure_Ok in Hrem.
  apply result_bind_Ok in Hv as (u2 & Hp & Hv). apply ensure_Ok in Hp.
  apply result_bind_Ok in Hv as (lp & Hlp & Hv). apply ok_or_Ok in Hlp.
  apply result_bind_Ok in Hv as (u3 & Hw & Hv). apply ensure_Ok in Hw. injection Hv as <-.
  cbn [candidate_levels fill_legs vwap_limit_price vwap_price vwap_quantity].
  destruct (sweep_notional_Ok _ _ _ _ Hs) as (used & fills & Hsub & Hc & Hf & Hfp & Hall & Hl).
  cbn [ns_candidates ns_fills ns_limit app] in Hc, Hf, Hl. rewrite Hf, Hc, Hl in *.
  exists is_buy, allowed, used. split_and!; try done.
  - destruct (last used) as [l|]; [|done]. cbn [mbind option_bind] in Hlp.
    destruct (is_positive_finite (price_as_f64 l.1)); [|done]. by injection Hlp as <-.
  - destruct is_buy; by apply andb_true_iff in Hw as [? _].
  - apply negb_true_iff, orb_false_iff in Hrem as [_ Hq]. by apply negb_false_iff.
Qed.

End Sweeps.

(** ** A concrete book: asks 0.50 x 5, 0.55 x 10, 0.70 x 100 *)

Module CostDemo.
#[local] Instance nt : NtTypes := demo_nt.

#[local] Instance cents : BookPrice := {|
  price_ord := ord_Z; price_ord_laws := ord_Z_laws; price_as_f64 := λ p, f64_div (f64_of p 0) (f64_of 100 0) |}.

Definition five : f64 := f64_of 5 0.
Definition book : ExecutableBookQuote :=
  mkBook None (Some (f64_div (f64_of 50 0) (f64_of 100 0))) []
    [(50, five); (55, f64_of 10 0); (70, f64_of 100 0)].

(** Twelve units within twenty per cent of the touch: the first level whole, seven of the second. *)
Definition twelve : Result ExactSizeVwap ExecutableCostBlockReason :=
  compile_bounded_risk_reducing_ioc book OrderBuy (f64_of 12 0) 2000.

Lemma bounded_ioc_takes_book_witness :
  ∃ v, twelve = Ok v ∧ exact_size_filled v = true ∧ fill_quantity <$> fill_legs v = [five; f64_of 7 0] ∧
  ∃ is_buy allowed taken rest, price_limit book OrderBuy 2000 = Ok (is_buy, allowed) ∧
    side_levels book OrderBuy = taken ++ rest ∧ takes (fill_legs v) taken.
Proof.
  eexists. split; [vm_compute; reflexivity|]. split; [reflexivity|]. split; [vm_compute; reflexivity|].
  edestruct (bounded_ioc_takes_book book OrderBuy (f64_of 12 0) 2000) as (b & a & t & r & Hl & Hs & _ & Ht & _).
  - vm_compute. reflexivity.
  - exists b, a, t, r. split; [exact Hl|]. split; [exact Hs|exact Ht].
Defined.

(** Two hundred units are not available within the limit: what is there is taken, and the
    result says so. *)
Example partly_filled :
  exact_size_filled <$> (match compile_bounded_risk_reducing_ioc book OrderBuy (f64_of 200 0) 2000 with
                         | Ok v => Some v | Err _ => None end) = Some false.
Proof. vm_compute. reflexivity. Qed.
End CostDemo.
