(* ===== verification/GroupScanner.v ===== *)
(** * The scanner of outcome groups

    [src/src/bolt_v3_outcome_group_scanner.rs]: a candidate basket of legs is priced
    against the books of its instruments, and is admissible when its smallest payout over
    the terminal states exceeds its cost by the edge asked for.  The freshness test is
    [outcome_group_observation_is_fresh] of [src/src/bolt_v3_outcome_group_sources.rs].

    An order of an NT book is its price and its size as a double.  Conversions between
    decimals and doubles, rounding and the fractional part are a class.  A division that
    overflows is a panic ([None]). *)

From Stdlib Require Import ZArith Lia SpecFloat.
From stdpp Require Import sorting strings gmap numbers list.
From S2P Require Import Prelude.
From S2P Require Import RustText.
From S2P Require Import BTree.
From S2P Require Import F64.
From S2P Require Import NtTypes.
From S2P Require Import DecimalAmount.
From S2P Require Import OutcomeGroups.
From S2P Require Import ExecutableCost.

Open Scope Z_scope.

(** What the scanner uses of [Decimal] beside its arithmetic. *)
Class DecimalF64 (D : Type) := {
  d_to_f64 : D → option f64;        (* to_f64 *)
  d_from_f64 : f64 → option D;      (* Decimal::from_f64 *)
  d_round_dp : Z → D → D;           (* round_dp *)
  d_fract : D → D;                  (* fract *)
  d_from_u64 : Z → D;               (* Decimal::from *)
}.

Definition DECIMAL_F64_ROUND_DP : Z := 12.
(** [outcome_group_observation_is_fresh]. *)
Definition outcome_group_observation_is_fresh (now_unix_ms observed_unix_ms max_age_ms : Z)
    (max_clock_skew_ms : option Z) : bool :=
  if now_unix_ms <? observed_unix_ms then
    match max_clock_skew_ms with
    | Some skew => observed_unix_ms - now_unix_ms <=? skew
    | None => false
    end
  else now_unix_ms - observed_unix_ms <=? max_age_ms.

Inductive OutcomeGroupDepthAdapterError : Type := EmptyBook.

Inductive OutcomeGroupScanBlockReason : Type :=
| ScanMissingBook
| ScanMissingBookTimestamp
| ScanStaleBook
| ScanInsufficientDepth
| ScanInvalidCost
| ScanInvalidPriceScale
| ScanMinQuantity
| ScanMinNotional
| ScanQuantityStep
| ScanNonPositiveEdge
| ScanEdgeThreshold
| ScanUnknownLeg
| ScanIncompleteCandidate
| ScanUnsupportedOrderSide.

Definition validation_block_reason (e : OutcomeGroupValidationError) : OutcomeGroupScanBlockReason :=
  match e with
  | InvalidNormalizedPriceScaleEvidence => ScanInvalidPriceScale
  | InvalidOrderConstraintFloor _ => ScanMinQuantity
  | _ => ScanInvalidCost
  end.

Definition scan_reason_from_cost (r : ExecutableCostBlockReason) : OutcomeGroupScanBlockReason :=
  match r with
  | MissingOrderBook => ScanMissingBook
  | InsufficientDepth => ScanInsufficientDepth
  | InvalidCost => ScanInvalidCost
  | UnsupportedOrderShape => ScanUnsupportedOrderSide
  end.

(** [map_err]. *)
Definition map_err {A E F} (f : E → F) (r : Result A E) : Result A F :=
  match r with Ok a => Ok a | Err e => Err (f e) end.

Section Scanner.
Context {D : Type} `{DecimalOps D} `{DecimalSigns D} `{DecimalText D} `{DecimalNormalize D} `{DecimalF64 D}.
Context {NT : NtTypes} {BP : BookPrice} {IT : InstrumentText}.
Context (sha256_hex : bytes → text).

(** ** Depth snapshots *)

Record OutcomeGroupDepthSnapshot : Type := mkDepth {
  depth_instrument_id : InstrumentId;
  depth_observed_unix_ms : option Z;
  depth_best_bid : option f64;
  depth_best_ask : option f64;
  depth_bid_levels : BTreeMap Price f64;
  depth_ask_levels : BTreeMap Price f64;
}.

Definition insert_level (levels : BTreeMap Price f64) (order : Price * f64) : BTreeMap Price f64 :=
  let size := order.2 in
  if negb (is_non_negative_finite size) || f64_le size ZERO_F64 then levels
  else bt_upsert (λ current, f64_add current size) levels order.1 size.

Definition level_map (orders : list (Price * f64)) : BTreeMap Price f64 := foldl insert_level [] orders.

Definition depth_from_maps (instrument : InstrumentId) (observed : option Z) (bids asks : BTreeMap Price f64)
    : Result OutcomeGroupDepthSnapshot OutcomeGroupDepthAdapterError :=
  let best_bid := price_as_f64 ∘ fst <$> last bids in
  let best_ask := price_as_f64 ∘ fst <$> head asks in
  match best_bid, best_ask with
  | None, None => Err EmptyBook
  | _, _ => Ok (mkDepth instrument observed best_bid best_ask bids asks)
  end.

(** [from_depth10] and [from_order_book]: a time in nanoseconds and the orders of a side. *)
Definition depth_from_orders (instrument : InstrumentId) (ts_ns : Z) (bids asks : list (Price * f64))
    : Result OutcomeGroupDepthSnapshot OutcomeGroupDepthAdapterError :=
  depth_from_maps instrument (Some (ts_ns / NANOS_PER_MILLI_U64)) (level_map bids) (level_map asks).

Definition depth_from_book_levels (instrument : InstrumentId) (observed : option Z) (bids asks : list (Price * f64))
    : Result OutcomeGroupDepthSnapshot OutcomeGroupDepthAdapterError :=
  depth_from_maps instrument observed (level_map bids) (level_map asks).

Definition executable_quote (d : OutcomeGroupDepthSnapshot) : ExecutableBookQuote :=
  mkBook (depth_best_bid d) (depth_best_ask d) (depth_bid_levels d) (depth_ask_levels d).

(** ** Input and evidence *)

Record OutcomeGroupCandidateLeg : Type := mkCandidate {
  cand_leg_id : text;
  cand_order_side : OrderSide;
  cand_target_notional : D;
}.

Record OutcomeGroupScanInput : Type := mkScanInput {
  scan_group : OutcomeGroup D;
  candidate_legs : list OutcomeGroupCandidateLeg;
  scan_books : BTreeMap InstrumentId OutcomeGroupDepthSnapshot;
  scan_now_unix_ms : Z;
  max_book_age_ms : Z;
  scan_min_edge_bps : D;
  vwap_depth_limit_bps : Z;
  slippage_buffer_bps : Z;
}.

Record OutcomeGroupLegScanEvidence : Type := mkLegScan {
  ls_leg_id : text;
  ls_instrument_id : InstrumentId;
  ls_order_side : OrderSide;
  ls_target_notional : D;
  ls_executable_quantity : D;
  ls_gross_cost : D;
  ls_slippage_buffer : D;
  ls_total_adjusted_cost : D;
  ls_vwap_price : D;
  ls_limit_price : D;
  ls_observed_unix_ms : Z;
}.

Record OutcomeGroupScanEvidence : Type := mkScan {
  sc_group_id : text;
  sc_grouping_proof : option GroupingProof;
  sc_leg_costs : list OutcomeGroupLegScanEvidence;
  sc_state_payouts : BTreeMap text D;
  sc_guaranteed_payout : D;
  sc_total_gross_cost : D;
  sc_total_slippage_buffer : D;
  sc_total_adjusted_cost : D;
  sc_absolute_edge : D;
  sc_edge_bps : D;
  sc_min_depth_quantity : D;
  sc_admissible : bool;
  sc_block_reason : option OutcomeGroupScanBlockReason;
}.

Implicit Types (input : OutcomeGroupScanInput) (e : OutcomeGroupScanEvidence).

(** [OutcomeGroupScanEvidence::empty] and [blocked]. *)
Definition scan_empty (g : OutcomeGroup D) : OutcomeGroupScanEvidence :=
  mkScan (group_id g) (grouping_proof g) [] [] d_zero d_zero d_zero d_zero d_zero d_zero d_zero false None.

Definition scan_with_admissible e (admissible : bool) (reason : option OutcomeGroupScanBlockReason)
    : OutcomeGroupScanEvidence :=
  mkScan (sc_group_id e) (sc_grouping_proof e) (sc_leg_costs e) (sc_state_payouts e) (sc_guaranteed_payout e)
    (sc_total_gross_cost e) (sc_total_slippage_buffer e) (sc_total_adjusted_cost e) (sc_absolute_edge e)
    (sc_edge_bps e) (sc_min_depth_quantity e) admissible reason.

Definition scan_blocked e (reason : OutcomeGroupScanBlockReason) : OutcomeGroupScanEvidence :=
  scan_with_admissible e false (Some reason).

(** The assignments to the fields of the evidence. *)
Definition scan_with_costs e (legs : list OutcomeGroupLegScanEvidence) (gross slippage total depth : D)
    : OutcomeGroupScanEvidence :=
  mkScan (sc_group_id e) (sc_grouping_proof e) legs (sc_state_payouts e) (sc_guaranteed_payout e)
    gross slippage total (sc_absolute_edge e) (sc_edge_bps e) depth (sc_admissible e) (sc_block_reason e).

Definition scan_with_payouts e (payouts : BTreeMap text D) (guaranteed edge bps : D) : OutcomeGroupScanEvidence :=
  mkScan (sc_group_id e) (sc_grouping_proof e) (sc_leg_costs e) payouts guaranteed (sc_total_gross_cost e)
    (sc_total_slippage_buffer e) (sc_total_adjusted_cost e) edge bps (sc_min_depth_quantity e)
    (sc_admissible e) (sc_block_reason e).

(** ** Decimals and doubles *)

Definition decimal_to_positive_f64 (value : D) : Result f64 OutcomeGroupScanBlockReason :=
  ok_or (v ← d_to_f64 value; if is_positive_finite v then Some v else None) ScanInvalidCost.

Definition decimal_from_f64 (value : f64) : Result D OutcomeGroupScanBlockReason :=
  ok_or (v ← d_round_dp DECIMAL_F64_ROUND_DP <$> d_from_f64 value; if d_gtb v d_zero then Some v else None)
    ScanInvalidCost.

Definition decimal_from_non_negative_f64 (value : f64) : Result D OutcomeGroupScanBlockReason :=
  ok_or (v ← d_round_dp DECIMAL_F64_ROUND_DP <$> d_from_f64 value; if d_geb v d_zero then Some v else None)
    ScanInvalidCost.

Definition required_vwap_field (value : f64) : Result f64 OutcomeGroupScanBlockReason :=
  if is_positive_finite value then Ok value else Err ScanInvalidCost.

Definition settlement_total_from_cents (cents_per_unit : f64) (quantity : D) : Result D OutcomeGroupScanBlockReason :=
  per_unit ←? decimal_from_non_negative_f64 (f64_div cents_per_unit CENTS_PER_SHARE);
  ok_or (d_round_dp DECIMAL_F64_ROUND_DP <$> d_checked_mul per_unit quantity) ScanInvalidCost.

Definition positive_min (current candidate : D) : option D :=
  if d_leb candidate d_zero then None
  else if d_leb current d_zero || d_ltb candidate current then Some candidate else Some current.

(** [quantity / step] and its fractional part; the division may panic. *)
Definition quantity_step_aligned (quantity step : D) : option bool :=
  if d_leb step d_zero then Some false
  else units ← d_checked_div quantity step; Some (d_eqb (d_fract units) d_zero).

Definition validate_leg_constraints (quantity gross_notional : D) (c : OutcomeLegOrderConstraints D)
    : option (Result unit OutcomeGroupScanBlockReason) :=
  Some (ensure (negb (d_ltb quantity (min_quantity c))) ScanMinQuantity);;?!
  Some (ensure (match min_notional c with
                | Some m => negb (d_ltb gross_notional m)
                | None => true
                end) ScanMinNotional);;?!
  aligned ← quantity_step_aligned quantity (quantity_step c);
  Some (ensure aligned ScanQuantityStep).

(** ** One leg *)

Definition price_candidate_leg input (c : OutcomeGroupCandidateLeg) (book : OutcomeGroupDepthSnapshot)
    : Result OutcomeGroupLegScanEvidence OutcomeGroupScanBlockReason :=
  target ←? decimal_to_positive_f64 (cand_target_notional c);
  vwap ←? map_err scan_reason_from_cost
            (price_exact_size_vwap (executable_quote book) (cand_order_side c) target (vwap_depth_limit_bps input));
  leg ←? ok_or (bt_get (tradable_legs (scan_group input)) (cand_leg_id c)) ScanUnknownLeg;
  breakdown ←? map_err scan_reason_from_cost (executable_cost_breakdown vwap (slippage_buffer_bps input));
  quantity ←? decimal_from_f64 (vwap_quantity vwap);
  gross ←? settlement_total_from_cents (gross_cost_cents breakdown) quantity;
  slippage ←? settlement_total_from_cents (slippage_buffer_cents breakdown) quantity;
  total ←? settlement_total_from_cents (total_adjusted_cost_cents breakdown) quantity;
  price ←? required_vwap_field (vwap_price vwap);
  price ←? decimal_from_f64 price;
  limit ←? required_vwap_field (vwap_limit_price vwap);
  limit ←? decimal_from_f64 limit;
  observed ←? ok_or (depth_observed_unix_ms book) ScanMissingBookTimestamp;
  Ok (mkLegScan (cand_leg_id c) (leg_instrument_id leg) (cand_order_side c) (cand_target_notional c)
        quantity gross slippage total price limit observed).

(** A refusal with the evidence gathered so far. *)
Definition blocked_with {A} e (r : Result A OutcomeGroupScanBlockReason)
    : Result A (OutcomeGroupScanBlockReason * OutcomeGroupScanEvidence) := map_err (λ reason, (reason, e)) r.

Definition scan_leg input e (quantities : BTreeMap text D) (c : OutcomeGroupCandidateLeg)
    : option (Result (OutcomeGroupScanEvidence * BTreeMap text D)
                (OutcomeGroupScanBlockReason * OutcomeGroupScanEvidence)) :=
  Some (blocked_with e (ensure (bool_decide (cand_order_side c = OrderBuy)) ScanUnsupportedOrderSide));;?!
  Some (blocked_with e (ensure (negb (d_leb (cand_target_notional c) d_zero)) ScanInvalidCost));;?!
  leg ←?! Some (blocked_with e (ok_or (bt_get (tradable_legs (scan_group input)) (cand_leg_id c)) ScanUnknownLeg));
  book ←?! Some (blocked_with e (ok_or (bt_get (scan_books input) (leg_instrument_id leg)) ScanMissingBook));
  observed ←?! Some (blocked_with e (ok_or (depth_observed_unix_ms book) ScanMissingBookTimestamp));
  Some (blocked_with e (ensure (outcome_group_observation_is_fresh (scan_now_unix_ms input) observed
                                  (max_book_age_ms input) None) ScanStaleBook));;?!
  priced ←?! Some (blocked_with e (price_candidate_leg input c book));
  (blocked_with e <$> validate_leg_constraints (ls_executable_quantity priced) (ls_gross_cost priced)
                        (order_constraints leg));;?!
  Some (blocked_with e (ensure (negb (contains_key quantities (cand_leg_id c))) ScanInvalidCost));;?!
  let quantities := bt_insert quantities (cand_leg_id c) (ls_executable_quantity priced) in
  gross ←?! Some (blocked_with e (ok_or (d_checked_add (sc_total_gross_cost e) (ls_gross_cost priced)) ScanInvalidCost));
  let e := scan_with_costs e (sc_leg_costs e) gross (sc_total_slippage_buffer e) (sc_total_adjusted_cost e)
             (sc_min_depth_quantity e) in
  slippage ←?! Some (blocked_with e (ok_or (d_checked_add (sc_total_slippage_buffer e) (ls_slippage_buffer priced))
                                       ScanInvalidCost));
  let e := scan_with_costs e (sc_leg_costs e) gross slippage (sc_total_adjusted_cost e) (sc_min_depth_quantity e) in
  total ←?! Some (blocked_with e (ok_or (d_checked_add (sc_total_adjusted_cost e) (ls_total_adjusted_cost priced))
                                    ScanInvalidCost));
  let e := scan_with_costs e (sc_leg_costs e) gross slippage total (sc_min_depth_quantity e) in
  depth ←?! Some (blocked_with e (ok_or (positive_min (sc_min_depth_quantity e) (ls_executable_quantity priced))
                                    ScanInvalidCost));
  Some (Ok (scan_with_costs e (sc_leg_costs e ++ [priced]) gross slippage total depth, quantities)).

Fixpoint scan_legs input e (quantities : BTreeMap text D) (cs : list OutcomeGroupCandidateLeg)
    : option (Result (OutcomeGroupScanEvidence * BTreeMap text D)
                (OutcomeGroupScanBlockReason * OutcomeGroupScanEvidence)) :=
  match cs with
  | [] => Some (Ok (e, quantities))
  | c :: cs => r ←?! scan_leg input e quantities c; scan_legs input r.1 r.2 cs
  end.

(** ** Payouts *)

Definition candidate_covers_standard_outcomes (g : OutcomeGroup D) (quantities : BTreeMap text D) : bool :=
  forallb (λ state, existsb (λ leg_id, match bt_get (tradable_legs g) leg_id with
                                       | Some leg => bool_decide (outcome_label leg = state_label state)
                                       | None => false
                                       end) (bt_keys quantities))
    (filter (λ state, is_standard (terminal_kind state) = true) (bt_values (terminal_states g))).

Definition leg_quantity (quantities : BTreeMap text D) (leg : text) : D :=
  match bt_get quantities leg with Some quantity => quantity | None => d_zero end.

(** The sum over the columns, the row read by index. *)
Fixpoint row_payout (quantities : BTreeMap text D) (cols : list OutcomeLegId) (row : list D) (payout : D)
    : Result D OutcomeGroupScanBlockReason :=
  match cols with
  | [] => Ok payout
  | leg :: cols =>
      match row with
      | [] => Err ScanInvalidCost
      | value :: row =>
          addend ←? ok_or (d_checked_mul value (leg_quantity quantities leg)) ScanInvalidCost;
          payout ←? ok_or (d_checked_add payout addend) ScanInvalidCost;
          row_payout quantities cols row payout
      end
  end.

Fixpoint evaluate_rows (quantities : BTreeMap text D) (cols : list OutcomeLegId)
    (rows : BTreeMap TerminalStateId (list D)) (payouts : BTreeMap text D)
    : Result (BTreeMap text D) OutcomeGroupScanBlockReason :=
  match rows with
  | [] => Ok payouts
  | (state, row) :: rows =>
      payout ←? row_payout quantities cols row d_zero;
      evaluate_rows quantities cols rows (bt_insert payouts state payout)
  end.

Definition evaluate_state_payouts (m : PayoutMatrix D) (quantities : BTreeMap text D)
    : Result (BTreeMap text D) OutcomeGroupScanBlockReason :=
  evaluate_rows quantities (matrix_cols m) (payout_per_unit_by_state m) [].

Definition minimum_payout (payouts : BTreeMap text D) : option D :=
  foldl (λ minimum payout, match minimum with
                           | Some current => if d_leb current payout then Some current else Some payout
                           | None => Some payout
                           end) None (bt_values payouts).

(** ** The scan *)

(** The edge of a priced basket. *)
Definition scan_edge input e (quantities : BTreeMap text D)
    : Result OutcomeGroupScanEvidence (OutcomeGroupScanBlockReason * OutcomeGroupScanEvidence) :=
  blocked_with e (ensure (candidate_covers_standard_outcomes (scan_group input) quantities) ScanIncompleteCandidate);;?
  payouts ←? blocked_with e (evaluate_state_payouts (payout_matrix (scan_group input)) quantities);
  let e := scan_with_payouts e payouts (sc_guaranteed_payout e) (sc_absolute_edge e) (sc_edge_bps e) in
  guaranteed ←? blocked_with e (ok_or (minimum_payout payouts) ScanInvalidCost);
  let e := scan_with_payouts e payouts guaranteed (sc_absolute_edge e) (sc_edge_bps e) in
  blocked_with e (ensure (negb (d_leb (sc_total_adjusted_cost e) d_zero)) ScanInvalidCost);;?
  edge ←? blocked_with e (ok_or (d_checked_sub guaranteed (sc_total_adjusted_cost e)) ScanInvalidCost);
  let e := scan_with_payouts e payouts guaranteed edge (sc_edge_bps e) in
  blocked_with e (ensure (negb (d_leb edge d_zero)) ScanNonPositiveEdge);;?
  bps ←? blocked_with e (ok_or (value ← d_checked_mul edge (d_from_u64 10000);
                                d_checked_div value (sc_total_adjusted_cost e)) ScanInvalidCost);
  let e := scan_with_payouts e payouts guaranteed edge bps in
  blocked_with e (ensure (negb (d_ltb bps (scan_min_edge_bps input))) ScanEdgeThreshold);;?
  Ok e.

Definition scan_outcome_group_candidate_inner input
    : option (Result OutcomeGroupScanEvidence (OutcomeGroupScanBlockReason * OutcomeGroupScanEvidence)) :=
  let e := scan_empty (scan_group input) in
  (blocked_with e ∘ map_err validation_block_reason <$> validate_outcome_group sha256_hex (scan_group input));;?!
  Some (blocked_with e (ensure (negb (is_empty (candidate_legs input))) ScanInvalidCost));;?!
  r ←?! scan_legs input e [] (candidate_legs input);
  Some (scan_edge input r.1 r.2).

Definition scan_outcome_group_candidate input : option OutcomeGroupScanEvidence :=
  r ← scan_outcome_group_candidate_inner input;
  Some (match r with
        | Ok e => scan_with_admissible e true (sc_block_reason e)
        | Err (reason, partial) => scan_blocked partial reason
        end).

End Scanner.
Arguments OutcomeGroupCandidateLeg D : clear implicits.
Arguments OutcomeGroupScanInput D {_}.
Arguments OutcomeGroupLegScanEvidence D {_}.
Arguments OutcomeGroupScanEvidence D {_}.
