(* ===== verification/GroupScannerFacts.v ===== *)
(** * The scanner: an admissible basket profits in every terminal state

    For a scan that reports a basket as admissible: the group is valid, every leg is a
    fresh buy of a distinct leg of the group, the cost reported is the sum of the legs,
    and whichever terminal state settles, standard or void, the quantities bought pay more
    than that cost.  The last part is exact on amounts that lie on the decimal grid. *)

From Stdlib Require Import ZArith Lia SpecFloat.
From stdpp Require Import sorting strings gmap numbers list.
From S2P Require Import Prelude.
From S2P Require Import RustText.
From S2P Require Import BTree.
From S2P Require Import F64.
From S2P Require Import NtTypes.
From S2P Require Import DecimalAmount.
From S2P Require Import OutcomeGroups.
From S2P Require Import OutcomeGroupsFacts.
From S2P Require Import ExecutableCost.
From S2P Require Import ExecutableCostFacts.
From S2P Require Import GroupScanner.

Open Scope Z_scope.

(** ** Sums *)

Lemma map_err_Ok {A E F} (f : E → F) (r : Result A E) a : map_err f r = Ok a ↔ r = Ok a.
Proof. destruct r; simpl; split; congruence. Qed.

(** Takes the checks of the scan apart. *)
Ltac scan_inv :=
  repeat first
    [ progress accept_inv
    | match goal with
      | H : blocked_with _ _ = Ok _ |- _ => apply map_err_Ok in H
      | H : blocked_with _ <$> _ = Some (Ok _) |- _ =>
          apply fmap_Some in H as (? & H & ?)
      | H : Ok _ = blocked_with _ ?r |- _ => symmetry in H; apply map_err_Ok in H; subst r
      end ].

Section Facts.
Context {D : Type} `{DecimalLaws D} `{DecimalSigns D} `{DecimalText D} `{DecimalNormalize D} `{DecimalF64 D}.
Context {NT : NtTypes} {BP : BookPrice} {IT : InstrumentText}.
Context (sha256_hex : bytes → text).
Implicit Types (input : OutcomeGroupScanInput D) (e : OutcomeGroupScanEvidence D).

(** ** The legs of a scan *)

(** [total] is the checked sum of [amounts] from [start]. *)
Fixpoint checked_sum (start : D) (amounts : list D) : option D :=
  match amounts with
  | [] => Some start
  | a :: amounts => s ← d_checked_add start a; checked_sum s amounts
  end.

Lemma checked_sum_snoc start amounts a :
  checked_sum start (amounts ++ [a]) = (s ← checked_sum start amounts; d_checked_add s a).
Proof.
  revert start. induction amounts as [|b amounts IH]; intros start; cbn [checked_sum app].
  - cbn [mbind option_bind]. by destruct (d_checked_add start a).
  - cbn [mbind option_bind]. destruct (d_checked_add start b); [apply IH|done].
Qed.

(** What holds of a leg the scan has priced. *)
Record leg_scanned input (l : OutcomeGroupLegScanEvidence D) : Prop := {
  scanned_buy : ls_order_side l = OrderBuy;
  scanned_leg : ∃ leg, bt_get (tradable_legs (scan_group input)) (ls_leg_id l) = Some leg ∧
    leg_instrument_id leg = ls_instrument_id l ∧
    d_ltb (ls_executable_quantity l) (min_quantity (order_constraints leg)) = false ∧
    quantity_step_aligned (ls_executable_quantity l) (quantity_step (order_constraints leg)) = Some true;
  scanned_fresh :
    ls_observed_unix_ms l ≤ scan_now_unix_ms input ≤ ls_observed_unix_ms l + max_book_age_ms input;
  scanned_positive : d_gtb (ls_executable_quantity l) d_zero = true;
}.

(** The evidence and the quantities of the legs priced so far. *)
Record scanned input e (quantities : BTreeMap text D) : Prop := {
  scanned_sorted : bt_sorted quantities;
  scanned_each : Forall (leg_scanned input) (sc_leg_costs e);
  scanned_distinct : NoDup (ls_leg_id <$> sc_leg_costs e);
  scanned_quantities : quantities ≡ₚ (λ l, (ls_leg_id l, ls_executable_quantity l)) <$> sc_leg_costs e;
  scanned_total : checked_sum d_zero (ls_total_adjusted_cost <$> sc_leg_costs e) = Some (sc_total_adjusted_cost e);
}.

Lemma price_candidate_leg_Ok input c book l :
  price_candidate_leg input c book = Ok l →
  ls_leg_id l = cand_leg_id c ∧ ls_order_side l = cand_order_side c ∧
  depth_observed_unix_ms book = Some (ls_observed_unix_ms l) ∧
  (∃ leg, bt_get (tradable_legs (scan_group input)) (cand_leg_id c) = Some leg ∧
     ls_instrument_id l = leg_instrument_id leg) ∧
  d_gtb (ls_executable_quantity l) d_zero = true.
Proof.
  unfold price_candidate_leg. intros Hp. accept_inv. injection Hp as <-. simpl. split_and!; [done|done|done|eauto|].
  match goal with Hq : decimal_from_f64 (vwap_quantity _) = Ok _ |- _ => unfold decimal_from_f64 in Hq; accept_inv;
    apply bind_Some in Hq as (v & _ & Hq); destruct (d_gtb v d_zero) eqn:Hz; congruence end.
Qed.

Lemma observation_fresh now observed age :
  outcome_group_observation_is_fresh now observed age None = true → observed ≤ now ≤ observed + age.
Proof. unfold outcome_group_observation_is_fresh. destruct (Z.ltb_spec now observed); [done|]. intros ?%Z.leb_le. lia. Qed.

Lemma bt_insert_new_perm {V} (m : BTreeMap text V) k v : k ∉ bt_keys m → bt_insert m k v ≡ₚ (k, v) :: m.
Proof.
  unfold bt_insert, bt_keys. induction m as [|[k' v'] m IH]; [done|]. csimpl. rewrite not_elem_of_cons. intros [Hne Hk].
  destruct (ord_cmp k k') eqn:E; [apply cmp_eq in E; done|done|]. rewrite IH by done. constructor.
Qed.

Lemma constraints_Ok quantity gross (c : OutcomeLegOrderConstraints D) :
  validate_leg_constraints quantity gross c = Some (Ok tt) →
  d_ltb quantity (min_quantity c) = false ∧ quantity_step_aligned quantity (quantity_step c) = Some true.
Proof.
  unfold validate_leg_constraints. intros Hc. accept_inv. apply bind_Some in Hc as (aligned & Ha & Hc). accept_inv.
  apply negb_true_iff in E. by subst aligned.
Qed.

Lemma scan_leg_Ok input e q c r :
  bt_sorted (tradable_legs (scan_group input)) → scanned input e q →
  scan_leg input e q c = Some (Ok r) → scanned input r.1 r.2.
Proof.
  intros Hsort [Hs Heach Hd Hq Ht] Hr. unfold scan_leg in Hr. scan_inv.
  match goal with Hc : validate_leg_constraints _ _ _ = Some _ |- _ => rename Hc into HC end.
  match goal with Hp : price_candidate_leg _ _ _ = Ok _ |- _ => rename Hp into HP end.
  subst. cbn [fst snd].
  apply price_candidate_leg_Ok in HP as (Hid & Hside & Hobs & (leg' & Hleg & Hinst) & Hpos).
  simplify_eq. destruct a6. apply constraints_Ok in HC as [Hmin Hstep]. apply bool_decide_eq_true in E.
  apply negb_true_iff in E7. assert (Hnew : cand_leg_id c ∉ bt_keys q).
  { intros Hin. apply contains_key_elem in Hin; [congruence|done]. }
  apply observation_fresh in E4. split; cbn [scan_with_costs sc_leg_costs sc_total_adjusted_cost].
  - by apply bt_upsert_sorted.
  - apply Forall_app. split; [done|]. constructor; [|constructor].
    split; [congruence| |done|done]. eexists. rewrite Hid. split_and!; [eassumption|congruence|done|done].
  - rewrite fmap_app. apply NoDup_app. split; [done|]. split; [|apply NoDup_singleton].
    intros x Hx ->%list_elem_of_singleton. apply Hnew. rewrite <- Hid. unfold bt_keys. rewrite Hq.
    rewrite <- list_fmap_compose. done.
  - rewrite fmap_app. csimpl. rewrite bt_insert_new_perm by done. rewrite Hq, Hid. by rewrite Permutation_cons_append.
  - rewrite fmap_app. csimpl. rewrite checked_sum_snoc, Ht. done.
Qed.

Lemma scan_legs_Ok input e q cs r :
  bt_sorted (tradable_legs (scan_group input)) → scanned input e q →
  scan_legs input e q cs = Some (Ok r) → scanned input r.1 r.2.
Proof.
  intros Hsort. revert e q. induction cs as [|c cs IH]; intros e q Hs Hr; cbn [scan_legs] in Hr.
  { by injection Hr as <-. }
  accept_inv. eapply IH; [|done]. by eapply scan_leg_Ok.
Qed.

Lemma scanned_start input : scanned input (scan_empty (scan_group input)) [].
Proof. split; simpl; try done; constructor. Qed.

(** ** Exact sums *)

Definition z_sum (l : list Z) : Z := foldr Z.add 0 l.

Lemma z_sum_nonneg l : Forall (λ z, 0 ≤ z) l → 0 ≤ z_sum l.
Proof. induction 1; simpl; lia. Qed.

Lemma checked_sum_value start amounts total :
  d_exact start → 0 ≤ d_value start → Forall (λ a, d_exact a ∧ 0 ≤ d_value a) amounts →
  d_value start + z_sum (d_value <$> amounts) ≤ d_limit → checked_sum start amounts = Some total →
  d_exact total ∧ d_value total = d_value start + z_sum (d_value <$> amounts).
Proof.
  intros Hs Hp Ha. revert start Hs Hp. induction Ha as [|a amounts [Hex Hnn] Ha IH]; intros start Hs Hp Hb Ht.
  { injection Ht as <-. csimpl. split; [done|lia]. }
  csimpl in Hb. cbn [checked_sum] in Ht. assert (0 ≤ z_sum (d_value <$> amounts)).
  { apply z_sum_nonneg, Forall_fmap. eapply Forall_impl; [done|]. by intros x []. }
  destruct (d_add_exact start a) as (s & Hadd & Hse & Hsv); [done|done|lia|].
  rewrite Hadd in Ht. destruct (IH s) as [Hte Htv]; [done|lia|lia|done|]. csimpl. split; [done|lia].
Qed.

(** The payout of quantities [f] in a row, in units of the square of the grid. *)
Fixpoint payout_sum (f : text → Z) (cols : list OutcomeLegId) (row : list D) : Z :=
  match cols, row with
  | leg :: cols, p :: row => d_value p * f leg + payout_sum f cols row
  | _, _ => 0
  end.

Definition col_sum (f : text → Z) (cols : list OutcomeLegId) : Z := z_sum (f <$> cols).

Lemma row_payout_value q cols row acc r :
  (∀ leg, d_exact (leg_quantity q leg) ∧ 0 ≤ d_value (leg_quantity q leg)) →
  Forall (λ p, d_exact p ∧ 0 ≤ d_value p ≤ d_unit ∧
            ∀ leg, ∃ v, d_value p * d_value (leg_quantity q leg) = v * d_unit) row →
  d_exact acc → 0 ≤ d_value acc → d_value acc + col_sum (λ leg, d_value (leg_quantity q leg)) cols ≤ d_limit →
  row_payout q cols row acc = Ok r →
  d_exact r ∧ 0 ≤ d_value r ≤ d_limit ∧
  d_value r * d_unit = d_value acc * d_unit + payout_sum (λ leg, d_value (leg_quantity q leg)) cols row.
Proof.
  intros Hq Hrow. revert cols acc. induction Hrow as [|p row (Hp & Hb & Hprod) Hrow IH]; intros [|leg cols] acc Hacc Hpos Hlim Hr.
  - injection Hr as <-. unfold col_sum in Hlim. simpl in *. split; [done|lia].
  - done.
  - injection Hr as <-. unfold col_sum in Hlim. simpl in *. split; [done|lia].
  - cbn [row_payout] in Hr. accept_inv. destruct (Hq leg) as [Hqe Hqp]. destruct (Hprod leg) as [v Hv].
    unfold col_sum in Hlim. csimpl in Hlim. pose proof d_unit_pos.
    assert (0 ≤ v ≤ d_value (leg_quantity q leg)) by nia.
    assert (0 ≤ z_sum ((λ leg, d_value (leg_quantity q leg)) <$> cols)).
    { apply z_sum_nonneg, Forall_fmap, Forall_true. intros x. apply Hq. }
    destruct (d_mul_exact p (leg_quantity q leg) v) as (m & Hm & Hme & Hmv); [done|done|done|lia|].
    rewrite Hm in E. injection E as <-.
    destruct (d_add_exact acc m) as (s & Hs & Hse & Hsv); [done|done|lia|]. rewrite Hs in E0. injection E0 as <-.
    destruct (IH cols s) as (Hre & Hrb & Hrv); [done|lia|unfold col_sum; lia|done|].
    cbn [payout_sum]. split; [done|]. split; [done|]. rewrite Hrv, Hsv, Hmv. lia.
Qed.

(** ** The smallest payout *)

Lemma minimum_from l m r :
  d_exact m → Forall d_exact l →
  foldl (λ minimum payout, match minimum with
                           | Some current => if d_leb current payout then Some current else Some payout
                           | None => Some payout
                           end) (Some m) l = Some r →
  d_exact r ∧ d_value r ≤ d_value m ∧ Forall (λ p, d_value r ≤ d_value p) l ∧ (r = m ∨ r ∈ l).
Proof.
  intros Hm Hl. revert m Hm. induction Hl as [|p l Hp Hl IH]; intros m Hm Hr; cbn [foldl] in Hr.
  { injection Hr as <-. split_and!; [done|lia|constructor|by left]. }
  rewrite d_leb_value in Hr by done. destruct (Z.leb_spec (d_value m) (d_value p)).
  - destruct (IH m Hm Hr) as (? & ? & ? & Hin). split_and!; [done|done|constructor; [lia|done]|set_solver].
  - destruct (IH p Hp Hr) as (? & ? & ? & Hin). split_and!; [done|lia|by constructor|set_solver].
Qed.

Lemma minimum_payout_Some (payouts : BTreeMap text D) r :
  Forall d_exact (bt_values payouts) → minimum_payout payouts = Some r →
  d_exact r ∧ r ∈ bt_values payouts ∧ ∀ state p, (state, p) ∈ payouts → d_value r ≤ d_value p.
Proof.
  intros Hex Hr. assert (Hin : ∀ state p, (state, p) ∈ payouts → p ∈ bt_values payouts).
  { intros state p Hp. unfold bt_values. apply list_elem_of_fmap. by exists (state, p). }
  unfold minimum_payout in Hr. destruct (bt_values payouts) as [|p l] eqn:E; [done|]. cbn [foldl] in Hr.
  apply Forall_cons in Hex as [Hp Hl]. destruct (minimum_from l p r Hp Hl Hr) as (He & Hle & Hall & Hm).
  split_and!; [done|set_solver|]. intros state x Hx%Hin. apply elem_of_cons in Hx as [->|Hx]; [done|].
  by eapply Forall_forall in Hall.
Qed.

(** Every row is evaluated and its payout kept under its state. *)
Lemma evaluate_rows_Ok q cols rows acc out :
  bt_sorted rows → bt_sorted acc → (∀ k, k ∈ bt_keys rows → k ∉ bt_keys acc) →
  evaluate_rows q cols rows acc = Ok out →
  bt_sorted out ∧
  (∀ state row, (state, row) ∈ rows → ∃ p, row_payout q cols row d_zero = Ok p ∧ (state, p) ∈ out) ∧
  (∀ state p, (state, p) ∈ acc → (state, p) ∈ out) ∧
  (∀ state p, (state, p) ∈ out → (state, p) ∈ acc ∨ ∃ row, (state, row) ∈ rows ∧ row_payout q cols row d_zero = Ok p).
Proof.
  intros Hr. revert acc. induction rows as [|[state row] rows IH]; intros acc Ha Hdis He; cbn [evaluate_rows] in He.
  { injection He as <-. split_and!; [done|set_solver|done|by left]. }
  accept_inv. rename a into payout. apply StronglySorted_inv in Hr as [Hr Hlt].
  assert (Hnew : state ∉ bt_keys acc) by (apply Hdis; left).
  pose proof (bt_insert_new_perm acc state payout Hnew) as Hperm.
  destruct (IH Hr (bt_insert acc state payout)) as (Hs & Hrows & Hkeep & Hfrom); [by apply bt_upsert_sorted| |done|].
  { intros k Hk [->|Hk']%bt_upsert_keys; [|by apply (Hdis k); [right|]].
    apply (proj1 (Forall_forall _ _) Hlt) in Hk. by rewrite cmp_refl in Hk. }
  split_and!; [done| | |].
  - intros s r [[= -> ->]|Hin]%elem_of_cons; [|by apply Hrows]. exists payout. split; [done|]. apply Hkeep. rewrite Hperm. left.
  - intros s p Hp. apply Hkeep. rewrite Hperm. by right.
  - intros s p [Hp|(r & Hin & Hp)]%Hfrom; [|right; exists r; split; [by right|done]].
    rewrite Hperm in Hp. apply elem_of_cons in Hp as [[= -> ->]|Hp]; [right; exists row; split; [left|done]|by left].
Qed.

(** ** What the basket holds and pays *)

(** The quantity of a leg in the basket. *)
Definition bought_of (legs : list (OutcomeGroupLegScanEvidence D)) (leg : text) : Z :=
  z_sum ((λ l, if bool_decide (ls_leg_id l = leg) then d_value (ls_executable_quantity l) else 0) <$> legs).

Definition bought e : text → Z := bought_of (sc_leg_costs e).

Lemma bought_of_none legs leg : leg ∉ ls_leg_id <$> legs → bought_of legs leg = 0.
Proof.
  unfold bought_of. induction legs as [|l legs IH]; [done|]. csimpl. rewrite not_elem_of_cons. intros [Hne Hn].
  rewrite bool_decide_eq_false_2 by congruence. rewrite IH by done. lia.
Qed.

Lemma bought_of_elem legs l :
  NoDup (ls_leg_id <$> legs) → l ∈ legs → bought_of legs (ls_leg_id l) = d_value (ls_executable_quantity l).
Proof.
  induction legs as [|l' legs IH]; [set_solver|]. csimpl. intros [Hn Hd]%NoDup_cons [->|Hin]%elem_of_cons.
  - unfold bought_of. csimpl. rewrite bool_decide_eq_true_2 by done.
    pose proof (bought_of_none legs _ Hn) as Hz. unfold bought_of in Hz. lia.
  - unfold bought_of. csimpl. rewrite bool_decide_eq_false_2.
    + apply IH; done.
    + intros Heq. apply Hn. rewrite Heq. apply list_elem_of_fmap. eauto.
Qed.

Lemma leg_quantity_bought input e q leg :
  scanned input e q → d_value (leg_quantity q leg) = bought e leg.
Proof.
  intros Hs. unfold leg_quantity, bought. destruct (bt_get q leg) as [x|] eqn:Hg.
  - apply bt_get_Some in Hg; [|apply Hs]. rewrite (scanned_quantities _ _ _ Hs) in Hg.
    apply list_elem_of_fmap in Hg as (l & [= -> ->] & Hl). by rewrite bought_of_elem; [|apply Hs|].
  - apply bt_get_None in Hg; [|apply Hs]. rewrite bought_of_none; [apply d_zero_exact|].
    intros Hin. apply Hg. unfold bt_keys. rewrite (scanned_quantities _ _ _ Hs), <- list_fmap_compose. done.
Qed.

Lemma leg_quantity_exact input e q leg :
  scanned input e q → (∀ l, l ∈ sc_leg_costs e → d_exact (ls_executable_quantity l)) →
  d_exact (leg_quantity q leg) ∧ 0 ≤ d_value (leg_quantity q leg).
Proof.
  intros Hs Hex. unfold leg_quantity. destruct (bt_get q leg) as [x|] eqn:Hg.
  - apply bt_get_Some in Hg; [|apply Hs]. rewrite (scanned_quantities _ _ _ Hs) in Hg.
    apply list_elem_of_fmap in Hg as (l & [= -> ->] & Hl). split; [by apply Hex|].
    pose proof (proj1 (Forall_forall _ _) (scanned_each _ _ _ Hs) l Hl) as Hls.
    pose proof (scanned_positive _ _ Hls) as Hp. rewrite d_gtb_value in Hp; [|by apply Hex|apply d_zero_exact].
    apply Z.ltb_lt in Hp. pose proof (proj2 (d_zero_exact (D := D))). lia.
  - destruct d_zero_exact as [? Hz]. split; [done|lia].
Qed.

(** The amounts of a scan lie on the decimal grid and their sums fit. *)
Record exact_amounts input e : Prop := {
  exact_rows state row :
    bt_get (payout_per_unit_by_state (payout_matrix (scan_group input))) state = Some row → Forall d_exact row;
  exact_quantity l : l ∈ sc_leg_costs e → d_exact (ls_executable_quantity l);
  exact_cost l : l ∈ sc_leg_costs e → d_exact (ls_total_adjusted_cost l) ∧ 0 ≤ d_value (ls_total_adjusted_cost l);
  exact_product state row p leg :
    bt_get (payout_per_unit_by_state (payout_matrix (scan_group input))) state = Some row → p ∈ row →
    ∃ v, d_value p * bought e leg = v * d_unit;
  exact_depth : col_sum (bought e) (matrix_cols (payout_matrix (scan_group input))) ≤ d_limit;
  exact_total : z_sum (d_value ∘ ls_total_adjusted_cost <$> sc_leg_costs e) ≤ d_limit;
}.

(** The cost of the basket. *)
Definition basket_cost e : Z := z_sum (d_value ∘ ls_total_adjusted_cost <$> sc_leg_costs e).

Lemma scanned_total_value input e q :
  scanned input e q → exact_amounts input e →
  d_exact (sc_total_adjusted_cost e) ∧ d_value (sc_total_adjusted_cost e) = basket_cost e.
Proof.
  intros Hs Hex. destruct d_zero_exact as [Hze Hzv].
  destruct (λ a b, checked_sum_value d_zero _ _ Hze ltac:(lia) a b (scanned_total _ _ _ Hs)) as [He Hv].
  - apply Forall_fmap, Forall_forall. intros l Hl. by apply Hex.
  - rewrite <- list_fmap_compose. pose proof (exact_total _ _ Hex). lia.
  - split; [done|]. rewrite Hv, <- list_fmap_compose. unfold basket_cost. lia.
Qed.

Lemma payout_sum_ext f h cols row : (∀ leg, f leg = h leg) → payout_sum f cols row = payout_sum h cols row.
Proof. intros Hf. revert row. induction cols as [|c cols IH]; intros [|p row]; simpl; [done..|]. by rewrite Hf, IH. Qed.

Lemma col_sum_ext f h cols : (∀ leg, f leg = h leg) → col_sum f cols = col_sum h cols.
Proof. intros Hf. unfold col_sum. f_equal. by apply list_fmap_ext. Qed.

(** A row of a validated group, evaluated. *)
Lemma scanned_row_value input e q state st row p :
  validated_group sha256_hex (scan_group input) → scanned input e q → exact_amounts input e →
  (state, st) ∈ terminal_states (scan_group input) →
  bt_get (payout_per_unit_by_state (payout_matrix (scan_group input))) state = Some row →
  row_payout q (matrix_cols (payout_matrix (scan_group input))) row d_zero = Ok p →
  d_exact p ∧ 0 ≤ d_value p ≤ d_limit ∧
  d_value p * d_unit = payout_sum (bought e) (matrix_cols (payout_matrix (scan_group input))) row.
Proof.
  intros Hg Hs Hex Hin Hrow Hp. destruct d_zero_exact as [Hze Hzv], d_one_exact as [Hoe Hov].
  pose proof (λ leg, leg_quantity_bought input e q leg Hs) as Hb.
  destruct (row_payout_value q (matrix_cols (payout_matrix (scan_group input))) row d_zero p (λ leg, leg_quantity_exact input e q leg Hs (exact_quantity _ _ Hex)))
    as (He & Hbd & Hv).
  - destruct (vg_row _ _ Hg _ _ Hin) as (row' & Hrow' & _ & Hbounds & _). simplify_eq.
    pose proof (exact_rows _ _ Hex _ _ Hrow) as Hre. rewrite Forall_forall in Hbounds, Hre |- *.
    intros x Hx. destruct (Hbounds x Hx) as [Hlo Hhi]. pose proof (Hre x Hx) as Hxe. split; [done|]. split.
    + rewrite d_ltb_value in Hlo by done. rewrite d_gtb_value in Hhi by done.
      apply Z.ltb_ge in Hlo, Hhi. lia.
    + intros leg. rewrite Hb. by eapply exact_product.
  - done.
  - lia.
  - rewrite (col_sum_ext _ _ _ Hb). pose proof (exact_depth _ _ Hex). lia.
  - done.
  - rewrite (payout_sum_ext _ _ _ _ Hb) in Hv. split_and!; [done|lia|lia|lia].
Qed.

(** ** The scan *)

(** What an accepting edge test has established. *)
Lemma scan_edge_Ok input e q e' :
  scan_edge input e q = Ok e' →
  candidate_covers_standard_outcomes (scan_group input) q = true ∧
  sc_leg_costs e' = sc_leg_costs e ∧ sc_total_adjusted_cost e' = sc_total_adjusted_cost e ∧
  evaluate_state_payouts (payout_matrix (scan_group input)) q = Ok (sc_state_payouts e') ∧
  minimum_payout (sc_state_payouts e') = Some (sc_guaranteed_payout e') ∧
  d_checked_sub (sc_guaranteed_payout e') (sc_total_adjusted_cost e') = Some (sc_absolute_edge e') ∧
  d_leb (sc_absolute_edge e') d_zero = false ∧ d_ltb (sc_edge_bps e') (scan_min_edge_bps input) = false.
Proof.
  unfold scan_edge. intros He. scan_inv. injection He as <-. cbn -[evaluate_state_payouts minimum_payout].
  rewrite ?negb_true_iff in *. done.
Qed.

Lemma scan_inner_Ok input e :
  group_maps (scan_group input) → scan_outcome_group_candidate_inner sha256_hex input = Some (Ok e) →
  validated_group sha256_hex (scan_group input) ∧
  ∃ e0 q, scanned input e0 q ∧ scan_edge input e0 q = Ok e.
Proof.
  intros Hm Hs. unfold scan_outcome_group_candidate_inner in Hs. accept_inv.
  apply fmap_Some in E as (r & Hv & Hr). symmetry in Hr. apply map_err_Ok, map_err_Ok in Hr. subst r. destruct a.
  apply validation_Ok in Hv; [|done]. split; [done|]. exists a1.1, a1.2. split; [|done].
  eapply scan_legs_Ok; [apply Hm|apply scanned_start|done].
Qed.

Lemma scanned_with_edge input e q e' :
  sc_leg_costs e' = sc_leg_costs e → sc_total_adjusted_cost e' = sc_total_adjusted_cost e →
  scanned input e q → scanned input e' q.
Proof. intros Hl Ht []. split; by rewrite ?Hl, ?Ht. Qed.

Lemma covered_by_legs input e q state st :
  scanned input e q → candidate_covers_standard_outcomes (scan_group input) q = true →
  (state, st) ∈ terminal_states (scan_group input) → is_standard (terminal_kind st) = true →
  ∃ l leg, l ∈ sc_leg_costs e ∧ bt_get (tradable_legs (scan_group input)) (ls_leg_id l) = Some leg ∧
    outcome_label leg = state_label st.
Proof.
  intros Hs Hc Hin Hk. unfold candidate_covers_standard_outcomes in Hc. rewrite forallb_forall in Hc.
  specialize (Hc st). rewrite <- list_elem_of_In, list_elem_of_filter in Hc.
  assert (st ∈ bt_values (terminal_states (scan_group input))) as Hv.
  { unfold bt_values. apply list_elem_of_fmap. by exists (state, st). }
  specialize (Hc (conj Hk Hv)). apply existsb_exists in Hc as (id & Hid & Hl).
  apply list_elem_of_In in Hid. unfold bt_keys in Hid. rewrite (scanned_quantities _ _ _ Hs), <- list_fmap_compose in Hid.
  apply list_elem_of_fmap in Hid as (l & -> & Hin'). simpl in Hl.
  destruct (bt_get (tradable_legs (scan_group input)) (ls_leg_id l)) as [leg|] eqn:Hg; [|done]. apply bool_decide_eq_true in Hl. by exists l, leg.
Qed.

Lemma guaranteed_in_every_state input e0 e q state st :
  group_maps (scan_group input) → validated_group sha256_hex (scan_group input) →
  scanned input e q → exact_amounts input e → scan_edge input e0 q = Ok e →
  (state, st) ∈ terminal_states (scan_group input) →
  ∃ row, bt_get (payout_per_unit_by_state (payout_matrix (scan_group input))) state = Some row ∧
    basket_cost e * d_unit < payout_sum (bought e) (matrix_cols (payout_matrix (scan_group input))) row.
Proof.
  intros Hm Hg Hs Hex He Hin. apply scan_edge_Ok in He as (_ & _ & _ & Hpay & Hmin & Hsub & Hpos & _).
  destruct (vg_row _ _ Hg _ _ Hin) as (row & Hrow & _). exists row. split; [done|].
  unfold evaluate_state_payouts in Hpay.
  apply evaluate_rows_Ok in Hpay as (_ & Hrows & _ & Hfrom); [|apply Hm|constructor|set_solver].
  assert (Hval : ∀ s p, (s, p) ∈ sc_state_payouts e → d_exact p ∧ 0 ≤ d_value p ≤ d_limit).
  { intros s p [?|(r & Hr & Hp)]%Hfrom; [set_solver|]. apply bt_get_Some in Hr; [|apply Hm].
    assert (s ∈ bt_keys (terminal_states (scan_group input))) as Hk.
    { apply (vg_states _ _ Hg). apply bt_get_Some in Hr; [|apply Hm]. apply bt_key_entry. eauto. }
    apply bt_key_entry in Hk as [st' Hst']. destruct (scanned_row_value input e q s st' r p) as (? & ? & _); done. }
  pose proof Hrow as Hrow'. apply bt_get_Some in Hrow'; [|apply Hm]. destruct (Hrows _ _ Hrow') as (p & Hp & Hpin).
  destruct (scanned_row_value input e q state st row p) as (Hpe & Hpb & Hpv); [done..|]. rewrite <- Hpv.
  apply minimum_payout_Some in Hmin as (Hge & Hgin & Hle).
  2:{ apply Forall_forall. intros x Hx. unfold bt_values in Hx. apply list_elem_of_fmap in Hx as ([s y] & -> & Hy).
      by apply (Hval s y). }
  unfold bt_values in Hgin. apply list_elem_of_fmap in Hgin as ([s y] & Hy & Hyin). simpl in Hy. subst y.
  destruct (Hval _ _ Hyin) as [_ Hgb]. specialize (Hle _ _ Hpin).
  destruct (scanned_total_value _ _ _ Hs Hex) as [Hte Htv]. pose proof (exact_total _ _ Hex) as Htl.
  assert (0 ≤ basket_cost e). { apply z_sum_nonneg, Forall_fmap, Forall_forall. intros l Hl. by apply (exact_cost _ _ Hex). }
  destruct (d_sub_exact (sc_guaranteed_payout e) (sc_total_adjusted_cost e)) as (x & Hx & Hxe & Hxv);
    [done|done|unfold basket_cost in *; lia|]. rewrite Hx in Hsub. injection Hsub as Hsub. rewrite <- Hsub in Hpos.
  rewrite d_leb_value in Hpos by (done || apply d_zero_exact). apply Z.leb_gt in Hpos.
  pose proof (proj2 (d_zero_exact (D := D))). pose proof d_unit_pos. nia.
Qed.

Lemma admissible_scan_sound input e :
  group_maps (scan_group input) → scan_outcome_group_candidate sha256_hex input = Some e →
  sc_admissible e = true → exact_amounts input e →
  validated_group sha256_hex (scan_group input) ∧
  Forall (leg_scanned input) (sc_leg_costs e) ∧ NoDup (ls_leg_id <$> sc_leg_costs e) ∧
  (∀ state st, (state, st) ∈ terminal_states (scan_group input) → is_standard (terminal_kind st) = true →
     ∃ l leg, l ∈ sc_leg_costs e ∧ bt_get (tradable_legs (scan_group input)) (ls_leg_id l) = Some leg ∧
       outcome_label leg = state_label st) ∧
  (d_exact (sc_total_adjusted_cost e) ∧ d_value (sc_total_adjusted_cost e) = basket_cost e) ∧
  ∀ state st, (state, st) ∈ terminal_states (scan_group input) →
    ∃ row, bt_get (payout_per_unit_by_state (payout_matrix (scan_group input))) state = Some row ∧
      basket_cost e * d_unit < payout_sum (bought e) (matrix_cols (payout_matrix (scan_group input))) row.
Proof.
  intros Hm Hscan Hadm Hex. unfold scan_outcome_group_candidate in Hscan.
  apply bind_Some in Hscan as ([e1|[reason e1]] & Hi & Hscan); injection Hscan as <-; [|done].
  apply scan_inner_Ok in Hi as (Hg & e0 & q & Hs & He); [|done].
  pose proof (scan_edge_Ok _ _ _ _ He) as (Hcov & Hl & Ht & _).
  apply (scanned_with_edge _ _ _ e1 Hl Ht) in Hs.
  assert (exact_amounts input e1) as Hex1 by (destruct Hex; by split).
  split; [done|]. split; [apply Hs|]. split; [apply Hs|]. split; [intros s st Hin Hk; by apply (covered_by_legs input e1 q s st)|].
  split; [apply (scanned_total_value input e1 q Hs Hex1)|].
  intros state st Hin. by apply (guaranteed_in_every_state input e0 e1 q state st).
Qed.


(** C18: A basket the scanner reports as admissible profits in every terminal state: the group
    is valid, every leg is a buy of a distinct leg of the group, priced on a book no older
    than allowed, at least its smallest quantity and a whole number of its steps, every
    standard outcome is covered, and whichever terminal state settles, standard or void,
    the quantities bought pay more than the whole cost including the slippage buffer, as
    long as the amounts lie on the decimal grid and fit. *)
Theorem admissible_scan_profits input e :
  group_maps (scan_group input) → scan_outcome_group_candidate sha256_hex input = Some e →
  sc_admissible e = true → exact_amounts input e →
  validated_group sha256_hex (scan_group input) ∧
  Forall (leg_scanned input) (sc_leg_costs e) ∧ NoDup (ls_leg_id <$> sc_leg_costs e) ∧
  (∀ state st, (state, st) ∈ terminal_states (scan_group input) → is_standard (terminal_kind st) = true →
     ∃ l leg, l ∈ sc_leg_costs e ∧ bt_get (tradable_legs (scan_group input)) (ls_leg_id l) = Some leg ∧
       outcome_label leg = state_label st) ∧
  d_value (sc_total_adjusted_cost e) = basket_cost e ∧
  ∀ state st, (state, st) ∈ terminal_states (scan_group input) →
    ∃ row, bt_get (payout_per_unit_by_state (payout_matrix (scan_group input))) state = Some row ∧
      basket_cost e * d_unit < payout_sum (bought e) (matrix_cols (payout_matrix (scan_group input))) row.
Proof.
  intros Hm Hs Ha He. destruct (admissible_scan_sound input e Hm Hs Ha He) as (? & ? & ? & ? & [_ ?] & ?).
  by split_and!.
Qed.

End Facts.

(** ** A concrete basket: one pays-on leg of each outcome *)

Module ScanDemo.
#[local] Existing Instance Demo.nt.
#[local] Existing Instance Demo.itext.
#[local] Existing Instance Demo.dnorm.
#[local] Instance cents : @BookPrice Demo.nt := CostDemo.cents.

(** Millionths to doubles and back, rounded to the nearest. *)
#[local] Instance millionths_f64 : DecimalF64 Z := {|
  d_to_f64 z := Some (f64_div (f64_of z 0) (f64_of 1000000 0));
  d_from_f64 x :=
    match x with
    | S754_zero _ => Some 0
    | S754_finite s m e => Some ((if s then -1 else 1) * ((Z.shiftl (Z.pos m * 2000000) e + 1) / 2))
    | _ => None
    end;
  d_round_dp _ z := z;
  d_fract z := z mod 1000000;
  d_from_u64 n := n * 1000000;
|}.

Definition book (instrument : string) : InstrumentId * OutcomeGroupDepthSnapshot :=
  (lit instrument, mkDepth (lit instrument) (Some 1000) None (Some (f64_div (f64_of 40 0) (f64_of 100 0))) []
              [(40, f64_of 100 0)]).

(** Two legs of four units of notional each, a tenth of a second after the books. *)
Definition input : OutcomeGroupScanInput Z := {|
  scan_group := Demo.group "a";
  candidate_legs := [mkCandidate (lit "yes-yes") OrderBuy 4000000; mkCandidate (lit "no-yes") OrderBuy 4000000];
  scan_books := [book "no"; book "yes"];
  scan_now_unix_ms := 1100; max_book_age_ms := 500; scan_min_edge_bps := 1000000;
  vwap_depth_limit_bps := 100; slippage_buffer_bps := 100;
|}.

Definition evidence : OutcomeGroupScanEvidence Z :=
  Eval vm_compute in
    match scan_outcome_group_candidate demo_digest input with
    | Some e => e
    | None => scan_empty (Demo.group "a")
    end.

Lemma scans : scan_outcome_group_candidate demo_digest input = Some evidence.
Proof. vm_cast_no_check (eq_refl (Some evidence)). Qed.

Example scans_admissible : sc_admissible evidence = true ∧ sc_guaranteed_payout evidence = 10000000 ∧
  sc_total_adjusted_cost evidence = 8080000.
Proof. done. Qed.

Lemma row_of_state state row :
  bt_get (payout_per_unit_by_state (payout_matrix (scan_group input))) state = Some row →
  Forall (λ p, p ∈ [0; 500000; 1000000]) row.
Proof.
  intros Hr. apply bt_get_Some in Hr; [|apply (Demo.group_sorted "a")].
  repeat (apply elem_of_cons in Hr as [[= -> ->]|Hr]; [repeat constructor; set_solver|]). by apply elem_of_nil in Hr.
Qed.

(** Of each leg ten units or none. *)
Lemma bought_ten leg : bought evidence leg = 0 ∨ bought evidence leg = 10000000.
Proof.
  unfold bought, bought_of, evidence. cbn [sc_leg_costs fmap list_fmap z_sum foldr ls_leg_id ls_executable_quantity].
  repeat case_bool_decide; subst; try discriminate; vm_compute; auto.
Qed.

Lemma evidence_exact : exact_amounts input evidence.
Proof.
  split.
  - intros state row Hr%row_of_state. eapply Forall_impl; [done|]. intros p Hp.
    repeat (apply elem_of_cons in Hp as [->|Hp]; [vm_compute; discriminate|]). by apply elem_of_nil in Hp.
  - intros l Hl. repeat (apply elem_of_cons in Hl as [->|Hl]; [vm_compute; discriminate|]). by apply elem_of_nil in Hl.
  - intros l Hl. repeat (apply elem_of_cons in Hl as [->|Hl]; [split; vm_compute; discriminate|]).
    by apply elem_of_nil in Hl.
  - intros state row p leg _ _. destruct (bought_ten leg) as [->| ->]; [exists 0; apply Z.mul_0_r|].
    exists (p * 10). change (p * 10000000 = p * 10 * 1000000). lia.
  - vm_compute. discriminate.
  - vm_compute. discriminate.
Qed.

(** The basket costs 8.08 and pays 10 in both outcomes and when the market is void. *)
Lemma admissible_scan_profits_witness :
  sc_admissible evidence = true ∧
  ∀ state st, (state, st) ∈ terminal_states (scan_group input) →
    ∃ row, bt_get (payout_per_unit_by_state (payout_matrix (scan_group input))) state = Some row ∧
      basket_cost evidence * d_unit <
      payout_sum (bought evidence) (matrix_cols (payout_matrix (scan_group input))) row.
Proof.
  split; [reflexivity|].
  apply (admissible_scan_profits demo_digest input evidence (Demo.group_sorted "a") scans eq_refl evidence_exact).
Defined.

End ScanDemo.
