(* ===== verification/LossGovernor.v ===== *)
(** * Loss governor

    Models [src/src/bolt_v3_loss_governor.rs]: the staleness diagnostics of a loss
    snapshot and the admission decision over the configured limits.  [None] is the
    panic of a decimal subtraction that overflows.  The theorems say that the decision
    fails closed and that it is exactly the configured limits. *)

From Stdlib Require Import ZArith Lia.
From stdpp Require Import sorting strings gmap numbers list.
From S2P Require Import Prelude DecimalAmount.

Open Scope Z_scope.

Inductive LossSnapshotSource : Type :=
| NtLossRuntimeFeed
| NtPortfolioSnapshot
| NtAccountSnapshot
| NtAccountAndPositionSnapshot
| NtPositionEvent
| NtPositionChanged
| NtPositionClosed
| NtPositionAdjusted
| NtCapitalAdmissionState
| BoltLossSnapshot
| SourceLossGovernor
| SourceUnknown
| SourceOther.

Definition source_as_str (s : LossSnapshotSource) : string :=
  match s with
  | NtLossRuntimeFeed => "nt_loss_runtime_feed"
  | NtPortfolioSnapshot => "nt_portfolio_snapshot"
  | NtAccountSnapshot => "nt_account_snapshot"
  | NtAccountAndPositionSnapshot => "nt_account_and_position_snapshot"
  | NtPositionEvent => "nt_position_event"
  | NtPositionChanged => "nt_position_changed"
  | NtPositionClosed => "nt_position_closed"
  | NtPositionAdjusted => "nt_position_adjusted"
  | NtCapitalAdmissionState => "nt_capital_admission_state"
  | BoltLossSnapshot => "bolt_loss_snapshot"
  | SourceLossGovernor => "loss_governor"
  | SourceUnknown => "unknown"
  | SourceOther => "other"
  end.

Inductive LossHaltReason : Type :=
| PerTradeLossLimit
| DailyLossLimit
| RollingLossLimit
| MaxDrawdownLimit
| StaleLossSnapshot.

Definition halt_reason_as_str (r : LossHaltReason) : string :=
  match r with
  | PerTradeLossLimit => "per_trade_loss_limit"
  | DailyLossLimit => "daily_loss_limit"
  | RollingLossLimit => "rolling_loss_limit"
  | MaxDrawdownLimit => "max_drawdown_limit"
  | StaleLossSnapshot => "stale_loss_snapshot"
  end.

#[global] Instance LossHaltReason_eq_dec : EqDecision LossHaltReason.
Proof. solve_decision. Defined.
#[global] Instance LossSnapshotSource_eq_dec : EqDecision LossSnapshotSource.
Proof. solve_decision. Defined.

Inductive LossSnapshotStaleReason : Type :=
| MissingSnapshot
| SourceEmpty
| FutureDated
| AgeExceeded
| MissingRequiredField.

Record LossSourceObservationTimestamps : Type := mkObservations {
  last_account_state_observed_at_ns : option Z;
  last_portfolio_snapshot_observed_at_ns : option Z;
  last_position_event_observed_at_ns : option Z;
}.

Definition unobserved : LossSourceObservationTimestamps := mkObservations None None None.

Record LossSnapshotDiagnostics : Type := mkDiagnostics {
  diag_snapshot_present : bool;
  diag_snapshot_observed_at_ns : option Z;
  diag_admission_now_ns : Z;
  diag_snapshot_age_ns : option Z;
  diag_max_snapshot_age_ns : option Z;
  diag_snapshot_source : option LossSnapshotSource;
  diag_per_trade_pnl_present : bool;
  diag_daily_pnl_present : bool;
  diag_rolling_pnl_present : bool;
  diag_current_equity_present : bool;
  diag_peak_equity_present : bool;
  diag_last_account_state_observed_at_ns : option Z;
  diag_last_portfolio_snapshot_observed_at_ns : option Z;
  diag_last_position_event_observed_at_ns : option Z;
  diag_stale_reason : option LossSnapshotStaleReason;
}.

Definition not_evaluated (admission_now_ns : Z) : LossSnapshotDiagnostics :=
  mkDiagnostics false None admission_now_ns None None None false false false false false
    None None None None.

Record LossAdmissionDecision : Type := mkLossDecision {
  loss_accepted : bool;
  halt_reasons : list LossHaltReason;
  loss_diagnostics : LossSnapshotDiagnostics;
}.

Definition is_none {A} (o : option A) : bool := negb (is_some o).

Section Governor.
Context {D : Type} `{DecimalOps D}.

Record LossGovernorPolicy : Type := mkLossPolicy {
  policy_max_snapshot_age_ns : Z;
  max_per_trade_loss : option D;
  max_daily_loss : option D;
  max_rolling_loss : option D;
  max_drawdown : option D;
}.

Record LossSnapshot : Type := mkLossSnapshot {
  snapshot_source : option LossSnapshotSource;
  snapshot_observed_at_ns : Z;
  per_trade_pnl : option D;
  daily_pnl : option D;
  rolling_pnl : option D;
  current_equity : option D;
  peak_equity : option D;
  source_observations : LossSourceObservationTimestamps;
}.

(** [missing_required_field]: a configured limit without its figure. *)
Definition missing_required_field (policy : LossGovernorPolicy) (s : LossSnapshot) : bool :=
  (is_some (max_per_trade_loss policy) && is_none (per_trade_pnl s))
  || (is_some (max_daily_loss policy) && is_none (daily_pnl s))
  || (is_some (max_rolling_loss policy) && is_none (rolling_pnl s))
  || (is_some (max_drawdown policy) && (is_none (current_equity s) || is_none (peak_equity s))).

Definition loss_snapshot_diagnostics (policy : LossGovernorPolicy) (snapshot : option LossSnapshot)
    (now_ns : Z) (observations : LossSourceObservationTimestamps) : LossSnapshotDiagnostics :=
  match snapshot with
  | None =>
      {| diag_snapshot_present := false;
         diag_snapshot_observed_at_ns := None;
         diag_admission_now_ns := now_ns;
         diag_snapshot_age_ns := None;
         diag_max_snapshot_age_ns := Some (policy_max_snapshot_age_ns policy);
         diag_snapshot_source := None;
         diag_per_trade_pnl_present := false;
         diag_daily_pnl_present := false;
         diag_rolling_pnl_present := false;
         diag_current_equity_present := false;
         diag_peak_equity_present := false;
         diag_last_account_state_observed_at_ns := last_account_state_observed_at_ns observations;
         diag_last_portfolio_snapshot_observed_at_ns :=
           last_portfolio_snapshot_observed_at_ns observations;
         diag_last_position_event_observed_at_ns := last_position_event_observed_at_ns observations;
         diag_stale_reason := Some MissingSnapshot |}
  | Some s =>
      let source_empty := is_none (snapshot_source s) in
      let future_dated := now_ns <? snapshot_observed_at_ns s in
      let snapshot_age_ns :=
        if negb future_dated then Some (now_ns - snapshot_observed_at_ns s) else None in
      let age_exceeded :=
        match snapshot_age_ns with
        | Some age => policy_max_snapshot_age_ns policy <? age
        | None => false
        end in
      let stale_reason :=
        if source_empty then Some SourceEmpty
        else if future_dated then Some FutureDated
        else if age_exceeded then Some AgeExceeded
        else if missing_required_field policy s then Some MissingRequiredField
        else None in
      {| diag_snapshot_present := true;
         diag_snapshot_observed_at_ns := Some (snapshot_observed_at_ns s);
         diag_admission_now_ns := now_ns;
         diag_snapshot_age_ns := snapshot_age_ns;
         diag_max_snapshot_age_ns := Some (policy_max_snapshot_age_ns policy);
         diag_snapshot_source := snapshot_source s;
         diag_per_trade_pnl_present := is_some (per_trade_pnl s);
         diag_daily_pnl_present := is_some (daily_pnl s);
         diag_rolling_pnl_present := is_some (rolling_pnl s);
         diag_current_equity_present := is_some (current_equity s);
         diag_peak_equity_present := is_some (peak_equity s);
         diag_last_account_state_observed_at_ns := last_account_state_observed_at_ns observations;
         diag_last_portfolio_snapshot_observed_at_ns :=
           last_portfolio_snapshot_observed_at_ns observations;
         diag_last_position_event_observed_at_ns := last_position_event_observed_at_ns observations;
         diag_stale_reason := stale_reason |}
  end.

Definition loss_snapshot_stale_reason (policy : LossGovernorPolicy) (s : LossSnapshot) (now_ns : Z)
    : option LossSnapshotStaleReason :=
  if is_none (snapshot_source s) then Some SourceEmpty
  else if now_ns <? snapshot_observed_at_ns s then Some FutureDated
  else
    let age := now_ns - snapshot_observed_at_ns s in
    if policy_max_snapshot_age_ns policy <? age then Some AgeExceeded
    else if missing_required_field policy s then Some MissingRequiredField
    else None.

Definition loss_breaches (pnl limit : D) : bool := d_ltb pnl d_zero && d_geb (d_neg pnl) limit.

(** [peak > current && peak - current >= limit]; the subtraction may panic. *)
Definition drawdown_breaches (current peak limit : D) : option bool :=
  if d_gtb peak current then
    match d_sub peak current with
    | Some drawdown => Some (d_geb drawdown limit)
    | None => None
    end
  else Some false.

Definition loss_rejected (reason : LossHaltReason) (d : LossSnapshotDiagnostics)
    : LossAdmissionDecision := mkLossDecision false [reason] d.

(** One of the three profit-and-loss checks. *)
Definition loss_check (limit pnl : option D) (reason : LossHaltReason) : list LossHaltReason :=
  match limit, pnl with
  | Some limit, Some pnl => if loss_breaches pnl limit then [reason] else []
  | _, _ => []
  end.

Definition drawdown_check (limit current peak : option D) : option (list LossHaltReason) :=
  match limit, current, peak with
  | Some limit, Some current, Some peak =>
      breached ← drawdown_breaches current peak limit;
      Some (if (breached : bool) then [MaxDrawdownLimit] else [])
  | _, _, _ => Some []
  end.

Definition evaluate_loss_admission_with_observations (policy : LossGovernorPolicy)
    (snapshot : option LossSnapshot) (now_ns : Z) (observations : LossSourceObservationTimestamps)
    : option LossAdmissionDecision :=
  let diagnostics := loss_snapshot_diagnostics policy snapshot now_ns observations in
  match snapshot with
  | None => Some (loss_rejected StaleLossSnapshot diagnostics)
  | Some s =>
      if is_some (diag_stale_reason diagnostics)
      then Some (loss_rejected StaleLossSnapshot diagnostics)
      else
        drawdown ← drawdown_check (max_drawdown policy) (current_equity s) (peak_equity s);
        let reasons :=
          loss_check (max_per_trade_loss policy) (per_trade_pnl s) PerTradeLossLimit ++
          loss_check (max_daily_loss policy) (daily_pnl s) DailyLossLimit ++
          loss_check (max_rolling_loss policy) (rolling_pnl s) RollingLossLimit ++ drawdown in
        Some (mkLossDecision (match reasons with [] => true | _ => false end) reasons diagnostics)
  end.

Definition evaluate_loss_admission (policy : LossGovernorPolicy) (snapshot : option LossSnapshot)
    (now_ns : Z) : option LossAdmissionDecision :=
  evaluate_loss_admission_with_observations policy snapshot now_ns
    (match snapshot with Some s => source_observations s | None => unobserved end).

End Governor.
Arguments LossGovernorPolicy D : clear implicits.
Arguments LossSnapshot D : clear implicits.

(** ** Properties *)

Section Decisions.
Context {D : Type} `{DecimalOps D}.

(** The two places that compute the staleness of a snapshot agree. *)
Lemma diagnostics_stale_reason (policy : LossGovernorPolicy D) s now obs :
  diag_stale_reason (loss_snapshot_diagnostics policy (Some s) now obs) =
    loss_snapshot_stale_reason policy s now.
Proof.
  unfold loss_snapshot_diagnostics, loss_snapshot_stale_reason. simpl.
  destruct (is_none (snapshot_source s)); [done|].
  by destruct (now <? snapshot_observed_at_ns s).
Qed.

(** The snapshot may be judged: present source, not from the future, young enough, and
    with every figure the policy limits. *)
Definition judgeable (policy : LossGovernorPolicy D) (s : LossSnapshot D) (now : Z) : Prop :=
  is_Some (snapshot_source s) ∧ snapshot_observed_at_ns s ≤ now ∧
  now - snapshot_observed_at_ns s ≤ policy_max_snapshot_age_ns policy ∧
  missing_required_field policy s = false.

Lemma stale_reason_None policy s now :
  loss_snapshot_stale_reason policy s now = None ↔ judgeable policy s now.
Proof.
  unfold loss_snapshot_stale_reason, judgeable. destruct (snapshot_source s) as [src|]; simpl.
  - destruct (Z.ltb_spec now (snapshot_observed_at_ns s)); [split; [done|lia]|].
    destruct (Z.ltb_spec (policy_max_snapshot_age_ns policy) (now - snapshot_observed_at_ns s));
      [split; [done|lia]|].
    destruct (missing_required_field policy s); [split; [done|by intros (_ & _ & _ & ?)]|].
    split; [|done]. intros _. split_and!; [by eexists|done|done|done].
  - split; [done|]. by intros [[? ?] _].
Qed.

#[global] Instance judgeable_dec policy s now : Decision (judgeable policy s now).
Proof.
  refine (match loss_snapshot_stale_reason policy s now as r
            return loss_snapshot_stale_reason policy s now = r → _ with
          | None => λ E, left _ | Some _ => λ E, right _ end eq_refl).
  - intros Hj. apply stale_reason_None in Hj. congruence.
  - by apply stale_reason_None.
Defined.

Definition checked_reasons (policy : LossGovernorPolicy D) (s : LossSnapshot D)
    : option (list LossHaltReason) :=
  drawdown ← drawdown_check (max_drawdown policy) (current_equity s) (peak_equity s);
  Some (loss_check (max_per_trade_loss policy) (per_trade_pnl s) PerTradeLossLimit ++
        loss_check (max_daily_loss policy) (daily_pnl s) DailyLossLimit ++
        loss_check (max_rolling_loss policy) (rolling_pnl s) RollingLossLimit ++ drawdown).

Lemma evaluate_cases policy snapshot now obs :
  evaluate_loss_admission_with_observations policy snapshot now obs =
    let d := loss_snapshot_diagnostics policy snapshot now obs in
    match snapshot with
    | Some s =>
        if decide (judgeable policy s now)
        then reasons ← checked_reasons policy s;
             Some (mkLossDecision (match reasons with [] => true | _ => false end) reasons d)
        else Some (loss_rejected StaleLossSnapshot d)
    | None => Some (loss_rejected StaleLossSnapshot d)
    end.
Proof.
  destruct snapshot as [s|]; [|done]. unfold evaluate_loss_admission_with_observations.
  rewrite diagnostics_stale_reason. pose proof (stale_reason_None policy s now) as Hiff.
  case_decide as Hj.
  - rewrite (proj2 Hiff Hj). simpl. unfold checked_reasons. by destruct (drawdown_check _ _ _).
  - destruct (loss_snapshot_stale_reason policy s now); [done|]. tauto.
Qed.

Lemma loss_check_reason limit pnl r r' : r ∈ loss_check limit pnl r' → r = r'.
Proof.
  unfold loss_check. destruct limit as [l|], pnl as [p|]; try by inversion 1.
  destruct (loss_breaches p l); [by intros ->%list_elem_of_singleton|by inversion 1].
Qed.

Lemma drawdown_check_reason limit current peak dd r :
  drawdown_check limit current peak = Some dd → r ∈ dd → r = MaxDrawdownLimit.
Proof.
  unfold drawdown_check. destruct limit as [l|], current as [c|], peak as [p|];
    try (by intros [= <-]; inversion 1).
  destruct (drawdown_breaches c p l) as [[]|]; simpl; intros [= <-];
    [by intros ->%list_elem_of_singleton|by inversion 1].
Qed.

(** Staleness is a reason only of a snapshot that may not be judged. *)
Lemma stale_halt_unjudgeable policy s now obs d :
  evaluate_loss_admission_with_observations policy (Some s) now obs = Some d →
  StaleLossSnapshot ∈ halt_reasons d → ¬ judgeable policy s now.
Proof.
  rewrite evaluate_cases. simpl. case_decide; [|done]. unfold checked_reasons.
  destruct (drawdown_check _ _ _) as [dd|] eqn:Edd; [|done]. simpl. intros [= <-]. simpl.
  rewrite !elem_of_app. intros [Hr|[Hr|[Hr|Hr]]]; try by apply loss_check_reason in Hr.
  by eapply drawdown_check_reason in Hr.
Qed.

(** The governor fails closed.  Without a snapshot, or with one that has no source,
    is dated in the future, is older than the policy allows or lacks a figure the
    policy limits, the decision is a rejection whose only reason is the stale
    snapshot; on any other snapshot staleness is never a reason. *)
Lemma loss_governor_fails_closed (policy : LossGovernorPolicy D) snapshot now obs :
  let decision := evaluate_loss_admission_with_observations policy snapshot now obs in
  let fails_closed := ∃ d, decision = Some d ∧ loss_accepted d = false ∧
                        halt_reasons d = [StaleLossSnapshot] in
  match snapshot with
  | Some s => if decide (judgeable policy s now)
              then ∀ d, decision = Some d → ¬ (StaleLossSnapshot ∈ halt_reasons d)
              else fails_closed
  | None => fails_closed
  end.
Proof.
  simpl. destruct snapshot as [s|]; [|by eexists]. case_decide as Hj.
  - intros d Hd Hin. by eapply stale_halt_unjudgeable in Hd.
  - rewrite evaluate_cases. simpl. rewrite decide_False by done. by eexists.
Qed.

End Decisions.

Section Limits.
Context `{DecimalLaws D}.

(** A configured loss limit is reached. *)
Definition loss_reached (limit pnl : option D) : Prop :=
  ∃ l p, limit = Some l ∧ pnl = Some p ∧ d_value p < 0 ∧ d_value l ≤ - d_value p.

Definition drawdown_reached (limit current peak : option D) : Prop :=
  ∃ l c p, limit = Some l ∧ current = Some c ∧ peak = Some p ∧
    d_value c < d_value p ∧ d_value l ≤ d_value p - d_value c.

Definition limit_reached (policy : LossGovernorPolicy D) (s : LossSnapshot D) (r : LossHaltReason)
    : Prop :=
  match r with
  | PerTradeLossLimit => loss_reached (max_per_trade_loss policy) (per_trade_pnl s)
  | DailyLossLimit => loss_reached (max_daily_loss policy) (daily_pnl s)
  | RollingLossLimit => loss_reached (max_rolling_loss policy) (rolling_pnl s)
  | MaxDrawdownLimit => drawdown_reached (max_drawdown policy) (current_equity s) (peak_equity s)
  | StaleLossSnapshot => False
  end.

(** Every figure is on the decimal grid, and the drawdown fits the mantissa. *)
Definition figures_exact (policy : LossGovernorPolicy D) (s : LossSnapshot D) : Prop :=
  Forall (from_option d_exact True)
    [max_per_trade_loss policy; max_daily_loss policy; max_rolling_loss policy;
     max_drawdown policy; per_trade_pnl s; daily_pnl s; rolling_pnl s;
     current_equity s; peak_equity s] ∧
  ∀ c p, current_equity s = Some c → peak_equity s = Some p →
    Z.abs (d_value p - d_value c) ≤ d_limit.

Lemma loss_check_reached limit pnl r :
  from_option d_exact True limit → from_option d_exact True pnl →
  r ∈ loss_check limit pnl r ↔ loss_reached limit pnl.
Proof.
  intros Hl Hp. unfold loss_check, loss_reached. destruct limit as [l|], pnl as [p|]; simpl in *.
  2-4: split; [by inversion 1|by intros (? & ? & ? & ? & _)].
  unfold loss_breaches. destruct d_zero_exact as [Hz Hz0]. destruct (d_neg_exact p Hp) as [Hn Hn0].
  rewrite d_ltb_value, d_geb_value, Hz0, Hn0 by done.
  destruct (Z.ltb_spec (d_value p) 0), (Z.leb_spec (d_value l) (- d_value p)); simpl.
  - rewrite list_elem_of_singleton. split; [|done]. intros _. by exists l, p.
  - split; [by inversion 1|]. intros (? & ? & [= <-] & [= <-] & ? & ?). lia.
  - split; [by inversion 1|]. intros (? & ? & [= <-] & [= <-] & ? & ?). lia.
  - split; [by inversion 1|]. intros (? & ? & [= <-] & [= <-] & ? & ?). lia.
Qed.

Lemma drawdown_check_reached limit current peak :
  from_option d_exact True limit → from_option d_exact True current →
  from_option d_exact True peak →
  (∀ c p, current = Some c → peak = Some p → Z.abs (d_value p - d_value c) ≤ d_limit) →
  ∃ dd, drawdown_check limit current peak = Some dd ∧
    (MaxDrawdownLimit ∈ dd ↔ drawdown_reached limit current peak).
Proof.
  intros Hl Hc Hp Hfit. unfold drawdown_check, drawdown_reached.
  destruct limit as [l|], current as [c|], peak as [p|]; simpl in *.
  2-8: exists []; split; [done|]; split; [by inversion 1|];
    by intros (? & ? & ? & ? & ? & ? & _).
  unfold drawdown_breaches. rewrite d_gtb_value by done.
  destruct (Z.ltb_spec (d_value c) (d_value p)).
  - destruct (d_sub_exact p c Hp Hc (Hfit c p eq_refl eq_refl)) as (x & Ex & Hx & Hv).
    unfold d_sub. rewrite Ex. simpl. rewrite d_geb_value, Hv by done.
    eexists. split; [done|]. destruct (Z.leb_spec (d_value l) (d_value p - d_value c)).
    + rewrite list_elem_of_singleton. split; [|done]. intros _. by exists l, c, p.
    + split; [by inversion 1|]. intros (? & ? & ? & [= <-] & [= <-] & [= <-] & ? & ?). lia.
  - exists []. split; [done|]. split; [by inversion 1|].
    intros (? & ? & ? & [= <-] & [= <-] & [= <-] & ? & ?). lia.
Qed.

Lemma loss_governor_cases (policy : LossGovernorPolicy D) s now obs :
  judgeable policy s now → figures_exact policy s →
  ∃ d, evaluate_loss_admission_with_observations policy (Some s) now obs = Some d ∧
    (∀ r, r ∈ halt_reasons d ↔ limit_reached policy s r) ∧
    (loss_accepted d = true ↔ ∀ r, ¬ limit_reached policy s r).
Proof.
  intros Hj [Hex Hfit]. rewrite !Forall_cons in Hex.
  destruct Hex as (Hl1 & Hl2 & Hl3 & Hl4 & Hp1 & Hp2 & Hp3 & Hc & Hp & _).
  rewrite evaluate_cases. simpl. rewrite decide_True by done. unfold checked_reasons.
  destruct (drawdown_check_reached _ _ _ Hl4 Hc Hp Hfit) as (dd & Edd & Hdd). rewrite Edd. simpl.
  set (reasons := _ ++ _). eexists. split; [done|]. simpl.
  assert (Hr : ∀ r, r ∈ reasons ↔ limit_reached policy s r).
  { intros r. unfold reasons. rewrite !elem_of_app.
    assert (Hlc : ∀ l p r0, r ∈ loss_check l p r0 → r = r0) by (intros; by eapply loss_check_reason).
    assert (Hdc : r ∈ dd → r = MaxDrawdownLimit) by (intros; by eapply drawdown_check_reason).
    destruct r; simpl; rewrite <- ?(loss_check_reached _ _ PerTradeLossLimit Hl1 Hp1),
      <- ?(loss_check_reached _ _ DailyLossLimit Hl2 Hp2),
      <- ?(loss_check_reached _ _ RollingLossLimit Hl3 Hp3), <- ?Hdd.
    all: split; [|tauto].
    all: intros [Hin|[Hin|[Hin|Hin]]]; try done; exfalso;
      first [by apply Hlc in Hin|by apply Hdc in Hin]. }
  split; [exact Hr|]. split.
  - intros Hacc r. rewrite <- Hr. destruct reasons; [by inversion 1|done].
  - intros Hnone. destruct reasons as [|r rs]; [done|]. exfalso. apply (Hnone r), Hr. by left.
Qed.

(** On a snapshot that may be judged the governor decides exactly by the configured
    limits: it does not panic, it halts for a reason exactly when that limit is
    reached, and it accepts exactly when none is. *)
Lemma loss_governor_exact (policy : LossGovernorPolicy D) s now obs :
  judgeable policy s now → figures_exact policy s →
  ∃ d, evaluate_loss_admission_with_observations policy (Some s) now obs = Some d ∧
    (∀ r, r ∈ halt_reasons d ↔ limit_reached policy s r) ∧
    (loss_accepted d = true ↔ ∀ r, ¬ limit_reached policy s r).
Proof. apply loss_governor_cases. Qed.

End Limits.

(** A day that lost 12 against a limit of 10, with a drawdown of 3 against 5. *)
Definition demo_loss_policy : LossGovernorPolicy Z :=
  mkLossPolicy 1000 None (Some 10) None (Some 5).
Definition demo_loss_snapshot : LossSnapshot Z :=
  mkLossSnapshot (Some NtPortfolioSnapshot) 500 None (Some (-12)) None (Some 97) (Some 100) unobserved.

Lemma loss_governor_exact_witness :
  ∃ d, evaluate_loss_admission_with_observations demo_loss_policy (Some demo_loss_snapshot) 600
         unobserved = Some d ∧ DailyLossLimit ∈ halt_reasons d ∧ ¬ (MaxDrawdownLimit ∈ halt_reasons d).
Proof.
  destruct (loss_governor_exact demo_loss_policy demo_loss_snapshot 600 unobserved)
    as (d & E & Hr & _).
  - repeat split; done.
  - split; [by repeat constructor|]. by intros c p [= <-] [= <-].
  - exists d. rewrite !Hr. split_and!; [done| |].
    + by exists 10, (-12).
    + intros (l & c & p & [= <-] & [= <-] & [= <-] & ? & ?). simpl in *. lia.
Defined.
