(* ===== verification/KillSwitch.v ===== *)
(** * Kill switch

    Models [src/src/bolt_v3_kill_switch.rs]: the halt state machine, the evidence a
    manual reset carries, and the identifier of a halt.  The digest (SHA-256 in hex) is
    third-party and a parameter.  The theorems: the only way back to [Armed] is an
    authorised reset on fresh, clean reconciliation; a halt keeps its identity from
    trigger to reset; halt identifiers are computed from injective pre-images. *)

From Stdlib Require Import ZArith Lia.
From stdpp Require Import sorting strings gmap numbers list relations.
From S2P Require Import Prelude RustText DecimalAmount LossGovernor.

Open Scope Z_scope.

(** ** Data *)

Inductive KillSwitchHaltTriggerKind : Type :=
| LossGovernorBreach
| ProviderCollateralAllowanceRuntimeFailure.

Record KillSwitchHaltTrigger : Type := mkHaltTrigger {
  trigger_kind : KillSwitchHaltTriggerKind;
  trigger_source : text;
  source_timestamp_unix_nanos : Z;
  trigger_reason : text;
  loss_halt_reason : option LossHaltReason;
}.

Definition loss_governor_breach (source : text) (ts : Z) (reason : text) : KillSwitchHaltTrigger :=
  mkHaltTrigger LossGovernorBreach source ts reason None.

Definition loss_governor_breach_with_reason (source : text) (ts : Z) (reason : text)
    (loss : LossHaltReason) : KillSwitchHaltTrigger :=
  mkHaltTrigger LossGovernorBreach source ts reason (Some loss).

Definition provider_collateral_allowance_runtime_failure (source : text) (ts : Z) (reason : text)
    : KillSwitchHaltTrigger :=
  mkHaltTrigger ProviderCollateralAllowanceRuntimeFailure source ts reason None.

Record KillSwitchManualResetEvidence : Type := mkResetEvidence {
  operator_id : text;
  evidence_path : text;
  evidence_sha256 : text;
  requested_at_unix_nanos : Z;
}.

Inductive KillSwitchManualResetEvidenceError : Type :=
| MissingOperatorId
| InvalidEvidencePath
| InvalidEvidenceSha256.

(** [KillSwitchManualResetEvidence::new]. *)
Definition reset_evidence_new (operator path sha256 : text) (requested_at : Z)
    : Result KillSwitchManualResetEvidence KillSwitchManualResetEvidenceError :=
  let operator := trim operator in
  let path := trim path in
  let sha256 := trim sha256 in
  if is_empty operator then Err MissingOperatorId
  else if is_empty path || path_is_absolute path || has_parent_dir path
  then Err InvalidEvidencePath
  else if negb (len sha256 =? 64) || negb (forallb is_ascii_hexdigit (as_bytes sha256))
  then Err InvalidEvidenceSha256
  else Ok (mkResetEvidence operator path sha256 requested_at).

Inductive KillSwitchState : Type :=
| KsArmed
| KsHalting (halt_id : text) (trigger : KillSwitchHaltTrigger)
| KsHalted (halt_id : text) (trigger : KillSwitchHaltTrigger)
| KsCancelling (halt_id : text)
| KsFlattening (halt_id : text)
| KsFlat (halt_id : text)
| KsFailedManualIntervention (halt_id : text) (reason : text).

Inductive KillSwitchEvent : Type :=
| HaltTriggered (trigger : KillSwitchHaltTrigger)
| DurableHaltEvidenceRecorded
| DurableHaltEvidenceWriteFailed (reason : text)
| HaltActionDispatchFailed (reason : text)
| ReconciliationProofReceived
| ManualResetRequested (evidence : KillSwitchManualResetEvidence).

Record KillSwitchTransitionContext : Type := mkKsContext {
  state_write_succeeded : bool;
  durable_halt_evidence_recorded : bool;
  operator_authorized : bool;
  manual_reset_evidence_valid : bool;
  mandatory_proof_streams_fresh : bool;
  no_outstanding_order_risk : bool;
  no_open_positions : bool;
  no_pending_entry_risk : bool;
}.

Inductive KillSwitchStateKind : Type :=
| KindArmed | KindHalting | KindHalted | KindCancelling | KindFlattening | KindFlat
| KindFailedManualIntervention.

Inductive KillSwitchEventKind : Type :=
| KindHaltTriggered | KindDurableHaltEvidenceRecorded | KindDurableHaltEvidenceWriteFailed
| KindHaltActionDispatchFailed | KindReconciliationProofReceived | KindManualResetRequested.

Inductive KillSwitchTransitionError : Type :=
| MissingDurableHaltEvidence
| UnauthorizedManualReset
| InvalidManualResetEvidence
| MissingFreshReconciliationProof
| ReconciliationNotFlat
| IllegalTransition (state : KillSwitchStateKind) (event : KillSwitchEventKind).

Definition state_kind (s : KillSwitchState) : KillSwitchStateKind :=
  match s with
  | KsArmed => KindArmed
  | KsHalting _ _ => KindHalting
  | KsHalted _ _ => KindHalted
  | KsCancelling _ => KindCancelling
  | KsFlattening _ => KindFlattening
  | KsFlat _ => KindFlat
  | KsFailedManualIntervention _ _ => KindFailedManualIntervention
  end.

Definition event_kind (e : KillSwitchEvent) : KillSwitchEventKind :=
  match e with
  | HaltTriggered _ => KindHaltTriggered
  | DurableHaltEvidenceRecorded => KindDurableHaltEvidenceRecorded
  | DurableHaltEvidenceWriteFailed _ => KindDurableHaltEvidenceWriteFailed
  | HaltActionDispatchFailed _ => KindHaltActionDispatchFailed
  | ReconciliationProofReceived => KindReconciliationProofReceived
  | ManualResetRequested _ => KindManualResetRequested
  end.

Definition require_clean_reconciliation (c : KillSwitchTransitionContext)
    : Result unit KillSwitchTransitionError :=
  if negb (no_outstanding_order_risk c) || negb (no_open_positions c) ||
     negb (no_pending_entry_risk c)
  then Err ReconciliationNotFlat
  else Ok tt.

Definition require_fresh_clean_reconciliation (c : KillSwitchTransitionContext)
    : Result unit KillSwitchTransitionError :=
  if negb (mandatory_proof_streams_fresh c) then Err MissingFreshReconciliationProof
  else require_clean_reconciliation c.

(** The bytes fed to the hasher by [halt_id_for_trigger], in order. *)
Definition HALT_ID_DOMAIN : bytes := lit "bolt_v3.kill_switch.halt_id.v1".

Definition kind_bytes (k : KillSwitchHaltTriggerKind) : bytes :=
  match k with
  | LossGovernorBreach => lit "loss_governor_breach"
  | ProviderCollateralAllowanceRuntimeFailure => lit "provider_collateral_allowance_runtime_failure"
  end.

Definition halt_id_preimage (t : KillSwitchHaltTrigger) : bytes :=
  HALT_ID_DOMAIN ++ [0] ++ kind_bytes (trigger_kind t) ++ [0] ++ as_bytes (trigger_source t) ++ [0] ++
  to_be_bytes (source_timestamp_unix_nanos t) ++ [0] ++ as_bytes (trigger_reason t).

Section Digest.
(** [hex::encode] of the SHA-256 digest. *)
Context (sha256_hex : bytes → text).

Definition halt_id_for_trigger (t : KillSwitchHaltTrigger) : text := sha256_hex (halt_id_preimage t).

Definition transition_kill_switch_state (state : KillSwitchState) (event : KillSwitchEvent)
    (context : KillSwitchTransitionContext) : Result KillSwitchState KillSwitchTransitionError :=
  match state, event with
  | KsArmed, HaltTriggered trigger => Ok (KsHalting (halt_id_for_trigger trigger) trigger)
  | KsHalting halt_id trigger, DurableHaltEvidenceRecorded =>
      if negb (state_write_succeeded context) || negb (durable_halt_evidence_recorded context)
      then Err MissingDurableHaltEvidence
      else Ok (KsHalted halt_id trigger)
  | KsHalting halt_id _, DurableHaltEvidenceWriteFailed reason =>
      Ok (KsFailedManualIntervention halt_id reason)
  | KsHalting halt_id _, HaltActionDispatchFailed reason =>
      Ok (KsFailedManualIntervention halt_id reason)
  | KsHalted halt_id _, ReconciliationProofReceived =>
      match require_fresh_clean_reconciliation context with
      | Err e => Err e
      | Ok _ => Ok (KsFlat halt_id)
      end
  | (KsFlat _ | KsFailedManualIntervention _ _), ManualResetRequested _ =>
      if negb (operator_authorized context) then Err UnauthorizedManualReset
      else if negb (manual_reset_evidence_valid context) then Err InvalidManualResetEvidence
      else if negb (mandatory_proof_streams_fresh context) then Err MissingFreshReconciliationProof
      else match require_clean_reconciliation context with
           | Err e => Err e
           | Ok _ => Ok KsArmed
           end
  | state, event => Err (IllegalTransition (state_kind state) (event_kind event))
  end.

(** ** The machine over a sequence of events *)

(** An event with the context it is judged in; a refused event leaves the state. *)
Inductive ks_step : KillSwitchState → KillSwitchState → Prop :=
| ks_accept s event context s' :
    transition_kill_switch_state s event context = Ok s' → ks_step s s'
| ks_refuse s event context e :
    transition_kill_switch_state s event context = Err e → ks_step s s.

Definition halt_id_of (s : KillSwitchState) : option text :=
  match s with
  | KsArmed => None
  | KsHalting id _ | KsHalted id _ | KsCancelling id | KsFlattening id | KsFlat id
  | KsFailedManualIntervention id _ => Some id
  end.

Definition clean_reset_context (c : KillSwitchTransitionContext) : Prop :=
  operator_authorized c = true ∧ manual_reset_evidence_valid c = true ∧
  mandatory_proof_streams_fresh c = true ∧ no_outstanding_order_risk c = true ∧
  no_open_positions c = true ∧ no_pending_entry_risk c = true.

Lemma clean_reconciliation_ok c u :
  require_clean_reconciliation c = Ok u →
  no_outstanding_order_risk c = true ∧ no_open_positions c = true ∧ no_pending_entry_risk c = true.
Proof.
  unfold require_clean_reconciliation.
  by destruct (no_outstanding_order_risk c), (no_open_positions c), (no_pending_entry_risk c).
Qed.

(** Re-arming needs an authorised reset.  A transition into [Armed] is accepted only
    for a manual reset, from [Flat] or [FailedManualIntervention], with an authorised
    operator, valid evidence, fresh proof streams, no order risk, no open position and
    no pending entry. *)
Lemma rearm_needs_clean_reset state event context :
  transition_kill_switch_state state event context = Ok KsArmed →
  (∃ evidence, event = ManualResetRequested evidence) ∧ clean_reset_context context ∧
  ((∃ id, state = KsFlat id) ∨ ∃ id reason, state = KsFailedManualIntervention id reason).
Proof.
  unfold transition_kill_switch_state, clean_reset_context.
  destruct state, event; try done.
  - by destruct (negb _ || negb _).
  - by destruct (require_fresh_clean_reconciliation context).
  - destruct (operator_authorized context), (manual_reset_evidence_valid context),
      (mandatory_proof_streams_fresh context); try done. simpl.
    destruct (require_clean_reconciliation context) as [u|] eqn:E; [|done].
    apply clean_reconciliation_ok in E as (-> & -> & ->). intros _. split_and!; eauto.
  - destruct (operator_authorized context), (manual_reset_evidence_valid context),
      (mandatory_proof_streams_fresh context); try done. simpl.
    destruct (require_clean_reconciliation context) as [u|] eqn:E; [|done].
    apply clean_reconciliation_ok in E as (-> & -> & ->). intros _. split_and!; eauto.
Qed.

(** Each step keeps the halt identity, or is the reset, or starts a halt. *)
Lemma transition_halt_id s event context s' :
  transition_kill_switch_state s event context = Ok s' →
  (s = KsArmed ∧ ∃ trigger, event = HaltTriggered trigger ∧
     s' = KsHalting (halt_id_for_trigger trigger) trigger) ∨
  (s' = KsArmed) ∨ (s ≠ KsArmed ∧ s' ≠ KsArmed ∧ halt_id_of s' = halt_id_of s).
Proof.
  unfold transition_kill_switch_state. destruct s, event; try done; simpl.
  - intros [= <-]. left. eauto.
  - destruct (negb _ || negb _); [done|]. intros [= <-]. auto.
  - intros [= <-]. auto.
  - intros [= <-]. auto.
  - destruct (require_fresh_clean_reconciliation context); [|done]. intros [= <-]. auto.
  - repeat case_match; intros [= <-]; auto.
  - repeat case_match; intros [= <-]; auto.
Qed.

Lemma halt_id_steps s s' :
  rtc (λ a b, ks_step a b ∧ b ≠ KsArmed) s s' → s ≠ KsArmed → halt_id_of s' = halt_id_of s ∧ s' ≠ KsArmed.
Proof.
  induction 1 as [|s1 s2 s3 [Hstep Hne] _ IH]; [done|]. intros Hs1.
  destruct (IH Hne) as [-> ?]. split; [|done].
  destruct Hstep as [a event context b E|]; [|done].
  destruct (transition_halt_id _ _ _ _ E) as [[? _]|[?|(_ & _ & ?)]]; done.
Qed.

(** A halt keeps its identity.  From the accepted trigger until the switch is armed
    again, through any sequence of events, accepted or refused, the state carries the
    identifier computed from that trigger. *)
Lemma halt_id_stable trigger context s1 s2 :
  transition_kill_switch_state KsArmed (HaltTriggered trigger) context = Ok s1 →
  rtc (λ a b, ks_step a b ∧ b ≠ KsArmed) s1 s2 →
  halt_id_of s2 = Some (halt_id_for_trigger trigger).
Proof.
  intros [= <-] Hrtc. destruct (halt_id_steps _ _ Hrtc) as [-> _]; done.
Qed.

(** The states a run from [Armed] visits. *)
Definition live_state (s : KillSwitchState) : Prop :=
  match s with KsCancelling _ | KsFlattening _ => False | _ => True end.

Lemma transition_live s event context s' :
  transition_kill_switch_state s event context = Ok s' → live_state s'.
Proof.
  unfold transition_kill_switch_state. destruct s, event; try done; repeat case_match; by intros [= <-].
Qed.

(** [Cancelling] and [Flattening] are never entered and never left: no run from
    [Armed] reaches them, and every event in them is refused as illegal. *)
Lemma cancelling_flattening_dead s event context :
  (rtc ks_step KsArmed s → live_state s) ∧
  (¬ live_state s →
   transition_kill_switch_state s event context =
     Err (IllegalTransition (state_kind s) (event_kind event))).
Proof.
  split.
  - assert (Hgen : ∀ s0, rtc ks_step s0 s → live_state s0 → live_state s).
    { induction 1 as [|a b c Hstep _ IH]; [done|]. intros Ha. apply IH.
      destruct Hstep as [? ? ? ? E|]; [by eapply transition_live|done]. }
    intros Hrtc. by apply (Hgen _ Hrtc).
  - destruct s; try (by intros []); by destruct event.
Qed.

End Digest.

(** ** Witnesses and the identifier *)

Definition demo_trigger : KillSwitchHaltTrigger := loss_governor_breach (lit "governor") 5 (lit "daily").
Definition demo_ks_context : KillSwitchTransitionContext :=
  mkKsContext true true true true true true true true.
Definition demo_evidence : KillSwitchManualResetEvidence :=
  mkResetEvidence (lit "ops") (lit "reset.json") (lit "00") 9.

Lemma rearm_needs_clean_reset_witness : clean_reset_context demo_ks_context.
Proof.
  apply (rearm_needs_clean_reset (λ b, b) (KsFlat (lit "id")) (ManualResetRequested demo_evidence)).
  reflexivity.
Defined.

Lemma halt_id_stable_witness :
  halt_id_of (KsFlat (halt_id_for_trigger (λ b, b) demo_trigger)) =
    Some (halt_id_for_trigger (λ b, b) demo_trigger).
Proof.
  apply (halt_id_stable (λ b, b) demo_trigger demo_ks_context
    (KsHalting (halt_id_for_trigger (λ b, b) demo_trigger) demo_trigger)); [reflexivity|].
  eapply rtc_l; [split; [by apply (ks_accept _ _ DurableHaltEvidenceRecorded demo_ks_context)|done]|].
  eapply rtc_l; [split; [by apply (ks_accept _ _ ReconciliationProofReceived demo_ks_context)|done]|].
  apply rtc_refl.
Defined.

Definition trigger_ok (t : KillSwitchHaltTrigger) : Prop :=
  Forall (λ c, scalar c ∧ c ≠ 0) (trigger_source t) ∧ Forall scalar (trigger_reason t) ∧
  is_u64 (source_timestamp_unix_nanos t).

Lemma kind_bytes_no_nul k : Forall (λ b, b ≠ 0) (kind_bytes k).
Proof. destruct k; vm_compute; repeat constructor; done. Qed.

Lemma kind_bytes_inj k k' : kind_bytes k = kind_bytes k' → k = k'.
Proof. by destruct k, k'. Qed.

(** The bytes a halt identifier is a digest of determine the trigger: for sources
    without NUL characters, two triggers with the same pre-image have the same kind,
    source, timestamp and reason. *)
Lemma halt_id_preimage_injective t t' :
  trigger_ok t → trigger_ok t' → halt_id_preimage t = halt_id_preimage t' →
  trigger_kind t = trigger_kind t' ∧ trigger_source t = trigger_source t' ∧
  source_timestamp_unix_nanos t = source_timestamp_unix_nanos t' ∧
  trigger_reason t = trigger_reason t'.
Proof.
  intros (Hs & Hr & Hts) (Hs' & Hr' & Hts') E. unfold halt_id_preimage in E.
  apply app_inj_1 in E as [_ E]; [|done]. apply app_inj_1 in E as [_ E]; [|done].
  apply nul_split in E as [Hk E]; [|apply kind_bytes_no_nul ..]. apply kind_bytes_inj in Hk.
  apply nul_split in E as [Hsrc E]; [|by apply as_bytes_no_nul ..].
  apply app_inj_1 in E as [Ht E]; [|unfold to_be_bytes; by rewrite !be_bytes_length].
  injection E as E. split_and!; [done| | |].
  - apply as_bytes_inj; [| |done]; (eapply Forall_impl; [eassumption|]; by intros ? []).
  - by apply to_be_bytes_inj.
  - by apply as_bytes_inj.
Qed.

Lemma halt_id_preimage_injective_witness :
  trigger_kind demo_trigger = LossGovernorBreach ∧ trigger_source demo_trigger = lit "governor" ∧
  source_timestamp_unix_nanos demo_trigger = 5 ∧ trigger_reason demo_trigger = lit "daily".
Proof.
  apply (halt_id_preimage_injective demo_trigger (mkHaltTrigger LossGovernorBreach (lit "governor") 5
    (lit "daily") (Some DailyLossLimit))); [| |reflexivity].
  all: repeat split; unfold scalar; repeat constructor; done.
Defined.

(** Accepted reset evidence is well formed: the operator is not blank, the path is a
    non-empty relative path without a parent-directory component, the digest is 64
    hexadecimal digits, and all three are stored without surrounding whitespace. *)
Lemma reset_evidence_well_formed operator path sha256 at_ns evidence :
  reset_evidence_new operator path sha256 at_ns = Ok evidence →
  blank operator = false ∧ operator_id evidence = trim operator ∧
  evidence_path evidence = trim path ∧ evidence_path evidence ≠ [] ∧
  path_is_absolute (evidence_path evidence) = false ∧
  ¬ ([dot; dot] ∈ split_slash (evidence_path evidence)) ∧
  evidence_sha256 evidence = trim sha256 ∧ len (evidence_sha256 evidence) = 64 ∧
  Forall (λ b, is_ascii_hexdigit b = true) (as_bytes (evidence_sha256 evidence)).
Proof.
  unfold reset_evidence_new, blank. destruct (is_empty (trim operator)) eqn:Hop; [done|].
  destruct (is_empty (trim path)) eqn:Hp, (path_is_absolute (trim path)) eqn:Ha,
    (has_parent_dir (trim path)) eqn:Hd; try done. simpl.
  destruct (Z.eqb_spec (len (trim sha256)) 64) as [Hlen|]; [|done].
  destruct (forallb is_ascii_hexdigit (as_bytes (trim sha256))) eqn:Hh; [|done]. simpl.
  intros [= <-]. simpl. split_and!; try done.
  - by intros Hnil; rewrite Hnil in Hp.
  - intros Hin. unfold has_parent_dir in Hd. apply not_true_iff_false in Hd. apply Hd, existsb_exists.
    exists [dot; dot]. split; [by apply list_elem_of_In|by apply bool_decide_eq_true_2].
  - apply Forall_forall. intros b Hb. rewrite forallb_forall in Hh. by apply Hh, list_elem_of_In.
Qed.

Lemma reset_evidence_well_formed_witness :
  path_is_absolute (lit "resets/a.json") = false ∧ len (repeat 97 64) = 64.
Proof.
  destruct (reset_evidence_well_formed (lit " ops ") (lit "resets/a.json") (repeat 97 64) 9
    (mkResetEvidence (lit "ops") (lit "resets/a.json") (repeat 97 64) 9))
    as (_ & _ & _ & _ & Ha & _ & _ & Hl & _); [by vm_compute|]. by split.
Defined.
