(* ===== verification/KillSwitchCancel.v ===== *)
(** * Kill switch: the cancel plan and its outcomes

    Models [src/src/bolt_v3_kill_switch_cancel.rs]: the snapshot of the orders that are
    still a risk, the plan of cancel commands made of it while the switch is cancelling,
    and the verdict over the reported outcomes.  [NtTypes] stands for the platform. *)

From Stdlib Require Import ZArith Lia.
From stdpp Require Import sorting strings gmap numbers list relations.
From S2P Require Import Prelude.
From S2P Require Import RustText.
From S2P Require Import BTree.
From S2P Require Import NtTypes.
From S2P Require Import OutcomeVerdicts.
From S2P Require Import KillSwitch.

Open Scope Z_scope.

(** ** Surfaces *)

Inductive BoltV3KillSwitchOutstandingOrderRiskSurface : Type :=
| SurfaceOpen
| SurfaceInflight
| SurfacePendingCancel
| SurfaceEmulated
| SurfaceAlgorithmManaged
| SurfaceContingent
| SurfaceAcceptedButNotTerminal.

Definition MANDATORY_OUTSTANDING_ORDER_RISK_SURFACES
    : list BoltV3KillSwitchOutstandingOrderRiskSurface :=
  [SurfaceOpen; SurfaceInflight; SurfacePendingCancel; SurfaceEmulated;
   SurfaceAlgorithmManaged; SurfaceContingent; SurfaceAcceptedButNotTerminal].

(** The derived [Ord]: by position in the declaration. *)
Definition surface_index (s : BoltV3KillSwitchOutstandingOrderRiskSurface) : Z :=
  match s with
  | SurfaceOpen => 0
  | SurfaceInflight => 1
  | SurfacePendingCancel => 2
  | SurfaceEmulated => 3
  | SurfaceAlgorithmManaged => 4
  | SurfaceContingent => 5
  | SurfaceAcceptedButNotTerminal => 6
  end.

#[global] Instance surface_ord : Ord BoltV3KillSwitchOutstandingOrderRiskSurface :=
  λ a b, surface_index a ?= surface_index b.
#[global] Instance surface_ord_laws : OrdLaws BoltV3KillSwitchOutstandingOrderRiskSurface.
Proof.
  split; unfold ord_cmp, surface_ord; intros *.
  - rewrite Z.compare_eq_iff. split; [|by intros ->]. by destruct a, b.
  - apply Z.compare_antisym.
  - rewrite !Z.compare_lt_iff. lia.
Qed.

Inductive BoltV3KillSwitchCancelError : Type :=
| CancelMissingActionId
| CancelInvalidConfigSha256
| CancelInvalidPolicySha256
| CancelInvalidScope
| CancelInvalidAccountId
| CancelInvalidInstrumentId
| CancelInvalidStrategyId
| CancelInvalidClientOrderId
| CancelMissingSourceTimestamp
| CancelMissingObservationTimestamp
| CancelMissingCandidates
| CancelMissingMandatorySurfacePolicy
| CancelMissingMandatorySurfaceProof
| CancelFailedManualInterventionRequired
| KillSwitchStateNotCancelling
| CancelInvalidOutcomeOrderStatus
| CancelUnknownOutcomeCandidate
| CancelOutOfScopeCancelCandidate.

Inductive BoltV3KillSwitchCancelDecisionMode : Type := CancelDryRunProofOnly.

Inductive BoltV3KillSwitchCancelRouteKind : Type :=
| CancelPerStrategyActionPort
| CancelLiveNodeCommandRouter
| CancelUnsupportedRoute.

Record BoltV3KillSwitchCancelRouteProof : Type := mkCancelRouteProof {
  cancel_route_kind : BoltV3KillSwitchCancelRouteKind;
}.

Inductive BoltV3KillSwitchCancelAttemptOutcomeKind : Type :=
| CancelRequested
| CancelAccepted
| CancelRejected
| PendingCancelOutcome
| ExpiredOutcome
| FilledBeforeCancel
| TerminalBeforeCancel.

Record BoltV3KillSwitchCancelAttemptOutcome : Type := mkCancelOutcome {
  cancel_outcome_kind : BoltV3KillSwitchCancelAttemptOutcomeKind;
  cancel_outcome_status : OrderStatus;
}.

Inductive BoltV3KillSwitchCancelAggregateResult : Type :=
| CancelAllTerminal
| CancelOutstandingRiskRemains
| CancelRequiresPositionReconciliation
| CancelFailedManualIntervention.

#[global] Instance CancelAggregateResult_eq_dec : EqDecision BoltV3KillSwitchCancelAggregateResult.
Proof. solve_decision. Defined.

Section Cancel.
Context {N : NtTypes}.

Definition BoltV3KillSwitchCancelOrderIdentity : Type :=
  AccountId * InstrumentId * StrategyId * ClientOrderId.

(** ** Candidates and their snapshot *)

Record BoltV3KillSwitchCancelCandidate : Type := mkCancelCandidate {
  candidate_surface : BoltV3KillSwitchOutstandingOrderRiskSurface;
  candidate_account_id : AccountId;
  candidate_instrument_id : InstrumentId;
  candidate_strategy_id : StrategyId;
  candidate_client_order_id : ClientOrderId;
  candidate_order_status : OrderStatus;
  candidate_source_timestamp : Z;
}.

(** [BoltV3KillSwitchCancelCandidate::from_nt_order_state]. *)
Definition candidate_from_nt_order_state (surface : BoltV3KillSwitchOutstandingOrderRiskSurface)
    (account : AccountId) (instrument : InstrumentId) (strategy : StrategyId)
    (client_order : ClientOrderId) (status : OrderStatus) (source_timestamp : Z)
    : Result BoltV3KillSwitchCancelCandidate BoltV3KillSwitchCancelError :=
  if source_timestamp =? 0 then Err CancelMissingSourceTimestamp
  else Ok (mkCancelCandidate surface account instrument strategy client_order status source_timestamp).

(** [BoltV3KillSwitchCancelCandidate::new]. *)
Definition cancel_candidate_new (surface : BoltV3KillSwitchOutstandingOrderRiskSurface)
    (account instrument strategy client_order : text) (status : OrderStatus) (source_timestamp : Z)
    : Result BoltV3KillSwitchCancelCandidate BoltV3KillSwitchCancelError :=
  account ←? ok_or (account_new_checked (trim account)) CancelInvalidAccountId;
  instrument ←? ok_or (instrument_from_as_ref (trim instrument)) CancelInvalidInstrumentId;
  strategy ←? ok_or (strategy_new_checked (trim strategy)) CancelInvalidStrategyId;
  client_order ←? ok_or (client_order_new_checked (trim client_order)) CancelInvalidClientOrderId;
  candidate_from_nt_order_state surface account instrument strategy client_order status
    source_timestamp.

Definition cancel_candidate_identity (c : BoltV3KillSwitchCancelCandidate)
    : BoltV3KillSwitchCancelOrderIdentity :=
  (candidate_account_id c, candidate_instrument_id c, candidate_strategy_id c,
   candidate_client_order_id c).

Record BoltV3KillSwitchCancelSnapshot : Type := mkCancelSnapshot {
  snapshot_candidates : list BoltV3KillSwitchCancelCandidate;
  snapshot_observed_surfaces : BTreeMap BoltV3KillSwitchOutstandingOrderRiskSurface unit;
}.

(** [BoltV3KillSwitchCancelSnapshot::new]. *)
Definition cancel_snapshot_new (candidates : list BoltV3KillSwitchCancelCandidate)
    : Result BoltV3KillSwitchCancelSnapshot BoltV3KillSwitchCancelError :=
  if is_empty candidates then Err CancelMissingCandidates
  else
    let scoped_candidates := bt_first ((λ c, (cancel_candidate_identity c, c)) <$> candidates) in
    let observed_surfaces := bt_first ((λ c, (candidate_surface c, tt)) <$> candidates) in
    Ok (mkCancelSnapshot (bt_values scoped_candidates) observed_surfaces).

Definition has_outstanding_risk (s : BoltV3KillSwitchCancelSnapshot) : bool :=
  negb (is_empty (snapshot_candidates s)).

Definition missing_mandatory_surfaces (s : BoltV3KillSwitchCancelSnapshot)
    (mandatory : list BoltV3KillSwitchOutstandingOrderRiskSurface)
    : list BoltV3KillSwitchOutstandingOrderRiskSurface :=
  filter (λ surface, bt_get (snapshot_observed_surfaces s) surface = None) mandatory.

(** ** Policy and scope *)

Record BoltV3KillSwitchCancelPolicy : Type := mkCancelPolicy {
  policy_mandatory_surfaces : BTreeMap BoltV3KillSwitchOutstandingOrderRiskSurface unit;
}.

(** [BoltV3KillSwitchCancelPolicy::new]. *)
Definition cancel_policy_new (mandatory : list BoltV3KillSwitchOutstandingOrderRiskSurface)
    : Result BoltV3KillSwitchCancelPolicy BoltV3KillSwitchCancelError :=
  let mandatory_surfaces := bt_first ((λ s, (s, tt)) <$> mandatory) in
  if is_empty mandatory_surfaces then Err CancelMissingMandatorySurfacePolicy
  else Ok (mkCancelPolicy mandatory_surfaces).

(** [BoltV3KillSwitchCancelPolicy::validate_snapshot]. *)
Definition cancel_policy_validate_snapshot (p : BoltV3KillSwitchCancelPolicy)
    (s : BoltV3KillSwitchCancelSnapshot) : Result unit BoltV3KillSwitchCancelError :=
  if is_empty (missing_mandatory_surfaces s (bt_keys (policy_mandatory_surfaces p))) then Ok tt
  else Err CancelMissingMandatorySurfaceProof.

Record BoltV3KillSwitchCancelScope : Type := mkCancelScope {
  scope_account_ids : list AccountId;
  scope_instrument_ids : list InstrumentId;
  scope_strategy_ids : list StrategyId;
}.

(** [BoltV3KillSwitchCancelScope::new]. *)
Definition cancel_scope_new (accounts : list AccountId) (instruments : list InstrumentId)
    (strategies : list StrategyId) : Result BoltV3KillSwitchCancelScope BoltV3KillSwitchCancelError :=
  if is_empty accounts || is_empty instruments || is_empty strategies then Err CancelInvalidScope
  else Ok (mkCancelScope accounts instruments strategies).

Definition candidate_in_scope (s : BoltV3KillSwitchCancelScope)
    (c : BoltV3KillSwitchCancelCandidate) : bool :=
  slice_contains (scope_account_ids s) (candidate_account_id c) &&
  slice_contains (scope_instrument_ids s) (candidate_instrument_id c) &&
  slice_contains (scope_strategy_ids s) (candidate_strategy_id c).

(** [BoltV3KillSwitchCancelScope::validate_snapshot]. *)
Definition cancel_scope_validate_snapshot (s : BoltV3KillSwitchCancelScope)
    (snapshot : BoltV3KillSwitchCancelSnapshot) : Result unit BoltV3KillSwitchCancelError :=
  if forallb (candidate_in_scope s) (snapshot_candidates snapshot) then Ok tt
  else Err CancelOutOfScopeCancelCandidate.

(** ** The plan *)

Record BoltV3KillSwitchCancelPlanRequest : Type := mkCancelPlanRequest {
  cancel_kill_switch_state : KillSwitchState;
  cancel_action_id : text;
  cancel_config_sha256 : text;
  cancel_policy_sha256 : text;
  cancel_source_timestamp : Z;
  cancel_observed_at : Z;
  cancel_scope : BoltV3KillSwitchCancelScope;
  cancel_route_proof : option BoltV3KillSwitchCancelRouteProof;
  cancel_policy : BoltV3KillSwitchCancelPolicy;
  cancel_snapshot : BoltV3KillSwitchCancelSnapshot;
}.

Record BoltV3KillSwitchCancelCommand : Type := mkCancelCommand {
  command_halt_id : text;
  command_action_id : text;
  command_config_sha256 : text;
  command_policy_sha256 : text;
  command_source_timestamp : Z;
  command_account_id : AccountId;
  command_instrument_id : InstrumentId;
  command_strategy_id : StrategyId;
  command_client_order_id : ClientOrderId;
  command_order_status : OrderStatus;
  command_surface : BoltV3KillSwitchOutstandingOrderRiskSurface;
  command_route_kind : BoltV3KillSwitchCancelRouteKind;
}.

Record BoltV3KillSwitchCancelPlan : Type := mkCancelPlan {
  cancel_plan_halt_id : text;
  cancel_plan_decision_mode : BoltV3KillSwitchCancelDecisionMode;
  cancel_plan_candidates : list BoltV3KillSwitchCancelCandidate;
  cancel_plan_commands : list BoltV3KillSwitchCancelCommand;
}.

Definition require_supported_route_proof (r : BoltV3KillSwitchCancelPlanRequest)
    : Result BoltV3KillSwitchCancelRouteKind BoltV3KillSwitchCancelError :=
  match cancel_route_kind <$> cancel_route_proof r with
  | Some CancelPerStrategyActionPort => Ok CancelPerStrategyActionPort
  | Some CancelLiveNodeCommandRouter => Ok CancelLiveNodeCommandRouter
  | Some CancelUnsupportedRoute | None => Err CancelFailedManualInterventionRequired
  end.

Definition validate_plan_metadata (r : BoltV3KillSwitchCancelPlanRequest)
    : Result unit BoltV3KillSwitchCancelError :=
  if blank (cancel_action_id r) then Err CancelMissingActionId
  else if negb (is_sha256_hex_digest (cancel_config_sha256 r)) then Err CancelInvalidConfigSha256
  else if negb (is_sha256_hex_digest (cancel_policy_sha256 r)) then Err CancelInvalidPolicySha256
  else if cancel_source_timestamp r =? 0 then Err CancelMissingSourceTimestamp
  else if cancel_observed_at r =? 0 then Err CancelMissingObservationTimestamp
  else Ok tt.

Definition cancel_command (r : BoltV3KillSwitchCancelPlanRequest) (halt_id action_id : text)
    (route : BoltV3KillSwitchCancelRouteKind) (c : BoltV3KillSwitchCancelCandidate)
    : BoltV3KillSwitchCancelCommand :=
  mkCancelCommand halt_id action_id (cancel_config_sha256 r) (cancel_policy_sha256 r)
    (cancel_source_timestamp r) (candidate_account_id c) (candidate_instrument_id c)
    (candidate_strategy_id c) (candidate_client_order_id c) (candidate_order_status c)
    (candidate_surface c) route.

Definition plan_cancel (r : BoltV3KillSwitchCancelPlanRequest)
    : Result BoltV3KillSwitchCancelPlan BoltV3KillSwitchCancelError :=
  match cancel_kill_switch_state r with
  | KsCancelling halt_id =>
      validate_plan_metadata r;;?
      cancel_scope_validate_snapshot (cancel_scope r) (cancel_snapshot r);;?
      cancel_policy_validate_snapshot (cancel_policy r) (cancel_snapshot r);;?
      route_kind ←? require_supported_route_proof r;
      let action_id := trim (cancel_action_id r) in
      let commands :=
        cancel_command r halt_id action_id route_kind <$> snapshot_candidates (cancel_snapshot r) in
      Ok (mkCancelPlan halt_id CancelDryRunProofOnly (snapshot_candidates (cancel_snapshot r)) commands)
  | _ => Err KillSwitchStateNotCancelling
  end.

(** ** Outcomes *)

Definition validate_outcome_status (kind : BoltV3KillSwitchCancelAttemptOutcomeKind)
    (status : OrderStatus) : Result unit BoltV3KillSwitchCancelError :=
  match kind with
  | PendingCancelOutcome =>
      ensure (bool_decide (status = StatusPendingCancel)) CancelInvalidOutcomeOrderStatus
  | ExpiredOutcome => ensure (bool_decide (status = StatusExpired)) CancelInvalidOutcomeOrderStatus
  | FilledBeforeCancel => ensure (bool_decide (status = StatusFilled)) CancelInvalidOutcomeOrderStatus
  | TerminalBeforeCancel =>
      if negb (order_status_is_closed status) ||
         match status with StatusExpired | StatusFilled => true | _ => false end
      then Err CancelInvalidOutcomeOrderStatus
      else Ok tt
  | CancelRequested | CancelAccepted | CancelRejected =>
      if order_status_is_closed status then Err CancelInvalidOutcomeOrderStatus else Ok tt
  end.

(** [BoltV3KillSwitchCancelAttemptOutcome::new], and the constructors that call it. *)
Definition cancel_outcome_new (kind : BoltV3KillSwitchCancelAttemptOutcomeKind) (status : OrderStatus)
    : Result BoltV3KillSwitchCancelAttemptOutcome BoltV3KillSwitchCancelError :=
  validate_outcome_status kind status;;?
  Ok (mkCancelOutcome kind status).

Record BoltV3KillSwitchCancelOutcomeEvidence : Type := mkCancelEvidence {
  evidence_account_id : AccountId;
  evidence_instrument_id : InstrumentId;
  evidence_strategy_id : StrategyId;
  evidence_client_order_id : ClientOrderId;
  evidence_outcome : BoltV3KillSwitchCancelAttemptOutcome;
}.

(** [BoltV3KillSwitchCancelOutcomeEvidence::from_candidate] and [identity]. *)
Definition evidence_from_candidate (c : BoltV3KillSwitchCancelCandidate)
    (outcome : BoltV3KillSwitchCancelAttemptOutcome) : BoltV3KillSwitchCancelOutcomeEvidence :=
  mkCancelEvidence (candidate_account_id c) (candidate_instrument_id c) (candidate_strategy_id c)
    (candidate_client_order_id c) outcome.

Definition evidence_identity (e : BoltV3KillSwitchCancelOutcomeEvidence)
    : BoltV3KillSwitchCancelOrderIdentity :=
  (evidence_account_id e, evidence_instrument_id e, evidence_strategy_id e,
   evidence_client_order_id e).

Definition result_for_outcome (o : BoltV3KillSwitchCancelAttemptOutcome)
    : BoltV3KillSwitchCancelAggregateResult :=
  match cancel_outcome_kind o with
  | CancelRejected => CancelFailedManualIntervention
  | FilledBeforeCancel => CancelRequiresPositionReconciliation
  | CancelRequested | CancelAccepted | PendingCancelOutcome => CancelOutstandingRiskRemains
  | ExpiredOutcome | TerminalBeforeCancel => CancelAllTerminal
  end.

Definition merge_aggregate_result (current next : BoltV3KillSwitchCancelAggregateResult)
    : BoltV3KillSwitchCancelAggregateResult :=
  match current, next with
  | CancelFailedManualIntervention, _ | _, CancelFailedManualIntervention =>
      CancelFailedManualIntervention
  | CancelRequiresPositionReconciliation, _ | _, CancelRequiresPositionReconciliation =>
      CancelRequiresPositionReconciliation
  | CancelOutstandingRiskRemains, _ | _, CancelOutstandingRiskRemains => CancelOutstandingRiskRemains
  | CancelAllTerminal, CancelAllTerminal => CancelAllTerminal
  end.

Definition worse_outcome (current next : BoltV3KillSwitchCancelAttemptOutcome)
    : BoltV3KillSwitchCancelAttemptOutcome :=
  let current_result := result_for_outcome current in
  let next_result := result_for_outcome next in
  if bool_decide (next_result = merge_aggregate_result current_result next_result) then next else current.

(** [BoltV3KillSwitchCancelOutcomeAggregation::from_snapshot_outcomes]. *)
Definition from_snapshot_outcomes (s : BoltV3KillSwitchCancelSnapshot)
    (outcomes : list BoltV3KillSwitchCancelOutcomeEvidence)
    : Result BoltV3KillSwitchCancelAggregateResult BoltV3KillSwitchCancelError :=
  aggregate worse_outcome result_for_outcome merge_aggregate_result CancelAllTerminal
    CancelOutstandingRiskRemains CancelUnknownOutcomeCandidate
    (cancel_candidate_identity <$> snapshot_candidates s)
    ((λ e, (evidence_identity e, evidence_outcome e)) <$> outcomes).

(** ** Severity of a verdict *)

#[local] Existing Instance ord_eq_decision.
#[local] Instance cancel_outcome_kind_eq_dec : EqDecision BoltV3KillSwitchCancelAttemptOutcomeKind.
Proof. solve_decision. Defined.

Definition cancel_rank (r : BoltV3KillSwitchCancelAggregateResult) : Z :=
  match r with
  | CancelAllTerminal => 0
  | CancelOutstandingRiskRemains => 1
  | CancelRequiresPositionReconciliation => 2
  | CancelFailedManualIntervention => 3
  end.

Lemma cancel_rank_merge a b :
  cancel_rank (merge_aggregate_result a b) = Z.max (cancel_rank a) (cancel_rank b).
Proof. by destruct a, b. Qed.

Lemma cancel_rank_worse a b :
  cancel_rank (result_for_outcome (worse_outcome a b)) =
  Z.max (cancel_rank (result_for_outcome a)) (cancel_rank (result_for_outcome b)).
Proof.
  unfold worse_outcome. case_bool_decide as E.
  - rewrite <- cancel_rank_merge. by rewrite <- E.
  - destruct (result_for_outcome a), (result_for_outcome b); simpl in *; done.
Qed.

Lemma cancel_outcomes_rank s outcomes r n :
  from_snapshot_outcomes s outcomes = Ok r → 0 < n →
  n ≤ cancel_rank r ↔
    (n ≤ 1 ∧ ∃ c, c ∈ snapshot_candidates s ∧
       cancel_candidate_identity c ∉ evidence_identity <$> outcomes) ∨
    (∃ e, e ∈ outcomes ∧ n ≤ cancel_rank (result_for_outcome (evidence_outcome e))).
Proof.
  intros Hok Hn. unfold from_snapshot_outcomes in Hok.
  rewrite (aggregate_rank (K := AccountId * InstrumentId * StrategyId * ClientOrderId)
    _ _ _ _ _ _ cancel_rank_merge cancel_rank_worse _ _ _ _ n Hok Hn).
  rewrite <- list_fmap_compose. unfold compose. simpl. split; (intros [H|H]; [left|right]).
  - destruct H as (k & (c & -> & Hc)%list_elem_of_fmap & Hk & ?). split; [done|]. by exists c.
  - destruct H as (k & o & (e & [= -> ->] & He)%list_elem_of_fmap & ?). by exists e.
  - destruct H as (? & c & Hc & Hk). exists (cancel_candidate_identity c). split; [|done].
    apply list_elem_of_fmap. by exists c.
  - destruct H as (e & He & ?). exists (evidence_identity e), (evidence_outcome e).
    split; [|done]. apply list_elem_of_fmap. by exists e.
Qed.

Lemma outcome_rank_1 o :
  1 ≤ cancel_rank (result_for_outcome o) ↔
  ¬ (cancel_outcome_kind o = ExpiredOutcome ∨ cancel_outcome_kind o = TerminalBeforeCancel).
Proof. unfold result_for_outcome. destruct (cancel_outcome_kind o); simpl; naive_solver lia. Qed.

Lemma outcome_rank_2 o :
  2 ≤ cancel_rank (result_for_outcome o) ↔
  cancel_outcome_kind o = CancelRejected ∨ cancel_outcome_kind o = FilledBeforeCancel.
Proof. unfold result_for_outcome. destruct (cancel_outcome_kind o); simpl; naive_solver lia. Qed.

Lemma outcome_rank_3 o :
  3 ≤ cancel_rank (result_for_outcome o) ↔ cancel_outcome_kind o = CancelRejected.
Proof. unfold result_for_outcome. destruct (cancel_outcome_kind o); simpl; naive_solver lia. Qed.

(** C32: The verdict over the cancel outcomes is exact: evidence that names no planned order is
    refused; otherwise manual intervention is required exactly when a cancel was
    rejected, position reconciliation exactly when none was and an order filled first,
    and all is terminal exactly when every order has evidence and all evidence is of an
    order that ended without a fill.  Neither order nor repetition of the evidence
    matters. *)
Theorem cancel_verdict_exact s outcomes :
  match from_snapshot_outcomes s outcomes with
  | Err e => e = CancelUnknownOutcomeCandidate ∧
      ∃ o, o ∈ outcomes ∧ evidence_identity o ∉ cancel_candidate_identity <$> snapshot_candidates s
  | Ok r =>
      let kind e := cancel_outcome_kind (evidence_outcome e) in
      (∀ o, o ∈ outcomes → evidence_identity o ∈ cancel_candidate_identity <$> snapshot_candidates s) ∧
      (r = CancelFailedManualIntervention ↔ ∃ o, o ∈ outcomes ∧ kind o = CancelRejected) ∧
      (r = CancelRequiresPositionReconciliation ↔
         (∀ o, o ∈ outcomes → kind o ≠ CancelRejected) ∧
         ∃ o, o ∈ outcomes ∧ kind o = FilledBeforeCancel) ∧
      (r = CancelAllTerminal ↔
         (∀ o, o ∈ outcomes → kind o = ExpiredOutcome ∨ kind o = TerminalBeforeCancel) ∧
         ∀ c, c ∈ snapshot_candidates s →
           ∃ o, o ∈ outcomes ∧ evidence_identity o = cancel_candidate_identity c)
  end.
Proof.
  destruct (from_snapshot_outcomes s outcomes) as [r|e] eqn:E; simpl.
  - pose proof (cancel_outcomes_rank s outcomes r) as Hr. split; [|split; [|split]].
    + intros o Ho. eapply aggregate_known; [exact E|]. apply list_elem_of_fmap. by exists o.
    + transitivity (3 ≤ cancel_rank r); [destruct r; simpl; naive_solver lia|]. rewrite (Hr 3 E) by lia. setoid_rewrite outcome_rank_3. naive_solver lia.
    + transitivity (2 ≤ cancel_rank r ∧ ¬ 3 ≤ cancel_rank r); [destruct r; simpl; naive_solver lia|].
      rewrite (Hr 2 E), (Hr 3 E) by lia. setoid_rewrite outcome_rank_3. setoid_rewrite outcome_rank_2.
      naive_solver lia.
    + transitivity (¬ 1 ≤ cancel_rank r); [destruct r; simpl; naive_solver lia|]. rewrite (Hr 1 E) by lia.
      setoid_rewrite outcome_rank_1. split.
      * intros Hno. split; [|intros c Hc].
        -- intros o Ho. destruct (decide (cancel_outcome_kind (evidence_outcome o) = ExpiredOutcome \/
             cancel_outcome_kind (evidence_outcome o) = TerminalBeforeCancel)); naive_solver.
        -- destruct (decide (cancel_candidate_identity c ∈ evidence_identity <$> outcomes))
             as [(o & ? & ?)%list_elem_of_fmap|?]; naive_solver lia.
      * intros [Hall Hcov] [(_ & c & Hc & Hn)|(o & Ho & Hk)]; [|naive_solver].
        destruct (Hcov c Hc) as (o & Ho & Hid). apply Hn. rewrite <- Hid. apply list_elem_of_fmap. by exists o.
  - apply aggregate_Err in E as (-> & k & o & (ev & [= -> ->] & Hin)%list_elem_of_fmap & Hk).
    split; [done|]. by exists ev.
Qed.

(** ** The plan covers the snapshot *)

(** The snapshot of [candidates]: one candidate per identity, every surface seen. *)
Lemma cancel_snapshot_spec candidates s :
  cancel_snapshot_new candidates = Ok s →
  NoDup (cancel_candidate_identity <$> snapshot_candidates s) ∧
  (∀ c, c ∈ snapshot_candidates s → c ∈ candidates) ∧
  (∀ c, c ∈ candidates → ∃ c', c' ∈ snapshot_candidates s ∧
     cancel_candidate_identity c' = cancel_candidate_identity c) ∧
  (∀ surface, bt_get (snapshot_observed_surfaces s) surface = None ↔
     surface ∉ candidate_surface <$> candidates).
Proof.
  unfold cancel_snapshot_new. destruct (is_empty candidates) eqn:Hne; [done|]. intros [= <-]; simpl.
  destruct (bt_first_by_key cancel_candidate_identity candidates) as (Hnd & Hsub & Hcov).
  split; [done|]. split; [done|]. split; [done|].
  intros surface. rewrite bt_get_None by apply bt_first_sorted.
  rewrite bt_first_keys, <- list_fmap_compose. done.
Qed.

Definition command_identity (c : BoltV3KillSwitchCancelCommand) : BoltV3KillSwitchCancelOrderIdentity :=
  (command_account_id c, command_instrument_id c, command_strategy_id c, command_client_order_id c).

(** What a plan needs of the request and of the observed orders. *)
Definition cancel_gates (candidates : list BoltV3KillSwitchCancelCandidate)
    (r : BoltV3KillSwitchCancelPlanRequest) : Prop :=
  (∃ halt_id, cancel_kill_switch_state r = KsCancelling halt_id) ∧
  blank (cancel_action_id r) = false ∧
  is_sha256_hex_digest (cancel_config_sha256 r) = true ∧
  is_sha256_hex_digest (cancel_policy_sha256 r) = true ∧
  cancel_source_timestamp r ≠ 0 ∧ cancel_observed_at r ≠ 0 ∧
  (∀ c, c ∈ candidates →
     candidate_account_id c ∈ scope_account_ids (cancel_scope r) ∧
     candidate_instrument_id c ∈ scope_instrument_ids (cancel_scope r) ∧
     candidate_strategy_id c ∈ scope_strategy_ids (cancel_scope r)) ∧
  (∀ surface, surface ∈ bt_keys (policy_mandatory_surfaces (cancel_policy r)) →
     surface ∈ candidate_surface <$> candidates) ∧
  (∃ route, cancel_route_proof r = Some route ∧ cancel_route_kind route ≠ CancelUnsupportedRoute).

Lemma validate_plan_metadata_Ok r u :
  validate_plan_metadata r = Ok u ↔
  blank (cancel_action_id r) = false ∧
  is_sha256_hex_digest (cancel_config_sha256 r) = true ∧
  is_sha256_hex_digest (cancel_policy_sha256 r) = true ∧
  cancel_source_timestamp r ≠ 0 ∧ cancel_observed_at r ≠ 0.
Proof.
  unfold validate_plan_metadata. destruct u. repeat case_match; zcases; rewrite ?negb_true_iff, ?negb_false_iff in *;
    split; try done; try (intros (? & ? & ? & ? & ?); congruence).
Qed.

Lemma cancel_scope_Ok candidates scope s u :
  cancel_snapshot_new candidates = Ok s →
  cancel_scope_validate_snapshot scope s = Ok u ↔
  ∀ c, c ∈ candidates →
     candidate_account_id c ∈ scope_account_ids scope ∧
     candidate_instrument_id c ∈ scope_instrument_ids scope ∧
     candidate_strategy_id c ∈ scope_strategy_ids scope.
Proof.
  intros (_ & Hsub & Hcov & _)%cancel_snapshot_spec. unfold cancel_scope_validate_snapshot.
  transitivity (∀ c, c ∈ snapshot_candidates s → candidate_in_scope scope c = true).
  { destruct (forallb _ _) eqn:F; destruct u.
    - rewrite forallb_forall in F. split; [|done]. intros _ c Hc. by apply F, list_elem_of_In.
    - split; [done|]. intros Hall. assert (forallb (candidate_in_scope scope) (snapshot_candidates s) = true);
        [|congruence]. apply forallb_forall. intros c Hc. by apply Hall, list_elem_of_In. }
  unfold candidate_in_scope. setoid_rewrite andb_true_iff. setoid_rewrite andb_true_iff.
  setoid_rewrite slice_contains_spec. split.
  - intros Hall c Hc. destruct (Hcov c Hc) as (c' & Hc' & [= <- <- <- _]). destruct (Hall c' Hc'). tauto.
  - intros Hall c Hc. specialize (Hall c (Hsub c Hc)). tauto.
Qed.

Lemma cancel_policy_Ok candidates policy s u :
  cancel_snapshot_new candidates = Ok s →
  cancel_policy_validate_snapshot policy s = Ok u ↔
  ∀ surface, surface ∈ bt_keys (policy_mandatory_surfaces policy) →
     surface ∈ candidate_surface <$> candidates.
Proof.
  intros (_ & _ & _ & Hseen)%cancel_snapshot_spec. unfold cancel_policy_validate_snapshot, missing_mandatory_surfaces.
  destruct u. set (mandatory := bt_keys _). destruct (filter _ mandatory) as [|x l] eqn:F; simpl.
  - split; [|done]. intros _ surface Hs. destruct (decide (surface ∈ candidate_surface <$> candidates)) as [|Hn]; [done|].
    apply Hseen in Hn. assert (Hin : surface ∈ filter (λ surface, bt_get (snapshot_observed_surfaces s) surface = None) mandatory).
    { by apply list_elem_of_filter. } rewrite F in Hin. by apply not_elem_of_nil in Hin.
  - split; [done|]. intros Hall. assert (Hin : x ∈ x :: l) by constructor. rewrite <- F in Hin.
    apply list_elem_of_filter in Hin as [Hn Hx]. by apply Hseen in Hn; destruct (Hn (Hall x Hx)).
Qed.

Lemma require_supported_route_Ok r k :
  require_supported_route_proof r = Ok k ↔
  ∃ route, cancel_route_proof r = Some route ∧ cancel_route_kind route = k ∧ k ≠ CancelUnsupportedRoute.
Proof.
  unfold require_supported_route_proof. destruct (cancel_route_proof r) as [[[]]|]; simpl; naive_solver.
Qed.

Lemma plan_cancel_Ok r plan :
  plan_cancel r = Ok plan ↔
  ∃ halt_id route, cancel_kill_switch_state r = KsCancelling halt_id ∧
    validate_plan_metadata r = Ok tt ∧
    cancel_scope_validate_snapshot (cancel_scope r) (cancel_snapshot r) = Ok tt ∧
    cancel_policy_validate_snapshot (cancel_policy r) (cancel_snapshot r) = Ok tt ∧
    require_supported_route_proof r = Ok route ∧
    plan = mkCancelPlan halt_id CancelDryRunProofOnly (snapshot_candidates (cancel_snapshot r))
      (cancel_command r halt_id (trim (cancel_action_id r)) route <$> snapshot_candidates (cancel_snapshot r)).
Proof.
  unfold plan_cancel. split.
  - destruct (cancel_kill_switch_state r); try done. intros H. result_inv. destruct_all unit.
    simplify_eq. eauto 10.
  - intros (halt_id & route & -> & -> & -> & -> & -> & ->). done.
Qed.

(** C31: A cancel plan exists exactly when the switch is cancelling and every gate holds, and it
    covers the observed orders: one command per distinct order, none left out and none
    invented, each under the halt of the switch, with the status and surface of an
    observation of that order and by a supported route. *)
Theorem cancel_plan_covers_every_order candidates r :
  cancel_snapshot_new candidates = Ok (cancel_snapshot r) →
  (is_ok (plan_cancel r) = true ↔ cancel_gates candidates r) ∧
  ∀ plan, plan_cancel r = Ok plan →
    NoDup (command_identity <$> cancel_plan_commands plan) ∧
    (∀ id, id ∈ command_identity <$> cancel_plan_commands plan ↔
       id ∈ cancel_candidate_identity <$> candidates) ∧
    ∀ cmd, cmd ∈ cancel_plan_commands plan →
      cancel_kill_switch_state r = KsCancelling (command_halt_id cmd) ∧
      command_action_id cmd = trim (cancel_action_id r) ∧
      command_route_kind cmd ≠ CancelUnsupportedRoute ∧
      ∃ c, c ∈ candidates ∧ command_identity cmd = cancel_candidate_identity c ∧
        command_order_status cmd = candidate_order_status c ∧ command_surface cmd = candidate_surface c.
Proof.
  intros Hnew. split.
  - transitivity (∃ plan, plan_cancel r = Ok plan); [destruct (plan_cancel r); naive_solver|].
    setoid_rewrite plan_cancel_Ok. unfold cancel_gates.
    rewrite <- (cancel_scope_Ok _ _ _ tt Hnew), <- (cancel_policy_Ok _ _ _ tt Hnew).
    setoid_rewrite (require_supported_route_Ok r). setoid_rewrite validate_plan_metadata_Ok. naive_solver.
  - intros plan (halt_id & route & Hst & _ & _ & _ & Hroute & ->)%plan_cancel_Ok; simpl.
    apply require_supported_route_Ok in Hroute as (proof & _ & _ & Hroute).
    destruct (cancel_snapshot_spec _ _ Hnew) as (Hnd & Hsub & Hcov & _).
    set (cands := snapshot_candidates (cancel_snapshot r)) in *.
    assert (Hid : command_identity <$> (cancel_command r halt_id (trim (cancel_action_id r)) route <$> cands) =
      cancel_candidate_identity <$> cands) by by rewrite <- list_fmap_compose.
    rewrite Hid. split; [done|]. split.
    + intros id. rewrite !list_elem_of_fmap. split; [naive_solver|].
      intros (c & -> & Hc). destruct (Hcov c Hc) as (c' & Hc' & E). by exists c'.
    + intros cmd (c & -> & Hc)%list_elem_of_fmap; simpl. repeat split; eauto 10.
Qed.

End Cancel.

(** ** Witnesses *)

#[local] Existing Instance demo_nt.

Definition demo_sha : text := replicate 64 97.
Definition demo_candidate (surface : BoltV3KillSwitchOutstandingOrderRiskSurface) (id : string)
    : BoltV3KillSwitchCancelCandidate :=
  mkCancelCandidate surface (lit "A-1") (lit "I.V") (lit "S-1") (lit id) StatusAccepted 7.
Definition demo_candidates : list BoltV3KillSwitchCancelCandidate :=
  [demo_candidate SurfaceOpen "O-2"; demo_candidate SurfacePendingCancel "O-1";
   demo_candidate SurfaceInflight "O-2"].
Definition demo_cancel_request : BoltV3KillSwitchCancelPlanRequest :=
  mkCancelPlanRequest (KsCancelling (lit "halt")) (lit " act ") demo_sha demo_sha 5 6
    (mkCancelScope [lit "A-1"] [lit "I.V"] [lit "S-1"])
    (Some (mkCancelRouteProof CancelLiveNodeCommandRouter))
    (mkCancelPolicy [(SurfaceOpen, tt); (SurfaceInflight, tt)])
    (mkCancelSnapshot [demo_candidate SurfacePendingCancel "O-1"; demo_candidate SurfaceOpen "O-2"]
       [(SurfaceOpen, tt); (SurfaceInflight, tt); (SurfacePendingCancel, tt)]).

Lemma cancel_plan_covers_every_order_witness :
  is_ok (plan_cancel demo_cancel_request) = true ∧ cancel_gates demo_candidates demo_cancel_request.
Proof.
  assert (Hok : is_ok (plan_cancel demo_cancel_request) = true) by by vm_compute.
  split; [exact Hok|].
  apply (cancel_plan_covers_every_order demo_candidates demo_cancel_request); [by vm_compute|exact Hok].
Defined.
