(* ===== verification/OrderIntent.v ===== *)
(** * Order templates

    Models the templates of [src/src/bolt_v3_order_intent.rs]: the check of a template in
    the configuration, the validation of a template against the inputs of one order, and
    [build_nt_order], the call of the platform's order factory.  A message is the value of
    an enumeration that names it; the order built is the factory call with its arguments. *)

From Stdlib Require Import ZArith Lia.
From Stdlib Require Import Btauto.
From stdpp Require Import sorting strings gmap numbers list.
From S2P Require Import Prelude.
From S2P Require Import RustText.
From S2P Require Import BTree.
From S2P Require Import DecimalAmount.
From S2P Require Import NtTypes.

Open Scope Z_scope.

Definition opt_some {A} (o : option A) : bool := match o with Some _ => true | None => false end.
Definition opt_none {A} (o : option A) : bool := negb (opt_some o).

(** [is_none_or] and [is_some_and]. *)
Definition is_none_or {A} (f : A → bool) (o : option A) : bool :=
  match o with Some a => f a | None => true end.
Definition is_some_and {A} (f : A → bool) (o : option A) : bool :=
  match o with Some a => f a | None => false end.

(** The messages: which field of the template is refused, and why. *)
Inductive TemplateError : Type :=
| OrderTypeNotExposed (order_type : OrderType)
| GtdNotSupported
| ExpireTimeNotSupported
| ExpireTimeRequired
| TriggerPriceRequired
| TriggerPriceNotSupported
| TriggerPriceNotPositive
| TriggerTypeNotSupported
| TriggerInstrumentNotSupported
| ActivationPriceNotSupported
| ActivationPriceNotPositive
| TriggerOrActivationRequired
| TrailingOffsetNotSupported
| TrailingOffsetRequired
| TrailingOffsetNotPositive
| TrailingOffsetTypeNotSupported
| PostOnlyNotSupported
| LimitPriceRequired
| TriggerAbovePriceOfBuy
| TriggerBelowPriceOfSell.

Section Template.
Context {N : NtTypes} {D : Type} `{DecimalOps D}.

Record NtOrderTemplate : Type := mkTemplate {
  order_type : OrderType;
  time_in_force : TimeInForce;
  expire_time : option Z;
  trigger_price : option Price;
  activation_price : option Price;
  trigger_type : option TriggerType;
  trigger_instrument_id : option InstrumentId;
  trailing_offset : option D;
  trailing_offset_type : option TrailingOffsetType;
  is_post_only : bool;
  is_reduce_only : bool;
  is_quote_quantity : bool;
}.

Record NtOrderBuildInputs : Type := mkInputs {
  input_instrument_id : InstrumentId;
  input_order_side : OrderSide;
  input_quantity : Quantity;
  input_price : option Price;
  input_client_order_id : ClientOrderId;
}.

Record NtOrderTemplateConfig : Type := mkTemplateConfig {
  cfg_order_type : OrderType;
  cfg_time_in_force : TimeInForce;
  cfg_expire_time_unix_nanos : option Z;
  cfg_trigger_price : option D;
  cfg_activation_price : option D;
  cfg_trigger_type : option TriggerType;
  cfg_trigger_instrument_id : option InstrumentId;
  cfg_trailing_offset : option D;
  cfg_trailing_offset_type : option TrailingOffsetType;
  cfg_is_post_only : bool;
  cfg_is_reduce_only : bool;
  cfg_is_quote_quantity : bool;
}.

(** ** The check of a configured template *)

(** [if b { errors.push(e) }]. *)
Definition push_if (b : bool) (e : TemplateError) : list TemplateError := if b then [e] else [].

Definition is_gtd (t : TimeInForce) : bool := match t with TifGtd => true | _ => false end.

Definition not_positive (d : D) : bool := d_leb d d_zero.

Definition check_no_trailing_stop_market_fields (o : NtOrderTemplateConfig) : list TemplateError :=
  push_if (opt_some (cfg_activation_price o)) ActivationPriceNotSupported ++
  push_if (opt_some (cfg_trailing_offset o)) TrailingOffsetNotSupported ++
  push_if (opt_some (cfg_trailing_offset_type o)) TrailingOffsetTypeNotSupported.

Definition check_no_trigger_or_trailing_fields (o : NtOrderTemplateConfig) : list TemplateError :=
  check_no_trailing_stop_market_fields o ++
  push_if (opt_some (cfg_trigger_price o)) TriggerPriceNotSupported ++
  push_if (opt_some (cfg_trigger_type o)) TriggerTypeNotSupported ++
  push_if (opt_some (cfg_trigger_instrument_id o)) TriggerInstrumentNotSupported.

Definition check_market_order_template (o : NtOrderTemplateConfig) : list TemplateError :=
  push_if (is_gtd (cfg_time_in_force o)) GtdNotSupported ++
  push_if (opt_some (cfg_expire_time_unix_nanos o)) ExpireTimeNotSupported ++
  push_if (cfg_is_post_only o) PostOnlyNotSupported ++
  check_no_trigger_or_trailing_fields o.

Definition cfg_gtd_without_expiry (o : NtOrderTemplateConfig) : bool :=
  is_gtd (cfg_time_in_force o) && is_none_or (λ v, v =? 0) (cfg_expire_time_unix_nanos o).

Definition check_limit_order_template (o : NtOrderTemplateConfig) : list TemplateError :=
  push_if (cfg_gtd_without_expiry o) ExpireTimeRequired ++
  check_no_trigger_or_trailing_fields o.

Definition check_triggered_order_template (o : NtOrderTemplateConfig) : list TemplateError :=
  push_if (is_none_or not_positive (cfg_trigger_price o)) TriggerPriceNotPositive ++
  push_if (cfg_gtd_without_expiry o) ExpireTimeRequired ++
  check_no_trailing_stop_market_fields o.

Definition check_triggered_market_order_template (o : NtOrderTemplateConfig) : list TemplateError :=
  check_triggered_order_template o ++ push_if (cfg_is_post_only o) PostOnlyNotSupported.

Definition check_triggered_limit_order_template (o : NtOrderTemplateConfig) : list TemplateError :=
  check_triggered_order_template o.

Definition check_trailing_stop_market_combination (o : NtOrderTemplateConfig) : list TemplateError :=
  push_if (cfg_is_post_only o) PostOnlyNotSupported ++
  push_if (is_some_and not_positive (cfg_trigger_price o)) TriggerPriceNotPositive ++
  push_if (is_some_and not_positive (cfg_activation_price o)) ActivationPriceNotPositive ++
  push_if (opt_none (cfg_trigger_price o) && is_none_or not_positive (cfg_activation_price o))
    TriggerOrActivationRequired ++
  push_if (is_none_or not_positive (cfg_trailing_offset o)) TrailingOffsetNotPositive ++
  push_if (cfg_gtd_without_expiry o) ExpireTimeRequired.

Definition check_nt_order_template_config (o : NtOrderTemplateConfig) : list TemplateError :=
  match cfg_order_type o with
  | TypeMarket => check_market_order_template o
  | TypeLimit => check_limit_order_template o
  | TypeStopMarket | TypeMarketIfTouched => check_triggered_market_order_template o
  | TypeStopLimit | TypeLimitIfTouched => check_triggered_limit_order_template o
  | TypeTrailingStopMarket => check_trailing_stop_market_combination o
  | t => [OrderTypeNotExposed t]
  end.

(** ** Validation against the inputs of an order *)

Definition gtd_without_expiry (t : NtOrderTemplate) : bool :=
  is_gtd (time_in_force t) && is_none_or (λ v, v =? 0) (expire_time t).

(** The first match: type, time in force and trigger price. *)
Definition validate_timing (t : NtOrderTemplate) : Result unit TemplateError :=
  match order_type t with
  | TypeLimit =>
      if gtd_without_expiry t then Err ExpireTimeRequired
      else if opt_some (trigger_price t) then Err TriggerPriceNotSupported else Ok tt
  | TypeStopMarket | TypeMarketIfTouched | TypeStopLimit | TypeLimitIfTouched =>
      if gtd_without_expiry t then Err ExpireTimeRequired
      else if opt_none (trigger_price t) then Err TriggerPriceRequired else Ok tt
  | TypeTrailingStopMarket => if gtd_without_expiry t then Err ExpireTimeRequired else Ok tt
  | TypeMarket =>
      if is_gtd (time_in_force t) then Err GtdNotSupported
      else if opt_some (expire_time t) then Err ExpireTimeNotSupported
      else if opt_some (trigger_price t) then Err TriggerPriceNotSupported else Ok tt
  | _ => Ok tt
  end.

(** The second match: market orders are not post only. *)
Definition validate_post_only (t : NtOrderTemplate) : Result unit TemplateError :=
  match order_type t with
  | TypeMarket | TypeStopMarket | TypeMarketIfTouched => ensure (negb (is_post_only t)) PostOnlyNotSupported
  | _ => Ok tt
  end.

(** The fields of other order types. *)
Definition validate_foreign_fields (t : NtOrderTemplate) : Result unit TemplateError :=
  match order_type t with
  | TypeTrailingStopMarket => Ok tt
  | _ =>
      ensure (opt_none (activation_price t)) ActivationPriceNotSupported;;?
      ensure (opt_none (trailing_offset t)) TrailingOffsetNotSupported;;?
      ensure (opt_none (trailing_offset_type t)) TrailingOffsetTypeNotSupported
  end;;?
  match order_type t with
  | TypeLimit | TypeMarket =>
      ensure (opt_none (trigger_type t)) TriggerTypeNotSupported;;?
      ensure (opt_none (trigger_instrument_id t)) TriggerInstrumentNotSupported
  | _ => Ok tt
  end.

Definition validate_trailing (t : NtOrderTemplate) : Result unit TemplateError :=
  match order_type t with
  | TypeTrailingStopMarket =>
      ensure (negb (is_post_only t)) PostOnlyNotSupported;;?
      ensure (is_none_or price_is_positive (trigger_price t)) TriggerPriceNotPositive;;?
      ensure (is_none_or price_is_positive (activation_price t)) ActivationPriceNotPositive;;?
      ensure (is_some_and price_is_positive (trigger_price t) ||
              is_some_and price_is_positive (activation_price t)) TriggerOrActivationRequired;;?
      offset ←? ok_or (trailing_offset t) TrailingOffsetRequired;
      ensure (d_gtb offset d_zero) TrailingOffsetNotPositive
  | _ => Ok tt
  end.

Definition is_triggered (t : OrderType) : bool :=
  match t with
  | TypeStopMarket | TypeStopLimit | TypeMarketIfTouched | TypeLimitIfTouched => true
  | _ => false
  end.

Definition validate_trigger (t : NtOrderTemplate) (inputs : NtOrderBuildInputs) : Result unit TemplateError :=
  match trigger_price t with
  | None => Ok tt
  | Some trigger =>
      (if is_triggered (order_type t) then ensure (price_is_positive trigger) TriggerPriceNotPositive
       else Ok tt);;?
      match order_type t with
      | TypeLimitIfTouched =>
          price ←? ok_or (input_price inputs) LimitPriceRequired;
          match input_order_side inputs with
          | OrderBuy => ensure (negb (price_ltb price trigger)) TriggerAbovePriceOfBuy
          | OrderSell => ensure (negb (price_ltb trigger price)) TriggerBelowPriceOfSell
          | NoOrderSide => Ok tt
          end
      | _ => Ok tt
      end
  end.

Definition validate_nt_order_template (t : NtOrderTemplate) (inputs : NtOrderBuildInputs)
    : Result unit TemplateError :=
  match order_type t with
  | TypeMarketToLimit | TypeTrailingStopLimit => Err (OrderTypeNotExposed (order_type t))
  | _ =>
      validate_timing t;;?
      validate_post_only t;;?
      validate_foreign_fields t;;?
      validate_trailing t;;?
      validate_trigger t inputs
  end.

(** ** The factory call *)

Inductive FactoryCall : Type :=
| CallLimit (price : Price) (expire : option Z) (post_only : bool)
| CallMarket
| CallStopMarket (trigger : Price) (expire : option Z)
| CallMarketIfTouched (trigger : Price) (expire : option Z)
| CallStopLimit (price trigger : Price) (expire : option Z) (post_only : bool)
| CallLimitIfTouched (price trigger : Price) (expire : option Z) (post_only : bool)
| CallTrailingStopMarket (offset : D) (offset_type : option TrailingOffsetType)
    (activation trigger : option Price) (expire : option Z).

(** The arguments every call passes, with those of its own. *)
Record BuiltOrder : Type := mkBuiltOrder {
  built_call : FactoryCall;
  built_inputs : NtOrderBuildInputs;
  built_time_in_force : TimeInForce;
  built_reduce_only : bool;
  built_quote_quantity : bool;
  built_trigger_type : option TriggerType;
  built_trigger_instrument_id : option InstrumentId;
}.

Definition required_limit_price (price : option Price) : Result Price TemplateError :=
  ok_or price LimitPriceRequired.

(** [None] is an [expect] that fails. *)
Definition build_nt_order (t : NtOrderTemplate) (inputs : NtOrderBuildInputs)
    : option (Result BuiltOrder TemplateError) :=
  let built call :=
    mkBuiltOrder call inputs (time_in_force t) (is_reduce_only t) (is_quote_quantity t) in
  match validate_nt_order_template t inputs with
  | Err e => Some (Err e)
  | Ok _ =>
      match order_type t with
      | TypeLimit =>
          Some (price ←? required_limit_price (input_price inputs);
                Ok (built (CallLimit price (expire_time t) (is_post_only t)) None None))
      | TypeMarket => Some (Ok (built CallMarket None None))
      | TypeStopMarket =>
          trigger ← trigger_price t;
          Some (Ok (built (CallStopMarket trigger (expire_time t)) (trigger_type t) (trigger_instrument_id t)))
      | TypeMarketIfTouched =>
          trigger ← trigger_price t;
          Some (Ok (built (CallMarketIfTouched trigger (expire_time t)) (trigger_type t) (trigger_instrument_id t)))
      | TypeStopLimit =>
          match required_limit_price (input_price inputs) with
          | Err e => Some (Err e)
          | Ok price =>
              trigger ← trigger_price t;
              Some (Ok (built (CallStopLimit price trigger (expire_time t) (is_post_only t))
                          (trigger_type t) (trigger_instrument_id t)))
          end
      | TypeLimitIfTouched =>
          match required_limit_price (input_price inputs) with
          | Err e => Some (Err e)
          | Ok price =>
              trigger ← trigger_price t;
              Some (Ok (built (CallLimitIfTouched price trigger (expire_time t) (is_post_only t))
                          (trigger_type t) (trigger_instrument_id t)))
          end
      | TypeTrailingStopMarket =>
          offset ← trailing_offset t;
          Some (Ok (built (CallTrailingStopMarket offset (trailing_offset_type t) (activation_price t)
                             (trigger_price t) (expire_time t))
                      (trigger_type t) (trigger_instrument_id t)))
      | _ => Some (Err (OrderTypeNotExposed (order_type t)))
      end
  end.

(** ** Configuration, validation and construction agree *)

(** A price of the configuration and the price of the template: both or none, and a
    positive price is configured exactly when the template has a positive one. *)
Definition price_matches (configured : option D) (price : option Price) : Prop :=
  match configured, price with
  | None, None => True
  | Some d, Some p => price_is_positive p = negb (not_positive d)
  | _, _ => False
  end.

Record template_matches (c : NtOrderTemplateConfig) (t : NtOrderTemplate) : Prop := {
  tm_type : cfg_order_type c = order_type t;
  tm_tif : cfg_time_in_force c = time_in_force t;
  tm_expire : cfg_expire_time_unix_nanos c = expire_time t;
  tm_trigger : price_matches (cfg_trigger_price c) (trigger_price t);
  tm_activation : price_matches (cfg_activation_price c) (activation_price t);
  tm_trigger_type : cfg_trigger_type c = trigger_type t;
  tm_trigger_instrument : cfg_trigger_instrument_id c = trigger_instrument_id t;
  tm_offset : cfg_trailing_offset c = trailing_offset t;
  tm_offset_type : cfg_trailing_offset_type c = trailing_offset_type t;
  tm_post_only : cfg_is_post_only c = is_post_only t;
  tm_reduce_only : cfg_is_reduce_only c = is_reduce_only t;
  tm_quote_quantity : cfg_is_quote_quantity c = is_quote_quantity t;
}.

(** The price relation of a limit-if-touched order, the one condition on the inputs. *)
Definition touched_price_ok (t : NtOrderTemplate) (inputs : NtOrderBuildInputs) : Prop :=
  order_type t = TypeLimitIfTouched →
  ∃ price trigger, input_price inputs = Some price ∧ trigger_price t = Some trigger ∧
    match input_order_side inputs with
    | OrderBuy => price_ltb price trigger = false
    | OrderSell => price_ltb trigger price = false
    | NoOrderSide => True
    end.

Lemma price_matches_some c p : price_matches c p → opt_some c = opt_some p.
Proof. by destruct c, p. Qed.

Lemma price_matches_none_or c p :
  price_matches c p → is_none_or not_positive c = negb (is_some_and price_is_positive p).
Proof. destruct c, p; simpl; try done. intros ->. by rewrite negb_involutive. Qed.

Lemma price_matches_some_and c p :
  price_matches c p → is_some_and not_positive c = negb (is_none_or price_is_positive p).
Proof. destruct c, p; simpl; try done. intros ->. by rewrite negb_involutive. Qed.

Lemma is_empty_app {A} (l k : list A) : is_empty (l ++ k) = is_empty l && is_empty k.
Proof. by destruct l. Qed.

Lemma is_empty_push_if b e : is_empty (push_if b e) = negb b.
Proof. by destruct b. Qed.

Lemma is_ok_ensure {E} b (e : E) : is_ok (ensure b e) = b.
Proof. by destruct b. Qed.

Lemma is_ok_seq {A B E} (r : Result A E) (k : Result B E) : is_ok (r;;? k) = is_ok r && is_ok k.
Proof. by destruct r. Qed.

Lemma is_ok_if {A E} (b : bool) (r k : Result A E) : is_ok (if b then r else k) = if b then is_ok r else is_ok k.
Proof. by destruct b. Qed.

(** The relation of [touched_price_ok] as the code decides it. *)
Definition touched_price_okb (t : NtOrderTemplate) (inputs : NtOrderBuildInputs) : bool :=
  match order_type t, input_price inputs, trigger_price t with
  | TypeLimitIfTouched, Some price, Some trigger =>
      match input_order_side inputs with
      | OrderBuy => negb (price_ltb price trigger)
      | OrderSell => negb (price_ltb trigger price)
      | NoOrderSide => true
      end
  | TypeLimitIfTouched, _, _ => false
  | _, _, _ => true
  end.

Lemma touched_price_okb_spec t inputs : touched_price_okb t inputs = true ↔ touched_price_ok t inputs.
Proof.
  unfold touched_price_okb, touched_price_ok.
  destruct (order_type t); try (split; [done|]; done).
  destruct (input_price inputs) as [price|], (trigger_price t) as [trigger|];
    try (split; [done|]; intros Hno; destruct (Hno eq_refl) as (? & ? & ? & ? & _); done).
  destruct (input_order_side inputs); rewrite ?negb_true_iff; naive_solver.
Qed.

Lemma check_matches_validate c t inputs :
  template_matches c t →
  is_ok (validate_nt_order_template t inputs) =
  is_empty (check_nt_order_template_config c) && touched_price_okb t inputs.
Proof.
  intros [Htype Htif Hexp Htr Hact Htt Hti Hoff Hofft Hpost _ _].
  unfold check_nt_order_template_config, validate_nt_order_template, touched_price_okb.
  rewrite Htype. destruct (order_type t) eqn:Et; try done;
    unfold check_market_order_template, check_limit_order_template, check_triggered_market_order_template,
      check_triggered_limit_order_template, check_triggered_order_template,
      check_trailing_stop_market_combination, check_no_trigger_or_trailing_fields,
      check_no_trailing_stop_market_fields, cfg_gtd_without_expiry,
      validate_timing, validate_post_only, validate_foreign_fields, validate_trailing, validate_trigger,
      gtd_without_expiry;
    rewrite Et; simpl;
    rewrite ?is_empty_app, ?is_empty_push_if, ?is_ok_seq, ?is_ok_ensure;
    rewrite ?Htif, ?Hexp, ?Htt, ?Hti, ?Hoff, ?Hofft, ?Hpost;
    rewrite ?(price_matches_some _ _ Hact), ?(price_matches_some _ _ Htr),
      ?(price_matches_none_or _ _ Htr), ?(price_matches_some_and _ _ Htr),
      ?(price_matches_some_and _ _ Hact), ?(price_matches_none_or _ _ Hact).
  all: unfold opt_none, not_positive, d_leb, d_gtb; rewrite ?is_ok_if, ?(price_matches_some _ _ Htr);
    destruct (trigger_price t); simpl; rewrite ?is_ok_seq, ?is_ok_ensure; try btauto;
    try (destruct (activation_price t), (trailing_offset t); simpl; rewrite ?is_ok_ensure; btauto).
  all: destruct (input_price inputs); simpl; [|btauto];
    destruct (input_order_side inputs); simpl; rewrite ?is_ok_ensure; btauto.
Qed.

(** A configured template passes the configuration check exactly when every order it
    describes passes the validation at build time, up to the relation of limit and
    trigger price of a limit-if-touched order, the only condition on the order's own
    inputs. *)
Lemma checked_template_validates c t inputs :
  template_matches c t →
  is_ok (validate_nt_order_template t inputs) = true ↔
  check_nt_order_template_config c = [] ∧ touched_price_ok t inputs.
Proof.
  intros Hm. rewrite (check_matches_validate c t inputs Hm), andb_true_iff, touched_price_okb_spec.
  destruct (check_nt_order_template_config c); simpl; naive_solver.
Qed.

(** The kind of order a factory call builds. *)
Definition call_type (c : FactoryCall) : OrderType :=
  match c with
  | CallLimit _ _ _ => TypeLimit
  | CallMarket => TypeMarket
  | CallStopMarket _ _ => TypeStopMarket
  | CallMarketIfTouched _ _ => TypeMarketIfTouched
  | CallStopLimit _ _ _ _ => TypeStopLimit
  | CallLimitIfTouched _ _ _ _ => TypeLimitIfTouched
  | CallTrailingStopMarket _ _ _ _ _ => TypeTrailingStopMarket
  end.

Lemma validated_trigger t inputs u :
  validate_nt_order_template t inputs = Ok u → is_triggered (order_type t) = true →
  is_Some (trigger_price t).
Proof.
  unfold validate_nt_order_template, validate_timing.
  destruct (order_type t) eqn:Et; try done; intros Hv _; result_inv;
    destruct (trigger_price t); try done; simpl in *; by destruct (gtd_without_expiry t).
Qed.

Lemma validated_offset t inputs u :
  validate_nt_order_template t inputs = Ok u → order_type t = TypeTrailingStopMarket →
  is_Some (trailing_offset t).
Proof.
  unfold validate_nt_order_template, validate_trailing. intros Hv Et. rewrite Et in Hv. result_inv. eauto.
Qed.

(** Building an order never hits an expect: an invalid template is refused with the error of
    the validation, and a valid one gives an order of the template's type with the
    template's flags, unless it is a limit or stop-limit order without a price, which is
    refused for that. *)
Lemma build_never_panics t inputs :
  match validate_nt_order_template t inputs with
  | Err e => build_nt_order t inputs = Some (Err e)
  | Ok _ =>
      (∃ order, build_nt_order t inputs = Some (Ok order) ∧
         call_type (built_call order) = order_type t ∧ built_inputs order = inputs ∧
         built_reduce_only order = is_reduce_only t ∧
         built_quote_quantity order = is_quote_quantity t) ∨
      (build_nt_order t inputs = Some (Err LimitPriceRequired) ∧ input_price inputs = None ∧
         (order_type t = TypeLimit ∨ order_type t = TypeStopLimit))
  end.
Proof.
  unfold build_nt_order.
  destruct (validate_nt_order_template t inputs) as [u|e] eqn:Hv; [|done].
  pose proof (validated_trigger t inputs u Hv) as Htr. pose proof (validated_offset t inputs u Hv) as Hoff.
  unfold validate_nt_order_template in Hv.
  destruct (order_type t) eqn:Et; try done; simpl in Htr;
    try (destruct (Htr eq_refl) as [trigger Htr']; rewrite Htr');
    try (destruct (Hoff eq_refl) as [offset ->]);
    destruct (input_price inputs) as [price|] eqn:Ep; simpl; try (left; eexists; done); try (right; by eauto).
  result_inv. unfold validate_trigger in Hv. rewrite Htr', Et, Ep in Hv. result_inv. done.
Qed.

End Template.
Arguments NtOrderTemplate {N} D.
Arguments NtOrderTemplateConfig {N} D.
Arguments BuiltOrder {N} D.
Arguments FactoryCall {N} D.
