(* ===== verification/KillSwitchFlatten.v ===== *)
(** * Kill switch: the flatten plan, its outcomes and the action router

    Models [src/src/bolt_v3_kill_switch_flatten.rs] and
    [src/src/bolt_v3_kill_switch_action_router.rs]: the snapshot of the positions, the
    plan of reduce-only orders that closes the open ones while the switch is flattening,
    the verdict over the reported outcomes, and the router's proof-only decisions. *)

From Stdlib Require Import ZArith Lia.
From stdpp Require Import sorting strings gmap numbers list relations.
From S2P Require Import Prelude.
From S2P Require Import RustText.
From S2P Require Import BTree.
From S2P Require Import DecimalAmount.
From S2P Require Import NtTypes.
From S2P Require Import OutcomeVerdicts.
From S2P Require Import KillSwitch.
From S2P Require Import OrderIntent.
From S2P Require Import PositionContract.

Open Scope Z_scope.

(** ** The claim a forced reduction carries *)

Inductive BoltV3KillSwitchForcedReductionError : Type :=
| ReductionMissingHaltId
| ReductionMissingActionId
| ReductionInvalidPolicySha256.

Record BoltV3KillSwitchForcedReductionClaim : Type := mkReductionClaim {
  claim_halt_id : text;
  claim_action_id : text;
  claim_policy_sha256 : text;
}.

(** [BoltV3KillSwitchForcedReductionClaim::new]. *)
Definition reduction_claim_new (halt_id action_id policy_sha256 : text)
    : Result BoltV3KillSwitchForcedReductionClaim BoltV3KillSwitchForcedReductionError :=
  if blank halt_id then Err ReductionMissingHaltId
  else if blank action_id then Err ReductionMissingActionId
  else if negb (is_sha256_hex_digest policy_sha256) then Err ReductionInvalidPolicySha256
  else Ok (mkReductionClaim halt_id action_id policy_sha256).

Inductive BoltV3KillSwitchFlattenError : Type :=
| ConflictingPositionProof
| FlattenForcedReductionProofMismatch
| InconsistentPositionProof
| FlattenInvalidConfigSha256
| InvalidOrderTemplate
| FlattenInvalidPolicySha256
| InvalidAttemptOutcome
| FlattenMissingActionId
| KillSwitchStateNotFlattening
| FlattenMissingCandidates
| MissingPositionProof
| FlattenMissingSourceTimestamp
| FlattenNtTradingStateNotReducing
| OrderTemplateNotReduceOnly
| OrderTemplateUsesQuoteQuantity
| UnknownOutcomeCommand
| UnsupportedRouteProof.

Inductive BoltV3KillSwitchFlattenPositionEvidenceKind : Type :=
| CachePosition
| PositionStatusReport.

Inductive BoltV3KillSwitchFlattenQuantitySource : Type :=
| CachePositionQuantity
| PositionStatusReportQuantity.

Inductive BoltV3KillSwitchFlattenDecisionMode : Type :=
| FlattenDryRunProofOnly
| FlattenModeLiveNodeCommandRouter.

Inductive BoltV3KillSwitchFlattenRouteKind : Type :=
| FlattenPerStrategyActionPort
| FlattenLiveNodeCommandRouter
| FlattenUnsupportedRoute.

#[global] Instance FlattenRouteKind_eq_dec : EqDecision BoltV3KillSwitchFlattenRouteKind.
Proof. solve_decision. Defined.

Record BoltV3KillSwitchFlattenRouteProof : Type := mkFlattenRouteProof {
  flatten_proof_route_kind : BoltV3KillSwitchFlattenRouteKind;
}.

(** ** Outcomes of the attempts *)

Inductive BoltV3KillSwitchFlattenAttemptOutcome : Type :=
| SubmitPlanned
| SubmitAccepted
| SubmitRejected
| PartialFill
| ResidualPosition
| FlatPositionObserved
| StalePositionProof
| UnsupportedInstrument
| ThinBookNoFillabilityProof.

Definition outcome_submit_accepted (status : OrderStatus)
    : Result BoltV3KillSwitchFlattenAttemptOutcome BoltV3KillSwitchFlattenError :=
  ensure (bool_decide (status = StatusAccepted)) InvalidAttemptOutcome;;? Ok SubmitAccepted.

Definition outcome_submit_rejected (status : OrderStatus)
    : Result BoltV3KillSwitchFlattenAttemptOutcome BoltV3KillSwitchFlattenError :=
  ensure (bool_decide (status = StatusRejected)) InvalidAttemptOutcome;;? Ok SubmitRejected.

Definition outcome_partial_fill (status : OrderStatus)
    : Result BoltV3KillSwitchFlattenAttemptOutcome BoltV3KillSwitchFlattenError :=
  ensure (bool_decide (status = StatusPartiallyFilled)) InvalidAttemptOutcome;;? Ok PartialFill.

Definition outcome_residual_position_remains (side : PositionSide) (source_timestamp : Z)
    : Result BoltV3KillSwitchFlattenAttemptOutcome BoltV3KillSwitchFlattenError :=
  if negb (is_observed_open_side side) || (source_timestamp =? 0) then Err InvalidAttemptOutcome
  else Ok ResidualPosition.

Definition outcome_flat_position_observed (side : PositionSide) (source_timestamp : Z)
    : Result BoltV3KillSwitchFlattenAttemptOutcome BoltV3KillSwitchFlattenError :=
  if bool_decide (side ≠ PositionFlat) || (source_timestamp =? 0) then Err InvalidAttemptOutcome
  else Ok FlatPositionObserved.

Inductive BoltV3KillSwitchFlattenAggregateOutcome : Type :=
| AggAllFlat
| AggOutstandingFlattenSubmit
| AggResidualPositionRemains
| AggFailedManualIntervention
| AggSubmitRejectedManualIntervention.

(** The derived [Ord]. *)
Definition flatten_rank (a : BoltV3KillSwitchFlattenAggregateOutcome) : Z :=
  match a with
  | AggAllFlat => 0
  | AggOutstandingFlattenSubmit => 1
  | AggResidualPositionRemains => 2
  | AggFailedManualIntervention => 3
  | AggSubmitRejectedManualIntervention => 4
  end.

Record BoltV3KillSwitchFlattenOutcomeSummary : Type := mkFlattenSummary {
  summary_aggregate : BoltV3KillSwitchFlattenAggregateOutcome;
  authorizes_durable_state_transition : bool;
}.

(** [BoltV3KillSwitchFlattenOutcomeAggregator::summarize]. *)
Definition summarize (outcomes : list BoltV3KillSwitchFlattenAttemptOutcome)
    : BoltV3KillSwitchFlattenOutcomeSummary :=
  let any p := existsb p outcomes in
  let aggregate :=
    if any (λ o, match o with SubmitRejected => true | _ => false end)
    then AggSubmitRejectedManualIntervention
    else if any (λ o, match o with
                      | StalePositionProof | UnsupportedInstrument | ThinBookNoFillabilityProof => true
                      | _ => false end)
    then AggFailedManualIntervention
    else if any (λ o, match o with ResidualPosition | PartialFill => true | _ => false end)
    then AggResidualPositionRemains
    else if any (λ o, match o with SubmitPlanned | SubmitAccepted => true | _ => false end)
    then AggOutstandingFlattenSubmit
    else AggAllFlat in
  mkFlattenSummary aggregate false.

Inductive BoltV3KillSwitchFlattenResult : Type :=
| ResultAllFlat
| ResultResidualPositionRemains
| ResultOutstandingFlattenSubmit
| ResultSubmitRejectedManualIntervention
| ResultFailedManualIntervention.

(** [From<BoltV3KillSwitchFlattenAggregateOutcome>]. *)
Definition flatten_result_from (a : BoltV3KillSwitchFlattenAggregateOutcome)
    : BoltV3KillSwitchFlattenResult :=
  match a with
  | AggAllFlat => ResultAllFlat
  | AggResidualPositionRemains => ResultResidualPositionRemains
  | AggOutstandingFlattenSubmit => ResultOutstandingFlattenSubmit
  | AggSubmitRejectedManualIntervention => ResultSubmitRejectedManualIntervention
  | AggFailedManualIntervention => ResultFailedManualIntervention
  end.

Definition aggregate_for_outcome (o : BoltV3KillSwitchFlattenAttemptOutcome)
    : BoltV3KillSwitchFlattenAggregateOutcome := summary_aggregate (summarize [o]).

Definition worse_flatten_outcome (current next : BoltV3KillSwitchFlattenAttemptOutcome)
    : BoltV3KillSwitchFlattenAttemptOutcome :=
  if flatten_rank (aggregate_for_outcome current) <? flatten_rank (aggregate_for_outcome next)
  then next else current.

Definition worse_flatten_aggregate (current next : BoltV3KillSwitchFlattenAggregateOutcome)
    : BoltV3KillSwitchFlattenAggregateOutcome :=
  if flatten_rank current <? flatten_rank next then next else current.

(** A verdict is determined by the severities it reaches. *)
Lemma flatten_rank_ext a b : (∀ n, 0 < n → n ≤ flatten_rank a ↔ n ≤ flatten_rank b) → a = b.
Proof.
  intros Hext. assert (Hle : ∀ x, 0 ≤ flatten_rank x) by (by intros []).
  assert (Hr : flatten_rank a = flatten_rank b); [|by destruct a, b].
  pose proof (Hle a). pose proof (Hle b).
  destruct (Z.lt_trichotomy (flatten_rank a) (flatten_rank b)) as [?|[?|?]]; [|done|].
  - pose proof (Hext (flatten_rank b)). lia.
  - pose proof (Hext (flatten_rank a)). lia.
Qed.

Lemma flatten_rank_worse a b :
  flatten_rank (worse_flatten_aggregate a b) = Z.max (flatten_rank a) (flatten_rank b).
Proof. unfold worse_flatten_aggregate. destruct (Z.ltb_spec (flatten_rank a) (flatten_rank b)); lia. Qed.

Lemma flatten_rank_worse_outcome a b :
  flatten_rank (aggregate_for_outcome (worse_flatten_outcome a b)) =
  Z.max (flatten_rank (aggregate_for_outcome a)) (flatten_rank (aggregate_for_outcome b)).
Proof.
  unfold worse_flatten_outcome.
  destruct (Z.ltb_spec (flatten_rank (aggregate_for_outcome a)) (flatten_rank (aggregate_for_outcome b))); lia.
Qed.

Lemma summarize_cons o l :
  flatten_rank (summary_aggregate (summarize (o :: l))) =
  Z.max (flatten_rank (aggregate_for_outcome o)) (flatten_rank (summary_aggregate (summarize l))).
Proof. unfold aggregate_for_outcome, summarize. simpl. destruct o; simpl; repeat case_match; done. Qed.

(** A summary is as severe as its most severe outcome. *)
Lemma summarize_rank l n :
  0 < n →
  n ≤ flatten_rank (summary_aggregate (summarize l)) ↔
  ∃ o, o ∈ l ∧ n ≤ flatten_rank (aggregate_for_outcome o).
Proof.
  intros Hn. induction l as [|o l IH].
  - simpl. split; [lia|]. intros (o & Ho & _). by apply not_elem_of_nil in Ho.
  - rewrite summarize_cons, Z.max_le_iff, IH. setoid_rewrite elem_of_cons. naive_solver.
Qed.

(** [BoltV3KillSwitchFlattenPolicy], which carries nothing. *)
Inductive BoltV3KillSwitchFlattenPolicy : Type := mkFlattenPolicy.

Lemma sublist_fmap_filter {A B} (f : A → B) (P : A → Prop) `{∀ x, Decision (P x)} (l : list A) :
  (f <$> filter P l) `sublist_of` (f <$> l).
Proof.
  induction l as [|x l IH]; csimpl; [done|]. rewrite filter_cons. case_decide; csimpl.
  - by apply sublist_skip.
  - by apply sublist_cons.
Qed.

Section Flatten.
Context {N : NtTypes} {D : Type} `{DecimalOps D}.

(** ** Positions and their snapshot *)

Record BoltV3KillSwitchFlattenPositionState : Type := mkPositionState {
  ps_evidence_kind : BoltV3KillSwitchFlattenPositionEvidenceKind;
  ps_account_id : AccountId;
  ps_instrument_id : InstrumentId;
  ps_strategy_id : StrategyId;
  ps_position_id : PositionId;
  ps_position_side : PositionSide;
  ps_quantity : Quantity;
  ps_source_timestamp : Z;
}.

Record BoltV3KillSwitchFlattenCandidate : Type := mkFlattenCandidate {
  fc_evidence_kind : BoltV3KillSwitchFlattenPositionEvidenceKind;
  fc_account_id : AccountId;
  fc_instrument_id : InstrumentId;
  fc_strategy_id : StrategyId;
  fc_position_id : PositionId;
  fc_position_side : PositionSide;
  fc_quantity : Quantity;
  fc_quantity_source : BoltV3KillSwitchFlattenQuantitySource;
  fc_source_timestamp : Z;
}.

(** [BoltV3KillSwitchFlattenCandidate::from_nt_position_state]. *)
Definition from_nt_position_state (p : BoltV3KillSwitchFlattenPositionState)
    : Result BoltV3KillSwitchFlattenCandidate BoltV3KillSwitchFlattenError :=
  let quantity_source :=
    match ps_evidence_kind p with
    | CachePosition => CachePositionQuantity
    | PositionStatusReport => PositionStatusReportQuantity
    end in
  if is_observed_open_side (ps_position_side p) && quantity_is_zero (ps_quantity p)
  then Err InconsistentPositionProof
  else if ps_source_timestamp p =? 0 then Err FlattenMissingSourceTimestamp
  else Ok (mkFlattenCandidate (ps_evidence_kind p) (ps_account_id p) (ps_instrument_id p)
             (ps_strategy_id p) (ps_position_id p) (ps_position_side p) (ps_quantity p)
             quantity_source (ps_source_timestamp p)).

Definition position_identity (c : BoltV3KillSwitchFlattenCandidate)
    : AccountId * InstrumentId * StrategyId * PositionId :=
  (fc_account_id c, fc_instrument_id c, fc_strategy_id c, fc_position_id c).

(** Two proofs of one position that disagree. *)
Definition conflicting (one other : BoltV3KillSwitchFlattenCandidate) : bool :=
  match ord_cmp (position_identity one) (position_identity other) with
  | Eq => bool_decide (fc_position_side one ≠ fc_position_side other) ||
          bool_decide (fc_quantity one ≠ fc_quantity other)
  | _ => false
  end.

(** Every pair of one candidate and a later one. *)
Fixpoint validate_no_conflicting_position_proof (candidates : list BoltV3KillSwitchFlattenCandidate)
    : Result unit BoltV3KillSwitchFlattenError :=
  match candidates with
  | [] => Ok tt
  | candidate :: rest =>
      if existsb (conflicting candidate) rest then Err ConflictingPositionProof
      else validate_no_conflicting_position_proof rest
  end.

Record BoltV3KillSwitchFlattenSnapshot : Type := mkFlattenSnapshot {
  fs_candidates : list BoltV3KillSwitchFlattenCandidate;
  fs_open_positions : list BoltV3KillSwitchFlattenCandidate;
  fs_flat_positions : list BoltV3KillSwitchFlattenCandidate;
  fs_unknown_side_positions : list BoltV3KillSwitchFlattenCandidate;
}.

(** [BoltV3KillSwitchFlattenSnapshot::new]. *)
Definition flatten_snapshot_new (candidates : list BoltV3KillSwitchFlattenCandidate)
    : Result BoltV3KillSwitchFlattenSnapshot BoltV3KillSwitchFlattenError :=
  validate_no_conflicting_position_proof candidates;;?
  let candidates := bt_values (bt_first ((λ c, (position_identity c, c)) <$> candidates)) in
  Ok (mkFlattenSnapshot candidates
        (filter (λ c, is_observed_open_side (fc_position_side c) = true) candidates)
        (filter (λ c, fc_position_side c = PositionFlat) candidates)
        (filter (λ c, fc_position_side c = NoPositionSide) candidates)).

Definition has_residual_position_risk (s : BoltV3KillSwitchFlattenSnapshot) : bool :=
  negb (is_empty (fs_open_positions s)) || negb (is_empty (fs_unknown_side_positions s)).

(** [BoltV3KillSwitchFlattenPolicy::validate_snapshot]. *)
Definition flatten_policy_validate_snapshot (p : BoltV3KillSwitchFlattenPolicy)
    (s : BoltV3KillSwitchFlattenSnapshot) (observed_at : Z) : Result unit BoltV3KillSwitchFlattenError :=
  if is_empty (fs_candidates s) then Err MissingPositionProof else Ok tt.

(** ** The plan *)

Record BoltV3KillSwitchFlattenPlanRequest : Type := mkFlattenPlanRequest {
  flatten_kill_switch_state : KillSwitchState;
  flatten_nt_trading_state : TradingState;
  flatten_action_id : text;
  flatten_config_sha256 : text;
  flatten_policy_sha256 : text;
  flatten_source_timestamp : Z;
  flatten_policy : BoltV3KillSwitchFlattenPolicy;
  flatten_snapshot : BoltV3KillSwitchFlattenSnapshot;
  flatten_observed_at : Z;
  flatten_route_proof : BoltV3KillSwitchFlattenRouteProof;
  flatten_order_template : NtOrderTemplate D;
  flatten_forced_reduction_claim : BoltV3KillSwitchForcedReductionClaim;
}.

Record BoltV3KillSwitchFlattenCommand : Type := mkFlattenCommand {
  fcmd_halt_id : text;
  fcmd_action_id : text;
  fcmd_config_sha256 : text;
  fcmd_policy_sha256 : text;
  fcmd_source_timestamp : Z;
  fcmd_account_id : AccountId;
  fcmd_instrument_id : InstrumentId;
  fcmd_strategy_id : StrategyId;
  fcmd_position_id : PositionId;
  fcmd_position_side : PositionSide;
  fcmd_order_side : OrderSide;
  fcmd_quantity : Quantity;
  fcmd_quantity_source : BoltV3KillSwitchFlattenQuantitySource;
  fcmd_order_template : NtOrderTemplate D;
  fcmd_route_kind : BoltV3KillSwitchFlattenRouteKind;
  fcmd_forced_reduction_claim : BoltV3KillSwitchForcedReductionClaim;
}.

Record BoltV3KillSwitchFlattenPlan : Type := mkFlattenPlan {
  flatten_plan_halt_id : text;
  flatten_plan_decision_mode : BoltV3KillSwitchFlattenDecisionMode;
  flatten_plan_candidates : list BoltV3KillSwitchFlattenCandidate;
  flatten_plan_commands : list BoltV3KillSwitchFlattenCommand;
}.

Definition validate_flatten_command_metadata (r : BoltV3KillSwitchFlattenPlanRequest)
    : Result unit BoltV3KillSwitchFlattenError :=
  if blank (flatten_action_id r) then Err FlattenMissingActionId
  else if negb (is_sha256_hex_digest (flatten_config_sha256 r)) then Err FlattenInvalidConfigSha256
  else if negb (is_sha256_hex_digest (flatten_policy_sha256 r)) then Err FlattenInvalidPolicySha256
  else if flatten_source_timestamp r =? 0 then Err FlattenMissingSourceTimestamp
  else Ok tt.

(** The loop of [validate_flatten_order_template]; [None] is a panic: a failed [expect], or
    an action id that is no client order id. *)
Fixpoint validate_flatten_positions (template : NtOrderTemplate D)
    (open_positions : list BoltV3KillSwitchFlattenCandidate) (action_id : text)
    : option (Result unit BoltV3KillSwitchFlattenError) :=
  match open_positions with
  | [] => Some (Ok tt)
  | c :: rest =>
      order_side ← expected_exit_order_side_for_position (fc_position_side c);
      client_order_id ← client_order_from action_id;
      let inputs := mkInputs (fc_instrument_id c) order_side (fc_quantity c) None client_order_id in
      match validate_nt_order_template template inputs with
      | Err _ => Some (Err InvalidOrderTemplate)
      | Ok _ => validate_flatten_positions template rest action_id
      end
  end.

Definition validate_flatten_order_template (template : NtOrderTemplate D)
    (open_positions : list BoltV3KillSwitchFlattenCandidate) (action_id : text)
    : option (Result unit BoltV3KillSwitchFlattenError) :=
  if negb (is_reduce_only template) then Some (Err OrderTemplateNotReduceOnly)
  else if is_quote_quantity template then Some (Err OrderTemplateUsesQuoteQuantity)
  else validate_flatten_positions template open_positions action_id.

(** The command that closes one open position. *)
Definition flatten_command (r : BoltV3KillSwitchFlattenPlanRequest) (halt_id action_id : text)
    (c : BoltV3KillSwitchFlattenCandidate) : option BoltV3KillSwitchFlattenCommand :=
  order_side ← expected_exit_order_side_for_position (fc_position_side c);
  Some (mkFlattenCommand halt_id action_id (flatten_config_sha256 r) (flatten_policy_sha256 r)
          (flatten_source_timestamp r) (fc_account_id c) (fc_instrument_id c) (fc_strategy_id c)
          (fc_position_id c) (fc_position_side c) order_side (fc_quantity c) (fc_quantity_source c)
          (flatten_order_template r) (flatten_proof_route_kind (flatten_route_proof r))
          (flatten_forced_reduction_claim r)).

Definition reduction_claim_matches (r : BoltV3KillSwitchFlattenPlanRequest) (halt_id action_id : text)
    : bool :=
  bool_decide (claim_halt_id (flatten_forced_reduction_claim r) = halt_id) &&
  bool_decide (trim (claim_action_id (flatten_forced_reduction_claim r)) = action_id) &&
  bool_decide (claim_policy_sha256 (flatten_forced_reduction_claim r) = flatten_policy_sha256 r).

(** [None] is a panic: a failed [expect] or [unreachable!]. *)
Definition plan_flatten (r : BoltV3KillSwitchFlattenPlanRequest)
    : option (Result BoltV3KillSwitchFlattenPlan BoltV3KillSwitchFlattenError) :=
  match flatten_kill_switch_state r with
  | KsFlattening halt_id =>
      if bool_decide (flatten_nt_trading_state r ≠ TradingReducing)
      then Some (Err FlattenNtTradingStateNotReducing)
      else match validate_flatten_command_metadata r with
      | Err e => Some (Err e)
      | Ok _ =>
          let action_id := trim (flatten_action_id r) in
          validated ← validate_flatten_order_template (flatten_order_template r)
                        (fs_open_positions (flatten_snapshot r)) action_id;
          match validated with
          | Err e => Some (Err e)
          | Ok _ =>
              if negb (reduction_claim_matches r halt_id action_id)
              then Some (Err FlattenForcedReductionProofMismatch)
              else if bool_decide (flatten_proof_route_kind (flatten_route_proof r) = FlattenUnsupportedRoute)
              then Some (Err UnsupportedRouteProof)
              else match flatten_policy_validate_snapshot (flatten_policy r) (flatten_snapshot r)
                           (flatten_observed_at r) with
              | Err e => Some (Err e)
              | Ok _ =>
                  commands ← mapM (flatten_command r halt_id action_id)
                               (fs_open_positions (flatten_snapshot r));
                  decision_mode ←
                    match flatten_proof_route_kind (flatten_route_proof r) with
                    | FlattenLiveNodeCommandRouter => Some FlattenModeLiveNodeCommandRouter
                    | FlattenPerStrategyActionPort => Some FlattenDryRunProofOnly
                    | FlattenUnsupportedRoute => None
                    end;
                  Some (Ok (mkFlattenPlan halt_id decision_mode
                              (fs_candidates (flatten_snapshot r)) commands))
              end
          end
      end
  | _ => Some (Err KillSwitchStateNotFlattening)
  end.

(** ** The verdict *)

Definition BoltV3KillSwitchFlattenOutcomeIdentity : Type :=
  text * text * AccountId * InstrumentId * StrategyId * PositionId.

Definition flatten_outcome_identity (c : BoltV3KillSwitchFlattenCommand)
    : BoltV3KillSwitchFlattenOutcomeIdentity :=
  (fcmd_halt_id c, fcmd_action_id c, fcmd_account_id c, fcmd_instrument_id c, fcmd_strategy_id c,
   fcmd_position_id c).

Record BoltV3KillSwitchFlattenOutcomeEvidence : Type := mkFlattenEvidence {
  fe_halt_id : text;
  fe_action_id : text;
  fe_account_id : AccountId;
  fe_instrument_id : InstrumentId;
  fe_strategy_id : StrategyId;
  fe_position_id : PositionId;
  fe_outcome : BoltV3KillSwitchFlattenAttemptOutcome;
}.

(** [BoltV3KillSwitchFlattenOutcomeEvidence::from_command] and [identity]. *)
Definition flatten_evidence_from_command (c : BoltV3KillSwitchFlattenCommand)
    (o : BoltV3KillSwitchFlattenAttemptOutcome) : BoltV3KillSwitchFlattenOutcomeEvidence :=
  mkFlattenEvidence (fcmd_halt_id c) (fcmd_action_id c) (fcmd_account_id c) (fcmd_instrument_id c)
    (fcmd_strategy_id c) (fcmd_position_id c) o.

Definition flatten_evidence_identity (e : BoltV3KillSwitchFlattenOutcomeEvidence)
    : BoltV3KillSwitchFlattenOutcomeIdentity :=
  (fe_halt_id e, fe_action_id e, fe_account_id e, fe_instrument_id e, fe_strategy_id e,
   fe_position_id e).

(** [BoltV3KillSwitchFlattenOutcomeAggregation::from_plan_outcomes]. *)
Definition from_plan_outcomes (plan : BoltV3KillSwitchFlattenPlan)
    (outcomes : list BoltV3KillSwitchFlattenOutcomeEvidence)
    : Result BoltV3KillSwitchFlattenResult BoltV3KillSwitchFlattenError :=
  aggregate ←? aggregate worse_flatten_outcome aggregate_for_outcome worse_flatten_aggregate
    AggAllFlat AggOutstandingFlattenSubmit UnknownOutcomeCommand
    (flatten_outcome_identity <$> flatten_plan_commands plan)
    ((λ e, (flatten_evidence_identity e, fe_outcome e)) <$> outcomes);
  Ok (flatten_result_from aggregate).

(** ** The snapshot *)

Lemma no_conflict_agree candidates u c c' :
  validate_no_conflicting_position_proof candidates = Ok u →
  c ∈ candidates → c' ∈ candidates → position_identity c = position_identity c' →
  fc_position_side c = fc_position_side c' ∧ fc_quantity c = fc_quantity c'.
Proof.
  assert (Hpair : ∀ a b, conflicting a b = false → position_identity a = position_identity b →
    fc_position_side a = fc_position_side b ∧ fc_quantity a = fc_quantity b).
  { intros a b Hab Hid. unfold conflicting in Hab. rewrite Hid, cmp_refl in Hab.
    apply orb_false_iff in Hab as [Hs Hq]. apply bool_decide_eq_false in Hs, Hq.
    split; [destruct (decide (fc_position_side a = fc_position_side b))|
            destruct (decide (fc_quantity a = fc_quantity b))]; naive_solver. }
  assert (Hrest : ∀ a rest b, existsb (conflicting a) rest = false → b ∈ rest → conflicting a b = false).
  { intros a rest b Hex Hb. destruct (conflicting a b) eqn:E; [|done].
    assert (existsb (conflicting a) rest = true); [|congruence]. apply existsb_exists.
    exists b. split; [by apply list_elem_of_In|done]. }
  induction candidates as [|a rest IH]; simpl; [intros _ []%not_elem_of_nil|].
  destruct (existsb (conflicting a) rest) eqn:Hex; [done|]. intros Hv.
  intros [->|Hc]%elem_of_cons [->|Hc']%elem_of_cons Hid; [done| | |by apply IH].
  - eauto.
  - destruct (Hpair a c) as [-> ->]; [by eapply Hrest|done|done].
Qed.

(** One proof per position, the first of those that agree. *)
Lemma flatten_snapshot_spec positions s :
  flatten_snapshot_new positions = Ok s →
  NoDup (position_identity <$> fs_open_positions s) ∧
  (∀ c, c ∈ fs_open_positions s → c ∈ positions ∧ is_observed_open_side (fc_position_side c) = true) ∧
  (∀ p, p ∈ positions → is_observed_open_side (fc_position_side p) = true →
     ∃ c, c ∈ fs_open_positions s ∧ position_identity c = position_identity p) ∧
  (∀ p q, p ∈ positions → q ∈ positions → position_identity p = position_identity q →
     fc_position_side p = fc_position_side q ∧ fc_quantity p = fc_quantity q).
Proof.
  unfold flatten_snapshot_new. intros (u & Hv & [= <-])%result_bind_Ok; simpl.
  pose proof (λ c c', no_conflict_agree positions u c c' Hv) as Hagree.
  destruct (bt_first_by_key position_identity positions) as (Hnd & Hsub & Hcov).
  set (kept := bt_values _) in *. split; [|split; [|split; [|by auto]]].
  - apply (sublist_NoDup _ (position_identity <$> kept)); [done|].
    apply sublist_fmap_filter.
  - intros c [Hop Hc]%list_elem_of_filter. auto.
  - intros p Hp Hop. destruct (Hcov p Hp) as (c & Hc & Hid). exists c. split; [|done].
    apply list_elem_of_filter. split; [|done].
    destruct (Hagree c p) as [-> _]; [by apply Hsub|done|done|done].
Qed.

Definition fcmd_identity (c : BoltV3KillSwitchFlattenCommand)
    : AccountId * InstrumentId * StrategyId * PositionId :=
  (fcmd_account_id c, fcmd_instrument_id c, fcmd_strategy_id c, fcmd_position_id c).

Lemma exit_side_total side :
  is_observed_open_side side = true → is_Some (expected_exit_order_side_for_position side).
Proof. destruct side; simpl; eauto; done. Qed.

Lemma open_side_inv side :
  is_observed_open_side side = true ↔ side = PositionLong ∨ side = PositionShort.
Proof. destruct side; naive_solver. Qed.

Lemma exit_side_inv side exit :
  expected_exit_order_side_for_position side = Some exit →
  side = PositionLong ∧ exit = OrderSell ∨ side = PositionShort ∧ exit = OrderBuy.
Proof. destruct side; naive_solver. Qed.

(** The loop over the open positions meets no side without an exit. *)
Lemma validate_flatten_template_cases template positions action_id :
  Forall (λ c, is_observed_open_side (fc_position_side c) = true) positions →
  match validate_flatten_order_template template positions action_id with
  | Some res => ∀ u, res = Ok u → is_reduce_only template = true ∧ is_quote_quantity template = false
  | None => is_reduce_only template = true ∧ is_quote_quantity template = false ∧ positions ≠ [] ∧
            client_order_from action_id = None
  end.
Proof.
  intros Hopen. unfold validate_flatten_order_template.
  destruct (is_reduce_only template), (is_quote_quantity template); simpl; try done.
  induction Hopen as [|c rest Hc _ IH]; simpl; [done|].
  destruct (exit_side_total _ Hc) as [side ->]; simpl.
  destruct (client_order_from action_id); simpl; [|done].
  destruct (validate_nt_order_template _ _); [|done].
  destruct (validate_flatten_positions _ _ _); [done|]. by destruct IH as (_ & _ & _ & ?).
Qed.

Lemma flatten_commands_total r halt_id action_id positions :
  Forall (λ c, is_observed_open_side (fc_position_side c) = true) positions →
  ∃ commands, mapM (flatten_command r halt_id action_id) positions = Some commands ∧
    Forall2 (λ c cmd, flatten_command r halt_id action_id c = Some cmd) positions commands.
Proof.
  intros Hopen. destruct (proj2 (mapM_is_Some (flatten_command r halt_id action_id) positions)) as [cs Hcs].
  - apply (Forall_impl _ _ _ Hopen). intros c Hc. unfold compose, flatten_command.
    destruct (exit_side_total _ Hc) as [side ->]; simpl. eauto.
  - exists cs. split; [done|]. by apply mapM_Some.
Qed.

Lemma flatten_command_spec r halt_id action_id c cmd :
  flatten_command r halt_id action_id c = Some cmd →
  fcmd_identity cmd = position_identity c ∧
  expected_exit_order_side_for_position (fc_position_side c) = Some (fcmd_order_side cmd) ∧
  fcmd_quantity cmd = fc_quantity c ∧ fcmd_order_template cmd = flatten_order_template r ∧
  fcmd_route_kind cmd = flatten_proof_route_kind (flatten_route_proof r) ∧
  fcmd_forced_reduction_claim cmd = flatten_forced_reduction_claim r ∧ fcmd_halt_id cmd = halt_id.
Proof. intros (side & Hside & [= <-])%bind_Some. done. Qed.

(** Planning reaches the order template, with open positions and an action id that is no
    client order id. *)
Definition flatten_panics r : Prop :=
  (∃ halt_id, flatten_kill_switch_state r = KsFlattening halt_id) ∧
  flatten_nt_trading_state r = TradingReducing ∧ validate_flatten_command_metadata r = Ok tt ∧
  is_reduce_only (flatten_order_template r) = true ∧ is_quote_quantity (flatten_order_template r) = false ∧
  fs_open_positions (flatten_snapshot r) ≠ [] ∧ client_order_from (trim (flatten_action_id r)) = None.

Lemma flatten_panics_None r : flatten_panics r → plan_flatten r = None.
Proof.
  intros ((h & Hst) & Htr & Hmeta & Hro & Hqq & Hne & Hid). unfold plan_flatten.
  rewrite Hst, Htr, bool_decide_false, Hmeta by naive_solver. unfold validate_flatten_order_template.
  rewrite Hro, Hqq. simpl. destruct (fs_open_positions _) as [|c rest]; [done|]. simpl.
  destruct (expected_exit_order_side_for_position _); simpl; [by rewrite Hid|done].
Qed.

(** A plan has a command for every open position. *)
Lemma plan_flatten_cases r :
  Forall (λ c, is_observed_open_side (fc_position_side c) = true) (fs_open_positions (flatten_snapshot r)) →
  match plan_flatten r with
  | None => flatten_panics r
  | Some (Err _) => True
  | Some (Ok plan) =>
    flatten_kill_switch_state r = KsFlattening (flatten_plan_halt_id plan) ∧
    flatten_nt_trading_state r = TradingReducing ∧
    is_reduce_only (flatten_order_template r) = true ∧ is_quote_quantity (flatten_order_template r) = false ∧
    flatten_proof_route_kind (flatten_route_proof r) ≠ FlattenUnsupportedRoute ∧
    claim_halt_id (flatten_forced_reduction_claim r) = flatten_plan_halt_id plan ∧
    Forall2 (λ c cmd, flatten_command r (flatten_plan_halt_id plan) (trim (flatten_action_id r)) c = Some cmd)
      (fs_open_positions (flatten_snapshot r)) (flatten_plan_commands plan)
  end.
Proof.
  intros Hall. unfold plan_flatten, flatten_panics.
  destruct (flatten_kill_switch_state r) as [| | | |halt_id| |]; try done.
  case_bool_decide as Hred; [done|].
  destruct (decide (flatten_nt_trading_state r = TradingReducing)) as [Hst|Hst]; [|by destruct Hred].
  destruct (validate_flatten_command_metadata r) as [[]|]; [|done].
  set (action_id := trim (flatten_action_id r)).
  pose proof (validate_flatten_template_cases (flatten_order_template r) _ action_id Hall) as Htpl.
  destruct (validate_flatten_order_template _ _ _) as [[u|e]|]; simpl; [|done|naive_solver].
  destruct (Htpl u eq_refl) as [Hro Hqq].
  destruct (reduction_claim_matches r halt_id action_id) eqn:Hclaim; simpl; [|done].
  case_bool_decide as Hroute; [done|].
  destruct (flatten_policy_validate_snapshot _ _ _); [|done].
  destruct (flatten_commands_total r halt_id action_id _ Hall) as (commands & -> & Hcmds); simpl.
  unfold reduction_claim_matches in Hclaim. rewrite !andb_true_iff, !bool_decide_eq_true in Hclaim.
  destruct (flatten_proof_route_kind (flatten_route_proof r)) eqn:Hk; [..|done]; simpl; naive_solver.
Qed.

(** C33: Planning to flatten panics exactly when it reaches the order template with open
    positions and an action id that is no client order id.  When a plan is made, the
    switch is flattening and the node reducing, and there is one reduce-only order per
    open position among the observed ones, on the side that closes it and for the
    quantity on which all proofs of that position agree; no other position gets one. *)
Theorem flatten_plan_closes_positions positions r :
  flatten_snapshot_new positions = Ok (flatten_snapshot r) →
  (plan_flatten r = None ↔ flatten_panics r) ∧
  ∀ plan, plan_flatten r = Some (Ok plan) →
    flatten_kill_switch_state r = KsFlattening (flatten_plan_halt_id plan) ∧
    flatten_nt_trading_state r = TradingReducing ∧
    NoDup (fcmd_identity <$> flatten_plan_commands plan) ∧
    (∀ id, id ∈ fcmd_identity <$> flatten_plan_commands plan ↔
       ∃ p, p ∈ positions ∧ position_identity p = id ∧
            (fc_position_side p = PositionLong ∨ fc_position_side p = PositionShort)) ∧
    ∀ cmd p, cmd ∈ flatten_plan_commands plan → p ∈ positions →
      position_identity p = fcmd_identity cmd →
      (fc_position_side p = PositionLong ∧ fcmd_order_side cmd = OrderSell ∨
       fc_position_side p = PositionShort ∧ fcmd_order_side cmd = OrderBuy) ∧
      fcmd_quantity cmd = fc_quantity p ∧
      is_reduce_only (fcmd_order_template cmd) = true ∧
      is_quote_quantity (fcmd_order_template cmd) = false ∧
      fcmd_route_kind cmd ≠ FlattenUnsupportedRoute ∧
      claim_halt_id (fcmd_forced_reduction_claim cmd) = fcmd_halt_id cmd.
Proof.
  intros (Hnd & Hopen & Hcov & Hagree)%flatten_snapshot_spec.
  assert (Hall : Forall (λ c, is_observed_open_side (fc_position_side c) = true) (fs_open_positions (flatten_snapshot r)))
    by (apply Forall_forall; intros c Hc; by apply Hopen).
  pose proof (plan_flatten_cases r Hall) as Hres. split.
  { split; [intros Hnone; by rewrite Hnone in Hres|apply flatten_panics_None]. }
  intros plan Hplan. rewrite Hplan in Hres. destruct Hres as (Hst & Htr & Hro & Hqq & Hroute & Hclaim & Hcmds).
  assert (Hids : fcmd_identity <$> flatten_plan_commands plan =
    position_identity <$> fs_open_positions (flatten_snapshot r)).
  { clear -Hcmds. induction Hcmds as [|c cmd cs cmds Hc _ IH]; csimpl; [done|]. f_equal; [|done].
    by apply flatten_command_spec in Hc as [-> _]. }
  split; [done|]. split; [done|]. rewrite Hids. split; [done|]. split.
  - intros id. rewrite list_elem_of_fmap. split.
    + intros (c & -> & Hc). destruct (Hopen c Hc) as [Hp Hop%open_side_inv]. eauto.
    + intros (p & Hp & <- & Hop%open_side_inv). destruct (Hcov p Hp Hop) as (c & Hc & E). by exists c.
  - intros cmd p Hcmd Hp Hid. apply list_elem_of_lookup in Hcmd as [i Hi].
    destruct (Forall2_lookup_r _ _ _ _ _ Hcmds Hi) as (c & Hc & Hmk).
    apply list_elem_of_lookup_2, Hopen in Hc as [Hc _].
    apply flatten_command_spec in Hmk as (Eid & Eside & Eq & -> & -> & -> & ->).
    destruct (Hagree p c) as [Es Eqq]; [done|done|congruence|]. rewrite Es, Eqq, Eq.
    split; [by apply exit_side_inv|done].
Qed.

(** ** The verdict is the summary *)

(** Some command has no evidence. *)
Definition unreported (plan : BoltV3KillSwitchFlattenPlan)
    (outcomes : list BoltV3KillSwitchFlattenOutcomeEvidence) : bool :=
  existsb (λ c, negb (slice_contains (flatten_evidence_identity <$> outcomes) (flatten_outcome_identity c)))
    (flatten_plan_commands plan).

(** Every piece of evidence names a command. *)
Definition all_known (plan : BoltV3KillSwitchFlattenPlan)
    (outcomes : list BoltV3KillSwitchFlattenOutcomeEvidence) : bool :=
  forallb (λ e, slice_contains (flatten_outcome_identity <$> flatten_plan_commands plan)
    (flatten_evidence_identity e)) outcomes.

Lemma all_known_spec plan outcomes :
  all_known plan outcomes = true ↔
  ∀ e, e ∈ outcomes → flatten_evidence_identity e ∈ flatten_outcome_identity <$> flatten_plan_commands plan.
Proof.
  unfold all_known. rewrite forallb_forall. setoid_rewrite slice_contains_spec.
  setoid_rewrite list_elem_of_In. done.
Qed.

Lemma unreported_spec plan outcomes :
  unreported plan outcomes = true ↔
  ∃ c, c ∈ flatten_plan_commands plan ∧
    flatten_outcome_identity c ∉ flatten_evidence_identity <$> outcomes.
Proof.
  unfold unreported. rewrite existsb_exists. setoid_rewrite negb_true_iff.
  setoid_rewrite <- not_true_iff_false. setoid_rewrite slice_contains_spec.
  setoid_rewrite <- list_elem_of_In. done.
Qed.

(** A severity is reached by a command left out or by a reported outcome. *)
Lemma outcomes_with_pending n plan outcomes :
  0 < n →
  ((∃ k, k ∈ flatten_outcome_identity <$> flatten_plan_commands plan ∧
      k ∉ ((λ e, (flatten_evidence_identity e, fe_outcome e)) <$> outcomes).*1 ∧ n ≤ 1) ∨
   (∃ k o, (k, o) ∈ (λ e, (flatten_evidence_identity e, fe_outcome e)) <$> outcomes ∧
      n ≤ flatten_rank (aggregate_for_outcome o))) ↔
  ∃ o, o ∈ (fe_outcome <$> outcomes) ++ (if unreported plan outcomes then [SubmitPlanned] else []) ∧
    n ≤ flatten_rank (aggregate_for_outcome o).
Proof.
  intros Hn. rewrite <- list_fmap_compose. unfold compose; simpl. setoid_rewrite elem_of_app. split.
  - intros [(k & (c & -> & Hc)%list_elem_of_fmap & Hk & ?)|(k & o & (e & [= -> ->] & He)%list_elem_of_fmap & ?)].
    + exists SubmitPlanned. assert (unreported plan outcomes = true) as -> by (apply unreported_spec; eauto).
      split; [right; constructor|done].
    + exists (fe_outcome e). split; [|done]. left. apply list_elem_of_fmap. eauto.
  - intros (o & [(e & -> & He)%list_elem_of_fmap|Ho] & ?).
    + right. exists (flatten_evidence_identity e), (fe_outcome e). split; [|done].
      apply list_elem_of_fmap. eauto.
    + destruct (unreported plan outcomes) eqn:Hu; [|by apply not_elem_of_nil in Ho].
      apply list_elem_of_singleton in Ho as ->. apply unreported_spec in Hu as (c & Hc & Hk).
      left. exists (flatten_outcome_identity c). split; [apply list_elem_of_fmap; eauto|done].
Qed.

(** The two judgements of a flatten attempt agree: the verdict per command over keyed, ordered
    and possibly repeated evidence is the flat summary of all reported outcomes, to which
    a command without evidence counts as one that is only planned; evidence that names
    no command is refused.  A summary never authorises a durable transition. *)
Lemma flatten_verdict_is_summary plan outcomes :
  let reported := fe_outcome <$> outcomes in
  let pending := if unreported plan outcomes then [SubmitPlanned] else [] in
  from_plan_outcomes plan outcomes =
    (if all_known plan outcomes
     then Ok (flatten_result_from (summary_aggregate (summarize (reported ++ pending))))
     else Err UnknownOutcomeCommand) ∧
  authorizes_durable_state_transition (summarize (reported ++ pending)) = false.
Proof.
  cbv zeta. split; [|done]. unfold from_plan_outcomes.
  set (keyed := (λ e, (flatten_evidence_identity e, fe_outcome e)) <$> outcomes).
  set (commands := flatten_outcome_identity <$> flatten_plan_commands plan).
  destruct (aggregate _ _ _ _ _ _ commands keyed) as [r|e] eqn:E; cbn [result_bind].
  - assert (all_known plan outcomes = true) as ->.
    { apply all_known_spec. intros e He. eapply aggregate_known; [exact E|].
      apply list_elem_of_fmap. by exists e. }
    apply (f_equal (λ a, Ok (flatten_result_from a))). apply flatten_rank_ext. intros n Hn. rewrite summarize_rank by done.
    rewrite (aggregate_rank (K := text * text * AccountId * InstrumentId * StrategyId * PositionId)
      _ _ _ _ _ _ flatten_rank_worse flatten_rank_worse_outcome _ _ _ _ n E Hn).
    rewrite <- (outcomes_with_pending n plan outcomes Hn). done.
  - apply aggregate_Err in E as (-> & k & o & (e & [= -> ->] & He)%list_elem_of_fmap & Hk).
    destruct (all_known plan outcomes) eqn:Hall; [|done].
    by destruct Hk; apply (proj1 (all_known_spec plan outcomes) Hall).
Qed.

End Flatten.
