(* ===== verification/KillSwitchRouter.v ===== *)
(** * Kill switch: the action router, and its plans against the state machine

    Models [src/src/bolt_v3_kill_switch_action_router.rs]: the dry-run decision on a kill
    switch action.  It is composed here with the state machine of [KillSwitch] and with
    the supervisors of [KillSwitchCancel] and [KillSwitchFlatten]: which of them act in the
    states the machine can reach. *)

From Stdlib Require Import ZArith Lia.
From stdpp Require Import sorting strings gmap numbers list relations.
From S2P Require Import Prelude.
From S2P Require Import RustText.
From S2P Require Import BTree.
From S2P Require Import DecimalAmount.
From S2P Require Import NtTypes.
From S2P Require Import KillSwitch.
From S2P Require Import KillSwitchCancel.
From S2P Require Import OrderIntent.
From S2P Require Import KillSwitchFlatten.

Open Scope Z_scope.

Inductive BoltV3KillSwitchActionClass : Type :=
| CancelOutstandingRisk
| FlattenPositions
| EntrySubmit
| ReplaceSubmit
| LiveSubmit
| LiveCancel
| LiveFlatten
| VenueSpecificCall.

Inductive BoltV3KillSwitchActionDecisionMode : Type := ActionDryRunProofOnly.

Inductive BoltV3KillSwitchActionRouterError : Type :=
| RouterMissingActionId
| RouterInvalidConfigSha256
| RouterInvalidPolicySha256
| RouterMissingSourceTimestamp
| RouterInvalidScope
| RouterInvalidAccountId
| RouterInvalidInstrumentId
| RouterNtTradingStateNotReducing
| RouterKillSwitchStateNotCancelling
| RouterKillSwitchStateNotFlattening
| RouterForcedReductionProofRequired
| RouterForcedReductionProofMismatch
| Phase3ActionOutputDisallowed.

(** The two effect types are declared without a value. *)
Inductive BoltV3KillSwitchLiveOrderEffect : Type :=.
Inductive BoltV3KillSwitchVenueCall : Type :=.

(** [iter.map(f).collect::<Result<Vec<_>, _>>()]: the first error ends it. *)
Fixpoint collect_results {A B E} (f : A → Result B E) (l : list A) : Result (list B) E :=
  match l with
  | [] => Ok []
  | a :: l' => b ←? f a; bs ←? collect_results f l'; Ok (b :: bs)
  end.

Section Router.
Context {N : NtTypes}.

Record BoltV3KillSwitchActionScope : Type := mkActionScope {
  action_account_ids : list AccountId;
  action_instrument_ids : list InstrumentId;
}.

(** [BoltV3KillSwitchActionScope::new]. *)
Definition action_scope_new (accounts instruments : list text)
    : Result BoltV3KillSwitchActionScope BoltV3KillSwitchActionRouterError :=
  if is_empty accounts || is_empty instruments then Err RouterInvalidScope
  else
    accounts ←? collect_results (λ v, ok_or (account_new_checked (trim v)) RouterInvalidAccountId) accounts;
    instruments ←? collect_results (λ v, ok_or (instrument_from_as_ref (trim v)) RouterInvalidInstrumentId)
                     instruments;
    Ok (mkActionScope accounts instruments).

Record BoltV3KillSwitchActionRequest : Type := mkActionRequest {
  request_action_class : BoltV3KillSwitchActionClass;
  request_kill_switch_state : KillSwitchState;
  request_nt_trading_state : TradingState;
  request_action_id : text;
  request_config_sha256 : text;
  request_policy_sha256 : text;
  request_source_timestamp : Z;
  request_scope : BoltV3KillSwitchActionScope;
  request_forced_reduction_claim : option BoltV3KillSwitchForcedReductionClaim;
}.

Record BoltV3KillSwitchActionDecision : Type := mkActionDecision {
  decision_action_class : BoltV3KillSwitchActionClass;
  decision_decision_mode : BoltV3KillSwitchActionDecisionMode;
  decision_halt_id : text;
  decision_action_id : text;
  decision_config_sha256 : text;
  decision_policy_sha256 : text;
  decision_source_timestamp : Z;
  decision_scope : BoltV3KillSwitchActionScope;
  decision_forced_reduction_claim : option BoltV3KillSwitchForcedReductionClaim;
}.

Definition live_order_effects (d : BoltV3KillSwitchActionDecision)
    : list BoltV3KillSwitchLiveOrderEffect := [].
Definition venue_calls (d : BoltV3KillSwitchActionDecision) : list BoltV3KillSwitchVenueCall := [].

Definition validate_action_metadata (r : BoltV3KillSwitchActionRequest)
    : Result unit BoltV3KillSwitchActionRouterError :=
  if blank (request_action_id r) then Err RouterMissingActionId
  else if negb (is_sha256_hex_digest (request_config_sha256 r)) then Err RouterInvalidConfigSha256
  else if negb (is_sha256_hex_digest (request_policy_sha256 r)) then Err RouterInvalidPolicySha256
  else if request_source_timestamp r =? 0 then Err RouterMissingSourceTimestamp
  else Ok tt.

Definition require_reducing (s : TradingState) : Result unit BoltV3KillSwitchActionRouterError :=
  ensure (bool_decide (s = TradingReducing)) RouterNtTradingStateNotReducing.

Definition proof_only_decision (r : BoltV3KillSwitchActionRequest) (halt_id : text)
    (claim : option BoltV3KillSwitchForcedReductionClaim) : BoltV3KillSwitchActionDecision :=
  mkActionDecision (request_action_class r) ActionDryRunProofOnly halt_id (request_action_id r)
    (request_config_sha256 r) (request_policy_sha256 r) (request_source_timestamp r)
    (request_scope r) claim.

Definition cancel_decision (r : BoltV3KillSwitchActionRequest)
    : Result BoltV3KillSwitchActionDecision BoltV3KillSwitchActionRouterError :=
  require_reducing (request_nt_trading_state r);;?
  match request_kill_switch_state r with
  | KsCancelling halt_id => Ok (proof_only_decision r halt_id None)
  | _ => Err RouterKillSwitchStateNotCancelling
  end.

Definition flatten_decision (r : BoltV3KillSwitchActionRequest)
    : Result BoltV3KillSwitchActionDecision BoltV3KillSwitchActionRouterError :=
  require_reducing (request_nt_trading_state r);;?
  match request_kill_switch_state r with
  | KsFlattening halt_id =>
      claim ←? ok_or (request_forced_reduction_claim r) RouterForcedReductionProofRequired;
      if bool_decide (claim_halt_id claim ≠ halt_id) ||
         bool_decide (claim_action_id claim ≠ request_action_id r) ||
         bool_decide (claim_policy_sha256 claim ≠ request_policy_sha256 r)
      then Err RouterForcedReductionProofMismatch
      else Ok (proof_only_decision r halt_id (Some claim))
  | _ => Err RouterKillSwitchStateNotFlattening
  end.

(** [BoltV3KillSwitchActionRouter::dry_run_decision]. *)
Definition dry_run_decision (r : BoltV3KillSwitchActionRequest)
    : Result BoltV3KillSwitchActionDecision BoltV3KillSwitchActionRouterError :=
  validate_action_metadata r;;?
  match request_action_class r with
  | CancelOutstandingRisk => cancel_decision r
  | FlattenPositions => flatten_decision r
  | EntrySubmit | ReplaceSubmit | LiveSubmit | LiveCancel | LiveFlatten | VenueSpecificCall =>
      Err Phase3ActionOutputDisallowed
  end.

(** ** What the router decides *)

Lemma dry_run_needs_dead_state r d :
  dry_run_decision r = Ok d → ¬ live_state (request_kill_switch_state r).
Proof.
  unfold dry_run_decision, cancel_decision, flatten_decision. intros Hd. result_inv.
  destruct (request_action_class r); try done; result_inv;
    destruct (request_kill_switch_state r); try done; by intros [].
Qed.

(** The claim the router accepted for a flatten action is accepted by the supervisor. *)
Lemma router_claim_accepted {D} (r : BoltV3KillSwitchActionRequest) d claim
    (p : @BoltV3KillSwitchFlattenPlanRequest N D) :
  dry_run_decision r = Ok d → decision_forced_reduction_claim d = Some claim →
  flatten_forced_reduction_claim p = claim → flatten_policy_sha256 p = request_policy_sha256 r →
  reduction_claim_matches p (decision_halt_id d) (trim (decision_action_id d)) = true.
Proof.
  unfold dry_run_decision, cancel_decision, flatten_decision, reduction_claim_matches.
  intros Hd Hc Hp Hs. result_inv.
  destruct (request_action_class r); try done; result_inv; destruct (request_kill_switch_state r); try done.
  - by injection Hd as <-.
  - result_inv. destruct (bool_decide _ || _ || _) eqn:Hb; [done|]. injection Hd as <-. simpl in *.
    injection Hc as ->. rewrite !orb_false_iff, !bool_decide_eq_false in Hb.
    destruct Hb as [[H1 H2] H3]. rewrite Hp, Hs. rewrite !andb_true_iff, !bool_decide_eq_true.
    split_and!; [|f_equal|]; by apply dec_stable.
Qed.

(** What a decision of the router is: proof only, for a cancel or a flatten action of a
    switch in the state of that action, with the node reducing. *)
Lemma dry_run_decision_spec r d :
  dry_run_decision r = Ok d →
  request_nt_trading_state r = TradingReducing ∧
  decision_decision_mode d = ActionDryRunProofOnly ∧
  ((request_action_class r = CancelOutstandingRisk ∧
    request_kill_switch_state r = KsCancelling (decision_halt_id d)) ∨
   (request_action_class r = FlattenPositions ∧
    request_kill_switch_state r = KsFlattening (decision_halt_id d) ∧
    ∃ claim, decision_forced_reduction_claim d = Some claim ∧
      claim_halt_id claim = decision_halt_id d)).
Proof.
  unfold dry_run_decision, cancel_decision, flatten_decision, require_reducing. intros Hd. result_inv.
  destruct (request_action_class r); try done; result_inv; destruct (request_kill_switch_state r); try done;
    result_inv; repeat match goal with H : bool_decide _ = true |- _ => apply bool_decide_eq_true in H end.
  - simplify_eq. simpl. eauto.
  - destruct (bool_decide _ || _ || _) eqn:Hb; [done|]. simplify_eq. simpl.
    rewrite !orb_false_iff, !bool_decide_eq_false in Hb. destruct Hb as [[H1 _] _].
    split; [done|]. split; [done|]. right. split_and!; [done|done|].
    eexists. split; [done|]. by apply dec_stable.
Qed.

(** In no state the switch can reach from [Armed], by any events and contexts, does a
    supervisor act: the cancel supervisor and the flatten supervisor refuse every request
    for the state of the switch, without a panic, and the router decides nothing.  In the
    two states that would let them act every event is refused, so the switch could never
    leave them either. *)
Lemma reachable_switch_plans_nothing (sha256_hex : bytes → text) {D} `{DecimalOps D} s :
  rtc (ks_step sha256_hex) KsArmed s →
  (∀ r, cancel_kill_switch_state r = s → plan_cancel r = Err KillSwitchStateNotCancelling) ∧
  (∀ r : BoltV3KillSwitchFlattenPlanRequest (D := D), flatten_kill_switch_state r = s →
     plan_flatten r = Some (Err KillSwitchStateNotFlattening)) ∧
  (∀ r, request_kill_switch_state r = s → is_ok (dry_run_decision r) = false) ∧
  (∀ halt_id event context, ∃ e e',
     transition_kill_switch_state sha256_hex (KsCancelling halt_id) event context = Err e ∧
     transition_kill_switch_state sha256_hex (KsFlattening halt_id) event context = Err e').
Proof.
  intros Hs. assert (Hlive : live_state s).
  { by apply (cancelling_flattening_dead sha256_hex s DurableHaltEvidenceRecorded demo_ks_context). }
  split; [|split; [|split]].
  - intros r <-. unfold plan_cancel. by destruct (cancel_kill_switch_state r).
  - intros r <-. unfold plan_flatten. by destruct (flatten_kill_switch_state r).
  - intros r <-. destruct (dry_run_decision r) as [d|] eqn:E; [|done]. by apply dry_run_needs_dead_state in E.
  - intros halt_id event context. do 2 eexists.
    split; apply cancelling_flattening_dead; by intros [].
Qed.

End Router.

(** ** Witnesses *)

#[local] Existing Instance demo_nt.

Definition demo_template (t : OrderType) : NtOrderTemplate Z :=
  mkTemplate t TifIoc None None None None None None None false true false.

(** The switch after a trigger: nothing is planned while it is halting. *)
Lemma reachable_switch_plans_nothing_witness :
  plan_cancel (mkCancelPlanRequest (KsHalting (lit "h") demo_trigger) (lit "a") demo_sha demo_sha 1 1
    (mkCancelScope [] [] []) None (mkCancelPolicy []) (mkCancelSnapshot [] [])) =
  Err KillSwitchStateNotCancelling.
Proof.
  apply (reachable_switch_plans_nothing (λ _, lit "h") (D := Z) (KsHalting (lit "h") demo_trigger)); [|done].
  apply rtc_once. by apply (ks_accept _ KsArmed (HaltTriggered demo_trigger) demo_ks_context).
Defined.

Definition demo_position (kind : BoltV3KillSwitchFlattenPositionEvidenceKind) (id : string)
    (side : PositionSide) (quantity : Z) : BoltV3KillSwitchFlattenCandidate :=
  mkFlattenCandidate kind (lit "A-1") (lit "I.V") (lit "S-1") (lit id) side quantity CachePositionQuantity 7.
Definition demo_positions : list BoltV3KillSwitchFlattenCandidate :=
  [demo_position CachePosition "P-2" PositionShort 4; demo_position CachePosition "P-1" PositionFlat 0;
   demo_position PositionStatusReport "P-2" PositionShort 4].
Definition demo_flatten_request : BoltV3KillSwitchFlattenPlanRequest (D := Z) :=
  mkFlattenPlanRequest (KsFlattening (lit "h")) TradingReducing (lit " act ") demo_sha demo_sha 5
    mkFlattenPolicy
    (mkFlattenSnapshot
       [demo_position CachePosition "P-1" PositionFlat 0; demo_position CachePosition "P-2" PositionShort 4]
       [demo_position CachePosition "P-2" PositionShort 4] [demo_position CachePosition "P-1" PositionFlat 0] [])
    6 (mkFlattenRouteProof FlattenLiveNodeCommandRouter) (demo_template TypeMarket)
    (mkReductionClaim (lit "h") (lit "act") demo_sha).

Example demo_flatten_sides :
  (λ plan, fcmd_order_side <$> flatten_plan_commands plan) <$>
    (plan_flatten demo_flatten_request ≫= λ res, match res with Ok plan => Some plan | Err _ => None end) =
  Some [OrderBuy].
Proof. by vm_compute. Qed.

(** A request whose action id is [é] panics. *)
Definition demo_accented_request : BoltV3KillSwitchFlattenPlanRequest (D := Z) :=
  mkFlattenPlanRequest (KsFlattening (lit "h")) TradingReducing [233] demo_sha demo_sha 5 mkFlattenPolicy
    (flatten_snapshot demo_flatten_request) 6 (mkFlattenRouteProof FlattenLiveNodeCommandRouter)
    (demo_template TypeMarket) (mkReductionClaim (lit "h") [233] demo_sha).

Lemma flatten_plan_closes_positions_witness :
  (∃ plan, plan_flatten demo_flatten_request = Some (Ok plan) ∧ NoDup (fcmd_identity <$> flatten_plan_commands plan)) ∧
  plan_flatten demo_accented_request = None.
Proof.
  split.
  - destruct (flatten_plan_closes_positions demo_positions demo_flatten_request) as [_ Hplan]; [by vm_compute|].
    assert (Hok : match plan_flatten demo_flatten_request with Some (Ok _) => True | _ => False end)
      by by vm_compute.
    destruct (plan_flatten demo_flatten_request) as [[plan|]|] eqn:E; [|done..].
    exists plan. split; [done|]. by apply (Hplan plan eq_refl).
  - destruct (flatten_plan_closes_positions demo_positions demo_accented_request) as [Hpanic _]; [by vm_compute|].
    apply Hpanic. split; [by eexists|]. split_and!; try reflexivity. by vm_compute.
Defined.

Definition demo_template_config (t : OrderType) : NtOrderTemplateConfig Z :=
  mkTemplateConfig t TifIoc None None None None None None None false true false.

Lemma checked_template_validates_witness :
  is_ok (validate_nt_order_template (demo_template TypeMarket)
    (mkInputs (lit "I.V") OrderSell 4 None (lit "act"))) = true.
Proof.
  apply (checked_template_validates (demo_template_config TypeMarket)); [by split|].
  split; [by vm_compute|done].
Defined.
