(* ===== verification/LossProtection.v ===== *)
(** * Loss protection

    Models [src/src/bolt_v3_loss_protection.rs] and the part of
    [src/src/bolt_v3_kill_switch_store.rs] it stands on: the realised loss of the UTC
    day, the halt it latches, the flatten actions the halt emits, and what is persisted
    and recovered.

    The state is the protection together with its environment: the store's file, the
    kill-switch state the submit admission was given, and the actions the sink has
    received.  Whether the n-th store operation or emission succeeds is a parameter, so
    the theorems hold for every pattern of I/O failures; a failed write may or may not
    have replaced the file, as the rename comes before the last [fsync].  JSON is
    third-party: the file holds the persisted record, and what was written is what is
    read.  [None] is a panic of the decimal sum or of [Currency::from]. *)

From Stdlib Require Import ZArith Lia.
From stdpp Require Import sorting strings gmap numbers list.
From S2P Require Import Prelude RustText DecimalAmount LossGovernor KillSwitch.

Open Scope Z_scope.

(** ** Third-party types *)

(** [nautilus_model::types::Currency]. *)
Class CurrencyOps (C : Type) := {
  currency_eq_dec :: EqDecision C;
  currency_code : C → text;
  currency_try_from_str : text → option C;
}.

(** ** Time *)

Definition NANOS_PER_UTC_DAY : Z := 86400000000000.
Definition NANOS_PER_MILLISECOND : Z := 1000000.

Definition u64_saturating_add (a b : Z) : Z := Z.min (a + b) u64_max.
Definition u64_saturating_mul (a b : Z) : Z := Z.min (a * b) u64_max.

Definition add_millis (unix_nanos millis : Z) : Z :=
  u64_saturating_add unix_nanos (u64_saturating_mul millis NANOS_PER_MILLISECOND).

Definition FAIL_CLOSED_RECOVERY_HALT_ID : text := lit "kill-switch-recovery-fail-closed".
Definition LOSS_TRIGGER_REASON : text := lit "max_utc_daily_realized_loss".
Definition HALT_ACTION_RETRY_TIMEOUT_REASON : text := lit "halt_action_retry_timeout".
Definition FLATTEN_ACTION_ID : text := lit "flatten-positions".
Definition SNAPSHOT_PERSISTENCE_FAILED_REASON : text :=
  lit "loss_protection_snapshot_persistence_failed".
Definition MIXED_SETTLEMENT_CURRENCY_REASON : text := lit "mixed_settlement_currency".
Definition RECOVERY_LOSS_TRIGGER_SOURCE : text := lit "kill_switch_recovery".

(** ** Recovery *)

Inductive KillSwitchRecoveryReason : Type :=
| MissingRecoveryEvidence
| MissingLossProtectionSnapshot
| CorruptEvidence
| OversizedEvidence
| UnsupportedSchemaVersion
| UnresolvedHalt
| UnrepresentableHaltTrigger.

Inductive KillSwitchRecoveryState : Type :=
| Recovered (state : KillSwitchState)
| FailClosed (reason : KillSwitchRecoveryReason) (state : option KillSwitchState).

Definition recovery_reason_label (reason : KillSwitchRecoveryReason) : text :=
  match reason with
  | MissingRecoveryEvidence => lit "missing_evidence"
  | MissingLossProtectionSnapshot => lit "missing_loss_protection_snapshot"
  | CorruptEvidence => lit "corrupt_evidence"
  | OversizedEvidence => lit "oversized_evidence"
  | UnsupportedSchemaVersion => lit "unsupported_schema_version"
  | UnresolvedHalt => lit "unresolved_halt"
  | UnrepresentableHaltTrigger => lit "unrepresentable_halt_trigger"
  end.

(** [halt_id(state).unwrap_or(FAIL_CLOSED_RECOVERY_HALT_ID)]. *)
Definition halt_id_or_recovery (state : KillSwitchState) : text :=
  default FAIL_CLOSED_RECOVERY_HALT_ID (halt_id_of state).

Definition fail_closed_recovery_state (reason : KillSwitchRecoveryReason)
    (state : option KillSwitchState) : KillSwitchState :=
  match state with
  | Some ((KsHalting _ _ | KsFailedManualIntervention _ _) as state) => state
  | Some state =>
      KsFailedManualIntervention (halt_id_or_recovery state) (recovery_reason_label reason)
  | None => KsFailedManualIntervention FAIL_CLOSED_RECOVERY_HALT_ID (recovery_reason_label reason)
  end.

Definition inert_transition_context : KillSwitchTransitionContext :=
  mkKsContext false false false false false false false false.

Record KillSwitchPendingHaltActionsSnapshot : Type := mkPendingSnapshot {
  snapshot_next_retry_at_unix_nanos : Z;
  snapshot_retry_deadline_unix_nanos : Z;
}.

Record PendingHaltActions : Type := mkPending {
  pending_state : KillSwitchState;
  next_retry_at_unix_nanos : Z;
  retry_deadline_unix_nanos : Z;
}.

Inductive KillSwitchLossActionKind : Type := FlattenPositions.

Record KillSwitchLossAction : Type := mkLossAction {
  loss_action_kind : KillSwitchLossActionKind;
  loss_action_halt_id : text;
  loss_action_id : text;
  loss_action_account_ids : list text;
  loss_action_instrument_ids : list text;
}.

(** What became of a store operation; a failed write may have replaced the file. *)
Inductive StoreOutcome : Type :=
| StoreDone
| StoreFailed (error : text) (replaced : bool).

Section Protection.
Context {D C : Type} `{DecimalOps D} `{CurrencyOps C} `{DecimalText D}.

Record KillSwitchLossProtectionConfig : Type := mkProtectionConfig {
  max_utc_daily_realized_loss : D;
  action_retry_interval_ms : Z;
  action_retry_timeout_ms : Z;
  account_ids : list text;
  instrument_ids : list text;
}.

Record RealizedPnlObservation : Type := mkObservation {
  observation_source : text;
  observed_at_unix_nanos : Z;
  realized_pnl : D;
  observation_currency : C;
}.

Record PositionRealizedPnlObservation : Type := mkPositionObservation {
  position_account_id : text;
  position_instrument_id : text;
  position_id : text;
  event_id : option text;
  observed : RealizedPnlObservation;
  cumulative_realized_pnl : bool;
  closes_position : bool;
}.

Record CumulativePositionPnl : Type := mkCumulative {
  cumulative_pnl : D;
  last_observed_at_unix_nanos : Z;
}.

Abbreviation pnl_map := (gmap text CumulativePositionPnl).

Record KillSwitchLossProtectionSnapshot : Type := mkLossProtectionSnapshot {
  snapshot_daily_bucket : option Z;
  snapshot_daily_realized_pnl : D;
  snapshot_settlement_currency : option text;
  snapshot_cumulative_position_pnl : pnl_map;
  snapshot_closed_position_pnl : pnl_map;
  snapshot_adjusted_position_pnl : pnl_map;
  snapshot_pending_halt_actions : option KillSwitchPendingHaltActionsSnapshot;
}.

(** ** The persisted form *)

Record PersistedCumulativePositionPnlSnapshot : Type := mkPersistedPnl {
  persisted_pnl : text;
  persisted_last_observed_at_unix_nanos : Z;
}.

Abbreviation persisted_map := (gmap text PersistedCumulativePositionPnlSnapshot).

Record PersistedKillSwitchLossProtectionSnapshot : Type := mkPersistedSnapshot {
  persisted_daily_bucket : option Z;
  persisted_daily_realized_pnl : text;
  persisted_settlement_currency : option text;
  persisted_cumulative_position_pnl : persisted_map;
  persisted_closed_position_pnl : persisted_map;
  persisted_adjusted_position_pnl : persisted_map;
  persisted_pending_halt_actions : option KillSwitchPendingHaltActionsSnapshot;
}.

Definition persist_pnl_map (m : pnl_map) : persisted_map :=
  (λ v, mkPersistedPnl (d_to_string (cumulative_pnl v)) (last_observed_at_unix_nanos v)) <$> m.

Definition restore_pnl (v : PersistedCumulativePositionPnlSnapshot) : option CumulativePositionPnl :=
  pnl ← d_from_str (persisted_pnl v);
  Some (mkCumulative pnl (persisted_last_observed_at_unix_nanos v)).

(** The loop returns [Err] at the first value that does not parse. *)
Definition restore_pnl_map (m : persisted_map) : Result pnl_map unit :=
  if bool_decide (map_Forall (λ _ v, is_Some (restore_pnl v)) m)
  then Ok (omap restore_pnl m) else Err tt.

Definition persist_snapshot (s : KillSwitchLossProtectionSnapshot)
    : PersistedKillSwitchLossProtectionSnapshot :=
  {| persisted_daily_bucket := snapshot_daily_bucket s;
     persisted_daily_realized_pnl := d_to_string (snapshot_daily_realized_pnl s);
     persisted_settlement_currency := snapshot_settlement_currency s;
     persisted_cumulative_position_pnl := persist_pnl_map (snapshot_cumulative_position_pnl s);
     persisted_closed_position_pnl := persist_pnl_map (snapshot_closed_position_pnl s);
     persisted_adjusted_position_pnl := persist_pnl_map (snapshot_adjusted_position_pnl s);
     persisted_pending_halt_actions := snapshot_pending_halt_actions s |}.

(** The check of [try_from] on the settlement currency. *)
Definition restore_currency (currency : option text) (has_loss_evidence : bool)
    : Result (option text) unit :=
  match currency with
  | Some code =>
      if blank code || negb (bool_decide (trim code = code)) then Err tt
      else match currency_try_from_str code with None => Err tt | Some _ => Ok (Some code) end
  | None => if has_loss_evidence then Err tt else Ok None
  end.

(** [a.keys().any(|id| b.contains_key(id))]. *)
Definition keys_overlap (a b : pnl_map) : bool :=
  existsb (λ '(id, _), bool_decide (is_Some (b !! id))) (map_to_list a).

Definition restore_snapshot (p : PersistedKillSwitchLossProtectionSnapshot)
    : Result KillSwitchLossProtectionSnapshot unit :=
  daily ←? ok_or (d_from_str (persisted_daily_realized_pnl p)) tt;
  cumulative ←? restore_pnl_map (persisted_cumulative_position_pnl p);
  closed ←? restore_pnl_map (persisted_closed_position_pnl p);
  ensure (negb (keys_overlap cumulative closed)) tt ;;?
  adjusted ←? restore_pnl_map (persisted_adjusted_position_pnl p);
  let has_loss_evidence :=
    negb (d_eqb daily d_zero) || negb (bool_decide (cumulative = ∅))
    || negb (bool_decide (closed = ∅)) || negb (bool_decide (adjusted = ∅)) in
  currency ←? restore_currency (persisted_settlement_currency p) has_loss_evidence;
  Ok (mkLossProtectionSnapshot (persisted_daily_bucket p) daily currency cumulative closed adjusted
        (persisted_pending_halt_actions p)).

End Protection.
Arguments KillSwitchLossProtectionConfig D : clear implicits.
Arguments RealizedPnlObservation D C : clear implicits.
Arguments PositionRealizedPnlObservation D C : clear implicits.
Arguments CumulativePositionPnl D : clear implicits.
Arguments KillSwitchLossProtectionSnapshot D : clear implicits.

(** ** The store's file *)

Section Store.
Context {D C : Type} `{DecimalOps D} `{CurrencyOps C} `{DecimalText D}.

(** The file: absent, a persisted record, or the bytes [!] of an invalidation. *)
Inductive StoreFile : Type :=
| FileMissing
| FileRecord (state : KillSwitchState)
    (loss_protection : option PersistedKillSwitchLossProtectionSnapshot)
| FileInvalidated.

Record KillSwitchRecoveryRecord : Type := mkRecoveryRecord {
  recovery_state : KillSwitchRecoveryState;
  recovery_loss_protection : option (KillSwitchLossProtectionSnapshot D);
}.

(** [load_recovery_record] after the bytes were read and parsed. *)
Definition recovery_record_of (file : StoreFile) : KillSwitchRecoveryRecord :=
  match file with
  | FileMissing => mkRecoveryRecord (FailClosed MissingRecoveryEvidence None) None
  | FileInvalidated => mkRecoveryRecord (FailClosed CorruptEvidence None) None
  | FileRecord state loss_protection =>
      let recovered loss :=
        mkRecoveryRecord
          (match state with
           | KsHalting _ _ | KsFailedManualIntervention _ _ => FailClosed UnresolvedHalt (Some state)
           | _ => Recovered state
           end) loss in
      match loss_protection with
      | None => recovered None
      | Some persisted =>
          match restore_snapshot persisted with
          | Ok snapshot => recovered (Some snapshot)
          | Err _ => mkRecoveryRecord (FailClosed CorruptEvidence (Some state)) None
          end
      end
  end.

End Store.
Arguments KillSwitchRecoveryRecord D : clear implicits.

(** ** The protection *)

Section Operations.
Context {D C : Type} `{DecimalOps D} `{CurrencyOps C} `{DecimalText D}.

(** The digest of halt identifiers, the derived [Debug] of a transition error, and the
    outcome of the n-th store operation and of the n-th emission. *)
Context (sha256_hex : bytes → text) (debug_transition_error : KillSwitchTransitionError → text)
        (store_io : nat → StoreOutcome) (emit_io : nat → option text).

Record KillSwitchLossProtection : Type := mkProtection {
  config : KillSwitchLossProtectionConfig D;
  state : KillSwitchState;
  daily_bucket : option Z;
  daily_realized_pnl : D;
  cumulative_position_pnl : gmap text (CumulativePositionPnl D);
  closed_position_pnl : gmap text (CumulativePositionPnl D);
  adjusted_position_pnl : gmap text (CumulativePositionPnl D);
  pending_halt_actions : option PendingHaltActions;
  settlement_currency : option C;
}.

(** The protection and its environment. *)
Record LossWorld : Type := mkLossWorld {
  protection : KillSwitchLossProtection;
  admission_state : KillSwitchState;
  store_file : StoreFile;
  store_operations : nat;
  emissions : nat;
  emitted : list KillSwitchLossAction;
}.

Abbreviation Lp := (Rust LossWorld).

Definition protection_new (config : KillSwitchLossProtectionConfig D) : KillSwitchLossProtection :=
  mkProtection config KsArmed None d_zero ∅ ∅ ∅ None None.

(** Updates of one field. *)
Definition with_protection (f : KillSwitchLossProtection → KillSwitchLossProtection) : Lp unit :=
  rust_modify (λ w, mkLossWorld (f (protection w)) (admission_state w) (store_file w)
                      (store_operations w) (emissions w) (emitted w)).

Definition set_state (s : KillSwitchState) : Lp unit :=
  with_protection (λ p, mkProtection (config p) s (daily_bucket p) (daily_realized_pnl p)
    (cumulative_position_pnl p) (closed_position_pnl p) (adjusted_position_pnl p)
    (pending_halt_actions p) (settlement_currency p)).

Definition set_daily (bucket : option Z) (pnl : D) : Lp unit :=
  with_protection (λ p, mkProtection (config p) (state p) bucket pnl
    (cumulative_position_pnl p) (closed_position_pnl p) (adjusted_position_pnl p)
    (pending_halt_actions p) (settlement_currency p)).

Definition set_pnl_maps (cumulative closed adjusted : gmap text (CumulativePositionPnl D)) : Lp unit :=
  with_protection (λ p, mkProtection (config p) (state p) (daily_bucket p) (daily_realized_pnl p)
    cumulative closed adjusted (pending_halt_actions p) (settlement_currency p)).

Definition set_pending (pending : option PendingHaltActions) : Lp unit :=
  with_protection (λ p, mkProtection (config p) (state p) (daily_bucket p) (daily_realized_pnl p)
    (cumulative_position_pnl p) (closed_position_pnl p) (adjusted_position_pnl p)
    pending (settlement_currency p)).

Definition set_currency (currency : option C) : Lp unit :=
  with_protection (λ p, mkProtection (config p) (state p) (daily_bucket p) (daily_realized_pnl p)
    (cumulative_position_pnl p) (closed_position_pnl p) (adjusted_position_pnl p)
    (pending_halt_actions p) currency).

(** [admission.replace_kill_switch_state(..)]. *)
Definition replace_kill_switch_state (s : KillSwitchState) : Lp unit :=
  rust_modify (λ w, mkLossWorld (protection w) s (store_file w) (store_operations w) (emissions w)
                      (emitted w)).

(** ** Store operations *)

(** One store operation that would leave [file]. *)
Definition store_write (file : StoreFile) : Lp (Result unit text) :=
  λ w,
    let done result file' :=
      Some (result, mkLossWorld (protection w) (admission_state w) file'
                      (S (store_operations w)) (emissions w) (emitted w)) in
    match store_io (store_operations w) with
    | StoreDone => done (Ok tt) file
    | StoreFailed error replaced => done (Err error) (if replaced then file else store_file w)
    end.

Definition write_state_with_loss_snapshot (s : KillSwitchState)
    (loss : option (KillSwitchLossProtectionSnapshot D)) : Lp (Result unit text) :=
  store_write (FileRecord s (persist_snapshot <$> loss)).

Definition write_state (s : KillSwitchState) : Lp (Result unit text) :=
  write_state_with_loss_snapshot s None.

Definition store_invalidate : Lp (Result unit text) := store_write FileInvalidated.

Definition load_recovery_record : Lp (Result (KillSwitchRecoveryRecord D) text) :=
  λ w,
    let done result :=
      Some (result, mkLossWorld (protection w) (admission_state w) (store_file w)
                      (S (store_operations w)) (emissions w) (emitted w)) in
    match store_io (store_operations w) with
    | StoreDone => done (Ok (recovery_record_of (store_file w)))
    | StoreFailed error _ => done (Err error)
    end.

Definition persist_failed_state_or_invalidate (failed : KillSwitchState) : Lp (Result unit text) :=
  written ← write_state failed;
  match written with
  | Ok _ => mret (Ok tt)
  | Err write_error =>
      invalidated ← store_invalidate;
      mret (match invalidated with
            | Ok _ => Ok tt
            | Err invalidate_error =>
                Err (lit "kill switch failed-state persistence failed: " ++ write_error ++
                     lit "; invalidation failed: " ++ invalidate_error)
            end)
  end.

(** The sequence every failure takes: admission first, then memory, then the store. *)
Definition latch_failed (failed : KillSwitchState) : Lp (Result unit text) :=
  replace_kill_switch_state failed;;
  set_state failed;;
  persist_failed_state_or_invalidate failed.

Definition loss_snapshot_of (p : KillSwitchLossProtection) : KillSwitchLossProtectionSnapshot D :=
  {| snapshot_daily_bucket := daily_bucket p;
     snapshot_daily_realized_pnl := daily_realized_pnl p;
     snapshot_settlement_currency := currency_code <$> settlement_currency p;
     snapshot_cumulative_position_pnl := cumulative_position_pnl p;
     snapshot_closed_position_pnl := closed_position_pnl p;
     snapshot_adjusted_position_pnl := adjusted_position_pnl p;
     snapshot_pending_halt_actions :=
       (λ pending, mkPendingSnapshot (next_retry_at_unix_nanos pending)
                     (retry_deadline_unix_nanos pending)) <$> pending_halt_actions p |}.

Definition persist_runtime_snapshot_or_fail_closed : Lp (Result unit text) :=
  p ← rust_get protection;
  written ← write_state_with_loss_snapshot (state p) (Some (loss_snapshot_of p));
  match written with
  | Ok _ => mret (Ok tt)
  | Err error =>
      let reason := SNAPSHOT_PERSISTENCE_FAILED_REASON ++ lit ": " ++ error in
      set_pending None;;
      latch_failed (KsFailedManualIntervention (halt_id_or_recovery (state p)) reason) ;;!
      mret (Err reason)
  end.

(** ** Halt actions *)

Definition emit_halt_actions (s : KillSwitchState) : Lp (Result unit text) :=
  match halt_id_of s with
  | None => mret (Ok tt)
  | Some halt_id =>
      λ w,
        let action :=
          mkLossAction FlattenPositions halt_id FLATTEN_ACTION_ID
            (account_ids (config (protection w))) (instrument_ids (config (protection w))) in
        match emit_io (emissions w) with
        | None => Some (Ok tt, mkLossWorld (protection w) (admission_state w) (store_file w)
                                 (store_operations w) (S (emissions w)) (emitted w ++ [action]))
        | Some error => Some (Err error, mkLossWorld (protection w) (admission_state w) (store_file w)
                                 (store_operations w) (S (emissions w)) (emitted w))
        end
  end.

(** A transition whose error is reported with [prefix]. *)
Definition transition (s : KillSwitchState) (event : KillSwitchEvent)
    (context : KillSwitchTransitionContext) (prefix : text) : Lp (Result KillSwitchState text) :=
  mret (match transition_kill_switch_state sha256_hex s event context with
        | Ok s' => Ok s'
        | Err error => Err (prefix ++ lit ": " ++ debug_transition_error error)
        end).

Definition record_halt_actions_recorded (s : KillSwitchState) : Lp (Result KillSwitchState text) :=
  halted ←! transition s DurableHaltEvidenceRecorded
              (mkKsContext true true false false false false false false)
              (lit "halt action recorded transition failed");
  set_pending None;;
  replace_kill_switch_state halted;;
  set_state halted;;
  persist_runtime_snapshot_or_fail_closed ;;!
  mret (Ok halted).

Definition fail_halt_actions (s : KillSwitchState) (reason : text) : Lp (Result unit text) :=
  failed ←! transition s (HaltActionDispatchFailed reason) inert_transition_context
              (lit "halt action failure transition failed");
  latch_failed failed.

Definition poll_pending_halt_actions (observed_at : Z) : Lp (Result unit text) :=
  p ← rust_get protection;
  match pending_halt_actions p with
  | None => mret (Ok tt)
  | Some pending =>
      if observed_at <? next_retry_at_unix_nanos pending then mret (Ok tt)
      else if retry_deadline_unix_nanos pending <? observed_at then
        fail_halt_actions (pending_state pending) HALT_ACTION_RETRY_TIMEOUT_REASON ;;!
        (set_pending None;;
         mret (Err (lit "daily realized loss halt action retry timeout")))
      else
        result ← emit_halt_actions (pending_state pending);
        match result with
        | Err error =>
            set_pending (Some (mkPending (pending_state pending)
              (add_millis observed_at (action_retry_interval_ms (config p)))
              (retry_deadline_unix_nanos pending)));;
            persist_runtime_snapshot_or_fail_closed ;;!
            mret (Err (lit "daily realized loss halt action retry failed: " ++ error))
        | Ok _ =>
            record_halt_actions_recorded (pending_state pending) ;;!
            mret (Ok tt)
        end
  end.

Definition realized_loss_breached (p : KillSwitchLossProtection) : bool :=
  d_ltb (daily_realized_pnl p) d_zero &&
  d_geb (d_neg (daily_realized_pnl p)) (max_utc_daily_realized_loss (config p)).

(** From the durable halt on: publish it, emit the actions, record them. *)
Definition dispatch_halt (halting : KillSwitchState) (observed_at : Z)
    : Lp (Result (option KillSwitchState) text) :=
  replace_kill_switch_state halting;;
  set_state halting;;
  p ← rust_get protection;
  result ← emit_halt_actions halting;
  match result with
  | Err error =>
      set_pending (Some (mkPending halting
        (add_millis observed_at (action_retry_interval_ms (config p)))
        (add_millis observed_at (action_retry_timeout_ms (config p)))));;
      persist_runtime_snapshot_or_fail_closed ;;!
      mret (Err (lit "daily realized loss halt action dispatch failed: " ++ error))
  | Ok _ =>
      halted ←! record_halt_actions_recorded halting;
      mret (Ok (Some halted))
  end.

Definition halt_for_realized_loss_breach (source : text) (observed_at : Z)
    : Lp (Result (option KillSwitchState) text) :=
  halting ←! transition KsArmed
    (HaltTriggered (loss_governor_breach_with_reason source observed_at LOSS_TRIGGER_REASON
                      DailyLossLimit))
    inert_transition_context (lit "daily realized loss transition failed");
  p ← rust_get protection;
  written ← write_state_with_loss_snapshot halting (Some (loss_snapshot_of p));
  match written with
  | Err error =>
      let reason := lit "daily realized loss halt persistence failed: " ++ error in
      failed ←! transition halting (DurableHaltEvidenceWriteFailed reason) inert_transition_context
                  (lit "daily realized loss fail-closed transition failed");
      persisted ← latch_failed failed;
      mret (match persisted with
            | Err persist_error => Err (reason ++ lit "; " ++ persist_error)
            | Ok _ => Err reason
            end)
  | Ok _ => dispatch_halt halting observed_at
  end.

(** ** Observations *)

Definition prune_completed (bucket : Z) (m : gmap text (CumulativePositionPnl D)) :=
  filter (λ '(_, v), bucket ≤ last_observed_at_unix_nanos v `div` NANOS_PER_UTC_DAY) m.

Definition accept_observation_bucket (observed_at : Z) : Lp bool :=
  p ← rust_get protection;
  let bucket := observed_at `div` NANOS_PER_UTC_DAY in
  match daily_bucket p with
  | None => set_daily (Some bucket) d_zero;; mret true
  | Some current =>
      if current <? bucket then
        set_daily (Some bucket) d_zero;;
        set_pnl_maps (cumulative_position_pnl p) (prune_completed bucket (closed_position_pnl p))
          (prune_completed bucket (adjusted_position_pnl p));;
        mret true
      else mret (bucket =? current)
  end.

Definition guard_settlement_currency (currency : C) : Lp (Result unit text) :=
  p ← rust_get protection;
  match settlement_currency p with
  | None => set_currency (Some currency);; mret (Ok tt)
  | Some existing =>
      if decide (existing = currency) then mret (Ok tt)
      else
        let reason :=
          MIXED_SETTLEMENT_CURRENCY_REASON ++ lit ": expected " ++ currency_code existing ++
          lit ", observed " ++ currency_code currency in
        latch_failed (KsFailedManualIntervention (halt_id_or_recovery (state p)) reason) ;;!
        mret (Err reason)
  end.

Definition record_current_bucket_realized_pnl (observation : RealizedPnlObservation D C)
    : Lp (Result (option KillSwitchState) text) :=
  p ← rust_get protection;
  pnl ← lift_panic (d_checked_add (daily_realized_pnl p) (realized_pnl observation));
  set_daily (daily_bucket p) pnl;;
  p ← rust_get protection;
  if negb (realized_loss_breached p) then
    persist_runtime_snapshot_or_fail_closed ;;!
    mret (Ok None)
  else halt_for_realized_loss_breach (observation_source observation)
         (observed_at_unix_nanos observation).

(** The observation with its figure replaced by a change. *)
Definition with_pnl (o : RealizedPnlObservation D C) (pnl : D) : RealizedPnlObservation D C :=
  mkObservation (observation_source o) (observed_at_unix_nanos o) pnl (observation_currency o).

Definition cumulative_of (o : RealizedPnlObservation D C) : CumulativePositionPnl D :=
  mkCumulative (realized_pnl o) (observed_at_unix_nanos o).

(** Same instant and same figure as the record. *)
Definition same_observation (o : RealizedPnlObservation D C) (v : CumulativePositionPnl D) : bool :=
  (observed_at_unix_nanos o =? last_observed_at_unix_nanos v) &&
  d_eqb (realized_pnl o) (cumulative_pnl v).

Definition record_closed_position_observation (observation : PositionRealizedPnlObservation D C)
    : Lp (Result (option (RealizedPnlObservation D C)) text) :=
  p ← rust_get protection;
  let o := observed observation in
  let id := position_id observation in
  let close (cumulative : gmap text (CumulativePositionPnl D)) :=
    set_pnl_maps cumulative (<[id := cumulative_of o]> (closed_position_pnl p))
      (adjusted_position_pnl p) in
  match cumulative_position_pnl p !! id with
  | Some previous =>
      if observed_at_unix_nanos o <? last_observed_at_unix_nanos previous then mret (Ok None)
      else
        close (delete id (cumulative_position_pnl p));;
        if same_observation o previous then
          persist_runtime_snapshot_or_fail_closed ;;!
          mret (Ok None)
        else
          change ← lift_panic (d_sub (realized_pnl o) (cumulative_pnl previous));
          mret (Ok (Some (with_pnl o change)))
  | None =>
      match closed_position_pnl p !! id with
      | Some previous =>
          if observed_at_unix_nanos o <? last_observed_at_unix_nanos previous then mret (Ok None)
          else if d_eqb (realized_pnl o) (cumulative_pnl previous) then mret (Ok None)
          else
            close (cumulative_position_pnl p);;
            change ← lift_panic (d_sub (realized_pnl o) (cumulative_pnl previous));
            mret (Ok (Some (with_pnl o change)))
      | None =>
          close (cumulative_position_pnl p);;
          mret (Ok (Some o))
      end
  end.

(** The part of [record_cumulative_position_observation] for a position that stays
    open, after a closed record of the same identifier was dropped. *)
Definition record_open_position_observation (observation : PositionRealizedPnlObservation D C)
    : Lp (Result (option (RealizedPnlObservation D C)) text) :=
  p ← rust_get protection;
  let o := observed observation in
  let id := position_id observation in
  let previous_record := cumulative_position_pnl p !! id in
  if match previous_record with
     | Some previous =>
         (observed_at_unix_nanos o <? last_observed_at_unix_nanos previous) || same_observation o previous
     | None => false
     end
  then mret (Ok None)
  else
    set_pnl_maps (<[id := cumulative_of o]> (cumulative_position_pnl p)) (closed_position_pnl p)
      (adjusted_position_pnl p);;
    change ← lift_panic (d_sub (realized_pnl o) (from_option cumulative_pnl d_zero previous_record));
    mret (Ok (Some (with_pnl o change))).

Definition record_cumulative_position_observation (observation : PositionRealizedPnlObservation D C)
    : Lp (Result (option (RealizedPnlObservation D C)) text) :=
  if closes_position observation then record_closed_position_observation observation
  else
    p ← rust_get protection;
    let o := observed observation in
    match closed_position_pnl p !! position_id observation with
    | Some closed =>
        if (observed_at_unix_nanos o <? last_observed_at_unix_nanos closed) || same_observation o closed
        then mret (Ok None)
        else
          set_pnl_maps (cumulative_position_pnl p)
            (delete (position_id observation) (closed_position_pnl p)) (adjusted_position_pnl p);;
          record_open_position_observation observation
    | None => record_open_position_observation observation
    end.

Definition is_duplicate_adjusted_position_observation (observation : PositionRealizedPnlObservation D C)
    : Lp (Result bool text) :=
  p ← rust_get protection;
  match event_id observation with
  | None =>
      let reason := lit "adjusted position realized-PnL observation missing event_id" in
      latch_failed (KsFailedManualIntervention (halt_id_or_recovery (state p)) reason) ;;!
      mret (Err reason)
  | Some dedupe_key =>
      match adjusted_position_pnl p !! dedupe_key with
      | Some _ => mret (Ok true)
      | None =>
          set_pnl_maps (cumulative_position_pnl p) (closed_position_pnl p)
            (<[dedupe_key := cumulative_of (observed observation)]> (adjusted_position_pnl p));;
          mret (Ok false)
      end
  end.

Definition is_armed (s : KillSwitchState) : bool := match s with KsArmed => true | _ => false end.

(** What both entry points do once an observation concerns this protection. *)
Definition record_observation (observed_at : Z) (currency : C)
    (record : Lp (Result (option KillSwitchState) text)) : Lp (Result (option KillSwitchState) text) :=
  p ← rust_get protection;
  if negb (is_armed (state p)) then
    poll_pending_halt_actions observed_at ;;!
    mret (Ok None)
  else
    current ← accept_observation_bucket observed_at;
    if negb current then mret (Ok None)
    else
      guard_settlement_currency currency ;;!
      record.

Definition record_position_realized_pnl (observation : PositionRealizedPnlObservation D C)
    : Lp (Result (option KillSwitchState) text) :=
  p ← rust_get protection;
  if negb (bool_decide (position_account_id observation ∈ account_ids (config p)))
     || negb (bool_decide (position_instrument_id observation ∈ instrument_ids (config p)))
  then mret (Ok None)
  else
    record_observation (observed_at_unix_nanos (observed observation))
      (observation_currency (observed observation))
      (if cumulative_realized_pnl observation then
         recorded ←! record_cumulative_position_observation observation;
         match recorded with
         | None => mret (Ok None)
         | Some o => record_current_bucket_realized_pnl o
         end
       else
         duplicate ←! is_duplicate_adjusted_position_observation observation;
         if (duplicate : bool) then mret (Ok None)
         else record_current_bucket_realized_pnl (observed observation)).

Definition record_realized_pnl (observation : RealizedPnlObservation D C)
    : Lp (Result (option KillSwitchState) text) :=
  record_observation (observed_at_unix_nanos observation) (observation_currency observation)
    (record_current_bucket_realized_pnl observation).

(** ** Recovery *)

(** [apply_loss_snapshot]; [Currency::from] panics on an unknown code. *)
Definition apply_loss_snapshot (s : KillSwitchLossProtectionSnapshot D) : Lp unit :=
  currency ← lift_panic (match snapshot_settlement_currency s with
                         | None => Some None
                         | Some code => Some <$> currency_try_from_str code
                         end);
  with_protection (λ p,
    mkProtection (config p) (state p) (snapshot_daily_bucket s) (snapshot_daily_realized_pnl s)
      (snapshot_cumulative_position_pnl s) (snapshot_closed_position_pnl s)
      (snapshot_adjusted_position_pnl s)
      ((λ pending, mkPending (state p) (snapshot_next_retry_at_unix_nanos pending)
                     (snapshot_retry_deadline_unix_nanos pending))
         <$> snapshot_pending_halt_actions s)
      currency).

Definition recovered_kill_switch_state (r : KillSwitchRecoveryState) : KillSwitchState :=
  match r with
  | Recovered s => s
  | FailClosed reason s => fail_closed_recovery_state reason s
  end.

(** The end of [seed_from_store]: publish the state and re-issue the halt actions. *)
Definition reissue_halt_actions (s : KillSwitchState) (clock : Z) : Lp (Result KillSwitchState text) :=
  replace_kill_switch_state s;;
  set_state s;;
  p ← rust_get protection;
  match s, pending_halt_actions p with
  | KsHalting _ _, None =>
      result ← emit_halt_actions s;
      match result with
      | Err _ =>
          set_pending (Some (mkPending s clock
            (add_millis clock (action_retry_timeout_ms (config p)))));;
          persist_runtime_snapshot_or_fail_closed ;;!
          mret (Ok s)
      | Ok _ => record_halt_actions_recorded s
      end
  | _, _ => mret (Ok s)
  end.

Definition seed_from_store (clock : Z) : Lp (Result KillSwitchState text) :=
  loaded ← load_recovery_record;
  match loaded with
  | Err error => mret (Err (lit "kill switch recovery load failed: " ++ error))
  | Ok record =>
      let s := recovered_kill_switch_state (recovery_state record) in
      set_state s;;
      match s, recovery_loss_protection record with
      | KsArmed, None =>
          let failed := fail_closed_recovery_state MissingLossProtectionSnapshot (Some s) in
          latch_failed failed ;;!
          mret (Ok failed)
      | KsArmed, Some snapshot =>
          apply_loss_snapshot snapshot;;
          p ← rust_get protection;
          if realized_loss_breached p then
            latched ←! halt_for_realized_loss_breach RECOVERY_LOSS_TRIGGER_SOURCE clock;
            match latched with
            | None => mret (Err (lit "recovered daily realized loss breach did not latch the kill switch"))
            | Some s => reissue_halt_actions s clock
            end
          else reissue_halt_actions s clock
      | _, Some snapshot => apply_loss_snapshot snapshot;; reissue_halt_actions s clock
      | _, None => reissue_halt_actions s clock
      end
  end.

(** [seed_admission_from_kill_switch_store]. *)
Definition seed_admission : Lp (Result KillSwitchState text) :=
  loaded ← load_recovery_record;
  match loaded with
  | Err error => mret (Err (lit "kill switch recovery load failed: " ++ error))
  | Ok record =>
      let s := recovered_kill_switch_state (recovery_state record) in
      replace_kill_switch_state s;;
      mret (Ok s)
  end.

(** A new process on the same store: [new], then [seed_from_store]. *)
Definition restart (config : KillSwitchLossProtectionConfig D) (clock : Z)
    : Lp (Result KillSwitchState text) :=
  with_protection (λ _, protection_new config);;
  replace_kill_switch_state KsArmed;;
  seed_from_store clock.

End Operations.
