(* ===== verification/LossProtectionFacts.v ===== *)
(** * Loss protection: fail-closed, durable, exactly once

    [lp_ok] relates the protection, the submit admission and the store's file: the
    admission sees the protection's state, an armed switch means that the realised loss
    of the day is below the limit, a halt that is not yet recorded has a retry pending,
    and, as long as no two store operations in a row fail, the file never recovers an
    armed switch when the switch in memory is not armed.  The invariant holds for every
    pattern of I/O outcomes. *)

From Stdlib Require Import ZArith Lia.
From stdpp Require Import sorting strings gmap numbers list.
From S2P Require Import Prelude RustText DecimalAmount LossGovernor KillSwitch LossProtection.

Open Scope Z_scope.

(** Step through reads, field updates and the entry of the store's writers. *)
Ltac lp_step :=
  first
  [ runs_step
  | progress unfold set_pending, set_state, set_daily, set_pnl_maps, set_currency, with_protection,
      replace_kill_switch_state, write_state, store_invalidate, write_state_with_loss_snapshot ];
  cbn [protection admission_state store_file store_operations emissions emitted config state
       daily_bucket daily_realized_pnl cumulative_position_pnl closed_position_pnl
       adjusted_position_pnl pending_halt_actions settlement_currency].
Ltac lp_steps := repeat lp_step.

Section Facts.
Context {D C : Type} `{DecimalLaws D} `{CurrencyOps C} `{DecimalText D}.
Context (sha256_hex : bytes → text) (debug_transition_error : KillSwitchTransitionError → text)
        (store_io : nat → StoreOutcome) (emit_io : nat → option text).
Implicit Types (w : @LossWorld D C) (p : @KillSwitchLossProtection D C).

(** ** The invariant *)

(** No two store operations in a row fail. *)
Definition store_reliable : Prop :=
  ∀ k error replaced, store_io k = StoreFailed error replaced → store_io (S k) = StoreDone.

(** The state a restart recovers from the file. *)
Definition recovered_from w : KillSwitchState :=
  recovered_kill_switch_state (recovery_state (recovery_record_of (D := D) (store_file w))).

Definition durable w : Prop := state (protection w) ≠ KsArmed → recovered_from w ≠ KsArmed.

(** An armed record has no pending actions. *)
Definition file_ok (f : StoreFile) : Prop :=
  match f with
  | FileRecord KsArmed (Some s) => persisted_pending_halt_actions s = None
  | _ => True
  end.

Definition pending_ok p : Prop :=
  ∀ q, pending_halt_actions p = Some q → pending_state q ≠ KsArmed.

Record lp_core w : Prop := {
  core_sync : admission_state w = state (protection w);
  core_armed : state (protection w) = KsArmed →
    realized_loss_breached (protection w) = false ∧ pending_halt_actions (protection w) = None;
  core_halting : ∀ id t, state (protection w) = KsHalting id t →
    ∃ q, pending_halt_actions (protection w) = Some q ∧ pending_state q = KsHalting id t;
  core_pending : pending_ok (protection w);
  core_file : file_ok (store_file w);
}.

Definition lp_ok w : Prop := lp_core w ∧ (store_reliable → durable w).

(** What the failure path needs of the world it starts from. *)
Definition lp_base w : Prop := pending_ok (protection w) ∧ file_ok (store_file w).

Lemma lp_ok_base w : lp_ok w → lp_base w.
Proof. intros [[] _]. by split. Qed.

(** What a non-armed record recovers is not armed. *)
Lemma record_not_armed s loss :
  s ≠ KsArmed →
  recovered_kill_switch_state (recovery_state (recovery_record_of (D := D) (FileRecord s loss))) ≠ KsArmed.
Proof.
  intros Hs. simpl. destruct loss as [l|]; [destruct (restore_snapshot l)|]; by destruct s.
Qed.

(** ** The failure path *)

Definition state_replaced p (s : KillSwitchState) : KillSwitchLossProtection :=
  mkProtection (config p) s (daily_bucket p) (daily_realized_pnl p) (cumulative_position_pnl p)
    (closed_position_pnl p) (adjusted_position_pnl p) (pending_halt_actions p) (settlement_currency p).

(** Everything but the kill-switch state and the pending actions. *)
Definition figures p :=
  (config p, daily_bucket p, daily_realized_pnl p,
   (cumulative_position_pnl p, closed_position_pnl p, adjusted_position_pnl p), settlement_currency p).

Lemma store_write_runs file w (Q : Result unit text → LossWorld → Prop) :
  (∀ r file' n, n = S (store_operations w) →
     (r = Ok tt ∧ file' = file ∧ store_io (store_operations w) = StoreDone ∨
      (∃ e replaced, r = Err e ∧ store_io (store_operations w) = StoreFailed e replaced) ∧
      (file' = file ∨ file' = store_file w)) →
     Q r (mkLossWorld (protection w) (admission_state w) file' n (emissions w) (emitted w))) →
  runs (store_write store_io file) w Q.
Proof.
  intros HQ. unfold store_write. destruct (store_io (store_operations w)) as [|e replaced] eqn:E.
  - eexists _, _. split; [by rewrite E|]. apply HQ; [done|]. by left.
  - eexists _, _. split; [by rewrite E|]. apply HQ; [done|]. right. split; [by eauto|].
    destruct replaced; auto.
Qed.

Lemma latch_failed_runs id reason w :
  lp_base w →
  runs (latch_failed store_io (KsFailedManualIntervention id reason)) w (λ r w',
    lp_ok w' ∧ protection w' = state_replaced (protection w) (KsFailedManualIntervention id reason) ∧
    emitted w' = emitted w).
Proof.
  intros [Hp Hf]. unfold latch_failed. lp_steps. unfold persist_failed_state_or_invalidate. lp_steps.
  apply store_write_runs. intros r1 f1 n1 -> Hw1. simpl in Hw1.
  assert (Hcore : ∀ f n em, file_ok f → lp_core (mkLossWorld (state_replaced (protection w)
    (KsFailedManualIntervention id reason)) (KsFailedManualIntervention id reason) f n em (emitted w))).
  { intros f n em Hf'. by constructor. }
  destruct Hw1 as [(-> & -> & _)|[(e & rep & -> & E) Hf1]].
  - lp_steps. split_and!; [|done|done]. split; [by apply Hcore|]. intros _ _.
    by apply (record_not_armed (KsFailedManualIntervention id reason)).
  - lp_steps. apply store_write_runs. intros r2 f2 n2 -> Hw2. simpl in *. lp_steps.
    split_and!; [|done|done]. split.
    + apply Hcore. destruct Hw2 as [(_ & -> & _)|[_ [-> | ->]]]; [done|done|]. by destruct Hf1 as [-> | ->].
    + intros Hio _. destruct Hw2 as [(_ & -> & _)|[(e2 & rep2 & _ & E2) _]]; [done|].
      by rewrite (Hio _ _ _ E) in E2.
Qed.

(** ** Persisting, emitting and recording *)

Lemma persist_runtime_runs w :
  lp_core w →
  runs (persist_runtime_snapshot_or_fail_closed store_io) w (λ r w',
    lp_ok w' ∧ figures (protection w') = figures (protection w) ∧ emitted w' = emitted w ∧
    match r with
    | Ok _ => store_io (store_operations w) = StoreDone ∧ protection w' = protection w ∧
        store_file w' = FileRecord (state (protection w))
                          (Some (persist_snapshot (loss_snapshot_of (protection w))))
    | Err _ => store_io (store_operations w) ≠ StoreDone ∧ pending_halt_actions (protection w') = None ∧
        ∃ reason, state (protection w') =
          KsFailedManualIntervention (halt_id_or_recovery (state (protection w))) reason
    end).
Proof.
  intros [Hs Ha Hh Hp Hf]. unfold persist_runtime_snapshot_or_fail_closed. lp_steps.
  apply store_write_runs. intros r f n -> Hw.
  assert (Hnew : file_ok (FileRecord (state (protection w))
    (persist_snapshot <$> Some (loss_snapshot_of (protection w))))).
  { simpl. destruct (state (protection w)) eqn:Est; try done. simpl.
    by destruct (Ha eq_refl) as [_ ->]. }
  destruct Hw as [(-> & -> & Hio)|[(e & rep & -> & Hio) Hfile]].
  - lp_steps. split_and!; [|done|done|done|done|done]. split; [by constructor|]. intros _ Hna.
    by apply record_not_armed.
  - lp_steps. eapply runs_mono; [apply latch_failed_runs|].
    + split; [by intros q|]. simpl. by destruct Hfile as [-> | ->].
    + intros r w' (Hok & Hprot & Hem). destruct r as [u|e'].
      * lp_steps. rewrite Hprot, Hio. simpl. split_and!; [done|done|done|done|done|eauto].
      * rewrite Hprot, Hio. simpl. split_and!; [done|done|done|done|done|eauto].
Qed.

(** The action a halt emits. *)
Definition flatten_action p (id : text) : KillSwitchLossAction :=
  mkLossAction FlattenPositions id FLATTEN_ACTION_ID (account_ids (config p)) (instrument_ids (config p)).

Lemma emit_runs s id w (Q : Result unit text → LossWorld → Prop) :
  halt_id_of s = Some id →
  (∀ n, match emit_io (emissions w) with
        | None => Q (Ok tt) (mkLossWorld (protection w) (admission_state w) (store_file w)
                    (store_operations w) n (emitted w ++ [flatten_action (protection w) id]))
        | Some e => Q (Err e) (mkLossWorld (protection w) (admission_state w) (store_file w)
                    (store_operations w) n (emitted w))
        end) →
  runs (emit_halt_actions emit_io s) w Q.
Proof.
  intros Hid HQ. unfold emit_halt_actions. rewrite Hid. unfold runs.
  destruct (emit_io (emissions w)) as [e|]; eexists _, _; (split; [done|]); apply HQ.
Qed.

(** A recorded halt: [Halted], or failed because it could not be persisted. *)
Lemma recorded_runs id t w :
  lp_base w →
  runs (record_halt_actions_recorded sha256_hex debug_transition_error store_io (KsHalting id t)) w
    (λ r w', lp_ok w' ∧ figures (protection w') = figures (protection w) ∧ emitted w' = emitted w ∧
      match r with
      | Ok s => store_io (store_operations w) = StoreDone ∧ s = KsHalted id t ∧ state (protection w') = s ∧
                pending_halt_actions (protection w') = None
      | Err _ => store_io (store_operations w) ≠ StoreDone ∧
                 ∃ reason, state (protection w') = KsFailedManualIntervention id reason
      end).
Proof.
  intros [_ Hf]. unfold record_halt_actions_recorded, transition. lp_steps. simpl.
  lp_steps. eapply runs_mono; [apply persist_runtime_runs|].
  { constructor; try done. }
  intros r w' (Hok & Hfig & Hem & Hr). simpl in *. destruct r as [u|e]; lp_steps.
  - destruct Hr as (Hio & Hp & _). by rewrite Hp.
  - by destruct Hr as (? & _ & ?).
Qed.

(** The failure of a transition that is not a recorded halt changes nothing. *)
Lemma recorded_other_runs s w :
  (∀ id t, s ≠ KsHalting id t) →
  runs (record_halt_actions_recorded sha256_hex debug_transition_error store_io s) w
    (λ r w', w' = w ∧ ∃ e, r = Err e).
Proof.
  intros Hs. unfold record_halt_actions_recorded, transition. lp_steps.
  destruct s; simpl; eauto. by destruct (Hs halt_id trigger).
Qed.

(** ** Latching the halt *)

(** What becomes of a halt that is durable: whether the action could be emitted and the
    outcome be written, by the store's next [operation], decides. *)
Definition halt_outcome (id : text) (t : KillSwitchHaltTrigger) (observed_at : Z) (operation : nat) w
    (r : Result (option KillSwitchState) text) w' : Prop :=
  let p := protection w in
  let p' := protection w' in
  let written := match store_io operation with StoreDone => true | StoreFailed _ _ => false end in
  match emit_io (emissions w) with
  | None =>
      emitted w' = emitted w ++ [flatten_action p id] ∧
      if written
      then r = Ok (Some (KsHalted id t)) ∧ state p' = KsHalted id t ∧ pending_halt_actions p' = None
      else (∃ e, r = Err e) ∧ ∃ reason, state p' = KsFailedManualIntervention id reason
  | Some _ =>
      (∃ e, r = Err e) ∧ emitted w' = emitted w ∧
      if written
      then state p' = KsHalting id t ∧
           pending_halt_actions p' =
             Some (mkPending (KsHalting id t) (add_millis observed_at (action_retry_interval_ms (config p)))
                     (add_millis observed_at (action_retry_timeout_ms (config p))))
      else ∃ reason, state p' = KsFailedManualIntervention id reason
  end.

Lemma dispatch_halt_runs id t observed_at w :
  lp_base w → recovered_from w ≠ KsArmed →
  runs (dispatch_halt sha256_hex debug_transition_error store_io emit_io (KsHalting id t) observed_at) w
    (λ r w', lp_ok w' ∧ figures (protection w') = figures (protection w) ∧ halt_outcome id t observed_at (store_operations w) w r w').
Proof.
  intros [Hp Hf] Hrec. unfold dispatch_halt, halt_outcome. lp_steps. eapply emit_runs; [done|].
  intros n. cbn. destruct (emit_io (emissions w)) as [e|]; cycle 1.
  - lp_steps. eapply runs_mono; [by apply recorded_runs|]. intros r w' (Hok & Hfig & Hem & Hr). simpl in *.
    destruct r as [s|e]; lp_steps.
    + destruct Hr as (Hio & -> & Hst & Hn). rewrite Hst, Hn, Hio, Hem. by split_and!.
    + destruct Hr as [Hio Hr]. rewrite Hem. split_and!; [done|done|done|].
      destruct (store_io (store_operations w)); [done|]. split; [by eexists|done].
  - lp_steps. eapply runs_mono; [apply persist_runtime_runs|].
    { constructor; simpl; try done.
      - intros ? ? [= <- <-]. by eexists.
      - by intros q [= <-]. }
    intros r w' (Hok & Hfig & Hem & Hr). simpl in *. destruct r as [u|e'].
    + destruct Hr as (Hio & Hpr & _). lp_steps. rewrite Hpr, Hio, Hem. split_and!; [done|done|by eexists|done|done|done].
    + destruct Hr as (Hio & _ & Hr). rewrite Hem. split_and!; [done|done|by eexists|done|].
      by destruct (store_io (store_operations w)).
Qed.

(** The trigger and the identifier of a realised-loss halt. *)
Definition loss_trigger (source : text) (observed_at : Z) : KillSwitchHaltTrigger :=
  loss_governor_breach_with_reason source observed_at LOSS_TRIGGER_REASON DailyLossLimit.
Definition loss_halt_id (source : text) (observed_at : Z) : text :=
  halt_id_for_trigger sha256_hex (loss_trigger source observed_at).

(** At the limit: a halt that cannot be made durable needs manual intervention at once. *)
Definition breach_outcome (source : text) (observed_at : Z) w (r : Result (option KillSwitchState) text) w' : Prop :=
  let id := loss_halt_id source observed_at in
  match store_io (store_operations w) with
  | StoreDone => halt_outcome id (loss_trigger source observed_at) observed_at (S (store_operations w)) w r w'
  | StoreFailed _ _ =>
      (∃ e, r = Err e) ∧ emitted w' = emitted w ∧
      ∃ reason, state (protection w') = KsFailedManualIntervention id reason
  end.

Lemma halt_outcome_id id t observed_at n w r w' :
  halt_outcome id t observed_at n w r w' → halt_id_of (state (protection w')) = Some id.
Proof.
  unfold halt_outcome. destruct (emit_io (emissions w)), (store_io n).
  - by intros (_ & _ & -> & _).
  - by intros (_ & _ & ? & ->).
  - by intros (_ & _ & -> & _).
  - by intros (_ & _ & ? & ->).
Qed.

Lemma breach_outcome_id source observed_at w r w' :
  breach_outcome source observed_at w r w' →
  halt_id_of (state (protection w')) = Some (loss_halt_id source observed_at).
Proof.
  unfold breach_outcome. destruct (store_io (store_operations w)); [apply halt_outcome_id|].
  by intros (_ & _ & reason & ->).
Qed.

(** A breach whose operation succeeds is halted. *)
Lemma breach_outcome_Ok source observed_at w s w' :
  breach_outcome source observed_at w (Ok s) w' →
  s = Some (state (protection w')) ∧
  state (protection w') = KsHalted (loss_halt_id source observed_at) (loss_trigger source observed_at) ∧
  pending_halt_actions (protection w') = None ∧
  emitted w' = emitted w ++ [flatten_action (protection w) (loss_halt_id source observed_at)].
Proof.
  unfold breach_outcome, halt_outcome. destruct (store_io (store_operations w)); [|by intros [[] _]].
  destruct (emit_io (emissions w)), (store_io _); try (by intros [[] _]); try (by intros (? & [] & _)).
  by intros (-> & [= ->] & -> & ->).
Qed.

Lemma halt_for_breach_runs source observed_at w :
  lp_base w →
  runs (halt_for_realized_loss_breach sha256_hex debug_transition_error store_io emit_io source observed_at)
    w (λ r w', lp_ok w' ∧ figures (protection w') = figures (protection w) ∧
      breach_outcome source observed_at w r w').
Proof.
  intros [Hp Hf]. unfold halt_for_realized_loss_breach, transition, breach_outcome. lp_steps. simpl.
  lp_steps. apply store_write_runs. intros r f n -> Hw.
  destruct Hw as [(-> & -> & ->)|[(e & rep & -> & ->) Hfile]].
  - eapply runs_mono; [apply dispatch_halt_runs; [by split|by apply record_not_armed]|].
    by intros r w' (Hok & Hfig & Hh).
  - lp_steps. simpl. lp_steps. eapply runs_mono; [apply latch_failed_runs|].
    { split; [done|]. by destruct Hfile as [-> | ->]. }
    intros r w' (Hok & Hpr & Hem). lp_steps. rewrite Hpr, Hem. simpl.
    split_and!; [done|done|destruct r; by eexists|done|by eexists].
Qed.

(** ** Retrying the halt actions *)

(** The invariant does not depend on the counters and the emitted actions. *)
Lemma lp_ok_env w ops n sent :
  lp_ok w → lp_ok (mkLossWorld (protection w) (admission_state w) (store_file w) ops n sent).
Proof. intros [[] Hd]. split; [by constructor|done]. Qed.

Lemma pending_not_armed w q :
  lp_ok w → pending_halt_actions (protection w) = Some q → state (protection w) ≠ KsArmed.
Proof. intros [[] _] Hq Ha. destruct core_armed0 as [_ Hn]; [done|]. congruence. Qed.

(** What a poll makes of a halt [id] whose actions are still pending as [q]. *)
Definition poll_outcome (observed_at : Z) (id : text) (t : KillSwitchHaltTrigger)
    (q : PendingHaltActions) w (r : Result unit text) w' : Prop :=
  let p := protection w in
  let p' := protection w' in
  if observed_at <? next_retry_at_unix_nanos q then r = Ok tt ∧ w' = w
  else if retry_deadline_unix_nanos q <? observed_at then
    (∃ e, r = Err e) ∧ emitted w' = emitted w ∧
    state p' = KsFailedManualIntervention id HALT_ACTION_RETRY_TIMEOUT_REASON
  else match emit_io (emissions w), store_io (store_operations w) with
    | None, StoreDone =>
        r = Ok tt ∧ emitted w' = emitted w ++ [flatten_action p id] ∧
        state p' = KsHalted id t ∧ pending_halt_actions p' = None
    | None, StoreFailed _ _ =>
        (∃ e, r = Err e) ∧ emitted w' = emitted w ++ [flatten_action p id] ∧
        ∃ reason, state p' = KsFailedManualIntervention id reason
    | Some _, StoreDone =>
        (∃ e, r = Err e) ∧ emitted w' = emitted w ∧ state p' = state p ∧
        pending_halt_actions p' =
          Some (mkPending (KsHalting id t) (add_millis observed_at (action_retry_interval_ms (config p)))
                  (retry_deadline_unix_nanos q))
    | Some _, StoreFailed _ _ =>
        (∃ e, r = Err e) ∧ emitted w' = emitted w ∧
        ∃ reason, state p' = KsFailedManualIntervention id reason
    end.

(** Too late: the failure is latched and nothing is emitted. *)
Lemma poll_timeout_runs id reason (error : text) w :
  lp_base w →
  runs (latch_failed store_io (KsFailedManualIntervention id reason) ;;!
        (set_pending None;; mret (Err error : Result unit text))) w
    (λ r w', lp_ok w' ∧ figures (protection w') = figures (protection w) ∧
      (∃ e, r = Err e) ∧ emitted w' = emitted w ∧
      state (protection w') = KsFailedManualIntervention id reason).
Proof.
  intros Hb. lp_steps. eapply runs_mono; [by apply latch_failed_runs|].
  intros r w' (Hok & Hpr & Hem). destruct r as [u|e].
  - lp_steps. rewrite Hpr, Hem. split_and!; [|done|by eauto|done|done].
    destruct Hok as [[] Hd]. unfold durable in Hd. rewrite Hpr in *. split; [by constructor|done].
  - rewrite Hpr, Hem. split_and!; [done|done|by eauto|done|done].
Qed.

(** The emission failed again: the next attempt is scheduled, the deadline stays. *)
Lemma retry_later_runs next q (error : text) w :
  lp_ok w → pending_halt_actions (protection w) = Some q →
  runs (set_pending (Some (mkPending (pending_state q) next (retry_deadline_unix_nanos q)));;
        persist_runtime_snapshot_or_fail_closed store_io ;;! mret (Err error : Result unit text)) w
    (λ r w', lp_ok w' ∧ figures (protection w') = figures (protection w) ∧
      (∃ e, r = Err e) ∧ emitted w' = emitted w ∧
      match store_io (store_operations w) with
      | StoreDone => state (protection w') = state (protection w) ∧ pending_halt_actions (protection w') =
          Some (mkPending (pending_state q) next (retry_deadline_unix_nanos q))
      | StoreFailed _ _ => ∃ reason, state (protection w') =
          KsFailedManualIntervention (halt_id_or_recovery (state (protection w))) reason
      end).
Proof.
  intros Hok Hq. pose proof (pending_not_armed _ _ Hok Hq) as Hna. destruct Hok as [[] Hd].
  lp_steps. eapply runs_mono; [apply persist_runtime_runs|].
  { constructor; simpl; try done.
    - intros id t Hst. destruct (core_halting0 id t Hst) as (q' & Hq' & Hs). eexists. split; [done|].
      simpl. congruence.
    - intros ? [= <-]. exact (core_pending0 q Hq). }
  intros r w' (Hok & Hfig & Hem & Hr). simpl in *. destruct r as [u|e]; lp_steps.
  - destruct Hr as (Hio & Hpr & _). rewrite Hpr, Hem, Hio. split_and!; [done|done|by eauto|done|done|done].
  - destruct Hr as (Hio & _ & Hr). split_and!; [done|done|by eauto|done|].
    by destruct (store_io (store_operations w)).
Qed.

Lemma fail_halting id t reason :
  fail_halt_actions (D := D) (C := C) sha256_hex debug_transition_error store_io (KsHalting id t) reason =
  latch_failed store_io (KsFailedManualIntervention id reason).
Proof. done. Qed.

Lemma poll_halting_runs observed_at id t q w :
  lp_ok w → pending_halt_actions (protection w) = Some q → pending_state q = KsHalting id t →
  halt_id_of (state (protection w)) = Some id →
  runs (poll_pending_halt_actions sha256_hex debug_transition_error store_io emit_io observed_at) w
    (λ r w', lp_ok w' ∧ figures (protection w') = figures (protection w) ∧
             poll_outcome observed_at id t q w r w').
Proof.
  intros Hok Hq Hqs Hid. unfold poll_pending_halt_actions, poll_outcome. lp_steps. rewrite Hq.
  destruct (_ <? _); [by lp_steps|]. destruct (_ <? _).
  - rewrite Hqs, fail_halting. by apply poll_timeout_runs, lp_ok_base.
  - lp_steps. eapply emit_runs; [by rewrite Hqs|]. intros n. destruct (emit_io (emissions w)) as [e|].
    + eapply runs_mono; [apply retry_later_runs; [by apply lp_ok_env|done]|].
      intros r w' (Hok' & Hfig & He & Hem & Hr). simpl in *. unfold halt_id_or_recovery in Hr.
      rewrite Hid, Hqs in Hr. split; [done|]. split; [done|]. by destruct (store_io (store_operations w)).
    + lp_steps. rewrite Hqs. eapply runs_mono; [by apply recorded_runs, lp_ok_base, lp_ok_env|].
      intros r w' (Hok' & Hfig & Hem & Hr). simpl in *. destruct r as [s|e]; lp_steps.
      * destruct Hr as (-> & -> & -> & ->). by split_and!.
      * destruct Hr as (Hio & Hr). split; [done|]. split; [done|].
        destruct (store_io (store_operations w)); [done|]. split_and!; [by eexists|done|done].
Qed.

(** A poll never arms, whatever is pending. *)
Lemma poll_runs observed_at w :
  lp_ok w →
  runs (poll_pending_halt_actions sha256_hex debug_transition_error store_io emit_io observed_at) w
    (λ r w', lp_ok w' ∧ (state (protection w) ≠ KsArmed → state (protection w') ≠ KsArmed)).
Proof.
  intros Hok. unfold poll_pending_halt_actions. lp_steps.
  destruct (pending_halt_actions (protection w)) as [q|] eqn:Hq; [|by lp_steps].
  pose proof (pending_not_armed _ _ Hok Hq) as Hna. destruct (_ <? _); [by lp_steps|].
  assert (Hqa : pending_state q ≠ KsArmed) by (by apply (lp_ok_base _ Hok)).
  destruct (_ <? _).
  - destruct (pending_state q) eqn:Hqs; try by (lp_steps; unfold fail_halt_actions, transition; lp_steps).
    rewrite fail_halting. eapply runs_mono; [by apply poll_timeout_runs, lp_ok_base|].
    by intros r w' (? & _ & _ & _ & ->).
  - assert (∃ id, halt_id_of (pending_state q) = Some id) as [id Hid]
      by (destruct (pending_state q); simpl; eauto; done).
    lp_steps. eapply emit_runs; [done|]. intros n. destruct (emit_io (emissions w)) as [e|].
    + eapply runs_mono; [apply retry_later_runs; [by apply lp_ok_env|done]|].
      intros r w' (? & _ & _ & _ & Hr). simpl in Hr.
      by destruct (store_io (store_operations w)); [destruct Hr as [-> _]|destruct Hr as [? ->]].
    + lp_steps. destruct (pending_state q) as [|id' t| | | | |] eqn:Hqs.
      2:{ eapply runs_mono; [by apply recorded_runs, lp_ok_base, lp_ok_env|].
          intros r w' (? & _ & _ & Hr). destruct r; lp_steps; [by destruct Hr as (_ & -> & -> & _)|].
          by destruct Hr as (_ & ? & ->). }
      all: eapply runs_mono; [by apply recorded_other_runs|].
      all: intros r w' [-> [e ->]]; lp_steps; split; [by apply lp_ok_env|done].
Qed.

(** ** Observations *)

(** An armed switch in order: what every step of an observation starts from. *)
Definition lp_armed w : Prop := lp_ok w ∧ state (protection w) = KsArmed.

(** The invariant of an armed switch only looks at the figures of the day. *)
Lemma lp_armed_figures w bucket pnl cumulative closed adjusted currency :
  lp_armed w →
  realized_loss_breached (mkProtection (config (protection w)) KsArmed bucket pnl cumulative closed adjusted
    None currency) = false →
  lp_armed (mkLossWorld
    (mkProtection (config (protection w)) (state (protection w)) bucket pnl cumulative closed adjusted
       (pending_halt_actions (protection w)) currency)
    (admission_state w) (store_file w) (store_operations w) (emissions w) (emitted w)).
Proof.
  intros [[[] Hd] Ha] Hb. destruct (core_armed0 Ha) as [_ Hn]. split; [|done]. split; [|by intros _ []].
  rewrite Hn. constructor; simpl; rewrite ?Ha; try done. congruence.
Qed.

Lemma d_zero_not_negative : d_ltb d_zero (d_zero : D) = false.
Proof. destruct d_zero_exact as [He Hv]. rewrite d_ltb_value by done. by rewrite Z.ltb_irrefl. Qed.

Lemma lp_armed_not_breached w :
  lp_armed w →
  ∀ bucket cumulative closed adjusted (currency : option C),
    realized_loss_breached (mkProtection (config (protection w)) KsArmed bucket
      (daily_realized_pnl (protection w)) cumulative closed adjusted None currency) = false.
Proof. intros [[[] _] Ha] ? ? ? ? ?. by destruct (core_armed0 Ha). Qed.

Lemma accept_bucket_runs observed_at w :
  lp_armed w →
  runs (accept_observation_bucket observed_at) w (λ _ w', lp_armed w').
Proof.
  intros Hw. unfold accept_observation_bucket. lp_steps.
  assert (Hz : ∀ b cu cl ad (c : option C), realized_loss_breached
    (mkProtection (config (protection w)) KsArmed b d_zero cu cl ad None c) = false).
  { intros. unfold realized_loss_breached. simpl. by rewrite d_zero_not_negative. }
  destruct (daily_bucket (protection w)) as [current|]; [destruct (_ <? _)|]; lp_steps; [|done|].
  - by apply (lp_armed_figures w).
  - by apply (lp_armed_figures w).
Qed.

Lemma latch_recovery_runs reason w (Q : Result unit text → LossWorld → Prop) :
  lp_base w →
  (∀ r w', lp_ok w' → Q r w') →
  runs (latch_failed store_io (KsFailedManualIntervention (halt_id_or_recovery (state (protection w))) reason))
    w Q.
Proof.
  intros Hb HQ. eapply runs_mono; [by apply latch_failed_runs|]. intros r w' (Hok & _). by apply HQ.
Qed.

Lemma guard_currency_runs currency w :
  lp_armed w →
  runs (guard_settlement_currency store_io currency) w (λ r w',
    lp_ok w' ∧ (r = Ok tt → lp_armed w')).
Proof.
  intros Hw. unfold guard_settlement_currency. lp_steps.
  destruct (settlement_currency (protection w)) as [c|]; [destruct (decide (c = currency))|].
  - lp_steps. by destruct Hw.
  - lp_steps. apply latch_recovery_runs; [by apply lp_ok_base; destruct Hw|].
    intros [u|e] w' Hok; lp_steps; done.
  - lp_steps.
    assert (Hw' : lp_armed (mkLossWorld
      (mkProtection (config (protection w)) (state (protection w)) (daily_bucket (protection w))
         (daily_realized_pnl (protection w)) (cumulative_position_pnl (protection w))
         (closed_position_pnl (protection w)) (adjusted_position_pnl (protection w))
         (pending_halt_actions (protection w)) (Some currency))
      (admission_state w) (store_file w) (store_operations w) (emissions w) (emitted w))).
    { apply (lp_armed_figures w); [done|]. by apply lp_armed_not_breached. }
    split; [apply Hw'|done].
Qed.

Lemma set_pnl_maps_armed cumulative closed adjusted w :
  lp_armed w → runs (set_pnl_maps cumulative closed adjusted) w (λ _ w', lp_armed w').
Proof.
  intros Hw. lp_steps. apply (lp_armed_figures w); [done|]. by apply lp_armed_not_breached.
Qed.

(** The figure of the day reaches the limit. *)
Definition loss_at_limit (config : KillSwitchLossProtectionConfig D) (pnl : D) : bool :=
  d_ltb pnl d_zero && d_geb (d_neg pnl) (max_utc_daily_realized_loss config).

(** What recording one realised figure does to an armed switch, when the day's figure
    becomes [total]. *)
Definition record_outcome (o : RealizedPnlObservation D C) (total : D) w
    (r : Result (option KillSwitchState) text) w' : Prop :=
  let p := protection w in
  let p' := protection w' in
  figures p' = (config p, daily_bucket p, total,
                (cumulative_position_pnl p, closed_position_pnl p, adjusted_position_pnl p),
                settlement_currency p) ∧
  if loss_at_limit (config p) total
  then breach_outcome (observation_source o) (observed_at_unix_nanos o) w r w'
  else emitted w' = emitted w ∧
    match store_io (store_operations w) with
    | StoreDone => r = Ok None ∧ state p' = KsArmed ∧
        store_file w' = FileRecord KsArmed (Some (persist_snapshot (loss_snapshot_of p')))
    | StoreFailed _ _ =>
        (∃ e, r = Err e) ∧ ∃ reason, state p' = KsFailedManualIntervention FAIL_CLOSED_RECOVERY_HALT_ID reason
    end.

Lemma record_current_runs o total w :
  lp_armed w → d_checked_add (daily_realized_pnl (protection w)) (realized_pnl o) = Some total →
  runs (record_current_bucket_realized_pnl sha256_hex debug_transition_error store_io emit_io o) w
    (λ r w', lp_ok w' ∧ record_outcome o total w r w').
Proof.
  intros Hw Hadd. pose proof Hw as [[[] _] Ha]. destruct (core_armed0 Ha) as [_ Hn].
  unfold record_current_bucket_realized_pnl, record_outcome. lp_steps. eapply runs_lift; [done|]. lp_steps.
  unfold realized_loss_breached. cbn. fold (loss_at_limit (config (protection w)) total).
  destruct (loss_at_limit (config (protection w)) total) eqn:Hb; cbn.
  - eapply runs_mono; [by apply halt_for_breach_runs|]. intros r w' (Hok & Hfig & Hh). by split_and!.
  - lp_steps. eapply runs_mono; [apply persist_runtime_runs|].
    { rewrite Ha, Hn. constructor; simpl; try done. congruence. }
    intros r w' (Hok & Hfig & Hem & Hr). simpl in Hr. destruct r as [u|e]; lp_steps.
    + destruct Hr as (Hio & Hpr & Hfile). rewrite Hfile, Hpr, Hio. simpl. rewrite Ha. by split_and!.
    + destruct Hr as (Hio & _ & Hr). rewrite Ha in Hr. split_and!; [done|done|done|].
      destruct (store_io (store_operations w)); [done|]. by split; [eexists|].
Qed.

Lemma record_current_safe o w :
  lp_armed w →
  safe (record_current_bucket_realized_pnl sha256_hex debug_transition_error store_io emit_io o) w
    (λ _ w', lp_ok w').
Proof.
  intros Hw. destruct (d_checked_add (daily_realized_pnl (protection w)) (realized_pnl o)) as [total|] eqn:Hadd.
  - apply runs_safe. eapply runs_mono; [by eapply record_current_runs|]. by intros r w' [? _].
  - unfold record_current_bucket_realized_pnl. do 4 lp_step. by rewrite Hadd.
Qed.

(** An update of the position maps of an armed switch, with what follows it. *)
Lemma set_pnl_maps_then {A} cumulative closed adjusted (k : Rust LossWorld A) Q w :
  lp_armed w → (∀ w', lp_armed w' → safe k w' Q) → safe (set_pnl_maps cumulative closed adjusted;; k) w Q.
Proof.
  intros Hw Hk. apply safe_bind, runs_safe. eapply runs_mono; [by apply set_pnl_maps_armed|]. auto.
Qed.

(** What recording a position's figure may leave: a change to add, with the switch still
    armed, or nothing to add. *)
Definition recorded_ok {A} (r : Result (option A) text) w' : Prop :=
  lp_ok w' ∧ ∀ a, r = Ok (Some a) → lp_armed w'.

Lemma recorded_armed {A} (r : Result (option A) text) w : lp_armed w → recorded_ok r w.
Proof. intros Hw. split; [apply Hw|done]. Qed.
#[local] Hint Resolve recorded_armed : bolt.

Lemma persist_recorded {A} (k : Result (option A) text) w :
  (∀ a, k ≠ Ok (Some a)) → lp_armed w →
  safe (persist_runtime_snapshot_or_fail_closed store_io ;;! mret k) w recorded_ok.
Proof.
  intros Hk Hw. lp_steps. apply runs_safe. eapply runs_mono; [apply persist_runtime_runs; apply Hw|].
  intros r w' (Hok & _). destruct r; lp_steps; (split; [done|]); [|done]. intros x Hx. by destruct (Hk x).
Qed.

Lemma record_closed_safe observation w :
  lp_armed w → safe (record_closed_position_observation store_io observation) w recorded_ok.
Proof.
  intros Hw. unfold record_closed_position_observation. lp_steps.
  destruct (cumulative_position_pnl _ !! _) as [previous|].
  - destruct (_ <? _); [lp_steps; auto with bolt|]. apply set_pnl_maps_then; [done|].
    intros w1 Hw1. destruct (same_observation _ _); [by apply persist_recorded|].
    lp_steps. intros a _. lp_steps. auto with bolt.
  - destruct (closed_position_pnl _ !! _) as [previous|].
    + destruct (_ <? _); [lp_steps; auto with bolt|]. destruct (d_eqb _ _); [lp_steps; auto with bolt|].
      apply set_pnl_maps_then; [done|]. intros w1 Hw1. lp_steps. intros a _. lp_steps. auto with bolt.
    + apply set_pnl_maps_then; [done|]. intros w1 Hw1. lp_steps. auto with bolt.
Qed.

Lemma record_open_safe observation w :
  lp_armed w → safe (record_open_position_observation observation) w recorded_ok.
Proof.
  intros Hw. unfold record_open_position_observation. lp_steps.
  destruct (match _ with Some _ => _ | None => _ end); [lp_steps; auto with bolt|].
  apply set_pnl_maps_then; [done|]. intros w1 Hw1. lp_steps. intros a _. lp_steps. auto with bolt.
Qed.

Lemma record_cumulative_safe observation w :
  lp_armed w → safe (record_cumulative_position_observation store_io observation) w recorded_ok.
Proof.
  intros Hw. unfold record_cumulative_position_observation.
  destruct (closes_position observation); [by apply record_closed_safe|]. lp_steps.
  destruct (closed_position_pnl _ !! _) as [closed|]; [|by apply record_open_safe].
  destruct (_ || _); [lp_steps; auto with bolt|]. apply set_pnl_maps_then; [done|].
  intros w1 Hw1. by apply record_open_safe.
Qed.

Lemma is_duplicate_safe observation w :
  lp_armed w →
  safe (is_duplicate_adjusted_position_observation store_io observation) w
    (λ r w', lp_ok w' ∧ ∀ b, r = Ok b → lp_armed w').
Proof.
  intros Hw. unfold is_duplicate_adjusted_position_observation. lp_steps.
  destruct (event_id observation) as [key|].
  - destruct (adjusted_position_pnl _ !! _); [lp_steps; split; [apply Hw|done]|].
    apply set_pnl_maps_then; [done|]. intros w1 Hw1. lp_steps. split; [apply Hw1|done].
  - lp_steps. apply runs_safe, latch_recovery_runs; [by apply lp_ok_base; destruct Hw|].
    intros [u|e] w' Hok; lp_steps; done.
Qed.

Lemma record_observation_safe observed_at currency record w :
  lp_ok w → (∀ w', lp_armed w' → safe record w' (λ _ w'', lp_ok w'')) →
  safe (record_observation sha256_hex debug_transition_error store_io emit_io observed_at currency record) w
    (λ _ w', lp_ok w').
Proof.
  intros Hw Hrec. unfold record_observation. lp_steps.
  destruct (is_armed (state (protection w))) eqn:Ha; cbn.
  - assert (Hw' : lp_armed w) by (split; [done|by destruct (state (protection w))]). lp_steps.
    eapply runs_safe_mono; [by apply accept_bucket_runs|]. intros [] w1 Hw1; cbn [negb]; lp_steps; [|apply Hw1].
    eapply runs_safe_mono; [by apply guard_currency_runs|]. intros [[]|e] w2 [Hok2 Hw2]; [|done].
    by apply Hrec, Hw2.
  - lp_steps. eapply runs_safe_mono; [by apply poll_runs|].
    by intros [u|e] w' [? _]; lp_steps.
Qed.

Lemma record_realized_safe o w :
  lp_ok w →
  safe (record_realized_pnl sha256_hex debug_transition_error store_io emit_io o) w (λ _ w', lp_ok w').
Proof. intros Hw. apply record_observation_safe; [done|]. intros w' Hw'. by apply record_current_safe. Qed.

Lemma record_position_safe observation w :
  lp_ok w →
  safe (record_position_realized_pnl sha256_hex debug_transition_error store_io emit_io observation) w
    (λ _ w', lp_ok w').
Proof.
  intros Hw. unfold record_position_realized_pnl. lp_steps. destruct (_ || _); [by lp_steps|].
  apply record_observation_safe; [done|]. intros w1 Hw1. destruct (cumulative_realized_pnl observation).
  - apply safe_try. eapply safe_mono; [by apply record_cumulative_safe|].
    intros [[o|]|e] w2 [Hok Ha]; [|by lp_steps|done]. apply record_current_safe. by eapply Ha.
  - apply safe_try. eapply safe_mono; [by apply is_duplicate_safe|].
    intros [[]|e] w2 [Hok Ha]; [by lp_steps| |done]. apply record_current_safe. by eapply Ha.
Qed.

(** ** Restart *)

(** What a parsed snapshot guarantees. *)
Lemma restore_snapshot_Ok persisted s :
  restore_snapshot (D := D) (C := C) persisted = Ok s →
  snapshot_pending_halt_actions s = persisted_pending_halt_actions persisted ∧
  (∀ code, snapshot_settlement_currency s = Some code → is_Some (currency_try_from_str (C := C) code)).
Proof.
  unfold restore_snapshot. intros Hp. result_inv. subst. simpl. split; [done|].
  intros code ->. revert E4. unfold restore_currency.
  destruct (persisted_settlement_currency persisted) as [c|]; [|by destruct (_ || _)].
  destruct (_ || _); [done|]. destruct (currency_try_from_str c) eqn:Ec; [|done]. intros [= <-]. by rewrite Ec.
Qed.

Lemma load_runs w (Q : Result (KillSwitchRecoveryRecord D) text → LossWorld → Prop) :
  (∀ n, match store_io (store_operations w) with
        | StoreDone => Q (Ok (recovery_record_of (store_file w)))
            (mkLossWorld (protection w) (admission_state w) (store_file w) n (emissions w) (emitted w))
        | StoreFailed e _ => Q (Err e)
            (mkLossWorld (protection w) (admission_state w) (store_file w) n (emissions w) (emitted w))
        end) →
  runs (load_recovery_record store_io) w Q.
Proof.
  intros HQ. unfold load_recovery_record, runs. specialize (HQ (S (store_operations w))).
  by destruct (store_io (store_operations w)); eexists _, _.
Qed.

(** The figures a snapshot restores. *)
Definition restored_figures (config : KillSwitchLossProtectionConfig D) (s : KillSwitchLossProtectionSnapshot D) :=
  (config, snapshot_daily_bucket s, snapshot_daily_realized_pnl s,
   (snapshot_cumulative_position_pnl s, snapshot_closed_position_pnl s, snapshot_adjusted_position_pnl s),
   snapshot_settlement_currency s ≫= currency_try_from_str (C := C)).

(** What publishing a recovered state needs of the world. *)
Record reissue_pre (s : KillSwitchState) w : Prop := {
  pre_armed : s = KsArmed →
    realized_loss_breached (protection w) = false ∧ pending_halt_actions (protection w) = None;
  pre_pending : ∀ q, pending_halt_actions (protection w) = Some q → pending_state q = s;
  pre_file : file_ok (store_file w);
  pre_durable : store_reliable → s ≠ KsArmed → recovered_from w ≠ KsArmed;
}.

Lemma published_ok s w :
  reissue_pre s w → (∀ id t, s = KsHalting id t → is_Some (pending_halt_actions (protection w))) →
  lp_ok (mkLossWorld (state_replaced (protection w) s) s (store_file w) (store_operations w)
           (emissions w) (emitted w)).
Proof.
  intros [Ha Hq Hf Hd] Hh. split; [|exact Hd]. constructor; simpl; try done.
  - intros id t ->. destruct (Hh id t eq_refl) as [q Hq']. eauto.
  - intros q Hq' Hs. destruct Ha as [_ Hn]; [by rewrite <-(Hq q Hq')|]. simpl in Hq'. congruence.
Qed.

Lemma reissue_runs s clock w :
  reissue_pre s w →
  runs (reissue_halt_actions sha256_hex debug_transition_error store_io emit_io s clock) w
    (λ r w', lp_ok w' ∧ figures (protection w') = figures (protection w) ∧
      (s ≠ KsArmed → state (protection w') ≠ KsArmed) ∧
      match r with Ok s' => state (protection w') = s' | Err _ => s ≠ KsArmed end).
Proof.
  intros Hpre. unfold reissue_halt_actions. lp_steps.
  destruct s as [|id t| | | | |]; try (lp_steps; split; [by apply published_ok|done]).
  destruct (pending_halt_actions (protection w)) as [q|] eqn:Hq.
  { lp_steps. split; [|done]. rewrite <-Hq. apply published_ok; [done|]. by rewrite Hq. }
  destruct Hpre. lp_steps. eapply emit_runs; [done|]. intros n. cbn. destruct (emit_io (emissions w)) as [e|].
  - lp_steps. eapply runs_mono; [apply persist_runtime_runs|].
    { constructor; simpl; try done.
      - intros ? ? [= <- <-]. by eexists.
      - by intros ? [= <-]. }
    intros r w' (Hok & Hfig & _ & Hr). destruct r as [u|e']; lp_steps.
    + destruct Hr as (_ & Hpr & _). by rewrite Hpr.
    + destruct Hr as (_ & _ & ? & ->). by split_and!.
  - eapply runs_mono; [apply recorded_runs; by split|].
    intros r w' (Hok & Hfig & _ & Hr). destruct r as [u|e'].
    + destruct Hr as (_ & -> & -> & _). by split_and!.
    + destruct Hr as (_ & ? & ->). by split_and!.
Qed.

Lemma apply_runs persisted s w (Q : unit → LossWorld → Prop) :
  restore_snapshot (D := D) (C := C) persisted = Ok s →
  (∀ p', figures p' = restored_figures (config (protection w)) s → state p' = state (protection w) →
     pending_halt_actions p' =
       (λ q, mkPending (state (protection w)) (snapshot_next_retry_at_unix_nanos q)
               (snapshot_retry_deadline_unix_nanos q)) <$> persisted_pending_halt_actions persisted →
     Q tt (mkLossWorld p' (admission_state w) (store_file w) (store_operations w) (emissions w) (emitted w))) →
  runs (apply_loss_snapshot s) w Q.
Proof.
  intros [Hpend Hcur]%restore_snapshot_Ok HQ. unfold apply_loss_snapshot. lp_steps.
  assert (∃ c, match snapshot_settlement_currency s with
               | None => Some None
               | Some code => Some <$> currency_try_from_str (C := C) code
               end = Some c ∧ c = snapshot_settlement_currency s ≫= currency_try_from_str)
    as (c & Hc & Hcs).
  { destruct (snapshot_settlement_currency s) as [code|]; [|by eauto].
    destruct (Hcur code eq_refl) as [c Hc]. simpl. rewrite Hc. by eauto. }
  eapply runs_lift; [exact Hc|]. lp_steps. apply HQ; [|done|by rewrite <-Hpend].
  unfold figures, restored_figures. simpl. by rewrite Hcs.
Qed.

(** What a restart leaves when the store could be read. *)
Definition restart_outcome config w (r : Result KillSwitchState text) w' : Prop :=
  lp_ok w' ∧
  (recovered_from w ≠ KsArmed → state (protection w') ≠ KsArmed) ∧
  (∀ s, recovery_loss_protection (recovery_record_of (store_file w)) = Some s →
     figures (protection w') = restored_figures config s) ∧
  match r with
  | Ok s => state (protection w') = s
  | Err _ => state (protection w') ≠ KsArmed
  end.

Lemma halt_then_reissue_runs source clock w :
  lp_base w →
  runs (latched ←! halt_for_realized_loss_breach sha256_hex debug_transition_error store_io emit_io source clock;
        match latched with
        | None => mret (Err (lit "recovered daily realized loss breach did not latch the kill switch"))
        | Some s => reissue_halt_actions sha256_hex debug_transition_error store_io emit_io s clock
        end) w
    (λ r w', lp_ok w' ∧ figures (protection w') = figures (protection w) ∧ state (protection w') ≠ KsArmed ∧
      ∀ s, r = Ok s → state (protection w') = s).
Proof.
  intros Hb. lp_steps. eapply runs_mono; [by apply halt_for_breach_runs|].
  intros r w1 (Hok & Hfig & Hout). pose proof (breach_outcome_id _ _ _ _ _ Hout) as Hid. destruct r as [s|e].
  - destruct (breach_outcome_Ok _ _ _ _ _ Hout) as (-> & Hst & Hn & _). eapply runs_mono; [apply reissue_runs|].
    + destruct Hok as [[] Hd]. rewrite Hst in *. constructor; try done.
      * by rewrite Hn.
      * intros Hio _. apply Hd; [done|]. by rewrite Hst.
    + intros r w' (Hok' & Hfig' & Hna & Hr). rewrite Hst in Hna. rewrite <-Hfig.
      split_and!; [done|done|by apply Hna|]. by intros s ->.
  - split_and!; [done|done|by intros Ha; rewrite Ha in Hid|done].
Qed.

(** The record a file yields, with what the file guarantees. *)
Lemma recovery_record_inv (file : StoreFile) s :
  recovery_loss_protection (recovery_record_of (D := D) (C := C) file) = Some s →
  ∃ st persisted, file = FileRecord st (Some persisted) ∧
    restore_snapshot (D := D) (C := C) persisted = Ok s ∧
    recovered_kill_switch_state (recovery_state (recovery_record_of (D := D) (C := C) file)) = st.
Proof.
  destruct file as [|st [persisted|]|]; simpl; try done.
  destruct (restore_snapshot persisted) as [s'|] eqn:Hr; [|done]. simpl. intros [= ->].
  exists st, persisted. by destruct st.
Qed.

(** A recovered halt: its figures are restored and its actions issued again. *)
Lemma recovered_halt_runs persisted s st clock w :
  restore_snapshot (D := D) (C := C) persisted = Ok s → store_file w = FileRecord st (Some persisted) →
  state (protection w) = st → st ≠ KsArmed →
  runs (apply_loss_snapshot s;;
        reissue_halt_actions sha256_hex debug_transition_error store_io emit_io st clock) w
    (λ r w', lp_ok w' ∧ state (protection w') ≠ KsArmed ∧
      figures (protection w') = restored_figures (config (protection w)) s ∧
      match r with Ok s' => state (protection w') = s' | Err _ => state (protection w') ≠ KsArmed end).
Proof.
  intros Hrest Hfile Hst Hna. lp_steps. eapply apply_runs; [done|]. intros p' Hfig Hst' Hp'.
  eapply runs_mono; [apply reissue_runs|].
  - constructor; cbn; [done| | |].
    + intros q. rewrite Hp'. destruct (persisted_pending_halt_actions persisted); [|done]. by intros [= <-].
    + rewrite Hfile. by destruct st.
    + intros _ _. unfold recovered_from. cbn. rewrite Hfile. by apply record_not_armed.
  - intros r w' (Hok & Hfig' & Hna' & Hr). cbn in Hfig'. rewrite Hfig', Hfig.
    split_and!; [done|by apply Hna'|done|]. destruct r; [done|by apply Hna'].
Qed.

(** A recovered armed switch: it stays armed only within the limit. *)
Lemma recovered_armed_runs persisted s clock w :
  restore_snapshot (D := D) (C := C) persisted = Ok s → store_file w = FileRecord KsArmed (Some persisted) →
  file_ok (store_file w) → state (protection w) = KsArmed →
  runs (apply_loss_snapshot s;;
        p ← rust_get protection;
        if realized_loss_breached p then
          latched ←! halt_for_realized_loss_breach sha256_hex debug_transition_error store_io emit_io
                       RECOVERY_LOSS_TRIGGER_SOURCE clock;
          match latched with
          | None => mret (Err (lit "recovered daily realized loss breach did not latch the kill switch"))
          | Some s => reissue_halt_actions sha256_hex debug_transition_error store_io emit_io s clock
          end
        else reissue_halt_actions sha256_hex debug_transition_error store_io emit_io KsArmed clock) w
    (λ r w', lp_ok w' ∧ figures (protection w') = restored_figures (config (protection w)) s ∧
      match r with Ok s' => state (protection w') = s' | Err _ => state (protection w') ≠ KsArmed end).
Proof.
  intros Hrest Hfile Hf Hst. lp_steps. eapply apply_runs; [done|]. intros p' Hfig Hst' Hp'. lp_steps.
  assert (Hn : pending_halt_actions p' = None).
  { rewrite Hfile in Hf. simpl in Hf. by rewrite Hp', Hf. }
  destruct (realized_loss_breached p') eqn:Hb.
  - eapply runs_mono; [apply halt_then_reissue_runs|].
    + split; [|done]. intros q. cbn. by rewrite Hn.
    + intros r w' (Hok & Hfig' & Hna & Hr). cbn in Hfig'. rewrite Hfig', Hfig. split_and!; [done|done|].
      destruct r; [by apply Hr|done].
  - eapply runs_mono; [apply reissue_runs|].
    + constructor; cbn; [done| |done|done]. intros q. by rewrite Hn.
    + intros r w' (Hok & Hfig' & Hna & Hr). cbn in Hfig'. rewrite Hfig', Hfig. split_and!; [done|done|].
      by destruct r.
Qed.

(** A file without a snapshot. *)
Lemma recovered_bare_runs st clock w :
  pending_halt_actions (protection w) = None → file_ok (store_file w) → state (protection w) = st →
  st ≠ KsArmed → recovered_from w ≠ KsArmed →
  runs (reissue_halt_actions sha256_hex debug_transition_error store_io emit_io st clock) w
    (λ r w', lp_ok w' ∧ state (protection w') ≠ KsArmed ∧
      match r with Ok s' => state (protection w') = s' | Err _ => state (protection w') ≠ KsArmed end).
Proof.
  intros Hn Hf Hst Hna Hrec. eapply runs_mono; [apply reissue_runs|].
  - constructor; [done| |done|done]. by rewrite Hn.
  - intros r w' (Hok & _ & Hna' & Hr). split_and!; [done|by apply Hna'|]. destruct r; [done|by apply Hna'].
Qed.

Lemma restart_runs config clock w :
  file_ok (store_file w) → store_io (store_operations w) = StoreDone →
  runs (restart sha256_hex debug_transition_error store_io emit_io config clock) w
    (restart_outcome config w).
Proof.
  intros Hf Hio. unfold restart, seed_from_store, restart_outcome. lp_steps. apply load_runs. cbn. rewrite Hio.
  intros n. lp_steps. fold (recovered_from w).
  destruct (recovery_loss_protection _) as [s|] eqn:Hl.
  - apply recovery_record_inv in Hl as (st & persisted & Hfile & Hrest & Hrec).
    fold (recovered_from w) in Hrec. rewrite Hrec.
    destruct st.
    1:{ eapply runs_mono; [by eapply recovered_armed_runs|].
        intros r w' (Hok & Hfig & Hr). split_and!; [done|done| |done]. by intros ? [= <-]. }
    all: (eapply runs_mono; [by eapply recovered_halt_runs|]).
    all: intros r w' (Hok & Hna & Hfig & Hr); split_and!; [done|done| |done]; by intros ? [= <-].
  - destruct (recovered_from w) eqn:Hrec.
    1:{ lp_steps. eapply runs_mono; [by apply latch_failed_runs|].
        intros r w' (Hok & Hpr & _). destruct r as [u|e]; lp_steps; by rewrite Hpr. }
    all: eapply runs_mono; [apply recovered_bare_runs; [done..|change (recovered_from w ≠ KsArmed); by rewrite Hrec]|].
    all: intros r w' (Hok & Hna & Hr); by split_and!.
Qed.

(** ** Replayed observations *)

(** What decides whether an observation was counted. *)
Definition records p :=
  (config p, daily_bucket p, (cumulative_position_pnl p, closed_position_pnl p, adjusted_position_pnl p),
   settlement_currency p).

Lemma figures_records p p' : figures p' = figures p → records p' = records p.
Proof. unfold figures, records. by intros [= -> -> _ -> -> -> ->]. Qed.

Lemma record_current_records o w :
  lp_armed w →
  safe (record_current_bucket_realized_pnl sha256_hex debug_transition_error store_io emit_io o) w
    (λ _ w', records (protection w') = records (protection w)).
Proof.
  intros Hw. destruct (d_checked_add (daily_realized_pnl (protection w)) (realized_pnl o)) as [total|] eqn:Hadd.
  - eapply runs_safe_mono; [by eapply record_current_runs|]. intros r w' (_ & Hfig & _).
    unfold figures, records in *. by injection Hfig as -> -> _ -> -> -> ->.
  - unfold record_current_bucket_realized_pnl. do 4 lp_step. by rewrite Hadd.
Qed.

Definition stale_or_same (o : RealizedPnlObservation D C) (v : CumulativePositionPnl D) : bool :=
  (observed_at_unix_nanos o <? last_observed_at_unix_nanos v) || same_observation o v.

(** The position maps already hold the observation, or a later one. *)
Definition position_counted (observation : PositionRealizedPnlObservation D C) p : Prop :=
  let o := observed observation in
  let id := position_id observation in
  if cumulative_realized_pnl observation then
    if closes_position observation then
      match cumulative_position_pnl p !! id, closed_position_pnl p !! id with
      | Some v, _ => (observed_at_unix_nanos o <? last_observed_at_unix_nanos v) = true
      | None, Some v =>
          (observed_at_unix_nanos o <? last_observed_at_unix_nanos v) || d_eqb (realized_pnl o) (cumulative_pnl v)
          = true
      | None, None => False
      end
    else
      match closed_position_pnl p !! id, cumulative_position_pnl p !! id with
      | Some v, _ | None, Some v => stale_or_same o v = true
      | None, None => False
      end
  else ∃ key, event_id observation = Some key ∧ is_Some (adjusted_position_pnl p !! key).

Definition in_scope (observation : PositionRealizedPnlObservation D C) p : bool :=
  bool_decide (position_account_id observation ∈ account_ids (config p)) &&
  bool_decide (position_instrument_id observation ∈ instrument_ids (config p)).

Definition counted (observation : PositionRealizedPnlObservation D C) p : Prop :=
  let bucket := observed_at_unix_nanos (observed observation) `div` NANOS_PER_UTC_DAY in
  in_scope observation p = true →
  ∃ current, daily_bucket p = Some current ∧ bucket ≤ current ∧
    (bucket = current →
     settlement_currency p = Some (observation_currency (observed observation)) ∧
     position_counted observation p).

Lemma counted_records observation p p' :
  records p' = records p → counted observation p → counted observation p'.
Proof.
  unfold records, counted, position_counted, in_scope. by intros [= -> -> -> -> -> ->].
Qed.

Lemma cumulative_ignored observation w :
  cumulative_realized_pnl observation = true → position_counted observation (protection w) →
  runs (record_cumulative_position_observation store_io observation) w (λ r w', r = Ok None ∧ w' = w).
Proof.
  unfold position_counted, record_cumulative_position_observation. intros ->.
  destruct (closes_position observation).
  - unfold record_closed_position_observation. intros Hc. lp_steps.
    destruct (cumulative_position_pnl _ !! _) as [v|]; [rewrite Hc; by lp_steps|].
    destruct (closed_position_pnl _ !! _) as [v|]; [|done].
    destruct (_ <? _); [by lp_steps|]. simpl in Hc. rewrite Hc. by lp_steps.
  - unfold stale_or_same. intros Hc. lp_steps.
    destruct (closed_position_pnl _ !! _) as [v|] eqn:Hcl; [rewrite Hc; by lp_steps|].
    unfold record_open_position_observation. lp_steps.
    destruct (cumulative_position_pnl _ !! _) as [v|]; [|done]. rewrite Hc. by lp_steps.
Qed.

Lemma adjusted_ignored observation w :
  cumulative_realized_pnl observation = false → position_counted observation (protection w) →
  runs (is_duplicate_adjusted_position_observation store_io observation) w (λ r w', r = Ok true ∧ w' = w).
Proof.
  unfold position_counted, is_duplicate_adjusted_position_observation. intros -> (key & -> & [v Hv]).
  lp_steps. rewrite Hv. by lp_steps.
Qed.

(** A counted observation is ignored, and the world is left as it is. *)
Lemma counted_ignored observation w :
  state (protection w) = KsArmed → counted observation (protection w) →
  runs (record_position_realized_pnl sha256_hex debug_transition_error store_io emit_io observation) w
    (λ r w', r = Ok None ∧ w' = w).
Proof.
  unfold counted, in_scope, record_position_realized_pnl. intros Ha Hc. lp_steps. rewrite <-negb_andb.
  destruct (_ && _); cbn [negb]; [|by lp_steps]. destruct (Hc eq_refl) as (current & Hb & Hle & Hcur). simpl.
  unfold record_observation. lp_steps. rewrite Ha. simpl. lp_steps. unfold accept_observation_bucket. lp_steps.
  rewrite Hb. destruct (Z.ltb_spec current (observed_at_unix_nanos (observed observation) `div` NANOS_PER_UTC_DAY));
    [lia|]. lp_steps. destruct (Z.eqb_spec (observed_at_unix_nanos (observed observation) `div` NANOS_PER_UTC_DAY)
    current) as [E|E]; simpl; [|by lp_steps].
  destruct (Hcur E) as [Hccy Hpos]. lp_steps. unfold guard_settlement_currency. lp_steps. rewrite Hccy.
  rewrite decide_True by done. lp_steps. destruct (cumulative_realized_pnl observation) eqn:Hcum.
  - apply runs_try. eapply runs_mono; [by apply cumulative_ignored|]. intros r w' [-> ->]. by lp_steps.
  - apply runs_try. eapply runs_mono; [by apply adjusted_ignored|]. intros r w' [-> ->]. by lp_steps.
Qed.

Lemma d_eqb_refl (d : D) : d_exact d → d_eqb d d = true.
Proof. intros Hd. rewrite d_eqb_value by done. apply Z.eqb_refl. Qed.

Lemma stale_or_same_self o : d_exact (realized_pnl o) → stale_or_same o (cumulative_of o) = true.
Proof.
  intros Hd. unfold stale_or_same, same_observation. simpl. by rewrite Z.eqb_refl, d_eqb_refl, orb_true_r.
Qed.

(** The rest of the records that decide: bucket, currency and scope. *)
Definition header p := (config p, daily_bucket p, settlement_currency p).

Lemma closed_self (o : RealizedPnlObservation D C) :
  d_exact (realized_pnl o) →
  (observed_at_unix_nanos o <? last_observed_at_unix_nanos (cumulative_of o)) ||
  d_eqb (realized_pnl o) (cumulative_pnl (cumulative_of o)) = true.
Proof. intros Hd. simpl. by rewrite d_eqb_refl, orb_true_r. Qed.

(** Recording a position's figure that is not refused leaves it counted. *)
Lemma record_closed_counts observation w :
  cumulative_realized_pnl observation = true → closes_position observation = true →
  d_exact (realized_pnl (observed observation)) → lp_armed w →
  safe (record_closed_position_observation store_io observation) w (λ r w',
    header (protection w') = header (protection w) ∧
    ∀ a, r = Ok a → position_counted observation (protection w')).
Proof.
  unfold position_counted. intros -> -> Hd Hw. unfold record_closed_position_observation.
  do 3 lp_step. set (id := position_id observation). set (o := observed observation).
  destruct (cumulative_position_pnl _ !! _) as [v|] eqn:Hcu.
  - destruct (_ <? _) eqn:Ho; [lp_steps; split; [done|]; intros _ _; by rewrite Hcu|]. lp_steps.
    destruct (same_observation o v); lp_steps.
    + eapply runs_safe_mono; [apply persist_runtime_runs; apply (lp_armed_figures w); [done|]|].
      { by apply lp_armed_not_breached. }
      intros r w' (_ & Hfig & _). apply figures_records in Hfig. unfold records in Hfig.
      injection Hfig as Hc1 Hc2 Hc3 Hc4 Hc5 Hc6. cbn in *.
      assert (Hh : header (protection w') = header (protection w)) by (unfold header; congruence).
      destruct r; lp_steps; (split; [done|]); [|done]. intros _ _.
      rewrite Hc3, Hc4, lookup_delete_eq, lookup_insert_eq. by apply closed_self.
    + intros a _. lp_steps. split; [done|]. intros _ _. rewrite lookup_delete_eq, lookup_insert_eq.
      by apply closed_self.
  - destruct (closed_position_pnl _ !! _) as [v|] eqn:Hcl.
    + destruct (_ <? _) eqn:Ho; [lp_steps; split; [done|]; intros _ _; by rewrite Hcu, Hcl, Ho|].
      destruct (d_eqb _ _) eqn:He.
      { lp_steps; split; [done|]; intros _ _. by rewrite Hcu, Hcl, He, orb_true_r. }
      lp_steps. intros a _. lp_steps. split; [done|]. intros _ _. rewrite Hcu, lookup_insert_eq.
      by apply closed_self.
    + lp_steps. split; [done|]. intros _ _. rewrite Hcu, lookup_insert_eq. by apply closed_self.
Qed.

Lemma record_open_counts observation w :
  cumulative_realized_pnl observation = true → closes_position observation = false →
  d_exact (realized_pnl (observed observation)) →
  closed_position_pnl (protection w) !! position_id observation = None →
  safe (record_open_position_observation observation) w (λ r w',
    header (protection w') = header (protection w) ∧
    ∀ a, r = Ok a → position_counted observation (protection w')).
Proof.
  unfold position_counted. intros -> -> Hd Hcl. unfold record_open_position_observation. lp_steps.
  destruct (cumulative_position_pnl _ !! _) as [v|] eqn:Hcu.
  - fold (stale_or_same (observed observation) v). destruct (stale_or_same _ _) eqn:Ho.
    + lp_steps. rewrite Hcl, Hcu. done.
    + lp_steps. intros a _. lp_steps. split; [done|]. intros _ _. rewrite Hcl, lookup_insert_eq.
      by apply stale_or_same_self.
  - lp_steps. intros a _. lp_steps. split; [done|]. intros _ _. rewrite Hcl, lookup_insert_eq.
    by apply stale_or_same_self.
Qed.

Lemma record_cumulative_counts observation w :
  cumulative_realized_pnl observation = true → d_exact (realized_pnl (observed observation)) → lp_armed w →
  safe (record_cumulative_position_observation store_io observation) w (λ r w',
    header (protection w') = header (protection w) ∧
    ∀ a, r = Ok a → position_counted observation (protection w')).
Proof.
  intros Hcum Hd Hw. unfold record_cumulative_position_observation.
  destruct (closes_position observation) eqn:Hclose; [by apply record_closed_counts|]. lp_steps.
  destruct (closed_position_pnl _ !! _) as [v|] eqn:Hcl; [|by apply record_open_counts].
  fold (stale_or_same (observed observation) v). destruct (stale_or_same _ _) eqn:Ho.
  - lp_steps. split; [done|]. intros _ _. unfold position_counted. by rewrite Hcum, Hclose, Hcl.
  - lp_steps. eapply safe_mono; [apply record_open_counts; try done|].
    { apply lookup_delete_eq. }
    done.
Qed.

Lemma duplicate_counts observation w :
  cumulative_realized_pnl observation = false →
  safe (is_duplicate_adjusted_position_observation store_io observation) w (λ r w',
    ∀ b, r = Ok b → header (protection w') = header (protection w) ∧
                    position_counted observation (protection w')).
Proof.
  unfold position_counted. intros ->. unfold is_duplicate_adjusted_position_observation. lp_steps.
  destruct (event_id observation) as [key|].
  - destruct (adjusted_position_pnl _ !! _) eqn:Ha; lp_steps; intros _ _; (split; [done|]); exists key;
      (split; [done|]); [by rewrite Ha|by rewrite lookup_insert_eq].
  - lp_steps. intros r w' _. by destruct r; lp_steps.
Qed.

Lemma accept_bucket_header observed_at w :
  runs (accept_observation_bucket observed_at) w (λ r w',
    config (protection w') = config (protection w) ∧
    if r then daily_bucket (protection w') = Some (observed_at `div` NANOS_PER_UTC_DAY)
    else ∃ current, daily_bucket (protection w') = Some current ∧ observed_at `div` NANOS_PER_UTC_DAY < current).
Proof.
  unfold accept_observation_bucket. lp_steps.
  destruct (daily_bucket (protection w)) as [current|] eqn:Hb; [|by lp_steps].
  destruct (Z.ltb_spec current (observed_at `div` NANOS_PER_UTC_DAY)); lp_steps; [done|].
  split; [done|]. destruct (Z.eqb_spec (observed_at `div` NANOS_PER_UTC_DAY) current) as [->|]; [done|].
  exists current. split; [done|lia].
Qed.

Lemma guard_currency_header currency w :
  safe (guard_settlement_currency store_io currency) w (λ r w',
    r = Ok tt → config (protection w') = config (protection w) ∧
                daily_bucket (protection w') = daily_bucket (protection w) ∧
                settlement_currency (protection w') = Some currency).
Proof.
  unfold guard_settlement_currency. lp_steps.
  destruct (settlement_currency (protection w)) as [c|] eqn:Hc; [destruct (decide (c = currency)) as [->|]|].
  - by lp_steps.
  - lp_steps. intros r w' _. by destruct r; lp_steps.
  - by lp_steps.
Qed.

(** What a successful observation of a position leaves. *)
Definition leaves_counted (observation : PositionRealizedPnlObservation D C)
    (r : Result (option KillSwitchState) text) w' : Prop :=
  ∀ a, r = Ok a → state (protection w') = KsArmed → counted observation (protection w').

Lemma record_then_counted observation o w :
  lp_armed w → counted observation (protection w) →
  safe (record_current_bucket_realized_pnl sha256_hex debug_transition_error store_io emit_io o) w
    (leaves_counted observation).
Proof.
  intros Hw Hc. eapply safe_mono; [by apply record_current_records|]. intros r w' Hr a _ _.
  exact (counted_records _ _ _ Hr Hc).
Qed.

(** The position's part of an observation in the current bucket. *)
Lemma position_part_counts observation w :
  let bucket := observed_at_unix_nanos (observed observation) `div` NANOS_PER_UTC_DAY in
  lp_armed w → d_exact (realized_pnl (observed observation)) →
  daily_bucket (protection w) = Some bucket →
  settlement_currency (protection w) = Some (observation_currency (observed observation)) →
  safe (if cumulative_realized_pnl observation then
          recorded ←! record_cumulative_position_observation store_io observation;
          match recorded with
          | None => mret (Ok None)
          | Some o => record_current_bucket_realized_pnl sha256_hex debug_transition_error store_io emit_io o
          end
        else
          duplicate ←! is_duplicate_adjusted_position_observation store_io observation;
          if (duplicate : bool) then mret (Ok None)
          else record_current_bucket_realized_pnl sha256_hex debug_transition_error store_io emit_io
                 (observed observation)) w
    (leaves_counted observation).
Proof.
  intros bucket Hw Hd Hb Hc.
  assert (Hcounted : ∀ p, header p = header (protection w) → position_counted observation p →
    counted observation p).
  { unfold header. intros p [= _ Hpb Hpc] Hp _. exists bucket. rewrite Hpb, Hpc. split_and!; [done|lia|done]. }
  destruct (cumulative_realized_pnl observation) eqn:Hcum; apply safe_try.
  - eapply safe_mono; [apply safe_and; [by apply record_cumulative_safe|by apply record_cumulative_counts]|].
    intros [[o|]|e] w1 [[_ Hw1] [Hh Hp]]; [|lp_steps; intros ? _ _; by eapply Hcounted, Hp|done].
    apply record_then_counted; [by eapply Hw1|by eapply Hcounted, Hp].
  - eapply safe_mono; [apply safe_and; [by apply is_duplicate_safe|by apply duplicate_counts]|].
    intros [[]|e] w1 [[_ Hw1] Hp]; [| |done].
    + lp_steps. intros ? _ _. by apply Hcounted; destruct (Hp true eq_refl).
    + apply record_then_counted; [by eapply Hw1|]. by apply Hcounted; destruct (Hp false eq_refl).
Qed.

Lemma record_position_counts observation w :
  lp_ok w → d_exact (realized_pnl (observed observation)) →
  safe (record_position_realized_pnl sha256_hex debug_transition_error store_io emit_io observation) w
    (leaves_counted observation).
Proof.
  intros Hw Hd. unfold record_position_realized_pnl. lp_steps. rewrite <-negb_andb.
  fold (in_scope observation (protection w)). destruct (in_scope _ _) eqn:Hscope; cbn [negb]; cycle 1.
  { lp_steps. intros a _ _ Hs. by rewrite Hscope in Hs. }
  unfold record_observation. lp_steps. destruct (is_armed (state (protection w))) eqn:Ha; cbn [negb]; cycle 1.
  { lp_steps. eapply runs_safe_mono; [by apply poll_runs|]. intros r w' [_ Hna].
    destruct r; lp_steps; [|done]. intros x _ Hst. by destruct Hna; [intros Hs; rewrite Hs in Ha|]. }
  assert (Hw' : lp_armed w) by (split; [done|by destruct (state (protection w))]). lp_steps.
  eapply safe_mono; [apply safe_and; apply runs_safe; [by apply accept_bucket_runs|apply accept_bucket_header]|].
  intros [] w1 [Hw1 [_ Hb1]]; cbn [negb]; lp_steps.
  - eapply safe_mono; [apply safe_and; [apply runs_safe; by apply guard_currency_runs|apply guard_currency_header]|].
    intros [[]|e] w2 [[_ Hw2] Hg]; [|done]. destruct (Hg eq_refl) as (_ & Hb2 & Hc2).
    apply position_part_counts; [by apply Hw2|done|by rewrite Hb2|done].
  - destruct Hb1 as (current & Hb1 & Hlt). intros a _ _ _. exists current. split_and!; [done|lia|lia].
Qed.

End Facts.
