(* ===== verification/LossProtectionSafety.v ===== *)
(** * Loss protection over its whole history

    A process starts on a store, records observations, polls, and is restarted any
    number of times, with any pattern of store and sink failures.  Over all these
    histories: the switch is armed only while the realised loss of the day is below
    the limit, a halt is never forgotten, every snapshot that is written can be read
    back, and an observation is counted once. *)

From Stdlib Require Import ZArith Lia.
From stdpp Require Import sorting strings gmap numbers list.
From S2P Require Import Prelude RustText DecimalAmount LossGovernor KillSwitch LossProtection LossProtectionFacts.

Open Scope Z_scope.

(** What the code relies on of [Decimal]'s text form and of [Currency]. *)
Class CurrencyLaws (C : Type) `{CurrencyOps C} := {
  currency_round_trip c : currency_try_from_str (currency_code c) = Some c;
  currency_code_trimmed c : blank (currency_code c) = false ∧ trim (currency_code c) = currency_code c;
}.

Section Safety.
Context {D C : Type} `{DecimalLaws D} `{CurrencyLaws C} `{DecimalTextLaws D}.
Context (sha256_hex : bytes → text) (debug_transition_error : KillSwitchTransitionError → text)
        (store_io : nat → StoreOutcome) (emit_io : nat → option text).
Implicit Types (w : @LossWorld D C) (p : @KillSwitchLossProtection D C).

(** ** Histories *)

Inductive LossAction : Type :=
| RecordPosition (observation : PositionRealizedPnlObservation D C)
| RecordRealized (observation : RealizedPnlObservation D C)
| PollHaltActions (observed_at : Z)
| RestartProcess (config : KillSwitchLossProtectionConfig D) (clock : Z).

Definition perform (action : LossAction) : Rust LossWorld unit :=
  match action with
  | RecordPosition o =>
      _ ← record_position_realized_pnl sha256_hex debug_transition_error store_io emit_io o; mret tt
  | RecordRealized o =>
      _ ← record_realized_pnl sha256_hex debug_transition_error store_io emit_io o; mret tt
  | PollHaltActions t =>
      _ ← poll_pending_halt_actions sha256_hex debug_transition_error store_io emit_io t; mret tt
  | RestartProcess config clock =>
      _ ← restart sha256_hex debug_transition_error store_io emit_io config clock; mret tt
  end.

(** A first start on a store that holds no armed record with pending actions. *)
Definition first_start w : Prop :=
  ∃ config, protection w = protection_new config ∧ admission_state w = KsArmed ∧ file_ok (store_file w).

Inductive loss_reachable : LossWorld → Prop :=
| reach_start w : first_start w → loss_reachable w
| reach_action w action w' :
    loss_reachable w → perform action w = Some (tt, w') → loss_reachable w'.

(** ** What leaves the figures alone *)

Definition keeps_figures {A} (m : Rust (@LossWorld D C) A) : Prop :=
  ∀ w, safe m w (λ _ w', figures (protection w') = figures (protection w)).

Lemma figs_ret {A} (a : A) : keeps_figures (mret a).
Proof. intros w. by lp_steps. Qed.

Lemma figs_bind {A B} (m : Rust LossWorld A) (f : A → Rust LossWorld B) :
  keeps_figures m → (∀ a, keeps_figures (f a)) → keeps_figures (m ≫= f).
Proof.
  intros Hm Hf w. apply safe_bind. eapply safe_mono; [apply Hm|]. intros a w1 <-. apply Hf.
Qed.

Lemma figs_try {A B E} (m : Rust LossWorld (Result A E)) (f : A → Rust LossWorld (Result B E)) :
  keeps_figures m → (∀ a, keeps_figures (f a)) → keeps_figures (try_bind m f).
Proof. intros Hm Hf. apply figs_bind; [done|]. intros []; [apply Hf|apply figs_ret]. Qed.

Lemma figs_get {A} (f : LossWorld → A) : keeps_figures (rust_get f).
Proof. intros w. by lp_steps. Qed.

Lemma figs_set_state s : keeps_figures (set_state s).
Proof. intros w. by lp_steps. Qed.
Lemma figs_set_pending q : keeps_figures (set_pending q).
Proof. intros w. by lp_steps. Qed.
Lemma figs_replace s : keeps_figures (replace_kill_switch_state s).
Proof. intros w. by lp_steps. Qed.
Lemma figs_write file : keeps_figures (store_write store_io file).
Proof. intros w. apply runs_safe, store_write_runs. by intros. Qed.
Lemma figs_emit s : keeps_figures (emit_halt_actions emit_io s).
Proof.
  intros w. unfold emit_halt_actions. destruct (halt_id_of s); [|by lp_steps].
  intros a w'. by destruct (emit_io (emissions w)) as [e|]; intros [= <- <-].
Qed.

(** Unfold the operations whose steps all leave the figures alone. *)
Ltac figs_auto :=
  intros; repeat first
  [ apply figs_ret | apply figs_bind; [|intros] | apply figs_try; [|intros] | apply figs_get
  | apply figs_set_state | apply figs_set_pending | apply figs_replace | apply figs_write
  | apply figs_emit | case_match
  | progress unfold poll_pending_halt_actions, fail_halt_actions, record_halt_actions_recorded, transition,
      persist_runtime_snapshot_or_fail_closed, latch_failed, persist_failed_state_or_invalidate,
      write_state, store_invalidate, write_state_with_loss_snapshot, halt_for_realized_loss_breach,
      dispatch_halt, reissue_halt_actions ].

Lemma figs_latch s : keeps_figures (latch_failed store_io s).
Proof. figs_auto. Qed.
Lemma figs_persist : keeps_figures (persist_runtime_snapshot_or_fail_closed store_io).
Proof. figs_auto. Qed.
Lemma figs_poll t : keeps_figures (poll_pending_halt_actions sha256_hex debug_transition_error store_io emit_io t).
Proof. figs_auto. Qed.
Lemma figs_halt source t :
  keeps_figures (halt_for_realized_loss_breach sha256_hex debug_transition_error store_io emit_io source t).
Proof. figs_auto. Qed.
Lemma figs_reissue s t :
  keeps_figures (reissue_halt_actions sha256_hex debug_transition_error store_io emit_io s t).
Proof. figs_auto. Qed.

(** ** Snapshots that can be read back *)

Lemma keys_overlap_false (a b : gmap text (CumulativePositionPnl D)) :
  keys_overlap a b = false ↔ dom a ## dom b.
Proof.
  unfold keys_overlap. rewrite <-not_true_iff_false, existsb_exists. split.
  - intros Hn k [v Hv]%elem_of_dom Hb%elem_of_dom. apply Hn. exists (k, v).
    rewrite <-list_elem_of_In, elem_of_map_to_list. split; [done|]. by apply bool_decide_eq_true.
  - intros Hd ([k v] & Hin & Hb). apply bool_decide_eq_true in Hb.
    rewrite <-list_elem_of_In, elem_of_map_to_list in Hin. apply (Hd k); by apply elem_of_dom.
Qed.

(** The figures of a snapshot the store accepts: no position both open and closed, and
    no figure without its currency. *)
Record figures_wf p : Prop := {
  wf_disjoint : dom (cumulative_position_pnl p) ## dom (closed_position_pnl p);
  wf_currency : settlement_currency p = None →
    d_eqb (daily_realized_pnl p) d_zero = true ∧ cumulative_position_pnl p = ∅ ∧
    closed_position_pnl p = ∅ ∧ adjusted_position_pnl p = ∅;
}.

Lemma wf_figures p p' : figures p' = figures p → figures_wf p → figures_wf p'.
Proof.
  unfold figures. intros [= _ _ Hd Hcu Hcl Had Hc] []. by constructor; rewrite ?Hd, ?Hcu, ?Hcl, ?Had, ?Hc.
Qed.

(** A step that leaves the figures alone leaves them well formed. *)
Lemma figs_wf {A} (m : Rust LossWorld A) w :
  keeps_figures m → figures_wf (protection w) → safe m w (λ _ w', figures_wf (protection w')).
Proof. intros Hm Hw. eapply safe_mono; [apply Hm|]. intros a w' Hf. exact (wf_figures _ _ Hf Hw). Qed.

Lemma new_wf config : figures_wf (protection_new (C := C) config).
Proof.
  constructor; simpl; [set_solver|]. intros _. split_and!; try done. apply d_eqb_refl, d_zero_exact.
Qed.

Lemma accept_bucket_wf t w :
  figures_wf (protection w) → safe (accept_observation_bucket t) w (λ _ w', figures_wf (protection w')).
Proof.
  intros [Hdj Hcur]. assert (Hz : d_eqb (d_zero : D) d_zero = true) by (apply d_eqb_refl, d_zero_exact).
  unfold accept_observation_bucket. lp_steps.
  destruct (daily_bucket (protection w)) as [current|]; [destruct (_ <? _)|]; lp_steps; [|done|].
  - constructor; cbn.
    + unfold prune_completed. pose proof (dom_filter_subseteq (D := gset text)
        (λ '(_, v), t `div` NANOS_PER_UTC_DAY ≤ last_observed_at_unix_nanos v `div` NANOS_PER_UTC_DAY)
        (closed_position_pnl (protection w))). set_solver.
    + intros Hn. destruct (Hcur Hn) as (_ & -> & -> & ->). by unfold prune_completed; rewrite map_filter_empty.
  - constructor; cbn; [done|]. intros Hn. by destruct (Hcur Hn) as (_ & -> & -> & ->).
Qed.

Lemma guard_currency_wf currency w :
  figures_wf (protection w) →
  safe (guard_settlement_currency store_io currency) w (λ r w',
    figures_wf (protection w') ∧ (r = Ok tt → is_Some (settlement_currency (protection w')))).
Proof.
  intros Hw. unfold guard_settlement_currency. lp_steps.
  destruct (settlement_currency (protection w)) as [c|] eqn:Hc; [destruct (decide (c = currency))|].
  - lp_steps. by rewrite Hc.
  - lp_steps. eapply safe_mono; [apply figs_wf; [apply figs_latch|done]|].
    by intros [u|e] w' Hw'; lp_steps.
  - lp_steps. split; [|done]. by destruct Hw.
Qed.

(** With a currency, only the position maps matter. *)
Definition with_currency p : Prop :=
  is_Some (settlement_currency p) ∧ dom (cumulative_position_pnl p) ## dom (closed_position_pnl p).

Lemma with_currency_wf p : with_currency p → figures_wf p.
Proof. intros [[c Hc] Hd]. constructor; [done|]. by rewrite Hc. Qed.

Lemma figs_with_currency {A} (m : Rust LossWorld A) w :
  keeps_figures m → with_currency (protection w) → safe m w (λ _ w', with_currency (protection w')).
Proof.
  intros Hm Hw. eapply safe_mono; [apply Hm|]. unfold figures, with_currency.
  by intros a w' [= _ _ _ -> -> _ ->].
Qed.

Lemma record_current_wf o w :
  with_currency (protection w) →
  safe (record_current_bucket_realized_pnl sha256_hex debug_transition_error store_io emit_io o) w
    (λ _ w', with_currency (protection w')).
Proof.
  intros Hw. unfold record_current_bucket_realized_pnl. lp_steps. intros total _. lp_steps.
  destruct (negb _).
  - apply figs_with_currency; [figs_auto|done].
  - apply figs_with_currency; [apply figs_halt|done].
Qed.

Lemma record_closed_wf observation w :
  with_currency (protection w) →
  safe (record_closed_position_observation store_io observation) w (λ _ w', with_currency (protection w')).
Proof.
  intros [Hc Hd]. unfold record_closed_position_observation. lp_steps.
  destruct (cumulative_position_pnl _ !! _) as [v|] eqn:Hcu.
  - destruct (_ <? _); lp_steps; [done|].
    assert (dom (delete (position_id observation) (cumulative_position_pnl (protection w))) ##
            dom (<[position_id observation := cumulative_of (observed observation)]>
                   (closed_position_pnl (protection w)))) by set_solver.
    destruct (same_observation _ _).
    + apply figs_with_currency; [figs_auto|done].
    + lp_steps. intros a _. by lp_steps.
  - assert (dom (cumulative_position_pnl (protection w)) ##
            dom (<[position_id observation := cumulative_of (observed observation)]>
                   (closed_position_pnl (protection w)))).
    { apply not_elem_of_dom in Hcu. set_solver. }
    destruct (closed_position_pnl _ !! _) as [v|].
    + destruct (_ <? _); lp_steps; [done|]. destruct (d_eqb _ _); lp_steps; [done|]. intros a _. by lp_steps.
    + by lp_steps.
Qed.

Lemma record_open_wf observation w :
  with_currency (protection w) → closed_position_pnl (protection w) !! position_id observation = None →
  safe (record_open_position_observation observation) w (λ _ w', with_currency (protection w')).
Proof.
  intros [Hc Hd] Hcl%not_elem_of_dom. unfold record_open_position_observation. lp_steps.
  destruct (match _ with Some _ => _ | None => _ end); lp_steps; [done|]. intros a _. lp_steps.
  split; cbn; [done|]. set_solver.
Qed.

Lemma record_cumulative_wf observation w :
  with_currency (protection w) →
  safe (record_cumulative_position_observation store_io observation) w
    (λ _ w', with_currency (protection w')).
Proof.
  intros Hw. unfold record_cumulative_position_observation.
  destruct (closes_position observation); [by apply record_closed_wf|]. lp_steps.
  destruct (closed_position_pnl _ !! _) as [v|] eqn:Hcl; [|by apply record_open_wf].
  destruct (_ || _); lp_steps; [done|]. apply record_open_wf; cbn; [|apply lookup_delete_eq].
  destruct Hw. split; cbn; [done|]. set_solver.
Qed.

Lemma duplicate_wf observation w :
  with_currency (protection w) →
  safe (is_duplicate_adjusted_position_observation store_io observation) w
    (λ _ w', with_currency (protection w')).
Proof.
  intros Hw. unfold is_duplicate_adjusted_position_observation. lp_steps.
  destruct (event_id observation) as [key|]; [|apply figs_with_currency; [figs_auto|done]].
  by destruct (adjusted_position_pnl _ !! _); lp_steps.
Qed.

Lemma record_observation_wf t currency record w :
  figures_wf (protection w) →
  (∀ w', with_currency (protection w') → safe record w' (λ _ w'', with_currency (protection w''))) →
  safe (record_observation sha256_hex debug_transition_error store_io emit_io t currency record) w
    (λ _ w', figures_wf (protection w')).
Proof.
  intros Hw Hrec. unfold record_observation. lp_steps. destruct (negb _).
  { apply figs_wf; [figs_auto|done]. }
  lp_steps. eapply safe_mono; [by apply accept_bucket_wf|]. intros [] w1 Hw1; cbn [negb]; lp_steps; [|done].
  eapply safe_mono; [by apply guard_currency_wf|]. intros [[]|e] w2 [Hw2 Hc]; [|done].
  eapply safe_mono; [apply Hrec; split; [by apply Hc|by destruct Hw2]|]. intros ? ? ?. by apply with_currency_wf.
Qed.

Lemma record_position_wf observation w :
  figures_wf (protection w) →
  safe (record_position_realized_pnl sha256_hex debug_transition_error store_io emit_io observation) w
    (λ _ w', figures_wf (protection w')).
Proof.
  intros Hw. unfold record_position_realized_pnl. lp_steps. destruct (_ || _); [by lp_steps|].
  apply record_observation_wf; [done|]. intros w1 Hw1. destruct (cumulative_realized_pnl observation); apply safe_try.
  - eapply safe_mono; [by apply record_cumulative_wf|].
    intros [[o|]|e] w2 Hw2; [by apply record_current_wf|by lp_steps|done].
  - eapply safe_mono; [by apply duplicate_wf|].
    intros [[]|e] w2 Hw2; [by lp_steps|by apply record_current_wf|done].
Qed.

(** What a parsed snapshot restores is well formed. *)
Lemma restored_wf persisted s p :
  restore_snapshot (D := D) (C := C) persisted = Ok s →
  figures p = restored_figures (config p) s → figures_wf p.
Proof.
  unfold restore_snapshot, figures, restored_figures. intros Hp. result_inv. subst. simpl.
  intros [= _ Hd Hcu Hcl Had Hc]. apply negb_true_iff, keys_overlap_false in E2.
  constructor; rewrite ?Hd, ?Hcu, ?Hcl, ?Had; [done|]. rewrite Hc. intros Hn. revert E4. unfold restore_currency.
  destruct (persisted_settlement_currency persisted) as [code|].
  - destruct (_ || _); [done|]. destruct (currency_try_from_str code) eqn:Ec; [|done].
    intros [= <-]. simpl in Hn. congruence.
  - destruct (_ || _) eqn:He; [done|]. intros _. repeat (apply orb_false_iff in He as [He ?]).
    repeat match goal with Hx : negb _ = false |- _ => apply negb_false_iff in Hx end.
    repeat match goal with Hx : bool_decide _ = true |- _ => apply bool_decide_eq_true in Hx end. by split_and!.
Qed.

(** Restoring a snapshot and then steps that leave the figures alone. *)
Lemma apply_then_wf {A} persisted s (k : Rust LossWorld A) w :
  restore_snapshot (D := D) (C := C) persisted = Ok s → keeps_figures k →
  safe (apply_loss_snapshot s;; k) w (λ _ w', figures_wf (protection w')).
Proof.
  intros Hs Hk. apply safe_bind, runs_safe. eapply apply_runs; [done|]. intros p' Hfig _ _.
  apply figs_wf; [done|]. cbn. eapply restored_wf; [done|].
  assert (Hc : config p' = config (protection w)) by (unfold figures, restored_figures in Hfig; congruence).
  by rewrite Hc.
Qed.

Lemma restart_wf config clock w :
  safe (restart sha256_hex debug_transition_error store_io emit_io config clock) w
    (λ _ w', figures_wf (protection w')).
Proof.
  assert (Hnew := new_wf config). unfold restart, seed_from_store. lp_steps. apply runs_safe, load_runs.
  intros n. cbn. destruct (store_io (store_operations w)); [|by lp_steps].
  destruct (recovery_loss_protection _) as [s|] eqn:Hl.
  - apply recovery_record_inv in Hl as (st & persisted & Hfile & Hrest & Hrec). rewrite Hrec. lp_steps.
    destruct st; apply (apply_then_wf persisted); try done; figs_auto.
  - lp_steps. apply figs_wf; [figs_auto|]. by destruct Hnew.
Qed.

(** ** The invariant over histories *)

Lemma new_process_ok config w :
  protection w = protection_new config → admission_state w = KsArmed → file_ok (store_file w) →
  lp_ok store_io w.
Proof.
  intros Hp Ha Hf. split; [|unfold durable; by rewrite Hp]. constructor; rewrite ?Hp; try done.
  split; [|done]. unfold realized_loss_breached. simpl. by rewrite d_zero_not_negative.
Qed.

(** A store that cannot be read: the process does not start, and the file is as it was. *)
Lemma restart_load_failed config clock w e replaced :
  file_ok (store_file w) → store_io (store_operations w) = StoreFailed e replaced →
  runs (restart sha256_hex debug_transition_error store_io emit_io config clock) w
    (λ r w', lp_ok store_io w' ∧ store_file w' = store_file w ∧ ∃ e', r = Err e').
Proof.
  intros Hf Hio. unfold restart, seed_from_store. lp_steps. apply load_runs. intros n. cbn. rewrite Hio.
  lp_steps. split_and!; [|done|by eauto]. by apply (new_process_ok config).
Qed.

Lemma restart_ok config clock w :
  file_ok (store_file w) →
  runs (restart sha256_hex debug_transition_error store_io emit_io config clock) w (λ _ w', lp_ok store_io w').
Proof.
  intros Hf. destruct (store_io (store_operations w)) as [|e b] eqn:Hio.
  - eapply runs_mono; [by apply restart_runs|]. by intros r w' [? _].
  - eapply runs_mono; [by eapply restart_load_failed|]. by intros r w' [? _].
Qed.

Lemma perform_ok action w :
  lp_ok store_io w → figures_wf (protection w) →
  safe (perform action) w (λ _ w', lp_ok store_io w' ∧ figures_wf (protection w')).
Proof.
  intros Hw Hf.
  assert (Hdrop : ∀ A (m : Rust LossWorld A), safe m w (λ _ w', lp_ok store_io w') →
    safe m w (λ _ w', figures_wf (protection w')) →
    safe (_ ← m; mret tt) w (λ _ w', lp_ok store_io w' ∧ figures_wf (protection w'))).
  { intros A m Hm1 Hm2. apply safe_bind. eapply safe_mono; [exact (safe_and _ _ _ _ Hm1 Hm2)|].
    intros r w' Hr. by apply runs_safe, runs_ret. }
  destruct action; apply Hdrop.
  - by apply record_position_safe.
  - by apply record_position_wf.
  - by apply record_realized_safe.
  - apply record_observation_wf; [done|]. intros w' Hw'. by apply record_current_wf.
  - eapply runs_safe_mono; [by apply poll_runs|]. by intros r w' [? _].
  - by apply figs_wf; [apply figs_poll|].
  - apply runs_safe, restart_ok, Hw.
  - apply restart_wf.
Qed.

Lemma loss_reachable_ok w : loss_reachable w → lp_ok store_io w ∧ figures_wf (protection w).
Proof.
  induction 1 as [w (config & Hp & Ha & Hf)|w action w' _ [Hw Hf] Hstep].
  - split; [by eapply new_process_ok|]. rewrite Hp. apply new_wf.
  - by apply (perform_ok action w Hw Hf tt w').
Qed.

(** ** Theorems *)

(** C21: in every history, whatever fails, the admission sees the protection's state; the
    switch is armed only while the realised loss of the day is below the limit and no halt
    action is pending; and a halt whose actions are not recorded has its retry pending. *)
Theorem armed_only_within_limit w :
  loss_reachable w →
  admission_state w = state (protection w) ∧
  (state (protection w) = KsArmed →
     realized_loss_breached (protection w) = false ∧ pending_halt_actions (protection w) = None) ∧
  (∀ id t, state (protection w) = KsHalting id t →
     ∃ q, pending_halt_actions (protection w) = Some q ∧ pending_state q = KsHalting id t).
Proof. by intros [[[] _] _]%loss_reachable_ok. Qed.

(** C23: recording a realised figure on an armed switch, of the day and in the currency it is
    counting, adds it to the day's figure.  At the limit the switch leaves the armed state
    under the identifier of this observation: when the halt cannot be written it needs
    manual intervention with nothing emitted; otherwise the flatten action is emitted and
    the switch halted, or, when the sink refuses the action, it stays halting with the
    retry scheduled, and a failure of the write that follows either of these makes it
    manual intervention.  Below the limit it stays armed with the new figures persisted,
    or, when they cannot be persisted, needs manual intervention. *)
Theorem realized_loss_decides o total w :
  loss_reachable w → state (protection w) = KsArmed →
  daily_bucket (protection w) = Some (observed_at_unix_nanos o `div` NANOS_PER_UTC_DAY) →
  settlement_currency (protection w) = Some (observation_currency o) →
  d_checked_add (daily_realized_pnl (protection w)) (realized_pnl o) = Some total →
  runs (record_realized_pnl sha256_hex debug_transition_error store_io emit_io o) w
    (record_outcome sha256_hex store_io emit_io o total w).
Proof.
  intros [Hw _]%loss_reachable_ok Ha Hb Hc Hadd. unfold record_realized_pnl, record_observation. lp_steps.
  rewrite Ha. cbn [is_armed negb]. lp_steps. unfold accept_observation_bucket. lp_steps. rewrite Hb.
  rewrite Z.ltb_irrefl, Z.eqb_refl. lp_steps. cbn [negb]. lp_steps. unfold guard_settlement_currency. lp_steps. rewrite Hc.
  rewrite decide_True by done. lp_steps. eapply runs_mono; [by apply record_current_runs|].
  by intros r w' [_ ?].
Qed.

(** C24: a poll of a halt whose actions are pending does nothing before the retry time;
    after the deadline it latches the failure and emits nothing; in between it offers the
    flatten action to the sink once, and what follows is fixed by the sink and by the
    write: taken and written, the halt is recorded; refused and written, it is scheduled
    again with the same deadline; only a failed write makes it manual intervention.  The
    halt keeps its identifier throughout. *)
Theorem pending_halt_resolves observed_at id t w :
  loss_reachable w → state (protection w) = KsHalting id t →
  ∃ q, pending_halt_actions (protection w) = Some q ∧
    runs (poll_pending_halt_actions sha256_hex debug_transition_error store_io emit_io observed_at) w
      (poll_outcome store_io emit_io observed_at id t q w).
Proof.
  intros [Hw _]%loss_reachable_ok Hst. destruct (core_halting _ (proj1 Hw) id t Hst) as (q & Hq & Hqs).
  exists q. split; [done|]. eapply runs_mono; [apply poll_halting_runs; try done; by rewrite Hst|].
  by intros r w' (_ & _ & ?).
Qed.

(** Restart attempts one after the other, with their results. *)
Fixpoint restarts (attempts : list (KillSwitchLossProtectionConfig D * Z))
    : Rust LossWorld (list (Result KillSwitchState text)) :=
  match attempts with
  | [] => mret []
  | (config, clock) :: attempts =>
      r ← restart sha256_hex debug_transition_error store_io emit_io config clock;
      rs ← restarts attempts;
      mret (r :: rs)
  end.

Lemma restart_stays_halted config clock w :
  store_reliable store_io → file_ok (store_file w) → recovered_from w ≠ KsArmed →
  runs (restart sha256_hex debug_transition_error store_io emit_io config clock) w (λ r w',
    file_ok (store_file w') ∧ recovered_from w' ≠ KsArmed ∧
    ∀ s, r = Ok s → s ≠ KsArmed ∧ admission_state w' = s).
Proof.
  intros Hrel Hf Hrec. destruct (store_io (store_operations w)) as [|e b] eqn:Hio.
  - eapply runs_mono; [by apply restart_runs|]. intros r w' ([[] Hd] & Hna & _ & Hr).
    specialize (Hna Hrec). split_and!; [done|by apply Hd|]. intros s ->. rewrite core_sync, <-Hr. done.
  - eapply runs_mono; [by eapply restart_load_failed|]. intros r w' ([[] _] & Hfile & e' & ->).
    split_and!; [done| |done]. unfold recovered_from. by rewrite Hfile.
Qed.

Lemma restarts_stay_halted attempts w :
  store_reliable store_io → file_ok (store_file w) → recovered_from w ≠ KsArmed →
  runs (restarts attempts) w (λ rs w', recovered_from w' ≠ KsArmed ∧ Ok KsArmed ∉ rs).
Proof.
  intros Hrel. revert w. induction attempts as [|[config clock] attempts IH]; intros w Hf Hrec; simpl.
  { lp_steps. split; [done|]. apply not_elem_of_nil. }
  lp_steps. eapply runs_mono; [by apply restart_stays_halted|]. intros r w1 (Hf1 & Hrec1 & Hr).
  lp_steps. eapply runs_mono; [by apply IH|]. intros rs w2 [Hrec2 Hrs]. lp_steps. split; [done|].
  apply not_elem_of_cons. split; [|done]. intros Heq. by destruct (Hr KsArmed (eq_sym Heq)).
Qed.

(** C22: once the switch has left the armed state, no sequence of restarts arms it again,
    as long as no two store operations in a row fail: every restart returns, and none of
    them reports an armed switch. *)
Theorem restart_never_rearms attempts w :
  store_reliable store_io → loss_reachable w → state (protection w) ≠ KsArmed →
  runs (restarts attempts) w (λ rs w', recovered_from w' ≠ KsArmed ∧ Ok KsArmed ∉ rs).
Proof.
  intros Hrel [[[] Hd] _]%loss_reachable_ok Hna. by apply restarts_stay_halted; [| |apply Hd].
Qed.

(** ** The round trip through the store *)

Lemma restore_persisted_pnl (o : option (CumulativePositionPnl D)) :
  ((λ v, mkPersistedPnl (d_to_string (cumulative_pnl v)) (last_observed_at_unix_nanos v)) <$> o)
    ≫= restore_pnl = o.
Proof. destruct o as [[pnl t]|]; [|done]. simpl. unfold restore_pnl. simpl. by rewrite d_text_round_trip. Qed.

Lemma restore_persisted_map (m : gmap text (CumulativePositionPnl D)) :
  restore_pnl_map (persist_pnl_map m) = Ok m.
Proof.
  unfold restore_pnl_map, persist_pnl_map. rewrite bool_decide_true.
  - f_equal. apply map_eq. intros k. rewrite lookup_omap, lookup_fmap.
    apply restore_persisted_pnl.
  - intros k v. rewrite lookup_fmap. intros (v' & _ & ->)%fmap_Some.
    unfold restore_pnl. simpl. rewrite d_text_round_trip. by eauto.
Qed.

Lemma restore_persisted_snapshot p :
  figures_wf p →
  restore_snapshot (C := C) (persist_snapshot (loss_snapshot_of p)) = Ok (loss_snapshot_of p).
Proof.
  intros [Hdj Hcur]. unfold restore_snapshot, persist_snapshot.
  cbn [persisted_daily_realized_pnl persisted_cumulative_position_pnl persisted_closed_position_pnl
       persisted_adjusted_position_pnl persisted_settlement_currency persisted_pending_halt_actions
       persisted_daily_bucket].
  rewrite !restore_persisted_map, d_text_round_trip. cbn [ok_or result_bind loss_snapshot_of snapshot_cumulative_position_pnl
    snapshot_closed_position_pnl].
  rewrite (proj2 (keys_overlap_false _ _) Hdj). cbn [negb ensure result_bind].
  unfold loss_snapshot_of, restore_currency.
  destruct (settlement_currency p) as [c|]; simpl.
  - destruct (currency_code_trimmed c) as [-> Ht]. rewrite Ht, bool_decide_true by done. simpl.
    by rewrite currency_round_trip.
  - destruct (Hcur eq_refl) as (Hz & Hcu & Hcl & Had). rewrite Hz, !bool_decide_true by done. done.
Qed.

(** What the protection persists is what a restart reads: from a file that holds the
    snapshot of a reachable protection, a restart that can read the store returns with the
    same figures, day, currency and position records. *)
Lemma restart_restores_figures clock w :
  loss_reachable w →
  store_file w = FileRecord (state (protection w)) (Some (persist_snapshot (loss_snapshot_of (protection w)))) →
  store_io (store_operations w) = StoreDone →
  runs (restart sha256_hex debug_transition_error store_io emit_io (config (protection w)) clock) w
    (λ r w', figures (protection w') = figures (protection w)).
Proof.
  intros [[[] Hd] Hwf]%loss_reachable_ok Hfile Hio. eapply runs_mono; [by apply restart_runs|].
  intros r w' (_ & _ & Hfig & _). rewrite (Hfig (loss_snapshot_of (protection w))).
  - unfold restored_figures, figures. simpl. f_equal.
    destruct (settlement_currency (protection w)); [|done]. simpl. apply currency_round_trip.
  - rewrite Hfile. simpl. rewrite (restore_persisted_snapshot _ Hwf). by destruct (state (protection w)).
Qed.

(** An observation of a position that was recorded while the switch stayed armed is
    counted once: recording it again returns nothing new and changes nothing, neither in
    memory nor in the store. *)
Lemma replayed_observation_ignored observation w r w1 :
  loss_reachable w → d_exact (realized_pnl (observed observation)) →
  record_position_realized_pnl sha256_hex debug_transition_error store_io emit_io observation w = Some (Ok r, w1) →
  state (protection w1) = KsArmed →
  record_position_realized_pnl sha256_hex debug_transition_error store_io emit_io observation w1 =
  Some (Ok None, w1).
Proof.
  intros [Hw _]%loss_reachable_ok Hd Hrec Ha.
  pose proof (record_position_counts _ _ _ _ observation w Hw Hd _ _ Hrec r eq_refl Ha) as Hc.
  destruct (counted_ignored sha256_hex debug_transition_error store_io emit_io observation w1 Ha Hc)
    as (r' & w' & Heq & -> & ->). done.
Qed.

End Safety.

(** ** Concrete histories *)

Inductive demo_currency : Type := DemoUsd | DemoEur.

#[global] Instance demo_currency_ops : CurrencyOps demo_currency.
Proof.
  refine {|
    currency_code := λ c, match c with DemoUsd => lit "USD" | DemoEur => lit "EUR" end;
    currency_try_from_str := λ s,
      if bool_decide (s = lit "USD") then Some DemoUsd
      else if bool_decide (s = lit "EUR") then Some DemoEur else None |}.
  intros a b. unfold Decision. decide equality.
Defined.

#[global] Instance demo_currency_laws : CurrencyLaws demo_currency.
Proof. split; [by intros []|by intros []]. Qed.

Definition demo_loss_config : KillSwitchLossProtectionConfig Z :=
  mkProtectionConfig 100 1 10 [lit "ACC"] [lit "INS"].

Definition demo_loss_world : @LossWorld Z demo_currency :=
  mkLossWorld (protection_new demo_loss_config) KsArmed FileMissing 0 0 [].

Definition demo_pnl (t pnl : Z) : RealizedPnlObservation Z demo_currency :=
  mkObservation (lit "fills") t pnl DemoUsd.

Definition demo_position (t pnl : Z) : PositionRealizedPnlObservation Z demo_currency :=
  mkPositionObservation (lit "ACC") (lit "INS") (lit "P-1") None (demo_pnl t pnl) true false.

(** No store operation fails; the first emission fails when [flaky]. *)
Definition demo_store (_ : nat) : StoreOutcome := StoreDone.
Definition demo_sink (flaky : bool) (n : nat) : option text :=
  if flaky && Nat.eqb n 0 then Some (lit "sink") else None.

Definition demo_perform (flaky : bool) :=
  perform (D := Z) (C := demo_currency) (λ b, b) (λ _, []) demo_store (demo_sink flaky).

(** The world after a history, or the start when it panics. *)
Definition demo_after (flaky : bool) (actions : list LossAction) : LossWorld :=
  from_option id demo_loss_world
    (foldl (λ w a, w ← w; snd <$> demo_perform flaky a w) (Some demo_loss_world) actions).

Definition demo_reach (flaky : bool) (w : LossWorld) : Prop :=
  loss_reachable (D := Z) (C := demo_currency) (λ b, b) (λ _, []) demo_store (demo_sink flaky) w.

Lemma demo_reach_start flaky : demo_reach flaky demo_loss_world.
Proof. apply reach_start. by exists demo_loss_config. Qed.

Definition demo_small_loss : LossWorld := demo_after false [RecordRealized (demo_pnl 5 (-10))].
Definition demo_halting : LossWorld := demo_after true [RecordRealized (demo_pnl 5 (-100))].

Lemma demo_small_loss_reach : demo_reach false demo_small_loss.
Proof.
  apply (reach_action _ _ _ _ demo_loss_world (RecordRealized (demo_pnl 5 (-10)))); [apply demo_reach_start|].
  vm_compute. reflexivity.
Qed.

Lemma demo_halting_reach : demo_reach true demo_halting.
Proof.
  apply (reach_action _ _ _ _ demo_loss_world (RecordRealized (demo_pnl 5 (-100)))); [apply demo_reach_start|].
  vm_compute. reflexivity.
Qed.

Lemma armed_only_within_limit_witness :
  admission_state demo_small_loss = state (protection demo_small_loss).
Proof. apply (armed_only_within_limit _ _ _ _ demo_small_loss demo_small_loss_reach). Defined.

Lemma realized_loss_decides_witness :
  runs (record_realized_pnl (λ b, b) (λ _, []) demo_store (demo_sink false) (demo_pnl 7 (-95))) demo_small_loss
    (record_outcome (λ b, b) demo_store (demo_sink false) (demo_pnl 7 (-95)) (-105) demo_small_loss).
Proof.
  apply (realized_loss_decides _ _ _ _ (demo_pnl 7 (-95)) (-105) demo_small_loss demo_small_loss_reach);
    vm_compute; reflexivity.
Defined.

Lemma pending_halt_resolves_witness :
  ∃ q, pending_halt_actions (protection demo_halting) = Some q ∧
    runs (poll_pending_halt_actions (λ b, b) (λ _, []) demo_store (demo_sink true) 2000000) demo_halting
      (poll_outcome demo_store (demo_sink true) 2000000
         (loss_halt_id (λ b, b) (lit "fills") 5) (loss_trigger (lit "fills") 5) q demo_halting).
Proof.
  apply (pending_halt_resolves _ _ _ _ 2000000 (loss_halt_id (λ b, b) (lit "fills") 5)
    (loss_trigger (lit "fills") 5) demo_halting demo_halting_reach). vm_compute. reflexivity.
Defined.

Lemma restart_never_rearms_witness :
  runs (restarts (λ b, b) (λ _, []) demo_store (demo_sink true) [(demo_loss_config, 9); (demo_loss_config, 11)])
    demo_halting (λ rs w', recovered_from w' ≠ KsArmed ∧ Ok KsArmed ∉ rs).
Proof.
  apply (restart_never_rearms _ _ _ _ [(demo_loss_config, 9); (demo_loss_config, 11)] demo_halting).
  - intros k e b Hk. discriminate Hk.
  - exact demo_halting_reach.
  - vm_compute. discriminate.
Defined.

Lemma restart_restores_figures_witness :
  runs (restart (λ b, b) (λ _, []) demo_store (demo_sink false) demo_loss_config 9) demo_small_loss
    (λ r w', figures (protection w') = figures (protection demo_small_loss)).
Proof.
  apply (restart_restores_figures _ _ _ _ 9 demo_small_loss demo_small_loss_reach); vm_compute; reflexivity.
Defined.

Lemma replayed_observation_ignored_witness :
  record_position_realized_pnl (λ b, b) (λ _, []) demo_store (demo_sink false) (demo_position 6 (-20))
    (demo_after false [RecordPosition (demo_position 6 (-20))]) =
  Some (Ok None, demo_after false [RecordPosition (demo_position 6 (-20))]).
Proof.
  apply (replayed_observation_ignored _ _ _ _ (demo_position 6 (-20)) demo_loss_world None
    (demo_after false [RecordPosition (demo_position 6 (-20))]) (demo_reach_start false));
    [by vm_compute|vm_compute; reflexivity..].
Defined.
