(* ===== verification/LossHaltActions.v ===== *)
(** * Loss governor: halt actions and manual recovery

    Models [src/src/bolt_v3_loss_halt_actions.rs] and what the node does with it:
    the halt action handler of [src/src/bolt_v3_live_node/risk_admission_loss.rs] and
    [apply_loss_governor_manual_recovery] of [src/src/bolt_v3_live_node.rs], both on the
    trading state of the platform's risk engine.  The evaluation of the loss governor may
    panic ([None]) on a decimal overflow. *)

From Stdlib Require Import ZArith Lia.
From stdpp Require Import sorting strings gmap numbers list.
From S2P Require Import Prelude.
From S2P Require Import RustText.
From S2P Require Import DecimalAmount.
From S2P Require Import NtTypes.
From S2P Require Import LossGovernor.
From S2P Require Import KillSwitch.
From S2P Require Import LossProtection.

Open Scope Z_scope.

(** ** Data *)

Inductive LossGovernorTradingStateAction : Type :=
| ActionNone
| ActionReducing
| ActionHalted.

Definition as_trading_state (a : LossGovernorTradingStateAction) : option TradingState :=
  match a with
  | ActionNone => None
  | ActionReducing => Some TradingReducing
  | ActionHalted => Some TradingHalted
  end.

Inductive LossGovernorRecoveryMode : Type := RecoveryManual.

Record LossGovernorHaltActionPolicy : Type := mkHaltActionPolicy {
  on_loss_breach_trading_state : LossGovernorTradingStateAction;
  on_untrusted_snapshot_trading_state : LossGovernorTradingStateAction;
  recovery_mode : LossGovernorRecoveryMode;
  manual_recovery_evidence_max_path_bytes : Z;
}.

Record LossGovernorManualRecoveryEvidence : Type := mkRecoveryEvidence {
  recovery_operator_id : text;
  recovery_evidence_path : text;
  recovery_evidence_sha256 : text;
  recovery_observed_at_ns : Z;
}.

Inductive LossGovernorManualRecoveryEvidenceError : Type :=
| RecoveryMissingOperatorId
| InvalidEvidencePathLimit
| EmptyEvidencePath
| EvidencePathTooLong
| AbsoluteEvidencePath
| ParentEvidencePath
| RecoveryInvalidEvidenceSha256
| MissingObservedAt.

Definition validate_recovery_evidence_path (path : text) (max_bytes : Z)
    : Result unit LossGovernorManualRecoveryEvidenceError :=
  if max_bytes =? 0 then Err InvalidEvidencePathLimit
  else if is_empty path then Err EmptyEvidencePath
  else if max_bytes <? len path then Err EvidencePathTooLong
  else if path_is_absolute path then Err AbsoluteEvidencePath
  else if has_parent_dir path then Err ParentEvidencePath
  else Ok tt.

(** [LossGovernorManualRecoveryEvidence::validate]. *)
Definition recovery_evidence_validate (e : LossGovernorManualRecoveryEvidence) (max_bytes : Z)
    : Result unit LossGovernorManualRecoveryEvidenceError :=
  if blank (recovery_operator_id e) then Err RecoveryMissingOperatorId
  else if negb (is_sha256_hex_digest (recovery_evidence_sha256 e)) then Err RecoveryInvalidEvidenceSha256
  else if recovery_observed_at_ns e =? 0 then Err MissingObservedAt
  else validate_recovery_evidence_path (recovery_evidence_path e) max_bytes.

(** [LossGovernorManualRecoveryEvidence::new]. *)
Definition recovery_evidence_new (operator path sha256 : text) (observed_at max_bytes : Z)
    : Result LossGovernorManualRecoveryEvidence LossGovernorManualRecoveryEvidenceError :=
  let evidence := mkRecoveryEvidence operator path sha256 observed_at in
  recovery_evidence_validate evidence max_bytes;;?
  Ok evidence.

(** ** Severity *)

(** The derived order of [TradingStateSeverity]. *)
Definition trading_state_severity (s : TradingState) : Z :=
  match s with TradingActive => 0 | TradingReducing => 1 | TradingHalted => 2 end.

Definition trading_state_action_severity (a : LossGovernorTradingStateAction) : Z :=
  match a with ActionNone => 0 | ActionReducing => 1 | ActionHalted => 2 end.

Definition strongest_trading_state_action (current candidate : LossGovernorTradingStateAction)
    : LossGovernorTradingStateAction :=
  if trading_state_action_severity current <? trading_state_action_severity candidate
  then candidate else current.

(** The action of one reason. *)
Definition reason_action (p : LossGovernorHaltActionPolicy) (r : LossHaltReason)
    : LossGovernorTradingStateAction :=
  match r with
  | StaleLossSnapshot => on_untrusted_snapshot_trading_state p
  | PerTradeLossLimit | DailyLossLimit | RollingLossLimit | MaxDrawdownLimit =>
      on_loss_breach_trading_state p
  end.

Definition loss_governor_trading_state_action_for_reasons (p : LossGovernorHaltActionPolicy)
    (reasons : list LossHaltReason) : LossGovernorTradingStateAction :=
  if is_empty reasons then ActionNone
  else foldl (λ action r, strongest_trading_state_action action (reason_action p r)) ActionNone reasons.

Definition next_loss_governor_halt_action (p : LossGovernorHaltActionPolicy) (current : TradingState)
    (d : LossAdmissionDecision) : option TradingState :=
  if loss_accepted d then None
  else
    match as_trading_state (loss_governor_trading_state_action_for_reasons p (halt_reasons d)) with
    | Some target =>
        if trading_state_severity current <? trading_state_severity target then Some target else None
    | None => None
    end.

Definition next_loss_governor_trading_state (p : LossGovernorHaltActionPolicy) (current : TradingState)
    (d : LossAdmissionDecision) : option TradingState := next_loss_governor_halt_action p current d.

(** ** Manual recovery *)

Inductive LossGovernorClockManualRecoveryRefusal : Type :=
| IneligibleTradingState (current : TradingState)
| LegacyStoreMissingTriggerReason
| FutureDatedTrigger (trigger_observed_at now : Z)
| StaleEvidence (evidence_observed_at trigger_observed_at : Z)
| FutureDatedEvidence (evidence_observed_at now : Z)
| DailyWindowStillOpen (trigger_observed_at now : Z)
| RollingWindowStillOpen (trigger_observed_at now rolling_window : Z)
| RuntimePathRequired (trigger_reason : LossHaltReason)
| RefusedRecoveryMode (mode : LossGovernorRecoveryMode)
| InvalidRecoveryEvidence
| InvalidRollingWindow.

Record LossGovernorClockManualRecoveryRequest : Type := mkClockRecoveryRequest {
  clock_policy : LossGovernorHaltActionPolicy;
  clock_current_state : TradingState;
  clock_trigger_reason : option LossHaltReason;
  clock_trigger_observed_at_ns : Z;
  clock_now_ns : Z;
  clock_rolling_window_ns : Z;
  clock_evidence : option LossGovernorManualRecoveryEvidence;
  clock_max_evidence_path_bytes : Z;
}.

Definition halted_or_reducing (s : TradingState) : bool :=
  match s with TradingHalted | TradingReducing => true | TradingActive => false end.

Definition next_loss_governor_clock_verified_manual_recovery_trading_state
    (r : LossGovernorClockManualRecoveryRequest)
    : Result TradingState LossGovernorClockManualRecoveryRefusal :=
  let now := clock_now_ns r in
  let trigger := clock_trigger_observed_at_ns r in
  if negb (halted_or_reducing (clock_current_state r))
  then Err (IneligibleTradingState (clock_current_state r))
  else
    evidence ←? ok_or (clock_evidence r) InvalidRecoveryEvidence;
    if negb (is_ok (recovery_evidence_validate evidence (clock_max_evidence_path_bytes r)))
    then Err InvalidRecoveryEvidence
    else if now <? trigger then Err (FutureDatedTrigger trigger now)
    else if now <? recovery_observed_at_ns evidence
    then Err (FutureDatedEvidence (recovery_observed_at_ns evidence) now)
    else if recovery_observed_at_ns evidence <? trigger
    then Err (StaleEvidence (recovery_observed_at_ns evidence) trigger)
    else
      match clock_trigger_reason r with
      | None => Err LegacyStoreMissingTriggerReason
      | Some DailyLossLimit =>
          if trigger `div` NANOS_PER_UTC_DAY <? now `div` NANOS_PER_UTC_DAY then Ok TradingActive
          else Err (DailyWindowStillOpen trigger now)
      | Some RollingLossLimit =>
          if clock_rolling_window_ns r =? 0 then Err InvalidRollingWindow
          else if clock_rolling_window_ns r <? now - trigger then Ok TradingActive
          else Err (RollingWindowStillOpen trigger now (clock_rolling_window_ns r))
      | Some reason => Err (RuntimePathRequired reason)
      end.

Section Node.
Context {D : Type} `{DecimalOps D}.

Record LossGovernorManualRecoveryRequest : Type := mkRecoveryRequest {
  recovery_policy : LossGovernorHaltActionPolicy;
  recovery_current_state : TradingState;
  recovery_decision : LossAdmissionDecision;
  recovery_snapshot : option (LossSnapshot D);
  recovery_now_ns : Z;
  recovery_max_snapshot_age_ns : Z;
  recovery_evidence : option LossGovernorManualRecoveryEvidence;
  recovery_max_evidence_path_bytes : Z;
}.

Definition next_loss_governor_manual_recovery_trading_state (r : LossGovernorManualRecoveryRequest)
    : option TradingState :=
  if negb (halted_or_reducing (recovery_current_state r)) then None
  else if negb (loss_accepted (recovery_decision r)) || (recovery_max_snapshot_age_ns r =? 0) then None
  else
    snapshot ← recovery_snapshot r;
    if is_none (snapshot_source snapshot) || (recovery_now_ns r <? snapshot_observed_at_ns snapshot)
    then None
    else if recovery_max_snapshot_age_ns r <? recovery_now_ns r - snapshot_observed_at_ns snapshot
    then None
    else
      evidence ← recovery_evidence r;
      if negb (is_ok (recovery_evidence_validate evidence (recovery_max_evidence_path_bytes r))) then None
      else if recovery_now_ns r <? recovery_observed_at_ns evidence then None
      else if recovery_observed_at_ns evidence <? snapshot_observed_at_ns snapshot then None
      else Some TradingActive.

(** [loss_governor_halt_action_handler]: the trading state after one invocation. *)
Definition loss_governor_halt_action_handler (loss_policy : LossGovernorPolicy D)
    (action_policy : LossGovernorHaltActionPolicy) (snapshot : option (LossSnapshot D)) (now : Z)
    (observations : LossSourceObservationTimestamps) (current : TradingState) : option TradingState :=
  decision ← evaluate_loss_admission_with_observations loss_policy snapshot now observations;
  Some (if bool_decide (current = TradingActive) && loss_accepted decision then current
        else default current (next_loss_governor_trading_state action_policy current decision)).

(** [apply_loss_governor_manual_recovery], with the policies configured: what it returns
    and the trading state it leaves. *)
Definition apply_loss_governor_manual_recovery (loss_policy : LossGovernorPolicy D)
    (action_policy : LossGovernorHaltActionPolicy) (snapshot : option (LossSnapshot D))
    (evidence : LossGovernorManualRecoveryEvidence) (now : Z) (current : TradingState)
    : option (option TradingState * TradingState) :=
  decision ← evaluate_loss_admission loss_policy snapshot now;
  match next_loss_governor_manual_recovery_trading_state
          (mkRecoveryRequest action_policy current decision snapshot now
             (policy_max_snapshot_age_ns loss_policy) (Some evidence)
             (manual_recovery_evidence_max_path_bytes action_policy)) with
  | Some target => Some (Some target, target)
  | None => Some (None, current)
  end.

(** ** The severity a refusal leads to *)

Lemma severity_strongest a b :
  trading_state_action_severity (strongest_trading_state_action a b) =
  Z.max (trading_state_action_severity a) (trading_state_action_severity b).
Proof.
  unfold strongest_trading_state_action.
  destruct (Z.ltb_spec (trading_state_action_severity a) (trading_state_action_severity b)); lia.
Qed.

Lemma action_for_reasons_severity p reasons n :
  0 < n →
  n ≤ trading_state_action_severity (loss_governor_trading_state_action_for_reasons p reasons) ↔
  ∃ r, r ∈ reasons ∧ n ≤ trading_state_action_severity (reason_action p r).
Proof.
  intros Hn. unfold loss_governor_trading_state_action_for_reasons.
  transitivity (n ≤ trading_state_action_severity
    (foldl (λ action r, strongest_trading_state_action action (reason_action p r)) ActionNone reasons)).
  { by destruct reasons. }
  assert (Hgen : ∀ acc, n ≤ trading_state_action_severity
      (foldl (λ action r, strongest_trading_state_action action (reason_action p r)) acc reasons) ↔
    n ≤ trading_state_action_severity acc ∨
    ∃ r, r ∈ reasons ∧ n ≤ trading_state_action_severity (reason_action p r)).
  { induction reasons as [|r reasons IH]; intros acc; simpl; [set_solver|].
    rewrite IH, severity_strongest, Z.max_le_iff. set_solver. }
  rewrite Hgen. simpl. split; [intros [?|?]; [lia|done]|by right].
Qed.

Lemma as_trading_state_severity a :
  match as_trading_state a with
  | Some s => trading_state_severity s = trading_state_action_severity a
  | None => trading_state_action_severity a = 0
  end.
Proof. by destruct a. Qed.

Lemma next_state_severity p current d :
  loss_accepted d = false →
  trading_state_severity (default current (next_loss_governor_trading_state p current d)) =
  Z.max (trading_state_severity current)
    (trading_state_action_severity (loss_governor_trading_state_action_for_reasons p (halt_reasons d))).
Proof.
  unfold next_loss_governor_trading_state, next_loss_governor_halt_action. intros ->.
  pose proof (as_trading_state_severity
    (loss_governor_trading_state_action_for_reasons p (halt_reasons d))) as Hs.
  assert (0 ≤ trading_state_severity current) by by destruct current.
  destruct (as_trading_state _) as [target|]; simpl; [|lia].
  destruct (Z.ltb_spec (trading_state_severity current) (trading_state_severity target)); simpl; lia.
Qed.

Lemma handler_severity loss_policy action_policy snapshot now observations current next :
  loss_governor_halt_action_handler loss_policy action_policy snapshot now observations current = Some next →
  ∃ d, evaluate_loss_admission_with_observations loss_policy snapshot now observations = Some d ∧
    (loss_accepted d = true → next = current) ∧
    (loss_accepted d = false → trading_state_severity next =
       Z.max (trading_state_severity current)
         (trading_state_action_severity
            (loss_governor_trading_state_action_for_reasons action_policy (halt_reasons d)))).
Proof.
  intros (d & Hd & [= <-])%bind_Some. exists d. split; [done|].
  destruct (loss_accepted d) eqn:Hacc.
  - assert (default current (next_loss_governor_trading_state action_policy current d) = current) as ->.
    { unfold next_loss_governor_trading_state, next_loss_governor_halt_action. by rewrite Hacc. }
    by destruct (_ && _).
  - rewrite andb_false_r. split; [done|]. intros _. by apply next_state_severity.
Qed.

Lemma handler_never_lowers loss_policy action_policy snapshot now observations current next :
  loss_governor_halt_action_handler loss_policy action_policy snapshot now observations current = Some next →
  trading_state_severity current ≤ trading_state_severity next.
Proof.
  intros (d & _ & Hacc & Href)%handler_severity. destruct (loss_accepted d); [by rewrite Hacc|].
  specialize (Href eq_refl). lia.
Qed.

(** An invocation of the halt action handler never lowers the severity of the trading state,
    leaves it alone when the loss governor accepts, and on a refusal raises it exactly as
    far as the policy of some reason of the refusal demands. *)
Lemma halt_handler_escalates loss_policy action_policy snapshot now observations current next :
  loss_governor_halt_action_handler loss_policy action_policy snapshot now observations current = Some next →
  ∃ d, evaluate_loss_admission_with_observations loss_policy snapshot now observations = Some d ∧
    (loss_accepted d = true → next = current) ∧
    (loss_accepted d = false → ∀ n, 0 < n →
       n ≤ trading_state_severity next ↔
       n ≤ trading_state_severity current ∨
       ∃ r, r ∈ halt_reasons d ∧ n ≤ trading_state_action_severity (reason_action action_policy r)) ∧
    trading_state_severity current ≤ trading_state_severity next.
Proof.
  intros Hn. pose proof (handler_never_lowers _ _ _ _ _ _ _ Hn) as Hle.
  destruct (handler_severity _ _ _ _ _ _ _ Hn) as (d & Hd & Hacc & Href).
  exists d. split_and!; [done|done| |done]. intros Hr n Hpos.
  by rewrite (Href Hr), Z.max_le_iff, action_for_reasons_severity.
Qed.

(** ** The only way back to active *)

(** What a recovery needs: a governor that accepts the snapshot it is shown, a snapshot
    that has a source and is not old, and evidence that is well formed and was taken
    between the snapshot and now. *)
Definition recovery_justified (loss_policy : LossGovernorPolicy D)
    (action_policy : LossGovernorHaltActionPolicy) (snapshot : option (LossSnapshot D))
    (evidence : LossGovernorManualRecoveryEvidence) (now : Z) : Prop :=
  ∃ d s, evaluate_loss_admission loss_policy snapshot now = Some d ∧ loss_accepted d = true ∧
    snapshot = Some s ∧ is_Some (snapshot_source s) ∧
    now - snapshot_observed_at_ns s ≤ policy_max_snapshot_age_ns loss_policy ∧
    0 ≠ policy_max_snapshot_age_ns loss_policy ∧
    snapshot_observed_at_ns s ≤ recovery_observed_at_ns evidence ≤ now ∧
    recovery_evidence_validate evidence (manual_recovery_evidence_max_path_bytes action_policy) = Ok tt.

Lemma apply_manual_recovery_spec loss_policy action_policy snapshot evidence now current res next :
  apply_loss_governor_manual_recovery loss_policy action_policy snapshot evidence now current =
    Some (res, next) →
  (next = current ∧ res = None) ∨
  (next = TradingActive ∧ res = Some TradingActive ∧ current ≠ TradingActive ∧
   recovery_justified loss_policy action_policy snapshot evidence now).
Proof.
  intros (d & Hd & Hres)%bind_Some. unfold next_loss_governor_manual_recovery_trading_state in Hres. simpl in Hres.
  destruct (halted_or_reducing current) eqn:Hcur; simpl in Hres; [|simplify_eq; by left].
  destruct (loss_accepted d) eqn:Hacc; simpl in Hres; [|simplify_eq; by left].
  destruct (Z.eqb_spec (policy_max_snapshot_age_ns loss_policy) 0); [simplify_eq; by left|].
  destruct snapshot as [s|]; simpl in Hres; [|simplify_eq; by left].
  destruct (snapshot_source s) as [src|] eqn:Hsrc; simpl in Hres; [|simplify_eq; by left].
  destruct (Z.ltb_spec now (snapshot_observed_at_ns s)); [simplify_eq; by left|].
  destruct (Z.ltb_spec (policy_max_snapshot_age_ns loss_policy) (now - snapshot_observed_at_ns s));
    [simplify_eq; by left|].
  destruct (recovery_evidence_validate _ _) as [[]|] eqn:Hv; simpl in Hres; [|simplify_eq; by left].
  destruct (Z.ltb_spec now (recovery_observed_at_ns evidence)); [simplify_eq; by left|].
  destruct (Z.ltb_spec (recovery_observed_at_ns evidence) (snapshot_observed_at_ns s)); [simplify_eq; by left|].
  simplify_eq. right. split; [done|]. split; [done|]. split; [by intros ->|].
  exists d, s. rewrite Hsrc. repeat split; eauto; lia.
Qed.

(** One invocation of the handler, or one request for a manual recovery. *)
Inductive NodeEvent : Type :=
| HandlerInvoked (snapshot : option (LossSnapshot D)) (now : Z)
    (observations : LossSourceObservationTimestamps)
| RecoveryRequested (snapshot : option (LossSnapshot D))
    (evidence : LossGovernorManualRecoveryEvidence) (now : Z).

Definition node_step (loss_policy : LossGovernorPolicy D) (action_policy : LossGovernorHaltActionPolicy)
    (current : TradingState) (event : NodeEvent) : option TradingState :=
  match event with
  | HandlerInvoked snapshot now observations =>
      loss_governor_halt_action_handler loss_policy action_policy snapshot now observations current
  | RecoveryRequested snapshot evidence now =>
      snd <$> apply_loss_governor_manual_recovery loss_policy action_policy snapshot evidence now current
  end.

(** The events of a run of the node, oldest first. *)
Definition node_run (loss_policy : LossGovernorPolicy D) (action_policy : LossGovernorHaltActionPolicy)
    (start : TradingState) (events : list NodeEvent) : option TradingState :=
  foldl (λ current event, current ≫= λ s, node_step loss_policy action_policy s event) (Some start) events.

Lemma node_run_snoc loss_policy action_policy start events event :
  node_run loss_policy action_policy start (events ++ [event]) =
  node_run loss_policy action_policy start events ≫= λ s, node_step loss_policy action_policy s event.
Proof. unfold node_run. by rewrite foldl_app. Qed.

Lemma node_step_back loss_policy action_policy current event :
  current ≠ TradingActive → node_step loss_policy action_policy current event = Some TradingActive →
  ∃ snapshot evidence now, event = RecoveryRequested snapshot evidence now ∧
    recovery_justified loss_policy action_policy snapshot evidence now.
Proof.
  destruct event as [snapshot now obs|snapshot evidence now]; simpl; intros Hcur Hstep.
  - apply handler_never_lowers in Hstep. by destruct current.
  - apply fmap_Some in Hstep as ([res next] & Hap & Hn). simpl in Hn. subst next.
    apply apply_manual_recovery_spec in Hap as [[E _]|(_ & _ & _ & Hj)]; [congruence|]. eauto.
Qed.

(** Over any sequence of handler invocations and recovery requests a trading state that was
    not active becomes active again only by a manual recovery among those events that was
    justified: the loss governor accepted the snapshot of that moment and the evidence is
    well formed and taken between that snapshot and the request. *)
Lemma reactivation_needs_recovery loss_policy action_policy start events :
  start ≠ TradingActive →
  node_run loss_policy action_policy start events = Some TradingActive →
  ∃ before snapshot evidence now after,
    events = before ++ RecoveryRequested snapshot evidence now :: after ∧
    recovery_justified loss_policy action_policy snapshot evidence now.
Proof.
  intros Hstart. induction events as [|event events IH] using rev_ind; [by intros [= ->]|].
  rewrite node_run_snoc. intros (s & Hrun & Hstep)%bind_Some.
  destruct (decide (s = TradingActive)) as [->|Hs].
  - destruct (IH Hrun) as (before & snapshot & evidence & now & after & -> & Hj).
    exists before, snapshot, evidence, now, (after ++ [event]). by rewrite <- app_assoc.
  - destruct (node_step_back _ _ _ _ Hs Hstep) as (snapshot & evidence & now & -> & Hj).
    exists events, snapshot, evidence, now, []. done.
Qed.

End Node.

(** ** Witnesses *)

Definition demo_action_policy : LossGovernorHaltActionPolicy :=
  mkHaltActionPolicy ActionHalted ActionReducing RecoveryManual 128.
Definition demo_recovery_evidence : LossGovernorManualRecoveryEvidence :=
  mkRecoveryEvidence (lit "op") (lit "recovery/e.json") (replicate 64 97) 550.
Definition demo_good_snapshot : LossSnapshot Z :=
  mkLossSnapshot (Some NtPortfolioSnapshot) 500 None (Some 1) None (Some 100) (Some 100) unobserved.

Lemma halt_handler_escalates_witness :
  2 ≤ trading_state_severity TradingHalted ↔
  2 ≤ trading_state_severity TradingReducing ∨
  ∃ r, r ∈ [DailyLossLimit] ∧ 2 ≤ trading_state_action_severity (reason_action demo_action_policy r).
Proof.
  destruct (halt_handler_escalates demo_loss_policy demo_action_policy (Some demo_loss_snapshot) 600
    unobserved TradingReducing TradingHalted) as (d & Hd & _ & Hr & _); [by vm_compute|].
  assert (Hd' : evaluate_loss_admission_with_observations demo_loss_policy (Some demo_loss_snapshot) 600
    unobserved = Some (mkLossDecision false [DailyLossLimit]
      (loss_snapshot_diagnostics demo_loss_policy (Some demo_loss_snapshot) 600 unobserved))) by by vm_compute.
  rewrite Hd' in Hd. injection Hd as <-. apply Hr; [done|lia].
Defined.

Lemma reactivation_needs_recovery_witness :
  ∃ before snapshot evidence now after,
    [HandlerInvoked None 510 unobserved;
     RecoveryRequested (Some demo_good_snapshot) demo_recovery_evidence 600] =
      before ++ RecoveryRequested snapshot evidence now :: after ∧
    recovery_justified demo_loss_policy demo_action_policy snapshot evidence now.
Proof. apply (reactivation_needs_recovery _ _ TradingHalted); [done|by vm_compute]. Defined.
