(* ===== verification/ManualRecovery.v ===== *)
(** * Manual recovery of a loss halt

    Models [src/src/bolt_v3_loss_governor_manual_recovery_ops.rs] and the audit of
    [src/src/bolt_v3_kill_switch_store.rs]: the operator's command that re-arms the
    durable kill switch after a loss halt, while no node runs.  The world is the store's
    file and the append-only audit file.  Whether the n-th store operation succeeds is a
    parameter, and so is what a failed one leaves behind: a failed write may have replaced
    the state file, a failed append may have left nothing, the whole line or a torn one.
    Reasons recorded in the audit are values that name the message. *)

From Stdlib Require Import ZArith Lia.
From stdpp Require Import sorting strings gmap numbers list.
From S2P Require Import Prelude.
From S2P Require Import RustText.
From S2P Require Import DecimalAmount.
From S2P Require Import NtTypes.
From S2P Require Import LossGovernor.
From S2P Require Import KillSwitch.
From S2P Require Import LossProtection.
From S2P Require Import LossHaltActions.

Open Scope Z_scope.

(** ** The store's audit *)

Inductive KillSwitchLossGovernorManualRecoveryOutcome : Type :=
| AuditAttempted
| AuditRecovered
| AuditRefusedWithReason
| AuditWriteFailed.

(** [KillSwitchStoreError], as far as it is told apart here. *)
Inductive RecoveryStoreError : Type :=
| TornManualRecoveryAudit
| OtherStoreError (debug : text).

(** What became of an append. *)
Inductive AppendOutcome : Type :=
| AppendDone
| AppendUnreadable (debug : text)
| AppendFailed (debug : text) (whole torn : bool).

(** ** Errors and reasons *)

Inductive LossGovernorManualRecoveryError : Type :=
| MissingKillSwitchConfig
| KillSwitchDisabled
| MissingLossGovernorConfig
| LossGovernorDisabled
| MissingLossGovernorField (label : text)
| InvalidManualRecoveryEvidence (error : LossGovernorManualRecoveryEvidenceError)
| UnauthorizedOperator (operator_id : text)
| StoreLoad (error : text)
| MissingStore
| StoreFailClosed (reason : KillSwitchRecoveryReason)
| RecoveryMissingLossProtectionSnapshot
| UnsupportedState (kind : KillSwitchStateKind)
| NonLossGovernorState (kind : KillSwitchStateKind)
| RecoveryRefused (reason : LossGovernorClockManualRecoveryRefusal)
| StoreWriteFailed (source : RecoveryStoreError)
| FailedStateWriteFailed (recovery_error failed_error : RecoveryStoreError)
| RepairManualRecoveryAudit.

(** The text of a reason, by what it is made of. *)
Inductive AuditReason : Type :=
| ReasonInvalidEvidence (error : LossGovernorManualRecoveryEvidenceError)
| ReasonUnauthorized
| ReasonError (error : LossGovernorManualRecoveryError)
| ReasonRefused (reason : LossGovernorClockManualRecoveryRefusal)
| ReasonWriteFailed (error : RecoveryStoreError).

Record KillSwitchLossGovernorManualRecoveryRecord : Type := mkAuditRecord {
  audit_operator_id : text;
  audit_evidence_path : text;
  audit_evidence_sha256 : text;
  audit_observed_at_ns : Z;
  audit_recorded_at_ns : Z;
  audit_outcome : option KillSwitchLossGovernorManualRecoveryOutcome;
  audit_outcome_reason : option AuditReason;
}.

Record LossGovernorManualRecoveryCommand : Type := mkRecoveryCommand {
  command_operator_id : text;
  command_evidence_path : text;
  command_evidence_sha256 : text;
  command_observed_at_ns : Z;
  command_now_ns : Z;
}.

Record LossGovernorManualRecoveryOutcome : Type := mkRecoveryOutcome {
  outcome_previous_state : KillSwitchStateKind;
  outcome_recovered_state : KillSwitchStateKind;
  outcome_manual_recovery_count : Z;
}.

(** The blocks of the configuration the command reads. *)
Record KillSwitchConfigBlock : Type := mkKillSwitchBlock {
  kill_switch_enabled : bool;
  authorized_operator_ids : list text;
}.

Record LossGovernorBlock : Type := mkLossGovernorBlock {
  loss_governor_enabled : bool;
  block_on_loss_breach_trading_state : option LossGovernorTradingStateAction;
  block_on_untrusted_snapshot_trading_state : option LossGovernorTradingStateAction;
  block_recovery_mode : option LossGovernorRecoveryMode;
  block_manual_recovery_evidence_max_path_bytes : option Z;
  block_rolling_window_ns : Z;
}.

Record RecoveryConfig : Type := mkRecoveryConfig {
  root_kill_switch : option KillSwitchConfigBlock;
  root_loss_governor : option LossGovernorBlock;
}.

Definition required_field {A} (label : text) (value : option A)
    : Result A LossGovernorManualRecoveryError := ok_or value (MissingLossGovernorField label).

Definition required_loss_governor_usize (label : text) (value : option Z)
    : Result Z LossGovernorManualRecoveryError :=
  value ←? required_field label value;
  if value =? 0 then Err (MissingLossGovernorField label) else Ok value.

Definition halt_action_policy (block : LossGovernorBlock)
    : Result LossGovernorHaltActionPolicy LossGovernorManualRecoveryError :=
  breach ←? required_field (lit "risk.loss_governor.on_loss_breach_trading_state")
              (block_on_loss_breach_trading_state block);
  untrusted ←? required_field (lit "risk.loss_governor.on_untrusted_snapshot_trading_state")
                 (block_on_untrusted_snapshot_trading_state block);
  mode ←? required_field (lit "risk.loss_governor.recovery_mode") (block_recovery_mode block);
  max ←? required_loss_governor_usize (lit "risk.loss_governor.manual_recovery_evidence_max_path_bytes")
           (block_manual_recovery_evidence_max_path_bytes block);
  Ok (mkHaltActionPolicy breach untrusted mode max).

(** ** The recoverable halt *)

Record RecoverableLossGovernorHalt : Type := mkRecoverableHalt {
  halt_current_trading_state : TradingState;
  halt_trigger_reason : option LossHaltReason;
  halt_trigger_observed_at_ns : Z;
}.

Definition loss_governor_recoverable_halt (s : KillSwitchState)
    : Result RecoverableLossGovernorHalt LossGovernorManualRecoveryError :=
  match s with
  | KsHalting _ trigger | KsHalted _ trigger =>
      match trigger_kind trigger with
      | LossGovernorBreach =>
          Ok (mkRecoverableHalt TradingReducing (loss_halt_reason trigger)
                (source_timestamp_unix_nanos trigger))
      | _ => Err (NonLossGovernorState (state_kind s))
      end
  | _ => Err (UnsupportedState (state_kind s))
  end.

(** [unreachable!] for a state that is not a halt. *)
Definition failed_manual_intervention_state (s : KillSwitchState) (reason : text)
    : option KillSwitchState :=
  match s with
  | KsHalting halt_id _ | KsHalted halt_id _ => Some (KsFailedManualIntervention halt_id reason)
  | _ => None
  end.

Definition repair_manual_recovery_audit_error (e : RecoveryStoreError)
    : option LossGovernorManualRecoveryError :=
  match e with
  | TornManualRecoveryAudit => Some RepairManualRecoveryAudit
  | OtherStoreError _ => None
  end.

Definition manual_recovery_record (e : LossGovernorManualRecoveryEvidence) (recorded_at : Z)
    (outcome : KillSwitchLossGovernorManualRecoveryOutcome) (reason : option AuditReason)
    : KillSwitchLossGovernorManualRecoveryRecord :=
  mkAuditRecord (recovery_operator_id e) (recovery_evidence_path e) (recovery_evidence_sha256 e)
    (recovery_observed_at_ns e) recorded_at (Some outcome) reason.

(** [..record] with another outcome. *)
Definition with_outcome (r : KillSwitchLossGovernorManualRecoveryRecord)
    (outcome : KillSwitchLossGovernorManualRecoveryOutcome) (reason : option AuditReason)
    : KillSwitchLossGovernorManualRecoveryRecord :=
  mkAuditRecord (audit_operator_id r) (audit_evidence_path r) (audit_evidence_sha256 r)
    (audit_observed_at_ns r) (audit_recorded_at_ns r) (Some outcome) reason.

(** ** The operations on the store *)

Record RecoveryWorld : Type := mkRecoveryWorld {
  rw_file : StoreFile;
  rw_audit : list KillSwitchLossGovernorManualRecoveryRecord;
  rw_audit_torn : bool;
  rw_operations : nat;
}.

Section Recovery.
Context {D C : Type} `{DecimalOps D} `{CurrencyOps C} `{DecimalText D}.

(** The outcome of the n-th operation, by what it is; the derived [Debug] of an error. *)
Context (write_io : nat → StoreOutcome) (load_io : nat → option text) (append_io : nat → AppendOutcome)
        (debug_store_error : RecoveryStoreError → text).

Definition append_loss_governor_manual_recovery (r : KillSwitchLossGovernorManualRecoveryRecord)
    : Rust RecoveryWorld (Result Z RecoveryStoreError) := λ w,
  let done result audit torn :=
    Some (result, mkRecoveryWorld (rw_file w) audit torn (S (rw_operations w))) in
  match append_io (rw_operations w) with
  | AppendUnreadable debug => done (Err (OtherStoreError debug)) (rw_audit w) (rw_audit_torn w)
  | io =>
      if rw_audit_torn w then done (Err TornManualRecoveryAudit) (rw_audit w) true
      else match io with
      | AppendFailed debug whole torn =>
          done (Err (OtherStoreError debug)) (if whole then rw_audit w ++ [r] else rw_audit w)
            (negb whole && torn)
      | _ =>
          done (Ok (u64_saturating_add (Z.of_nat (length (rw_audit w))) 1)) (rw_audit w ++ [r]) false
      end
  end.

Definition recovery_load_recovery_record
    : Rust RecoveryWorld (Result (KillSwitchRecoveryRecord D) text) := λ w,
  let w' := mkRecoveryWorld (rw_file w) (rw_audit w) (rw_audit_torn w) (S (rw_operations w)) in
  match load_io (rw_operations w) with
  | Some error => Some (Err error, w')
  | None => Some (Ok (recovery_record_of (rw_file w)), w')
  end.

Definition recovery_write_state (s : KillSwitchState) (loss : KillSwitchLossProtectionSnapshot D)
    : Rust RecoveryWorld (Result unit RecoveryStoreError) := λ w,
  let file := FileRecord s (Some (persist_snapshot loss)) in
  let done result file' :=
    Some (result, mkRecoveryWorld file' (rw_audit w) (rw_audit_torn w) (S (rw_operations w))) in
  match write_io (rw_operations w) with
  | StoreDone => done (Ok tt) file
  | StoreFailed debug replaced => done (Err (OtherStoreError debug)) (if replaced then file else rw_file w)
  end.

(** ** The command *)

Definition append_refused_manual_recovery_record (r : KillSwitchLossGovernorManualRecoveryRecord)
    : Rust RecoveryWorld (Result unit LossGovernorManualRecoveryError) :=
  appended ← append_loss_governor_manual_recovery r;
  mret (match appended with
        | Ok _ => Ok tt
        | Err error =>
            match repair_manual_recovery_audit_error error with
            | Some error => Err error
            | None => Ok tt
            end
        end).

Definition record_refused_manual_recovery_attempt (e : LossGovernorManualRecoveryEvidence)
    (recorded_at : Z) (refusal : AuditReason)
    : Rust RecoveryWorld (Result unit LossGovernorManualRecoveryError) :=
  append_refused_manual_recovery_record
    (manual_recovery_record e recorded_at AuditRefusedWithReason (Some refusal)).

Definition record_refused_manual_recovery_command_attempt (c : LossGovernorManualRecoveryCommand)
    (recorded_at : Z) (refusal : AuditReason)
    : Rust RecoveryWorld (Result unit LossGovernorManualRecoveryError) :=
  append_refused_manual_recovery_record
    (mkAuditRecord (command_operator_id c) (command_evidence_path c) (command_evidence_sha256 c)
       (command_observed_at_ns c) recorded_at (Some AuditRefusedWithReason) (Some refusal)).

Definition recoverable_current_state (r : KillSwitchRecoveryRecord D)
    : Result KillSwitchState LossGovernorManualRecoveryError :=
  match recovery_state r with
  | Recovered s => Ok s
  | FailClosed MissingRecoveryEvidence None => Err MissingStore
  | FailClosed UnresolvedHalt (Some s) => Ok s
  | FailClosed reason _ => Err (StoreFailClosed reason)
  end.

Definition armed_state_committed (r : KillSwitchRecoveryRecord D) : bool :=
  match recovery_state r with Recovered KsArmed => true | _ => false end.

Definition append_recovered_manual_recovery (r : KillSwitchLossGovernorManualRecoveryRecord) (count : Z)
    : Rust RecoveryWorld (Result Z LossGovernorManualRecoveryError) :=
  appended ← append_loss_governor_manual_recovery r;
  mret (match appended with Ok count => Ok count | Err _ => Ok count end).

(** The failed state, and the error that reports whether it was written. *)
Definition write_failed_state (current : KillSwitchState) (loss : KillSwitchLossProtectionSnapshot D)
    (prefix : text) (recovery_error : RecoveryStoreError)
    : Rust RecoveryWorld (Result Z LossGovernorManualRecoveryError) :=
  failed ← lift_panic (failed_manual_intervention_state current (prefix ++ debug_store_error recovery_error));
  written ← recovery_write_state failed loss;
  mret (match written with
        | Ok _ => Err (StoreWriteFailed recovery_error)
        | Err failed_error => Err (FailedStateWriteFailed recovery_error failed_error)
        end).

(** After the armed state was not written: believe the file, else fail the halt. *)
Definition armed_write_failed (current : KillSwitchState) (loss : KillSwitchLossProtectionSnapshot D)
    (attempt : KillSwitchLossGovernorManualRecoveryRecord) (count : Z) (recovery_error : RecoveryStoreError)
    : Rust RecoveryWorld (Result Z LossGovernorManualRecoveryError) :=
  loaded ← recovery_load_recovery_record;
  let committed := match loaded with Ok record => armed_state_committed record | Err _ => false end in
  if (committed : bool) then
    append_recovered_manual_recovery (with_outcome attempt AuditRecovered None) count
  else
    appended ← append_loss_governor_manual_recovery
                 (with_outcome attempt AuditWriteFailed (Some (ReasonWriteFailed recovery_error)));
    match (match appended with Err audit_error => repair_manual_recovery_audit_error audit_error
                             | Ok _ => None end) with
    | Some error => mret (Err error)
    | None =>
        write_failed_state current loss (lit "loss governor manual recovery write failed: ") recovery_error
    end.

Definition persist_manual_recovery_attempt (current : KillSwitchState)
    (loss : KillSwitchLossProtectionSnapshot D) (attempt : KillSwitchLossGovernorManualRecoveryRecord)
    : Rust RecoveryWorld (Result Z LossGovernorManualRecoveryError) :=
  appended ← append_loss_governor_manual_recovery attempt;
  match appended with
  | Err recovery_error =>
      match repair_manual_recovery_audit_error recovery_error with
      | Some error => mret (Err error)
      | None =>
          write_failed_state current loss (lit "loss governor manual recovery audit write failed: ")
            recovery_error
      end
  | Ok count =>
      written ← recovery_write_state KsArmed loss;
      match written with
      | Err recovery_error => armed_write_failed current loss attempt count recovery_error
      | Ok _ => append_recovered_manual_recovery (with_outcome attempt AuditRecovered None) count
      end
  end.

(** A refusal: recorded in the audit, then returned. *)
Definition refuse (e : LossGovernorManualRecoveryEvidence) (now : Z) (reason : AuditReason)
    (error : LossGovernorManualRecoveryError) {A : Type}
    : Rust RecoveryWorld (Result A LossGovernorManualRecoveryError) :=
  record_refused_manual_recovery_attempt e now reason ;;!
  mret (Err error).

(** From the loaded record on. *)
Definition recover_from_record (policy : LossGovernorHaltActionPolicy) (rolling_window : Z)
    (evidence : LossGovernorManualRecoveryEvidence) (now : Z) (record : KillSwitchRecoveryRecord D)
    : Rust RecoveryWorld (Result LossGovernorManualRecoveryOutcome LossGovernorManualRecoveryError) :=
  match recoverable_current_state record with
  | Err error => refuse evidence now (ReasonError error) error
  | Ok current =>
      match loss_governor_recoverable_halt current with
      | Err error => refuse evidence now (ReasonError error) error
      | Ok halt =>
          match recovery_loss_protection record with
          | None => refuse evidence now (ReasonError RecoveryMissingLossProtectionSnapshot)
                      RecoveryMissingLossProtectionSnapshot
          | Some loss =>
              match next_loss_governor_clock_verified_manual_recovery_trading_state
                      (mkClockRecoveryRequest policy (halt_current_trading_state halt)
                         (halt_trigger_reason halt) (halt_trigger_observed_at_ns halt) now rolling_window
                         (Some evidence) (manual_recovery_evidence_max_path_bytes policy)) with
              | Err reason => refuse evidence now (ReasonRefused reason) (RecoveryRefused reason)
              | Ok _ =>
                  count ←! persist_manual_recovery_attempt current loss
                             (manual_recovery_record evidence now AuditAttempted None);
                  mret (Ok (mkRecoveryOutcome (state_kind current) KindArmed count))
              end
          end
      end
  end.

Definition recover_loss_governor_manual_halt (config : RecoveryConfig)
    (command : LossGovernorManualRecoveryCommand)
    : Rust RecoveryWorld (Result LossGovernorManualRecoveryOutcome LossGovernorManualRecoveryError) :=
  match root_kill_switch config with
  | None => mret (Err MissingKillSwitchConfig)
  | Some kill_switch =>
      if negb (kill_switch_enabled kill_switch) then mret (Err KillSwitchDisabled)
      else match root_loss_governor config with
      | None => mret (Err MissingLossGovernorConfig)
      | Some loss_governor =>
          if negb (loss_governor_enabled loss_governor) then mret (Err LossGovernorDisabled)
          else match halt_action_policy loss_governor with
          | Err error => mret (Err error)
          | Ok policy =>
              match recovery_evidence_new (command_operator_id command) (command_evidence_path command)
                      (command_evidence_sha256 command) (command_observed_at_ns command)
                      (manual_recovery_evidence_max_path_bytes policy) with
              | Err error =>
                  record_refused_manual_recovery_command_attempt command (command_now_ns command)
                    (ReasonInvalidEvidence error) ;;!
                  mret (Err (InvalidManualRecoveryEvidence error))
              | Ok evidence =>
                  if negb (existsb (λ id, bool_decide (id = recovery_operator_id evidence))
                             (authorized_operator_ids kill_switch))
                  then refuse evidence (command_now_ns command) ReasonUnauthorized
                         (UnauthorizedOperator (recovery_operator_id evidence))
                  else
                    loaded ← recovery_load_recovery_record;
                    match loaded with
                    | Err error => refuse evidence (command_now_ns command) (ReasonError (StoreLoad error))
                                     (StoreLoad error)
                    | Ok record =>
                        recover_from_record policy (block_rolling_window_ns loss_governor) evidence
                          (command_now_ns command) record
                    end
              end
          end
      end
  end.

End Recovery.
