(* ===== verification/ManualRecoveryFacts.v ===== *)
(** * Manual recovery: what it may do to the durable switch

    Over every pattern of store failures: the command always returns, the audit only
    grows and names the operator of the command, the switch is re-armed on disk only when
    the configuration, the operator, the evidence, the halt and its clock allow it and
    after the attempt was recorded, and an error leaves the file as it was, failed, or, if
    the failed state could not be written either, armed.  The last theorem composes the
    command with the start of a node ([LossProtection]). *)

From Stdlib Require Import ZArith Lia.
From stdpp Require Import sorting strings gmap numbers list.
From S2P Require Import Prelude.
From S2P Require Import RustText.
From S2P Require Import DecimalAmount.
From S2P Require Import NtTypes.
From S2P Require Import LossGovernor.
From S2P Require Import KillSwitch.
From S2P Require Import LossProtection.
From S2P Require Import LossProtectionFacts.
From S2P Require Import LossProtectionSafety.
From S2P Require Import LossHaltActions.
From S2P Require Import ManualRecovery.

Open Scope Z_scope.

Section Facts.
Context {D C : Type} `{DecimalLaws D} `{CurrencyLaws C} `{DecimalTextLaws D}.
Context (write_io : nat → StoreOutcome) (load_io : nat → option text) (append_io : nat → AppendOutcome)
        (debug_store_error : RecoveryStoreError → text).
Implicit Types (w : RecoveryWorld) (loss : KillSwitchLossProtectionSnapshot D)
  (attempt : KillSwitchLossGovernorManualRecoveryRecord).

Local Abbreviation record_of := (recovery_record_of (D := D) (C := C)).
Local Abbreviation append := (append_loss_governor_manual_recovery append_io).

(** ** Store operations *)

(** [w'] is [w] with records of [command]'s operator, evidence and time appended. *)
Definition of_attempt (attempt r : KillSwitchLossGovernorManualRecoveryRecord) : Prop :=
  audit_operator_id r = audit_operator_id attempt ∧
  audit_evidence_path r = audit_evidence_path attempt ∧
  audit_evidence_sha256 r = audit_evidence_sha256 attempt ∧
  audit_observed_at_ns r = audit_observed_at_ns attempt ∧
  audit_recorded_at_ns r = audit_recorded_at_ns attempt.

Definition audit_extends attempt w w' : Prop :=
  ∃ l, rw_audit w' = rw_audit w ++ l ∧ Forall (of_attempt attempt) l.

Lemma audit_extends_refl attempt w w' : rw_audit w' = rw_audit w → audit_extends attempt w w'.
Proof. intros E. exists []. rewrite E, app_nil_r. by split. Qed.

Lemma audit_extends_trans attempt w w' w'' :
  audit_extends attempt w w' → audit_extends attempt w' w'' → audit_extends attempt w w''.
Proof.
  intros (l & E & Hl) (l' & E' & Hl'). exists (l ++ l'). rewrite E', E, app_assoc. split; [done|].
  by apply Forall_app.
Qed.

Lemma audit_extends_elem attempt w w' r :
  audit_extends attempt w w' → r ∈ rw_audit w → r ∈ rw_audit w'.
Proof. intros (l & E & _). rewrite E. set_solver. Qed.

Lemma of_attempt_outcome attempt outcome reason : of_attempt attempt (with_outcome attempt outcome reason).
Proof. done. Qed.

Lemma append_runs attempt r w (Q : Result Z RecoveryStoreError → RecoveryWorld → Prop) :
  of_attempt attempt r →
  (∀ w', audit_extends attempt w w' → rw_file w' = rw_file w →
     (∀ n, r ∈ rw_audit w' → rw_audit_torn w' = false → Q (Ok n) w') ∧
     (rw_audit_torn w = true → Q (Err TornManualRecoveryAudit) w') ∧
     (∀ debug, Q (Err (OtherStoreError debug)) w')) →
  runs (append r) w Q.
Proof.
  intros Hr HQ. unfold append_loss_governor_manual_recovery, runs.
  assert (Hkeep : ∀ torn n, audit_extends attempt w (mkRecoveryWorld (rw_file w) (rw_audit w) torn n)).
  { intros. by apply audit_extends_refl. }
  assert (Hadd : ∀ torn n, audit_extends attempt w (mkRecoveryWorld (rw_file w) (rw_audit w ++ [r]) torn n)).
  { intros. exists [r]. split; [done|]. by apply Forall_singleton. }
  assert (Hin : r ∈ rw_audit w ++ [r]) by set_solver.
  destruct (append_io (rw_operations w)) as [|debug|debug whole torn].
  - destruct (rw_audit_torn w) eqn:Ht; do 2 eexists; (split; [done|]).
    + by apply (HQ _ (Hkeep _ _)).
    + by apply (HQ _ (Hadd _ _)).
  - do 2 eexists; (split; [done|]). by apply (HQ _ (Hkeep _ _)).
  - destruct (rw_audit_torn w) eqn:Ht; do 2 eexists; (split; [done|]).
    + by apply (HQ _ (Hkeep _ _)).
    + destruct whole; [by apply (HQ _ (Hadd _ _))|by apply (HQ _ (Hkeep _ _))].
Qed.

Lemma recovery_load_runs w (Q : Result (KillSwitchRecoveryRecord D) text → RecoveryWorld → Prop) :
  (∀ n, let w' := mkRecoveryWorld (rw_file w) (rw_audit w) (rw_audit_torn w) n in
     Q (Ok (record_of (rw_file w))) w' ∧ ∀ e, Q (Err e) w') →
  runs (recovery_load_recovery_record (C := C) load_io) w Q.
Proof.
  intros HQ. unfold recovery_load_recovery_record, runs. specialize (HQ (S (rw_operations w))) as [Hok Herr].
  destruct (load_io (rw_operations w)); do 2 eexists; split; eauto.
Qed.

Lemma recovery_write_runs s loss w (Q : Result unit RecoveryStoreError → RecoveryWorld → Prop) :
  (∀ w', rw_audit w' = rw_audit w → rw_audit_torn w' = rw_audit_torn w →
     (rw_file w' = FileRecord s (Some (persist_snapshot loss)) → Q (Ok tt) w') ∧
     (∀ debug, rw_file w' = rw_file w ∨ rw_file w' = FileRecord s (Some (persist_snapshot loss)) →
        Q (Err (OtherStoreError debug)) w')) →
  runs (recovery_write_state write_io s loss) w Q.
Proof.
  intros HQ. unfold recovery_write_state, runs.
  destruct (write_io (rw_operations w)) as [|debug replaced]; do 2 eexists; (split; [done|]).
  - by apply HQ.
  - apply HQ; [done|done|]. destruct replaced; simpl; tauto.
Qed.

(** ** The attempt *)

Definition armed_file loss : StoreFile := FileRecord KsArmed (Some (persist_snapshot loss)).

Definition failed_file (current : KillSwitchState) loss (f : StoreFile) : Prop :=
  ∃ id reason, halt_id_of current = Some id ∧
    f = FileRecord (KsFailedManualIntervention id reason) (Some (persist_snapshot loss)).

Definition is_halt (s : KillSwitchState) : Prop :=
  match s with KsHalting _ _ | KsHalted _ _ => True | _ => False end.

Lemma write_failed_runs current loss prefix error w :
  is_halt current →
  runs (write_failed_state write_io debug_store_error current loss prefix error) w
    (λ r w', rw_audit w' = rw_audit w ∧
      ∃ e, r = Err e ∧
        (failed_file current loss (rw_file w') ∨
         (rw_file w' = rw_file w ∧ ∃ failed, e = FailedStateWriteFailed error failed))).
Proof.
  intros Hh. unfold write_failed_state. apply runs_bind.
  assert (∃ id reason, failed_manual_intervention_state current (prefix ++ debug_store_error error) =
    Some (KsFailedManualIntervention id reason) ∧ halt_id_of current = Some id) as (id & reason & Hf & Hid).
  { destruct current; try done; simpl; eauto. }
  eapply runs_lift; [exact Hf|]. apply runs_bind, recovery_write_runs. intros w' Ha _. split.
  - intros Hw. apply runs_ret. split; [done|]. eexists; split; [done|]. left. by exists id, reason.
  - intros debug Hw. apply runs_ret. split; [done|]. eexists; split; [done|].
    destruct Hw as [Hw|Hw]; [right; eauto|left; by exists id, reason].
Qed.

(** What the attempt leaves. *)
Definition attempt_outcome (current : KillSwitchState) loss attempt w
    (r : Result Z LossGovernorManualRecoveryError) w' : Prop :=
  audit_extends attempt w w' ∧
  match r with
  | Ok _ => rw_file w' = armed_file loss ∧ attempt ∈ rw_audit w'
  | Err e =>
      rw_file w' = rw_file w ∨ failed_file current loss (rw_file w') ∨
      (rw_file w' = armed_file loss ∧ attempt ∈ rw_audit w' ∧ ∃ e1 e2, e = FailedStateWriteFailed e1 e2)
  end.

Lemma append_recovered_runs attempt r count w :
  of_attempt attempt r →
  runs (append_recovered_manual_recovery append_io r count) w
    (λ res w', audit_extends attempt w w' ∧ rw_file w' = rw_file w ∧ ∃ n, res = Ok n).
Proof.
  intros Hr. unfold append_recovered_manual_recovery. apply runs_bind.
  apply (append_runs attempt); [done|]. intros w' Ha Hf.
  split; [|split]; intros; apply runs_ret; eauto.
Qed.

Lemma armed_write_failed_runs current loss attempt count error w0 w :
  is_halt current → rw_audit_torn w = false → attempt ∈ rw_audit w → audit_extends attempt w0 w →
  armed_state_committed (record_of (rw_file w0)) = false →
  rw_file w = rw_file w0 ∨ rw_file w = armed_file loss →
  runs (armed_write_failed (C := C) write_io load_io append_io debug_store_error current loss attempt count error) w
    (attempt_outcome current loss attempt w0).
Proof.
  intros Hh Htorn Hin Hext Hnot Hfile. unfold armed_write_failed. apply runs_bind, recovery_load_runs.
  intros n. set (w1 := mkRecoveryWorld _ _ _ _). simpl.
  assert (Hfail : runs (appended ← append (with_outcome attempt AuditWriteFailed (Some (ReasonWriteFailed error)));
      match (match appended with Err audit_error => repair_manual_recovery_audit_error audit_error
                               | Ok _ => None end) with
      | Some error => mret (Err error)
      | None => write_failed_state write_io debug_store_error current loss
                  (lit "loss governor manual recovery write failed: ") error
      end) w1 (attempt_outcome current loss attempt w0)).
  { apply runs_bind, (append_runs attempt); [done|]. intros w2 Ha2 Hf2.
    assert (Hgo : runs (write_failed_state write_io debug_store_error current loss
      (lit "loss governor manual recovery write failed: ") error) w2 (attempt_outcome current loss attempt w0)).
    { eapply runs_mono; [by apply write_failed_runs|]. intros r w3 (Ha3 & e & -> & Hw3).
      assert (Hext3 : audit_extends attempt w0 w3).
      { eapply audit_extends_trans; [exact Hext|]. eapply audit_extends_trans; [exact Ha2|].
        by apply audit_extends_refl. }
      split; [done|]. destruct Hw3 as [Hw3|[Hw3 [failed ->]]]; [by right; left|].
      rewrite Hw3, Hf2. simpl. destruct Hfile as [Hf|Hf]; [by left|]. right; right.
      split; [done|]. split; [|by eauto]. rewrite Ha3. eapply audit_extends_elem; [exact Ha2|]. done. }
    split; [|split].
    - intros k _ _. exact Hgo.
    - simpl. by rewrite Htorn.
    - intros debug. exact Hgo. }
  split; [|intros e; exact Hfail].
  destruct (armed_state_committed (record_of (rw_file w))) eqn:Hc; [|exact Hfail].
  eapply runs_mono; [by apply append_recovered_runs|]. intros r w2 (Ha2 & Hf2 & n2 & ->).
  split; [by eapply audit_extends_trans|]. rewrite Hf2. split; [|by eapply audit_extends_elem].
  destruct Hfile as [Hf|Hf]; [|done]. rewrite Hf in Hc. congruence.
Qed.

Lemma persist_attempt_runs current loss attempt w :
  is_halt current → armed_state_committed (record_of (rw_file w)) = false →
  runs (persist_manual_recovery_attempt (C := C) write_io load_io append_io debug_store_error current loss attempt) w
    (attempt_outcome current loss attempt w).
Proof.
  intros Hh Hnot. unfold persist_manual_recovery_attempt. apply runs_bind, (append_runs attempt); [done|].
  intros w1 Ha1 Hf1. split; [|split].
  - intros n Hin Htorn. apply runs_bind, recovery_write_runs. intros w2 Ha2 Ht2.
    assert (Hext : audit_extends attempt w w2).
    { eapply audit_extends_trans; [exact Ha1|]. by apply audit_extends_refl. }
    split.
    + intros Hf2. eapply runs_mono; [by apply append_recovered_runs|]. intros r w3 (Ha3 & Hf3 & k & ->).
      split; [by eapply audit_extends_trans|]. split; [by rewrite Hf3|].
      eapply audit_extends_elem; [exact Ha3|]. by rewrite Ha2.
    + intros debug Hf2. apply armed_write_failed_runs; [done|congruence|by rewrite Ha2|done|done|].
      by rewrite <- Hf1.
  - intros _. apply runs_ret. split; [done|]. by left.
  - intros debug. simpl. eapply runs_mono; [by apply write_failed_runs|]. intros r w2 (Ha2 & e & -> & Hw2).
    split; [eapply audit_extends_trans; [exact Ha1|by apply audit_extends_refl]|].
    destruct Hw2 as [Hw2|[Hw2 _]]; [by right; left|]. left. congruence.
Qed.

(** ** The command *)

Definition trigger_of (s : KillSwitchState) : option KillSwitchHaltTrigger :=
  match s with KsHalting _ t | KsHalted _ t => Some t | _ => None end.

(** The window of the limit that was breached is over. *)
Definition window_over (lg : LossGovernorBlock) (t : KillSwitchHaltTrigger) (now : Z) : Prop :=
  match loss_halt_reason t with
  | Some DailyLossLimit =>
      source_timestamp_unix_nanos t `div` NANOS_PER_UTC_DAY < now `div` NANOS_PER_UTC_DAY
  | Some RollingLossLimit =>
      block_rolling_window_ns lg ≠ 0 ∧ block_rolling_window_ns lg < now - source_timestamp_unix_nanos t
  | _ => False
  end.

(** The halt in the file, and the figures beside it. *)
Definition halt_on_file (f : StoreFile) (current : KillSwitchState) loss : Prop :=
  recoverable_current_state (record_of f) = Ok current ∧
  recovery_loss_protection (record_of f) = Some loss.

Definition command_evidence (c : LossGovernorManualRecoveryCommand) : LossGovernorManualRecoveryEvidence :=
  mkRecoveryEvidence (command_operator_id c) (command_evidence_path c) (command_evidence_sha256 c)
    (command_observed_at_ns c).

Definition command_attempt (c : LossGovernorManualRecoveryCommand)
    : KillSwitchLossGovernorManualRecoveryRecord :=
  manual_recovery_record (command_evidence c) (command_now_ns c) AuditAttempted None.

(** Everything that must hold for the switch to be re-armed. *)
Definition recovery_authorised (config : RecoveryConfig) (c : LossGovernorManualRecoveryCommand)
    (current : KillSwitchState) : Prop :=
  ∃ ks lg policy t,
    root_kill_switch config = Some ks ∧ kill_switch_enabled ks = true ∧
    command_operator_id c ∈ authorized_operator_ids ks ∧
    root_loss_governor config = Some lg ∧ loss_governor_enabled lg = true ∧
    halt_action_policy lg = Ok policy ∧
    recovery_evidence_validate (command_evidence c)
      (manual_recovery_evidence_max_path_bytes policy) = Ok tt ∧
    trigger_of current = Some t ∧ trigger_kind t = LossGovernorBreach ∧
    source_timestamp_unix_nanos t ≤ command_observed_at_ns c ≤ command_now_ns c ∧
    window_over lg t (command_now_ns c).

(** A refused command: recorded if possible, the file untouched. *)
Definition refused (c : LossGovernorManualRecoveryCommand) w {A : Type}
    (r : Result A LossGovernorManualRecoveryError) w' : Prop :=
  audit_extends (command_attempt c) w w' ∧ rw_file w' = rw_file w ∧ ∃ e, r = Err e.

Lemma append_refused_runs c r w :
  of_attempt (command_attempt c) r →
  runs (append_refused_manual_recovery_record append_io r) w
    (λ _ w', audit_extends (command_attempt c) w w' ∧ rw_file w' = rw_file w).
Proof.
  intros Hr. unfold append_refused_manual_recovery_record. apply runs_bind, (append_runs (command_attempt c)); [done|].
  intros w' Ha Hf. split; [|split]; intros; by apply runs_ret.
Qed.

Lemma refuse_runs {A} c reason error w :
  runs (refuse append_io (command_evidence c) (command_now_ns c) reason error) w (refused c w (A := A)).
Proof.
  unfold refuse, record_refused_manual_recovery_attempt. apply runs_try.
  eapply runs_mono; [by apply append_refused_runs|]. intros [u|e] w' [Ha Hf].
  - apply runs_ret. split_and!; eauto.
  - split_and!; eauto.
Qed.

Lemma clock_verified_Ok r s :
  next_loss_governor_clock_verified_manual_recovery_trading_state r = Ok s →
  ∃ e, clock_evidence r = Some e ∧
    clock_trigger_observed_at_ns r ≤ recovery_observed_at_ns e ≤ clock_now_ns r ∧
    match clock_trigger_reason r with
    | Some DailyLossLimit =>
        clock_trigger_observed_at_ns r `div` NANOS_PER_UTC_DAY < clock_now_ns r `div` NANOS_PER_UTC_DAY
    | Some RollingLossLimit =>
        clock_rolling_window_ns r ≠ 0 ∧
        clock_rolling_window_ns r < clock_now_ns r - clock_trigger_observed_at_ns r
    | _ => False
    end.
Proof.
  unfold next_loss_governor_clock_verified_manual_recovery_trading_state.
  destruct (halted_or_reducing _); [|done]. destruct (clock_evidence r) as [e|]; [|done]; simpl.
  destruct (is_ok _); [|done]. simpl. repeat (case_match; try done); zcases; try done; intros _;
    exists e; repeat split; lia.
Qed.

(** What the command does with the record it loaded. *)
Definition command_outcome config (c : LossGovernorManualRecoveryCommand) w
    (r : Result LossGovernorManualRecoveryOutcome LossGovernorManualRecoveryError) w' : Prop :=
  audit_extends (command_attempt c) w w' ∧
  ((rw_file w' = rw_file w ∧ ∃ e, r = Err e) ∨
   ∃ current loss, halt_on_file (rw_file w) current loss ∧ recovery_authorised config c current ∧
     match r with
     | Ok _ => rw_file w' = armed_file loss ∧ command_attempt c ∈ rw_audit w'
     | Err e => failed_file current loss (rw_file w') ∨
         (rw_file w' = armed_file loss ∧ command_attempt c ∈ rw_audit w' ∧
          ∃ e1 e2, e = FailedStateWriteFailed e1 e2)
     end).

Lemma refused_outcome config c w r w' : refused c w r w' → command_outcome config c w r w'.
Proof. intros (Ha & Hf & He). split; [done|]. by left. Qed.

Lemma recoverable_not_armed f current t :
  recoverable_current_state (record_of f) = Ok current → trigger_of current = Some t →
  armed_state_committed (record_of f) = false.
Proof.
  unfold recoverable_current_state, armed_state_committed.
  destruct (recovery_state (record_of f)) as [s|reason s]; [|done]. intros [= ->]. by destruct current.
Qed.

Lemma recover_from_record_runs config c ks lg policy w :
  root_kill_switch config = Some ks → kill_switch_enabled ks = true →
  command_operator_id c ∈ authorized_operator_ids ks →
  root_loss_governor config = Some lg → loss_governor_enabled lg = true →
  halt_action_policy lg = Ok policy →
  recovery_evidence_validate (command_evidence c) (manual_recovery_evidence_max_path_bytes policy) = Ok tt →
  runs (recover_from_record (C := C) write_io load_io append_io debug_store_error policy
          (block_rolling_window_ns lg) (command_evidence c) (command_now_ns c) (record_of (rw_file w))) w
    (command_outcome config c w).
Proof.
  intros Hks Hen Hop Hlg Hlen Hpol Hev. unfold recover_from_record.
  assert (Href : ∀ reason error, runs (refuse append_io (command_evidence c) (command_now_ns c) reason error) w
    (command_outcome config c w)).
  { intros. eapply runs_mono; [apply refuse_runs|]. intros. by apply refused_outcome. }
  destruct (recoverable_current_state (record_of (rw_file w))) as [current|e] eqn:Hcur; [|done].
  destruct (loss_governor_recoverable_halt current) as [halt|e] eqn:Hhalt; [|done].
  destruct (recovery_loss_protection (record_of (rw_file w))) as [loss|] eqn:Hloss; [|done].
  destruct (next_loss_governor_clock_verified_manual_recovery_trading_state _) as [s|reason] eqn:Hclock; [|done].
  apply clock_verified_Ok in Hclock as (e & [= <-] & Htime & Hwin). simpl in Htime, Hwin.
  assert (∃ t, trigger_of current = Some t ∧ trigger_kind t = LossGovernorBreach ∧
    halt = mkRecoverableHalt TradingReducing (loss_halt_reason t) (source_timestamp_unix_nanos t))
    as (t & Ht & Hkind & ->).
  { unfold loss_governor_recoverable_halt in Hhalt. destruct current as [|id t|id t| | | |]; try done;
      exists t; destruct (trigger_kind t); try done; by injection Hhalt as <-. }
  assert (Hauth : recovery_authorised config c current).
  { exists ks, lg, policy, t. simpl in *. destruct Htime. by split_and!. }
  apply runs_try. eapply runs_mono; [apply persist_attempt_runs|].
  - by destruct current.
  - by eapply recoverable_not_armed.
  - intros [n|error] w' [Ha Hout].
    + apply runs_ret. split; [done|]. right. exists current, loss. done.
    + split; [done|]. destruct Hout as [Hf|Hout]; [left; eauto|]. right. exists current, loss. done.
Qed.

(** The command on any configuration, request and world. *)
Lemma recovery_command_runs config c w :
  runs (recover_loss_governor_manual_halt (C := C) write_io load_io append_io debug_store_error config c) w
    (command_outcome config c w).
Proof.
  assert (Hret : ∀ e, runs (mret (Err e)) w (command_outcome config c w)).
  { intros e. apply runs_ret. split; [by apply audit_extends_refl|]. left. eauto. }
  assert (Href : ∀ w1 reason error, rw_file w1 = rw_file w → rw_audit w1 = rw_audit w →
    runs (refuse append_io (command_evidence c) (command_now_ns c) reason error) w1 (command_outcome config c w)).
  { intros w1 reason error Hf Ha. eapply runs_mono; [apply refuse_runs|]. intros r w2 (Ha2 & Hf2 & He).
    split; [eapply audit_extends_trans; [by apply audit_extends_refl|exact Ha2]|]. left. split; [congruence|done]. }
  unfold recover_loss_governor_manual_halt.
  destruct (root_kill_switch config) as [ks|] eqn:Hks; [|done].
  destruct (kill_switch_enabled ks) eqn:Hen; simpl; [|by apply Hret].
  destruct (root_loss_governor config) as [lg|] eqn:Hlg; [|done].
  destruct (loss_governor_enabled lg) eqn:Hlen; simpl; [|by apply Hret].
  destruct (halt_action_policy lg) as [policy|e] eqn:Hpol; [|by apply Hret].
  unfold recovery_evidence_new. fold (command_evidence c).
  destruct (recovery_evidence_validate (command_evidence c) _) as [[]|error] eqn:Hev; simpl.
  - destruct (existsb _ _) eqn:Hop; simpl; [|by apply Href].
    apply runs_bind, recovery_load_runs. intros n. split; [|intros e; by apply Href].
    eapply runs_mono; [apply (recover_from_record_runs config c ks lg policy
      (mkRecoveryWorld (rw_file w) (rw_audit w) (rw_audit_torn w) n)); [done|done| |done|done|done|done]|].
    + apply existsb_exists in Hop as (id & Hid & E%bool_decide_eq_true). simpl in E. subst id.
      by apply list_elem_of_In.
    + intros r w' Hout. exact Hout.
  - apply runs_try. eapply runs_mono; [by apply (append_refused_runs c)|]. intros [u|e] w' [Ha Hf].
    + apply runs_ret. split; [done|]. left. eauto.
    + split; [done|]. left. eauto.
Qed.

(** C34: The recovery command always returns, and the audit only gains records of this command.
    The file of the switch changes only when the configuration is enabled, the operator is
    authorised, the evidence is well formed and taken after the trigger, the file holds a
    loss-governor halt and the window of the breached limit is over.  A success leaves
    the switch armed with the figures it had, after the attempt was recorded; an error
    leaves the file as it was, or with the failed state, or armed only when not even the
    failed state could be written. *)
Theorem manual_recovery_safe config c w :
  ∃ r w', recover_loss_governor_manual_halt (C := C) write_io load_io append_io debug_store_error config c w =
      Some (r, w') ∧
    command_outcome config c w r w'.
Proof. exact (recovery_command_runs config c w). Qed.

(** ** The next start *)

(** What was read from the file is read again after it was written back. *)
Lemma restore_snapshot_stable persisted s :
  restore_snapshot (D := D) (C := C) persisted = Ok s → restore_snapshot (C := C) (persist_snapshot s) = Ok s.
Proof.
  unfold restore_snapshot, persist_snapshot. intros Hp. result_inv. subst.
  cbn [persisted_daily_realized_pnl persisted_cumulative_position_pnl persisted_closed_position_pnl
       persisted_adjusted_position_pnl persisted_settlement_currency persisted_pending_halt_actions
       persisted_daily_bucket snapshot_daily_realized_pnl snapshot_cumulative_position_pnl
       snapshot_closed_position_pnl snapshot_adjusted_position_pnl snapshot_settlement_currency
       snapshot_daily_bucket snapshot_pending_halt_actions].
  rewrite !restore_persisted_map, d_text_round_trip. cbn [ok_or result_bind]. rewrite E2. cbn [result_bind].
  enough (restore_currency (C := C) a4 (negb (d_eqb a d_zero) || negb (bool_decide (a0 = ∅))
    || negb (bool_decide (a1 = ∅)) || negb (bool_decide (a3 = ∅))) = Ok a4) as -> by done.
  revert E4. unfold restore_currency. generalize (negb (d_eqb a d_zero) || negb (bool_decide (a0 = ∅))
    || negb (bool_decide (a1 = ∅)) || negb (bool_decide (a3 = ∅))). intros evidence.
  destruct (persisted_settlement_currency persisted) as [code|].
  - destruct (_ || _) eqn:Hb; [done|]. destruct (currency_try_from_str code) eqn:Hc; [|done].
    intros [= <-]. by rewrite Hb, Hc.
  - destruct evidence; [done|]. by intros [= <-].
Qed.

Section NextStart.
Context (sha256_hex : text → text) (debug_transition_error : KillSwitchTransitionError → text)
        (store_io : nat → StoreOutcome) (emit_io : nat → option text).

(** The failure path from any world: no invariant is needed for the switch to leave the
    armed state. *)
Lemma latch_state_runs failed (node : LossWorld (D := D) (C := C)) :
  runs (latch_failed store_io failed) node (λ _ node', state (protection node') = failed).
Proof.
  unfold latch_failed. lp_steps. unfold persist_failed_state_or_invalidate. lp_steps.
  apply store_write_runs. intros r1 f1 n1 -> Hw1. destruct Hw1 as [(-> & _)|[(e & rep & -> & _) _]]; lp_steps; [done|].
  apply store_write_runs. intros r2 f2 n2 -> _. destruct r2; by lp_steps.
Qed.

Lemma persist_state_runs (node : LossWorld (D := D) (C := C)) :
  state (protection node) ≠ KsArmed →
  runs (persist_runtime_snapshot_or_fail_closed store_io) node (λ r node', state (protection node') ≠ KsArmed).
Proof.
  intros Hna. unfold persist_runtime_snapshot_or_fail_closed. lp_steps. apply store_write_runs.
  intros r f n -> Hw. destruct Hw as [(-> & _)|[(e & rep & -> & _) _]]; lp_steps; [done|].
  eapply runs_mono; [apply latch_state_runs|]. intros [u|e'] node' Hst; lp_steps; by rewrite Hst.
Qed.

Lemma recorded_state_runs id t (node : LossWorld (D := D) (C := C)) :
  runs (record_halt_actions_recorded sha256_hex debug_transition_error store_io (KsHalting id t)) node
    (λ r node', state (protection node') ≠ KsArmed ∧ ∀ s, r = Ok s → s = KsHalted id t).
Proof.
  unfold record_halt_actions_recorded, transition. lp_steps. simpl. lp_steps.
  eapply runs_mono; [by apply persist_state_runs|]. intros [u|e] node' Hna; lp_steps; split; [done| |done|done].
  by intros s [= <-].
Qed.

Lemma breach_state_runs source clock (node : LossWorld (D := D) (C := C)) :
  runs (halt_for_realized_loss_breach sha256_hex debug_transition_error store_io emit_io source clock) node
    (λ r node', state (protection node') ≠ KsArmed ∧ ∀ s, r = Ok s → ∃ id t, s = Some (KsHalted id t)).
Proof.
  unfold halt_for_realized_loss_breach, transition. lp_steps. simpl. lp_steps. apply store_write_runs.
  intros r f n -> Hw. destruct Hw as [(-> & _)|[(e & rep & -> & _) _]].
  - unfold dispatch_halt. lp_steps. eapply emit_runs; [done|]. intros k. cbn.
    destruct (emit_io (emissions node)) as [e|]; lp_steps.
    + eapply runs_mono; [by apply persist_state_runs|]. intros [u|e'] node' Hna; by lp_steps.
    + eapply runs_mono; [apply recorded_state_runs|]. intros [s|e'] node' [Hna Hs]; lp_steps; [|done].
      split; [done|]. intros ? [= <-]. rewrite (Hs s eq_refl). by eexists _, _.
  - lp_steps. simpl. lp_steps. eapply runs_mono; [apply latch_state_runs|]. intros u node' Hst. lp_steps.
    rewrite Hst. by destruct u.
Qed.

(** A start on an armed record whose figure is at the limit. *)
Lemma breached_start_runs (protection_config : KillSwitchLossProtectionConfig D) clock persisted s
    (node : LossWorld (D := D) (C := C)) :
  restore_snapshot (D := D) (C := C) persisted = Ok s →
  store_file node = FileRecord KsArmed (Some persisted) → store_io (store_operations node) = StoreDone →
  d_ltb (snapshot_daily_realized_pnl s) d_zero = true →
  d_geb (d_neg (snapshot_daily_realized_pnl s)) (max_utc_daily_realized_loss protection_config) = true →
  runs (restart sha256_hex debug_transition_error store_io emit_io protection_config clock) node
    (λ r node', state (protection node') ≠ KsArmed).
Proof.
  intros Hrest Hfile Hio Hneg Hlimit. unfold restart, seed_from_store. lp_steps. apply load_runs. cbn.
  rewrite Hio, Hfile. intros n. simpl. rewrite Hrest. simpl. lp_steps.
  eapply apply_runs; [done|]. intros p' Hfig Hst _. lp_steps. simpl.
  assert (realized_loss_breached p' = true) as ->.
  { unfold figures, restored_figures in Hfig. injection Hfig as Hc _ Hd _ _ _ _. simpl in Hc.
    unfold realized_loss_breached. by rewrite Hc, Hd, Hneg, Hlimit. }
  lp_steps. eapply runs_mono; [apply breach_state_runs|]. intros r node' [Hna Hr]. destruct r as [s'|e]; lp_steps; [|done].
  destruct (Hr s' eq_refl) as (id & t & ->). unfold reissue_halt_actions. by lp_steps.
Qed.

(** C35: A recovery that succeeded on a halt whose daily figure is at the limit of the node
    does not let the node trade: whatever day the node starts on, and whether or not the
    halt still had actions to retry, a start that can read the store does not come up
    armed, because the command writes the figures back as they were and the start compares
    the figure with the limit without looking at its day. *)
Theorem recovered_daily_halt_halts_again config c w o w1 s (protection_config : KillSwitchLossProtectionConfig D)
    clock (node : LossWorld (D := D) (C := C)) :
  recover_loss_governor_manual_halt (C := C) write_io load_io append_io debug_store_error config c w =
    Some (Ok o, w1) →
  recovery_loss_protection (record_of (rw_file w)) = Some s →
  d_ltb (snapshot_daily_realized_pnl s) d_zero = true →
  d_geb (d_neg (snapshot_daily_realized_pnl s)) (max_utc_daily_realized_loss protection_config) = true →
  store_file node = rw_file w1 → store_io (store_operations node) = StoreDone →
  runs (restart sha256_hex debug_transition_error store_io emit_io protection_config clock) node
    (λ r node', state (protection node') ≠ KsArmed).
Proof.
  intros Hrun Hs Hneg Hlimit Hfile Hio.
  destruct (recovery_command_runs config c w) as (r & w' & Hrun' & _ & Hout). simplify_eq.
  destruct Hout as [[_ [e He]]|(current & loss & [_ Hl] & _ & Harmed & _)]; [done|]. simplify_eq.
  destruct (recovery_record_inv _ _ Hs) as (st & persisted & _ & Hrest & _).
  apply restore_snapshot_stable in Hrest. rewrite Harmed in Hfile. by eapply breached_start_runs.
Qed.

End NextStart.

End Facts.

(** ** A concrete history *)

Definition demo_recovery_config : RecoveryConfig :=
  mkRecoveryConfig (Some (mkKillSwitchBlock true [lit "op"]))
    (Some (mkLossGovernorBlock true (Some ActionHalted) (Some ActionReducing) (Some RecoveryManual) (Some 128) 1)).

(** A node lost its daily limit on day 0 and halted. *)
Definition demo_halted_node : LossWorld := demo_after false [RecordRealized (demo_pnl 5 (-100))].

Definition demo_recovery_world : RecoveryWorld :=
  mkRecoveryWorld (store_file demo_halted_node) [] false 0.

(** The operator recovers it on day 1. *)
Definition demo_recovery_command : LossGovernorManualRecoveryCommand :=
  mkRecoveryCommand (lit "op") (lit "recovery/e.json") (replicate 64 97) NANOS_PER_UTC_DAY (NANOS_PER_UTC_DAY + 1).

Definition demo_recover :=
  recover_loss_governor_manual_halt (D := Z) (C := demo_currency) (λ _, StoreDone) (λ _, None) (λ _, AppendDone)
    (λ _, []) demo_recovery_config demo_recovery_command demo_recovery_world.
Definition demo_recovered : RecoveryWorld := from_option snd demo_recovery_world demo_recover.

(** The node that starts on the recovered file. *)
Definition demo_restarting : LossWorld (D := Z) (C := demo_currency) :=
  mkLossWorld (protection_new demo_loss_config) KsArmed (rw_file demo_recovered) 0 0 [].

Lemma manual_recovery_safe_witness :
  ∃ r w', demo_recover = Some (r, w') ∧
    command_outcome (D := Z) (C := demo_currency) demo_recovery_config demo_recovery_command demo_recovery_world r w'.
Proof.
  exact (manual_recovery_safe (λ _, StoreDone) (λ _, None) (λ _, AppendDone) (λ _, [])
    demo_recovery_config demo_recovery_command demo_recovery_world).
Defined.

Lemma recovered_daily_halt_halts_again_witness :
  runs (restart (λ b, b) (λ _, []) demo_store (demo_sink false) demo_loss_config (NANOS_PER_UTC_DAY + 2))
    demo_restarting (λ r node', state (protection node') ≠ KsArmed).
Proof.
  eapply (recovered_daily_halt_halts_again (λ _, StoreDone) (λ _, None) (λ _, AppendDone) (λ _, [])
    (λ b, b) (λ _, []) demo_store (demo_sink false) demo_recovery_config demo_recovery_command
    demo_recovery_world _ demo_recovered _ demo_loss_config (NANOS_PER_UTC_DAY + 2) demo_restarting);
    vm_compute; reflexivity.
Defined.
