(* ===== verification/CapitalReservation.v ===== *)
(** * Capital reservation ledger

    Models [src/src/bolt_v3_capital_reservation.rs]: the ledger of committed but
    unfilled capital, with [reserve], [release], [revalue], [rollback_uncommitted],
    [remove_existing], [retained_reservation] and [carry_retained].  Methods that take
    [&mut self] return the ledger afterwards.  Amounts are decimals behind
    [DecimalOps]. *)

From Stdlib Require Import ZArith Lia.
From stdpp Require Import sorting strings gmap numbers list.
From S2P Require Import Prelude RustText DecimalAmount.

Open Scope Z_scope.

Inductive ReservationRejectionReason : Type :=
| MissingEvidence
| StaleRequest
| PoolMismatch
| OverBudget
| InvalidRequest
| CollateralGroupMismatch
| DuplicateReservation
| UnknownReservation
| UnknownRelease
| ReconciliationRequired.

Section Ledger.
Context {D : Type} `{DecimalOps D}.

Record CapitalPoolSnapshot : Type := mkPool {
  pool_source : text;
  pool_observed_at_ns : Z;
  pool_id : text;
  max_pool_liability : D;
  committed_liability : D;
  max_snapshot_age_ns : Z;
}.

Record ReservationRequest : Type := mkRequest {
  request_id : text;
  request_pool_id : text;
  request_collateral_group_id : text;
  request_liability : D;
  request_observed_at_ns : Z;
  request_evidence_label : text;
}.

Record ReservationRevalueRequest : Type := mkRevalue {
  revalue_request_id : text;
  revalue_pool_id : text;
  revalue_collateral_group_id : text;
  revalue_liability : D;
  revalue_observed_at_ns : Z;
  revalue_evidence_label : text;
}.

Record ReservationReleaseRequest : Type := mkRelease {
  release_request_id : text;
  release_pool_id : text;
  release_collateral_group_id : text;
  release_observed_at_ns : Z;
  release_evidence_label : text;
}.

Record ReservationDecision : Type := mkDecision {
  accepted : bool;
  decision_reason : option ReservationRejectionReason;
  requested_liability : D;
  available_before : D;
  available_after : option D;
}.

Record ReservationReleaseDecision : Type := mkReleaseDecision {
  release_accepted : bool;
  release_reason : option ReservationRejectionReason;
  released_liability : option D;
}.

Record ReservationRevalueDecision : Type := mkRevalueDecision {
  revalue_accepted : bool;
  revalue_reason : option ReservationRejectionReason;
  previous_liability : option D;
  revalued_liability : option D;
}.

Record LiveReservation : Type := mkLive {
  live_request_id : text;
  live_pool_id : text;
  live_collateral_group_id : text;
  live_liability : D;
  live_observed_at_ns : Z;
}.

Record ReservationLedger : Type := mkLedger {
  live_reservations : list LiveReservation;
  reconciliation_complete : bool;
}.

(** [RetainedReservation(LiveReservation)]. *)
Definition RetainedReservation : Type := LiveReservation.

Definition unreconciled : ReservationLedger := mkLedger [] false.
Definition reconciled : ReservationLedger := mkLedger [] true.

Definition invalidate_reconciliation (l : ReservationLedger) : ReservationLedger :=
  mkLedger (live_reservations l) false.

Definition set_live (l : ReservationLedger) (live : list LiveReservation) : ReservationLedger :=
  mkLedger live (reconciliation_complete l).

Definition rejected (reason : ReservationRejectionReason) (requested before : D)
    : ReservationDecision := mkDecision false (Some reason) requested before None.

Definition rejected_release (reason : ReservationRejectionReason) : ReservationReleaseDecision :=
  mkReleaseDecision false (Some reason) None.

Definition rejected_revalue (reason : ReservationRejectionReason) : ReservationRevalueDecision :=
  mkRevalueDecision false (Some reason) None None.

Definition missing_identity (r : ReservationRequest) : bool :=
  blank (request_id r) || blank (request_pool_id r) || blank (request_collateral_group_id r).

Definition stale (observed_at_ns now_ns max_age_ns : Z) : bool :=
  (now_ns <? observed_at_ns) || (max_age_ns <? now_ns - observed_at_ns).

Definition available_pool_liability (pool : CapitalPoolSnapshot) (live_reserved : D) : option D :=
  available ← d_checked_sub (max_pool_liability pool) (committed_liability pool);
  d_checked_sub available live_reserved.

(** [try_fold(Decimal::ZERO, checked_add)]. *)
Fixpoint checked_total (acc : D) (ds : list D) : option D :=
  match ds with
  | [] => Some acc
  | d :: ds => acc' ← d_checked_add acc d; checked_total acc' ds
  end.

Definition live_reserved_liability (l : ReservationLedger) (pool : text) : D :=
  default d_max
    (checked_total d_zero
       (live_liability <$> filter (λ r, live_pool_id r = pool) (live_reservations l))).

(** The predicate [reservation.pool_id == p && reservation.request_id == id]. *)
Definition is_reservation (pool id : text) (r : LiveReservation) : Prop :=
  live_pool_id r = pool ∧ live_request_id r = id.

#[global] Instance is_reservation_dec pool id r : Decision (is_reservation pool id r).
Proof. unfold is_reservation. apply _. Defined.

(** [iter().position(..)], with the element found. *)
Definition position (l : ReservationLedger) (pool id : text) : option (nat * LiveReservation) :=
  list_find (is_reservation pool id) (live_reservations l).

Definition below_min_remaining (available : D) (min_remaining : option D) : bool :=
  match min_remaining with
  | Some min_remaining => d_ltb available min_remaining
  | None => false
  end.

Definition ledger_reserve (l : ReservationLedger) (pool : CapitalPoolSnapshot)
    (request : ReservationRequest) (now_ns : Z) (min_remaining : option D)
    : ReservationDecision * ReservationLedger :=
  match available_pool_liability pool (live_reserved_liability l (pool_id pool)) with
  | None => (rejected OverBudget (request_liability request) d_zero, l)
  | Some available_before =>
      let reject reason := (rejected reason (request_liability request) available_before, l) in
      if negb (reconciliation_complete l) then reject ReconciliationRequired
      else if negb (bool_decide (pool_id pool = request_pool_id request)) then reject PoolMismatch
      else if missing_identity request || d_leb (request_liability request) d_zero
      then reject InvalidRequest
      else if blank (pool_source pool) || blank (request_evidence_label request)
      then reject MissingEvidence
      else if stale (pool_observed_at_ns pool) now_ns (max_snapshot_age_ns pool)
           || stale (request_observed_at_ns request) now_ns (max_snapshot_age_ns pool)
           || (request_observed_at_ns request <? pool_observed_at_ns pool)
      then reject StaleRequest
      else if existsb (λ r, bool_decide (is_reservation (request_pool_id request) (request_id request) r))
                (live_reservations l)
      then reject DuplicateReservation
      else if d_gtb (request_liability request) available_before then reject OverBudget
      else
        match d_checked_sub available_before (request_liability request) with
        | None => reject OverBudget
        | Some after =>
            if below_min_remaining after min_remaining then reject OverBudget
            else
              (mkDecision true None (request_liability request) available_before (Some after),
               set_live l (live_reservations l ++
                 [mkLive (request_id request) (request_pool_id request)
                    (request_collateral_group_id request) (request_liability request)
                    (request_observed_at_ns request)]))
        end
  end.

Definition rollback_uncommitted (l : ReservationLedger) (pool id : text)
    : option D * ReservationLedger :=
  match position l pool id with
  | None => (None, l)
  | Some (index, r) => (Some (live_liability r), set_live l (delete index (live_reservations l)))
  end.

Definition remove_existing (l : ReservationLedger) (pool group id : text)
    : ReservationReleaseDecision * ReservationLedger :=
  match position l pool id with
  | None => (rejected_release UnknownRelease, l)
  | Some (index, r) =>
      if negb (bool_decide (live_collateral_group_id r = group))
      then (rejected_release CollateralGroupMismatch, l)
      else (mkReleaseDecision true None (Some (live_liability r)),
            set_live l (delete index (live_reservations l)))
  end.

Definition retained_reservation (l : ReservationLedger) (pool group id : text)
    : Result RetainedReservation ReservationRejectionReason :=
  match position l pool id with
  | None => Err UnknownReservation
  | Some (_, r) =>
      if negb (bool_decide (live_collateral_group_id r = group))
      then Err CollateralGroupMismatch
      else Ok r
  end.

Definition carry_retained (l : ReservationLedger) (pool : text) (r : RetainedReservation)
    : Result D ReservationRejectionReason * ReservationLedger :=
  match bool_decide (live_pool_id r = pool),
        blank (live_request_id r) || blank (live_pool_id r) || blank (live_collateral_group_id r)
          || d_leb (live_liability r) d_zero,
        existsb (λ live, bool_decide (is_reservation (live_pool_id r) (live_request_id r) live))
          (live_reservations l) with
  | false, _, _ => (Err PoolMismatch, l)
  | _, true, _ => (Err InvalidRequest, l)
  | _, _, true => (Err DuplicateReservation, l)
  | true, false, false => (Ok (live_liability r), set_live l (live_reservations l ++ [r]))
  end.

Definition ledger_release (l : ReservationLedger) (pool : CapitalPoolSnapshot)
    (request : ReservationReleaseRequest) (now_ns : Z)
    : ReservationReleaseDecision * ReservationLedger :=
  let reject reason := (rejected_release reason, l) in
  if negb (reconciliation_complete l) then reject ReconciliationRequired
  else if negb (bool_decide (pool_id pool = release_pool_id request)) then reject PoolMismatch
  else if blank (release_request_id request) || blank (release_pool_id request)
       || blank (release_collateral_group_id request)
  then reject InvalidRequest
  else if blank (pool_source pool) || blank (release_evidence_label request)
  then reject MissingEvidence
  else if stale (pool_observed_at_ns pool) now_ns (max_snapshot_age_ns pool)
       || stale (release_observed_at_ns request) now_ns (max_snapshot_age_ns pool)
  then reject StaleRequest
  else
    match position l (release_pool_id request) (release_request_id request) with
    | None => reject UnknownRelease
    | Some (index, r) =>
        if negb (bool_decide (live_pool_id r = pool_id pool)) then reject PoolMismatch
        else if negb (bool_decide (live_collateral_group_id r = release_collateral_group_id request))
        then reject CollateralGroupMismatch
        else if release_observed_at_ns request <=? live_observed_at_ns r then reject StaleRequest
        else (mkReleaseDecision true None (Some (live_liability r)),
              set_live l (delete index (live_reservations l)))
    end.

Definition ledger_revalue (l : ReservationLedger) (pool : CapitalPoolSnapshot)
    (request : ReservationRevalueRequest) (now_ns : Z) (min_remaining : option D)
    : ReservationRevalueDecision * ReservationLedger :=
  let reject reason := (rejected_revalue reason, l) in
  if negb (reconciliation_complete l) then reject ReconciliationRequired
  else if negb (bool_decide (pool_id pool = revalue_pool_id request)) then reject PoolMismatch
  else if blank (revalue_request_id request) || blank (revalue_pool_id request)
       || blank (revalue_collateral_group_id request) || d_leb (revalue_liability request) d_zero
  then reject InvalidRequest
  else if blank (pool_source pool) || blank (revalue_evidence_label request)
  then reject MissingEvidence
  else if stale (pool_observed_at_ns pool) now_ns (max_snapshot_age_ns pool)
       || stale (revalue_observed_at_ns request) now_ns (max_snapshot_age_ns pool)
  then reject StaleRequest
  else
    match position l (revalue_pool_id request) (revalue_request_id request) with
    | None => reject UnknownReservation
    | Some (index, r) =>
        if negb (bool_decide (live_pool_id r = pool_id pool)) then reject PoolMismatch
        else if negb (bool_decide (live_collateral_group_id r = revalue_collateral_group_id request))
        then reject CollateralGroupMismatch
        else if revalue_observed_at_ns request <=? live_observed_at_ns r then reject StaleRequest
        else
          let previous := live_liability r in
          match available ← available_pool_liability pool
                              (live_reserved_liability l (pool_id pool));
                d_checked_add available previous with
          | None => reject OverBudget
          | Some available_before =>
              if d_gtb (revalue_liability request) available_before then reject OverBudget
              else
                match d_checked_sub available_before (revalue_liability request) with
                | None => reject OverBudget
                | Some after =>
                    if below_min_remaining after min_remaining then reject OverBudget
                    else
                      (mkRevalueDecision true None (Some previous) (Some (revalue_liability request)),
                       set_live l (<[index := mkLive (live_request_id r) (live_pool_id r)
                           (live_collateral_group_id r) (revalue_liability request)
                           (revalue_observed_at_ns request)]> (live_reservations l)))
                end
          end
    end.

End Ledger.
