(* ===== verification/CapitalReservationFacts.v ===== *)
(** * Capital reservation ledger: solvency and bookkeeping

    Amounts are read through [d_value].  [ledger_wf]: every live reservation has a
    positive liability on the decimal grid, and no two share a pool and request
    identifier.  [reserved_value] is the capital a pool has reserved.  Accepted
    reservations and revaluations keep committed plus reserved within the pool's
    maximum; releases give back exactly what was reserved. *)

From Stdlib Require Import ZArith Lia.
From stdpp Require Import sorting strings gmap numbers list.
From S2P Require Import Prelude RustText DecimalAmount CapitalReservation.

Open Scope Z_scope.

Section Facts.
Context `{DecimalLaws D}.
Implicit Types (l : @ReservationLedger D) (r : @LiveReservation D) (pool : @CapitalPoolSnapshot D).

Definition live_key r : text * text := (live_pool_id r, live_request_id r).

Record ledger_wf l : Prop := {
  wf_live : Forall (λ r, d_exact (live_liability r) ∧ 0 < d_value (live_liability r))
              (live_reservations l);
  wf_keys : NoDup (live_key <$> live_reservations l);
}.

(** What [pool] has reserved, as an integer. *)
Definition live_value (p : text) (rs : list (@LiveReservation D)) : Z :=
  Zsum ((λ r, if decide (live_pool_id r = p) then d_value (live_liability r) else 0) <$> rs).

Definition reserved_value l (p : text) : Z := live_value p (live_reservations l).

Lemma live_value_nonneg p rs :
  Forall (λ r, d_exact (live_liability r) ∧ 0 < d_value (live_liability r)) rs → 0 ≤ live_value p rs.
Proof.
  intros Hrs. apply Zsum_nonneg, Forall_fmap. eapply Forall_impl; [exact Hrs|].
  intros r [_ ?]. simpl. case_decide; lia.
Qed.

Lemma live_value_app p rs rs' : live_value p (rs ++ rs') = live_value p rs + live_value p rs'.
Proof. unfold live_value. by rewrite fmap_app, Zsum_app. Qed.

Lemma live_value_single p r :
  live_value p [r] = if decide (live_pool_id r = p) then d_value (live_liability r) else 0.
Proof. unfold live_value. simpl. lia. Qed.

(** Splitting a vector at an index. *)
Lemma live_value_split p rs i r :
  rs !! i = Some r → live_value p rs = live_value p (delete i rs) + live_value p [r].
Proof.
  intros Hi. rewrite <- (take_drop_middle rs i r Hi) at 1. rewrite delete_take_drop.
  rewrite !live_value_app. change (r :: drop (S i) rs) with ([r] ++ drop (S i) rs).
  rewrite live_value_app. lia.
Qed.

Lemma live_value_insert p rs i r r' :
  rs !! i = Some r →
  live_value p (<[i := r']> rs) = live_value p rs - live_value p [r] + live_value p [r'].
Proof.
  intros Hi. pose proof (lookup_lt_Some _ _ _ Hi) as Hlt.
  rewrite (insert_take_drop rs i r' Hlt), (live_value_split p rs i r Hi), delete_take_drop.
  change (r' :: drop (S i) rs) with ([r'] ++ drop (S i) rs). rewrite !live_value_app. lia.
Qed.

(** The checked fold is exact while the total fits. *)
Lemma checked_total_exact ds acc :
  Forall (λ d, d_exact d ∧ 0 ≤ d_value d) ds → d_exact acc → 0 ≤ d_value acc →
  d_value acc + Zsum (d_value <$> ds) ≤ d_limit →
  ∃ t, checked_total acc ds = Some t ∧ d_exact t ∧ d_value t = d_value acc + Zsum (d_value <$> ds).
Proof.
  intros Hds. revert acc. induction Hds as [|d ds [Hd Hd0] Hds IH]; intros acc Ha Ha0 Hfit; csimpl in *.
  - exists acc. split_and!; [done|done|lia].
  - assert (0 ≤ Zsum (d_value <$> ds)).
    { apply Zsum_nonneg, Forall_fmap. eapply Forall_impl; [exact Hds|]. by intros ? []. }
    destruct (d_add_exact acc d Ha Hd ltac:(lia)) as (c & Ec & Hc & Hv). rewrite Ec. simpl.
    destruct (IH c Hc ltac:(lia) ltac:(lia)) as (t & Et & Ht & Hvt).
    exists t. split_and!; [done|done|lia].
Qed.

Lemma live_value_filter p rs :
  Zsum (d_value <$> (live_liability <$> filter (λ r, live_pool_id r = p) rs)) = live_value p rs.
Proof.
  unfold live_value. induction rs as [|r rs IH]; [done|]. rewrite filter_cons.
  csimpl. case_decide; csimpl; lia.
Qed.

Lemma live_reserved_exact l p :
  ledger_wf l → reserved_value l p ≤ d_limit →
  d_exact (live_reserved_liability l p) ∧ d_value (live_reserved_liability l p) = reserved_value l p.
Proof.
  intros [Hl _] Hfit. destruct d_zero_exact as [Hz Hz0]. unfold live_reserved_liability.
  destruct (checked_total_exact (live_liability <$> filter (λ r, live_pool_id r = p)
    (live_reservations l)) d_zero) as (t & Et & Ht & Hv); try done.
  - apply Forall_fmap, Forall_forall. intros r [_ Hr]%list_elem_of_filter.
    rewrite Forall_forall in Hl. destruct (Hl r Hr). split; [done|lia].
  - lia.
  - rewrite live_value_filter. unfold reserved_value in Hfit. lia.
  - rewrite Et. simpl. rewrite Hv, live_value_filter. split; [done|]. unfold reserved_value. lia.
Qed.

(** A snapshot whose amounts are money. *)
Definition pool_ok pool : Prop :=
  d_money (max_pool_liability pool) ∧ d_money (committed_liability pool).

Lemma available_exact l pool :
  ledger_wf l → pool_ok pool → 4 * reserved_value l (pool_id pool) ≤ d_limit →
  ∃ a, available_pool_liability pool (live_reserved_liability l (pool_id pool)) = Some a ∧
    d_exact a ∧ d_value a = d_value (max_pool_liability pool) - d_value (committed_liability pool)
                            - reserved_value l (pool_id pool).
Proof.
  intros Hl [Hm Hc] Hfit. pose proof (live_value_nonneg (pool_id pool) _ (wf_live l Hl)) as Hn.
  fold (reserved_value l (pool_id pool)) in Hn.
  destruct (live_reserved_exact l (pool_id pool) Hl ltac:(lia)) as [Hr Hrv].
  destruct (d_money_sub _ _ Hm Hc) as (a & Ea & Ha & Hav). unfold available_pool_liability.
  rewrite Ea. simpl. destruct Hm as (_ & ? & ?), Hc as (_ & ? & ?).
  destruct (d_sub_exact a (live_reserved_liability l (pool_id pool)) Ha Hr ltac:(lia))
    as (b & Eb & Hb & Hbv).
  exists b. split_and!; [done|done|lia].
Qed.

(** ** Bookkeeping *)

Lemma position_Some l p id i r :
  position l p id = Some (i, r) →
  live_reservations l !! i = Some r ∧ live_pool_id r = p ∧ live_request_id r = id.
Proof. unfold position. intros (? & [? ?] & _)%list_find_Some. done. Qed.

Lemma absent_key l p id :
  existsb (λ r, bool_decide (is_reservation p id r)) (live_reservations l) = false ↔
  ¬ ((p, id) ∈ live_key <$> live_reservations l).
Proof.
  rewrite <- not_true_iff_false, existsb_exists, list_elem_of_fmap. unfold is_reservation, live_key.
  split; intros Hno Hex; apply Hno.
  - destruct Hex as (r & [= -> ->] & Hr). exists r. rewrite bool_decide_eq_true, <- list_elem_of_In. done.
  - destruct Hex as (r & Hr & Hd). apply bool_decide_eq_true in Hd as [<- <-].
    exists r. by rewrite list_elem_of_In.
Qed.

Lemma wf_push l r :
  ledger_wf l → d_exact (live_liability r) → 0 < d_value (live_liability r) →
  ¬ (live_key r ∈ live_key <$> live_reservations l) →
  ledger_wf (set_live l (live_reservations l ++ [r])).
Proof.
  intros [Hl Hk] He Hv Hno. constructor; simpl.
  - apply Forall_app. split; [done|]. by constructor.
  - rewrite fmap_app. apply NoDup_app. split_and!; [done| |by apply NoDup_singleton].
    intros k Hin Hin'. simpl in Hin'. apply list_elem_of_singleton in Hin' as ->. done.
Qed.

Lemma wf_remove l i : ledger_wf l → ledger_wf (set_live l (delete i (live_reservations l))).
Proof.
  intros [Hl Hk]. constructor; simpl.
  - by apply Forall_delete.
  - rewrite list_fmap_delete. eapply sublist_NoDup; [done|]. apply sublist_delete.
Qed.

Lemma wf_update l i r r' :
  ledger_wf l → live_reservations l !! i = Some r → live_key r' = live_key r →
  d_exact (live_liability r') → 0 < d_value (live_liability r') →
  ledger_wf (set_live l (<[i := r']> (live_reservations l))).
Proof.
  intros [Hl Hk] Hi Hkey He Hv. constructor; simpl.
  - by apply Forall_insert.
  - rewrite list_fmap_insert, list_insert_id; [done|]. by rewrite list_lookup_fmap, Hi, Hkey.
Qed.

(** Removing one reservation gives back exactly its liability. *)
Lemma removed_value l i r p :
  live_reservations l !! i = Some r →
  reserved_value (set_live l (delete i (live_reservations l))) p =
    reserved_value l p - (if decide (live_pool_id r = p) then d_value (live_liability r) else 0).
Proof.
  intros Hi. unfold reserved_value. simpl. rewrite (live_value_split p _ i r Hi), live_value_single. lia.
Qed.

(** ** [reserve] *)

Definition new_live (request : @ReservationRequest D) : LiveReservation :=
  mkLive (request_id request) (request_pool_id request) (request_collateral_group_id request)
    (request_liability request) (request_observed_at_ns request).

(** What an acceptance went through; a rejection leaves the ledger. *)
Lemma reserve_cases l pool request now min :
  let '(d, l') := ledger_reserve l pool request now min in
  if accepted d then
    ∃ before after,
      available_pool_liability pool (live_reserved_liability l (pool_id pool)) = Some before ∧
      d_checked_sub before (request_liability request) = Some after ∧
      below_min_remaining after min = false ∧
      d_gtb (request_liability request) before = false ∧
      reconciliation_complete l = true ∧ pool_id pool = request_pool_id request ∧
      d_leb (request_liability request) d_zero = false ∧
      ¬ (live_key (new_live request) ∈ live_key <$> live_reservations l) ∧
      d = mkDecision true None (request_liability request) before (Some after) ∧
      l' = set_live l (live_reservations l ++ [new_live request])
  else l' = l ∧ is_Some (decision_reason d).
Proof.
  unfold ledger_reserve. destruct (available_pool_liability _ _) as [before|]; [|by split; [|eexists]].
  destruct (reconciliation_complete l); simpl; [|by split; [|eexists]].
  case_bool_decide as Hpool; simpl; [|by split; [|eexists]].
  destruct (missing_identity request); simpl; [by split; [|eexists]|].
  destruct (d_leb _ _) eqn:Hpos; [by split; [|eexists]|].
  destruct (blank _ || blank _); [by split; [|eexists]|].
  destruct (stale _ _ _ || stale _ _ _ || _); [by split; [|eexists]|].
  destruct (existsb _ _) eqn:Hdup; [by split; [|eexists]|]. apply absent_key in Hdup.
  destruct (d_gtb _ _) eqn:Hgt; [by split; [|eexists]|].
  destruct (d_checked_sub _ _) as [after|] eqn:Hsub; [|by split; [|eexists]].
  destruct (below_min_remaining after min) eqn:Hmin; [by split; [|eexists]|]. simpl.
  by exists before, after.
Qed.

(** Shared with the callers of [reserve]. *)
Lemma reserve_solvent l pool request now min :
  ledger_wf l → pool_ok pool → 4 * reserved_value l (pool_id pool) ≤ d_limit →
  d_exact (request_liability request) → Z.abs (d_value (request_liability request)) ≤ d_limit →
  (∀ m, min = Some m → d_exact m) →
  let '(d, l') := ledger_reserve l pool request now min in
  if accepted d then
    ledger_wf l' ∧
    reserved_value l' (pool_id pool) =
      reserved_value l (pool_id pool) + d_value (request_liability request) ∧
    (∀ p, p ≠ pool_id pool → reserved_value l' p = reserved_value l p) ∧
    d_value (committed_liability pool) + reserved_value l' (pool_id pool)
      ≤ d_value (max_pool_liability pool) ∧
    (∀ m, min = Some m →
       d_value (committed_liability pool) + reserved_value l' (pool_id pool) + d_value m
         ≤ d_value (max_pool_liability pool))
  else l' = l ∧ is_Some (decision_reason d).
Proof.
  intros Hl Hp Hfit Hreq Hrange Hmin. pose proof (reserve_cases l pool request now min) as Hc.
  destruct (ledger_reserve l pool request now min) as [d l']. destruct (accepted d); [|done].
  destruct Hc as (before & after & Ea & Es & Hm & Hg & _ & Hpool & Hpos & Hno & _ & ->).
  destruct (available_exact l pool Hl Hp Hfit) as (a & Ea' & Hae & Hav).
  rewrite Ea in Ea'. injection Ea' as <-. destruct d_zero_exact as [Hz Hz0].
  rewrite d_gtb_value in Hg by done. rewrite d_leb_value, Hz0 in Hpos by done.
  apply Z.ltb_ge in Hg. apply Z.leb_gt in Hpos.
  pose proof (live_value_nonneg (pool_id pool) _ (wf_live l Hl)) as Hn.
  fold (reserved_value l (pool_id pool)) in Hn.
  destruct Hp as [(Hmx & ? & ?) (Hcm & ? & ?)].
  destruct (d_sub_exact before (request_liability request) Hae Hreq ltac:(lia)) as (x & Ex & Hx & Hxv).
  rewrite Es in Ex. injection Ex as <-.
  assert (Hsum : ∀ p, reserved_value (set_live l (live_reservations l ++ [new_live request])) p =
    reserved_value l p + (if decide (pool_id pool = p) then d_value (request_liability request) else 0)).
  { intros p. unfold reserved_value. simpl. rewrite live_value_app, live_value_single. simpl.
    by rewrite Hpool. }
  rewrite !Hsum, decide_True by done. split_and!; [by apply wf_push|done| |lia|].
  - intros p Hne. rewrite Hsum, decide_False by done. lia.
  - intros m ->. simpl in Hm. rewrite d_ltb_value in Hm; [|done|by apply Hmin].
    apply Z.ltb_ge in Hm. lia.
Qed.

(** An accepted reservation keeps the pool solvent.  It adds exactly the requested
    liability to its own pool and to no other, committed plus reserved capital stays
    within the pool's maximum, the configured remainder is left, and the ledger stays
    well formed; a rejection carries a reason and changes nothing. *)
Lemma reserve_keeps_pool_solvent l pool request now min :
  ledger_wf l → pool_ok pool → 4 * reserved_value l (pool_id pool) ≤ d_limit →
  d_exact (request_liability request) → Z.abs (d_value (request_liability request)) ≤ d_limit →
  (∀ m, min = Some m → d_exact m) →
  let '(d, l') := ledger_reserve l pool request now min in
  if accepted d then
    ledger_wf l' ∧
    reserved_value l' (pool_id pool) =
      reserved_value l (pool_id pool) + d_value (request_liability request) ∧
    (∀ p, p ≠ pool_id pool → reserved_value l' p = reserved_value l p) ∧
    d_value (committed_liability pool) + reserved_value l' (pool_id pool)
      ≤ d_value (max_pool_liability pool) ∧
    (∀ m, min = Some m →
       d_value (committed_liability pool) + reserved_value l' (pool_id pool) + d_value m
         ≤ d_value (max_pool_liability pool))
  else l' = l ∧ is_Some (decision_reason d).
Proof. apply reserve_solvent. Qed.

Lemma rollback_last l r :
  ¬ (live_key r ∈ live_key <$> live_reservations l) →
  rollback_uncommitted (set_live l (live_reservations l ++ [r])) (live_pool_id r) (live_request_id r) =
    (Some (live_liability r), l).
Proof.
  intros Hno. unfold rollback_uncommitted, position. simpl.
  assert (Hfind : list_find (is_reservation (live_pool_id r) (live_request_id r))
    (live_reservations l ++ [r]) = Some (length (live_reservations l), r)).
  { apply list_find_Some. split_and!.
    - rewrite lookup_app_r, Nat.sub_diag by lia. done.
    - done.
    - intros j r' Hj Hlt [Hp Hr]. apply Hno. apply list_elem_of_fmap. exists r'.
      rewrite lookup_app_l in Hj by done. split; [|by eapply list_elem_of_lookup_2].
      unfold live_key. by rewrite Hp, Hr. }
  rewrite Hfind. simpl. f_equal. rewrite delete_take_drop.
  rewrite take_app_length, drop_ge by (rewrite length_app; simpl; lia).
  rewrite app_nil_r. by destruct l.
Qed.

(** Reserving and rolling back is a round trip: the rollback of an accepted
    reservation returns its liability and the ledger before it. *)
Lemma reserve_rollback_roundtrip l pool request now min :
  let '(d, l') := ledger_reserve l pool request now min in
  if accepted d
  then rollback_uncommitted l' (request_pool_id request) (request_id request) =
         (Some (request_liability request), l)
  else l' = l.
Proof.
  pose proof (reserve_cases l pool request now min) as Hc.
  destruct (ledger_reserve l pool request now min) as [d l']. destruct (accepted d); [|by destruct Hc].
  destruct Hc as (before & after & _ & _ & _ & _ & _ & _ & _ & Hno & _ & ->).
  exact (rollback_last l (new_live request) Hno).
Qed.

(** ** [release], [remove_existing] and [revalue] *)

(** A removal that named an existing reservation of [p]. *)
Definition removed_from l l' (p id : text) (released : option D) : Prop :=
  ∃ i r, live_reservations l !! i = Some r ∧ live_pool_id r = p ∧ live_request_id r = id ∧
    released = Some (live_liability r) ∧ l' = set_live l (delete i (live_reservations l)).

Lemma release_cases l pool request now :
  let '(d, l') := ledger_release l pool request now in
  if release_accepted d
  then removed_from l l' (pool_id pool) (release_request_id request) (released_liability d) ∧
       (∀ r, r ∈ live_reservations l → live_key r = (pool_id pool, release_request_id request) →
          NoDup (live_key <$> live_reservations l) →
          live_observed_at_ns r < release_observed_at_ns request)
  else l' = l ∧ released_liability d = None ∧ is_Some (release_reason d).
Proof.
  unfold ledger_release.
  destruct (reconciliation_complete l); simpl; [|by split_and!; [| |eexists]].
  case_bool_decide as Hpool; simpl; [|by split_and!; [| |eexists]].
  destruct (blank _ || blank _ || blank _); [by split_and!; [| |eexists]|].
  destruct (blank _ || blank _); [by split_and!; [| |eexists]|].
  destruct (stale _ _ _ || stale _ _ _); [by split_and!; [| |eexists]|].
  destruct (position l _ _) as [[i r]|] eqn:Epos; [|by split_and!; [| |eexists]].
  apply position_Some in Epos as (Hi & Hp & Hid).
  case_bool_decide; simpl; [|by split_and!; [| |eexists]].
  case_bool_decide; simpl; [|by split_and!; [| |eexists]].
  destruct (Z.leb_spec (release_observed_at_ns request) (live_observed_at_ns r)); simpl;
    [by split_and!; [| |eexists]|].
  split; [by exists i, r|]. intros r' [j Hj]%list_elem_of_lookup Hk Hnd.
  assert (Hij : i = j).
  { eapply NoDup_lookup; [exact Hnd| |]; rewrite list_lookup_fmap.
    - by rewrite Hi.
    - rewrite Hj. simpl. rewrite Hk. unfold live_key. congruence. }
  subst j. congruence.
Qed.

(** A release gives back exactly what was reserved.  An accepted release removes one
    reservation of that pool, older than the evidence, returns its liability, lowers
    the pool's reserved capital by it and leaves every other pool alone; a rejection
    changes nothing. *)
Lemma release_returns_reserved_capital l pool request now :
  ledger_wf l →
  let '(d, l') := ledger_release l pool request now in
  if release_accepted d then
    ∃ r, r ∈ live_reservations l ∧
      live_key r = (pool_id pool, release_request_id request) ∧
      live_observed_at_ns r < release_observed_at_ns request ∧
      released_liability d = Some (live_liability r) ∧ ledger_wf l' ∧
      ¬ (live_key r ∈ live_key <$> live_reservations l') ∧
      reserved_value l' (pool_id pool) = reserved_value l (pool_id pool) - d_value (live_liability r) ∧
      (∀ p, p ≠ pool_id pool → reserved_value l' p = reserved_value l p)
  else l' = l ∧ released_liability d = None.
Proof.
  intros Hl. pose proof (release_cases l pool request now) as Hc.
  destruct (ledger_release l pool request now) as [d l']. destruct (release_accepted d); [|by destruct Hc as (? & ? & _)].
  destruct Hc as [(i & r & Hi & Hp & Hid & Hrel & ->) Hts].
  assert (Hin : r ∈ live_reservations l) by (by eapply list_elem_of_lookup_2).
  assert (Hkey : live_key r = (pool_id pool, release_request_id request)) by (unfold live_key; congruence).
  exists r. split_and!; try done.
  - by apply Hts; [| |apply Hl].
  - by apply wf_remove.
  - simpl. pose proof (wf_keys l Hl) as Hnd. rewrite list_fmap_delete, delete_take_drop.
    rewrite <- (take_drop_middle (live_key <$> live_reservations l) i (live_key r)) in Hnd
      by (by rewrite list_lookup_fmap, Hi).
    apply NoDup_app in Hnd as (_ & Hd1 & Hnd). apply NoDup_cons in Hnd as [Hd2 _].
    rewrite elem_of_app. intros [Hx|Hx]; [|done]. apply (Hd1 _ Hx). by left.
  - rewrite (removed_value l i r) by done. by rewrite decide_True.
  - intros p Hne. rewrite (removed_value l i r) by done. rewrite decide_False by congruence. lia.
Qed.

Lemma revalue_cases l pool (request : @ReservationRevalueRequest D) now min :
  let '(d, l') := ledger_revalue l pool request now min in
  if revalue_accepted d then
    ∃ i r before0 before after,
      live_reservations l !! i = Some r ∧ live_pool_id r = pool_id pool ∧
      live_request_id r = revalue_request_id request ∧
      live_observed_at_ns r < revalue_observed_at_ns request ∧
      d_leb (revalue_liability request) d_zero = false ∧
      available_pool_liability pool (live_reserved_liability l (pool_id pool)) = Some before0 ∧
      d_checked_add before0 (live_liability r) = Some before ∧
      d_gtb (revalue_liability request) before = false ∧
      d_checked_sub before (revalue_liability request) = Some after ∧
      below_min_remaining after min = false ∧
      l' = set_live l (<[i := mkLive (live_request_id r) (live_pool_id r)
             (live_collateral_group_id r) (revalue_liability request)
             (revalue_observed_at_ns request)]> (live_reservations l))
  else l' = l ∧ is_Some (revalue_reason d).
Proof.
  unfold ledger_revalue.
  destruct (reconciliation_complete l); simpl; [|by split; [|eexists]].
  case_bool_decide as Hpool; simpl; [|by split; [|eexists]].
  destruct (blank _ || blank _ || blank _); simpl; [by split; [|eexists]|].
  destruct (d_leb _ _) eqn:Hpos; [by split; [|eexists]|].
  destruct (blank _ || blank _); [by split; [|eexists]|].
  destruct (stale _ _ _ || stale _ _ _); [by split; [|eexists]|].
  destruct (position l _ _) as [[i r]|] eqn:Epos; [|by split; [|eexists]].
  apply position_Some in Epos as (Hi & Hp & Hid).
  case_bool_decide; simpl; [|by split; [|eexists]].
  case_bool_decide; simpl; [|by split; [|eexists]].
  destruct (Z.leb_spec (revalue_observed_at_ns request) (live_observed_at_ns r)); simpl;
    [by split; [|eexists]|].
  destruct (available_pool_liability _ _) as [b0|] eqn:Ea; simpl; [|by split; [|eexists]].
  destruct (d_checked_add _ _) as [b|] eqn:Eadd; [|by split; [|eexists]].
  destruct (d_gtb _ _) eqn:Hgt; [by split; [|eexists]|].
  destruct (d_checked_sub _ _) as [after|] eqn:Esub; [|by split; [|eexists]].
  destruct (below_min_remaining after min) eqn:Hmin; [by split; [|eexists]|]. simpl.
  by exists i, r, b0, b, after.
Qed.

(** An accepted revaluation replaces one liability by the new one and keeps the pool
    solvent: committed plus reserved capital stays within the maximum with the
    configured remainder left, whatever the old liability was, and no other pool
    changes. *)
Lemma revalue_keeps_pool_solvent l pool request now min :
  ledger_wf l → pool_ok pool → 4 * reserved_value l (pool_id pool) ≤ d_limit →
  d_exact (revalue_liability request) → Z.abs (d_value (revalue_liability request)) ≤ d_limit →
  (∀ m, min = Some m → d_exact m) →
  let '(d, l') := ledger_revalue l pool request now min in
  if revalue_accepted d then
    ledger_wf l' ∧
    (∃ r, r ∈ live_reservations l ∧ live_key r = (pool_id pool, revalue_request_id request) ∧
       reserved_value l' (pool_id pool) = reserved_value l (pool_id pool)
         - d_value (live_liability r) + d_value (revalue_liability request)) ∧
    (∀ p, p ≠ pool_id pool → reserved_value l' p = reserved_value l p) ∧
    d_value (committed_liability pool) + reserved_value l' (pool_id pool)
      ≤ d_value (max_pool_liability pool) ∧
    (∀ m, min = Some m →
       d_value (committed_liability pool) + reserved_value l' (pool_id pool) + d_value m
         ≤ d_value (max_pool_liability pool))
  else l' = l ∧ is_Some (revalue_reason d).
Proof.
  intros Hl Hp Hfit Hreq Hrange Hmin. pose proof (revalue_cases l pool request now min) as Hc.
  destruct (ledger_revalue l pool request now min) as [d l']. destruct (revalue_accepted d); [|done].
  destruct Hc as (i & r & b0 & b & after & Hi & Hpr & Hid & _ & Hpos & Ea & Eadd & Hg & Es & Hm & ->).
  destruct (available_exact l pool Hl Hp Hfit) as (a & Ea' & Hae & Hav).
  rewrite Ea in Ea'. injection Ea' as <-. destruct d_zero_exact as [Hz Hz0].
  pose proof (wf_live l Hl) as Hlive. rewrite Forall_forall in Hlive.
  destruct (Hlive r) as [Hre Hrv]; [by eapply list_elem_of_lookup_2|].
  pose proof (live_value_nonneg (pool_id pool) _ (wf_live l Hl)) as Hn.
  assert (Hle : d_value (live_liability r) ≤ reserved_value l (pool_id pool)).
  { unfold reserved_value. rewrite (live_value_split _ _ i r Hi), live_value_single, decide_True by done.
    pose proof (live_value_nonneg (pool_id pool) (delete i (live_reservations l))
      (Forall_delete _ _ _ (wf_live l Hl))). lia. }
  destruct Hp as [(Hmx & ? & ?) (Hcm & ? & ?)].
  destruct (d_add_exact b0 (live_liability r) Hae Hre ltac:(lia)) as (b' & Eb & Hbe & Hbv).
  rewrite Eadd in Eb. injection Eb as <-.
  rewrite d_gtb_value in Hg by done. rewrite d_leb_value, Hz0 in Hpos by done.
  apply Z.ltb_ge in Hg. apply Z.leb_gt in Hpos.
  destruct (d_sub_exact b (revalue_liability request) Hbe Hreq ltac:(lia)) as (x & Ex & Hx & Hxv).
  rewrite Es in Ex. injection Ex as <-.
  set (r' := mkLive _ _ _ _ _).
  assert (Hsum : ∀ p, reserved_value (set_live l (<[i := r']> (live_reservations l))) p =
    reserved_value l p - live_value p [r] + live_value p [r']).
  { intros p. unfold reserved_value. simpl. by apply live_value_insert. }
  rewrite !Hsum, !live_value_single. simpl. rewrite !decide_True by done.
  split_and!; [by eapply wf_update| | |lia|].
  - exists r. split_and!; [by eapply list_elem_of_lookup_2|unfold live_key; congruence|done].
  - intros p Hne. rewrite Hsum, !live_value_single. simpl. rewrite !decide_False by congruence. lia.
  - intros m ->. simpl in Hm. rewrite d_ltb_value in Hm; [|done|by apply Hmin].
    apply Z.ltb_ge in Hm. lia.
Qed.

(** An unreconciled ledger moves no capital: it refuses every reservation, release
    and revaluation and stays as it is. *)
Lemma unreconciled_refuses l pool request rel rev now min :
  reconciliation_complete l = false →
  (accepted (ledger_reserve l pool request now min).1 = false ∧
   (ledger_reserve l pool request now min).2 = l) ∧
  (ledger_release l pool rel now = (rejected_release ReconciliationRequired, l)) ∧
  (ledger_revalue l pool rev now min = (rejected_revalue ReconciliationRequired, l)).
Proof.
  intros Hr. unfold ledger_reserve, ledger_release, ledger_revalue. rewrite Hr. simpl.
  by destruct (available_pool_liability _ _).
Qed.

(** ** Any sequence of operations *)

Inductive ledger_op : Type :=
| LReserve (pool : @CapitalPoolSnapshot D) (request : @ReservationRequest D) (now : Z) (min : option D)
| LRelease (pool : @CapitalPoolSnapshot D) (request : ReservationReleaseRequest) (now : Z)
| LRevalue (pool : @CapitalPoolSnapshot D) (request : @ReservationRevalueRequest D) (now : Z)
    (min : option D)
| LRollback (p id : text)
| LRemove (p group id : text)
| LCarry (p : text) (r : @RetainedReservation D)
| LInvalidate.

Definition ledger_apply (op : ledger_op) l : ReservationLedger :=
  match op with
  | LReserve pool request now min => (ledger_reserve l pool request now min).2
  | LRelease pool request now => (ledger_release l pool request now).2
  | LRevalue pool request now min => (ledger_revalue l pool request now min).2
  | LRollback p id => (rollback_uncommitted l p id).2
  | LRemove p group id => (remove_existing l p group id).2
  | LCarry p r => (carry_retained l p r).2
  | LInvalidate => invalidate_reconciliation l
  end.

(** The amounts an operation brings in are on the grid. *)
Definition op_exact (op : ledger_op) : Prop :=
  match op with
  | LReserve _ request _ _ => d_exact (request_liability request)
  | LRevalue _ request _ _ => d_exact (revalue_liability request)
  | LCarry _ r => d_exact (live_liability r)
  | _ => True
  end.

Lemma positive_liability d : d_exact d → d_leb d d_zero = false → 0 < d_value d.
Proof.
  intros Hd. destruct d_zero_exact as [Hz Hz0]. rewrite d_leb_value, Hz0 by done. apply Z.leb_gt.
Qed.

Lemma carry_wf l p r : ledger_wf l → d_exact (live_liability r) → ledger_wf (carry_retained l p r).2.
Proof.
  intros Hl Hr. unfold carry_retained.
  destruct (bool_decide _); [|done].
  destruct (_ || d_leb _ _) eqn:Hbad; [done|].
  destruct (existsb _ _) eqn:Hdup; [done|]. apply absent_key in Hdup.
  apply orb_false_iff in Hbad as [_ Hpos]. apply wf_push; try done. by apply positive_liability.
Qed.

Lemma ledger_apply_wf op l : ledger_wf l → op_exact op → ledger_wf (ledger_apply op l).
Proof.
  intros Hl Hop. destruct op as [pool q now min|pool q now|pool q now min|p id|p g id|p r|]; simpl in *.
  - pose proof (reserve_cases l pool q now min) as Hc.
    destruct (ledger_reserve l pool q now min) as [d l']. destruct (accepted d); [|by destruct Hc as [-> _]].
    destruct Hc as (? & ? & _ & _ & _ & _ & _ & _ & Hpos & Hno & _ & ->).
    apply wf_push; try done. by apply positive_liability.
  - pose proof (release_cases l pool q now) as Hc.
    destruct (ledger_release l pool q now) as [d l'].
    destruct (release_accepted d); [|by destruct Hc as [-> _]].
    destruct Hc as [(i & r & _ & _ & _ & _ & ->) _]. by apply wf_remove.
  - pose proof (revalue_cases l pool q now min) as Hc.
    destruct (ledger_revalue l pool q now min) as [d l'].
    destruct (revalue_accepted d); [|by destruct Hc as [-> _]].
    destruct Hc as (i & r & ? & ? & ? & Hi & _ & _ & _ & Hpos & _ & _ & _ & _ & _ & ->).
    eapply wf_update; try done. by apply positive_liability.
  - unfold rollback_uncommitted. destruct (position l p id) as [[i r]|]; [by apply wf_remove|done].
  - unfold remove_existing. destruct (position l p id) as [[i r]|]; [|done].
    destruct (negb _); [done|by apply wf_remove].
  - by apply carry_wf.
  - by destruct Hl.
Qed.

(** Whatever sequence of operations a ledger goes through, its reservations stay
    unique per pool and request and each holds a positive liability. *)
Lemma ledger_always_well_formed (ops : list ledger_op) l :
  ledger_wf l → Forall op_exact ops → ledger_wf (foldl (λ l op, ledger_apply op l) l ops).
Proof.
  intros Hl Hops. revert l Hl. induction Hops as [|op ops Hop Hops IH]; intros l Hl; simpl; [done|].
  by apply IH, ledger_apply_wf.
Qed.

End Facts.

(** ** A pool of 100 with 30 committed *)

Definition demo_pool : @CapitalPoolSnapshot Z := mkPool (lit "nt") 100 (lit "p") 100 30 1000.
Definition demo_request : @ReservationRequest Z :=
  mkRequest (lit "r1") (lit "p") (lit "g") 40 100 (lit "evidence").
Definition demo_ledger : @ReservationLedger Z :=
  set_live reconciled [mkLive (lit "r1") (lit "p") (lit "g") 40 100].

Lemma demo_pool_ok : pool_ok demo_pool.
Proof. by repeat split. Qed.

Lemma empty_wf : ledger_wf (reconciled (D := Z)).
Proof. constructor; simpl; [constructor|by apply NoDup_nil]. Qed.

Lemma demo_ledger_wf : ledger_wf demo_ledger.
Proof. constructor; simpl; [by repeat constructor|by apply NoDup_singleton]. Qed.

Lemma reserve_keeps_pool_solvent_witness :
  accepted (ledger_reserve reconciled demo_pool demo_request 200 (Some 30)).1 = true ∧
  reserved_value (ledger_reserve reconciled demo_pool demo_request 200 (Some 30)).2 (lit "p") = 40.
Proof.
  pose proof (reserve_keeps_pool_solvent reconciled demo_pool demo_request 200 (Some 30)
    empty_wf demo_pool_ok ltac:(done) ltac:(done) ltac:(done) ltac:(by intros ? [= <-])) as Hc.
  destruct (ledger_reserve reconciled demo_pool demo_request 200 (Some 30)) as [d l'] eqn:E.
  assert (Ha : accepted d = true) by (by vm_compute in E; injection E as <- <-).
  rewrite Ha in Hc. destruct Hc as (_ & Hv & _). split; [done|]. etrans; [exact Hv|by vm_compute].
Defined.

Lemma release_returns_reserved_capital_witness :
  released_liability (ledger_release demo_ledger demo_pool
    (mkRelease (lit "r1") (lit "p") (lit "g") 150 (lit "evidence")) 200).1 = Some 40.
Proof.
  pose proof (release_returns_reserved_capital demo_ledger demo_pool
    (mkRelease (lit "r1") (lit "p") (lit "g") 150 (lit "evidence")) 200 demo_ledger_wf) as Hc.
  destruct (ledger_release demo_ledger demo_pool _ 200) as [d l'] eqn:E.
  assert (Ha : release_accepted d = true) by (by vm_compute in E; injection E as <- <-).
  rewrite Ha in Hc. destruct Hc as (r & Hin & _ & _ & Hrel & _).
  simpl in *. apply list_elem_of_singleton in Hin as ->. done.
Defined.

Definition demo_revalue : @ReservationRevalueRequest Z :=
  mkRevalue (lit "r1") (lit "p") (lit "g") 55 150 (lit "evidence").

Lemma revalue_keeps_pool_solvent_witness :
  revalue_accepted (ledger_revalue demo_ledger demo_pool demo_revalue 200 None).1 = true ∧
  30 + reserved_value (ledger_revalue demo_ledger demo_pool demo_revalue 200 None).2 (lit "p") ≤ 100.
Proof.
  pose proof (revalue_keeps_pool_solvent demo_ledger demo_pool demo_revalue 200 None
    demo_ledger_wf demo_pool_ok ltac:(by vm_compute) ltac:(done) ltac:(done) ltac:(done)) as Hc.
  destruct (ledger_revalue demo_ledger demo_pool demo_revalue 200 None) as [d l'] eqn:E.
  assert (Ha : revalue_accepted d = true) by (by vm_compute in E; injection E as <- <-).
  rewrite Ha in Hc. destruct Hc as (_ & _ & _ & Hv & _). split; [done|exact Hv].
Defined.

Lemma unreconciled_refuses_witness :
  ledger_release (unreconciled (D := Z)) demo_pool
    (mkRelease (lit "r1") (lit "p") (lit "g") 150 (lit "evidence")) 200 =
    (rejected_release ReconciliationRequired, unreconciled).
Proof.
  apply (unreconciled_refuses (unreconciled (D := Z)) demo_pool demo_request
    (mkRelease (lit "r1") (lit "p") (lit "g") 150 (lit "evidence")) demo_revalue 200 None). reflexivity.
Defined.

Lemma ledger_always_well_formed_witness :
  ledger_wf (foldl (λ l op, ledger_apply op l) reconciled
    [LReserve demo_pool demo_request 200 (Some 30); LRevalue demo_pool demo_revalue 200 None;
     LRollback (lit "p") (lit "r1")]).
Proof. apply ledger_always_well_formed; [apply empty_wf|by repeat constructor]. Defined.
