(* ===== verification/CapitalAdmissionState.v ===== *)
(** * Capital admission state

    Models [src/src/bolt_v3_capital_admission_state.rs]: the state of the node that an
    admission is judged on, assembled from NautilusTrader, and its validation
    ([validate_nt_derived_capital_admission_state]).  [None] is the panic of the
    [expect] on the source of a validated loss snapshot.  [ProductAdmissionSnapshot]
    is declared in [src/src/bolt_v3_capital_admission.rs]. *)

From Stdlib Require Import ZArith Lia.
From stdpp Require Import sorting strings gmap numbers list.
From S2P Require Import Prelude RustText DecimalAmount LossGovernor.

Open Scope Z_scope.

Inductive CapitalAdmissionStateEvidenceKind : Type :=
| KindState
| KindPortfolio
| KindProviderCollateralAllowance
| KindOrderLifecycle
| KindProductState
| KindReservationLedger
| KindLossSnapshot.

Inductive CapitalAdmissionStateError : Type :=
| ErrMissingNtState
| ErrStaleNtState (kind : CapitalAdmissionStateEvidenceKind)
| ErrUnattributedState (kind : CapitalAdmissionStateEvidenceKind).

Record OrderLifecycleCapitalAdmissionSnapshot : Type := mkOrderLifecycle {
  lifecycle_source : text;
  lifecycle_observed_at_ns : Z;
  open_order_count : Z;
  all_open_orders_attributed : bool;
}.

Record ReservationLedgerSnapshot : Type := mkReservationSnapshot {
  reservation_source : text;
  reservation_observed_at_ns : Z;
  all_live_reservations_attributed : bool;
}.

Record CapitalAdmissionStateEvidenceSource : Type := mkStateSource {
  state_source_kind : CapitalAdmissionStateEvidenceKind;
  state_source_name : text;
  state_source_observed_at_ns : Z;
}.

(** [CapitalAdmissionStateEvidence { sources }]. *)
Record CapitalAdmissionStateEvidence : Type := mkStateEvidence {
  state_evidence_sources : list CapitalAdmissionStateEvidenceSource;
}.

Definition validate_source (source : text) (kind : CapitalAdmissionStateEvidenceKind)
    : Result unit CapitalAdmissionStateError :=
  if blank source then Err (ErrUnattributedState kind) else Ok tt.

Definition validate_freshness (observed_at_ns now_ns max_snapshot_age_ns : Z)
    (kind : CapitalAdmissionStateEvidenceKind) : Result unit CapitalAdmissionStateError :=
  if (now_ns <? observed_at_ns) || (max_snapshot_age_ns <? now_ns - observed_at_ns)
  then Err (ErrStaleNtState kind) else Ok tt.

Section State.
Context {D : Type} `{DecimalOps D}.

Record PredictionMarketAdmissionSnapshot : Type := mkMarketSnapshot {
  product_source : text;
  product_observed_at_ns : Z;
  product_yes_instrument_id : text;
  product_no_instrument_id : text;
  yes_position : D;
  no_position : D;
  product_collateral_allowance : D;
  collateral_coupled_group_id : text;
}.

Inductive ProductAdmissionSnapshot : Type :=
| PredictionMarketBinary (snapshot : PredictionMarketAdmissionSnapshot).

Record PortfolioCapitalAdmissionSnapshot : Type := mkPortfolio {
  portfolio_source : text;
  portfolio_observed_at_ns : Z;
  portfolio_venue_id : text;
  portfolio_account_id : text;
  portfolio_collateral_currency : text;
  free_collateral : D;
  total_equity : D;
}.

Record ProviderCollateralAllowanceSnapshot : Type := mkAllowance {
  allowance_source : text;
  allowance_observed_at_ns : Z;
  allowance_venue_id : text;
  allowance_account_id : text;
  allowance_collateral_currency : text;
  collateral_allowance : D;
}.

Record NtDerivedCapitalAdmissionState : Type := mkNtState {
  state_source : text;
  state_observed_at_ns : Z;
  portfolio : PortfolioCapitalAdmissionSnapshot;
  provider_collateral_allowance : ProviderCollateralAllowanceSnapshot;
  order_lifecycle : OrderLifecycleCapitalAdmissionSnapshot;
  product_state : ProductAdmissionSnapshot;
  reservation_snapshot : ReservationLedgerSnapshot;
  loss_snapshot : option (LossSnapshot D);
}.

(** The product's source and observation time. *)
Definition product_evidence (p : ProductAdmissionSnapshot) : text * Z :=
  match p with PredictionMarketBinary s => (product_source s, product_observed_at_ns s) end.

Definition evidence_sources (state : NtDerivedCapitalAdmissionState)
    : option (list CapitalAdmissionStateEvidenceSource) :=
  let '(source, observed_at_ns) := product_evidence (product_state state) in
  let sources :=
    [ mkStateSource KindState (state_source state) (state_observed_at_ns state);
      mkStateSource KindPortfolio (portfolio_source (portfolio state))
        (portfolio_observed_at_ns (portfolio state));
      mkStateSource KindProviderCollateralAllowance
        (allowance_source (provider_collateral_allowance state))
        (allowance_observed_at_ns (provider_collateral_allowance state));
      mkStateSource KindOrderLifecycle (lifecycle_source (order_lifecycle state))
        (lifecycle_observed_at_ns (order_lifecycle state));
      mkStateSource KindProductState source observed_at_ns;
      mkStateSource KindReservationLedger (reservation_source (reservation_snapshot state))
        (reservation_observed_at_ns (reservation_snapshot state)) ] in
  match loss_snapshot state with
  | None => Some sources
  | Some loss =>
      (* .expect("validated loss snapshot source must exist") *)
      source ← snapshot_source loss;
      Some (sources ++ [mkStateSource KindLossSnapshot (lit (source_as_str source))
                          (snapshot_observed_at_ns loss)])
  end.

(** Every check, in the order of the code. *)
Definition state_checks (state : NtDerivedCapitalAdmissionState) (now_ns max_snapshot_age_ns : Z)
    : Result unit CapitalAdmissionStateError :=
  let fresh observed kind := validate_freshness observed now_ns max_snapshot_age_ns kind in
  validate_source (state_source state) KindState ;;?
  fresh (state_observed_at_ns state) KindState ;;?
  validate_source (portfolio_source (portfolio state)) KindPortfolio ;;?
  fresh (portfolio_observed_at_ns (portfolio state)) KindPortfolio ;;?
  validate_source (allowance_source (provider_collateral_allowance state))
    KindProviderCollateralAllowance ;;?
  fresh (allowance_observed_at_ns (provider_collateral_allowance state))
    KindProviderCollateralAllowance ;;?
  validate_source (lifecycle_source (order_lifecycle state)) KindOrderLifecycle ;;?
  fresh (lifecycle_observed_at_ns (order_lifecycle state)) KindOrderLifecycle ;;?
  ensure (all_open_orders_attributed (order_lifecycle state))
    (ErrUnattributedState KindOrderLifecycle) ;;?
  validate_source (product_evidence (product_state state)).1 KindProductState ;;?
  fresh (product_evidence (product_state state)).2 KindProductState ;;?
  validate_source (reservation_source (reservation_snapshot state)) KindReservationLedger ;;?
  fresh (reservation_observed_at_ns (reservation_snapshot state)) KindReservationLedger ;;?
  ensure (all_live_reservations_attributed (reservation_snapshot state))
    (ErrUnattributedState KindReservationLedger) ;;?
  match loss_snapshot state with
  | None => Ok tt
  | Some loss =>
      ensure (is_some (snapshot_source loss)) (ErrUnattributedState KindLossSnapshot) ;;?
      fresh (snapshot_observed_at_ns loss) KindLossSnapshot
  end.

Definition validate_nt_derived_capital_admission_state
    (state : option NtDerivedCapitalAdmissionState) (now_ns max_snapshot_age_ns : Z)
    : option (Result CapitalAdmissionStateEvidence CapitalAdmissionStateError) :=
  match state with
  | None => Some (Err ErrMissingNtState)
  | Some state =>
      match state_checks state now_ns max_snapshot_age_ns with
      | Err e => Some (Err e)
      | Ok _ => sources ← evidence_sources state; Some (Ok (mkStateEvidence sources))
      end
  end.

End State.
Arguments PredictionMarketAdmissionSnapshot D : clear implicits.
Arguments ProductAdmissionSnapshot D : clear implicits.
Arguments PortfolioCapitalAdmissionSnapshot D : clear implicits.
Arguments ProviderCollateralAllowanceSnapshot D : clear implicits.
Arguments NtDerivedCapitalAdmissionState D : clear implicits.
