(* ===== verification/CapitalAdmission.v ===== *)
(** * Capital admission

    Models [src/src/bolt_v3_capital_admission.rs]: the worst-case liability of an
    order, the admission decision that composes the state validation, the loss
    governor and the reservation ledger, and [CapitalAdmissionGate] with its rebuild
    from open orders.  Functions that take [&mut ledger] return it afterwards; [None] is
    a panic (of the loss governor's subtraction or of the evidence's [expect]). *)

From Stdlib Require Import ZArith Lia.
From stdpp Require Import sorting strings gmap numbers list.
From S2P Require Import Prelude RustText DecimalAmount LossGovernor CapitalReservation.
From S2P Require Import CapitalAdmissionState.

Open Scope Z_scope.

Inductive IntentSide : Type := Buy | Sell.
Inductive IntentOrderKind : Type := LimitOrder | MarketOrder.
Inductive IntentLiquidity : Type := Taker | RestingMaker.
Inductive ProductKind : Type := ProductPredictionMarketBinary.

Inductive LiabilityError : Type :=
| MissingMarketState
| MissingFeePolicy
| MissingSlippagePolicy
| InvalidIntentPrice
| InvalidIntentQuantity
| MissingQuoteSetId
| InsufficientAllowance
| InsufficientInventory
| ArithmeticOverflow.

Inductive CapitalAdmissionInvariant : Type :=
| AcceptedReservationHasRejectionReason
| ContradictoryReservationDecisionContext
| MissingReservationRejectionReason.

Inductive ValidatedReservationDecision : Type :=
| ValidatedAccepted
| ValidatedRejected (reason : ReservationRejectionReason).

Inductive CapitalAdmissionReason : Type :=
| ReasonLoss (reason : LossHaltReason)
| ReasonReservation (reason : ReservationRejectionReason)
| ReasonLiability (error : LiabilityError)
| ReasonInvariant (invariant : CapitalAdmissionInvariant)
| ReasonMissingNtState
| ReasonStaleNtState (kind : CapitalAdmissionStateEvidenceKind)
| ReasonUnattributedNtState (kind : CapitalAdmissionStateEvidenceKind).

Inductive CapitalAdmissionEvidenceKind : Type :=
| EvidencePortfolio
| EvidenceProviderCollateralAllowance
| EvidenceOrderLifecycle
| EvidenceProductState
| EvidenceReservationLedger
| EvidenceLossSnapshot
| EvidenceLiabilityCalculator.

Record CapitalAdmissionEvidenceSource : Type := mkEvidenceSource {
  evidence_source_kind : CapitalAdmissionEvidenceKind;
  evidence_source_name : text;
  evidence_source_observed_at_ns : Z;
}.

Definition capital_admission_evidence_kind (kind : CapitalAdmissionStateEvidenceKind)
    : option CapitalAdmissionEvidenceKind :=
  match kind with
  | KindState => None
  | KindPortfolio => Some EvidencePortfolio
  | KindProviderCollateralAllowance => Some EvidenceProviderCollateralAllowance
  | KindOrderLifecycle => Some EvidenceOrderLifecycle
  | KindProductState => Some EvidenceProductState
  | KindReservationLedger => Some EvidenceReservationLedger
  | KindLossSnapshot => Some EvidenceLossSnapshot
  end.

Definition state_error_reason (error : CapitalAdmissionStateError) : CapitalAdmissionReason :=
  match error with
  | ErrMissingNtState => ReasonMissingNtState
  | ErrStaleNtState kind => ReasonStaleNtState kind
  | ErrUnattributedState kind => ReasonUnattributedNtState kind
  end.

Section Admission.
Context {D : Type} `{DecimalOps D}.

Record FeeSlippagePolicy : Type := mkFeePolicy {
  max_fee_liability : D;
  max_slippage_liability : D;
}.

Record CapitalAdmissionPolicy : Type := mkAdmissionPolicy {
  min_remaining_pool_balance : option D;
  fee_slippage_policy : option FeeSlippagePolicy;
}.

Record CapitalAdmissionRequest : Type := mkAdmissionRequest {
  intent_id : text;
  strategy_id : text;
  instrument_id : text;
  admission_pool_id : text;
  product_kind : ProductKind;
  side : IntentSide;
  quantity : D;
  limit_price : D;
  order_kind : IntentOrderKind;
  liquidity : IntentLiquidity;
  quote_set_id : option text;
  admission_now_ns : Z;
}.

Record LiabilityQuote : Type := mkLiabilityQuote {
  quote_original_quantity : D;
  quote_accepted_quantity : D;
  quote_calculated_liability : D;
  quote_reserved_liability : D;
  quote_evidence_label : text;
}.

Record CapitalAdmissionEvidence : Type := mkEvidence {
  evidence_sources_of : list CapitalAdmissionEvidenceSource;
  evidence_original_quantity : D;
  evidence_accepted_quantity : option D;
  evidence_calculated_liability : option D;
  evidence_reserved_liability : option D;
}.

Record CapitalAdmissionDecision : Type := mkAdmissionDecision {
  admission_accepted : bool;
  admission_original_quantity : D;
  admission_accepted_quantity : option D;
  admission_calculated_liability : option D;
  admission_reserved_liability : option D;
  admission_decision_pool_id : text;
  admission_evidence_of : CapitalAdmissionEvidence;
  admission_reasons : list CapitalAdmissionReason;
}.

(** ** The worst-case liability *)

Definition validate_request (request : CapitalAdmissionRequest) : Result unit LiabilityError :=
  if d_leb (quantity request) d_zero then Err InvalidIntentQuantity
  else if d_ltb (limit_price request) d_zero || d_gtb (limit_price request) d_one
  then Err InvalidIntentPrice
  else Ok tt.

Definition validate_liquidity (request : CapitalAdmissionRequest) : Result unit LiabilityError :=
  match liquidity request, quote_set_id request with
  | RestingMaker, None | RestingMaker, Some [] => Err MissingQuoteSetId
  | _, _ => Ok tt
  end.

Definition validate_fee_slippage_policy (policy : FeeSlippagePolicy) : Result unit LiabilityError :=
  if d_ltb (max_fee_liability policy) d_zero then Err MissingFeePolicy
  else if d_ltb (max_slippage_liability policy) d_zero then Err MissingSlippagePolicy
  else Ok tt.

(** The position a sell is covered by: the outcome the instrument names. *)
Definition outcome_position (request : CapitalAdmissionRequest)
    (snapshot : PredictionMarketAdmissionSnapshot D) : option D :=
  if bool_decide (instrument_id request = product_yes_instrument_id snapshot)
  then Some (yes_position snapshot)
  else if bool_decide (instrument_id request = product_no_instrument_id snapshot)
  then Some (no_position snapshot)
  else None.

Definition worst_case_liability (request : CapitalAdmissionRequest)
    (state : ProductAdmissionSnapshot D) (policy : CapitalAdmissionPolicy)
    : Result LiabilityQuote LiabilityError :=
  match state with
  | PredictionMarketBinary snapshot =>
      validate_request request ;;?
      validate_liquidity request ;;?
      fee_policy ←? ok_or (fee_slippage_policy policy) MissingFeePolicy;
      validate_fee_slippage_policy fee_policy ;;?
      base_liability ←?
        match side request with
        | Buy => ok_or (d_checked_mul (quantity request) (limit_price request)) ArithmeticOverflow
        | Sell => Ok d_zero
        end;
      liability ←?
        ok_or (with_fee ← d_checked_add base_liability (max_fee_liability fee_policy);
               d_checked_add with_fee (max_slippage_liability fee_policy)) ArithmeticOverflow;
      match side request with
      | Buy =>
          ensure (negb (d_ltb (product_collateral_allowance snapshot) liability))
            InsufficientAllowance
      | Sell =>
          position ←? ok_or (outcome_position request snapshot) InsufficientInventory;
          ensure (negb (d_ltb position (quantity request))) InsufficientInventory
      end ;;?
      Ok {| quote_original_quantity := quantity request;
            quote_accepted_quantity := quantity request;
            quote_calculated_liability := liability;
            quote_reserved_liability := liability;
            quote_evidence_label := product_source snapshot |}
  end.

(** ** The decision *)

Definition validate_reservation_decision (decision : @ReservationDecision D)
    : Result ValidatedReservationDecision CapitalAdmissionInvariant :=
  match accepted decision, decision_reason decision, available_after decision with
  | true, None, Some _ => Ok ValidatedAccepted
  | false, Some reason, None => Ok (ValidatedRejected reason)
  | false, None, _ => Err MissingReservationRejectionReason
  | true, Some _, _ => Err AcceptedReservationHasRejectionReason
  | _, _, _ => Err ContradictoryReservationDecisionContext
  end.

Definition empty_evidence (original_quantity : D) : CapitalAdmissionEvidence :=
  mkEvidence [] original_quantity None None None.

Definition rejected_capital_admission (original_quantity : D) (pool : text)
    (reasons : list CapitalAdmissionReason) : CapitalAdmissionDecision :=
  mkAdmissionDecision false original_quantity None None None pool
    (empty_evidence original_quantity) reasons.

Definition rejected_capital_admission_with_liability (original_quantity : D) (pool : text)
    (calculated reserved : D) (evidence : CapitalAdmissionEvidence)
    (reasons : list CapitalAdmissionReason) : CapitalAdmissionDecision :=
  mkAdmissionDecision false original_quantity None (Some calculated) (Some reserved) pool
    evidence reasons.

Definition admission_evidence (state_evidence : CapitalAdmissionStateEvidence)
    (liability_observed_at_ns : Z) (quote : LiabilityQuote) : CapitalAdmissionEvidence :=
  let sources :=
    omap (λ source,
      kind ← capital_admission_evidence_kind (state_source_kind source);
      Some (mkEvidenceSource kind (state_source_name source) (state_source_observed_at_ns source)))
      (state_evidence_sources state_evidence) in
  mkEvidence
    (sources ++ [mkEvidenceSource EvidenceLiabilityCalculator (quote_evidence_label quote)
                   liability_observed_at_ns])
    (quote_original_quantity quote) (Some (quote_accepted_quantity quote))
    (Some (quote_calculated_liability quote)) (Some (quote_reserved_liability quote)).

Definition collateral_group_id (state : ProductAdmissionSnapshot D) : text :=
  match state with PredictionMarketBinary snapshot => collateral_coupled_group_id snapshot end.

Definition reservation_request_of (request : CapitalAdmissionRequest)
    (state : NtDerivedCapitalAdmissionState D) (quote : LiabilityQuote) : @ReservationRequest D :=
  {| request_id := intent_id request;
     request_pool_id := admission_pool_id request;
     request_collateral_group_id := collateral_group_id (product_state state);
     request_liability := quote_reserved_liability quote;
     request_observed_at_ns := admission_now_ns request;
     request_evidence_label := quote_evidence_label quote |}.

(** From the liability on: reserve, check the ledger's decision, decide. *)
Definition reserve_admission (request : CapitalAdmissionRequest)
    (state : NtDerivedCapitalAdmissionState D) (policy : CapitalAdmissionPolicy)
    (pool : @CapitalPoolSnapshot D) (ledger : @ReservationLedger D)
    (state_evidence : CapitalAdmissionStateEvidence) (quote : LiabilityQuote)
    : CapitalAdmissionDecision * ReservationLedger :=
  let evidence := admission_evidence state_evidence (admission_now_ns request) quote in
  let reject reasons :=
    rejected_capital_admission_with_liability (quantity request) (admission_pool_id request)
      (quote_calculated_liability quote) (quote_reserved_liability quote) evidence reasons in
  let '(decision, ledger') :=
    ledger_reserve ledger pool (reservation_request_of request state quote)
      (admission_now_ns request) (min_remaining_pool_balance policy) in
  match validate_reservation_decision decision with
  | Err invariant =>
      (reject [ReasonInvariant invariant],
       (rollback_uncommitted ledger' (admission_pool_id request) (intent_id request)).2)
  | Ok (ValidatedRejected reason) => (reject [ReasonReservation reason], ledger')
  | Ok ValidatedAccepted =>
      (mkAdmissionDecision true (quantity request) (Some (quote_accepted_quantity quote))
         (Some (quote_calculated_liability quote)) (Some (quote_reserved_liability quote))
         (admission_pool_id request) evidence [],
       ledger')
  end.

(** The loss gate: the reasons to refuse, if a policy is configured and refuses. *)
Definition loss_gate (loss_policy : option (LossGovernorPolicy D))
    (state : NtDerivedCapitalAdmissionState D) (now_ns : Z) : option (option (list LossHaltReason)) :=
  match loss_policy with
  | None => Some None
  | Some policy =>
      decision ← evaluate_loss_admission policy (loss_snapshot state) now_ns;
      Some (if loss_accepted decision then None else Some (halt_reasons decision))
  end.

Definition evaluate_capital_admission (request : CapitalAdmissionRequest)
    (state : option (NtDerivedCapitalAdmissionState D)) (policy : CapitalAdmissionPolicy)
    (loss_policy : option (LossGovernorPolicy D)) (pool : @CapitalPoolSnapshot D)
    (ledger : @ReservationLedger D) : option (CapitalAdmissionDecision * ReservationLedger) :=
  let reject reasons :=
    (rejected_capital_admission (quantity request) (admission_pool_id request) reasons, ledger) in
  if negb (bool_decide (pool_id pool = admission_pool_id request))
  then Some (reject [ReasonReservation PoolMismatch])
  else
    match state with
    | None => Some (reject [ReasonMissingNtState])
    | Some state =>
        validated ← validate_nt_derived_capital_admission_state (Some state)
                      (admission_now_ns request) (max_snapshot_age_ns pool);
        match validated with
        | Err error => Some (reject [state_error_reason error])
        | Ok state_evidence =>
            halted ← loss_gate loss_policy state (admission_now_ns request);
            match halted with
            | Some reasons => Some (reject (ReasonLoss <$> reasons))
            | None =>
                match worst_case_liability request (product_state state) policy with
                | Err error => Some (reject [ReasonLiability error])
                | Ok quote =>
                    Some (reserve_admission request state policy pool ledger state_evidence quote)
                end
            end
        end
    end.

(** ** The gate *)

(** [CapitalAdmissionGate { reservation_ledger }]. *)
Record CapitalAdmissionGate : Type := mkGate { reservation_ledger : @ReservationLedger D }.

Inductive CapitalAdmissionReservationEvidence : Type :=
| NtOpenOrder (request : @ReservationRequest D)
| RetainedLifecycleReservation (retained : @RetainedReservation D).

Record CapitalAdmissionRebuildDecision : Type := mkRebuild {
  rebuild_accepted : bool;
  rebuild_reason : option ReservationRejectionReason;
  attempted_reservation_count : Z;
  rebuilt_reservation_count : Z;
  rebuild_live_reserved_liability : D;
}.

Definition gate_unreconciled : CapitalAdmissionGate := mkGate unreconciled.
Definition gate_reconciled : CapitalAdmissionGate := mkGate reconciled.

Definition is_reconciled (g : CapitalAdmissionGate) : bool :=
  reconciliation_complete (reservation_ledger g).

Definition gate_invalidate_reconciliation (g : CapitalAdmissionGate) : CapitalAdmissionGate :=
  mkGate (invalidate_reconciliation (reservation_ledger g)).

Definition gate_live_reserved_liability (g : CapitalAdmissionGate) (pool : text) : D :=
  live_reserved_liability (reservation_ledger g) pool.

(** The type of the [reserve] argument of [rebuild_open_order_reservations_with]. *)
Definition reserver : Type :=
  @ReservationLedger D → @CapitalPoolSnapshot D → @ReservationRequest D → Z → option D →
  @ReservationDecision D * @ReservationLedger D.

(** One candidate: the outer error is an invariant violation, the inner one a refusal. *)
Definition rebuild_candidate (reserve : reserver) (pool : @CapitalPoolSnapshot D)
    (evidence : CapitalAdmissionReservationEvidence) (now_ns : Z) (min_remaining : option D)
    (ledger : @ReservationLedger D)
    : Result (Result unit ReservationRejectionReason) CapitalAdmissionInvariant * ReservationLedger :=
  match evidence with
  | NtOpenOrder reservation =>
      if negb (bool_decide (pool_id pool = request_pool_id reservation))
      then (Ok (Err PoolMismatch), ledger)
      else
        let '(decision, ledger') := reserve ledger pool reservation now_ns min_remaining in
        (match validate_reservation_decision decision with
         | Ok ValidatedAccepted => Ok (Ok tt)
         | Ok (ValidatedRejected reason) => Ok (Err reason)
         | Err invariant => Err invariant
         end, ledger')
  | RetainedLifecycleReservation retained =>
      let '(carried, ledger') := carry_retained ledger (pool_id pool) retained in
      (match carried with Ok _ => Ok (Ok tt) | Err reason => Ok (Err reason) end, ledger')
  end.

(** The loop over the evidence, from position [index] on. *)
Fixpoint rebuild_loop (reserve : reserver) (g : CapitalAdmissionGate) (pool : @CapitalPoolSnapshot D)
    (now_ns : Z) (min_remaining : option D) (index : Z)
    (evidence : list CapitalAdmissionReservationEvidence) (rebuilt : @ReservationLedger D)
    : Result CapitalAdmissionRebuildDecision CapitalAdmissionInvariant * CapitalAdmissionGate :=
  match evidence with
  | [] =>
      let g := mkGate rebuilt in
      (Ok (mkRebuild true None index index (gate_live_reserved_liability g (pool_id pool))), g)
  | item :: evidence' =>
      match rebuild_candidate reserve pool item now_ns min_remaining rebuilt with
      | (Err invariant, _) => (Err invariant, gate_invalidate_reconciliation g)
      | (Ok (Err reason), _) =>
          let g := gate_invalidate_reconciliation g in
          (Ok (mkRebuild false (Some reason) (index + 1) index
                 (gate_live_reserved_liability g (pool_id pool))), g)
      | (Ok (Ok _), rebuilt') =>
          rebuild_loop reserve g pool now_ns min_remaining (index + 1) evidence' rebuilt'
      end
  end.

Definition rebuild_open_order_reservations_with (reserve : reserver) (g : CapitalAdmissionGate)
    (pool : @CapitalPoolSnapshot D) (evidence : list CapitalAdmissionReservationEvidence)
    (now_ns : Z) (min_remaining : option D)
    : Result CapitalAdmissionRebuildDecision CapitalAdmissionInvariant * CapitalAdmissionGate :=
  rebuild_loop reserve g pool now_ns min_remaining 0 evidence reconciled.

Definition rebuild_open_order_reservations (g : CapitalAdmissionGate)
    (pool : @CapitalPoolSnapshot D) (evidence : list CapitalAdmissionReservationEvidence)
    (now_ns : Z) (min_remaining : option D)
    : Result CapitalAdmissionRebuildDecision CapitalAdmissionInvariant * CapitalAdmissionGate :=
  rebuild_open_order_reservations_with ledger_reserve g pool evidence now_ns min_remaining.

Definition gate_retained_reservation (g : CapitalAdmissionGate) (pool group id : text)
    : Result (@RetainedReservation D) ReservationRejectionReason :=
  retained_reservation (reservation_ledger g) pool group id.

Definition gate_remove_existing (g : CapitalAdmissionGate) (pool group id : text)
    : @ReservationReleaseDecision D * CapitalAdmissionGate :=
  let '(decision, ledger) := remove_existing (reservation_ledger g) pool group id in
  (decision, mkGate ledger).

Definition evaluate_and_reserve (g : CapitalAdmissionGate) (request : CapitalAdmissionRequest)
    (state : option (NtDerivedCapitalAdmissionState D)) (policy : CapitalAdmissionPolicy)
    (loss_policy : option (LossGovernorPolicy D)) (pool : @CapitalPoolSnapshot D)
    : option (CapitalAdmissionDecision * CapitalAdmissionGate) :=
  '(decision, ledger) ← evaluate_capital_admission request state policy loss_policy pool
                          (reservation_ledger g);
  Some (decision, mkGate ledger).

Definition rollback_uncommitted_reservation (g : CapitalAdmissionGate) (pool id : text)
    : option D * CapitalAdmissionGate :=
  let '(liability, ledger) := rollback_uncommitted (reservation_ledger g) pool id in
  (liability, mkGate ledger).

End Admission.
Arguments CapitalAdmissionPolicy D : clear implicits.
Arguments CapitalAdmissionRequest D : clear implicits.
Arguments CapitalAdmissionDecision D : clear implicits.
Arguments LiabilityQuote D : clear implicits.
Arguments CapitalAdmissionGate D : clear implicits.
Arguments CapitalAdmissionReservationEvidence D : clear implicits.
