(* ===== verification/CapitalAdmissionFacts.v ===== *)
(** * Capital admission: what an acceptance means

    [state_trusted] is what a validated state satisfies; [liability_of] the liability
    of an order as an integer.  An accepted admission passed every gate and reserved
    its whole worst-case liability within the pool; a rejected one says why and leaves
    the ledger.  A rebuild from open orders replaces the ledger in full or not at all. *)

From Stdlib Require Import ZArith Lia.
From stdpp Require Import sorting strings gmap numbers list.
From S2P Require Import Prelude RustText DecimalAmount LossGovernor CapitalReservation.
From S2P Require Import CapitalReservationFacts CapitalAdmissionState CapitalAdmission.

Open Scope Z_scope.

(** ** The validated state *)

Definition trusted (source : text) (observed now age : Z) : Prop :=
  blank source = false ∧ observed ≤ now ∧ now - observed ≤ age.

Lemma validate_source_Ok source kind u : validate_source source kind = Ok u ↔ blank source = false.
Proof. unfold validate_source. destruct (blank source), u; by split. Qed.

Lemma validate_freshness_Ok observed now age kind u :
  validate_freshness observed now age kind = Ok u ↔ observed ≤ now ∧ now - observed ≤ age.
Proof.
  unfold validate_freshness. destruct u, (Z.ltb_spec now observed); simpl; [split; [done|lia]|].
  destruct (Z.ltb_spec age (now - observed)); [split; [done|lia]|]. by split.
Qed.

Section State.
Context {D : Type} `{DecimalOps D}.
Implicit Types (s : NtDerivedCapitalAdmissionState D).

(** Every part of the state names its source, was observed neither in the future nor
    too long ago, and all open orders and live reservations are attributed. *)
Record state_trusted s (now age : Z) : Prop := {
  trusted_state : trusted (state_source s) (state_observed_at_ns s) now age;
  trusted_portfolio :
    trusted (portfolio_source (portfolio s)) (portfolio_observed_at_ns (portfolio s)) now age;
  trusted_allowance :
    trusted (allowance_source (provider_collateral_allowance s))
      (allowance_observed_at_ns (provider_collateral_allowance s)) now age;
  trusted_lifecycle :
    trusted (lifecycle_source (order_lifecycle s))
      (lifecycle_observed_at_ns (order_lifecycle s)) now age;
  trusted_orders : all_open_orders_attributed (order_lifecycle s) = true;
  trusted_product :
    trusted (product_evidence (product_state s)).1 (product_evidence (product_state s)).2 now age;
  trusted_reservation :
    trusted (reservation_source (reservation_snapshot s))
      (reservation_observed_at_ns (reservation_snapshot s)) now age;
  trusted_reservations : all_live_reservations_attributed (reservation_snapshot s) = true;
  trusted_loss : ∀ loss, loss_snapshot s = Some loss →
    is_Some (snapshot_source loss) ∧ snapshot_observed_at_ns loss ≤ now ∧
    now - snapshot_observed_at_ns loss ≤ age;
}.

Lemma state_checks_Ok s now age u : state_checks s now age = Ok u ↔ state_trusted s now age.
Proof.
  unfold state_checks. split.
  - intros Hc. result_inv.
    repeat match goal with
    | E : validate_source _ _ = Ok _ |- _ => apply validate_source_Ok in E
    | E : validate_freshness _ _ _ _ = Ok _ |- _ => apply validate_freshness_Ok in E
    end.
    constructor; [by split..|done|by split|by split|done|]. intros loss Hl. rewrite Hl in Hc. result_inv.
    apply validate_freshness_Ok in Hc. split; [|done]. by destruct (snapshot_source loss).
  - intros [[? ?] [? ?] [? ?] [? ?] Ho [? ?] [? ?] Hr Hl]. destruct u.
    repeat (apply result_bind_Ok; exists tt; split;
      [first [by apply validate_source_Ok|by apply validate_freshness_Ok|by apply ensure_Ok]|]).
    destruct (loss_snapshot s) as [loss|]; [|done]. destruct (Hl loss eq_refl) as [[src Hs] Hf].
    rewrite Hs. simpl. by apply validate_freshness_Ok.
Qed.

Lemma evidence_sources_total s now age :
  state_trusted s now age → ∃ sources, evidence_sources s = Some sources.
Proof.
  intros Ht. unfold evidence_sources. destruct (product_evidence _).
  destruct (loss_snapshot s) as [loss|] eqn:El; [|by eexists].
  destruct (trusted_loss _ _ _ Ht loss El) as [[src ->] _]. by eexists.
Qed.

Lemma validate_cases s now age :
  ∃ r, validate_nt_derived_capital_admission_state (Some s) now age = Some r ∧
    match r with
    | Ok e => state_trusted s now age ∧ evidence_sources s = Some (state_evidence_sources e)
    | Err e => ¬ state_trusted s now age
    end.
Proof.
  simpl. destruct (state_checks s now age) as [u|e] eqn:Ec.
  - apply state_checks_Ok in Ec. destruct (evidence_sources_total _ _ _ Ec) as [sources Es].
    rewrite Es. by eexists.
  - eexists. split; [done|]. intros Ht. apply (state_checks_Ok _ _ _ tt) in Ht. congruence.
Qed.

End State.

(** ** The liability of an order *)

Section Liability.
Context `{DecimalLaws D}.
Implicit Types (request : CapitalAdmissionRequest D) (q : LiabilityQuote D).

(** [v] is what the order itself can cost, before fees and slippage. *)
Definition base_value request (v : Z) : Prop :=
  match side request with
  | Buy => d_value (quantity request) * d_value (limit_price request) = v * d_unit
  | Sell => v = 0
  end.

(** The worst-case liability: the cost, the fees and the slippage. *)
Definition liability_of (fees : @FeeSlippagePolicy D) (v : Z) : Z :=
  v + d_value (max_fee_liability fees) + d_value (max_slippage_liability fees).

(** All amounts of the order are on the grid and its liability fits. *)
Record order_exact request (snapshot : PredictionMarketAdmissionSnapshot D)
    (fees : @FeeSlippagePolicy D) (v : Z) : Prop := {
  exact_quantity : d_exact (quantity request);
  exact_price : d_exact (limit_price request);
  exact_fee : d_exact (max_fee_liability fees);
  exact_slippage : d_exact (max_slippage_liability fees);
  exact_allowance : d_exact (product_collateral_allowance snapshot);
  exact_positions : d_exact (yes_position snapshot) ∧ d_exact (no_position snapshot);
  exact_base : base_value request v;
  exact_fits : Z.abs v ≤ d_limit ∧ Z.abs (v + d_value (max_fee_liability fees)) ≤ d_limit ∧
               Z.abs (liability_of fees v) ≤ d_limit;
}.

(** What the order needs: a buy its allowance, a sell the position it sells. *)
Definition covered request (snapshot : PredictionMarketAdmissionSnapshot D) (liability : Z) : Prop :=
  match side request with
  | Buy => liability ≤ d_value (product_collateral_allowance snapshot)
  | Sell => ∃ p, outcome_position request snapshot = Some p ∧ d_value (quantity request) ≤ d_value p
  end.

Definition order_valid request (fees : @FeeSlippagePolicy D) : Prop :=
  0 < d_value (quantity request) ∧
  0 ≤ d_value (limit_price request) ≤ d_unit ∧
  (liquidity request = RestingMaker → ∃ id, quote_set_id request = Some id ∧ id ≠ []) ∧
  0 ≤ d_value (max_fee_liability fees) ∧ 0 ≤ d_value (max_slippage_liability fees).

Lemma validate_request_Ok request u :
  d_exact (quantity request) → d_exact (limit_price request) →
  validate_request request = Ok u ↔
    0 < d_value (quantity request) ∧ 0 ≤ d_value (limit_price request) ≤ d_unit.
Proof.
  intros Hq Hp. unfold validate_request. destruct d_zero_exact as [Hz Hz0], d_one_exact as [Ho Ho1].
  rewrite d_leb_value, d_ltb_value, d_gtb_value, Hz0, Ho1 by done. destruct u.
  destruct (Z.leb_spec (d_value (quantity request)) 0); [split; [done|lia]|].
  destruct (Z.ltb_spec (d_value (limit_price request)) 0); simpl; [split; [done|lia]|].
  destruct (Z.ltb_spec d_unit (d_value (limit_price request))); [split; [done|lia]|]. split; [lia|done].
Qed.

Lemma validate_liquidity_Ok request u :
  validate_liquidity request = Ok u ↔
    (liquidity request = RestingMaker → ∃ id, quote_set_id request = Some id ∧ id ≠ []).
Proof.
  unfold validate_liquidity. destruct u, (liquidity request); [by split|].
  destruct (quote_set_id request) as [[|c id]|].
  - split; [done|]. by intros (? & [= <-] & ?).
  - split; [|done]. intros _ _. by eexists.
  - split; [done|]. by intros (? & ? & ?).
Qed.

Lemma validate_fee_Ok (fees : @FeeSlippagePolicy D) u :
  d_exact (max_fee_liability fees) → d_exact (max_slippage_liability fees) →
  validate_fee_slippage_policy fees = Ok u ↔
    0 ≤ d_value (max_fee_liability fees) ∧ 0 ≤ d_value (max_slippage_liability fees).
Proof.
  intros Hf Hs. unfold validate_fee_slippage_policy. destruct u, d_zero_exact as [Hz Hz0].
  rewrite !d_ltb_value, Hz0 by done.
  destruct (Z.ltb_spec (d_value (max_fee_liability fees)) 0); [split; [done|lia]|].
  destruct (Z.ltb_spec (d_value (max_slippage_liability fees)) 0); [split; [done|lia]|]. by split.
Qed.

Lemma base_exact request snapshot fees v :
  order_exact request snapshot fees v →
  ∃ b, match side request with
       | Buy => ok_or (d_checked_mul (quantity request) (limit_price request)) ArithmeticOverflow
       | Sell => Ok d_zero
       end = Ok b ∧ d_exact b ∧ d_value b = v.
Proof.
  intros He. pose proof (exact_base _ _ _ _ He) as Hb. unfold base_value in Hb.
  destruct (side request).
  - destruct (d_mul_exact (quantity request) (limit_price request) v) as (b & Eb & Hbe & Hbv);
      [by eapply exact_quantity|by eapply exact_price|done|by apply (exact_fits _ _ _ _ He)|].
    rewrite Eb. by exists b.
  - subst v. exists d_zero. split; [done|]. apply d_zero_exact.
Qed.

Lemma total_exact request snapshot fees v b :
  order_exact request snapshot fees v → d_exact b → d_value b = v →
  ∃ c, (with_fee ← d_checked_add b (max_fee_liability fees);
        d_checked_add with_fee (max_slippage_liability fees)) = Some c ∧
    d_exact c ∧ d_value c = liability_of fees v.
Proof.
  intros He Hb Hv. destruct (exact_fits _ _ _ _ He) as (_ & Hf & Hs). unfold liability_of in *.
  destruct (d_add_exact b (max_fee_liability fees)) as (c & Ec & Hc & Hcv);
    [done|by eapply exact_fee|by rewrite Hv|].
  destruct (d_add_exact c (max_slippage_liability fees)) as (d & Ed & Hd & Hdv);
    [done|by eapply exact_slippage|by rewrite Hcv, Hv|].
  rewrite Ec. simpl. exists d. split_and!; [done|done|]. by rewrite Hdv, Hcv, Hv.
Qed.

Lemma covered_Ok request snapshot fees v c u :
  order_exact request snapshot fees v → d_exact c → d_value c = liability_of fees v →
  match side request with
  | Buy => ensure (negb (d_ltb (product_collateral_allowance snapshot) c)) InsufficientAllowance
  | Sell =>
      position ←? ok_or (outcome_position request snapshot) InsufficientInventory;
      ensure (negb (d_ltb position (quantity request))) InsufficientInventory
  end = Ok u ↔ covered request snapshot (liability_of fees v).
Proof.
  intros He Hc Hv. unfold covered. destruct (side request).
  - rewrite ensure_Ok, d_ltb_value, Hv by (try done; by eapply exact_allowance).
    rewrite <- Z.leb_antisym. by rewrite Z.leb_le.
  - assert (Hp : ∀ p, outcome_position request snapshot = Some p → d_exact p).
    { unfold outcome_position. destruct (exact_positions _ _ _ _ He).
      intros p. repeat case_bool_decide; by intros [= <-]. }
    destruct (outcome_position request snapshot) as [p|]; simpl.
    + rewrite ensure_Ok, d_ltb_value, <- Z.leb_antisym, Z.leb_le;
        [|by apply Hp|by eapply exact_quantity].
      split; [intros; by exists p|by intros (? & [= <-] & ?)].
    + split; [done|by intros (? & ? & ?)].
Qed.

Lemma worst_case_cases request snapshot policy fees v :
  fee_slippage_policy policy = Some fees → order_exact request snapshot fees v →
  ∃ c, d_exact c ∧ d_value c = liability_of fees v ∧
    ∀ q, worst_case_liability request (PredictionMarketBinary snapshot) policy = Ok q ↔
      order_valid request fees ∧ covered request snapshot (liability_of fees v) ∧
      q = mkLiabilityQuote (quantity request) (quantity request) c c (product_source snapshot).
Proof.
  intros Hfees He. destruct (base_exact _ _ _ _ He) as (b & Eb & Hb & Hbv).
  destruct (total_exact _ _ _ _ b He Hb Hbv) as (c & Ec & Hc & Hcv).
  exists c. split_and!; [done|done|]. intros q. simpl. unfold order_valid.
  assert (Hr := λ u, validate_request_Ok request u (exact_quantity _ _ _ _ He) (exact_price _ _ _ _ He)).
  assert (Hf := λ u, validate_fee_Ok fees u (exact_fee _ _ _ _ He) (exact_slippage _ _ _ _ He)).
  assert (Hcov := λ u, covered_Ok request snapshot fees v c u He Hc Hcv).
  rewrite Hfees, Eb. simpl. rewrite Ec. simpl. split.
  - intros Hq. result_inv. apply Hr in E.
    rewrite validate_liquidity_Ok in E0. apply Hf in E1. apply Hcov in E2. by destruct E, E1.
  - intros ((? & ? & ? & ?) & ? & ->).
    repeat (apply result_bind_Ok; exists tt; split;
      [first [by apply Hr|by apply validate_liquidity_Ok|by apply Hf|by apply Hcov]|]). done.
Qed.

(** The worst-case liability is exact.  An order is quoted exactly when its
    quantity is positive, its price lies between zero and one, a resting maker names
    its quote set, the fee policy is not negative, and the allowance (of a buy) or the
    position (of a sell) covers it; the quoted liability is cost plus fees plus
    slippage, it is reserved in full, and the whole quantity is accepted. *)
Lemma worst_case_liability_exact request snapshot policy fees v :
  fee_slippage_policy policy = Some fees → order_exact request snapshot fees v →
  ((∃ q, worst_case_liability request (PredictionMarketBinary snapshot) policy = Ok q) ↔
     order_valid request fees ∧ covered request snapshot (liability_of fees v)) ∧
  (∀ q, worst_case_liability request (PredictionMarketBinary snapshot) policy = Ok q →
     quote_accepted_quantity q = quantity request ∧
     quote_reserved_liability q = quote_calculated_liability q ∧
     d_value (quote_reserved_liability q) = liability_of fees v).
Proof.
  intros Hfees He. destruct (worst_case_cases _ _ _ _ _ Hfees He) as (c & Hc & Hcv & Hq). split.
  - split; [by intros (q & (? & ? & ?)%Hq)|]. intros [? ?]. eexists. by apply Hq.
  - by intros q (_ & _ & ->)%Hq.
Qed.

End Liability.

(** ** The decision, case by case *)

Section Decision.
Context {D : Type} `{DecimalOps D}.
Implicit Types (request : CapitalAdmissionRequest D) (ledger : @ReservationLedger D)
  (pool : @CapitalPoolSnapshot D) (state : option (NtDerivedCapitalAdmissionState D)).

(** The ledger's decisions are never contradictory: the invariant errors do not occur. *)
Lemma reserve_decision_valid ledger pool req now min :
  let d := (ledger_reserve ledger pool req now min).1 in
  match validate_reservation_decision d with
  | Ok ValidatedAccepted => accepted d = true
  | Ok (ValidatedRejected reason) => accepted d = false ∧ decision_reason d = Some reason
  | Err _ => False
  end.
Proof.
  unfold ledger_reserve. destruct (available_pool_liability _ _); [|done].
  repeat match goal with |- context [if ?b then _ else _] => destruct b; [done|] end.
  destruct (d_checked_sub _ _) as [after|]; [|done]. by destruct (below_min_remaining after min).
Qed.

Lemma halt_reasons_nonempty policy snapshot now obs d :
  evaluate_loss_admission_with_observations policy snapshot now obs = Some d →
  loss_accepted d = false → halt_reasons d ≠ [].
Proof.
  rewrite evaluate_cases. destruct snapshot as [s|]; [|by intros [= <-]]. simpl.
  case_decide; [|by intros [= <-]]. destruct (checked_reasons policy s) as [[|r rs]|]; [|..|done];
    by intros [= <-].
Qed.

(** The loss gate let the admission pass. *)
Definition loss_clear (loss_policy : option (LossGovernorPolicy D))
    (s : NtDerivedCapitalAdmissionState D) (now : Z) : Prop :=
  ∀ policy, loss_policy = Some policy →
    ∃ d, evaluate_loss_admission policy (loss_snapshot s) now = Some d ∧ loss_accepted d = true.

Lemma loss_gate_cases loss_policy s now halted :
  loss_gate loss_policy s now = Some halted →
  match halted with
  | None => loss_clear loss_policy s now
  | Some reasons => reasons ≠ []
  end.
Proof.
  unfold loss_gate, loss_clear. destruct loss_policy as [policy|]; [|by intros [= <-]].
  destruct (evaluate_loss_admission policy (loss_snapshot s) now) as [d|] eqn:E; [|done].
  simpl. destruct (loss_accepted d) eqn:Ha; intros [= <-].
  - intros ? [= <-]. by exists d.
  - by eapply halt_reasons_nonempty.
Qed.

(** A refusal that the code means to make, as opposed to an internal inconsistency. *)
Definition is_invariant (r : CapitalAdmissionReason) : Prop :=
  match r with ReasonInvariant _ => True | _ => False end.

Definition refusal (d : CapitalAdmissionDecision D) : Prop :=
  admission_accepted d = false ∧ admission_reasons d ≠ [] ∧
  Forall (λ r, ¬ is_invariant r) (admission_reasons d).

Lemma reserve_admission_cases request s policy pool ledger e q :
  let '(d, l') := reserve_admission request s policy pool ledger e q in
  let '(rd, rl) := ledger_reserve ledger pool (reservation_request_of request s q)
                     (admission_now_ns request) (min_remaining_pool_balance policy) in
  if admission_accepted d
  then accepted rd = true ∧ l' = rl ∧ admission_reasons d = [] ∧
       admission_reserved_liability d = Some (quote_reserved_liability q)
  else l' = ledger ∧ refusal d.
Proof.
  unfold reserve_admission.
  pose proof (reserve_decision_valid ledger pool (reservation_request_of request s q)
    (admission_now_ns request) (min_remaining_pool_balance policy)) as Hv.
  pose proof (reserve_cases ledger pool (reservation_request_of request s q)
    (admission_now_ns request) (min_remaining_pool_balance policy)) as Hc.
  destruct (ledger_reserve _ _ _ _ _) as [rd rl]. simpl in Hv.
  destruct (validate_reservation_decision rd) as [[|reason]|]; simpl; [done| |done].
  destruct Hv as [Ha _]. rewrite Ha in Hc. destruct Hc as [-> _]. split; [done|].
  split_and!; [done|done|]. apply Forall_singleton. by intros [].
Qed.

Lemma refuse_intro (qty : D) (p : text) reasons :
  reasons ≠ [] → Forall (λ r, ¬ is_invariant r) reasons →
  refusal (rejected_capital_admission qty p reasons).
Proof. done. Qed.

Lemma admission_cases request state policy loss_policy pool ledger d l' :
  evaluate_capital_admission request state policy loss_policy pool ledger = Some (d, l') →
  if admission_accepted d then
    pool_id pool = admission_pool_id request ∧ admission_reasons d = [] ∧
    ∃ s q rd, state = Some s ∧
      state_trusted s (admission_now_ns request) (max_snapshot_age_ns pool) ∧
      loss_clear loss_policy s (admission_now_ns request) ∧
      worst_case_liability request (product_state s) policy = Ok q ∧
      ledger_reserve ledger pool (reservation_request_of request s q)
        (admission_now_ns request) (min_remaining_pool_balance policy) = (rd, l') ∧
      accepted rd = true ∧ admission_reserved_liability d = Some (quote_reserved_liability q)
  else l' = ledger ∧ refusal d.
Proof.
  assert (Hone : ∀ r, ¬ is_invariant r → Forall (λ r, ¬ is_invariant r) [r])
    by (intros; by apply Forall_singleton).
  unfold evaluate_capital_admission. case_bool_decide as Hpool; cbn [negb].
  2:{ intros [= <- <-]. split; [done|]. apply refuse_intro; [done|]. apply Hone. by intros []. }
  destruct state as [s|].
  2:{ intros [= <- <-]. split; [done|]. apply refuse_intro; [done|]. apply Hone. by intros []. }
  destruct (validate_cases s (admission_now_ns request) (max_snapshot_age_ns pool)) as (r & -> & Hr).
  simpl. destruct r as [e|error].
  2:{ intros [= <- <-]. split; [done|]. apply refuse_intro; [done|]. apply Hone. by destruct error; intros []. }
  destruct Hr as [Hr _].
  destruct (loss_gate loss_policy s (admission_now_ns request)) as [halted|] eqn:El; [|done].
  apply loss_gate_cases in El. simpl. destruct halted as [reasons|].
  { intros [= <- <-]. split; [done|]. apply refuse_intro; [by destruct reasons|].
    apply Forall_fmap, Forall_true. by intros ? []. }
  destruct (worst_case_liability request (product_state s) policy) as [q|error] eqn:Eq.
  2:{ intros [= <- <-]. split; [done|]. apply refuse_intro; [done|]. apply Hone. by intros []. }
  pose proof (reserve_admission_cases request s policy pool ledger e q) as Hc.
  destruct (reserve_admission request s policy pool ledger e q) as [d0 l0]. intros [= -> ->].
  destruct (ledger_reserve _ _ _ _ _) as [rd rl] eqn:Er.
  destruct (admission_accepted d); [|done]. destruct Hc as (Ha & -> & Hn & Hl).
  split_and!; [done|done|]. by exists s, q, rd.
Qed.

(** A refused admission explains itself and has no effect.  The decision is an
    acceptance exactly when it has no reason; a refusal carries a reason, never an
    internal inconsistency between the gate and its ledger, and leaves every
    reservation as it was. *)
Lemma refused_admission_has_no_effect request state policy loss_policy pool ledger :
  match evaluate_capital_admission request state policy loss_policy pool ledger with
  | Some (d, l') =>
      (admission_accepted d = true ↔ admission_reasons d = []) ∧
      Forall (λ r, ¬ is_invariant r) (admission_reasons d) ∧
      (admission_accepted d = false → l' = ledger)
  | None => True
  end.
Proof.
  destruct (evaluate_capital_admission _ _ _ _ _ _) as [[d l']|] eqn:E; [|done].
  apply admission_cases in E. destruct (admission_accepted d).
  - destruct E as (_ & -> & _). by split_and!.
  - destruct E as [-> (_ & Hn & Hf)]. by split_and!.
Qed.

End Decision.

(** ** An accepted admission *)

Section Accepted.
Context `{DecimalLaws D}.
Implicit Types (request : CapitalAdmissionRequest D) (ledger : @ReservationLedger D)
  (pool : @CapitalPoolSnapshot D) (state : option (NtDerivedCapitalAdmissionState D)).

(** The amounts an admission looks at are on the grid and fit. *)
Record amounts_exact request state (policy : CapitalAdmissionPolicy D)
    (loss_policy : option (LossGovernorPolicy D)) pool ledger : Prop := {
  amounts_ledger : ledger_wf ledger;
  amounts_pool : pool_ok pool;
  amounts_reserved : 4 * reserved_value ledger (pool_id pool) ≤ d_limit;
  amounts_min : ∀ m, min_remaining_pool_balance policy = Some m → d_exact m;
  amounts_loss : ∀ s lp loss, state = Some s → loss_policy = Some lp →
    loss_snapshot s = Some loss → figures_exact lp loss;
  amounts_order : ∀ s snapshot fees, state = Some s →
    product_state s = PredictionMarketBinary snapshot → fee_slippage_policy policy = Some fees →
    ∃ v, order_exact request snapshot fees v;
}.

Lemma loss_gate_total loss_policy s now :
  (∀ lp loss, loss_policy = Some lp → loss_snapshot s = Some loss → figures_exact lp loss) →
  ∃ halted, loss_gate loss_policy s now = Some halted.
Proof.
  intros Hex. unfold loss_gate. destruct loss_policy as [lp|]; [|by eexists].
  unfold evaluate_loss_admission. destruct (loss_snapshot s) as [loss|]; [|by eexists].
  destruct (decide (judgeable lp loss now)) as [Hj|Hj].
  - destruct (loss_governor_cases lp loss now (source_observations loss) Hj) as (d & -> & _);
      [by apply Hex|]. by eexists.
  - rewrite evaluate_cases. simpl. rewrite decide_False by done. by eexists.
Qed.

Lemma admission_total request state policy loss_policy pool ledger :
  (∀ s lp loss, state = Some s → loss_policy = Some lp →
     loss_snapshot s = Some loss → figures_exact lp loss) →
  ∃ d l', evaluate_capital_admission request state policy loss_policy pool ledger = Some (d, l').
Proof.
  intros Hex. unfold evaluate_capital_admission. destruct (negb _); [by eexists _, _|].
  destruct state as [s|]; [|by eexists _, _].
  destruct (validate_cases s (admission_now_ns request) (max_snapshot_age_ns pool)) as (r & -> & _).
  simpl. destruct r as [e|error]; [|by eexists _, _].
  destruct (loss_gate_total loss_policy s (admission_now_ns request)) as [halted ->].
  { intros. by eapply Hex. }
  simpl. destruct halted; [by eexists _, _|].
  destruct (worst_case_liability _ _ _); [|by eexists _, _].
  destruct (reserve_admission _ _ _ _ _ _ _) as [d l']. by exists d, l'.
Qed.

(** C20: an accepted admission passed every gate and reserved its worst case.  The
    function never panics, and when it accepts, the whole state is fresh and
    attributed, the loss governor (where configured) accepted, the order is valid and
    covered, and the ledger gained exactly the worst-case liability in the order's
    pool, with committed plus reserved capital within the pool's maximum and the
    configured remainder left. *)
Theorem accepted_admission_is_reserved request state policy loss_policy pool ledger :
  amounts_exact request state policy loss_policy pool ledger →
  ∃ d l', evaluate_capital_admission request state policy loss_policy pool ledger = Some (d, l') ∧
    (admission_accepted d = true →
     pool_id pool = admission_pool_id request ∧
     ∃ s snapshot fees v,
       state = Some s ∧ product_state s = PredictionMarketBinary snapshot ∧
       state_trusted s (admission_now_ns request) (max_snapshot_age_ns pool) ∧
       loss_clear loss_policy s (admission_now_ns request) ∧
       order_valid request fees ∧ base_value request v ∧
       covered request snapshot (liability_of fees v) ∧
       ledger_wf l' ∧
       reserved_value l' (pool_id pool) =
         reserved_value ledger (pool_id pool) + liability_of fees v ∧
       d_value (committed_liability pool) + reserved_value l' (pool_id pool)
         + from_option d_value 0 (min_remaining_pool_balance policy)
         ≤ d_value (max_pool_liability pool)).
Proof.
  intros [Hl Hp Hr Hm Hloss Ho].
  destruct (admission_total request state policy loss_policy pool ledger Hloss) as (d & l' & E).
  exists d, l'. split; [done|]. intros Ha. apply admission_cases in E. rewrite Ha in E.
  destruct E as (Hpool & _ & s & q & rd & -> & Ht & Hc & Hq & Er & Hacc & _). split; [done|].
  destruct (product_state s) as [snapshot] eqn:Hps. destruct (fee_slippage_policy policy) as [fees|] eqn:Hf.
  2:{ simpl in Hq. rewrite Hf in Hq. by result_inv. }
  destruct (Ho s snapshot fees eq_refl Hps eq_refl) as [v He].
  destruct (worst_case_cases _ _ _ _ _ Hf He) as (c & Hce & Hcv & Hiff).
  apply Hiff in Hq as (Hov & Hcov & ->). exists s, snapshot, fees, v.
  pose proof (reserve_solvent ledger pool (reservation_request_of request s
    (mkLiabilityQuote (quantity request) (quantity request) c c (product_source snapshot)))
    (admission_now_ns request) (min_remaining_pool_balance policy)) as Hs.
  rewrite Er, Hacc in Hs. simpl in Hs. rewrite Hcv in Hs.
  destruct Hs as (Hwf & Hval & _ & Hmax & Hmin); try done; [by apply (exact_fits _ _ _ _ He)|].
  split_and!; try done; [by apply He|].
  destruct (min_remaining_pool_balance policy) as [m|]; simpl; [by apply Hmin|lia].
Qed.

End Accepted.

(** ** The gate *)

Section Gate.
Context {D : Type} `{DecimalOps D}.
Implicit Types (g : CapitalAdmissionGate D) (ledger : @ReservationLedger D)
  (pool : @CapitalPoolSnapshot D) (item : CapitalAdmissionReservationEvidence D).

(** The reservation an accepted piece of evidence becomes. *)
Definition live_of item : @LiveReservation D :=
  match item with
  | NtOpenOrder request => new_live request
  | RetainedLifecycleReservation retained => retained
  end.

Definition live_keys ledger : list (text * text) := live_key <$> live_reservations ledger.

Lemma carry_cases ledger p r :
  let '(c, l') := carry_retained ledger p r in
  match c with
  | Ok _ => live_pool_id r = p ∧ ¬ (live_key r ∈ live_keys ledger) ∧
            l' = set_live ledger (live_reservations ledger ++ [r])
  | Err _ => True
  end.
Proof.
  unfold carry_retained. case_bool_decide; [|done]. destruct (_ || d_leb _ _); [done|].
  destruct (existsb _ _) eqn:Hdup; [done|]. by apply absent_key in Hdup.
Qed.

Lemma candidate_cases pool item now min ledger :
  let '(r, l') := rebuild_candidate ledger_reserve pool item now min ledger in
  ∃ c, r = Ok c ∧
    match c with
    | Ok _ => live_pool_id (live_of item) = pool_id pool ∧
              ¬ (live_key (live_of item) ∈ live_keys ledger) ∧
              l' = set_live ledger (live_reservations ledger ++ [live_of item])
    | Err _ => True
    end.
Proof.
  destruct item as [req|retained]; simpl.
  - case_bool_decide as Hpool; simpl; [|by eexists].
    pose proof (reserve_decision_valid ledger pool req now min) as Hv.
    pose proof (reserve_cases ledger pool req now min) as Hc.
    destruct (ledger_reserve ledger pool req now min) as [d l']. simpl in Hv.
    destruct (validate_reservation_decision d) as [[|reason]|]; [|by eexists|done].
    rewrite Hv in Hc. destruct Hc as (_ & _ & _ & _ & _ & _ & _ & _ & _ & Hno & _ & ->). by eexists.
  - pose proof (carry_cases ledger (pool_id pool) retained) as Hc.
    destruct (carry_retained ledger (pool_id pool) retained) as [[a|e] l']; by eexists.
Qed.

Lemma rebuild_loop_cases g pool now min index evidence rebuilt :
  NoDup (live_keys rebuilt) →
  let '(r, g') := rebuild_loop ledger_reserve g pool now min index evidence rebuilt in
  ∃ d, r = Ok d ∧
    rebuild_live_reserved_liability d = gate_live_reserved_liability g' (pool_id pool) ∧
    if rebuild_accepted d then
      reservation_ledger g' =
        set_live rebuilt (live_reservations rebuilt ++ (live_of <$> evidence)) ∧
      NoDup (live_keys (reservation_ledger g')) ∧
      Forall (λ item, live_pool_id (live_of item) = pool_id pool) evidence ∧
      attempted_reservation_count d = index + Z.of_nat (length evidence) ∧
      rebuilt_reservation_count d = index + Z.of_nat (length evidence)
    else
      g' = gate_invalidate_reconciliation g ∧ is_Some (rebuild_reason d) ∧
      index ≤ rebuilt_reservation_count d < index + Z.of_nat (length evidence) ∧
      attempted_reservation_count d = rebuilt_reservation_count d + 1.
Proof.
  revert index rebuilt. induction evidence as [|item evidence IH]; intros index rebuilt Hk; simpl.
  - eexists. split_and!; [done|done|]. simpl. rewrite app_nil_r, Z.add_0_r. by destruct rebuilt.
  - pose proof (candidate_cases pool item now min rebuilt) as Hc.
    destruct (rebuild_candidate _ pool item now min rebuilt) as [r rebuilt'].
    destruct Hc as (c & -> & Hc). destruct c as [u|reason].
    + destruct Hc as (Hpool & Hno & ->).
      set (pushed := set_live rebuilt _). specialize (IH (index + 1) pushed).
      destruct (rebuild_loop _ g pool now min (index + 1) evidence pushed) as [r g'].
      destruct IH as (d & -> & Hd & HQ).
      { unfold live_keys. simpl. rewrite fmap_app. apply NoDup_app. split_and!; [done| |by apply NoDup_singleton].
        intros k Hin Hin'. simpl in Hin'. by apply list_elem_of_singleton in Hin' as ->. }
      exists d. split_and!; [done|done|]. destruct (rebuild_accepted d).
      * destruct HQ as (Hg & Hnd & Hf & Ha & Hb). rewrite Hg in Hnd |- *. simpl in *.
        rewrite <- app_assoc in *. split_and!; [done|done|by constructor|lia|lia].
      * destruct HQ as (-> & Hr & Hb & Ha). split_and!; [done|done|lia|lia|done].
    + eexists. split_and!; [done|done|]. simpl. split_and!; [done|by eexists|lia|lia|done].
Qed.

Lemma rebuild_cases g pool evidence now min :
  let '(r, g') := rebuild_open_order_reservations g pool evidence now min in
  ∃ d, r = Ok d ∧
    rebuild_live_reserved_liability d = gate_live_reserved_liability g' (pool_id pool) ∧
    if rebuild_accepted d then
      is_reconciled g' = true ∧
      live_reservations (reservation_ledger g') = live_of <$> evidence ∧
      NoDup (live_keys (reservation_ledger g')) ∧
      Forall (λ r, live_pool_id r = pool_id pool) (live_reservations (reservation_ledger g')) ∧
      rebuilt_reservation_count d = Z.of_nat (length evidence)
    else
      is_reconciled g' = false ∧
      live_reservations (reservation_ledger g') = live_reservations (reservation_ledger g) ∧
      is_Some (rebuild_reason d) ∧
      rebuilt_reservation_count d < Z.of_nat (length evidence).
Proof.
  pose proof (rebuild_loop_cases g pool now min 0 evidence reconciled NoDup_nil_2) as Hc.
  unfold rebuild_open_order_reservations, rebuild_open_order_reservations_with.
  destruct (rebuild_loop _ _ _ _ _ _ _ _) as [r g']. destruct Hc as (d & -> & Hd & HQ).
  exists d. split_and!; [done|done|]. destruct (rebuild_accepted d).
  - destruct HQ as (Hg & Hnd & Hf & _ & Hb). unfold is_reconciled. rewrite Hg in Hnd |- *. simpl in *.
    split_and!; [done|done|done| |done]. by apply Forall_fmap.
  - by destruct HQ as (-> & Hr & [_ ?] & _).
Qed.

(** Rebuilding from open orders is all or nothing.  It never ends in an
    inconsistency.  When it is accepted the gate is reconciled and holds exactly the
    evidence, in order, without duplicates and all in the pool; when it is refused,
    the reservations of the gate stay, but it is no longer reconciled. *)
Lemma rebuild_all_or_nothing g pool evidence now min :
  let '(r, g') := rebuild_open_order_reservations g pool evidence now min in
  ∃ d, r = Ok d ∧
    rebuild_live_reserved_liability d = gate_live_reserved_liability g' (pool_id pool) ∧
    if rebuild_accepted d then
      is_reconciled g' = true ∧
      live_reservations (reservation_ledger g') = live_of <$> evidence ∧
      NoDup (live_keys (reservation_ledger g')) ∧
      Forall (λ r, live_pool_id r = pool_id pool) (live_reservations (reservation_ledger g')) ∧
      rebuilt_reservation_count d = Z.of_nat (length evidence)
    else
      is_reconciled g' = false ∧
      live_reservations (reservation_ledger g') = live_reservations (reservation_ledger g) ∧
      is_Some (rebuild_reason d) ∧
      rebuilt_reservation_count d < Z.of_nat (length evidence).
Proof. apply rebuild_cases. Qed.

(** The operations of the gate. *)
Inductive gate_op : Type :=
| GateInvalidate
| GateRebuild (pool : @CapitalPoolSnapshot D) (evidence : list (CapitalAdmissionReservationEvidence D))
    (now : Z) (min : option D)
| GateRemove (p group id : text)
| GateRollback (p id : text)
| GateEvaluate (request : CapitalAdmissionRequest D)
    (state : option (NtDerivedCapitalAdmissionState D)) (policy : CapitalAdmissionPolicy D)
    (loss_policy : option (LossGovernorPolicy D)) (pool : @CapitalPoolSnapshot D).

(** The gate afterwards, and whether the operation admitted an order or rebuilt. *)
Definition gate_apply (op : gate_op) g : option (bool * CapitalAdmissionGate D) :=
  match op with
  | GateInvalidate => Some (false, gate_invalidate_reconciliation g)
  | GateRebuild pool evidence now min =>
      let '(r, g') := rebuild_open_order_reservations g pool evidence now min in
      Some (match r with Ok d => rebuild_accepted d | Err _ => false end, g')
  | GateRemove p group id => Some (false, (gate_remove_existing g p group id).2)
  | GateRollback p id => Some (false, (rollback_uncommitted_reservation g p id).2)
  | GateEvaluate request state policy loss_policy pool =>
      '(d, g') ← evaluate_and_reserve g request state policy loss_policy pool;
      Some (admission_accepted d, g')
  end.

Definition is_rebuild (op : gate_op) : bool :=
  match op with GateRebuild _ _ _ _ => true | _ => false end.

(** A run: the operations with their outcomes; none of them panics. *)
Inductive gate_run : CapitalAdmissionGate D → list (gate_op * bool) → CapitalAdmissionGate D → Prop :=
| gate_run_nil g : gate_run g [] g
| gate_run_cons g op granted g' trace g'' :
    gate_apply op g = Some (granted, g') → gate_run g' trace g'' →
    gate_run g ((op, granted) :: trace) g''.

Lemma unreconciled_step op g granted g' :
  is_reconciled g = false → gate_apply op g = Some (granted, g') →
  (granted = true ∧ is_rebuild op = true) ∨
  (granted = false ∧ is_reconciled g' = false ∧
   sublist (live_reservations (reservation_ledger g')) (live_reservations (reservation_ledger g))).
Proof.
  intros Hg. destruct op as [|pool evidence now min|p group id|p id|request state policy lp pool]; simpl.
  - intros [= <- <-]. by right.
  - pose proof (rebuild_loop_cases g pool now min 0 evidence reconciled NoDup_nil_2) as Hc.
    unfold rebuild_open_order_reservations, rebuild_open_order_reservations_with.
    destruct (rebuild_loop _ _ _ _ _ _ _ _) as [r g0]. destruct Hc as (d & -> & _ & HQ).
    intros [= <- <-]. destruct (rebuild_accepted d); [by left|]. destruct HQ as [-> _]. by right.
  - intros [= <- <-]. right. unfold gate_remove_existing, remove_existing, is_reconciled in *.
    destruct (position _ p id) as [[i r]|]; [|done]. destruct (negb _); [done|].
    split_and!; [done|done|]. apply sublist_delete.
  - intros [= <- <-]. right. unfold rollback_uncommitted_reservation, rollback_uncommitted, is_reconciled in *.
    destruct (position _ p id) as [[i r]|]; [|done]. split_and!; [done|done|]. apply sublist_delete.
  - unfold evaluate_and_reserve, is_reconciled in *.
    destruct (evaluate_capital_admission _ _ _ _ _ _) as [[d l']|] eqn:E; [|done]. simpl.
    intros [= <- <-]. apply admission_cases in E. right. simpl. destruct (admission_accepted d).
    + destruct E as (_ & _ & s & q & rd & _ & _ & _ & _ & Er & Ha & _).
      pose proof (reserve_cases (reservation_ledger g) pool (reservation_request_of request s q)
        (admission_now_ns request) (min_remaining_pool_balance policy)) as Hc.
      rewrite Er, Ha in Hc. destruct Hc as (? & ? & _ & _ & _ & _ & Hrec & _). congruence.
    + by destruct E as [-> _].
Qed.

(** Nothing is admitted before a reconciliation.  From a gate that is not
    reconciled, as long as no rebuild from open orders is accepted, every admission is
    refused, and reservations can only go away. *)
Lemma unreconciled_gate_admits_nothing g trace g' :
  is_reconciled g = false → gate_run g trace g' →
  Forall (λ '(op, granted), is_rebuild op = true → granted = false) trace →
  Forall (λ '(op, granted), granted = false) trace ∧ is_reconciled g' = false ∧
  sublist (live_reservations (reservation_ledger g')) (live_reservations (reservation_ledger g)).
Proof.
  intros Hg Hrun. induction Hrun as [g|g op granted g1 trace g2 Hop Hrun IH]; intros Hno; [done|].
  inversion Hno as [|? ? Hhead Htail]; subst.
  destruct (unreconciled_step op g granted g1 Hg Hop) as [[-> Hr]|(-> & Hg1 & Hs1)].
  { by specialize (Hhead Hr). }
  destruct (IH Hg1 Htail) as (? & ? & Hs2). split_and!; [by constructor|done|]. by etrans.
Qed.

End Gate.

(** ** Buying ten shares at 0.40 out of a pool of one hundred, in millionths *)

Definition demo_order : CapitalAdmissionRequest Z :=
  mkAdmissionRequest (lit "intent-1") (lit "strategy-1") (lit "yes") (lit "p")
    ProductPredictionMarketBinary Buy 10000000 400000 LimitOrder Taker None 1000.

Definition demo_fees : @FeeSlippagePolicy Z := mkFeePolicy 100000 200000.

Definition demo_admission_policy : CapitalAdmissionPolicy Z :=
  mkAdmissionPolicy (Some 1000000) (Some demo_fees).

Definition demo_snapshot : PredictionMarketAdmissionSnapshot Z :=
  mkMarketSnapshot (lit "nt") 900 (lit "yes") (lit "no") 0 0 50000000 (lit "group").

Definition demo_nt_state : NtDerivedCapitalAdmissionState Z :=
  mkNtState (lit "nt") 1000
    (mkPortfolio (lit "nt") 1000 (lit "venue") (lit "account") (lit "USD") 100000000 100000000)
    (mkAllowance (lit "nt") 1000 (lit "venue") (lit "account") (lit "USD") 50000000)
    (mkOrderLifecycle (lit "nt") 1000 0 true) (PredictionMarketBinary demo_snapshot)
    (mkReservationSnapshot (lit "nt") 1000 true) (Some demo_loss_snapshot).

Definition demo_admission_pool : @CapitalPoolSnapshot Z :=
  mkPool (lit "nt") 900 (lit "p") 100000000 30000000 1000.

(** A loss policy the demo snapshot satisfies. *)
Definition calm_loss_policy : LossGovernorPolicy Z := mkLossPolicy 1000 None (Some 50) None (Some 5).

Lemma demo_order_exact : order_exact demo_order demo_snapshot demo_fees 4000000.
Proof. by constructor. Qed.

Lemma demo_amounts_exact :
  amounts_exact demo_order (Some demo_nt_state) demo_admission_policy (Some calm_loss_policy)
    demo_admission_pool reconciled.
Proof.
  constructor.
  - apply empty_wf.
  - by repeat split.
  - done.
  - by intros m [= <-].
  - intros s lp loss [= <-] [= <-] [= <-]. split; [by repeat constructor|]. by intros c p [= <-] [= <-].
  - intros s snapshot fees [= <-] [= <-] [= <-]. exists 4000000. apply demo_order_exact.
Qed.

Lemma worst_case_liability_exact_witness :
  ∃ q, worst_case_liability demo_order (PredictionMarketBinary demo_snapshot) demo_admission_policy
         = Ok q ∧ quote_reserved_liability q = 4300000.
Proof.
  destruct (worst_case_liability_exact demo_order demo_snapshot demo_admission_policy demo_fees 4000000
    eq_refl demo_order_exact) as [[_ Hex] Hq].
  destruct Hex as [q Eq]; [by repeat split|]. exists q. split; [done|]. by destruct (Hq q Eq) as (_ & _ & ?).
Defined.

Lemma accepted_admission_is_reserved_witness :
  ∃ d l', evaluate_capital_admission demo_order (Some demo_nt_state) demo_admission_policy
            (Some calm_loss_policy) demo_admission_pool reconciled = Some (d, l') ∧
    admission_accepted d = true ∧ reserved_value l' (lit "p") = 4300000.
Proof.
  destruct (accepted_admission_is_reserved demo_order (Some demo_nt_state) demo_admission_policy
    (Some calm_loss_policy) demo_admission_pool reconciled demo_amounts_exact) as (d & l' & E & Hd).
  exists d, l'. split; [exact E|].
  assert (Ha : admission_accepted d = true) by (vm_compute in E; by injection E as <- <-).
  split; [exact Ha|]. destruct (Hd Ha) as (_ & s & snapshot & fees & v & _ & _ & _ & _ & _ & _ & _ & _ & _ & _).
  vm_compute in E. by injection E as <- <-.
Defined.

(** An unreconciled gate: the order is refused, then the gate is invalidated again. *)
Definition demo_gate : CapitalAdmissionGate Z := mkGate (invalidate_reconciliation demo_ledger).

Definition demo_evaluate : gate_op :=
  GateEvaluate demo_order (Some demo_nt_state) demo_admission_policy None demo_admission_pool.

Lemma unreconciled_gate_admits_nothing_witness :
  ∃ g', gate_run demo_gate [(demo_evaluate, false); (GateInvalidate, false)] g' ∧
    is_reconciled g' = false.
Proof.
  assert (Hrun : gate_run demo_gate [(demo_evaluate, false); (GateInvalidate, false)] demo_gate).
  { eapply gate_run_cons; [by vm_compute|]. eapply gate_run_cons; [by vm_compute|]. constructor. }
  exists demo_gate. split; [exact Hrun|].
  apply (unreconciled_gate_admits_nothing demo_gate _ demo_gate eq_refl Hrun).
  by repeat constructor.
Defined.
