(* ===== verification/ReservationRecovery.v ===== *)
(** * Committed admissions

    Models the facts of [src/src/bolt_v3_current_evidence/facts.rs] that submit
    admission records and recovers from: [ReservationAttribution], the admission and
    fill facts, and [ReservationRecoveryFacts], the index of every client order id that
    was durably authorised, with its [apply] and [validate].  [recover] replays a log of
    facts in order, as the reader does at start-up.  The economics part of
    [AdmissionDetails] and the text of the errors are left out. *)

From Stdlib Require Import ZArith Lia.
From stdpp Require Import sorting strings gmap numbers list.
From S2P Require Import Prelude RustText DecimalAmount LossGovernor.

Open Scope Z_scope.

(** ** Facts *)

Inductive ReservationProductKind : Type := ReservationPredictionMarketBinary.
Inductive EvidenceOrderSide : Type := EvidenceUnspecified | EvidenceBuy | EvidenceSell.
Inductive SubmitReservationFillSource : Type := NtOrderFill.
Inductive BasketAdmissionIntentKind : Type := BasketEntry | BasketRiskReducingExit.

Inductive EvidenceLossHaltReason : Type :=
| EvidencePerTradeLossLimit
| EvidenceDailyLossLimit
| EvidenceRollingLossLimit
| EvidenceMaxDrawdownLimit
| EvidenceStaleLossSnapshot.

(** [LossSnapshotStaleReason] and [StaleLossReason] of the evidence. *)
Inductive EvidenceStaleReason : Type :=
| EvidenceMissingSnapshot
| EvidenceSourceEmpty
| EvidenceFutureDated
| EvidenceAgeExceeded
| EvidenceMissingRequiredField.

Inductive AdmissionRejectionReason : Type :=
| KillSwitchLatched
| LossGovernorHalted
| NonPositiveNotional
| NotionalCapExceeded
| ClientOrderAlreadyAuthorized
| InvalidRiskReducingExitProof
| CountCapExhausted
| KillSwitchForcedReductionProofInvalid
| KillSwitchForcedReductionCapExceeded
| EconomicsSealRejected
| CapitalAdmissionRejection.

Inductive AdmissionDecisionOutcome : Type :=
| OutcomeAdmitted
| Rejected (reason : AdmissionRejectionReason).

#[global] Instance ReservationProductKind_eq_dec : EqDecision ReservationProductKind.
Proof. solve_decision. Defined.
#[global] Instance EvidenceOrderSide_eq_dec : EqDecision EvidenceOrderSide.
Proof. solve_decision. Defined.
#[global] Instance AdmissionRejectionReason_eq_dec : EqDecision AdmissionRejectionReason.
Proof. solve_decision. Defined.
#[global] Instance AdmissionDecisionOutcome_eq_dec : EqDecision AdmissionDecisionOutcome.
Proof. solve_decision. Defined.

Record ReservationAttribution : Type := mkAttribution {
  attr_client_order_id : text;
  attr_submit_reservation_id : text;
  attr_venue_id : text;
  attr_account_id : text;
  attr_product_kind : ReservationProductKind;
  attr_collateral_currency : text;
  attr_capital_pool_id : text;
  attr_collateral_group_id : text;
  attr_instrument_id : text;
  attr_side : EvidenceOrderSide;
  attr_submitted_quantity : text;
  attr_liability_factor : text;
  attr_additive_liability : text;
  attr_reserved_liability : text;
  attr_observed_at_ns : Z;
}.

#[global] Instance ReservationAttribution_eq_dec : EqDecision ReservationAttribution.
Proof. solve_decision. Defined.

Record SubmitReservationFillFact : Type := mkFillFact {
  fill_client_order_id : text;
  fill_submit_reservation_id : text;
  fill_trade_id : text;
  fill_instrument_id : text;
  fill_side : EvidenceOrderSide;
  fill_quantity : text;
  fill_observed_at_ns : Z;
  fill_reconciliation : bool;
  fill_source : SubmitReservationFillSource;
}.

Record AdmissionDetails : Type := mkDetails {
  details_strategy_id : text;
  details_execution_client_id : text;
  details_client_order_id : text;
  details_instrument_id : text;
  details_notional : text;
  details_loss_halt_reasons : list EvidenceLossHaltReason;
  details_snapshot_present : bool;
  details_snapshot_observed_at_ns : option Z;
  details_admission_now_ns : Z;
  details_snapshot_age_ns : option Z;
  details_max_snapshot_age_ns : option Z;
  details_snapshot_source : option LossSnapshotSource;
  details_per_trade_pnl_present : bool;
  details_daily_pnl_present : bool;
  details_rolling_pnl_present : bool;
  details_current_equity_present : bool;
  details_peak_equity_present : bool;
  details_last_account_state_observed_at_ns : option Z;
  details_last_portfolio_snapshot_observed_at_ns : option Z;
  details_last_position_event_observed_at_ns : option Z;
  details_stale_reason : option EvidenceStaleReason;
  details_loss_snapshot_observed_at_ns : option Z;
  details_loss_eval_now_ns : option Z;
}.

Record AdmittedEntryAdmissionFact : Type := mkAdmittedEntry {
  entry_details : AdmissionDetails;
  entry_reservation : option ReservationAttribution;
}.

Record RejectedEntryAdmissionFact : Type := mkRejectedEntry {
  rejected_details : AdmissionDetails;
  rejected_reason : AdmissionRejectionReason;
}.

Record RiskReducingExitAdmissionFact : Type := mkExitAdmission {
  exit_details : AdmissionDetails;
  exit_outcome : AdmissionDecisionOutcome;
}.

Record BasketAdmissionDetails : Type := mkBasketDetails {
  basket_strategy_id : text;
  basket_execution_client_id : text;
  basket_id : text;
  basket_group_id : text;
  basket_leg_instrument_ids : list text;
  basket_total_notional : text;
  basket_leg_order_count : Z;
}.

Record BasketAdmittedLeg : Type := mkLeg {
  leg_client_order_id : text;
  leg_instrument_id : text;
  leg_intent_kind : BasketAdmissionIntentKind;
  leg_reservation : option ReservationAttribution;
}.

Record BasketAdmissionGrantedFact : Type := mkBasketGranted {
  granted_details : BasketAdmissionDetails;
  admitted_legs : list BasketAdmittedLeg;
}.

Inductive ReservationRecoveryEvent : Type :=
| AdmittedEntry (fact : AdmittedEntryAdmissionFact)
| BasketGranted (fact : BasketAdmissionGrantedFact)
| RiskReducingExitEvent (fact : RiskReducingExitAdmissionFact)
| FillEvent (fact : SubmitReservationFillFact).

(** ** The index *)

Record ReservationRecoveryFacts : Type := mkRecoveryFacts {
  reservation_attributions : gmap text ReservationAttribution;
  reservation_fills : gmap (text * text) (gmap text SubmitReservationFillFact);
  admitted_unreserved_entry_client_order_ids : gset text;
  admitted_risk_reducing_client_order_ids : gset text;
}.

(** [ReservationRecoveryFacts::default()]. *)
Definition no_recovery_facts : ReservationRecoveryFacts := mkRecoveryFacts ∅ ∅ ∅ ∅.

Definition recovery_is_empty (f : ReservationRecoveryFacts) : bool :=
  bool_decide (reservation_attributions f = ∅)
  && bool_decide (dom (reservation_fills f) = ∅)
  && bool_decide (admitted_unreserved_entry_client_order_ids f = ∅)
  && bool_decide (admitted_risk_reducing_client_order_ids f = ∅).

Definition reservation_attribution (f : ReservationRecoveryFacts) (client_order_id : text)
    : option ReservationAttribution := reservation_attributions f !! client_order_id.

Definition reservation_fill (f : ReservationRecoveryFacts)
    (client_order_id submit_reservation_id trade_id : text) : option SubmitReservationFillFact :=
  fills ← reservation_fills f !! (client_order_id, submit_reservation_id);
  fills !! trade_id.

Definition authorizes_non_reservation_order (f : ReservationRecoveryFacts) (client_order_id : text)
    : bool :=
  bool_decide (client_order_id ∈ admitted_unreserved_entry_client_order_ids f)
  || bool_decide (client_order_id ∈ admitted_risk_reducing_client_order_ids f).

Definition authorizes_order (f : ReservationRecoveryFacts) (client_order_id : text) : bool :=
  is_some (reservation_attributions f !! client_order_id)
  || authorizes_non_reservation_order f client_order_id.

Inductive RecoveredNonReservationAuthorization : Type := UnreservedEntry | RiskReducing.

(** The [ensure!] that failed. *)
Inductive RecoveryError : Type :=
| DuplicateAttribution
| AttributionConflict
| DuplicateAuthorization
| ConflictingFill
| FillWithoutAttribution
| FillReservationMismatch
| FillIdentityMismatch
| FillShapeMismatch
| FillQuantityNotPositive.

Definition insert_attribution (f : ReservationRecoveryFacts) (a : ReservationAttribution)
    : Result ReservationRecoveryFacts RecoveryError :=
  ensure (negb (is_some (reservation_attributions f !! attr_client_order_id a)))
    DuplicateAttribution ;;?
  ensure (negb (bool_decide (attr_client_order_id a ∈ admitted_risk_reducing_client_order_ids f))
          && negb (bool_decide (attr_client_order_id a ∈ admitted_unreserved_entry_client_order_ids f)))
    AttributionConflict ;;?
  Ok (mkRecoveryFacts (<[attr_client_order_id a := a]> (reservation_attributions f))
        (reservation_fills f) (admitted_unreserved_entry_client_order_ids f)
        (admitted_risk_reducing_client_order_ids f)).

Definition insert_non_reservation_authorization (f : ReservationRecoveryFacts)
    (client_order_id : text) (authorization : RecoveredNonReservationAuthorization)
    : Result ReservationRecoveryFacts RecoveryError :=
  ensure (negb (is_some (reservation_attributions f !! client_order_id))
          && negb (bool_decide (client_order_id ∈ admitted_unreserved_entry_client_order_ids f))
          && negb (bool_decide (client_order_id ∈ admitted_risk_reducing_client_order_ids f)))
    DuplicateAuthorization ;;?
  Ok match authorization with
     | UnreservedEntry =>
         mkRecoveryFacts (reservation_attributions f) (reservation_fills f)
           ({[client_order_id]} ∪ admitted_unreserved_entry_client_order_ids f)
           (admitted_risk_reducing_client_order_ids f)
     | RiskReducing =>
         mkRecoveryFacts (reservation_attributions f) (reservation_fills f)
           (admitted_unreserved_entry_client_order_ids f)
           ({[client_order_id]} ∪ admitted_risk_reducing_client_order_ids f)
     end.

(** One admitted order: with a reservation, or authorised without one. *)
Definition insert_admission (f : ReservationRecoveryFacts) (client_order_id : text)
    (reservation : option ReservationAttribution)
    (authorization : RecoveredNonReservationAuthorization)
    : Result ReservationRecoveryFacts RecoveryError :=
  match reservation with
  | Some reservation => insert_attribution f reservation
  | None => insert_non_reservation_authorization f client_order_id authorization
  end.

Definition leg_authorization (leg : BasketAdmittedLeg) : RecoveredNonReservationAuthorization :=
  match leg_intent_kind leg with
  | BasketEntry => UnreservedEntry
  | BasketRiskReducingExit => RiskReducing
  end.

Fixpoint insert_legs (f : ReservationRecoveryFacts) (legs : list BasketAdmittedLeg)
    : Result ReservationRecoveryFacts RecoveryError :=
  match legs with
  | [] => Ok f
  | leg :: legs' =>
      f' ←? insert_admission f (leg_client_order_id leg) (leg_reservation leg)
              (leg_authorization leg);
      insert_legs f' legs'
  end.

Section Recovery.
Context {D : Type} `{DecimalOps D} `{DecimalText D}.

Definition reservation_fill_stable_identity_eq (left right : SubmitReservationFillFact) : bool :=
  bool_decide (fill_client_order_id left = fill_client_order_id right)
  && bool_decide (fill_submit_reservation_id left = fill_submit_reservation_id right)
  && bool_decide (fill_trade_id left = fill_trade_id right)
  && bool_decide (fill_instrument_id left = fill_instrument_id right)
  && bool_decide (fill_side left = fill_side right)
  && match d_from_str (D := D) (fill_quantity left), d_from_str (fill_quantity right) with
     | Some l, Some r => d_eqb l r
     | _, _ => false
     end.

Definition insert_fill (f : ReservationRecoveryFacts) (fill : SubmitReservationFillFact)
    : Result ReservationRecoveryFacts RecoveryError :=
  let key := (fill_client_order_id fill, fill_submit_reservation_id fill) in
  let fills := default ∅ (reservation_fills f !! key) in
  match fills !! fill_trade_id fill with
  | Some existing =>
      ensure (reservation_fill_stable_identity_eq existing fill) ConflictingFill ;;?
      Ok (mkRecoveryFacts (reservation_attributions f) (<[key := fills]> (reservation_fills f))
            (admitted_unreserved_entry_client_order_ids f)
            (admitted_risk_reducing_client_order_ids f))
  | None =>
      Ok (mkRecoveryFacts (reservation_attributions f)
            (<[key := <[fill_trade_id fill := fill]> fills]> (reservation_fills f))
            (admitted_unreserved_entry_client_order_ids f)
            (admitted_risk_reducing_client_order_ids f))
  end.

(** [apply].  After an error the caller drops the half-updated index, or latches. *)
Definition recovery_apply (f : ReservationRecoveryFacts) (event : ReservationRecoveryEvent)
    : Result ReservationRecoveryFacts RecoveryError :=
  match event with
  | AdmittedEntry fact =>
      insert_admission f (details_client_order_id (entry_details fact)) (entry_reservation fact)
        UnreservedEntry
  | BasketGranted fact => insert_legs f (admitted_legs fact)
  | RiskReducingExitEvent fact =>
      if decide (exit_outcome fact = OutcomeAdmitted)
      then insert_non_reservation_authorization f
             (details_client_order_id (exit_details fact)) RiskReducing
      else Ok f
  | FillEvent fill => insert_fill f fill
  end.

(** The reader at start-up: every relevant fact of the log, in order. *)
Fixpoint recover (f : ReservationRecoveryFacts) (log : list ReservationRecoveryEvent)
    : Result ReservationRecoveryFacts RecoveryError :=
  match log with
  | [] => Ok f
  | event :: log' => f' ←? recovery_apply f event; recover f' log'
  end.

(** The checks of [validate] on one fill under its keys. *)
Definition validate_fill (a : ReservationAttribution) (client_order_id submit_reservation_id : text)
    (entry : text * SubmitReservationFillFact) : Result unit RecoveryError :=
  let '(trade_id, fill) := entry in
  ensure (bool_decide (fill_client_order_id fill = client_order_id)
          && bool_decide (fill_submit_reservation_id fill = submit_reservation_id)
          && bool_decide (fill_trade_id fill = trade_id)) FillIdentityMismatch ;;?
  ensure (bool_decide (fill_instrument_id fill = attr_instrument_id a)
          && bool_decide (fill_side fill = attr_side a)) FillShapeMismatch ;;?
  ensure (match d_from_str (D := D) (fill_quantity fill) with
          | Some quantity => d_gtb quantity d_zero
          | None => false
          end) FillQuantityNotPositive.

Fixpoint all_ok {A E} (f : A → Result unit E) (l : list A) : Result unit E :=
  match l with
  | [] => Ok tt
  | x :: l' => f x ;;? all_ok f l'
  end.

Definition validate_fills (f : ReservationRecoveryFacts)
    (entry : (text * text) * gmap text SubmitReservationFillFact) : Result unit RecoveryError :=
  let '((client_order_id, submit_reservation_id), fills) := entry in
  a ←? ok_or (reservation_attributions f !! client_order_id) FillWithoutAttribution;
  ensure (bool_decide (attr_submit_reservation_id a = submit_reservation_id))
    FillReservationMismatch ;;?
  all_ok (validate_fill a client_order_id submit_reservation_id) (btree_iter fills).

(** The order of the outer iteration decides only which error is reported. *)
Definition recovery_validate (f : ReservationRecoveryFacts) : Result unit RecoveryError :=
  all_ok (validate_fills f) (map_to_list (reservation_fills f)).

End Recovery.

(** ** Authorisation only grows *)

Lemma is_some_false {A} (o : option A) : negb (is_some o) = true ↔ o = None.
Proof. by destruct o. Qed.

Lemma authorizes_order_spec f id :
  authorizes_order f id = true ↔
    is_Some (reservation_attributions f !! id) ∨
    id ∈ admitted_unreserved_entry_client_order_ids f ∨
    id ∈ admitted_risk_reducing_client_order_ids f.
Proof.
  unfold authorizes_order, authorizes_non_reservation_order.
  rewrite !orb_true_iff, !bool_decide_eq_true.
  destruct (_ !! id); simpl; split; intros H.
  - by left.
  - by left.
  - by destruct H as [?|[?|?]]; [|right; left|right; right].
  - destruct H as [[??]|[?|?]]; [done|right; by left|right; by right].
Qed.

Lemma authorizes_order_false f id :
  authorizes_order f id = false ↔
    reservation_attributions f !! id = None ∧
    ¬ (id ∈ admitted_unreserved_entry_client_order_ids f) ∧
    ¬ (id ∈ admitted_risk_reducing_client_order_ids f).
Proof.
  rewrite <-not_true_iff_false, authorizes_order_spec.
  destruct (reservation_attributions f !! id) eqn:E; naive_solver.
Qed.

Lemma insert_attribution_Ok f a f' :
  insert_attribution f a = Ok f' →
  authorizes_order f (attr_client_order_id a) = false ∧
  f' = mkRecoveryFacts (<[attr_client_order_id a := a]> (reservation_attributions f))
         (reservation_fills f) (admitted_unreserved_entry_client_order_ids f)
         (admitted_risk_reducing_client_order_ids f).
Proof.
  unfold insert_attribution. intros H. result_inv. subst.
  rewrite authorizes_order_false, <-is_some_false.
  apply andb_true_iff in E0 as [?%negb_true_iff%bool_decide_eq_false ?%negb_true_iff%bool_decide_eq_false].
  done.
Qed.

Lemma insert_authorization_Ok f id k f' :
  insert_non_reservation_authorization f id k = Ok f' →
  authorizes_order f id = false ∧
  reservation_attributions f' = reservation_attributions f ∧
  reservation_fills f' = reservation_fills f ∧
  ∀ id', authorizes_order f' id' = true ↔ id' = id ∨ authorizes_order f id' = true.
Proof.
  unfold insert_non_reservation_authorization. intros H. result_inv.
  apply andb_true_iff in E as [[E1 E2]%andb_true_iff E3].
  apply is_some_false in E1. apply negb_true_iff, bool_decide_eq_false in E2, E3.
  rewrite authorizes_order_false. subst f'. split; [done|].
  destruct k; (split; [done|]); (split; [done|]); intros id'; rewrite !authorizes_order_spec; simpl;
    rewrite elem_of_union, elem_of_singleton; tauto.
Qed.

Lemma insert_attribution_authorizes f a f' id :
  insert_attribution f a = Ok f' →
  authorizes_order f' id = true ↔ id = attr_client_order_id a ∨ authorizes_order f id = true.
Proof.
  intros [Hnew ->]%insert_attribution_Ok. rewrite !authorizes_order_spec. simpl.
  destruct (decide (id = attr_client_order_id a)) as [->|Hne].
  - rewrite lookup_insert_eq. split; [by left|by left].
  - rewrite lookup_insert_ne by done. tauto.
Qed.

(** An admission names its order: a reservation carries the order's own id. *)
Definition names_order (client_order_id : text) (reservation : option ReservationAttribution) : Prop :=
  ∀ a, reservation = Some a → attr_client_order_id a = client_order_id.

Lemma insert_admission_authorizes f id o k f' :
  names_order id o → insert_admission f id o k = Ok f' →
  authorizes_order f id = false ∧
  ∀ id', authorizes_order f' id' = true ↔ id' = id ∨ authorizes_order f id' = true.
Proof.
  intros Hname H. destruct o as [a|]; simpl in H.
  - rewrite <-(Hname a eq_refl). split; [by apply insert_attribution_Ok in H as [? _]|].
    intros id'. by apply insert_attribution_authorizes.
  - apply insert_authorization_Ok in H as (? & _ & _ & ?). by split.
Qed.

Lemma insert_legs_authorizes legs f f' :
  Forall (λ leg, names_order (leg_client_order_id leg) (leg_reservation leg)) legs →
  insert_legs f legs = Ok f' →
  NoDup (leg_client_order_id <$> legs) ∧
  Forall (λ leg, authorizes_order f (leg_client_order_id leg) = false) legs ∧
  ∀ id', authorizes_order f' id' = true ↔
    id' ∈ leg_client_order_id <$> legs ∨ authorizes_order f id' = true.
Proof.
  intros Hlegs. revert f. induction Hlegs as [|leg legs Hleg Hlegs IH]; intros f H; simpl in H.
  - injection H as <-. split_and!; [constructor|done|]. intros id'. simpl. set_solver.
  - result_inv. apply insert_admission_authorizes in E as [Hnew Ha]; [|done].
    apply IH in H as (Hnd & Hfresh & Hf'). split_and!.
    + simpl. constructor; [|done]. intros (leg' & Heq & Hin)%list_elem_of_fmap.
      rewrite Forall_forall in Hfresh. specialize (Hfresh leg' Hin).
      apply not_true_iff_false in Hfresh. apply Hfresh, Ha. by left.
    + constructor; [done|]. eapply Forall_impl; [exact Hfresh|]. intros leg' Hl. simpl in Hl.
      apply not_true_iff_false. apply not_true_iff_false in Hl. intros ?. apply Hl, Ha. by right.
    + intros id'. rewrite Hf', Ha. simpl. rewrite elem_of_cons. tauto.
Qed.

Section RecoveryFacts.
Context {D : Type} `{DecimalOps D} `{DecimalText D}.

Lemma insert_fill_keeps f fill f' :
  insert_fill (D := D) f fill = Ok f' →
  reservation_attributions f' = reservation_attributions f ∧
  ∀ id, authorizes_order f' id = authorizes_order f id.
Proof.
  unfold insert_fill. destruct (_ !! fill_trade_id fill); intros Hf; result_inv; by subst.
Qed.

Lemma insert_fill_new f fill :
  reservation_fill f (fill_client_order_id fill) (fill_submit_reservation_id fill)
    (fill_trade_id fill) = None →
  insert_fill (D := D) f fill =
    let key := (fill_client_order_id fill, fill_submit_reservation_id fill) in
    Ok (mkRecoveryFacts (reservation_attributions f)
          (<[key := <[fill_trade_id fill := fill]> (default ∅ (reservation_fills f !! key))]>
             (reservation_fills f))
          (admitted_unreserved_entry_client_order_ids f)
          (admitted_risk_reducing_client_order_ids f)).
Proof.
  unfold reservation_fill, insert_fill. simpl.
  destruct (reservation_fills f !! _) as [fills|]; simpl; [by intros ->|by rewrite lookup_empty].
Qed.

Lemma recover_app f log event f' :
  recover (D := D) f log = Ok f' →
  recover (D := D) f (log ++ [event]) = recovery_apply (D := D) f' event.
Proof.
  revert f. induction log as [|e log IH]; intros f Hf; simpl in *.
  - injection Hf as <-. by destruct (recovery_apply f event).
  - result_inv. rewrite E. simpl. by apply IH.
Qed.

Lemma all_ok_Ok {A E} (g : A → Result unit E) l u :
  all_ok g l = Ok u ↔ Forall (λ x, g x = Ok tt) l.
Proof.
  destruct u. induction l as [|x l IH]; simpl; [by split; [|constructor]|].
  rewrite result_bind_Ok, Forall_cons, <-IH. split; [intros ([] & ? & ?); done|].
  intros [? ?]. by exists tt.
Qed.

(** The attribution that an index holds for a fill, and the fill's quantity. *)
Definition fills_attributed (f : ReservationRecoveryFacts) : Prop :=
  map_Forall (λ key fills,
    ∃ a, reservation_attributions f !! key.1 = Some a ∧ attr_submit_reservation_id a = key.2 ∧
      map_Forall (λ trade fill,
        fill_client_order_id fill = key.1 ∧ fill_submit_reservation_id fill = key.2 ∧
        fill_trade_id fill = trade ∧ fill_instrument_id fill = attr_instrument_id a ∧
        fill_side fill = attr_side a ∧
        ∃ q : D, d_from_str (fill_quantity fill) = Some q ∧ d_gtb q d_zero = true) fills)
    (reservation_fills f).

Lemma validate_fill_Ok a cid sid trade fill :
  validate_fill (D := D) a cid sid (trade, fill) = Ok tt ↔
  fill_client_order_id fill = cid ∧ fill_submit_reservation_id fill = sid ∧
  fill_trade_id fill = trade ∧ fill_instrument_id fill = attr_instrument_id a ∧
  fill_side fill = attr_side a ∧
  ∃ q : D, d_from_str (fill_quantity fill) = Some q ∧ d_gtb q d_zero = true.
Proof.
  unfold validate_fill. split.
  - intros Hv. result_inv. rewrite !andb_true_iff, !bool_decide_eq_true in *.
    destruct (d_from_str (fill_quantity fill)) as [q|]; naive_solver.
  - intros (-> & -> & -> & -> & -> & q & -> & Hq). by rewrite !bool_decide_true, Hq.
Qed.

Lemma recovery_validate_Ok f : recovery_validate (D := D) f = Ok tt ↔ fills_attributed f.
Proof.
  unfold recovery_validate. rewrite all_ok_Ok, Forall_forall. split.
  - intros Hall [cid sid] fills Hlook. specialize (Hall ((cid, sid), fills)).
    apply elem_of_map_to_list in Hlook. specialize (Hall Hlook). simpl in Hall. result_inv.
    apply bool_decide_eq_true in E0. exists a. split_and!; [done|done|].
    intros trade fill Hfill. apply validate_fill_Ok.
    apply all_ok_Ok in Hall. rewrite Forall_forall in Hall. apply (Hall (trade, fill)).
    by apply elem_of_btree_iter.
  - intros Hall [[cid sid] fills] Hlook%elem_of_map_to_list.
    destruct (Hall (cid, sid) fills Hlook) as (a & Ha & Hsid & Hfills). simpl in *.
    rewrite Ha. simpl. rewrite Hsid, bool_decide_true by done. simpl.
    apply all_ok_Ok, Forall_forall. intros [trade fill] Hin%elem_of_btree_iter.
    apply validate_fill_Ok. by apply Hfills.
Qed.

End RecoveryFacts.
