(* ===== verification/SubmitAdmissionState.v ===== *)
(** * Submit admission: data

    The types of [src/src/bolt_v3_submit_admission.rs]: requests, the reservation index
    with its phases, the inner state behind the mutex, the permit and its rollbacks, the
    facts that are recorded, and the errors.  [SubmitWorld] is the state behind the
    mutexes together with the evidence log it appends to. *)

From Stdlib Require Import ZArith Lia.
From stdpp Require Import sorting strings gmap numbers list.
From S2P Require Import BTree NtTypes.
From S2P Require Import Prelude RustText DecimalAmount LossGovernor KillSwitch.
From S2P Require Import CapitalReservation CapitalAdmissionState CapitalAdmission ReservationRecovery.

Open Scope Z_scope.

(** ** Enumerations *)

Inductive BoltV3SubmitIntentKind : Type := Entry | RiskReducingExit.
Inductive BoltV3CompiledProductKind : Type := CompiledPredictionMarketBinary.
Inductive BoltV3CompiledOrderSide : Type := CompiledBuy | CompiledSell.
Inductive BoltV3CompiledOrderKind : Type := CompiledLimit | CompiledMarket.
Inductive BoltV3CompiledOrderLiquidity : Type := CompiledRestingMaker | CompiledTaker.
Inductive PredictionMarketOutcomeSide : Type := OutcomeYes | OutcomeNo.
Inductive BoltV3EvidenceFreeNonReservationPhase : Type := PermitHeld | EvidenceFreeSinkInvoked.
Inductive BoltV3SubmitReservationPhase : Type := Reserved | SinkInvoked | ObservedOpen.
Inductive CapitalAdmissionRebuildSource : Type :=
| NtOpenOrderCache | BoltRecoveredOpenOrderReservations.

#[global] Instance BoltV3SubmitIntentKind_eq_dec : EqDecision BoltV3SubmitIntentKind.
Proof. solve_decision. Defined.
#[global] Instance BoltV3CompiledOrderSide_eq_dec : EqDecision BoltV3CompiledOrderSide.
Proof. solve_decision. Defined.
#[global] Instance Phase_eq_dec : EqDecision BoltV3SubmitReservationPhase.
Proof. solve_decision. Defined.
#[global] Instance EvidenceFreePhase_eq_dec : EqDecision BoltV3EvidenceFreeNonReservationPhase.
Proof. solve_decision. Defined.
#[global] Instance ProductKind_eq_dec : EqDecision ProductKind.
Proof. solve_decision. Defined.
#[global] Instance KillSwitchStateKind_eq_dec : EqDecision KillSwitchStateKind.
Proof. solve_decision. Defined.

Definition product_to_capital_admission (k : BoltV3CompiledProductKind) : ProductKind :=
  match k with CompiledPredictionMarketBinary => ProductPredictionMarketBinary end.

Definition reservation_product_kind (k : BoltV3CompiledProductKind) : ReservationProductKind :=
  match k with CompiledPredictionMarketBinary => ReservationPredictionMarketBinary end.

Definition reservation_product_kind_from_capital (k : ProductKind) : ReservationProductKind :=
  match k with ProductPredictionMarketBinary => ReservationPredictionMarketBinary end.

Definition side_to_capital_admission (s : BoltV3CompiledOrderSide) : IntentSide :=
  match s with CompiledBuy => Buy | CompiledSell => Sell end.

Definition evidence_order_side (s : BoltV3CompiledOrderSide) : EvidenceOrderSide :=
  match s with CompiledBuy => EvidenceBuy | CompiledSell => EvidenceSell end.

Definition kind_to_capital_admission (k : BoltV3CompiledOrderKind) : IntentOrderKind :=
  match k with CompiledLimit => LimitOrder | CompiledMarket => MarketOrder end.

Definition liquidity_to_capital_admission (l : BoltV3CompiledOrderLiquidity) : IntentLiquidity :=
  match l with CompiledRestingMaker => RestingMaker | CompiledTaker => Taker end.

Definition rebuild_source_as_str (s : CapitalAdmissionRebuildSource) : text :=
  match s with
  | NtOpenOrderCache => lit "nt_open_order_cache"
  | BoltRecoveredOpenOrderReservations => lit "bolt_recovered_open_order_reservations"
  end.

Definition loss_halt_reason_to_evidence (r : LossHaltReason) : EvidenceLossHaltReason :=
  match r with
  | PerTradeLossLimit => EvidencePerTradeLossLimit
  | DailyLossLimit => EvidenceDailyLossLimit
  | RollingLossLimit => EvidenceRollingLossLimit
  | MaxDrawdownLimit => EvidenceMaxDrawdownLimit
  | StaleLossSnapshot => EvidenceStaleLossSnapshot
  end.

(** Also [loss_snapshot_stale_reason_to_halt_reason]: the two evidence enumerations have
    the same variants. *)
Definition loss_snapshot_stale_reason_to_evidence (r : LossSnapshotStaleReason)
    : EvidenceStaleReason :=
  match r with
  | MissingSnapshot => EvidenceMissingSnapshot
  | SourceEmpty => EvidenceSourceEmpty
  | FutureDated => EvidenceFutureDated
  | AgeExceeded => EvidenceAgeExceeded
  | MissingRequiredField => EvidenceMissingRequiredField
  end.

Definition stale_loss_reason_key (r : EvidenceStaleReason) : text :=
  match r with
  | EvidenceMissingSnapshot => lit "missing_snapshot"
  | EvidenceSourceEmpty => lit "source_empty"
  | EvidenceFutureDated => lit "future_dated"
  | EvidenceAgeExceeded => lit "age_exceeded"
  | EvidenceMissingRequiredField => lit "missing_required_field"
  end.

Definition admission_outcome_key (outcome : AdmissionDecisionOutcome) : text :=
  match outcome with
  | OutcomeAdmitted => lit "admitted"
  | Rejected KillSwitchLatched => lit "rejected_kill_switch_latched"
  | Rejected LossGovernorHalted => lit "rejected_loss_governor_halted"
  | Rejected NonPositiveNotional => lit "rejected_non_positive_notional"
  | Rejected NotionalCapExceeded => lit "rejected_notional_cap_exceeded"
  | Rejected ClientOrderAlreadyAuthorized => lit "rejected_client_order_already_authorized"
  | Rejected InvalidRiskReducingExitProof => lit "rejected_invalid_risk_reducing_exit_proof"
  | Rejected CountCapExhausted => lit "rejected_count_cap_exhausted"
  | Rejected KillSwitchForcedReductionProofInvalid =>
      lit "rejected_kill_switch_forced_reduction_proof_invalid"
  | Rejected KillSwitchForcedReductionCapExceeded =>
      lit "rejected_kill_switch_forced_reduction_cap_exceeded"
  | Rejected EconomicsSealRejected => lit "rejected_economics_seal"
  | Rejected CapitalAdmissionRejection => lit "rejected_capital_admission"
  end.

Definition submit_admission_order_side_key (s : OrderSide) : text :=
  match s with
  | OrderBuy => lit "buy"
  | OrderSell => lit "sell"
  | NoOrderSide => lit "no_order_side"
  end.

Inductive BoltV3CapitalAdmissionRejectReason : Type :=
| RejectMissingAdmissionEvidence
| RejectVenueMismatch
| RejectAccountMismatch
| RejectProductKindMismatch
| RejectCollateralCurrencyMismatch
| RejectUnsupportedProductKind
| RejectMissingPredictionMarketOutcome
| RejectOutcomeInstrumentMismatch
| RejectDuplicateClientOrderId
| RejectOrderShapeMismatch
| RejectMissingNtState
| RejectStaleNtState
| RejectUnattributedNtState
| RejectReconciliationRequired
| RejectOverBudget
| RejectReservation (reason : ReservationRejectionReason)
| RejectLiability (error : LiabilityError)
| RejectLoss (reason : LossHaltReason)
| RejectAcceptedQuantityMismatch.

Inductive BoltV3SubmitAdmissionInvariant : Type :=
| AdmittedSubmitMissingEvidenceAuthority
| AcceptedCapitalAdmissionRebuildHasRejectionReason
| ContradictoryAdmissionDecisionContext
| ExpectedRejectedOutcome
| InvalidCapitalAdmissionDecisionContext
| InvalidCapitalAdmissionRebuildReservationDecision (invariant : CapitalAdmissionInvariant)
| KillSwitchForcedReductionReachedNormalAdmission
| MissingAdmittedCounterUpdate
| MissingCapitalAdmissionRebuildRejectionReason
| MissingCapitalAdmissionRejectionReason
| MissingLossHaltReasons
| MissingStaleLossReason
| RollbackOwnershipLost.

(** [EconomicsError::RequiredCapabilityStale] is the one economics error that reaches
    this component. *)
Inductive BoltV3SubmitAdmissionError : Type :=
| ErrorKillSwitchLatched (state : KillSwitchStateKind)
| ErrorLossGovernorHalted (reasons : list LossHaltReason)
| ErrorCountCapExhausted
| ErrorNonPositiveNotional
| ErrorNotionalCapExceeded
| ErrorClientOrderAlreadyAuthorized
| ErrorInvalidRiskReducingExitProof
| ErrorEconomicsUnavailable (valid_until_ns : Z)
| ErrorCapitalAdmissionRejected (reason : BoltV3CapitalAdmissionRejectReason)
| ErrorInvariantViolation (invariant : BoltV3SubmitAdmissionInvariant)
| ErrorEconomicsSealRejected
| ErrorEvidenceWriteFailed
| ErrorSystemClock (reason : text).

(** ** Records without amounts *)

Record BoltV3LossFreshness : Type := mkFreshness {
  account_state_count : Z;
  portfolio_snapshot_count : Z;
  position_event_count : Z;
  last_account_state_ts_ns : option Z;
  last_portfolio_snapshot_ts_ns : option Z;
  last_position_event_ts_ns : option Z;
}.

Definition freshness_empty : BoltV3LossFreshness := mkFreshness 0 0 0 None None None.

Record LossHaltEpisode : Type := mkHaltEpisode { halt_count : Z; first_halt_ns : Z }.

Record RejectEpisode : Type := mkRejectEpisode {
  reject_count : Z;
  reject_first_ns : Z;
  last_client_order_id : text;
}.

Record BoltV3SubmitReservationFillMetadata : Type := mkFillMetadata {
  meta_instrument_id : text;
  meta_side : BoltV3CompiledOrderSide;
}.

Record BoltV3SubmitReservationRecord : Type := mkRecord {
  rec_attribution : ReservationAttribution;
  rec_phase : BoltV3SubmitReservationPhase;
  rec_phase_revision : Z;
  rec_unresolved_in_projection : bool;
  rec_fill_metadata : option BoltV3SubmitReservationFillMetadata;
}.

Record BoltV3SubmitTerminalReservationCapability : Type := mkCapability {
  capability_client_order_id : text;
  capability_phase : BoltV3SubmitReservationPhase;
  capability_phase_revision : Z;
}.

Inductive BoltV3SubmitTerminalReservationDecision : Type :=
| Retired
| NotRetained
| StaleCapability
| RevisionExhausted
| LedgerMismatch
| EvidenceRejected
| RetirementInvariantViolation (error : BoltV3SubmitAdmissionError).

Record BoltV3SubmitCapitalAdmissionRebuildAuditContext : Type := mkAuditContext {
  audit_observed_at_ns : Z;
  audit_source : CapitalAdmissionRebuildSource;
  audit_observed_open_order_count : Z;
  audit_all_open_orders_attributed : bool;
  audit_unresolved_sink_invoked : Z;
  audit_unresolved_observed_open : Z;
}.

Record BoltV3SubmitReservationFillEvidenceDecision : Type := mkFillDecision {
  fill_accepted : bool;
  fill_unknown_reservation : bool;
}.

Definition fill_decision_unknown : BoltV3SubmitReservationFillEvidenceDecision :=
  mkFillDecision false true.

(** [ProviderCollateralAllowanceCaptureFailureEvidence]; the endpoint and the error class
    are only copied into the recorded fact. *)
Record ProviderCollateralAllowanceCaptureFailureEvidence : Type := mkCaptureFailure {
  failure_source : text;
  failure_observed_at_ns : Z;
  failure_captures_missed : Z;
}.

(** ** Recorded facts *)

(** The fields of [OrderRejectFact] that this component sets. *)
Record OrderRejectFact : Type := mkOrderReject {
  reject_admission_outcome : option AdmissionDecisionOutcome;
  reject_instrument_id : text;
  reject_order_side : option EvidenceOrderSide;
  reject_raw_quantity : option text;
  reject_prior_client_order_id : option text;
  reject_client_order_id : text;
  reject_retry_count : Z;
  reject_stable_episode_key : text;
  reject_elapsed_ns : Z;
}.

Record LossGovernorHaltFact : Type := mkLossHaltFact {
  halt_snapshot_present : bool;
  halt_snapshot_observed_at_ns : option Z;
  halt_admission_now_ns : Z;
  halt_snapshot_age_ns : option Z;
  halt_max_snapshot_age_ns : Z;
  halt_snapshot_source : option LossSnapshotSource;
  halt_has_per_trade_pnl : bool;
  halt_has_daily_pnl : bool;
  halt_has_rolling_pnl : bool;
  halt_has_current_equity : bool;
  halt_has_peak_equity : bool;
  halt_freshness : BoltV3LossFreshness;
  halt_stale_reason : EvidenceStaleReason;
  halt_stable_key : text;
  halt_retry_count : Z;
  halt_elapsed_since_first_ns : Z;
}.

Inductive CapitalAdmissionRebuildOutcome : Type :=
| RebuildAccepted
| RebuildRejected (reason : ReservationRejectionReason).

Record CapitalAdmissionRebuildFact : Type := mkRebuildFact {
  rebuild_fact_context : BoltV3SubmitCapitalAdmissionRebuildAuditContext;
  rebuild_fact_outcome : CapitalAdmissionRebuildOutcome;
  rebuild_fact_attempted : Z;
  rebuild_fact_recovered : Z;
  rebuild_fact_live_reserved_liability : text;
}.

Inductive EvidenceFact : Type :=
| RecoveryFact (event : ReservationRecoveryEvent)
| RejectedEntryFact (fact : RejectedEntryAdmissionFact)
| OrderRejected (fact : OrderRejectFact)
| LossGovernorHalt (fact : LossGovernorHaltFact)
| CapitalAdmissionRebuild (fact : CapitalAdmissionRebuildFact)
| AllowanceCaptureFailure (fact : ProviderCollateralAllowanceCaptureFailureEvidence).

(** ** The permit *)

Record BoltV3CapitalAdmissionReservationRollback : Type := mkRollback {
  rollback_client_order_id : text;
  rollback_submit_reservation_id : text;
  rollback_pool_id : text;
  rollback_observed_at_ns : Z;
}.

Record BoltV3SubmitAdmissionCounterRollback : Type := mkCounterRollback {
  counter_execution_client_id : text;
  counter_order_count : Z;
  uncommitted_evidence_free_client_order_ids : list text;
}.

Record BoltV3SubmitAdmissionCounterValues : Type := mkCounterValues {
  values_admitted_order_count : Z;
  values_execution_client_order_count : Z;
}.

(** The receipt of a committed record carries no data. *)
Inductive BoltV3SubmitEvidenceAuthority : Type :=
| CommittedEntry
| CommittedBasket
| RiskReducingAuthority.

Inductive RecordedAdmissionAuthority : Type :=
| RecordedCommittedEntry
| RecordedRiskReducing (evidence_committed : bool)
| NoExternalActionAuthority.

Record BoltV3SubmitAdmissionPermit : Type := mkPermit {
  permit_rollbacks : list BoltV3CapitalAdmissionReservationRollback;
  permit_counter_rollback : option BoltV3SubmitAdmissionCounterRollback;
  permit_evidence_authority : option BoltV3SubmitEvidenceAuthority;
  permit_committed : bool;
}.

Record BoltV3CapitalAdmissionAcceptance : Type := mkAcceptance {
  acceptance_rollback : option BoltV3CapitalAdmissionReservationRollback;
  acceptance_attribution : option ReservationAttribution;
}.

Inductive BoltV3CapitalAdmissionSubmitDecision : Type :=
| CapitalAccepted (acceptance : BoltV3CapitalAdmissionAcceptance)
| CapitalRejected (reason : BoltV3CapitalAdmissionRejectReason)
| CapitalInvariant (invariant : BoltV3SubmitAdmissionInvariant).

Record BoltV3SubmitAdmissionEvaluation : Type := mkEvaluation {
  eval_outcome : AdmissionDecisionOutcome;
  eval_admission_now_ns : Z;
  eval_loss_halt_reasons : list LossHaltReason;
  eval_loss_snapshot_diagnostics : option LossSnapshotDiagnostics;
  eval_capital_admission_rejection : option BoltV3CapitalAdmissionRejectReason;
  eval_rollback : option BoltV3CapitalAdmissionReservationRollback;
  eval_reservation_attribution : option ReservationAttribution;
}.

(** ** Records with amounts *)

Section Amounts.
Context {D : Type} `{DecimalOps D}.

Record BoltV3LiveSubmitApprovalLimits : Type := mkApprovalLimits {
  limits_max_order_count : Z;
  limits_max_order_notional : D;
}.

Record BoltV3RiskReducingExitProof : Type := mkExitProof {
  proof_position_id : text;
  proof_instrument_id : text;
  proof_position_side : PositionSide;
  proof_exit_order_side : OrderSide;
  proof_position_quantity : D;
  proof_exit_quantity : D;
}.

Record BoltV3CompiledOrderAdmissionEvidence : Type := mkCompiledEvidence {
  ev_venue_id : text;
  ev_product_kind : BoltV3CompiledProductKind;
  ev_side : BoltV3CompiledOrderSide;
  ev_quantity : D;
  ev_effective_price : D;
  ev_order_kind : BoltV3CompiledOrderKind;
  ev_liquidity : BoltV3CompiledOrderLiquidity;
  ev_quote_set_id : option text;
  ev_prediction_market_outcome : option PredictionMarketOutcomeSide;
}.

Record BoltV3SubmitAdmissionRequest : Type := mkSubmitRequest {
  req_strategy_id : text;
  req_execution_client_id : text;
  req_client_order_id : text;
  req_instrument_id : text;
  req_notional : D;
  req_order_side : OrderSide;
  req_order_quantity : D;
  req_intent_kind : BoltV3SubmitIntentKind;
  req_risk_reducing_exit_proof : option BoltV3RiskReducingExitProof;
  req_admission_evidence : option BoltV3CompiledOrderAdmissionEvidence;
}.

Record BoltV3BasketSubmitSlotClaim : Type := mkClaim {
  claim_client_order_id : text;
  claim_instrument_id : text;
  claim_notional : D;
  claim_order_side : OrderSide;
  claim_order_quantity : D;
  claim_intent_kind : BoltV3SubmitIntentKind;
  claim_risk_reducing_exit_proof : option BoltV3RiskReducingExitProof;
  claim_admission_evidence : option BoltV3CompiledOrderAdmissionEvidence;
}.

Record BoltV3SubmitCapitalAdmissionConfig : Type := mkCapitalConfig {
  config_venue_id : text;
  config_account_id : text;
  config_product_kind : ProductKind;
  config_collateral_currency : text;
  config_capital_pool : @CapitalPoolSnapshot D;
  config_policy : CapitalAdmissionPolicy D;
}.

Record BoltV3SubmitCapitalAdmissionNtComponents : Type := mkComponents {
  comp_source : text;
  comp_observed_at_ns : Z;
  comp_portfolio : PortfolioCapitalAdmissionSnapshot D;
  comp_provider_collateral_allowance : ProviderCollateralAllowanceSnapshot D;
  comp_order_lifecycle : OrderLifecycleCapitalAdmissionSnapshot;
  comp_product_state : ProductAdmissionSnapshot D;
  comp_loss_snapshot : option (LossSnapshot D);
}.

Record BoltV3SubmitCapitalAdmissionOpenOrderReservation : Type := mkOpenReservation {
  open_client_order_id : text;
  open_attribution : ReservationAttribution;
  open_submit_reservation_id : text;
  open_collateral_group_id : text;
  open_liability : D;
  open_instrument_id : text;
  open_side : BoltV3CompiledOrderSide;
  open_open_quantity : D;
  open_original_quantity : D;
  open_filled_quantity : D;
  open_liability_factor : D;
  open_additive_liability : D;
  open_observed_at_ns : Z;
  open_evidence_label : text;
}.

Record BoltV3SubmitCapitalAdmissionOpenOrderSnapshot : Type := mkOpenSnapshot {
  snap_observed_at_ns : Z;
  snap_evidence_source : CapitalAdmissionRebuildSource;
  snap_observed_open_order_count : Z;
  snap_all_open_orders_attributed : bool;
  snap_reservations : list BoltV3SubmitCapitalAdmissionOpenOrderReservation;
}.

Record BoltV3SubmitCapitalAdmissionOpenOrderEvidence : Type := mkOpenEvidence {
  order_client_order_id : text;
  order_instrument_id : text;
  order_side : BoltV3CompiledOrderSide;
  order_open_quantity : D;
  order_limit_price : D;
  order_observed_at_ns : Z;
  order_evidence_label : text;
}.

Record BoltV3SubmitCapitalAdmissionRebuildDecision : Type := mkSubmitRebuild {
  submit_rebuild_accepted : bool;
  submit_rebuild_reason : option ReservationRejectionReason;
  submit_rebuild_attempted : Z;
  submit_rebuild_rebuilt : Z;
  submit_rebuild_live_reserved : D;
}.

Record BoltV3SubmitCapitalAdmissionFillUpdate : Type := mkFillUpdate {
  update_client_order_id : text;
  update_trade_id : text;
  update_instrument_id : text;
  update_side : BoltV3CompiledOrderSide;
  update_fill_quantity : D;
  update_observed_at_ns : Z;
  update_reconciliation : bool;
  update_evidence_source : SubmitReservationFillSource;
}.

Inductive ValidatedCapitalAdmissionDecision : Type :=
| CapitalDecisionAccepted (accepted_quantity reserved_liability : D)
| CapitalDecisionRejected (reason : BoltV3CapitalAdmissionRejectReason).

(** ** The state behind the mutex *)

Record BoltV3SubmitCapitalAdmissionState : Type := mkCapital {
  cap_venue_id : text;
  cap_account_id : text;
  cap_product_kind : ProductKind;
  cap_collateral_currency : text;
  cap_pool : @CapitalPoolSnapshot D;
  cap_policy : CapitalAdmissionPolicy D;
  cap_state : option (NtDerivedCapitalAdmissionState D);
  cap_latest_reservation_mutation_observed_at_ns : option Z;
  cap_capture_failure_source : option text;
  cap_capture_failure_observed_at_ns : option Z;
  cap_gate : CapitalAdmissionGate D;
  cap_next_sequence : Z;
  cap_index : gmap text BoltV3SubmitReservationRecord;
  cap_unresolved : Z * Z;
  cap_fill_evidence_integrity_failed : bool;
}.

Record BoltV3SubmitAdmissionInner : Type := mkInner {
  in_kill_switch_state : KillSwitchState;
  in_live_submit_approval_limits : gmap text BoltV3LiveSubmitApprovalLimits;
  in_admitted_order_count : Z;
  in_admitted_order_count_by_execution_client : gmap text Z;
  in_rollback_ownership_latch : option BoltV3SubmitAdmissionInvariant;
  in_revision : Z;
  in_evidence_free : gmap text BoltV3EvidenceFreeNonReservationPhase;
  in_authority : ReservationRecoveryFacts;
  in_loss_policy : option (LossGovernorPolicy D);
  in_loss_snapshot : option (LossSnapshot D);
  in_loss_source_observations : LossSourceObservationTimestamps;
  in_loss_freshness : BoltV3LossFreshness;
  in_loss_halt_episodes : gmap text LossHaltEpisode;
  in_capital : option BoltV3SubmitCapitalAdmissionState;
}.

(** [BoltV3SubmitAdmissionState] and its evidence: [sw_appends] counts the records it
    tried to append, [sw_log] holds the ones that were. *)
Record SubmitWorld : Type := mkSubmitWorld {
  sw_inner : BoltV3SubmitAdmissionInner;
  sw_reject_episodes : gmap text RejectEpisode;
  sw_appends : nat;
  sw_log : list EvidenceFact;
}.

(** ** Assignments *)

Definition set_gate (c : BoltV3SubmitCapitalAdmissionState) (g : CapitalAdmissionGate D)
    : BoltV3SubmitCapitalAdmissionState :=
  mkCapital (cap_venue_id c) (cap_account_id c) (cap_product_kind c) (cap_collateral_currency c)
    (cap_pool c) (cap_policy c) (cap_state c) (cap_latest_reservation_mutation_observed_at_ns c)
    (cap_capture_failure_source c) (cap_capture_failure_observed_at_ns c) g (cap_next_sequence c)
    (cap_index c) (cap_unresolved c) (cap_fill_evidence_integrity_failed c).

Definition set_index (c : BoltV3SubmitCapitalAdmissionState)
    (index : gmap text BoltV3SubmitReservationRecord) : BoltV3SubmitCapitalAdmissionState :=
  mkCapital (cap_venue_id c) (cap_account_id c) (cap_product_kind c) (cap_collateral_currency c)
    (cap_pool c) (cap_policy c) (cap_state c) (cap_latest_reservation_mutation_observed_at_ns c)
    (cap_capture_failure_source c) (cap_capture_failure_observed_at_ns c) (cap_gate c)
    (cap_next_sequence c) index (cap_unresolved c) (cap_fill_evidence_integrity_failed c).

Definition set_cap_state (c : BoltV3SubmitCapitalAdmissionState)
    (state : option (NtDerivedCapitalAdmissionState D)) : BoltV3SubmitCapitalAdmissionState :=
  mkCapital (cap_venue_id c) (cap_account_id c) (cap_product_kind c) (cap_collateral_currency c)
    (cap_pool c) (cap_policy c) state (cap_latest_reservation_mutation_observed_at_ns c)
    (cap_capture_failure_source c) (cap_capture_failure_observed_at_ns c) (cap_gate c)
    (cap_next_sequence c) (cap_index c) (cap_unresolved c) (cap_fill_evidence_integrity_failed c).

(** [capital_pool.source] and [capital_pool.observed_at_ns]. *)
Definition set_pool_evidence (c : BoltV3SubmitCapitalAdmissionState) (source : text) (at_ns : Z)
    : BoltV3SubmitCapitalAdmissionState :=
  let p := cap_pool c in
  mkCapital (cap_venue_id c) (cap_account_id c) (cap_product_kind c) (cap_collateral_currency c)
    (mkPool source at_ns (pool_id p) (max_pool_liability p) (committed_liability p)
       (max_snapshot_age_ns p))
    (cap_policy c) (cap_state c) (cap_latest_reservation_mutation_observed_at_ns c)
    (cap_capture_failure_source c) (cap_capture_failure_observed_at_ns c) (cap_gate c)
    (cap_next_sequence c) (cap_index c) (cap_unresolved c) (cap_fill_evidence_integrity_failed c).

Definition set_mutation_observed (c : BoltV3SubmitCapitalAdmissionState) (at_ns : option Z)
    : BoltV3SubmitCapitalAdmissionState :=
  mkCapital (cap_venue_id c) (cap_account_id c) (cap_product_kind c) (cap_collateral_currency c)
    (cap_pool c) (cap_policy c) (cap_state c) at_ns (cap_capture_failure_source c)
    (cap_capture_failure_observed_at_ns c) (cap_gate c) (cap_next_sequence c) (cap_index c)
    (cap_unresolved c) (cap_fill_evidence_integrity_failed c).

Definition set_capture_failure (c : BoltV3SubmitCapitalAdmissionState) (source : option text)
    (at_ns : option Z) : BoltV3SubmitCapitalAdmissionState :=
  mkCapital (cap_venue_id c) (cap_account_id c) (cap_product_kind c) (cap_collateral_currency c)
    (cap_pool c) (cap_policy c) (cap_state c) (cap_latest_reservation_mutation_observed_at_ns c)
    source at_ns (cap_gate c) (cap_next_sequence c) (cap_index c) (cap_unresolved c)
    (cap_fill_evidence_integrity_failed c).

Definition set_next_sequence (c : BoltV3SubmitCapitalAdmissionState) (n : Z)
    : BoltV3SubmitCapitalAdmissionState :=
  mkCapital (cap_venue_id c) (cap_account_id c) (cap_product_kind c) (cap_collateral_currency c)
    (cap_pool c) (cap_policy c) (cap_state c) (cap_latest_reservation_mutation_observed_at_ns c)
    (cap_capture_failure_source c) (cap_capture_failure_observed_at_ns c) (cap_gate c) n
    (cap_index c) (cap_unresolved c) (cap_fill_evidence_integrity_failed c).

Definition set_unresolved (c : BoltV3SubmitCapitalAdmissionState) (counts : Z * Z)
    : BoltV3SubmitCapitalAdmissionState :=
  mkCapital (cap_venue_id c) (cap_account_id c) (cap_product_kind c) (cap_collateral_currency c)
    (cap_pool c) (cap_policy c) (cap_state c) (cap_latest_reservation_mutation_observed_at_ns c)
    (cap_capture_failure_source c) (cap_capture_failure_observed_at_ns c) (cap_gate c)
    (cap_next_sequence c) (cap_index c) counts (cap_fill_evidence_integrity_failed c).

Definition set_integrity_failed (c : BoltV3SubmitCapitalAdmissionState) (failed : bool)
    : BoltV3SubmitCapitalAdmissionState :=
  mkCapital (cap_venue_id c) (cap_account_id c) (cap_product_kind c) (cap_collateral_currency c)
    (cap_pool c) (cap_policy c) (cap_state c) (cap_latest_reservation_mutation_observed_at_ns c)
    (cap_capture_failure_source c) (cap_capture_failure_observed_at_ns c) (cap_gate c)
    (cap_next_sequence c) (cap_index c) (cap_unresolved c) failed.

Definition set_kill_switch_state (i : BoltV3SubmitAdmissionInner) (s : KillSwitchState)
    : BoltV3SubmitAdmissionInner :=
  mkInner s (in_live_submit_approval_limits i) (in_admitted_order_count i)
    (in_admitted_order_count_by_execution_client i) (in_rollback_ownership_latch i) (in_revision i)
    (in_evidence_free i) (in_authority i) (in_loss_policy i) (in_loss_snapshot i)
    (in_loss_source_observations i) (in_loss_freshness i) (in_loss_halt_episodes i) (in_capital i).

Definition set_counts (i : BoltV3SubmitAdmissionInner) (total : Z) (by_client : gmap text Z)
    : BoltV3SubmitAdmissionInner :=
  mkInner (in_kill_switch_state i) (in_live_submit_approval_limits i) total by_client
    (in_rollback_ownership_latch i) (in_revision i) (in_evidence_free i) (in_authority i)
    (in_loss_policy i) (in_loss_snapshot i) (in_loss_source_observations i) (in_loss_freshness i)
    (in_loss_halt_episodes i) (in_capital i).

Definition set_latch (i : BoltV3SubmitAdmissionInner)
    (latch : option BoltV3SubmitAdmissionInvariant) : BoltV3SubmitAdmissionInner :=
  mkInner (in_kill_switch_state i) (in_live_submit_approval_limits i) (in_admitted_order_count i)
    (in_admitted_order_count_by_execution_client i) latch (in_revision i)
    (in_evidence_free i) (in_authority i) (in_loss_policy i) (in_loss_snapshot i)
    (in_loss_source_observations i) (in_loss_freshness i) (in_loss_halt_episodes i) (in_capital i).

Definition set_revision (i : BoltV3SubmitAdmissionInner) (revision : Z)
    : BoltV3SubmitAdmissionInner :=
  mkInner (in_kill_switch_state i) (in_live_submit_approval_limits i) (in_admitted_order_count i)
    (in_admitted_order_count_by_execution_client i) (in_rollback_ownership_latch i) revision
    (in_evidence_free i) (in_authority i) (in_loss_policy i) (in_loss_snapshot i)
    (in_loss_source_observations i) (in_loss_freshness i) (in_loss_halt_episodes i) (in_capital i).

Definition set_evidence_free (i : BoltV3SubmitAdmissionInner)
    (m : gmap text BoltV3EvidenceFreeNonReservationPhase) : BoltV3SubmitAdmissionInner :=
  mkInner (in_kill_switch_state i) (in_live_submit_approval_limits i) (in_admitted_order_count i)
    (in_admitted_order_count_by_execution_client i) (in_rollback_ownership_latch i) (in_revision i)
    m (in_authority i) (in_loss_policy i) (in_loss_snapshot i)
    (in_loss_source_observations i) (in_loss_freshness i) (in_loss_halt_episodes i) (in_capital i).

Definition set_authority (i : BoltV3SubmitAdmissionInner) (authority : ReservationRecoveryFacts)
    : BoltV3SubmitAdmissionInner :=
  mkInner (in_kill_switch_state i) (in_live_submit_approval_limits i) (in_admitted_order_count i)
    (in_admitted_order_count_by_execution_client i) (in_rollback_ownership_latch i) (in_revision i)
    (in_evidence_free i) authority (in_loss_policy i) (in_loss_snapshot i)
    (in_loss_source_observations i) (in_loss_freshness i) (in_loss_halt_episodes i) (in_capital i).

(** The loss inputs of the feed. *)
Definition set_loss_inputs (i : BoltV3SubmitAdmissionInner) (snapshot : option (LossSnapshot D))
    (observations : LossSourceObservationTimestamps) (freshness : BoltV3LossFreshness)
    : BoltV3SubmitAdmissionInner :=
  mkInner (in_kill_switch_state i) (in_live_submit_approval_limits i) (in_admitted_order_count i)
    (in_admitted_order_count_by_execution_client i) (in_rollback_ownership_latch i) (in_revision i)
    (in_evidence_free i) (in_authority i) (in_loss_policy i) snapshot observations freshness
    (in_loss_halt_episodes i) (in_capital i).

Definition set_loss_halt_episodes (i : BoltV3SubmitAdmissionInner)
    (episodes : gmap text LossHaltEpisode) : BoltV3SubmitAdmissionInner :=
  mkInner (in_kill_switch_state i) (in_live_submit_approval_limits i) (in_admitted_order_count i)
    (in_admitted_order_count_by_execution_client i) (in_rollback_ownership_latch i) (in_revision i)
    (in_evidence_free i) (in_authority i) (in_loss_policy i) (in_loss_snapshot i)
    (in_loss_source_observations i) (in_loss_freshness i) episodes (in_capital i).

Definition set_capital (i : BoltV3SubmitAdmissionInner)
    (capital : option BoltV3SubmitCapitalAdmissionState) : BoltV3SubmitAdmissionInner :=
  mkInner (in_kill_switch_state i) (in_live_submit_approval_limits i) (in_admitted_order_count i)
    (in_admitted_order_count_by_execution_client i) (in_rollback_ownership_latch i) (in_revision i)
    (in_evidence_free i) (in_authority i) (in_loss_policy i) (in_loss_snapshot i)
    (in_loss_source_observations i) (in_loss_freshness i) (in_loss_halt_episodes i) capital.

Definition set_inner (w : SubmitWorld) (i : BoltV3SubmitAdmissionInner) : SubmitWorld :=
  mkSubmitWorld i (sw_reject_episodes w) (sw_appends w) (sw_log w).

Definition set_reject_episodes (w : SubmitWorld) (episodes : gmap text RejectEpisode)
    : SubmitWorld := mkSubmitWorld (sw_inner w) episodes (sw_appends w) (sw_log w).

End Amounts.
Arguments BoltV3LiveSubmitApprovalLimits D : clear implicits.
Arguments BoltV3RiskReducingExitProof D : clear implicits.
Arguments BoltV3CompiledOrderAdmissionEvidence D : clear implicits.
Arguments BoltV3SubmitAdmissionRequest D : clear implicits.
Arguments BoltV3BasketSubmitSlotClaim D : clear implicits.
Arguments BoltV3SubmitCapitalAdmissionConfig D : clear implicits.
Arguments BoltV3SubmitCapitalAdmissionNtComponents D : clear implicits.
Arguments BoltV3SubmitCapitalAdmissionOpenOrderReservation D : clear implicits.
Arguments BoltV3SubmitCapitalAdmissionOpenOrderSnapshot D : clear implicits.
Arguments BoltV3SubmitCapitalAdmissionOpenOrderEvidence D : clear implicits.
Arguments BoltV3SubmitCapitalAdmissionRebuildDecision D : clear implicits.
Arguments BoltV3SubmitCapitalAdmissionFillUpdate D : clear implicits.
Arguments ValidatedCapitalAdmissionDecision D : clear implicits.
Arguments BoltV3SubmitCapitalAdmissionState D : clear implicits.
Arguments BoltV3SubmitAdmissionInner D : clear implicits.
Arguments SubmitWorld D : clear implicits.
