(* ===== verification/SubmitCapital.v ===== *)
(** * Submit admission: the capital side

    The parts of [src/src/bolt_v3_submit_admission.rs] that judge and change the capital
    state without recording anything: the capital decision on a request
    ([evaluate_capital_admission_submit]), the refresh of the node's state, the rollback
    of reservations and their crossing of the submit sink.  Code that mutates in place
    returns the state afterwards; [None] is a panic of the gate. *)

From Stdlib Require Import ZArith Lia.
From stdpp Require Import sorting strings gmap numbers list.
From S2P Require Import BTree NtTypes.
From S2P Require Import Prelude RustText DecimalAmount LossGovernor KillSwitch.
From S2P Require Import CapitalReservation CapitalAdmissionState CapitalAdmission ReservationRecovery.
From S2P Require Import SubmitAdmissionState.

Open Scope Z_scope.

Section Capital.
Context {D : Type} `{DecimalOps D} `{DecimalText D}.
Abbreviation Capital := (BoltV3SubmitCapitalAdmissionState D).
Abbreviation Inner := (BoltV3SubmitAdmissionInner D).
Abbreviation Request := (BoltV3SubmitAdmissionRequest D).
Abbreviation Rollback := BoltV3CapitalAdmissionReservationRollback.
Abbreviation Record_ := BoltV3SubmitReservationRecord.

(** ** Refreshing the node's state *)

(** [capital_admission.gate.invalidate_reconciliation()]. *)
Definition invalidate_gate (c : Capital) : Capital :=
  set_gate c (gate_invalidate_reconciliation (cap_gate c)).

Definition compose_capital_admission_state_from_components
    (components : BoltV3SubmitCapitalAdmissionNtComponents D) (gate_reconciled : bool)
    (latest_reservation_mutation_observed_at_ns : option Z) : NtDerivedCapitalAdmissionState D :=
  let reservation_observed_at_ns :=
    match latest_reservation_mutation_observed_at_ns with
    | None => comp_observed_at_ns components
    | Some observed_at_ns => Z.max (comp_observed_at_ns components) observed_at_ns
    end in
  {| state_source := comp_source components;
     state_observed_at_ns := Z.max (comp_observed_at_ns components) reservation_observed_at_ns;
     portfolio := comp_portfolio components;
     provider_collateral_allowance := comp_provider_collateral_allowance components;
     order_lifecycle := comp_order_lifecycle components;
     product_state := comp_product_state components;
     reservation_snapshot :=
       mkReservationSnapshot (lit "bolt_reservation_ledger") reservation_observed_at_ns
         gate_reconciled;
     CapitalAdmissionState.loss_snapshot := comp_loss_snapshot components |}.

Definition nt_components_from_existing_capital_admission_state
    (state : NtDerivedCapitalAdmissionState D) : BoltV3SubmitCapitalAdmissionNtComponents D :=
  let product_observed_at_ns := (product_evidence (product_state state)).2 in
  let observed_at_ns :=
    Z.max (Z.max (Z.max (portfolio_observed_at_ns (portfolio state))
                    (allowance_observed_at_ns (provider_collateral_allowance state)))
             (lifecycle_observed_at_ns (order_lifecycle state)))
      product_observed_at_ns in
  let observed_at_ns :=
    match CapitalAdmissionState.loss_snapshot state with
    | Some loss => Z.max observed_at_ns (snapshot_observed_at_ns loss)
    | None => observed_at_ns
    end in
  {| comp_source := state_source state;
     comp_observed_at_ns := observed_at_ns;
     comp_portfolio := portfolio state;
     comp_provider_collateral_allowance := provider_collateral_allowance state;
     comp_order_lifecycle := order_lifecycle state;
     comp_product_state := product_state state;
     comp_loss_snapshot := CapitalAdmissionState.loss_snapshot state |}.

Definition refresh_capital_admission_reservation_snapshot_with_source (c : Capital)
    (observed_at_ns : Z) (source : text) (all_live_reservations_attributed : bool) : Capital :=
  let c := set_mutation_observed c (Some observed_at_ns) in
  match cap_state c with
  | None => c
  | Some current =>
      let state :=
        compose_capital_admission_state_from_components
          (nt_components_from_existing_capital_admission_state current)
          all_live_reservations_attributed
          (cap_latest_reservation_mutation_observed_at_ns c) in
      set_cap_state c (Some
        {| state_source := state_source state;
           state_observed_at_ns := Z.max (state_observed_at_ns state) observed_at_ns;
           portfolio := portfolio state;
           provider_collateral_allowance := provider_collateral_allowance state;
           order_lifecycle := order_lifecycle state;
           product_state := product_state state;
           reservation_snapshot :=
             mkReservationSnapshot source observed_at_ns all_live_reservations_attributed;
           CapitalAdmissionState.loss_snapshot := CapitalAdmissionState.loss_snapshot state |})
  end.

Definition refresh_capital_admission_reservation_snapshot (c : Capital) (observed_at_ns : Z)
    : Capital :=
  refresh_capital_admission_reservation_snapshot_with_source c observed_at_ns
    (lit "bolt_reservation_ledger") (is_reconciled (cap_gate c)).

Definition refresh_capital_admission_state_from_components (c : Capital)
    (components : BoltV3SubmitCapitalAdmissionNtComponents D) : Capital :=
  let c := if cap_fill_evidence_integrity_failed c then invalidate_gate c else c in
  let c :=
    if is_reconciled (cap_gate c)
       && (0 <? open_order_count (comp_order_lifecycle components))
       && negb (all_open_orders_attributed (comp_order_lifecycle components))
    then invalidate_gate c else c in
  let state :=
    compose_capital_admission_state_from_components components
      (is_reconciled (cap_gate c) && is_none (cap_capture_failure_source c))
      (cap_latest_reservation_mutation_observed_at_ns c) in
  set_cap_state
    (set_pool_evidence c (portfolio_source (portfolio state))
       (portfolio_observed_at_ns (portfolio state)))
    (Some state).

Definition apply_rebuild_order_lifecycle (state : NtDerivedCapitalAdmissionState D)
    (rebuilt : OrderLifecycleCapitalAdmissionSnapshot) : NtDerivedCapitalAdmissionState D :=
  {| state_source := state_source state;
     state_observed_at_ns := Z.max (state_observed_at_ns state) (lifecycle_observed_at_ns rebuilt);
     portfolio := portfolio state;
     provider_collateral_allowance := provider_collateral_allowance state;
     order_lifecycle := rebuilt;
     product_state := product_state state;
     reservation_snapshot := reservation_snapshot state;
     CapitalAdmissionState.loss_snapshot := CapitalAdmissionState.loss_snapshot state |}.

Definition unresolved_in_phase (phase : BoltV3SubmitReservationPhase)
    (records : gmap text Record_) : Z :=
  Z.of_nat (length (filter (λ kr, rec_unresolved_in_projection kr.2 = true ∧ rec_phase kr.2 = phase)
                      (map_to_list records))).

Definition unresolved_reservation_counts (records : gmap text Record_) : Z * Z :=
  (unresolved_in_phase SinkInvoked records, unresolved_in_phase ObservedOpen records).

(** ** Fill evidence that cannot be trusted *)

(** The revision afterwards, or [None] when it is exhausted. *)
Definition advance_capital_admission_state_revision (revision : Z) : option Z :=
  u64_checked_add revision 1.

Definition fail_capital_admission_fill_evidence_integrity (c : Capital) (observed_at_ns : Z)
    : Capital :=
  refresh_capital_admission_reservation_snapshot
    (invalidate_gate (set_integrity_failed c true)) observed_at_ns.

Definition reject_capital_admission_fill_evidence_integrity (c : Capital) (revision : Z)
    (observed_at_ns : Z) : Capital * Z :=
  match advance_capital_admission_state_revision revision with
  | Some revision' => (fail_capital_admission_fill_evidence_integrity c observed_at_ns, revision')
  | None => (invalidate_gate c, revision)
  end.

(** ** The capital decision on a request *)

Definition is_valid_for_shape (proof : BoltV3RiskReducingExitProof D) (instrument : text)
    (side : OrderSide) (quantity : D) : bool :=
  bool_decide (proof_instrument_id proof = instrument)
  && bool_decide (proof_exit_order_side proof = side)
  && d_eqb (proof_exit_quantity proof) quantity
  && d_gtb (proof_position_quantity proof) d_zero
  && d_gtb (proof_exit_quantity proof) d_zero
  && d_leb (proof_exit_quantity proof) (proof_position_quantity proof)
  && match proof_position_side proof, side with
     | PositionLong, OrderSell | PositionShort, OrderBuy => true
     | _, _ => false
     end.

Definition compiled_order_side_matches_request (evidence : BoltV3CompiledOrderSide)
    (request : OrderSide) : bool :=
  match evidence, request with
  | CompiledBuy, OrderBuy | CompiledSell, OrderSell => true
  | _, _ => false
  end.

Definition checked_additive_liability (policy : CapitalAdmissionPolicy D) : option D :=
  match fee_slippage_policy policy with
  | Some fees => d_checked_add (max_fee_liability fees) (max_slippage_liability fees)
  | None => Some d_zero
  end.

Definition checked_lifecycle_liability (quantity factor additive : D) : option D :=
  base ← d_checked_mul quantity factor;
  d_checked_add base additive.

Definition map_capital_admission_rejection (reasons : list CapitalAdmissionReason)
    : Result BoltV3CapitalAdmissionRejectReason BoltV3SubmitAdmissionInvariant :=
  match reasons with
  | [] => Err MissingCapitalAdmissionRejectionReason
  | [ReasonMissingNtState] => Ok RejectMissingNtState
  | [ReasonStaleNtState _] => Ok RejectStaleNtState
  | [ReasonUnattributedNtState _] => Ok RejectUnattributedNtState
  | [ReasonReservation ReconciliationRequired] => Ok RejectReconciliationRequired
  | [ReasonReservation OverBudget] => Ok RejectOverBudget
  | [ReasonReservation reason] => Ok (RejectReservation reason)
  | [ReasonLiability error] => Ok (RejectLiability error)
  | [ReasonLoss reason] => Ok (RejectLoss reason)
  | [ReasonInvariant _] | _ :: _ :: _ => Err InvalidCapitalAdmissionDecisionContext
  end.

(** [==] of optional amounts. *)
Definition opt_d_eqb (a b : option D) : bool :=
  match a, b with
  | Some a, Some b => d_eqb a b
  | None, None => true
  | _, _ => false
  end.

Definition validate_capital_admission_decision (decision : CapitalAdmissionDecision D)
    : Result (ValidatedCapitalAdmissionDecision D) BoltV3SubmitAdmissionInvariant :=
  let evidence := admission_evidence_of decision in
  if admission_accepted decision then
    match admission_accepted_quantity decision, admission_calculated_liability decision,
          admission_reserved_liability decision with
    | Some quantity, Some calculated, Some reserved =>
        if negb (is_empty (admission_reasons decision))
           || negb (d_eqb (evidence_original_quantity evidence) (admission_original_quantity decision))
           || negb (opt_d_eqb (evidence_accepted_quantity evidence) (Some quantity))
           || negb (opt_d_eqb (evidence_calculated_liability evidence) (Some calculated))
           || negb (opt_d_eqb (evidence_reserved_liability evidence) (Some reserved))
        then Err InvalidCapitalAdmissionDecisionContext
        else Ok (CapitalDecisionAccepted quantity reserved)
    | _, _, _ => Err InvalidCapitalAdmissionDecisionContext
    end
  else if is_some (admission_accepted_quantity decision)
       || negb (d_eqb (evidence_original_quantity evidence) (admission_original_quantity decision))
  then Err InvalidCapitalAdmissionDecisionContext
  else if match admission_calculated_liability decision, admission_reserved_liability decision,
                evidence_accepted_quantity evidence, evidence_calculated_liability evidence,
                evidence_reserved_liability evidence with
          | None, None, None, None, None => true
          | Some calculated, Some reserved, Some _, Some calculated', Some reserved' =>
              d_eqb calculated calculated' && d_eqb reserved reserved'
          | _, _, _, _, _ => false
          end
  then (reason ←? map_capital_admission_rejection (admission_reasons decision);
        Ok (CapitalDecisionRejected reason))
  else Err InvalidCapitalAdmissionDecisionContext.

Definition accepted_without_reservation : BoltV3CapitalAdmissionSubmitDecision :=
  CapitalAccepted (mkAcceptance None None).

(** The outcome's instrument and position in the product snapshot. *)
Definition outcome_leg (snapshot : PredictionMarketAdmissionSnapshot D)
    (outcome : PredictionMarketOutcomeSide) : text * D :=
  match outcome with
  | OutcomeYes => (product_yes_instrument_id snapshot, yes_position snapshot)
  | OutcomeNo => (product_no_instrument_id snapshot, no_position snapshot)
  end.

(** The early returns before the request's intent matters: what they leave is the
    order's evidence, the node's state with its product, and the outcome's position. *)
Definition capital_preconditions (c : Capital) (request : Request)
    : Result (BoltV3CompiledOrderAdmissionEvidence D * NtDerivedCapitalAdmissionState D *
              PredictionMarketAdmissionSnapshot D * D)
        BoltV3CapitalAdmissionRejectReason :=
  evidence ←? ok_or (req_admission_evidence request) RejectMissingAdmissionEvidence;
  ensure (bool_decide (ev_venue_id evidence = cap_venue_id c)) RejectVenueMismatch ;;?
  ensure (bool_decide (product_to_capital_admission (ev_product_kind evidence) =
                       cap_product_kind c)) RejectProductKindMismatch ;;?
  ensure (bool_decide (product_to_capital_admission (ev_product_kind evidence) =
                       ProductPredictionMarketBinary)) RejectUnsupportedProductKind ;;?
  ensure (compiled_order_side_matches_request (ev_side evidence) (req_order_side request)
          && d_eqb (ev_quantity evidence) (req_order_quantity request)) RejectOrderShapeMismatch ;;?
  ensure (negb (is_some (cap_index c !! req_client_order_id request)))
    RejectDuplicateClientOrderId ;;?
  ensure (is_none (cap_capture_failure_source c)) RejectReconciliationRequired ;;?
  state ←? ok_or (cap_state c) RejectMissingNtState;
  ensure (bool_decide (portfolio_venue_id (portfolio state) = cap_venue_id c))
    RejectVenueMismatch ;;?
  ensure (bool_decide (portfolio_account_id (portfolio state) = cap_account_id c))
    RejectAccountMismatch ;;?
  ensure (bool_decide (portfolio_collateral_currency (portfolio state) = cap_collateral_currency c))
    RejectCollateralCurrencyMismatch ;;?
  ensure (is_reconciled (cap_gate c)) RejectReconciliationRequired ;;?
  match product_state state with
  | PredictionMarketBinary snapshot =>
      outcome ←? ok_or (ev_prediction_market_outcome evidence) RejectMissingPredictionMarketOutcome;
      let '(instrument, position) := outcome_leg snapshot outcome in
      ensure (bool_decide (req_instrument_id request = instrument))
        RejectOutcomeInstrumentMismatch ;;?
      Ok (evidence, state, snapshot, position)
  end.

(** [format!("{}#{}", client_order_id, next_sequence)]. *)
Definition submit_reservation_id_for (client_order_id : text) (sequence : Z) : text :=
  client_order_id ++ lit "#" ++ u64_to_string sequence.

Definition capital_admission_request (c : Capital) (request : Request)
    (evidence : BoltV3CompiledOrderAdmissionEvidence D) (submit_reservation_id : text) (now_ns : Z)
    : CapitalAdmissionRequest D :=
  {| intent_id := submit_reservation_id;
     strategy_id := req_strategy_id request;
     instrument_id := req_instrument_id request;
     admission_pool_id := pool_id (cap_pool c);
     product_kind := product_to_capital_admission (ev_product_kind evidence);
     side := side_to_capital_admission (ev_side evidence);
     quantity := ev_quantity evidence;
     limit_price := ev_effective_price evidence;
     order_kind := kind_to_capital_admission (ev_order_kind evidence);
     liquidity := liquidity_to_capital_admission (ev_liquidity evidence);
     quote_set_id := ev_quote_set_id evidence;
     admission_now_ns := now_ns |}.

Definition reservation_attribution_for (c : Capital) (request : Request)
    (evidence : BoltV3CompiledOrderAdmissionEvidence D)
    (snapshot : PredictionMarketAdmissionSnapshot D) (submit_reservation_id : text)
    (quantity reserved additive : D) (now_ns : Z) : ReservationAttribution :=
  let factor :=
    match side_to_capital_admission (ev_side evidence) with
    | Buy => ev_effective_price evidence
    | Sell => d_zero
    end in
  {| attr_client_order_id := req_client_order_id request;
     attr_submit_reservation_id := submit_reservation_id;
     attr_venue_id := cap_venue_id c;
     attr_account_id := cap_account_id c;
     attr_product_kind := reservation_product_kind (ev_product_kind evidence);
     attr_collateral_currency := cap_collateral_currency c;
     attr_capital_pool_id := pool_id (cap_pool c);
     attr_collateral_group_id := collateral_coupled_group_id snapshot;
     attr_instrument_id := req_instrument_id request;
     attr_side := evidence_order_side (ev_side evidence);
     attr_submitted_quantity := d_to_string quantity;
     attr_liability_factor := d_to_string factor;
     attr_additive_liability := d_to_string additive;
     attr_reserved_liability := d_to_string reserved;
     attr_observed_at_ns := now_ns |}.

(** An entry: reserve in the gate, check the decision, index the reservation.  [i] has
    the capital state [c]. *)
Definition reserve_entry (i : Inner) (c : Capital) (request : Request)
    (evidence : BoltV3CompiledOrderAdmissionEvidence D) (state : NtDerivedCapitalAdmissionState D)
    (snapshot : PredictionMarketAdmissionSnapshot D) (reservation_revision now_ns : Z)
    : option (BoltV3CapitalAdmissionSubmitDecision * Inner) :=
  let c := set_next_sequence c (u64_wrapping_add (cap_next_sequence c) 1) in
  let id := submit_reservation_id_for (req_client_order_id request) (cap_next_sequence c) in
  let rolled_back c := set_gate c (rollback_uncommitted_reservation (cap_gate c)
                                     (pool_id (cap_pool c)) id).2 in
  '(decision, gate) ← evaluate_and_reserve (cap_gate c)
    (capital_admission_request c request evidence id now_ns) (Some state) (cap_policy c) None
    (cap_pool c);
  let c := set_gate c gate in
  Some match validate_capital_admission_decision decision with
  | Err invariant => (CapitalInvariant invariant, set_capital i (Some (rolled_back c)))
  | Ok (CapitalDecisionRejected reason) => (CapitalRejected reason, set_capital i (Some c))
  | Ok (CapitalDecisionAccepted quantity reserved) =>
      if negb (d_eqb quantity (ev_quantity evidence))
      then (CapitalRejected RejectAcceptedQuantityMismatch, set_capital i (Some (rolled_back c)))
      else
        match checked_additive_liability (cap_policy c) with
        | None => (CapitalRejected (RejectLiability ArithmeticOverflow),
                   set_capital i (Some (rolled_back c)))
        | Some additive =>
            let attribution :=
              reservation_attribution_for c request evidence snapshot id quantity reserved additive
                now_ns in
            let record :=
              mkRecord attribution Reserved reservation_revision false
                (Some (mkFillMetadata (req_instrument_id request) (ev_side evidence))) in
            (CapitalAccepted (mkAcceptance
               (Some (mkRollback (req_client_order_id request) id (pool_id (cap_pool c)) now_ns))
               (Some attribution)),
             set_revision
               (set_capital i
                  (Some (set_index c (<[req_client_order_id request := record]> (cap_index c)))))
               reservation_revision)
        end
  end.

Definition evaluate_capital_admission_submit (i : Inner) (request : Request) (now_ns : Z)
    : option (BoltV3CapitalAdmissionSubmitDecision * Inner) :=
  match in_capital i with
  | None => Some (accepted_without_reservation, i)
  | Some c =>
      match capital_preconditions c request with
      | Err reason => Some (CapitalRejected reason, i)
      | Ok (evidence, state, snapshot, position) =>
          match req_intent_kind request with
          | RiskReducingExit =>
              Some (if bool_decide (ev_side evidence = CompiledSell)
                       && d_leb (ev_quantity evidence) position
                    then accepted_without_reservation
                    else CapitalRejected (RejectLiability InsufficientInventory), i)
          | Entry =>
              match u64_checked_add (in_revision i) 1 with
              | None =>
                  Some (CapitalRejected RejectReconciliationRequired,
                        set_capital i (Some (invalidate_gate c)))
              | Some revision => reserve_entry i c request evidence state snapshot revision now_ns
              end
          end
      end
  end.

(** ** Rollback of reservations that did not reach the sink *)

Definition latch_submit_admission_rollback_ownership_failure (i : Inner) : Inner :=
  let i := set_latch i (Some RollbackOwnershipLost) in
  let i :=
    match advance_capital_admission_state_revision (in_revision i) with
    | Some revision => set_revision i revision
    | None => i
    end in
  match in_capital i with
  | Some c => set_capital i (Some (invalidate_gate c))
  | None => i
  end.

(** The loop's accumulators. *)
Record RollbackProgress : Type := mkProgress {
  progress_capital : Capital;
  progress_revision : Z;
  progress_client_order_ids : gset text;
  progress_reservation_ids : gset (text * text);
  progress_observed_at_ns : option Z;
}.

Definition rollback_one (p : RollbackProgress) (rollback : Rollback)
    : Result RollbackProgress ReservationRejectionReason :=
  let c := progress_capital p in
  let key := (rollback_pool_id rollback, rollback_submit_reservation_id rollback) in
  ensure (negb (bool_decide (rollback_client_order_id rollback ∈ progress_client_order_ids p))
          && negb (bool_decide (key ∈ progress_reservation_ids p))) DuplicateReservation ;;?
  revision ←? ok_or (u64_checked_add (progress_revision p) 1) ReconciliationRequired;
  record ←? ok_or (cap_index c !! rollback_client_order_id rollback) UnknownReservation;
  let a := rec_attribution record in
  ensure (bool_decide (rec_phase record = Reserved)
          && bool_decide (attr_client_order_id a = rollback_client_order_id rollback)
          && bool_decide (attr_submit_reservation_id a = rollback_submit_reservation_id rollback)
          && bool_decide (attr_capital_pool_id a = rollback_pool_id rollback)) InvalidRequest ;;?
  gate_retained_reservation (cap_gate c) (rollback_pool_id rollback) (attr_collateral_group_id a)
    (rollback_submit_reservation_id rollback) ;;?
  let '(removed, gate) :=
    rollback_uncommitted_reservation (cap_gate c) (rollback_pool_id rollback)
      (rollback_submit_reservation_id rollback) in
  ok_or removed UnknownReservation ;;?
  Ok {| progress_capital :=
          set_index (set_gate c gate) (delete (rollback_client_order_id rollback) (cap_index c));
        progress_revision := revision;
        progress_client_order_ids :=
          {[rollback_client_order_id rollback]} ∪ progress_client_order_ids p;
        progress_reservation_ids := {[key]} ∪ progress_reservation_ids p;
        progress_observed_at_ns :=
          Some (Z.max (default (rollback_observed_at_ns rollback) (progress_observed_at_ns p))
                  (rollback_observed_at_ns rollback)) |}.

Fixpoint rollback_all (p : RollbackProgress) (rollbacks : list Rollback)
    : Result RollbackProgress ReservationRejectionReason :=
  match rollbacks with
  | [] => Ok p
  | rollback :: rollbacks' => p' ←? rollback_one p rollback; rollback_all p' rollbacks'
  end.

(** [PreparedCapitalAdmissionReservationRollback]: the candidate capital state, if any,
    and the final revision. *)
Definition prepare_capital_admission_reservation_rollback (i : Inner) (rollbacks : list Rollback)
    : Result (option Capital * Z) ReservationRejectionReason :=
  match rollbacks with
  | [] => Ok (None, in_revision i)
  | _ :: _ =>
      c ←? ok_or (in_capital i) UnknownReservation;
      p ←? rollback_all (mkProgress c (in_revision i) ∅ ∅ None) (reverse rollbacks);
      let c := set_unresolved (progress_capital p)
                 (unresolved_reservation_counts (cap_index (progress_capital p))) in
      let c :=
        match progress_observed_at_ns p with
        | Some observed_at_ns => refresh_capital_admission_reservation_snapshot c observed_at_ns
        | None => c
        end in
      Ok (Some c, progress_revision p)
  end.

Definition commit_capital_admission_reservation_rollback (i : Inner)
    (prepared : option Capital * Z) : Inner :=
  let i := match prepared.1 with Some c => set_capital i (Some c) | None => i end in
  set_revision i prepared.2.

Definition rollback_capital_admission_reservations (i : Inner) (rollbacks : list Rollback)
    : Inner :=
  match prepare_capital_admission_reservation_rollback i rollbacks with
  | Ok prepared => commit_capital_admission_reservation_rollback i prepared
  | Err _ => latch_submit_admission_rollback_ownership_failure i
  end.

(** [if let Some(rollback) = evaluation.rollback.as_ref()] and the slice of one. *)
Definition rollback_capital_admission_reservation (i : Inner) (rollback : option Rollback) : Inner :=
  match rollback with
  | Some rollback => rollback_capital_admission_reservations i [rollback]
  | None => i
  end.

(** ** Counters *)

Definition client_count (i : Inner) (client : text) : Z :=
  default 0 (in_admitted_order_count_by_execution_client i !! client).

Definition checked_admission_counter_values (total client claims : Z)
    : Result BoltV3SubmitAdmissionCounterValues BoltV3SubmitAdmissionError :=
  total ←? ok_or (u32_checked_add total claims) ErrorCountCapExhausted;
  client ←? ok_or (u32_checked_add client claims) ErrorCountCapExhausted;
  Ok (mkCounterValues total client).

(** Every id once, and each held by a permit. *)
Fixpoint transient_ids_held (held : gmap text BoltV3EvidenceFreeNonReservationPhase)
    (seen : gset text) (ids : list text) : bool :=
  match ids with
  | [] => true
  | id :: ids' =>
      negb (bool_decide (id ∈ seen)) && bool_decide (held !! id = Some PermitHeld)
      && transient_ids_held held ({[id]} ∪ seen) ids'
  end.

Definition checked_admission_counter_rollback (i : Inner)
    (rollback : BoltV3SubmitAdmissionCounterRollback) : option BoltV3SubmitAdmissionCounterValues :=
  total ← u32_checked_sub (in_admitted_order_count i) (counter_order_count rollback);
  client ←
    (count ← in_admitted_order_count_by_execution_client i !! counter_execution_client_id rollback;
     u32_checked_sub count (counter_order_count rollback));
  if transient_ids_held (in_evidence_free i) ∅ (uncommitted_evidence_free_client_order_ids rollback)
  then Some (mkCounterValues total client) else None.

Definition apply_admission_counter_rollback (i : Inner)
    (rollback : BoltV3SubmitAdmissionCounterRollback) (values : BoltV3SubmitAdmissionCounterValues)
    : Inner :=
  let client := counter_execution_client_id rollback in
  let by_client := in_admitted_order_count_by_execution_client i in
  let i :=
    set_counts i (values_admitted_order_count values)
      (if values_execution_client_order_count values =? 0
       then delete client by_client
       else <[client := values_execution_client_order_count values]> by_client) in
  set_evidence_free i
    (foldl (λ held id, delete id held) (in_evidence_free i)
       (uncommitted_evidence_free_client_order_ids rollback)).

Definition rollback_unsubmitted_permit (i : Inner) (rollbacks : list Rollback)
    (counter_rollback : option BoltV3SubmitAdmissionCounterRollback) : Inner :=
  let capital_rolled_back (apply : Inner → Inner) :=
    match prepare_capital_admission_reservation_rollback i rollbacks with
    | Err _ => latch_submit_admission_rollback_ownership_failure i
    | Ok prepared => apply (commit_capital_admission_reservation_rollback i prepared)
    end in
  match counter_rollback with
  | None => capital_rolled_back (λ i, i)
  | Some rollback =>
      match checked_admission_counter_rollback i rollback with
      | None => latch_submit_admission_rollback_ownership_failure i
      | Some values =>
          capital_rolled_back (λ i, apply_admission_counter_rollback i rollback values)
      end
  end.

(** ** Crossing the sink *)

(** [PreparedSubmitSinkInvocationTransition]. *)
Record PreparedSubmitSinkInvocationTransition : Type := mkPrepared {
  candidate_capital_admission : option Capital;
  candidate_evidence_free : option (gmap text BoltV3EvidenceFreeNonReservationPhase);
  final_revision : Z;
}.

Fixpoint sink_evidence_free (candidate : gmap text BoltV3EvidenceFreeNonReservationPhase)
    (seen : gset text) (ids : list text)
    : Result (gmap text BoltV3EvidenceFreeNonReservationPhase) ReservationRejectionReason :=
  match ids with
  | [] => Ok candidate
  | id :: ids' =>
      ensure (negb (bool_decide (id ∈ seen)) && bool_decide (candidate !! id = Some PermitHeld))
        UnknownReservation ;;?
      sink_evidence_free (<[id := EvidenceFreeSinkInvoked]> candidate) ({[id]} ∪ seen) ids'
  end.

Definition sink_one (c : Capital) (revision : Z) (rollback : Rollback)
    : Result (Capital * Z) ReservationRejectionReason :=
  revision ←? ok_or (u64_checked_add revision 1) ReconciliationRequired;
  record ←? ok_or (cap_index c !! rollback_client_order_id rollback) UnknownReservation;
  let a := rec_attribution record in
  ensure (bool_decide (rec_phase record = Reserved)
          && bool_decide (attr_submit_reservation_id a = rollback_submit_reservation_id rollback)
          && bool_decide (attr_capital_pool_id a = rollback_pool_id rollback)) UnknownReservation ;;?
  gate_retained_reservation (cap_gate c) (attr_capital_pool_id a) (attr_collateral_group_id a)
    (attr_submit_reservation_id a) ;;?
  Ok (set_index c
        (<[rollback_client_order_id rollback :=
             mkRecord a SinkInvoked revision (rec_unresolved_in_projection record)
               (rec_fill_metadata record)]> (cap_index c)), revision).

Fixpoint sink_all (c : Capital) (revision : Z) (rollbacks : list Rollback)
    : Result (Capital * Z) ReservationRejectionReason :=
  match rollbacks with
  | [] => Ok (c, revision)
  | rollback :: rollbacks' =>
      cr ←? sink_one c revision rollback;
      sink_all cr.1 cr.2 rollbacks'
  end.

Definition prepare_submit_sink_invocation (i : Inner) (rollbacks : list Rollback)
    (counter_rollback : option BoltV3SubmitAdmissionCounterRollback)
    : Result PreparedSubmitSinkInvocationTransition ReservationRejectionReason :=
  let ids := match counter_rollback with
             | Some rollback => uncommitted_evidence_free_client_order_ids rollback
             | None => []
             end in
  evidence_free ←?
    match ids with
    | [] => Ok None
    | _ :: _ => candidate ←? sink_evidence_free (in_evidence_free i) ∅ ids; Ok (Some candidate)
    end;
  match rollbacks with
  | [] => Ok (mkPrepared None evidence_free (in_revision i))
  | _ :: _ =>
      c ←? ok_or (in_capital i) UnknownReservation;
      cr ←? sink_all c (in_revision i) rollbacks;
      Ok (mkPrepared (Some cr.1) evidence_free cr.2)
  end.

Definition commit_submit_sink_invocation (i : Inner)
    (prepared : PreparedSubmitSinkInvocationTransition) : Inner :=
  let i := match candidate_capital_admission prepared with
           | Some c => set_capital i (Some c) | None => i end in
  let i := match candidate_evidence_free prepared with
           | Some m => set_evidence_free i m | None => i end in
  set_revision i (final_revision prepared).

End Capital.
