(* ===== verification/SubmitCapitalFacts.v ===== *)
(** * Submit admission: the ledger and the index

    The invariant of the capital side of submit admission.  [capital_ok]: the gate's
    ledger and the reservation index describe the same reservations, one to one, each
    under its own order id and in the configured pool.  [owned_by]: a rollback names a
    reservation that is still in phase [Reserved].  Every operation of [SubmitCapital]
    keeps them; rolling back or crossing the sink succeeds for what is owned, unless the
    revision counter is exhausted; the internal inconsistencies the code guards against
    do not occur. *)

From Stdlib Require Import ZArith Lia.
From stdpp Require Import sorting strings gmap numbers list.
From S2P Require Import BTree NtTypes.
From S2P Require Import Prelude RustText DecimalAmount LossGovernor KillSwitch.
From S2P Require Import CapitalReservation CapitalReservationFacts CapitalAdmissionState.
From S2P Require Import CapitalAdmission CapitalAdmissionFacts ReservationRecovery.
From S2P Require Import SubmitAdmissionState SubmitCapital.

Open Scope Z_scope.

(** ** Lists and maps *)

Lemma map_to_list_insert_new {A} (m : gmap text A) k a :
  m !! k = None → map_to_list (<[k := a]> m) ≡ₚ (k, a) :: map_to_list m.
Proof. apply map_to_list_insert. Qed.

Lemma map_to_list_extract {A} (m : gmap text A) k a :
  m !! k = Some a → map_to_list m ≡ₚ (k, a) :: map_to_list (delete k m).
Proof. intros Hk. symmetry. by apply map_to_list_delete. Qed.

Section CapitalFacts.
Context {D : Type} `{DecimalLaws D} `{DecimalText D}.
Implicit Types (c : BoltV3SubmitCapitalAdmissionState D) (i : BoltV3SubmitAdmissionInner D).
Implicit Types (rb : BoltV3CapitalAdmissionReservationRollback).
Implicit Types (rbs : list BoltV3CapitalAdmissionReservationRollback).

(** ** The invariant *)

(** Pool, collateral group and id of a reservation, in the ledger and in the index. *)
Definition live_tag (r : @LiveReservation D) : text * text * text :=
  (live_pool_id r, live_collateral_group_id r, live_request_id r).

Definition attr_tag (a : ReservationAttribution) : text * text * text :=
  (attr_capital_pool_id a, attr_collateral_group_id a, attr_submit_reservation_id a).

Definition record_tag (kr : text * BoltV3SubmitReservationRecord) : text * text * text :=
  attr_tag (rec_attribution kr.2).

Definition tag_key (t : text * text * text) : text * text := (t.1.1, t.2).

Definition cap_live c : list (@LiveReservation D) :=
  live_reservations (reservation_ledger (cap_gate c)).

(** A record stands under its own order id, in the pool, with the shape it was
    attributed. *)
Definition record_ok (pool id : text) (r : BoltV3SubmitReservationRecord) : Prop :=
  attr_client_order_id (rec_attribution r) = id ∧
  attr_capital_pool_id (rec_attribution r) = pool ∧
  ∀ m, rec_fill_metadata r = Some m →
    meta_instrument_id m = attr_instrument_id (rec_attribution r) ∧
    evidence_order_side (meta_side m) = attr_side (rec_attribution r).

Record capital_ok (c : BoltV3SubmitCapitalAdmissionState D) : Prop := {
  ok_keys : NoDup (live_key <$> cap_live c);
  ok_index : (live_tag <$> cap_live c) ≡ₚ (record_tag <$> map_to_list (cap_index c));
  ok_records : map_Forall (record_ok (pool_id (cap_pool c))) (cap_index c);
}.

Definition owned_by c rb : Prop :=
  ∃ r, cap_index c !! rollback_client_order_id rb = Some r ∧ rec_phase r = Reserved ∧
    attr_submit_reservation_id (rec_attribution r) = rollback_submit_reservation_id rb ∧
    attr_capital_pool_id (rec_attribution r) = rollback_pool_id rb.

(** What the invariant reads. *)
Definition same_capital c c' : Prop :=
  cap_live c' = cap_live c ∧ cap_index c' = cap_index c ∧ pool_id (cap_pool c') = pool_id (cap_pool c).

#[global] Instance same_capital_refl : Reflexive same_capital.
Proof. by intros c. Qed.
#[global] Instance same_capital_trans : Transitive same_capital.
Proof. intros c1 c2 c3 (? & ? & ?) (? & ? & ?). split_and!; congruence. Qed.

Lemma same_ok c c' : same_capital c c' → capital_ok c → capital_ok c'.
Proof. intros (Hl & Hi & Hp) [Hk Hx Hr]. split; [by rewrite Hl|by rewrite Hl, Hi|by rewrite Hi, Hp]. Qed.

Lemma same_owned c c' rb : same_capital c c' → owned_by c rb → owned_by c' rb.
Proof. intros (_ & Hi & _). unfold owned_by. by rewrite Hi. Qed.

Lemma same_invalidate c : same_capital c (invalidate_gate c).
Proof. done. Qed.

Lemma same_refresh_source c at_ns source all :
  same_capital c (refresh_capital_admission_reservation_snapshot_with_source c at_ns source all).
Proof.
  unfold refresh_capital_admission_reservation_snapshot_with_source. simpl.
  by destruct (cap_state c).
Qed.

Lemma same_refresh c at_ns : same_capital c (refresh_capital_admission_reservation_snapshot c at_ns).
Proof. apply same_refresh_source. Qed.

Lemma same_components c components :
  same_capital c (refresh_capital_admission_state_from_components c components).
Proof.
  unfold refresh_capital_admission_state_from_components.
  destruct (cap_fill_evidence_integrity_failed c); destruct (_ && _ && _); done.
Qed.

Lemma same_fail_integrity c at_ns :
  same_capital c (fail_capital_admission_fill_evidence_integrity c at_ns).
Proof.
  unfold fail_capital_admission_fill_evidence_integrity. etrans; [|apply same_refresh]. done.
Qed.

Lemma same_reject_integrity c rev at_ns :
  same_capital c (reject_capital_admission_fill_evidence_integrity c rev at_ns).1.
Proof.
  unfold reject_capital_admission_fill_evidence_integrity.
  destruct (advance_capital_admission_state_revision rev); [apply same_fail_integrity|done].
Qed.

(** ** Reading the invariant *)

Lemma live_key_tag r : live_key r = tag_key (live_tag r).
Proof. done. Qed.

Lemma index_keys c : capital_ok c → NoDup (tag_key ∘ record_tag <$> map_to_list (cap_index c)).
Proof.
  intros [Hk Hi _]. rewrite list_fmap_compose, <-Hi, <-list_fmap_compose. exact Hk.
Qed.

(** Two orders never share a reservation. *)
Lemma index_inj c id id' r r' :
  capital_ok c → cap_index c !! id = Some r → cap_index c !! id' = Some r' →
  tag_key (attr_tag (rec_attribution r)) = tag_key (attr_tag (rec_attribution r')) → id = id'.
Proof.
  intros Hok Hr Hr' Htag. destruct (decide (id = id')) as [|Hne]; [done|]. exfalso.
  pose proof (index_keys c Hok) as Hnd.
  rewrite (map_to_list_extract _ _ _ Hr) in Hnd. simpl in Hnd.
  apply NoDup_cons in Hnd as [Hno _]. apply Hno.
  apply list_elem_of_fmap. exists (id', r'). split; [exact Htag|].
  apply elem_of_map_to_list. by rewrite lookup_delete_ne.
Qed.

(** The ledger holds the reservation of every record. *)
Lemma index_live c id r :
  capital_ok c → cap_index c !! id = Some r →
  ∃ j live, position (reservation_ledger (cap_gate c)) (attr_capital_pool_id (rec_attribution r))
              (attr_submit_reservation_id (rec_attribution r)) = Some (j, live) ∧
    live_tag live = attr_tag (rec_attribution r).
Proof.
  intros Hok Hr. pose proof (ok_index c Hok) as Hi.
  rewrite (map_to_list_extract _ _ _ Hr) in Hi. simpl in Hi.
  assert (Hin : attr_tag (rec_attribution r) ∈ live_tag <$> cap_live c)
    by (rewrite Hi; apply list_elem_of_here).
  apply list_elem_of_fmap in Hin as (live & Htag & Hin).
  unfold position. destruct (list_find _ (live_reservations _)) as [[j live']|] eqn:Ef.
  - exists j, live'. split; [done|]. apply list_find_Some in Ef as (Hj & [Hp Hid] & _).
    assert (live' = live) as ->; [|done].
    apply list_elem_of_lookup_2 in Hj.
    assert (Hkeys : live_key live' = live_key live).
    { unfold live_key. rewrite Hp, Hid. unfold live_tag, attr_tag in Htag. by injection Htag as -> _ ->. }
    pose proof (ok_keys c Hok) as Hnd.
    apply list_elem_of_lookup_1 in Hj as [a Ha]. apply list_elem_of_lookup_1 in Hin as [b Hb].
    change (cap_live c !! a = Some live') in Ha.
    assert (a = b) as ->; [|congruence].
    eapply (NoDup_lookup (live_key <$> cap_live c)); [exact Hnd| |].
    + by rewrite list_lookup_fmap, Ha.
    + rewrite list_lookup_fmap, Hb. by rewrite Hkeys.
  - apply list_find_None in Ef. rewrite Forall_forall in Ef. exfalso. apply (Ef live Hin).
    unfold live_tag, attr_tag in Htag. by injection Htag as -> _ ->.
Qed.

(** ** Changing both at once *)

(** Forget record [id] and its reservation at position [j] of the ledger. *)
Definition drop_record c (id : text) (j : nat) : BoltV3SubmitCapitalAdmissionState D :=
  set_index (set_gate c (mkGate (set_live (reservation_ledger (cap_gate c)) (delete j (cap_live c)))))
    (delete id (cap_index c)).

Lemma drop_record_ok c id r j live :
  capital_ok c → cap_index c !! id = Some r →
  position (reservation_ledger (cap_gate c)) (attr_capital_pool_id (rec_attribution r))
    (attr_submit_reservation_id (rec_attribution r)) = Some (j, live) →
  live_tag live = attr_tag (rec_attribution r) → capital_ok (drop_record c id j).
Proof.
  intros [Hk Hi Hr] Hid [Hj _]%position_Some Htag.
  change (cap_live c !! j = Some live) in Hj.
  pose proof (delete_Permutation _ _ _ Hj) as Hperm. split; simpl.
  - unfold cap_live. simpl. rewrite Hperm in Hk. simpl in Hk. by apply NoDup_cons in Hk as [_ ?].
  - unfold cap_live. simpl. rewrite Hperm, (map_to_list_extract _ _ _ Hid) in Hi. simpl in Hi.
    rewrite Htag in Hi. by apply (inj (cons _)) in Hi.
  - by apply map_Forall_delete.
Qed.

(** Add a record and its reservation. *)
Lemma add_record_ok c id r live :
  capital_ok c → cap_index c !! id = None → record_ok (pool_id (cap_pool c)) id r →
  ¬ (live_key live ∈ live_key <$> cap_live c) → live_tag live = attr_tag (rec_attribution r) →
  capital_ok (set_index (set_gate c (mkGate (set_live (reservation_ledger (cap_gate c))
                                               (cap_live c ++ [live]))))
                (<[id := r]> (cap_index c))).
Proof.
  intros [Hk Hi Hr] Hid Hrec Hno Htag. split; simpl.
  - unfold cap_live at 1. simpl. rewrite fmap_app. apply NoDup_app. split_and!; [done| |apply NoDup_singleton].
    intros k Hin ->%list_elem_of_singleton. done.
  - unfold cap_live at 1. simpl. rewrite fmap_app, map_to_list_insert_new by done. simpl.
    rewrite Hi, Htag. by rewrite Permutation_app_comm.
  - by apply map_Forall_insert_2.
Qed.

(** A record may change phase and revision. *)
Lemma set_phase_ok c id r phase rev unresolved :
  capital_ok c → cap_index c !! id = Some r →
  capital_ok (set_index c (<[id := mkRecord (rec_attribution r) phase rev unresolved
                                     (rec_fill_metadata r)]> (cap_index c))).
Proof.
  intros [Hk Hi Hr] Hid. split; simpl.
  - done.
  - rewrite <-insert_delete_eq, map_to_list_insert_new by apply lookup_delete_eq.
    rewrite Hi, (map_to_list_extract _ _ _ Hid). done.
  - apply map_Forall_insert_2; [|done]. exact (Hr id r Hid).
Qed.

(** ** Rollback *)

(** The loop has not seen what is still in the index. *)
Definition fresh_progress (p : @RollbackProgress D) : Prop :=
  (∀ id, id ∈ progress_client_order_ids p → cap_index (progress_capital p) !! id = None) ∧
  (∀ key id r, key ∈ progress_reservation_ids p →
     cap_index (progress_capital p) !! id = Some r → tag_key (attr_tag (rec_attribution r)) ≠ key).

Lemma retained_exact c id r :
  capital_ok c → cap_index c !! id = Some r →
  ∃ live, gate_retained_reservation (cap_gate c) (attr_capital_pool_id (rec_attribution r))
    (attr_collateral_group_id (rec_attribution r)) (attr_submit_reservation_id (rec_attribution r)) =
    Ok live ∧ live_tag live = attr_tag (rec_attribution r).
Proof.
  intros Hok Hid. destruct (index_live c id r Hok Hid) as (j & live & Hpos & Htag).
  exists live. unfold gate_retained_reservation, retained_reservation. rewrite Hpos.
  split; [|done]. unfold live_tag, attr_tag in Htag. injection Htag as Hp Hg Hi.
  by rewrite Hg, bool_decide_true.
Qed.

Lemma rollback_one_cases p rb :
  capital_ok (progress_capital p) → owned_by (progress_capital p) rb → fresh_progress p →
  match rollback_one p rb with
  | Ok p' =>
      ∃ j, progress_capital p' = drop_record (progress_capital p) (rollback_client_order_id rb) j ∧
      capital_ok (progress_capital p') ∧ fresh_progress p' ∧
      progress_revision p' = progress_revision p + 1 ∧ is_Some (progress_observed_at_ns p') ∧
      (∃ live, cap_live (progress_capital p) !! j = Some live ∧
         live_key live = (rollback_pool_id rb, rollback_submit_reservation_id rb))
  | Err _ => u64_max < progress_revision p + 1
  end.
Proof.
  intros Hok (r & Hid & Hphase & Hsid & Hpool) [Hf1 Hf2]. unfold rollback_one. simpl.
  rewrite (bool_decide_false (rollback_client_order_id rb ∈ _)).
  2:{ intros Hin%Hf1. congruence. }
  rewrite (bool_decide_false (_ ∈ progress_reservation_ids p)).
  2:{ intros Hin. apply (Hf2 _ _ _ Hin Hid). unfold tag_key, attr_tag. simpl. by rewrite Hsid, Hpool. }
  simpl. destruct (u64_checked_add (progress_revision p) 1) as [rev|] eqn:Er; simpl.
  2:{ by apply u64_checked_add_None in Er. }
  apply u64_checked_add_Some in Er as [-> _]. rewrite Hid. simpl.
  destruct (ok_records _ Hok _ _ Hid) as (Hcid & _ & _).
  rewrite !bool_decide_true by done. simpl.
  destruct (retained_exact _ _ _ Hok Hid) as (live & Hret & Htag).
  destruct (index_live _ _ _ Hok Hid) as (j & live' & Hpos & Htag').
  rewrite <-Hsid, <-Hpool, Hret. simpl.
  unfold rollback_uncommitted_reservation, rollback_uncommitted. rewrite Hpos. simpl.
  exists j. split_and!; [done|by eapply drop_record_ok| |done|by eexists|].
  - split; simpl.
    + intros id [->%elem_of_singleton|Hin]%elem_of_union; [apply lookup_delete_eq|].
      destruct (decide (id = rollback_client_order_id rb)) as [->|];
        [apply lookup_delete_eq|rewrite lookup_delete_ne by done; by apply Hf1].
    + intros key id r' Hin [Hne Hr']%lookup_delete_Some.
      apply elem_of_union in Hin as [->%elem_of_singleton|Hin]; [|by eapply Hf2].
      intros Heq. apply Hne. symmetry. eapply index_inj; [done|done|exact Hid|]. by rewrite Heq.
  - exists live'. apply position_Some in Hpos as (? & <- & <-). done.
Qed.

Definition cids rbs : list text := rollback_client_order_id <$> rbs.

Definition rollback_key rb : text * text := (rollback_pool_id rb, rollback_submit_reservation_id rb).

(** [c'] is [c] without the reservations that [rbs] name and their records. *)
Definition dropped rbs c c' : Prop :=
  capital_ok c' ∧ pool_id (cap_pool c') = pool_id (cap_pool c) ∧
  is_reconciled (cap_gate c') = is_reconciled (cap_gate c) ∧
  (∀ id, cap_index c' !! id = if decide (id ∈ cids rbs) then None else cap_index c !! id) ∧
  ∃ removed, cap_live c ≡ₚ removed ++ cap_live c' ∧ live_key <$> removed ≡ₚ rollback_key <$> rbs.

Lemma dropped_owned rbs c c' rb :
  dropped rbs c c' → ¬ (rollback_client_order_id rb ∈ cids rbs) → owned_by c rb → owned_by c' rb.
Proof.
  intros (_ & _ & _ & Hidx & _) Hno (r & Hr & Hrest). exists r. split; [|done].
  by rewrite Hidx, decide_False.
Qed.

Lemma dropped_perm rbs rbs' c c' : rbs ≡ₚ rbs' → dropped rbs c c' → dropped rbs' c c'.
Proof.
  intros Hp (Hok & Hpool & Hrec & Hidx & removed & Hl & Hk). split_and!; [done|done|done| |].
  - intros id. rewrite Hidx. unfold cids. repeat case_decide; try done; rewrite Hp in *; done.
  - exists removed. split; [done|]. by rewrite <-Hp.
Qed.

Lemma dropped_same rbs c c1 c2 :
  dropped rbs c c1 → same_capital c1 c2 → is_reconciled (cap_gate c2) = is_reconciled (cap_gate c1) →
  dropped rbs c c2.
Proof.
  intros (Hok & Hpool & Hrec & Hidx & removed & Hl & Hk) Hsame Hrec2. pose proof Hsame as (Hl2 & Hi2 & Hp2).
  split_and!; [by eapply same_ok|congruence|congruence|by rewrite Hi2|]. exists removed. by rewrite Hl2.
Qed.

Lemma rollback_all_cases rbs p :
  capital_ok (progress_capital p) → Forall (owned_by (progress_capital p)) rbs → NoDup (cids rbs) →
  fresh_progress p →
  match rollback_all p rbs with
  | Ok p' =>
      dropped rbs (progress_capital p) (progress_capital p') ∧
      progress_revision p' = progress_revision p + Z.of_nat (length rbs) ∧
      (rbs ≠ [] ∨ is_Some (progress_observed_at_ns p) → is_Some (progress_observed_at_ns p'))
  | Err _ => u64_max < progress_revision p + Z.of_nat (length rbs)
  end.
Proof.
  revert p. induction rbs as [|rb rbs IH]; intros p Hok Hown Hnd Hfresh; cbn [rollback_all length].
  - split_and!; [split_and!; [done|done|done| |by exists []]|lia|by intros [?|?]]. intros id.
    rewrite decide_False; [done|]. by intros ?%elem_of_nil.
  - apply Forall_cons in Hown as [Hrb Hown]. apply NoDup_cons in Hnd as [Hno Hnd].
    pose proof (rollback_one_cases p rb Hok Hrb Hfresh) as Hone.
    destruct (rollback_one p rb) as [p1|e]; cbn [result_bind]; [|lia].
    destruct Hone as (j & Hp1 & Hok1 & Hfresh1 & Hrev1 & Hobs1 & live & Hj & Hkey).
    assert (Hdrop : dropped [rb] (progress_capital p) (progress_capital p1)).
    { rewrite Hp1 in *. split_and!; [done|done|done| |].
      - intros id. simpl.
        destruct (decide (id ∈ [rollback_client_order_id rb])) as [->%list_elem_of_singleton|Hne];
          [apply lookup_delete_eq|]. apply lookup_delete_ne. intros <-. apply Hne, list_elem_of_here.
      - exists [live]. split; [by apply delete_Permutation|]. simpl. by rewrite Hkey. }
    assert (Hown1 : Forall (owned_by (progress_capital p1)) rbs).
    { rewrite Forall_forall in Hown |- *. intros rb' Hin. eapply dropped_owned; [done| |by apply Hown].
      intros Heq%list_elem_of_singleton. apply Hno. apply list_elem_of_fmap. by exists rb'. }
    specialize (IH p1 Hok1 Hown1 Hnd Hfresh1). destruct (rollback_all p1 rbs) as [p2|e]; [|lia].
    destruct IH as ((Hok2 & Hpool2 & Hrec2 & Hidx2 & removed & Hl2 & Hk2) & Hrev2 & Hobs2).
    destruct Hdrop as (_ & Hpool1 & Hrec1 & Hidx1 & removed1 & Hl1 & Hk1).
    split_and!; [|lia|].
    + split_and!; [done|congruence|congruence| |].
      * intros id. rewrite Hidx2, Hidx1. simpl. repeat case_decide; set_solver.
      * exists (removed1 ++ removed). split; [by rewrite Hl1, Hl2, app_assoc|].
        by rewrite fmap_app, Hk1, Hk2.
    + intros _. apply Hobs2. by right.
Qed.

(** ** The inner state *)

(** The capital side of [i], with the rollbacks of the permits that are out: what they
    name is reserved, each order once, and unless ownership was lost nothing else is. *)
Definition capital_inv i rbs : Prop :=
  NoDup (cids rbs) ∧
  match in_capital i with
  | Some c =>
      capital_ok c ∧ Forall (owned_by c) rbs ∧
      (in_rollback_ownership_latch i = None →
       ∀ id r, cap_index c !! id = Some r → rec_phase r = Reserved → id ∈ cids rbs)
  | None => rbs = []
  end.

(** Only the capital state, the revision, the latch and the halt episodes differ. *)
Definition frames i i' : Prop :=
  ∃ capital revision latch episodes,
    i' = set_loss_halt_episodes (set_latch (set_revision (set_capital i capital) revision) latch)
           episodes.

#[global] Instance frames_refl : Reflexive frames.
Proof. intros i. exists (in_capital i), (in_revision i), (in_rollback_ownership_latch i), (in_loss_halt_episodes i). by destruct i. Qed.
#[global] Instance frames_trans : Transitive frames.
Proof. intros ? ? ? (? & ? & ? & ? & ->) (? & ? & ? & ? & ->). repeat eexists. Qed.

Lemma frames_capital i oc : frames i (set_capital i oc).
Proof. exists oc, (in_revision i), (in_rollback_ownership_latch i), (in_loss_halt_episodes i). by destruct i. Qed.
Lemma frames_revision i r : frames i (set_revision i r).
Proof. exists (in_capital i), r, (in_rollback_ownership_latch i), (in_loss_halt_episodes i). by destruct i. Qed.
Lemma frames_latch i l : frames i (set_latch i l).
Proof. exists (in_capital i), (in_revision i), l, (in_loss_halt_episodes i). by destruct i. Qed.
Lemma frames_episodes i e : frames i (set_loss_halt_episodes i e).
Proof. exists (in_capital i), (in_revision i), (in_rollback_ownership_latch i), e. by destruct i. Qed.
#[local] Hint Resolve frames_capital frames_revision frames_latch frames_episodes : core.

Lemma capital_inv_perm i rbs rbs' : rbs ≡ₚ rbs' → capital_inv i rbs → capital_inv i rbs'.
Proof.
  intros Hperm [Hnd Hi]. unfold capital_inv, cids in *. rewrite <-Hperm. split; [done|].
  destruct (in_capital i) as [c|].
  - destruct Hi as (Hok & Hown & Hres). rewrite <-Hperm. split_and!; [done|done|].
    intros Hl id r Hr Hp. rewrite <-Hperm. eauto.
  - subst. by apply Permutation_nil in Hperm.
Qed.

(** The invariant reads the ledger, the index and the latch. *)
Lemma capital_inv_same i i' rbs :
  (in_rollback_ownership_latch i' = None → in_rollback_ownership_latch i = None) →
  match in_capital i, in_capital i' with
  | Some c, Some c' => same_capital c c'
  | None, None => True
  | _, _ => False
  end → capital_inv i rbs → capital_inv i' rbs.
Proof.
  intros Hl Hc [Hnd Hi]. split; [done|].
  destruct (in_capital i) as [c|], (in_capital i') as [c'|]; [|done|done|done].
  destruct Hi as (Hok & Hown & Hres). split_and!.
  - by eapply same_ok.
  - eapply Forall_impl; [exact Hown|]. intros rb. by apply same_owned.
  - destruct Hc as (_ & Hidx & _). rewrite Hidx. intros Hl'. by apply Hres, Hl.
Qed.

Lemma latch_inv i rbs rbs' :
  capital_inv i (rbs ++ rbs') →
  capital_inv (latch_submit_admission_rollback_ownership_failure i) rbs'.
Proof.
  intros [Hnd Hi]. unfold capital_inv, latch_submit_admission_rollback_ownership_failure, cids in *.
  rewrite fmap_app in Hnd. apply NoDup_app in Hnd as (_ & _ & Hnd').
  destruct (advance_capital_admission_state_revision _); simpl;
    (destruct (in_capital i) as [c|] eqn:Ec; simpl; rewrite ?Ec;
     [destruct Hi as (Hok & Hown & _); apply Forall_app in Hown as [_ ?];
      split_and!; [done|by eapply same_ok, Hok|done|done]
     |apply app_nil in Hi as [_ ->]; done]).
Qed.

Lemma latch_frames i : frames i (latch_submit_admission_rollback_ownership_failure i).
Proof.
  unfold latch_submit_admission_rollback_ownership_failure.
  etrans; [apply (frames_latch i (Some RollbackOwnershipLost))|].
  destruct (advance_capital_admission_state_revision _) as [rev|];
    [etrans; [apply (frames_revision _ rev)|]|]; (case_match; [apply frames_capital|done]).
Qed.

Lemma latch_latched i :
  in_rollback_ownership_latch (latch_submit_admission_rollback_ownership_failure i) =
    Some RollbackOwnershipLost.
Proof.
  unfold latch_submit_admission_rollback_ownership_failure. simpl.
  destruct (advance_capital_admission_state_revision (in_revision i)); simpl; by destruct (in_capital i).
Qed.

(** A successful rollback of [rbs]. *)
Definition rolled_back rbs i i' : Prop :=
  in_rollback_ownership_latch i' = in_rollback_ownership_latch i ∧
  in_revision i' = in_revision i + Z.of_nat (length rbs) ∧
  match in_capital i, in_capital i' with
  | Some c, Some c' => if decide (rbs = []) then c' = c else dropped rbs c c'
  | None, None => True
  | _, _ => False
  end.

Lemma prepare_rollback_cases i rbs rbs' :
  capital_inv i (rbs ++ rbs') →
  match prepare_capital_admission_reservation_rollback i rbs with
  | Ok prepared =>
      let i' := commit_capital_admission_reservation_rollback i prepared in
      rolled_back rbs i i' ∧ capital_inv i' rbs' ∧ frames i i'
  | Err _ => u64_max < in_revision i + Z.of_nat (length rbs)
  end.
Proof.
  intros Hinv. pose proof Hinv as [Hnd Hi]. unfold prepare_capital_admission_reservation_rollback.
  destruct rbs as [|rb rbs].
  { simpl. unfold commit_capital_admission_reservation_rollback. simpl. split_and!; [|by destruct i|by destruct i].
    unfold rolled_back. simpl. split_and!; [done|lia|]. by destruct (in_capital i). }
  destruct (in_capital i) as [c|] eqn:Ec; [|done]. cbn [ok_or result_bind].
  destruct Hi as (Hok & Hown & Hres). set (all := rb :: rbs) in *.
  apply Forall_app in Hown as [Hown Hown'].
  unfold cids in Hnd. rewrite fmap_app in Hnd. apply NoDup_app in Hnd as (Hnd & Hdis & Hnd').
  pose proof (rollback_all_cases (reverse all) (mkProgress c (in_revision i) ∅ ∅ None)) as Hall.
  destruct (rollback_all _ (reverse all)) as [p|e]; cbn [result_bind].
  2:{ rewrite length_reverse in Hall. apply Hall; [done| | |].
      - by rewrite reverse_Permutation.
      - unfold cids. by rewrite reverse_Permutation.
      - split; simpl; set_solver. }
  destruct Hall as (Hdrop & Hrev & [obs Hobs]); [done| | | | |].
  { by rewrite reverse_Permutation. }
  { unfold cids. by rewrite reverse_Permutation. }
  { split; simpl; set_solver. }
  { left. unfold all. rewrite reverse_cons. by intros [_ ?]%app_nil. }
  rewrite Hobs. simpl in Hdrop, Hrev. rewrite length_reverse in Hrev.
  set (c' := refresh_capital_admission_reservation_snapshot _ _).
  assert (Hsame : same_capital (progress_capital p) c') by (unfold c'; etrans; [|apply same_refresh]; done).
  assert (Hc' : dropped all c c').
  { eapply dropped_same; [by eapply dropped_perm, Hdrop; apply reverse_Permutation|exact Hsame|].
    unfold c', refresh_capital_admission_reservation_snapshot,
      refresh_capital_admission_reservation_snapshot_with_source. simpl. by destruct (cap_state _). }
  unfold commit_capital_admission_reservation_rollback. simpl. split_and!.
  - unfold rolled_back. simpl. rewrite Ec. done.
  - split; [exact Hnd'|]. simpl. pose proof Hc' as (Hok' & Hpool & Hrec & Hidx & _).
    split_and!; [done| |].
    + rewrite Forall_forall in Hown' |- *. intros rb' Hin. eapply (dropped_owned all c); [exact Hc'| |by apply Hown'].
      intros Hin'. eapply Hdis; [exact Hin'|]. apply list_elem_of_fmap. by exists rb'.
    + intros Hl id r Hr Hp. rewrite Hidx in Hr. case_decide as Hno; [done|].
      specialize (Hres Hl id r Hr Hp). unfold cids in Hres. rewrite fmap_app in Hres.
      by apply elem_of_app in Hres as [?|?].
  - etrans; [|apply frames_revision]. apply frames_capital.
Qed.

(** Rolling back what is owned: it succeeds unless the revision runs out, and then it
    latches; in both cases the rest stays owned. *)
Lemma rollback_reservations_ok i rbs rbs' :
  capital_inv i (rbs ++ rbs') →
  let i' := rollback_capital_admission_reservations i rbs in
  capital_inv i' rbs' ∧ frames i i' ∧
  (rolled_back rbs i i' ∨
   u64_max < in_revision i + Z.of_nat (length rbs) ∧
   in_rollback_ownership_latch i' = Some RollbackOwnershipLost).
Proof.
  intros Hinv. pose proof (prepare_rollback_cases i rbs rbs' Hinv) as Hc.
  unfold rollback_capital_admission_reservations.
  destruct (prepare_capital_admission_reservation_rollback i rbs) as [p|e].
  - destruct Hc as (Hr & Hi & Hf). split_and!; [done|done|by left].
  - split_and!; [by eapply latch_inv|apply latch_frames|right]. by rewrite latch_latched.
Qed.

(** ** Crossing the sink *)

(** [c'] is [c] with the records of [ids] moved to [SinkInvoked]. *)
Definition sunk (ids : list text) c c' : Prop :=
  capital_ok c' ∧ pool_id (cap_pool c') = pool_id (cap_pool c) ∧
  cap_live c' = cap_live c ∧
  ∀ id, (¬ (id ∈ ids) → cap_index c' !! id = cap_index c !! id) ∧
    (id ∈ ids → ∃ r r', cap_index c !! id = Some r ∧ cap_index c' !! id = Some r' ∧
       rec_phase r = Reserved ∧ rec_phase r' = SinkInvoked ∧
       rec_attribution r' = rec_attribution r).

Lemma sunk_owned ids c c' rb :
  sunk ids c c' → ¬ (rollback_client_order_id rb ∈ ids) → owned_by c rb → owned_by c' rb.
Proof.
  intros (_ & _ & _ & Hidx) Hno (r & Hr & Hrest). exists r. split; [|done].
  by rewrite (proj1 (Hidx _) Hno).
Qed.

Lemma sink_one_cases c rev rb :
  capital_ok c → owned_by c rb →
  match sink_one c rev rb with
  | Ok (c', rev') => sunk [rollback_client_order_id rb] c c' ∧ rev' = rev + 1
  | Err _ => u64_max < rev + 1
  end.
Proof.
  intros Hok (r & Hid & Hphase & Hsid & Hpool). unfold sink_one.
  destruct (u64_checked_add rev 1) as [rev'|] eqn:Er; simpl; [|by apply u64_checked_add_None in Er].
  apply u64_checked_add_Some in Er as [-> _]. rewrite Hid. simpl.
  rewrite !bool_decide_true by done. simpl.
  destruct (retained_exact _ _ _ Hok Hid) as (live & -> & _). simpl.
  split; [|done]. split_and!; [by apply set_phase_ok|done|done|]. intros id. simpl. split.
  - intros Hno. apply lookup_insert_ne. intros <-. apply Hno, list_elem_of_here.
  - intros ->%list_elem_of_singleton. rewrite lookup_insert_eq. exists r. eexists. by split_and!.
Qed.

Lemma sink_all_cases rbs c rev :
  capital_ok c → Forall (owned_by c) rbs → NoDup (cids rbs) →
  match sink_all c rev rbs with
  | Ok (c', rev') => sunk (cids rbs) c c' ∧ rev' = rev + Z.of_nat (length rbs)
  | Err _ => u64_max < rev + Z.of_nat (length rbs)
  end.
Proof.
  revert c rev. induction rbs as [|rb rbs IH]; intros c rev Hok Hown Hnd; cbn [sink_all length].
  - split; [|lia]. split_and!; [done|done|done|]. intros id. split; [done|]. by intros ?%elem_of_nil.
  - apply Forall_cons in Hown as [Hrb Hown]. apply NoDup_cons in Hnd as [Hno Hnd].
    pose proof (sink_one_cases c rev rb Hok Hrb) as Hone.
    destruct (sink_one c rev rb) as [[c1 rev1]|e]; cbn [result_bind]; [|lia].
    destruct Hone as [Hs1 ->]. simpl.
    assert (Hown1 : Forall (owned_by c1) rbs).
    { rewrite Forall_forall in Hown |- *. intros rb' Hin. eapply sunk_owned; [done| |by apply Hown].
      intros Heq%list_elem_of_singleton. apply Hno. apply list_elem_of_fmap. by exists rb'. }
    pose proof Hs1 as (Hok1 & Hpool1 & Hlive1 & Hidx1).
    specialize (IH c1 (rev + 1) Hok1 Hown1 Hnd). destruct (sink_all c1 (rev + 1) rbs) as [[c2 rev2]|e]; [|lia].
    destruct IH as [(Hok2 & Hpool2 & Hlive2 & Hidx2) ->]. split; [|lia].
    split_and!; [done|congruence|congruence|]. intros id. simpl. split.
    + intros [Hne Hnin]%not_elem_of_cons. rewrite (proj1 (Hidx2 id) Hnin). apply (proj1 (Hidx1 id)).
      by intros ?%list_elem_of_singleton.
    + intros [->|Hin]%elem_of_cons.
      * destruct (proj2 (Hidx1 (rollback_client_order_id rb)) (list_elem_of_here _ _)) as (r & r' & Hrest).
        exists r, r'. by rewrite (proj1 (Hidx2 _) Hno).
      * destruct (proj2 (Hidx2 id) Hin) as (r & r' & Hr & Hrest). exists r, r'. split; [|done].
        rewrite <-Hr. symmetry. apply (proj1 (Hidx1 id)). intros ->%list_elem_of_singleton. done.
Qed.

(** ** Ids held without evidence *)

Lemma transient_ids_held_spec held seen ids :
  transient_ids_held held seen ids = true ↔
    NoDup ids ∧ Forall (λ id, ¬ (id ∈ seen) ∧ held !! id = Some PermitHeld) ids.
Proof.
  revert seen. induction ids as [|id ids IH]; intros seen; simpl.
  - split; [by split; constructor|done].
  - rewrite !andb_true_iff, negb_true_iff, bool_decide_eq_false, bool_decide_eq_true, IH.
    rewrite NoDup_cons, Forall_cons. split.
    + intros ((Hno & Hh) & Hnd & Hall). split_and!; [|done|done|done|].
      * intros Hin. rewrite Forall_forall in Hall. destruct (Hall id Hin) as [Hn _]. set_solver.
      * eapply Forall_impl; [exact Hall|]. intros id' [Hn ?]. set_solver.
    + intros ((Hnin & Hnd) & (Hno & Hh) & Hall). split_and!; [done|done|done|].
      rewrite Forall_forall in Hall |- *. intros id' Hin. destruct (Hall id' Hin) as [? ?]. split; [|done].
      intros [->%elem_of_singleton|?]%elem_of_union; done.
Qed.

Lemma sink_evidence_free_ok held seen ids :
  NoDup ids → Forall (λ id, ¬ (id ∈ seen) ∧ held !! id = Some PermitHeld) ids →
  ∃ held', sink_evidence_free held seen ids = Ok held' ∧
    ∀ id, held' !! id = if decide (id ∈ ids) then Some EvidenceFreeSinkInvoked else held !! id.
Proof.
  revert held seen. induction ids as [|id ids IH]; intros held seen Hnd Hall; cbn [sink_evidence_free].
  - exists held. split; [done|]. intros id. rewrite decide_False; [done|]. by intros ?%elem_of_nil.
  - apply NoDup_cons in Hnd as [Hno Hnd]. apply Forall_cons in Hall as [[Hs Hh] Hall].
    rewrite (bool_decide_false (id ∈ seen)), bool_decide_true by done. cbn [negb andb ensure result_bind].
    destruct (IH (<[id := EvidenceFreeSinkInvoked]> held) ({[id]} ∪ seen) Hnd) as (held' & -> & Hheld').
    + rewrite Forall_forall in Hall |- *. intros id' Hin. destruct (Hall id' Hin) as [? ?].
      assert (id ≠ id') by (intros ->; done). split; [set_solver|]. by rewrite lookup_insert_ne.
    + exists held'. split; [done|]. intros id'. rewrite Hheld'.
      destruct (decide (id' = id)) as [->|Hne].
      * rewrite lookup_insert_eq. repeat case_decide; set_solver.
      * rewrite lookup_insert_ne by done. repeat case_decide; set_solver.
Qed.

Lemma delete_all_lookup {A} (ids : list text) (m : gmap text A) id :
  foldl (λ m id, delete id m) m ids !! id = if decide (id ∈ ids) then None else m !! id.
Proof.
  revert m. induction ids as [|id' ids IH]; intros m; cbn [foldl].
  - rewrite decide_False; [done|]. by intros ?%elem_of_nil.
  - rewrite IH. destruct (decide (id = id')) as [->|Hne].
    + rewrite lookup_delete_eq. repeat case_decide; set_solver.
    + rewrite lookup_delete_ne by done. repeat case_decide; set_solver.
Qed.

(** ** The decision on a request *)

Lemma map_rejection_ok r : ¬ is_invariant r → ∃ e, map_capital_admission_rejection [r] = Ok e.
Proof. intros Hr. destruct r as [| [] | | | | |]; simpl; first [by exfalso; apply Hr|by eexists]. Qed.

Lemma rejected_validates (q : D) p r :
  ¬ is_invariant r →
  ∃ e, validate_capital_admission_decision (rejected_capital_admission q p [r]) =
    Ok (CapitalDecisionRejected e).
Proof.
  intros [e He]%map_rejection_ok. exists e.
  unfold validate_capital_admission_decision, rejected_capital_admission, empty_evidence.
  cbn -[map_capital_admission_rejection d_eqb]. rewrite d_eqb_refl. cbn -[map_capital_admission_rejection].
  by rewrite He.
Qed.

Lemma rejected_liability_validates e t (q : LiabilityQuote D) p r :
  ¬ is_invariant r →
  ∃ e', validate_capital_admission_decision (rejected_capital_admission_with_liability
    (quote_original_quantity q) p (quote_calculated_liability q) (quote_reserved_liability q)
    (admission_evidence e t q) [r]) = Ok (CapitalDecisionRejected e').
Proof.
  intros [e' He]%map_rejection_ok. exists e'.
  unfold validate_capital_admission_decision, rejected_capital_admission_with_liability.
  cbn -[map_capital_admission_rejection d_eqb]. rewrite !d_eqb_refl.
  cbn -[map_capital_admission_rejection]. by rewrite He.
Qed.

Lemma worst_case_quantity request product policy (q : LiabilityQuote D) :
  worst_case_liability request product policy = Ok q →
  quote_original_quantity q = CapitalAdmission.quantity request ∧
  quote_accepted_quantity q = CapitalAdmission.quantity request.
Proof. unfold worst_case_liability. destruct product. intros Hq. result_inv. by subst. Qed.

(** What an accepted reservation adds to the ledger. *)
Definition reserved_live request (s : NtDerivedCapitalAdmissionState D) (q : LiabilityQuote D)
    : @LiveReservation D := new_live (reservation_request_of request s q).

(** The decision of the gate is never inconsistent; an acceptance is for the quantity
    asked and adds the worst case to the ledger, a refusal changes nothing. *)
Lemma gate_decision_valid g request s policy (pool : @CapitalPoolSnapshot D) :
  ∃ d g', evaluate_and_reserve g request (Some s) policy None pool = Some (d, g') ∧
    match validate_capital_admission_decision d with
    | Ok (CapitalDecisionAccepted quantity reserved) =>
        quantity = CapitalAdmission.quantity request ∧
        ∃ q, worst_case_liability request (product_state s) policy = Ok q ∧
          reserved = quote_reserved_liability q ∧
          ¬ (live_key (reserved_live request s q) ∈ live_keys (reservation_ledger g)) ∧
          g' = mkGate (set_live (reservation_ledger g)
                 (live_reservations (reservation_ledger g) ++ [reserved_live request s q])) ∧
          state_trusted s (admission_now_ns request) (max_snapshot_age_ns pool)
    | Ok (CapitalDecisionRejected _) => g' = g
    | Err _ => False
    end.
Proof.
  unfold evaluate_and_reserve, evaluate_capital_admission.
  assert (Hfin : ∀ r, ¬ is_invariant r →
    match validate_capital_admission_decision (rejected_capital_admission
            (CapitalAdmission.quantity request) (admission_pool_id request) [r]) with
    | Ok (CapitalDecisionRejected _) => mkGate (reservation_ledger g) = g | _ => False end).
  { intros r Hr. destruct (rejected_validates (CapitalAdmission.quantity request)
      (admission_pool_id request) r Hr) as [e ->]. by destruct g. }
  assert (Hpick : ∀ (d : CapitalAdmissionDecision D) g' P,
    match validate_capital_admission_decision d with
    | Ok (CapitalDecisionRejected _) => g' = g | _ => False end →
    match validate_capital_admission_decision d with
    | Ok (CapitalDecisionAccepted quantity reserved) => P quantity reserved
    | Ok (CapitalDecisionRejected _) => g' = g
    | Err _ => False end).
  { intros d g' P. by destruct (validate_capital_admission_decision d) as [[]|]. }
  case_bool_decide as Hpool; cbn [negb].
  2:{ do 2 eexists. split; [done|]. apply Hpick, Hfin. by intros []. }
  destruct (validate_cases s (admission_now_ns request) (max_snapshot_age_ns pool)) as (r & -> & Hr).
  cbn [mbind option_bind]. destruct r as [e|error].
  2:{ do 2 eexists. split; [done|]. apply Hpick, Hfin. by destruct error; intros []. }
  cbn [loss_gate mbind option_bind].
  destruct (worst_case_liability request (product_state s) policy) as [q|error] eqn:Eq.
  2:{ do 2 eexists. split; [done|]. apply Hpick, Hfin. by intros []. }
  destruct (worst_case_quantity _ _ _ _ Eq) as [Hq1 Hq2]. unfold reserve_admission.
  pose proof (reserve_decision_valid (reservation_ledger g) pool (reservation_request_of request s q)
    (admission_now_ns request) (min_remaining_pool_balance policy)) as Hv.
  pose proof (reserve_cases (reservation_ledger g) pool (reservation_request_of request s q)
    (admission_now_ns request) (min_remaining_pool_balance policy)) as Hc.
  destruct (ledger_reserve _ _ _ _ _) as [rd l']. cbn [fst] in Hv.
  destruct (validate_reservation_decision rd) as [[|reason]|]; [| |done]; do 2 eexists; (split; [done|]).
  - rewrite Hv in Hc. destruct Hc as (_ & _ & _ & _ & _ & _ & _ & _ & _ & Hno & _ & ->).
    unfold validate_capital_admission_decision. cbn -[d_eqb]. rewrite Hq1, !d_eqb_refl. cbn.
    split; [done|]. exists q. by destruct Hr.
  - destruct Hv as [Hacc _]. rewrite Hacc in Hc. destruct Hc as [-> _]. apply Hpick.
    rewrite <-Hq1. destruct (rejected_liability_validates e (admission_now_ns request) q
      (admission_pool_id request) (ReasonReservation reason)) as [e' ->]; [by intros []|]. by destruct g.
Qed.

(** The capital state [c'] is [c] with the reservation of [request]: the worst case of the
    order, judged on a trusted state of the node, under the id that the rollback [rb] and
    the attribution [a] name. *)
Definition reserved_for (request : BoltV3SubmitAdmissionRequest D) (now : Z) c c' rb
    (a : ReservationAttribution) : Prop :=
  ∃ evidence s snapshot position q r,
    capital_preconditions c request = Ok (evidence, s, snapshot, position) ∧
    rollback_client_order_id rb = req_client_order_id request ∧
    attr_client_order_id a = req_client_order_id request ∧
    rollback_submit_reservation_id rb = attr_submit_reservation_id a ∧
    rollback_pool_id rb = pool_id (cap_pool c) ∧
    let order := capital_admission_request c request evidence (attr_submit_reservation_id a) now in
    state_trusted s now (max_snapshot_age_ns (cap_pool c)) ∧
    worst_case_liability order (product_state s) (cap_policy c) = Ok q ∧
    attr_reserved_liability a = d_to_string (quote_reserved_liability q) ∧
    attr_tag a = live_tag (reserved_live order s q) ∧
    cap_live c' = cap_live c ++ [reserved_live order s q] ∧
    rec_attribution r = a ∧ rec_phase r = Reserved ∧
    cap_index c !! req_client_order_id request = None ∧
    cap_index c' = <[req_client_order_id request := r]> (cap_index c).

Lemma preconditions_fresh c request x :
  capital_preconditions c request = Ok x →
  cap_index c !! req_client_order_id request = None ∧
  product_state (x.1.1.2) = PredictionMarketBinary (x.1.2) ∧
  is_reconciled (cap_gate c) = true ∧ cap_capture_failure_source c = None ∧
  cap_state c = Some (x.1.1.2) ∧ req_admission_evidence request = Some (x.1.1.1).
Proof.
  unfold capital_preconditions. intros Hx. result_inv.
  destruct (product_state _) as [snapshot] eqn:Ep. result_inv.
  destruct (outcome_leg snapshot _) as [instrument position]. result_inv. subst x. simpl.
  repeat match goal with
  | E : negb (is_some _) = true |- _ => apply is_some_false in E
  | E : is_none _ = true |- _ => apply is_some_false in E
  end. done.
Qed.

Lemma reserve_entry_cases i c request evidence s snapshot position rev now rbs :
  in_capital i = Some c → capital_inv i rbs →
  capital_preconditions c request = Ok (evidence, s, snapshot, position) →
  ∃ d i' c', reserve_entry i c request evidence s snapshot rev now = Some (d, i') ∧
    frames i i' ∧ in_rollback_ownership_latch i' = in_rollback_ownership_latch i ∧
    in_capital i' = Some c' ∧
    match d with
    | CapitalAccepted (mkAcceptance (Some rb) (Some a)) =>
        reserved_for request now c c' rb a ∧ in_revision i' = rev ∧ capital_inv i' (rb :: rbs)
    | CapitalRejected _ => same_capital c c' ∧ in_revision i' = in_revision i
    | _ => False
    end.
Proof.
  intros Hc Hinv Hpre. pose proof (preconditions_fresh _ _ _ Hpre) as (Hfresh & Hprod & _). simpl in Hprod.
  unfold reserve_entry. set (c1 := set_next_sequence c _). set (id := submit_reservation_id_for _ _).
  destruct (gate_decision_valid (cap_gate c1) (capital_admission_request c1 request evidence id now)
    s (cap_policy c1) (cap_pool c1)) as (d & g' & -> & Hd). cbn [mbind option_bind].
  destruct (validate_capital_admission_decision d) as [[quantity reserved|reason]|]; [| |done].
  2:{ subst g'. do 3 eexists. split; [reflexivity|]. split_and!; [apply frames_capital|done|done|done|done]. }
  destruct Hd as (-> & q & Hq & -> & Hno & -> & Htrust). cbn -[d_eqb set_gate]. rewrite d_eqb_refl. cbn [negb].
  destruct (checked_additive_liability _) as [additive|].
  2:{ do 3 eexists. split; [reflexivity|]. split_and!; [apply frames_capital|done|done| |done].
      split_and!; [|done|done]. unfold cap_live, rollback_uncommitted_reservation. cbn -[rollback_uncommitted].
      pose proof (rollback_last (reservation_ledger (cap_gate c)) _ Hno) as Hroll.
      cbn -[rollback_uncommitted] in Hroll. by rewrite Hroll. }
  assert (Htag : ∀ x y z t, attr_tag (reservation_attribution_for c1 request evidence snapshot id x y z t) =
    live_tag (reserved_live (capital_admission_request c1 request evidence id now) s q)).
  { intros. unfold attr_tag, live_tag, reserved_live. simpl. by rewrite Hprod. }
  do 3 eexists. split; [reflexivity|]. split_and!;
    [etrans; [apply frames_capital|apply frames_revision]|done|done| |done|].
  - match goal with
    | |- context [<[_ := ?r]> _] => exists evidence, s, snapshot, position, q, r
    end.
    cbv zeta. split_and!; [done|done|done|done|done|exact Htrust|exact Hq|done|exact (Htag _ _ _ _)|done|done|done|done|done].
  - destruct Hinv as [Hnd Hi]. rewrite Hc in Hi. destruct Hi as (Hok & Hown & Hres).
    assert (Hnew : ¬ (req_client_order_id request ∈ cids rbs)).
    { intros (rb & Heq & Hin)%list_elem_of_fmap. rewrite Forall_forall in Hown.
      destruct (Hown rb Hin) as (r & Hr & _). congruence. }
    split; [by constructor|]. simpl. split_and!.
    + apply (add_record_ok c1); [by eapply same_ok, Hok|done| |exact Hno|symmetry; exact (Htag _ _ _ _)].
      split_and!; [done|done|]. by intros m [= <-].
    + constructor; [by eexists; split_and!; [apply lookup_insert_eq| | |]|].
      rewrite Forall_forall in Hown |- *. intros rb Hin. destruct (Hown rb Hin) as (r & Hr & ?).
      exists r. split; [|done]. simpl. rewrite lookup_insert_ne; [done|]. congruence.
    + intros Hl id' r' [[<- <-]|[Hne Hr']]%lookup_insert_Some Hp; [apply list_elem_of_here|].
      apply list_elem_of_further. by eapply Hres.
Qed.

(** The capital decision: an entry reserves its worst case, an exit needs no reservation,
    a refusal changes no reservation, and an inconsistency is never reported. *)
Lemma evaluate_capital_cases i c request now rbs :
  in_capital i = Some c → capital_inv i rbs →
  ∃ d i' c', evaluate_capital_admission_submit i request now = Some (d, i') ∧
    frames i i' ∧ in_rollback_ownership_latch i' = in_rollback_ownership_latch i ∧
    in_capital i' = Some c' ∧
    match d with
    | CapitalAccepted (mkAcceptance (Some rb) (Some a)) =>
        req_intent_kind request = Entry ∧ reserved_for request now c c' rb a ∧
        in_revision i' = in_revision i + 1 ∧ in_revision i' ≤ u64_max ∧ capital_inv i' (rb :: rbs)
    | CapitalAccepted (mkAcceptance None None) =>
        req_intent_kind request = RiskReducingExit ∧ i' = i ∧
        ∃ evidence s snapshot position,
          capital_preconditions c request = Ok (evidence, s, snapshot, position) ∧
          ev_side evidence = CompiledSell ∧ d_leb (ev_quantity evidence) position = true
    | CapitalRejected _ => same_capital c c' ∧ in_revision i' = in_revision i
    | _ => False
    end.
Proof.
  intros Hc Hinv. unfold evaluate_capital_admission_submit. rewrite Hc.
  destruct (capital_preconditions c request) as [[[[evidence s] snapshot] position]|reason] eqn:Hpre.
  2:{ exists (CapitalRejected reason), i, c. by split_and!. }
  destruct (req_intent_kind request) eqn:Hk.
  - destruct (u64_checked_add (in_revision i) 1) as [rev|] eqn:Er.
    + apply u64_checked_add_Some in Er as [-> Hmax].
      destruct (reserve_entry_cases i c request evidence s snapshot position (in_revision i + 1) now rbs
        Hc Hinv Hpre) as (d & i' & c' & Hev & Hf & Hl & Hc' & Hd).
      exists d, i', c'. split_and!; [done|done|done|done|].
      destruct d as [[[rb|] [a|]]|reason|]; try done. destruct Hd as (? & Hrev & ?).
      rewrite Hrev. by split_and!.
    + do 3 eexists. split; [reflexivity|]. split_and!; [apply frames_capital|done|done|done|done].
  - do 3 eexists. split; [reflexivity|]. split_and!; [done|done|exact Hc|].
    destruct (bool_decide (ev_side evidence = CompiledSell)) eqn:Hs;
      destruct (d_leb (ev_quantity evidence) position) eqn:Hle; simpl; try done.
    apply bool_decide_eq_true in Hs. split_and!; [done|done|]. by exists evidence, s, snapshot, position.
Qed.

(** ** Counters *)

Implicit Types (crs : list BoltV3SubmitAdmissionCounterRollback).

Definition count_of (client : text) crs : Z :=
  Zsum (counter_order_count <$> filter (λ cr, counter_execution_client_id cr = client) crs).

Definition held_ids crs : list text := crs ≫= uncommitted_evidence_free_client_order_ids.

(** The counters of the permits that are out: they are covered by the totals, and their
    ids without evidence are held, each once. *)
Record counters_inv (i : BoltV3SubmitAdmissionInner D) (crs : list BoltV3SubmitAdmissionCounterRollback)
    : Prop := {
  counters_positive : Forall (λ cr, 1 ≤ counter_order_count cr) crs;
  counters_total : Zsum (counter_order_count <$> crs) ≤ in_admitted_order_count i;
  counters_client : ∀ client, count_of client crs ≤ client_count i client;
  counters_nodup : NoDup (held_ids crs);
  counters_held : Forall (λ id, in_evidence_free i !! id = Some PermitHeld) (held_ids crs);
}.

Lemma counters_inv_frames i i' crs : frames i i' → counters_inv i crs → counters_inv i' crs.
Proof. intros (? & ? & ? & ? & ->) Hi. by destruct Hi; split. Qed.

Lemma count_of_cons client cr crs :
  count_of client (cr :: crs) =
    (if decide (counter_execution_client_id cr = client) then counter_order_count cr else 0) +
    count_of client crs.
Proof. unfold count_of. rewrite filter_cons. by case_decide. Qed.

Lemma count_of_nonneg client crs :
  Forall (λ cr, 1 ≤ counter_order_count cr) crs → 0 ≤ count_of client crs.
Proof.
  induction 1 as [|cr crs Hcr _ IH]; [done|]. rewrite count_of_cons. case_decide; lia.
Qed.

#[global] Instance counters_inv_perm i : Proper ((≡ₚ) ==> iff) (counters_inv i).
Proof.
  assert (Hone : ∀ crs crs', crs ≡ₚ crs' → counters_inv i crs → counters_inv i crs').
  { intros crs crs' Hperm [? ? ? ? ?]. split.
    - by rewrite <-Hperm.
    - by rewrite <-Hperm.
    - intros client. unfold count_of in *. by rewrite <-Hperm.
    - unfold held_ids in *. by rewrite <-Hperm.
    - unfold held_ids in *. by rewrite <-Hperm. }
  intros crs crs' Hperm. split; by apply Hone.
Qed.

Lemma client_count_apply i cr values client :
  client_count (apply_admission_counter_rollback i cr values) client =
    if decide (client = counter_execution_client_id cr)
    then values_execution_client_order_count values else client_count i client.
Proof.
  unfold client_count, apply_admission_counter_rollback. simpl.
  destruct (Z.eqb_spec (values_execution_client_order_count values) 0) as [Hz|Hz]; case_decide as Hd.
  - subst. by rewrite lookup_delete_eq.
  - by rewrite lookup_delete_ne.
  - subst. by rewrite lookup_insert_eq.
  - by rewrite lookup_insert_ne.
Qed.

Lemma evidence_free_apply i cr values id :
  in_evidence_free (apply_admission_counter_rollback i cr values) !! id =
    if decide (id ∈ uncommitted_evidence_free_client_order_ids cr) then None
    else in_evidence_free i !! id.
Proof. apply delete_all_lookup. Qed.

(** Giving back the counters of a permit that is out succeeds. *)
Lemma counter_rollback_ok i cr crs :
  counters_inv i (cr :: crs) →
  ∃ values, checked_admission_counter_rollback i cr = Some values ∧
    values_admitted_order_count values = in_admitted_order_count i - counter_order_count cr ∧
    values_execution_client_order_count values =
      client_count i (counter_execution_client_id cr) - counter_order_count cr ∧
    ∀ i', frames i i' → counters_inv (apply_admission_counter_rollback i' cr values) crs.
Proof.
  intros [Hpos Htot Hcli Hnd Hheld]. apply Forall_cons in Hpos as [Hcr Hpos].
  change (counter_order_count cr + Zsum (counter_order_count <$> crs) ≤ in_admitted_order_count i) in Htot.
  assert (Hsum : 0 ≤ Zsum (counter_order_count <$> crs)).
  { apply Zsum_nonneg, Forall_fmap. eapply Forall_impl; [exact Hpos|]. simpl. lia. }
  pose proof (Hcli (counter_execution_client_id cr)) as Hown. rewrite count_of_cons, decide_True in Hown by done.
  pose proof (count_of_nonneg (counter_execution_client_id cr) crs Hpos).
  unfold held_ids in Hnd, Hheld. simpl in Hnd, Hheld.
  apply NoDup_app in Hnd as (Hnd1 & Hdis & Hnd2). apply Forall_app in Hheld as [Hh1 Hh2].
  unfold checked_admission_counter_rollback.
  rewrite (proj2 (u32_checked_sub_Some (in_admitted_order_count i) _ _)) by (split; [reflexivity|lia]).
  unfold client_count in Hown. destruct (_ !! counter_execution_client_id cr) as [n|] eqn:En; simpl in Hown; [|lia].
  cbn [mbind option_bind].
  rewrite (proj2 (u32_checked_sub_Some n _ _)) by (split; [reflexivity|lia]). cbn [mbind option_bind].
  rewrite (proj2 (transient_ids_held_spec _ _ _)).
  2:{ split; [done|]. eapply Forall_impl; [exact Hh1|]. simpl. set_solver. }
  eexists. split; [done|]. split_and!; [done|by unfold client_count; rewrite En|].
  intros i' (? & ? & ? & ? & ->). split; [done|simpl; lia| |done|].
  - intros client. rewrite client_count_apply. specialize (Hcli client). rewrite count_of_cons in Hcli.
    destruct (decide (client = counter_execution_client_id cr)) as [->|Hd]; simpl.
    + rewrite decide_True in Hcli by done. unfold client_count in Hcli.
      rewrite En in Hcli. simpl in Hcli. lia.
    + rewrite decide_False in Hcli by done. unfold client_count in *. simpl. lia.
  - rewrite Forall_forall in Hh2 |- *. intros id Hin. simpl. rewrite delete_all_lookup, decide_False; [by apply Hh2|].
    intros Hin'. by eapply Hdis.
Qed.

(** ** A permit that is dropped, a permit that is used *)

(** What no operation of a permit touches. *)
Definition keeps_context i i' : Prop :=
  in_kill_switch_state i' = in_kill_switch_state i ∧
  in_live_submit_approval_limits i' = in_live_submit_approval_limits i ∧
  in_authority i' = in_authority i ∧ in_loss_policy i' = in_loss_policy i.

#[global] Instance keeps_context_refl : Reflexive keeps_context.
Proof. by intros i. Qed.
#[global] Instance keeps_context_trans : Transitive keeps_context.
Proof. intros ? ? ? (? & ? & ? & ?) (? & ? & ? & ?). split_and!; congruence. Qed.

Lemma frames_context i i' : frames i i' → keeps_context i i'.
Proof. by intros (? & ? & ? & ? & ->). Qed.

Lemma frames_counters i i' :
  frames i i' → in_admitted_order_count i' = in_admitted_order_count i ∧
    in_admitted_order_count_by_execution_client i' = in_admitted_order_count_by_execution_client i ∧
    in_evidence_free i' = in_evidence_free i.
Proof. by intros (? & ? & ? & ? & ->). Qed.

(** Only the held ids of [ids] are forgotten. *)
Definition forgets (ids : list text) i i' : Prop :=
  ∀ id, in_evidence_free i' !! id = in_evidence_free i !! id ∨
    (id ∈ ids ∧ in_evidence_free i !! id = Some PermitHeld ∧ in_evidence_free i' !! id = None).

Lemma forgets_sunk ids i i' id :
  forgets ids i i' → in_evidence_free i !! id = Some EvidenceFreeSinkInvoked →
  in_evidence_free i' !! id = Some EvidenceFreeSinkInvoked.
Proof. intros Hf Hid. destruct (Hf id) as [->|(_ & ? & _)]; congruence. Qed.

(** Dropping a permit that is out gives back what it holds and nothing else; if the
    revision runs out, ownership is latched as lost instead. *)
Lemma rollback_permit_ok i rbs rbs' cr crs :
  capital_inv i (rbs ++ rbs') → counters_inv i (cr :: crs) →
  let i' := rollback_unsubmitted_permit i rbs (Some cr) in
  capital_inv i' rbs' ∧ counters_inv i' crs ∧ keeps_context i i' ∧
  forgets (uncommitted_evidence_free_client_order_ids cr) i i' ∧
  (in_admitted_order_count i' ≤ in_admitted_order_count i ∧
   ∀ client, client_count i' client ≤ client_count i client) ∧
  (u64_max < in_revision i + Z.of_nat (length rbs) ∧
   in_rollback_ownership_latch i' = Some RollbackOwnershipLost ∨
   rolled_back rbs i i' ∧
   in_admitted_order_count i' = in_admitted_order_count i - counter_order_count cr ∧
   (∀ client, client_count i' client = client_count i client -
      if decide (client = counter_execution_client_id cr) then counter_order_count cr else 0) ∧
   (∀ id, id ∈ uncommitted_evidence_free_client_order_ids cr → in_evidence_free i' !! id = None)).
Proof.
  intros Hcap Hcnt. cbv zeta. unfold rollback_unsubmitted_permit.
  destruct (counter_rollback_ok i cr crs Hcnt) as (values & -> & Htot & Hcli & Hkeep).
  pose proof (prepare_rollback_cases i rbs rbs' Hcap) as Hp.
  destruct (prepare_capital_admission_reservation_rollback i rbs) as [p|e].
  - destruct Hp as (Hrb & Hcap' & Hf). pose proof (frames_counters _ _ Hf) as (_ & Hc2 & Hc3).
    assert (Hheld : Forall (λ id, in_evidence_free i !! id = Some PermitHeld)
      (uncommitted_evidence_free_client_order_ids cr)).
    { pose proof (counters_held _ _ Hcnt) as Hh. unfold held_ids in Hh. simpl in Hh.
      by apply Forall_app in Hh as [? _]. }
    pose proof (counters_positive _ _ Hcnt) as Hpos. apply Forall_cons in Hpos as [Hpos _].
    assert (Hless : ∀ client, client_count (apply_admission_counter_rollback
      (commit_capital_admission_reservation_rollback i p) cr values) client = client_count i client -
      if decide (client = counter_execution_client_id cr) then counter_order_count cr else 0).
    { intros client. rewrite client_count_apply. case_decide as Hd; [subst; lia|].
      unfold client_count. rewrite Hc2. lia. }
    split; [done|]. split; [by apply Hkeep|]. split; [by apply frames_context in Hf|].
    split; [|split; [split|]].
    + intros id. rewrite evidence_free_apply, Hc3. case_decide as Hin; [right|by left].
      rewrite Forall_forall in Hheld. by split_and!; [|apply Hheld|].
    + simpl. lia.
    + intros client. rewrite Hless. case_decide; lia.
    + right. split_and!; [exact Hrb|done|exact Hless|].
      intros id Hin. by rewrite evidence_free_apply, decide_True.
  - pose proof (latch_frames i) as Hf. pose proof (frames_counters _ _ Hf) as (F1 & F2 & _).
    split; [by eapply latch_inv|]. split; [|split; [by apply frames_context|split; [|split; [|left; by rewrite latch_latched]]]].
    + eapply counters_inv_frames; [done|]. destruct Hcnt as [Hpos Hle Hc Hnd Hh].
      apply Forall_cons in Hpos as [Hcr Hpos].
      change (counter_order_count cr + Zsum (counter_order_count <$> crs) ≤ in_admitted_order_count i) in Hle.
      unfold held_ids in Hnd, Hh. simpl in Hnd, Hh. apply NoDup_app in Hnd as (_ & _ & ?).
      apply Forall_app in Hh as [_ ?]. split; [done|lia| |done|done].
      intros client. specialize (Hc client). rewrite count_of_cons in Hc. case_decide; lia.
    + intros id. left. by rewrite (proj2 (proj2 (frames_counters _ _ Hf))).
    + unfold client_count. by rewrite F1, F2.
Qed.

(** Using a permit that is out moves its records to [SinkInvoked] and its held ids past the
    sink; it is refused only if the revision runs out. *)
Lemma sink_permit_ok i rbs rbs' cr crs :
  capital_inv i (rbs ++ rbs') → counters_inv i (cr :: crs) →
  match prepare_submit_sink_invocation i rbs (Some cr) with
  | Ok prepared =>
      let i' := commit_submit_sink_invocation i prepared in
      capital_inv i' rbs' ∧ counters_inv i' crs ∧ keeps_context i i' ∧
      in_rollback_ownership_latch i' = in_rollback_ownership_latch i ∧
      in_admitted_order_count i' = in_admitted_order_count i ∧
      in_admitted_order_count_by_execution_client i' = in_admitted_order_count_by_execution_client i ∧
      in_revision i' = in_revision i + Z.of_nat (length rbs) ∧
      (∀ id, in_evidence_free i' !! id =
         if decide (id ∈ uncommitted_evidence_free_client_order_ids cr)
         then Some EvidenceFreeSinkInvoked else in_evidence_free i !! id) ∧
      match in_capital i, in_capital i' with
      | Some c, Some c' => sunk (cids rbs) c c'
      | None, None => True
      | _, _ => False
      end
  | Err _ => u64_max < in_revision i + Z.of_nat (length rbs)
  end.
Proof.
  intros Hcap Hcnt. unfold prepare_submit_sink_invocation.
  set (ids := uncommitted_evidence_free_client_order_ids cr).
  pose proof (counters_nodup _ _ Hcnt) as Hnd. pose proof (counters_held _ _ Hcnt) as Hh.
  unfold held_ids in Hnd, Hh. simpl in Hnd, Hh. apply NoDup_app in Hnd as (Hnd1 & Hdis & Hnd2).
  apply Forall_app in Hh as [Hh1 Hh2]. fold ids in Hnd1, Hdis, Hh1.
  assert (Hfree : ∃ oheld, match ids with [] => Ok None
      | _ :: _ => candidate ←? sink_evidence_free (in_evidence_free i) ∅ ids; Ok (Some candidate) end = Ok oheld ∧
    ∀ id, default (in_evidence_free i) oheld !! id =
      if decide (id ∈ ids) then Some EvidenceFreeSinkInvoked else in_evidence_free i !! id).
  { destruct ids as [|id0 ids0] eqn:Eids.
    - exists None. split; [done|]. intros id. rewrite decide_False; [done|]. by intros ?%elem_of_nil.
    - rewrite <-Eids in *.
      destruct (sink_evidence_free_ok (in_evidence_free i) ∅ ids Hnd1) as (held' & -> & Hl).
      { eapply Forall_impl; [exact Hh1|]. simpl. set_solver. }
      by exists (Some held'). }
  destruct Hfree as (oheld & -> & Hl). cbn [result_bind].
  assert (Hcnt' : ∀ i', in_admitted_order_count i' = in_admitted_order_count i →
    in_admitted_order_count_by_execution_client i' = in_admitted_order_count_by_execution_client i →
    in_evidence_free i' = default (in_evidence_free i) oheld → counters_inv i' crs).
  { intros i' E1 E2 E3. destruct Hcnt as [Hpos Hle Hc _ _]. apply Forall_cons in Hpos as [Hcr Hpos].
    change (counter_order_count cr + Zsum (counter_order_count <$> crs) ≤ in_admitted_order_count i) in Hle.
    split; [done|lia| |done|].
    - intros client. specialize (Hc client). rewrite count_of_cons in Hc. unfold client_count in *.
      rewrite E2. case_decide; lia.
    - rewrite Forall_forall in Hh2 |- *. intros id Hin. rewrite E3, Hl, decide_False; [by apply Hh2|].
      intros Hin'. by eapply Hdis. }
  destruct rbs as [|rb rbs].
  - cbn -[set_evidence_free set_revision]. destruct oheld as [held|]; simpl in Hl |- *;
      (split_and!; [exact Hcap|by apply Hcnt'|done|done|done|done|lia|exact Hl|
        destruct (in_capital i) as [c|] eqn:Ec; [|done]]);
      (destruct Hcap as [_ Hi]; rewrite Ec in Hi; destruct Hi as (Hok & _);
       split_and!; [done|done|done|]; intros id; split; [done|by intros ?%elem_of_nil]).
  - set (all := rb :: rbs) in *. pose proof Hcap as [Hnd Hi]. destruct (in_capital i) as [c|] eqn:Ec; [|done].
    cbn [ok_or result_bind]. destruct Hi as (Hok & Hown & Hres). apply Forall_app in Hown as [Hown Hown'].
    unfold cids in Hnd. rewrite fmap_app in Hnd. apply NoDup_app in Hnd as (Hnd & Hdis' & Hnd').
    pose proof (sink_all_cases all c (in_revision i) Hok Hown Hnd) as Hall.
    destruct (sink_all c (in_revision i) all) as [[c' rev']|e]; cbn [result_bind]; [|done].
    destruct Hall as [Hs ->].
    assert (Hcap' : ∀ i', in_capital i' = Some c' →
      in_rollback_ownership_latch i' = in_rollback_ownership_latch i → capital_inv i' rbs').
    { intros i' E1 E2. split; [exact Hnd'|]. rewrite E1, E2. pose proof Hs as (Hok' & _ & _ & Hidx).
      split_and!; [done| |].
      - rewrite Forall_forall in Hown' |- *. intros rb' Hin. eapply sunk_owned; [exact Hs| |by apply Hown'].
        intros Hin'. eapply Hdis'; [exact Hin'|]. apply list_elem_of_fmap. by exists rb'.
      - intros Hlatch id r Hr Hp. destruct (decide (id ∈ cids all)) as [Hin|Hno].
        + destruct (proj2 (Hidx id) Hin) as (? & r' & _ & Hr' & _ & Hp' & _). congruence.
        + rewrite (proj1 (Hidx id) Hno) in Hr. specialize (Hres Hlatch id r Hr Hp).
          unfold cids in Hres. rewrite fmap_app in Hres. by apply elem_of_app in Hres as [?|?]. }
    unfold commit_submit_sink_invocation. cbn -[set_evidence_free set_revision set_capital length].
    destruct oheld as [held|]; simpl in Hl |- *;
      (split_and!; [by apply Hcap'|by apply Hcnt'|done|done|done|done|done|exact Hl|exact Hs]).
Qed.

End CapitalFacts.
