(* ===== verification/SubmitAdmission.v ===== *)
(** * Submit admission: the operations

    Every operation of [BoltV3SubmitAdmissionState] and of its permit
    ([src/src/bolt_v3_submit_admission.rs]) that changes state, as code over
    [SubmitWorld]: each takes the mutex for its whole duration, so each is one atomic
    step (the suspension records its evidence before it takes it).  [evidence_io n] says whether the [n]-th record is appended; a record that is
    not leaves nothing in the log.  [reject_episode_max_count] is configuration.  A panic
    is [None].  The economics argument is the validity horizon of the quote, the one
    part of it that is judged here. *)

From Stdlib Require Import ZArith Lia.
From stdpp Require Import sorting strings gmap numbers list.
From S2P Require Import BTree NtTypes.
From S2P Require Import Prelude RustText DecimalAmount LossGovernor KillSwitch.
From S2P Require Import CapitalReservation CapitalAdmissionState CapitalAdmission ReservationRecovery.
From S2P Require Import SubmitAdmissionState SubmitCapital.

Open Scope Z_scope.

(** ** Evaluations *)

Definition evaluation_validate (e : BoltV3SubmitAdmissionEvaluation)
    : Result unit BoltV3SubmitAdmissionError :=
  let has_loss_context := negb (is_empty (eval_loss_halt_reasons e)) in
  let has_capital_context := is_some (eval_capital_admission_rejection e) in
  let has_admitted_context :=
    is_some (eval_rollback e) || is_some (eval_reservation_attribution e) in
  let contradictory := Err (ErrorInvariantViolation ContradictoryAdmissionDecisionContext) in
  match eval_outcome e with
  | OutcomeAdmitted => if negb has_loss_context && negb has_capital_context then Ok tt else contradictory
  | Rejected LossGovernorHalted =>
      if negb has_loss_context then Err (ErrorInvariantViolation MissingLossHaltReasons)
      else if negb has_capital_context && negb has_admitted_context then Ok tt
      else contradictory
  | Rejected CapitalAdmissionRejection =>
      if negb has_capital_context
      then Err (ErrorInvariantViolation MissingCapitalAdmissionRejectionReason)
      else if negb has_loss_context && negb has_admitted_context then Ok tt
      else contradictory
  | Rejected _ =>
      if negb has_loss_context && negb has_capital_context && negb has_admitted_context
      then Ok tt else contradictory
  end.

Definition without_loss_halt (outcome : AdmissionDecisionOutcome) (now_ns : Z)
    : BoltV3SubmitAdmissionEvaluation := mkEvaluation outcome now_ns [] None None None None.

Definition loss_halt (reasons : list LossHaltReason) (diagnostics : LossSnapshotDiagnostics)
    : BoltV3SubmitAdmissionEvaluation :=
  mkEvaluation (Rejected LossGovernorHalted) (diag_admission_now_ns diagnostics) reasons
    (Some diagnostics) None None None.

Definition capital_admission_rejected (reason : BoltV3CapitalAdmissionRejectReason) (now_ns : Z)
    : BoltV3SubmitAdmissionEvaluation :=
  mkEvaluation (Rejected CapitalAdmissionRejection) now_ns [] None (Some reason) None None.

Definition admitted_with_rollback (rollback : option BoltV3CapitalAdmissionReservationRollback)
    (attribution : option ReservationAttribution) (now_ns : Z) : BoltV3SubmitAdmissionEvaluation :=
  mkEvaluation OutcomeAdmitted now_ns [] None None rollback attribution.

Definition with_loss_snapshot_diagnostics (e : BoltV3SubmitAdmissionEvaluation)
    (diagnostics : option LossSnapshotDiagnostics) : BoltV3SubmitAdmissionEvaluation :=
  match diagnostics with
  | None => e
  | Some _ =>
      mkEvaluation (eval_outcome e) (eval_admission_now_ns e) (eval_loss_halt_reasons e) diagnostics
        (eval_capital_admission_rejection e) (eval_rollback e) (eval_reservation_attribution e)
  end.

Definition capital_admission_rejection_error (reason : option BoltV3CapitalAdmissionRejectReason)
    : BoltV3SubmitAdmissionError :=
  match reason with
  | Some reason => ErrorCapitalAdmissionRejected reason
  | None => ErrorInvariantViolation MissingCapitalAdmissionRejectionReason
  end.

Definition retired_forced_reduction_outcome_error : BoltV3SubmitAdmissionError :=
  ErrorInvariantViolation KillSwitchForcedReductionReachedNormalAdmission.

(** The error of a rejected evaluation, as [admit_at_inner] and [admission_result] match
    it; [None] when it is admitted. *)
Definition rejection_error (e : BoltV3SubmitAdmissionEvaluation) (kind : KillSwitchStateKind)
    : option BoltV3SubmitAdmissionError :=
  match eval_outcome e with
  | OutcomeAdmitted => None
  | Rejected KillSwitchLatched => Some (ErrorKillSwitchLatched kind)
  | Rejected LossGovernorHalted => Some (ErrorLossGovernorHalted (eval_loss_halt_reasons e))
  | Rejected NonPositiveNotional => Some ErrorNonPositiveNotional
  | Rejected NotionalCapExceeded => Some ErrorNotionalCapExceeded
  | Rejected ClientOrderAlreadyAuthorized => Some ErrorClientOrderAlreadyAuthorized
  | Rejected InvalidRiskReducingExitProof => Some ErrorInvalidRiskReducingExitProof
  | Rejected CountCapExhausted => Some ErrorCountCapExhausted
  | Rejected CapitalAdmissionRejection =>
      Some (capital_admission_rejection_error (eval_capital_admission_rejection e))
  | Rejected KillSwitchForcedReductionProofInvalid
  | Rejected KillSwitchForcedReductionCapExceeded => Some retired_forced_reduction_outcome_error
  | Rejected EconomicsSealRejected => Some ErrorEconomicsSealRejected
  end.

Definition submit_admission_error_from_outcome (outcome : AdmissionDecisionOutcome)
    (kind : KillSwitchStateKind) : BoltV3SubmitAdmissionError :=
  match outcome with
  | OutcomeAdmitted => ErrorInvariantViolation ExpectedRejectedOutcome
  | Rejected KillSwitchLatched => ErrorKillSwitchLatched kind
  | Rejected LossGovernorHalted => ErrorInvariantViolation MissingLossHaltReasons
  | Rejected NonPositiveNotional => ErrorNonPositiveNotional
  | Rejected NotionalCapExceeded => ErrorNotionalCapExceeded
  | Rejected ClientOrderAlreadyAuthorized => ErrorClientOrderAlreadyAuthorized
  | Rejected InvalidRiskReducingExitProof => ErrorInvalidRiskReducingExitProof
  | Rejected CountCapExhausted => ErrorCountCapExhausted
  | Rejected CapitalAdmissionRejection => capital_admission_rejection_error None
  | Rejected KillSwitchForcedReductionProofInvalid
  | Rejected KillSwitchForcedReductionCapExceeded => retired_forced_reduction_outcome_error
  | Rejected EconomicsSealRejected => ErrorEconomicsSealRejected
  end.

Definition live_submit_count_cap_outcome (current claims max_order_count : Z)
    : AdmissionDecisionOutcome :=
  match u32_checked_add current claims with
  | Some total => if total <=? max_order_count then OutcomeAdmitted else Rejected CountCapExhausted
  | None => Rejected CountCapExhausted
  end.

Definition requires_evidence_free_non_reservation_tracking (a : RecordedAdmissionAuthority) : bool :=
  match a with RecordedRiskReducing false => true | _ => false end.

Definition into_submit_authority (a : RecordedAdmissionAuthority)
    : Result BoltV3SubmitEvidenceAuthority BoltV3SubmitAdmissionError :=
  match a with
  | RecordedCommittedEntry => Ok CommittedEntry
  | RecordedRiskReducing _ => Ok RiskReducingAuthority
  | NoExternalActionAuthority =>
      Err (ErrorInvariantViolation AdmittedSubmitMissingEvidenceAuthority)
  end.

(** [capability_health().allows_admission(now_ns)], with [None] for no economics. *)
Definition ensure_economics_available (economics : option Z) (now_ns : Z)
    : Result unit BoltV3SubmitAdmissionError :=
  match economics with
  | Some valid_until_ns =>
      if valid_until_ns <? now_ns then Err (ErrorEconomicsUnavailable valid_until_ns) else Ok tt
  | None => Ok tt
  end.

(** ** Episodes: sampled evidence of repeated refusals *)

(** [iter().min_by_key(first_ns)]: the first of the minima, by ascending key. *)
Definition oldest_episode (m : gmap text RejectEpisode) : option text :=
  fst <$> foldl (λ best entry,
    match best with
    | None => Some entry
    | Some b => if reject_first_ns entry.2 <? reject_first_ns b.2 then Some entry else best
    end) None (btree_iter m).

(** The loop runs at most once per entry: [fuel] is the map's size. *)
Fixpoint evict_oldest_episodes (fuel : nat) (m : gmap text RejectEpisode) (cap : nat)
    : gmap text RejectEpisode :=
  match fuel with
  | O => m
  | S fuel' =>
      if decide (cap < size m)%nat then
        match oldest_episode m with
        | None => m
        | Some key => evict_oldest_episodes fuel' (delete key m) cap
        end
      else m
  end.

Definition evict_oldest_episodes_over_cap (m : gmap text RejectEpisode) (cap : nat)
    : gmap text RejectEpisode := evict_oldest_episodes (size m) m cap.

Section Submit.
Context {D : Type} `{DecimalOps D} `{DecimalText D}.
Context (evidence_io : nat → bool) (reject_episode_max_count : nat).
Abbreviation Capital := (BoltV3SubmitCapitalAdmissionState D).
Abbreviation Inner := (BoltV3SubmitAdmissionInner D).
Abbreviation World := (SubmitWorld D).
Abbreviation Request := (BoltV3SubmitAdmissionRequest D).
Abbreviation Error := BoltV3SubmitAdmissionError.
Abbreviation Evaluation := BoltV3SubmitAdmissionEvaluation.

Definition get_inner : Rust World Inner := rust_get sw_inner.
Definition put_inner (i : Inner) : Rust World unit := rust_modify (λ w, set_inner w i).
Definition modify_inner (f : Inner → Inner) : Rust World unit :=
  rust_modify (λ w, set_inner w (f (sw_inner w))).

(** Append a record to the evidence log; was it appended? *)
Definition append (fact : EvidenceFact) : Rust World bool := λ w,
  let appended := evidence_io (sw_appends w) in
  Some (appended,
        mkSubmitWorld (sw_inner w) (sw_reject_episodes w) (S (sw_appends w))
          (if appended then sw_log w ++ [fact] else sw_log w)).

(** A record whose outcome is only logged. *)
Definition append_nonblocking (fact : EvidenceFact) : Rust World unit :=
  append fact ≫= λ _, mret tt.

(** ** Construction *)

Definition capital_new (config : BoltV3SubmitCapitalAdmissionConfig D) : Capital :=
  mkCapital (config_venue_id config) (config_account_id config) (config_product_kind config)
    (config_collateral_currency config) (config_capital_pool config) (config_policy config)
    None None None None gate_unreconciled 0 ∅ (0, 0) false.

Definition inner_new (limits : gmap text (BoltV3LiveSubmitApprovalLimits D))
    (loss_policy : option (LossGovernorPolicy D))
    (capital : option (BoltV3SubmitCapitalAdmissionConfig D)) : Inner :=
  mkInner KsArmed limits 0 ∅ None 0 ∅ no_recovery_facts loss_policy None unobserved freshness_empty ∅
    (capital_new <$> capital).

Definition submit_new (limits : gmap text (BoltV3LiveSubmitApprovalLimits D))
    (loss_policy : option (LossGovernorPolicy D))
    (capital : option (BoltV3SubmitCapitalAdmissionConfig D)) : World :=
  mkSubmitWorld (inner_new limits loss_policy capital) ∅ 0 [].

(** ** Evaluation of a request *)

Definition stale_loss_governor_halt_reason (policy : LossGovernorPolicy D)
    (snapshot : option (LossSnapshot D)) (now_ns : Z) : Result EvidenceStaleReason Error :=
  match snapshot with
  | None => Ok EvidenceMissingSnapshot
  | Some snapshot =>
      ok_or (loss_snapshot_stale_reason_to_evidence <$>
               loss_snapshot_stale_reason policy snapshot now_ns)
        (ErrorInvariantViolation MissingStaleLossReason)
  end.

Definition loss_halt_fact (policy : LossGovernorPolicy D) (snapshot : option (LossSnapshot D))
    (freshness : BoltV3LossFreshness) (reason : EvidenceStaleReason) (key : text)
    (retry_count elapsed now_ns : Z) : LossGovernorHaltFact :=
  let has {A} (figure : LossSnapshot D → option A) :=
    match snapshot with Some s => is_some (figure s) | None => false end in
  {| halt_snapshot_present := is_some snapshot;
     halt_snapshot_observed_at_ns := snapshot_observed_at_ns <$> snapshot;
     halt_admission_now_ns := now_ns;
     halt_snapshot_age_ns :=
       s ← snapshot;
       (if snapshot_observed_at_ns s <=? now_ns then Some (now_ns - snapshot_observed_at_ns s)
        else None);
     halt_max_snapshot_age_ns := policy_max_snapshot_age_ns policy;
     halt_snapshot_source := (s ← snapshot; snapshot_source s);
     halt_has_per_trade_pnl := has per_trade_pnl;
     halt_has_daily_pnl := has daily_pnl;
     halt_has_rolling_pnl := has rolling_pnl;
     halt_has_current_equity := has current_equity;
     halt_has_peak_equity := has peak_equity;
     halt_freshness := freshness;
     halt_stale_reason := reason;
     halt_stable_key := key;
     halt_retry_count := retry_count;
     halt_elapsed_since_first_ns := elapsed |}.

Definition record_stale_loss_governor_halt (policy : LossGovernorPolicy D) (now_ns : Z)
    : Rust World (Result unit Error) :=
  i ← get_inner;
  let snapshot := in_loss_snapshot i in
  reason ←! mret (stale_loss_governor_halt_reason policy snapshot now_ns);
  let source_for_key :=
    match (s ← snapshot; snapshot_source s) with
    | Some source => lit (source_as_str source)
    | None => lit "none"
    end in
  let key := stale_loss_reason_key reason ++ lit ":" ++ source_for_key in
  let '(episode, elapsed) :=
    match in_loss_halt_episodes i !! key with
    | Some episode =>
        (mkHaltEpisode (u32_saturating_add (halt_count episode) 1) (first_halt_ns episode),
         u64_saturating_sub now_ns (first_halt_ns episode))
    | None => (mkHaltEpisode 1 now_ns, 0)
    end in
  put_inner (set_loss_halt_episodes i (<[key := episode]> (in_loss_halt_episodes i))) ;;
  if is_power_of_two (halt_count episode) then
    append_nonblocking (LossGovernorHalt
      (loss_halt_fact policy snapshot (in_loss_freshness i) reason key (halt_count episode) elapsed
         now_ns)) ;;
    mret (Ok tt)
  else mret (Ok tt).

(** The loss gate of an entry: the diagnostics to attach, or the refusal. *)
Inductive LossVerdict : Type :=
| LossClear (diagnostics : option LossSnapshotDiagnostics)
| LossRefused (evaluation : Evaluation).

Definition evaluate_loss (request : Request) (now_ns : Z) : Rust World (Result LossVerdict Error) :=
  i ← get_inner;
  match in_loss_policy i, req_intent_kind request with
  | Some policy, Entry =>
      decision ← lift_panic (evaluate_loss_admission_with_observations policy (in_loss_snapshot i)
                               now_ns (in_loss_source_observations i));
      if loss_accepted decision then
        modify_inner (λ i, set_loss_halt_episodes i ∅) ;;
        mret (Ok (LossClear (Some (loss_diagnostics decision))))
      else
        (if bool_decide (StaleLossSnapshot ∈ halt_reasons decision)
         then record_stale_loss_governor_halt policy now_ns
         else mret (Ok tt)) ;;!
        mret (Ok (LossRefused (loss_halt (halt_reasons decision) (loss_diagnostics decision))))
  | _, _ => mret (Ok (LossClear None))
  end.

(** The gates on the request alone: notional, approval limits, the proof of an exit. *)
Definition request_refusal (i : Inner) (request : Request) : option AdmissionRejectionReason :=
  if d_leb (req_notional request) d_zero then Some NonPositiveNotional
  else
    let capped :=
      match in_live_submit_approval_limits i !! req_execution_client_id request with
      | Some limits =>
          if d_gtb (req_notional request) (limits_max_order_notional limits)
          then Some NotionalCapExceeded
          else if decide (live_submit_count_cap_outcome
                            (client_count i (req_execution_client_id request)) 1
                            (limits_max_order_count limits) = Rejected CountCapExhausted)
          then Some CountCapExhausted
          else None
      | None => None
      end in
    match capped with
    | Some reason => Some reason
    | None =>
        match req_intent_kind request, req_risk_reducing_exit_proof request with
        | Entry, _ => None
        | RiskReducingExit, None => Some InvalidRiskReducingExitProof
        | RiskReducingExit, Some proof =>
            if is_valid_for_shape proof (req_instrument_id request) (req_order_side request)
                 (req_order_quantity request)
            then None else Some InvalidRiskReducingExitProof
        end
    end.

Definition submit_evaluate (request : Request) (now_ns : Z)
    : Rust World (Result Evaluation Error) :=
  i ← get_inner;
  match in_rollback_ownership_latch i with
  | Some invariant => mret (Err (ErrorInvariantViolation invariant))
  | None =>
      if authorizes_order (in_authority i) (req_client_order_id request)
         || is_some (in_evidence_free i !! req_client_order_id request)
      then mret (Ok (without_loss_halt (Rejected ClientOrderAlreadyAuthorized) now_ns))
      else if negb (bool_decide (state_kind (in_kill_switch_state i) = KindArmed))
      then mret (Ok (without_loss_halt (Rejected KillSwitchLatched) now_ns))
      else
        verdict ←! evaluate_loss request now_ns;
        match verdict with
        | LossRefused evaluation => mret (Ok evaluation)
        | LossClear diagnostics =>
            let finish e := mret (Ok (with_loss_snapshot_diagnostics e diagnostics)) in
            i ← get_inner;
            match request_refusal i request with
            | Some reason => finish (without_loss_halt (Rejected reason) now_ns)
            | None =>
                match in_capital i with
                | None => finish (without_loss_halt OutcomeAdmitted now_ns)
                | Some _ =>
                    '(decision, i') ← lift_panic (evaluate_capital_admission_submit i request now_ns);
                    put_inner i' ;;
                    match decision with
                    | CapitalRejected reason => finish (capital_admission_rejected reason now_ns)
                    | CapitalAccepted a =>
                        finish (admitted_with_rollback (acceptance_rollback a)
                                  (acceptance_attribution a) now_ns)
                    | CapitalInvariant invariant =>
                        mret (Err (ErrorInvariantViolation invariant))
                    end
                end
            end
        end
  end.

(** ** Recording a decision *)

Definition admission_details (request : Request) (e : Evaluation) : AdmissionDetails :=
  let d := eval_loss_snapshot_diagnostics e in
  let flag (f : LossSnapshotDiagnostics → bool) := match d with Some d => f d | None => false end in
  let field {A} (f : LossSnapshotDiagnostics → option A) : option A := d ≫= f in
  {| details_strategy_id := req_strategy_id request;
     details_execution_client_id := req_execution_client_id request;
     details_client_order_id := req_client_order_id request;
     details_instrument_id := req_instrument_id request;
     details_notional := d_to_string (req_notional request);
     details_loss_halt_reasons := loss_halt_reason_to_evidence <$> eval_loss_halt_reasons e;
     details_snapshot_present := flag diag_snapshot_present;
     details_snapshot_observed_at_ns := field diag_snapshot_observed_at_ns;
     details_admission_now_ns :=
       match d with Some d => diag_admission_now_ns d | None => eval_admission_now_ns e end;
     details_snapshot_age_ns := field diag_snapshot_age_ns;
     details_max_snapshot_age_ns := field diag_max_snapshot_age_ns;
     details_snapshot_source := field diag_snapshot_source;
     details_per_trade_pnl_present := flag diag_per_trade_pnl_present;
     details_daily_pnl_present := flag diag_daily_pnl_present;
     details_rolling_pnl_present := flag diag_rolling_pnl_present;
     details_current_equity_present := flag diag_current_equity_present;
     details_peak_equity_present := flag diag_peak_equity_present;
     details_last_account_state_observed_at_ns := field diag_last_account_state_observed_at_ns;
     details_last_portfolio_snapshot_observed_at_ns :=
       field diag_last_portfolio_snapshot_observed_at_ns;
     details_last_position_event_observed_at_ns := field diag_last_position_event_observed_at_ns;
     details_stale_reason := loss_snapshot_stale_reason_to_evidence <$> field diag_stale_reason;
     details_loss_snapshot_observed_at_ns := field diag_snapshot_observed_at_ns;
     details_loss_eval_now_ns := diag_admission_now_ns <$> d |}.

Definition request_evidence_side (s : OrderSide) : EvidenceOrderSide :=
  match s with
  | NoOrderSide => EvidenceUnspecified
  | OrderBuy => EvidenceBuy
  | OrderSell => EvidenceSell
  end.

Definition record_submit_admission_order_reject (request : Request) (e : Evaluation) (now_ns : Z)
    : Rust World unit :=
  episodes ← rust_get sw_reject_episodes;
  let key := req_instrument_id request ++ lit "/" ++
             submit_admission_order_side_key (req_order_side request) ++ lit "/" ++
             admission_outcome_key (eval_outcome e) in
  let episode := default (mkRejectEpisode 0 now_ns []) (episodes !! key) in
  let prior := if 0 <? reject_count episode then Some (last_client_order_id episode) else None in
  let count := u32_saturating_add (reject_count episode) 1 in
  let episode' := mkRejectEpisode count (reject_first_ns episode) (req_client_order_id request) in
  rust_modify (λ w, set_reject_episodes w
    (evict_oldest_episodes_over_cap (<[key := episode']> episodes) reject_episode_max_count)) ;;
  if is_power_of_two count then
    append_nonblocking (OrderRejected
      {| reject_admission_outcome := Some (eval_outcome e);
         reject_instrument_id := req_instrument_id request;
         reject_order_side := Some (request_evidence_side (req_order_side request));
         reject_raw_quantity := Some (d_to_string (req_order_quantity request));
         reject_prior_client_order_id := prior;
         reject_client_order_id := req_client_order_id request;
         reject_retry_count := count;
         reject_stable_episode_key := key;
         reject_elapsed_ns := u64_saturating_sub now_ns (reject_first_ns episode) |})
  else mret tt.

(** Append an authority-bearing fact; the index moves only with the record. *)
Definition commit_recovery_event (event : ReservationRecoveryEvent)
    (next : ReservationRecoveryFacts) : Rust World bool :=
  appended ← append (RecoveryFact event);
  (if (appended : bool) then modify_inner (λ i, set_authority i next) else mret tt) ;;
  mret appended.

(** The record of the decision itself; the error is an [anyhow] error. *)
Definition record_decision_fact (request : Request) (e : Evaluation)
    : Rust World (Result RecordedAdmissionAuthority unit) :=
  i ← get_inner;
  let details := admission_details request e in
  match req_intent_kind request, eval_outcome e with
  | Entry, OutcomeAdmitted =>
      let event := AdmittedEntry (mkAdmittedEntry details (eval_reservation_attribution e)) in
      match recovery_apply (D := D) (in_authority i) event with
      | Err _ => mret (Err tt)
      | Ok next =>
          appended ← commit_recovery_event event next;
          mret (if (appended : bool) then Ok RecordedCommittedEntry else Err tt)
      end
  | Entry, Rejected reason =>
      append_nonblocking (RejectedEntryFact (mkRejectedEntry details reason)) ;;
      mret (Ok NoExternalActionAuthority)
  | RiskReducingExit, outcome =>
      let event := RiskReducingExitEvent (mkExitAdmission details outcome) in
      match outcome with
      | OutcomeAdmitted =>
          match recovery_apply (D := D) (in_authority i) event with
          | Err _ => mret (Err tt)
          | Ok next =>
              appended ← commit_recovery_event event next;
              mret (Ok (RecordedRiskReducing appended))
          end
      | Rejected _ =>
          appended ← append (RecoveryFact event);
          mret (Ok (RecordedRiskReducing appended))
      end
  end.

Definition record_admission_decision (request : Request) (e : Evaluation) (now_ns : Z)
    : Rust World (Result RecordedAdmissionAuthority unit) :=
  match evaluation_validate e with
  | Err _ => mret (Err tt)
  | Ok _ =>
      authority ←! record_decision_fact request e;
      (match eval_outcome e with
       | OutcomeAdmitted => rust_modify (λ w, set_reject_episodes w ∅)
       | Rejected LossGovernorHalted => mret tt
       | Rejected _ => record_submit_admission_order_reject request e now_ns
       end) ;;
      mret (Ok authority)
  end.

(** ** Admission of one order *)

Definition admit_permit (request : Request) (e : Evaluation) (values : BoltV3SubmitAdmissionCounterValues)
    (recorded : RecordedAdmissionAuthority) (authority : BoltV3SubmitEvidenceAuthority)
    : Rust World BoltV3SubmitAdmissionPermit :=
  let client := req_execution_client_id request in
  let id := req_client_order_id request in
  modify_inner (λ i, set_counts i (values_admitted_order_count values)
    (<[client := values_execution_client_order_count values]>
       (in_admitted_order_count_by_execution_client i))) ;;
  let tracked :=
    is_none (eval_reservation_attribution e)
    && requires_evidence_free_non_reservation_tracking recorded in
  (if tracked
   then modify_inner (λ i, set_evidence_free i (<[id := PermitHeld]> (in_evidence_free i)))
   else mret tt) ;;
  mret (mkPermit (option_list (eval_rollback e))
          (Some (mkCounterRollback client 1 (if tracked then [id] else []))) (Some authority) false).

Definition admit_at_inner (request : Request) (economics : option Z) (now_ns : Z)
    : Rust World (Result BoltV3SubmitAdmissionPermit Error) :=
  mret (ensure_economics_available economics now_ns) ;;!
  e ←! submit_evaluate request now_ns;
  let roll_back := modify_inner (λ i, rollback_capital_admission_reservation i (eval_rollback e)) in
  match evaluation_validate e with
  | Err error => roll_back ;; mret (Err error)
  | Ok _ =>
      i ← get_inner;
      match eval_outcome e with
      | OutcomeAdmitted =>
          match checked_admission_counter_values (in_admitted_order_count i)
                  (client_count i (req_execution_client_id request)) 1 with
          | Err error =>
              roll_back ;;
              let e' :=
                with_loss_snapshot_diagnostics
                  (without_loss_halt (Rejected CountCapExhausted) (eval_admission_now_ns e))
                  (eval_loss_snapshot_diagnostics e) in
              r ← record_admission_decision request e' now_ns;
              mret (match r with Err _ => Err ErrorEvidenceWriteFailed | Ok _ => Err error end)
          | Ok values =>
              r ← record_admission_decision request e now_ns;
              match r with
              | Err _ => roll_back ;; mret (Err ErrorEvidenceWriteFailed)
              | Ok recorded =>
                  match into_submit_authority recorded with
                  | Err error => roll_back ;; mret (Err error)
                  | Ok authority =>
                      permit ← admit_permit request e values recorded authority;
                      mret (Ok permit)
                  end
              end
          end
      | Rejected _ =>
          r ← record_admission_decision request e now_ns;
          match r with
          | Err _ => roll_back ;; mret (Err ErrorEvidenceWriteFailed)
          | Ok _ =>
              i ← get_inner;
              mret (Err (default (ErrorInvariantViolation MissingAdmittedCounterUpdate)
                           (rejection_error e (state_kind (in_kill_switch_state i)))))
          end
      end
  end.

Definition admission_result (i : Inner) (e : Evaluation) : Result unit Error :=
  evaluation_validate e ;;?
  match rejection_error e (state_kind (in_kill_switch_state i)) with
  | None => Ok tt
  | Some error => Err error
  end.

Definition evaluate_and_record_without_consuming_capacity_at (request : Request)
    (economics : option Z) (now_ns : Z) : Rust World (Result unit Error) :=
  mret (ensure_economics_available economics now_ns) ;;!
  e ←! submit_evaluate request now_ns;
  let roll_back := modify_inner (λ i, rollback_capital_admission_reservation i (eval_rollback e)) in
  match evaluation_validate e with
  | Err error => roll_back ;; mret (Err error)
  | Ok _ =>
      r ← record_admission_decision request e now_ns;
      roll_back ;;
      match r with
      | Err _ => mret (Err ErrorEvidenceWriteFailed)
      | Ok _ => i ← get_inner; mret (admission_result i e)
      end
  end.

(** ** Admission of a basket *)

Definition basket_submit_request (strategy client : text) (claim : BoltV3BasketSubmitSlotClaim D)
    : Request :=
  {| req_strategy_id := strategy;
     req_execution_client_id := client;
     req_client_order_id := claim_client_order_id claim;
     req_instrument_id := claim_instrument_id claim;
     req_notional := claim_notional claim;
     req_order_side := claim_order_side claim;
     req_order_quantity := claim_order_quantity claim;
     req_intent_kind := claim_intent_kind claim;
     req_risk_reducing_exit_proof := claim_risk_reducing_exit_proof claim;
     req_admission_evidence := claim_admission_evidence claim |}.

Definition checked_basket_claim_count (claims : nat) : Result Z Error :=
  if Z.of_nat claims <=? u32_max then Ok (Z.of_nat claims) else Err ErrorCountCapExhausted.

Definition basket_intent_kind (k : BoltV3SubmitIntentKind) : BasketAdmissionIntentKind :=
  match k with Entry => BasketEntry | RiskReducingExit => BasketRiskReducingExit end.

(** The loop over the claims: the rollbacks and legs admitted so far, and the evaluation
    that was refused, if one was. *)
Fixpoint evaluate_claims (strategy client : text) (now_ns : Z)
    (rollbacks : list BoltV3CapitalAdmissionReservationRollback) (legs : list BasketAdmittedLeg)
    (claims : list (BoltV3BasketSubmitSlotClaim D))
    : Rust World (Result (list BoltV3CapitalAdmissionReservationRollback * list BasketAdmittedLeg *
                          option Evaluation) Error) :=
  match claims with
  | [] => mret (Ok (rollbacks, legs, None))
  | claim :: claims' =>
      r ← submit_evaluate (basket_submit_request strategy client claim) now_ns;
      match r with
      | Err error =>
          modify_inner (λ i, rollback_capital_admission_reservations i rollbacks) ;;
          mret (Err error)
      | Ok e =>
          match evaluation_validate e with
          | Err error =>
              modify_inner (λ i, rollback_capital_admission_reservations i
                                   (rollbacks ++ option_list (eval_rollback e))) ;;
              mret (Err error)
          | Ok _ =>
              match eval_outcome e with
              | Rejected _ => mret (Ok (rollbacks, legs, Some e))
              | OutcomeAdmitted =>
                  evaluate_claims strategy client now_ns
                    (rollbacks ++ option_list (eval_rollback e))
                    (legs ++ [mkLeg (claim_client_order_id claim) (claim_instrument_id claim)
                                (basket_intent_kind (claim_intent_kind claim))
                                (eval_reservation_attribution e)])
                    claims'
              end
          end
      end
  end.

(** The cap on the whole basket, once every claim is admitted. *)
Definition basket_cap_outcome (i : Inner) (client : text) (claim_count : Z)
    : AdmissionDecisionOutcome :=
  match in_live_submit_approval_limits i !! client with
  | Some limits =>
      live_submit_count_cap_outcome (client_count i client) claim_count
        (limits_max_order_count limits)
  | None => OutcomeAdmitted
  end.

Definition insert_held (held : gmap text BoltV3EvidenceFreeNonReservationPhase) (ids : list text)
    : gmap text BoltV3EvidenceFreeNonReservationPhase :=
  foldl (λ held id, <[id := PermitHeld]> held) held ids.

(** From the admitted legs on: counters, the grant's record, the permit. *)
Definition grant_basket (client : text) (details : BasketAdmissionDetails) (claim_count : Z)
    (rollbacks : list BoltV3CapitalAdmissionReservationRollback) (legs : list BasketAdmittedLeg)
    : Rust World (Result BoltV3SubmitAdmissionPermit Error) :=
  let roll_back := modify_inner (λ i, rollback_capital_admission_reservations i rollbacks) in
  i ← get_inner;
  match checked_admission_counter_values (in_admitted_order_count i) (client_count i client)
          claim_count with
  | Err error => roll_back ;; mret (Err error)
  | Ok values =>
      let pure_risk_reducing :=
        forallb (λ leg, match leg_intent_kind leg with
                        | BasketRiskReducingExit => true | BasketEntry => false end) legs in
      let event := BasketGranted (mkBasketGranted details legs) in
      match recovery_apply (D := D) (in_authority i) event with
      | Err _ => roll_back ;; mret (Err ErrorClientOrderAlreadyAuthorized)
      | Ok next =>
          committed ← commit_recovery_event event next;
          if (committed : bool) || pure_risk_reducing then
            modify_inner (λ i, set_counts i (values_admitted_order_count values)
              (<[client := values_execution_client_order_count values]>
                 (in_admitted_order_count_by_execution_client i))) ;;
            let ids := if (committed : bool) then [] else leg_client_order_id <$> legs in
            modify_inner (λ i, set_evidence_free i (insert_held (in_evidence_free i) ids)) ;;
            mret (Ok (mkPermit rollbacks (Some (mkCounterRollback client claim_count ids))
                        (Some (if (committed : bool) then CommittedBasket else RiskReducingAuthority))
                        false))
          else roll_back ;; mret (Err ErrorEvidenceWriteFailed)
      end
  end.

(** [clock] is the reading of [current_unix_ns]; the grant is recorded in the same log. *)
Definition reserve_basket_submit_slots_with_evidence (client : text)
    (claims : list (BoltV3BasketSubmitSlotClaim D)) (details : BasketAdmissionDetails)
    (clock : Result Z text) : Rust World (Result BoltV3SubmitAdmissionPermit Error) :=
  match clock with
  | Err reason => mret (Err (ErrorSystemClock reason))
  | Ok now_ns =>
      claim_count ←! mret (checked_basket_claim_count (length claims));
      evaluated ←! evaluate_claims (basket_strategy_id details) client now_ns [] [] claims;
      let '(rollbacks, legs, refused) := evaluated in
      i ← get_inner;
      let outcome :=
        match refused with
        | Some e => eval_outcome e
        | None =>
            match claims with
            | [] => Rejected NonPositiveNotional
            | _ :: _ => basket_cap_outcome i client claim_count
            end
        end in
      match outcome with
      | OutcomeAdmitted => grant_basket client details claim_count rollbacks legs
      | Rejected _ =>
          modify_inner (λ i, rollback_capital_admission_reservations i rollbacks) ;;
          i ← get_inner;
          (match refused with
           | Some e => mret (admission_result i e)
           | None => mret (Ok tt)
           end) ;;!
          mret (Err (submit_admission_error_from_outcome outcome
                       (state_kind (in_kill_switch_state i))))
      end
  end.

(** ** The permit *)

(** [prepare_sink_invocation] holds the lock until the guard is dropped: the sink is
    called in between, and [crossed] says whether [commit] was then called. *)
Definition sink_invocation (permit : BoltV3SubmitAdmissionPermit) (crossed : bool)
    : Rust World (Result BoltV3SubmitAdmissionPermit ReservationRejectionReason) :=
  i ← get_inner;
  match prepare_submit_sink_invocation i (permit_rollbacks permit)
          (permit_counter_rollback permit) with
  | Err reason => mret (Err reason)
  | Ok prepared =>
      match permit_evidence_authority permit with
      | None => mret (Err ReconciliationRequired)
      | Some authority =>
          if crossed then
            put_inner (commit_submit_sink_invocation i prepared) ;;
            mret (Ok (mkPermit (permit_rollbacks permit) (permit_counter_rollback permit) None true))
          else
            mret (Ok (mkPermit (permit_rollbacks permit) (permit_counter_rollback permit)
                        (Some authority) (permit_committed permit)))
      end
  end.

(** [expect] on the preparation. *)
Definition commit_submitted (permit : BoltV3SubmitAdmissionPermit)
    : Rust World BoltV3SubmitAdmissionPermit :=
  r ← sink_invocation permit true;
  match r with Ok permit => mret permit | Err _ => panic end.

(** [Drop]. *)
Definition permit_drop (permit : BoltV3SubmitAdmissionPermit) : Rust World unit :=
  if permit_committed permit then mret tt
  else modify_inner (λ i, rollback_unsubmitted_permit i (permit_rollbacks permit)
                            (permit_counter_rollback permit)).

(** ** Rebuilding from the node's open orders *)

Definition capital_admission_rebuild_outcome (decision : BoltV3SubmitCapitalAdmissionRebuildDecision D)
    : Result CapitalAdmissionRebuildOutcome Error :=
  match submit_rebuild_accepted decision, submit_rebuild_reason decision with
  | true, None => Ok RebuildAccepted
  | false, Some reason => Ok (RebuildRejected reason)
  | false, None => Err (ErrorInvariantViolation MissingCapitalAdmissionRebuildRejectionReason)
  | true, Some _ => Err (ErrorInvariantViolation AcceptedCapitalAdmissionRebuildHasRejectionReason)
  end.

Definition record_capital_admission_rebuild
    (context : BoltV3SubmitCapitalAdmissionRebuildAuditContext)
    (decision : BoltV3SubmitCapitalAdmissionRebuildDecision D) : Rust World (Result bool Error) :=
  outcome ←! mret (capital_admission_rebuild_outcome decision);
  appended ← append (CapitalAdmissionRebuild
    {| rebuild_fact_context := context;
       rebuild_fact_outcome := outcome;
       rebuild_fact_attempted := submit_rebuild_attempted decision;
       rebuild_fact_recovered := submit_rebuild_rebuilt decision;
       rebuild_fact_live_reserved_liability := d_to_string (submit_rebuild_live_reserved decision) |});
  mret (Ok appended).

Definition capital_live_reserved (c : Capital) : D :=
  gate_live_reserved_liability (cap_gate c) (pool_id (cap_pool c)).

(** [inner.capital_admission.as_ref().map(..).unwrap_or(Decimal::ZERO)]. *)
Definition inner_live_reserved (i : Inner) : D :=
  match in_capital i with Some c => capital_live_reserved c | None => d_zero end.

Definition invalidate_capital_admission_rebuild (i : Inner)
    (context : BoltV3SubmitCapitalAdmissionRebuildAuditContext) (failure_revision : Z) : Inner :=
  let i :=
    match in_capital i with
    | Some c =>
        set_capital i (Some (refresh_capital_admission_reservation_snapshot_with_source
          (invalidate_gate c) (audit_observed_at_ns context)
          (rebuild_source_as_str (audit_source context)) false))
    | None => i
    end in
  set_revision i failure_revision.

Definition finish_capital_admission_rebuild
    (context : BoltV3SubmitCapitalAdmissionRebuildAuditContext) (failure_revision : Z)
    (decision : BoltV3SubmitCapitalAdmissionRebuildDecision D)
    : Rust World (Result (BoltV3SubmitCapitalAdmissionRebuildDecision D) Error) :=
  modify_inner (λ i, invalidate_capital_admission_rebuild i context failure_revision) ;;
  recorded ←! record_capital_admission_rebuild context decision;
  if (recorded : bool) then mret (Ok decision)
  else
    i ← get_inner;
    mret (Ok (mkSubmitRebuild false (Some MissingEvidence) (submit_rebuild_attempted decision) 0
                (inner_live_reserved i))).

Definition rebuilt_open_order_reservation_attribution_valid
    (r : BoltV3SubmitCapitalAdmissionOpenOrderReservation D) : bool :=
  let a := open_attribution r in
  if negb (bool_decide (open_client_order_id r = attr_client_order_id a))
     || negb (bool_decide (open_submit_reservation_id r = attr_submit_reservation_id a))
     || negb (bool_decide (open_collateral_group_id r = attr_collateral_group_id a))
     || negb (bool_decide (open_instrument_id r = attr_instrument_id a))
     || negb (bool_decide (evidence_order_side (open_side r) = attr_side a))
     || blank (open_instrument_id r)
     || d_leb (open_open_quantity r) d_zero
     || d_leb (open_original_quantity r) d_zero
     || d_ltb (open_filled_quantity r) d_zero
     || d_gtb (open_filled_quantity r) (open_original_quantity r)
     || d_gtb (open_open_quantity r) (open_original_quantity r)
     || d_ltb (open_liability_factor r) d_zero
     || d_gtb (open_liability_factor r) d_one
     || d_ltb (open_additive_liability r) d_zero
  then false
  else if negb (opt_d_eqb (d_checked_sub (open_original_quantity r) (open_filled_quantity r))
                  (Some (open_open_quantity r)))
  then false
  else opt_d_eqb (checked_lifecycle_liability (open_open_quantity r) (open_liability_factor r)
                    (open_additive_liability r)) (Some (open_liability r)).

(** The index and the reservation evidence built so far. *)
Definition RebuildAccumulator : Type :=
  gmap text BoltV3SubmitReservationRecord * list (CapitalAdmissionReservationEvidence D).

(** The loop over the snapshot, from position [index]: the error carries the reason and
    the number of reservations attempted. *)
Fixpoint rebuild_snapshot (pool : text) (retained : gmap text BoltV3SubmitReservationRecord)
    (revision index : Z) (acc : RebuildAccumulator)
    (reservations : list (BoltV3SubmitCapitalAdmissionOpenOrderReservation D))
    : Result RebuildAccumulator (ReservationRejectionReason * Z) :=
  match reservations with
  | [] => Ok acc
  | r :: reservations' =>
      ensure (negb (is_some (acc.1 !! open_client_order_id r)))
        (DuplicateReservation, index + 1) ;;?
      ensure (rebuilt_open_order_reservation_attribution_valid r) (MissingEvidence, index + 1) ;;?
      ensure (match retained !! open_client_order_id r with
              | Some record =>
                  negb (bool_decide (rec_phase record = Reserved)
                        || negb (bool_decide (rec_attribution record = open_attribution r)))
              | None => true
              end) (MissingEvidence, index + 1) ;;?
      rebuild_snapshot pool retained revision (index + 1)
        (<[open_client_order_id r :=
             mkRecord (open_attribution r) ObservedOpen revision false
               (Some (mkFillMetadata (open_instrument_id r) (open_side r)))]> acc.1,
         acc.2 ++ [NtOpenOrder
           {| request_id := open_submit_reservation_id r;
              request_pool_id := pool;
              request_collateral_group_id := open_collateral_group_id r;
              request_liability := open_liability r;
              request_observed_at_ns := open_observed_at_ns r;
              request_evidence_label := open_evidence_label r |}])
        reservations'
  end.

(** The loop over the index as it was: what the snapshot does not show is carried over,
    unless it has not reached the sink; [None] is the refusal. *)
Fixpoint rebuild_retained (g : CapitalAdmissionGate D) (acc : RebuildAccumulator)
    (records : list (text * BoltV3SubmitReservationRecord)) : option RebuildAccumulator :=
  match records with
  | [] => Some acc
  | (id, record) :: records' =>
      if is_some (acc.1 !! id) then rebuild_retained g acc records'
      else
        match rec_phase record with
        | Reserved => None
        | SinkInvoked | ObservedOpen =>
            let a := rec_attribution record in
            match gate_retained_reservation g (attr_capital_pool_id a) (attr_collateral_group_id a)
                    (attr_submit_reservation_id a) with
            | Err _ => None
            | Ok retained =>
                rebuild_retained g
                  (<[id := mkRecord a (rec_phase record) (rec_phase_revision record) true
                             (rec_fill_metadata record)]> acc.1,
                   acc.2 ++ [RetainedLifecycleReservation retained])
                  records'
            end
        end
  end.

(** What the candidate comes to before anything is recorded. *)
Inductive RebuildPlan : Type :=
| PlanRejected (decision : BoltV3SubmitCapitalAdmissionRebuildDecision D) (unresolved : Z * Z)
| PlanInvariant (invariant : BoltV3SubmitAdmissionInvariant) (unresolved : Z * Z)
| PlanAccepted (decision : BoltV3SubmitCapitalAdmissionRebuildDecision D) (candidate : Capital).

(** The candidate with the node's components applied. *)
Definition rebuild_with_components (c : Capital)
    (components : option (BoltV3SubmitCapitalAdmissionNtComponents D))
    (accepted_allowance_observed_at_ns : option Z) : Capital :=
  match components with
  | None => c
  | Some components =>
      let c :=
        match cap_capture_failure_observed_at_ns c, accepted_allowance_observed_at_ns with
        | Some failed, Some accepted => if failed <? accepted then set_capture_failure c None None else c
        | _, _ => c
        end in
      let l := comp_order_lifecycle components in
      refresh_capital_admission_state_from_components c
        {| comp_source := comp_source components;
           comp_observed_at_ns := comp_observed_at_ns components;
           comp_portfolio := comp_portfolio components;
           comp_provider_collateral_allowance := comp_provider_collateral_allowance components;
           comp_order_lifecycle :=
             mkOrderLifecycle (lifecycle_source l) (lifecycle_observed_at_ns l) (open_order_count l)
               false;
           comp_product_state := comp_product_state components;
           comp_loss_snapshot := comp_loss_snapshot components |}
  end.

(** The index and evidence, then the gate. *)
Definition rebuild_candidate_gate (c : Capital) (state : NtDerivedCapitalAdmissionState D)
    (snapshot : BoltV3SubmitCapitalAdmissionOpenOrderSnapshot D) (now_ns revision : Z) : RebuildPlan :=
  let c := set_pool_evidence c (portfolio_source (portfolio state))
             (portfolio_observed_at_ns (portfolio state)) in
  let rejected reason attempted :=
    PlanRejected (mkSubmitRebuild false (Some reason) attempted 0 (capital_live_reserved c)) (0, 0) in
  let retained := cap_index c in
  match rebuild_snapshot (pool_id (cap_pool c)) retained revision 0 (∅, [])
          (snap_reservations snapshot) with
  | Err (reason, attempted) => rejected reason attempted
  | Ok acc =>
      match rebuild_retained (cap_gate c) acc (btree_iter retained) with
      | None => rejected MissingEvidence (snap_observed_open_order_count snapshot)
      | Some (index, requests) =>
          let unresolved := unresolved_reservation_counts index in
          let c := set_unresolved c unresolved in
          match rebuild_open_order_reservations (cap_gate c) (cap_pool c) requests now_ns
                  (min_remaining_pool_balance (cap_policy c)) with
          | (Err invariant, _) =>
              PlanInvariant (InvalidCapitalAdmissionRebuildReservationDecision invariant) unresolved
          | (Ok d, gate) =>
              let decision :=
                mkSubmitRebuild (rebuild_accepted d) (rebuild_reason d)
                  (attempted_reservation_count d) (rebuilt_reservation_count d)
                  (rebuild_live_reserved_liability d) in
              if rebuild_accepted d then
                let c := set_index (set_gate c gate) index in
                let lifecycle :=
                  mkOrderLifecycle (rebuild_source_as_str (snap_evidence_source snapshot))
                    (snap_observed_at_ns snapshot) (snap_observed_open_order_count snapshot)
                    (snap_all_open_orders_attributed snapshot) in
                let c :=
                  set_cap_state c ((λ state, apply_rebuild_order_lifecycle state lifecycle) <$>
                                     cap_state c) in
                PlanAccepted decision (refresh_capital_admission_reservation_snapshot c now_ns)
              else PlanRejected decision unresolved
          end
      end
  end.

Definition plan_rebuild (c : Capital) (snapshot : BoltV3SubmitCapitalAdmissionOpenOrderSnapshot D)
    (now_ns revision : Z) (components : option (BoltV3SubmitCapitalAdmissionNtComponents D))
    (accepted_allowance_observed_at_ns : option Z) : RebuildPlan :=
  let c := rebuild_with_components c components accepted_allowance_observed_at_ns in
  let missing :=
    PlanRejected (mkSubmitRebuild false (Some MissingEvidence)
                    (snap_observed_open_order_count snapshot) 0 (capital_live_reserved c)) (0, 0) in
  if cap_fill_evidence_integrity_failed c then missing
  else if negb (snap_all_open_orders_attributed snapshot) then missing
  else
    match cap_state c with
    | None => missing
    | Some state => rebuild_candidate_gate c state snapshot now_ns revision
    end.

Definition audit_context (snapshot : BoltV3SubmitCapitalAdmissionOpenOrderSnapshot D)
    (unresolved : Z * Z) : BoltV3SubmitCapitalAdmissionRebuildAuditContext :=
  mkAuditContext (snap_observed_at_ns snapshot) (snap_evidence_source snapshot)
    (snap_observed_open_order_count snapshot) (snap_all_open_orders_attributed snapshot)
    unresolved.1 unresolved.2.

Definition rebuild_capital_admission_open_order_snapshot_with_projection
    (snapshot : BoltV3SubmitCapitalAdmissionOpenOrderSnapshot D) (now_ns : Z)
    (expected_epoch : option Z) (components : option (BoltV3SubmitCapitalAdmissionNtComponents D))
    (accepted_allowance_observed_at_ns : option Z)
    : Rust World (Result (BoltV3SubmitCapitalAdmissionRebuildDecision D) Error) :=
  i ← get_inner;
  let attempted := snap_observed_open_order_count snapshot in
  let rejected reason live := mret (Ok (mkSubmitRebuild false (Some reason) attempted 0 live)) in
  if match expected_epoch with
     | Some epoch => negb (epoch =? in_revision i)
     | None => false
     end
  then rejected MissingEvidence (inner_live_reserved i)
  else
    match u64_checked_add (in_revision i) 1 with
    | None =>
        put_inner (match in_capital i with
                   | Some c => set_capital i (Some (invalidate_gate c))
                   | None => i
                   end) ;;
        rejected ReconciliationRequired (inner_live_reserved i)
    | Some revision =>
        match in_capital i with
        | None =>
            mret (Ok (mkSubmitRebuild (snap_all_open_orders_attributed snapshot)
                        (if snap_all_open_orders_attributed snapshot then None
                         else Some MissingEvidence) 0 0 d_zero))
        | Some c =>
            match plan_rebuild c snapshot now_ns revision components
                    accepted_allowance_observed_at_ns with
            | PlanRejected decision unresolved =>
                finish_capital_admission_rebuild (audit_context snapshot unresolved) revision decision
            | PlanInvariant invariant unresolved =>
                put_inner (invalidate_capital_admission_rebuild i
                             (audit_context snapshot unresolved) revision) ;;
                mret (Err (ErrorInvariantViolation invariant))
            | PlanAccepted decision candidate =>
                let context := audit_context snapshot (cap_unresolved candidate) in
                r ← record_capital_admission_rebuild context decision;
                match r with
                | Ok true =>
                    put_inner (set_revision (set_capital i (Some candidate)) revision) ;;
                    mret (Ok decision)
                | Ok false =>
                    put_inner (invalidate_capital_admission_rebuild i context revision) ;;
                    i ← get_inner;
                    mret (Ok (mkSubmitRebuild false (Some MissingEvidence)
                                (submit_rebuild_attempted decision) 0 (inner_live_reserved i)))
                | Err error =>
                    put_inner (invalidate_capital_admission_rebuild i context revision) ;;
                    mret (Err error)
                end
            end
        end
    end.

(** [commit_capital_admission_nt_projection]. *)
Definition commit_capital_admission_nt_projection (expected_epoch : Z)
    (components : option (BoltV3SubmitCapitalAdmissionNtComponents D))
    (accepted_allowance_observed_at_ns : option Z)
    (snapshot : BoltV3SubmitCapitalAdmissionOpenOrderSnapshot D) (now_ns : Z)
    : Rust World (Result (BoltV3SubmitCapitalAdmissionRebuildDecision D) Error) :=
  rebuild_capital_admission_open_order_snapshot_with_projection snapshot now_ns (Some expected_epoch)
    components accepted_allowance_observed_at_ns.

(** The reservation of an open order, from the node's evidence and the attribution it was
    admitted with. *)
Definition open_order_reservation (c : Capital)
    (evidence : BoltV3SubmitCapitalAdmissionOpenOrderEvidence D) (a : ReservationAttribution)
    : option (BoltV3SubmitCapitalAdmissionOpenOrderReservation D) :=
  state ← cap_state c;
  match product_state state with
  | PredictionMarketBinary product =>
      if negb (bool_decide (attr_client_order_id a = order_client_order_id evidence))
         || negb (bool_decide (attr_venue_id a = cap_venue_id c))
         || negb (bool_decide (attr_account_id a = cap_account_id c))
         || negb (bool_decide (attr_product_kind a =
                               reservation_product_kind_from_capital (cap_product_kind c)))
         || negb (bool_decide (attr_collateral_currency a = cap_collateral_currency c))
         || negb (bool_decide (attr_capital_pool_id a = pool_id (cap_pool c)))
         || negb (bool_decide (attr_collateral_group_id a = collateral_coupled_group_id product))
         || negb (bool_decide (attr_instrument_id a = order_instrument_id evidence))
         || negb (bool_decide (attr_side a = evidence_order_side (order_side evidence)))
      then None
      else if negb (bool_decide (order_instrument_id evidence = product_yes_instrument_id product))
           && negb (bool_decide (order_instrument_id evidence = product_no_instrument_id product))
      then None
      else
        submitted ← d_from_str (attr_submitted_quantity a);
        factor ← d_from_str (attr_liability_factor a);
        additive ← d_from_str (attr_additive_liability a);
        reserved ← d_from_str (attr_reserved_liability a);
        if d_leb submitted d_zero || d_gtb (order_open_quantity evidence) submitted
           || d_ltb factor d_zero || d_gtb factor d_one || d_ltb additive d_zero
           || d_leb reserved d_zero
        then None
        else
          let expected_factor :=
            match side_to_capital_admission (order_side evidence) with
            | Buy => order_limit_price evidence
            | Sell => d_zero
            end in
          submitted_liability ← checked_lifecycle_liability submitted factor additive;
          if negb (d_eqb factor expected_factor) || negb (d_eqb reserved submitted_liability)
          then None
          else
            filled ← d_checked_sub submitted (order_open_quantity evidence);
            open_liability ←
              checked_lifecycle_liability (order_open_quantity evidence) factor additive;
            Some (mkOpenReservation (order_client_order_id evidence) a
                    (attr_submit_reservation_id a) (attr_collateral_group_id a) open_liability
                    (attr_instrument_id a) (order_side evidence) (order_open_quantity evidence)
                    submitted filled factor additive (order_observed_at_ns evidence)
                    (lit "bolt_known_reservation_attribution"))
  end.

Definition capital_admission_open_order_reservation_from_attribution (i : Inner)
    (evidence : BoltV3SubmitCapitalAdmissionOpenOrderEvidence D) (a : ReservationAttribution)
    : option (BoltV3SubmitCapitalAdmissionOpenOrderReservation D) :=
  if blank (order_client_order_id evidence) || blank (order_instrument_id evidence)
     || blank (order_evidence_label evidence) || d_leb (order_open_quantity evidence) d_zero
     || d_ltb (order_limit_price evidence) d_zero || d_gtb (order_limit_price evidence) d_one
  then None
  else c ← in_capital i; open_order_reservation c evidence a.

(** ** Retiring the reservation of an order that ended *)

Definition terminal_reservation_capabilities (i : Inner)
    : list BoltV3SubmitTerminalReservationCapability :=
  match in_capital i with
  | None => []
  | Some c =>
      omap (λ '(id, record),
        match rec_phase record with
        | SinkInvoked | ObservedOpen =>
            Some (mkCapability id (rec_phase record) (rec_phase_revision record))
        | Reserved => None
        end) (btree_iter (cap_index c))
  end.

(** The live gate is invalidated and the revision moves when retirement fails. *)
Definition fail_retirement (i : Inner) (revision : Z) : Inner :=
  set_revision
    (match in_capital i with
     | Some c => set_capital i (Some (invalidate_gate c))
     | None => i
     end) revision.

Definition capability_current (record : BoltV3SubmitReservationRecord)
    (capability : BoltV3SubmitTerminalReservationCapability) : bool :=
  match rec_phase record with
  | Reserved => false
  | SinkInvoked | ObservedOpen =>
      bool_decide (rec_phase record = capability_phase capability)
      && (rec_phase_revision record =? capability_phase_revision capability)
  end.

(** The candidate without the reservation, or [None] when the ledger does not have it. *)
Definition retire_candidate (c : Capital) (id : text) (a : ReservationAttribution) : option Capital :=
  let '(release, gate) :=
    gate_remove_existing (cap_gate c) (attr_capital_pool_id a) (attr_collateral_group_id a)
      (attr_submit_reservation_id a) in
  if release_accepted release then
    let c := set_index (set_gate c gate) (delete id (cap_index c)) in
    Some (set_unresolved c (unresolved_reservation_counts (cap_index c)))
  else None.

Definition retire_terminal_reservation (capability : BoltV3SubmitTerminalReservationCapability)
    (observed_at_ns : Z) : Rust World BoltV3SubmitTerminalReservationDecision :=
  i ← get_inner;
  match in_capital i with
  | None => mret NotRetained
  | Some c =>
      match cap_index c !! capability_client_order_id capability with
      | None => mret NotRetained
      | Some record =>
          if negb (capability_current record capability) then mret StaleCapability
          else
            match u64_checked_add (in_revision i) 1 with
            | None => put_inner (set_capital i (Some (invalidate_gate c))) ;; mret RevisionExhausted
            | Some revision =>
                match retire_candidate c (capability_client_order_id capability)
                        (rec_attribution record) with
                | None => put_inner (fail_retirement i revision) ;; mret LedgerMismatch
                | Some candidate =>
                    let context :=
                      mkAuditContext observed_at_ns NtOpenOrderCache 0 true
                        (cap_unresolved candidate).1 (cap_unresolved candidate).2 in
                    r ← record_capital_admission_rebuild context
                          (mkSubmitRebuild true None 1 0 (capital_live_reserved candidate));
                    match r with
                    | Ok true =>
                        put_inner (set_revision (set_capital i (Some candidate)) revision) ;;
                        mret Retired
                    | Ok false => put_inner (fail_retirement i revision) ;; mret EvidenceRejected
                    | Err error =>
                        put_inner (fail_retirement i revision) ;;
                        mret (RetirementInvariantViolation error)
                    end
                end
            end
      end
  end.

(** ** Fills *)

Definition reservation_fill_update_matches (fact : SubmitReservationFillFact)
    (update : BoltV3SubmitCapitalAdmissionFillUpdate D) : bool :=
  bool_decide (fill_client_order_id fact = update_client_order_id update)
  && bool_decide (fill_trade_id fact = update_trade_id update)
  && bool_decide (fill_instrument_id fact = update_instrument_id update)
  && bool_decide (fill_side fact = evidence_order_side (update_side update))
  && match d_from_str (fill_quantity fact) with
     | Some quantity => d_eqb quantity (update_fill_quantity update)
     | None => false
     end.

(** What the fill must match: the live record, else the committed attribution. *)
Definition expected_fill (live : option BoltV3SubmitReservationRecord)
    (authority : ReservationRecoveryFacts) (client_order_id : text)
    : option (text * text * BoltV3CompiledOrderSide) :=
  match (record ← live; metadata ← rec_fill_metadata record;
         Some (attr_submit_reservation_id (rec_attribution record), meta_instrument_id metadata,
               meta_side metadata)) with
  | Some expected => Some expected
  | None =>
      a ← reservation_attribution authority client_order_id;
      side ← match attr_side a with
             | EvidenceBuy => Some CompiledBuy
             | EvidenceSell => Some CompiledSell
             | EvidenceUnspecified => None
             end;
      Some (attr_submit_reservation_id a, attr_instrument_id a, side)
  end.

Definition fill_fact_of (update : BoltV3SubmitCapitalAdmissionFillUpdate D) (submit_reservation_id : text)
    : SubmitReservationFillFact :=
  {| fill_client_order_id := update_client_order_id update;
     fill_submit_reservation_id := submit_reservation_id;
     fill_trade_id := update_trade_id update;
     fill_instrument_id := update_instrument_id update;
     fill_side := evidence_order_side (update_side update);
     fill_quantity := d_to_string (update_fill_quantity update);
     fill_observed_at_ns := update_observed_at_ns update;
     fill_reconciliation := update_reconciliation update;
     fill_source := update_evidence_source update |}.

(** The checks on a fill: already known, acceptable for a live reservation, or not to be
    trusted. *)
Inductive FillVerdict : Type :=
| FillKnown
| FillNew (submit_reservation_id : text)
| FillUntrusted.

Definition judge_fill (i : Inner) (c : Capital) (update : BoltV3SubmitCapitalAdmissionFillUpdate D)
    : FillVerdict :=
  let id := update_client_order_id update in
  let live := cap_index c !! id in
  let known_non_reservation_order :=
    bool_decide (in_evidence_free i !! id = Some EvidenceFreeSinkInvoked)
    || authorizes_non_reservation_order (in_authority i) id in
  if is_none live && known_non_reservation_order then FillKnown
  else
    match expected_fill live (in_authority i) id with
    | None => FillUntrusted
    | Some (submit_reservation_id, instrument, side) =>
        if negb (len (trim (update_trade_id update)) =? len (update_trade_id update))
           || is_empty (update_trade_id update)
           || d_leb (update_fill_quantity update) d_zero
           || negb (bool_decide (update_instrument_id update = instrument))
           || negb (bool_decide (update_side update = side))
        then FillUntrusted
        else
          match reservation_fill (in_authority i) id submit_reservation_id (update_trade_id update) with
          | Some existing =>
              if reservation_fill_update_matches existing update then FillKnown else FillUntrusted
          | None =>
              match live with
              | None => FillUntrusted
              | Some record =>
                  if is_none (rec_fill_metadata record) then FillUntrusted
                  else FillNew (attr_submit_reservation_id (rec_attribution record))
              end
          end
    end.

(** [capital_admission] and the revision of [i] replaced. *)
Definition put_capital (i : Inner) (c : Capital) (revision : Z) : Inner :=
  set_revision (set_capital i (Some c)) revision.

Definition record_capital_admission_fill_evidence (update : BoltV3SubmitCapitalAdmissionFillUpdate D)
    : Rust World BoltV3SubmitReservationFillEvidenceDecision :=
  i ← get_inner;
  match in_capital i with
  | None => mret fill_decision_unknown
  | Some c =>
      match judge_fill i c update with
      | FillKnown => mret (mkFillDecision true false)
      | FillUntrusted =>
          let '(c', revision) :=
            reject_capital_admission_fill_evidence_integrity c (in_revision i)
              (update_observed_at_ns update) in
          put_inner (put_capital i c' revision) ;;
          mret fill_decision_unknown
      | FillNew submit_reservation_id =>
          match advance_capital_admission_state_revision (in_revision i) with
          | None =>
              put_inner (set_capital i (Some (invalidate_gate c))) ;;
              mret fill_decision_unknown
          | Some revision =>
              let event := FillEvent (fill_fact_of update submit_reservation_id) in
              let failed :=
                put_capital i (fail_capital_admission_fill_evidence_integrity c
                                 (update_observed_at_ns update)) revision in
              put_inner (set_revision i revision) ;;
              appended ← append (RecoveryFact event);
              if negb appended then put_inner failed ;; mret (mkFillDecision false false)
              else
                match recovery_apply (D := D) (in_authority i) event with
                | Err _ => put_inner failed ;; mret (mkFillDecision false false)
                | Ok authority =>
                    modify_inner (λ i, set_authority i authority) ;;
                    mret (mkFillDecision true false)
                end
          end
      end
  end.

Definition reject_capital_admission_fill_evidence (observed_at_ns : Z) : Rust World unit :=
  modify_inner (λ i,
    match in_capital i with
    | None => i
    | Some c =>
        let '(c', revision) :=
          reject_capital_admission_fill_evidence_integrity c (in_revision i) observed_at_ns in
        put_capital i c' revision
    end).

(** ** Inputs from the rest of the node *)

Definition update_loss_snapshot (snapshot : LossSnapshot D) : Rust World unit :=
  modify_inner (λ i, set_loss_inputs i (Some snapshot) (source_observations snapshot)
                       (in_loss_freshness i)).

Definition update_loss_source_observations (observations : LossSourceObservationTimestamps)
    : Rust World unit :=
  modify_inner (λ i, set_loss_inputs i (in_loss_snapshot i) observations (in_loss_freshness i)).

Definition update_loss_freshness (freshness : BoltV3LossFreshness) : Rust World unit :=
  modify_inner (λ i, set_loss_inputs i (in_loss_snapshot i) (in_loss_source_observations i)
                       freshness).

Definition replace_kill_switch (state : KillSwitchState) : Rust World unit :=
  modify_inner (λ i, set_kill_switch_state i state).

(** The revision advances if it can; the gate is invalidated in any case. *)
Definition invalidate_for_projection (i : Inner) : Inner :=
  let i :=
    match advance_capital_admission_state_revision (in_revision i) with
    | Some revision => set_revision i revision
    | None => i
    end in
  match in_capital i with
  | Some c => set_capital i (Some (invalidate_gate c))
  | None => i
  end.

Definition invalidate_capital_admission_for_nt_projection_request : Rust World unit :=
  modify_inner invalidate_for_projection.

Definition suspended (i : Inner) (evidence : ProviderCollateralAllowanceCaptureFailureEvidence)
    : Inner :=
  match advance_capital_admission_state_revision (in_revision i) with
  | None =>
      match in_capital i with
      | Some c => set_capital i (Some (invalidate_gate c))
      | None => i
      end
  | Some revision =>
      let i := set_revision i revision in
      match in_capital i with
      | None => i
      | Some c =>
          let c := set_capture_failure (invalidate_gate c) (Some (failure_source evidence))
                     (Some (failure_observed_at_ns evidence)) in
          set_capital i (Some (refresh_capital_admission_reservation_snapshot_with_source c
            (failure_observed_at_ns evidence)
            (lit "provider_collateral_allowance_capture_failure") false))
      end
  end.

Definition suspend_capital_admission_for_provider_collateral_allowance_capture_failure
    (evidence : ProviderCollateralAllowanceCaptureFailureEvidence) : Rust World unit :=
  append_nonblocking (AllowanceCaptureFailure evidence) ;;
  modify_inner (λ i, suspended i evidence).

(** [assert!(authority.is_empty())]. *)
Definition install_recovered_admission_authority (authority : ReservationRecoveryFacts)
    : Rust World unit :=
  i ← get_inner;
  if recovery_is_empty (in_authority i) then put_inner (set_authority i authority) else panic.

(** ** Readings *)

Definition capital_admission_reconciled (i : Inner) : option bool :=
  c ← in_capital i;
  Some (is_reconciled (cap_gate c) && is_none (cap_capture_failure_source c)).

Definition capital_admission_has_live_reservation (i : Inner) (client_order_id : text) : bool :=
  match in_capital i with
  | Some c => is_some (cap_index c !! client_order_id)
  | None => false
  end.

(** [BoltV3OpenOrderAdmissionAuthoritySnapshot::authorizes_non_reservation_order]. *)
Definition snapshot_authorizes_non_reservation_order (i : Inner) (client_order_id : text) : bool :=
  authorizes_non_reservation_order (in_authority i) client_order_id
  || bool_decide (in_evidence_free i !! client_order_id = Some EvidenceFreeSinkInvoked).

End Submit.
