(* ===== verification/SubmitAdmissionFacts.v ===== *)
(** * Submit admission: what the operations do

    For each operation of [SubmitAdmission], what it leaves behind: which evidence it
    appends, what the capital side and the counters become, and that the in-memory
    authority moves exactly with the recovery facts of the log ([logged]). *)

From Stdlib Require Import ZArith Lia.
From stdpp Require Import sorting strings gmap numbers list.
From S2P Require Import BTree NtTypes.
From S2P Require Import Prelude RustText DecimalAmount LossGovernor KillSwitch.
From S2P Require Import CapitalReservation CapitalReservationFacts CapitalAdmissionState.
From S2P Require Import CapitalAdmission CapitalAdmissionFacts ReservationRecovery.
From S2P Require Import SubmitAdmissionState SubmitCapital SubmitCapitalFacts SubmitAdmission.

Open Scope Z_scope.

(** ** The log *)

Definition recovery_event (fact : EvidenceFact) : option ReservationRecoveryEvent :=
  match fact with RecoveryFact event => Some event | _ => None end.

(** What a restart replays. *)
Definition recovery_events (log : list EvidenceFact) : list ReservationRecoveryEvent :=
  omap recovery_event log.

Section SubmitFacts.
Context {D : Type} `{DecimalLaws D} `{DecimalText D}.
Context (evidence_io : nat → bool) (reject_episode_max_count : nat).
Implicit Types (w : SubmitWorld D) (i : BoltV3SubmitAdmissionInner D).
Implicit Types (request : BoltV3SubmitAdmissionRequest D) (e : BoltV3SubmitAdmissionEvaluation).
Implicit Types (rbs : list BoltV3CapitalAdmissionReservationRollback).

(** The authority of [w'] is that of [w] with the recovery facts appended in between. *)
Definition logged w w' : Prop :=
  ∃ events, recovery_events (sw_log w') = recovery_events (sw_log w) ++ events ∧
    recover (D := D) (in_authority (sw_inner w)) events = Ok (in_authority (sw_inner w')).

(** No recovery fact was appended. *)
Definition silent w w' : Prop :=
  recovery_events (sw_log w') = recovery_events (sw_log w).

Lemma silent_logged w w' :
  silent w w' → in_authority (sw_inner w') = in_authority (sw_inner w) → logged w w'.
Proof. intros Hs Ha. exists []. rewrite Hs, Ha, app_nil_r. done. Qed.

#[global] Instance logged_refl : Reflexive logged.
Proof. intros w. by apply silent_logged. Qed.

Lemma recover_trans f events f' events' :
  recover (D := D) f events = Ok f' →
  recover (D := D) f (events ++ events') = recover (D := D) f' events'.
Proof.
  revert f. induction events as [|e events IH]; intros f Hf; simpl in *.
  - by injection Hf as ->.
  - result_inv. rewrite E. simpl. by apply IH.
Qed.

#[global] Instance logged_trans : Transitive logged.
Proof.
  intros w1 w2 w3 (ev1 & Hl1 & Hr1) (ev2 & Hl2 & Hr2). exists (ev1 ++ ev2).
  rewrite Hl2, Hl1, app_assoc. split; [done|]. by rewrite (recover_trans _ _ _ _ Hr1).
Qed.

#[global] Instance silent_trans : Transitive silent.
Proof. intros w1 w2 w3 Hs1 Hs2. unfold silent in *. congruence. Qed.
#[global] Instance silent_refl : Reflexive silent.
Proof. by intros w. Qed.

(** ** Evidence *)

Lemma runs_append fact w (Q : bool → SubmitWorld D → Prop) :
  (∀ n, let b := evidence_io (sw_appends w) in
    Q b (mkSubmitWorld (sw_inner w) (sw_reject_episodes w) n
           (if b then sw_log w ++ [fact] else sw_log w))) →
  runs (append evidence_io fact) w Q.
Proof. intros HQ. exists (evidence_io (sw_appends w)). eexists. split; [reflexivity|]. apply HQ. Qed.

Lemma runs_append_nonblocking fact w (Q : unit → SubmitWorld D → Prop) :
  recovery_event fact = None →
  (∀ w', sw_inner w' = sw_inner w → silent w w' → Q tt w') →
  runs (append_nonblocking evidence_io fact) w Q.
Proof.
  intros Hf HQ. apply runs_bind, runs_append. intros n b. apply runs_ret, HQ; [done|].
  unfold silent. simpl. destruct b; [|done]. unfold recovery_events. rewrite omap_app. simpl.
  by rewrite Hf, app_nil_r.
Qed.

(** A recovery fact and the authority move together, or not at all. *)
Lemma runs_commit_recovery_event event next w (Q : bool → SubmitWorld D → Prop) :
  recovery_apply (D := D) (in_authority (sw_inner w)) event = Ok next →
  (∀ (b : bool) w', sw_inner w' = (if b then set_authority (sw_inner w) next else sw_inner w) →
     sw_reject_episodes w' = sw_reject_episodes w →
     recovery_events (sw_log w') = recovery_events (sw_log w) ++ (if b then [event] else []) →
     logged w w' → Q b w') →
  runs (commit_recovery_event evidence_io event next) w Q.
Proof.
  intros Happ HQ. apply runs_bind, runs_append. intros n b.
  assert (Hlog : recovery_events (if b then sw_log w ++ [RecoveryFact event] else sw_log w) =
    recovery_events (sw_log w) ++ (if b then [event] else [])).
  { destruct b; [|by rewrite app_nil_r]. unfold recovery_events. by rewrite omap_app. }
  apply runs_bind. destruct b; [apply runs_modify|apply runs_ret]; apply runs_ret, HQ;
    try done; simpl in Hlog |- *.
  - exists [event]. split; [done|]. simpl. by rewrite Happ.
  - exists []. by split.
Qed.

(** ** The evaluation of a request *)

Ltac sub_step := unfold get_inner, put_inner, modify_inner; runs_step.

(** The stale halt is always explained. *)
Lemma stale_halt_explained policy (snapshot : option (LossSnapshot D)) now obs d :
  evaluate_loss_admission_with_observations policy snapshot now obs = Some d →
  StaleLossSnapshot ∈ halt_reasons d →
  ∃ reason, stale_loss_governor_halt_reason policy snapshot now = Ok reason.
Proof.
  intros Hd Hin. unfold stale_loss_governor_halt_reason. destruct snapshot as [s|]; [|by eexists].
  pose proof (stale_halt_unjudgeable _ _ _ _ _ Hd Hin) as Hj.
  destruct (loss_snapshot_stale_reason policy s now) eqn:E; [by eexists|].
  by apply stale_reason_None in E.
Qed.

(** Only the halt episodes of the inner state change. *)
Definition episodes_only w w' : Prop :=
  silent w w' ∧ ∃ eps, sw_inner w' = set_loss_halt_episodes (sw_inner w) eps.

Lemma episodes_only_refl w : episodes_only w w.
Proof. split; [done|]. exists (in_loss_halt_episodes (sw_inner w)). by destruct w as [[] ? ? ?]. Qed.

Lemma record_stale_runs policy now w reason :
  stale_loss_governor_halt_reason policy (in_loss_snapshot (sw_inner w)) now = Ok reason →
  runs (record_stale_loss_governor_halt evidence_io policy now) w
    (λ r w', r = Ok tt ∧ episodes_only w w').
Proof.
  intros Hr. unfold record_stale_loss_governor_halt. do 2 sub_step. rewrite Hr. do 2 sub_step.
  case_match eqn:Ep. do 2 sub_step. destruct (is_power_of_two _).
  - runs_step. apply runs_append_nonblocking; [done|]. intros w' Hi Hs. runs_step. split; [done|].
    split; [exact Hs|]. rewrite Hi. by eexists.
  - runs_step. split; [done|]. split; [done|]. by eexists.
Qed.

(** The loss gate of [i] lets an entry pass. *)
Definition loss_passes i request (now : Z) : Prop :=
  ∀ policy, in_loss_policy i = Some policy → req_intent_kind request = Entry →
    ∃ d, evaluate_loss_admission_with_observations policy (in_loss_snapshot i) now
           (in_loss_source_observations i) = Some d ∧ loss_accepted d = true.

Lemma evaluate_loss_safe request now w :
  safe (evaluate_loss evidence_io request now) w (λ r w', episodes_only w w' ∧
    match r with
    | Ok (LossClear _) => loss_passes (sw_inner w) request now
    | Ok (LossRefused e) =>
        evaluation_validate e = Ok tt ∧ eval_outcome e = Rejected LossGovernorHalted ∧
        eval_rollback e = None ∧ eval_reservation_attribution e = None
    | Err _ => False
    end).
Proof.
  unfold evaluate_loss. do 2 sub_step. cbn beta.
  destruct (in_loss_policy (sw_inner w)) as [policy|] eqn:Ep.
  2:{ runs_step. split; [apply episodes_only_refl|]. intros ? ?. congruence. }
  destruct (req_intent_kind request) eqn:Hk.
  2:{ runs_step. split; [apply episodes_only_refl|]. intros ? ? ?. congruence. }
  sub_step. runs_step. intros d Hd. destruct (loss_accepted d) eqn:Ha.
  { do 3 sub_step. split; [split; [done|by eexists]|]. intros p Hp _. exists d. rewrite Ep in Hp. by injection Hp as <-. }
  assert (Hev : ∀ w', episodes_only w w' → episodes_only w w' ∧
    evaluation_validate (loss_halt (halt_reasons d) (loss_diagnostics d)) = Ok tt ∧
    eval_outcome (loss_halt (halt_reasons d) (loss_diagnostics d)) = Rejected LossGovernorHalted ∧
    eval_rollback (loss_halt (halt_reasons d) (loss_diagnostics d)) = None ∧
    eval_reservation_attribution (loss_halt (halt_reasons d) (loss_diagnostics d)) = None).
  { intros w' Hw. split_and!; [done| |done|done|done].
    pose proof (halt_reasons_nonempty _ _ _ _ _ Hd Ha) as Hne.
    unfold evaluation_validate, loss_halt. simpl. by destruct (halt_reasons d). }
  runs_step. case_bool_decide as Hs.
  - destruct (stale_halt_explained _ _ _ _ _ Hd Hs) as [reason Hr].
    eapply runs_safe_mono; [by apply (record_stale_runs _ _ _ reason)|].
    intros r w' [-> Hw]. runs_step. by apply Hev.
  - do 2 runs_step. apply Hev, episodes_only_refl.
Qed.

(** The order was authorised before, or is in flight without evidence. *)
Definition blocked i (id : text) : Prop :=
  authorizes_order (in_authority i) id = true ∨ is_Some (in_evidence_free i !! id).

(** What every admission needs: nothing latched, the kill switch armed, an order id never
    used, the loss limits kept, and the request within its limits. *)
Record may_submit i request (now : Z) : Prop := {
  submit_unlatched : in_rollback_ownership_latch i = None;
  submit_armed : state_kind (in_kill_switch_state i) = KindArmed;
  submit_fresh : ¬ blocked i (req_client_order_id request);
  submit_loss : loss_passes i request now;
  submit_notional : d_leb (req_notional request) d_zero = false;
  submit_limits : ∀ limits,
    in_live_submit_approval_limits i !! req_execution_client_id request = Some limits →
    d_gtb (req_notional request) (limits_max_order_notional limits) = false ∧
    client_count i (req_execution_client_id request) + 1 ≤ limits_max_order_count limits;
  submit_exit : req_intent_kind request = RiskReducingExit →
    ∃ proof, req_risk_reducing_exit_proof request = Some proof ∧
      is_valid_for_shape proof (req_instrument_id request) (req_order_side request)
        (req_order_quantity request) = true;
}.

Lemma count_cap_admits current claims max :
  live_submit_count_cap_outcome current claims max ≠ Rejected CountCapExhausted →
  current + claims ≤ max.
Proof.
  unfold live_submit_count_cap_outcome. destruct (u32_checked_add current claims) as [t|] eqn:E; [|done].
  apply u32_checked_add_Some in E as [-> _]. by destruct (Z.leb_spec (current + claims) max).
Qed.

Lemma request_refusal_None i request :
  request_refusal i request = None →
  d_leb (req_notional request) d_zero = false ∧
  (∀ limits, in_live_submit_approval_limits i !! req_execution_client_id request = Some limits →
     d_gtb (req_notional request) (limits_max_order_notional limits) = false ∧
     client_count i (req_execution_client_id request) + 1 ≤ limits_max_order_count limits) ∧
  (req_intent_kind request = RiskReducingExit →
     ∃ proof, req_risk_reducing_exit_proof request = Some proof ∧
       is_valid_for_shape proof (req_instrument_id request) (req_order_side request)
         (req_order_quantity request) = true).
Proof.
  unfold request_refusal. destruct (d_leb _ _) eqn:El; [done|].
  assert (Hproof : match req_intent_kind request, req_risk_reducing_exit_proof request with
    | Entry, _ => None
    | RiskReducingExit, None => Some InvalidRiskReducingExitProof
    | RiskReducingExit, Some proof =>
        if is_valid_for_shape proof (req_instrument_id request) (req_order_side request)
             (req_order_quantity request)
        then None else Some InvalidRiskReducingExitProof end = None →
    req_intent_kind request = RiskReducingExit →
     ∃ proof, req_risk_reducing_exit_proof request = Some proof ∧
       is_valid_for_shape proof (req_instrument_id request) (req_order_side request)
         (req_order_quantity request) = true).
  { intros Hm Hk. rewrite Hk in Hm. destruct (req_risk_reducing_exit_proof request) as [p|]; [|done].
    exists p. split; [done|]. by destruct (is_valid_for_shape p _ _ _). }
  destruct (_ !! req_execution_client_id request) as [limits|] eqn:Elim.
  - destruct (d_gtb _ _) eqn:Eg; [done|]. case_decide as Hc; [done|].
    intros Hm. split_and!; [done| |by apply Hproof]. intros ? [= <-]. split; [done|].
    by apply count_cap_admits.
  - intros Hm. split_and!; [done|done|by apply Hproof].
Qed.

(** A rejection that carries no context but the loss diagnostics. *)
Lemma with_diagnostics_fields e d :
  let e' := with_loss_snapshot_diagnostics e d in
  eval_outcome e' = eval_outcome e ∧ eval_rollback e' = eval_rollback e ∧
  eval_reservation_attribution e' = eval_reservation_attribution e ∧
  evaluation_validate e' = evaluation_validate e ∧
  eval_capital_admission_rejection e' = eval_capital_admission_rejection e ∧
  eval_loss_halt_reasons e' = eval_loss_halt_reasons e.
Proof. by destruct d. Qed.

Lemma request_refusal_validates i request reason now d :
  request_refusal i request = Some reason →
  evaluation_validate (with_loss_snapshot_diagnostics (without_loss_halt (Rejected reason) now) d) = Ok tt.
Proof.
  intros Hr. rewrite (proj1 (proj2 (proj2 (proj2 (with_diagnostics_fields _ d))))).
  assert (reason ≠ LossGovernorHalted ∧ reason ≠ CapitalAdmissionRejection) as [? ?]; [|by destruct reason].
  revert Hr. unfold request_refusal. repeat case_match; intros ?; simplify_eq; split; done.
Qed.

(** The capital side of an admission. *)
Definition capital_granted request (now : Z) i i' e : Prop :=
  match in_capital i, in_capital i' with
  | None, None => eval_rollback e = None ∧ eval_reservation_attribution e = None
  | Some c, Some c' =>
      match req_intent_kind request with
      | Entry => ∃ rb a, eval_rollback e = Some rb ∧ eval_reservation_attribution e = Some a ∧
          reserved_for request now c c' rb a
      | RiskReducingExit =>
          eval_rollback e = None ∧ eval_reservation_attribution e = None ∧ c' = c ∧
          ∃ evidence s snapshot position,
            capital_preconditions c request = Ok (evidence, s, snapshot, position) ∧
            ev_side evidence = CompiledSell ∧ d_leb (ev_quantity evidence) position = true
      end
  | _, _ => False
  end.

(** Nothing that the ledger, the index or the revision holds changed. *)
Definition same_holdings i i' : Prop :=
  in_revision i' = in_revision i ∧
  match in_capital i, in_capital i' with
  | Some c, Some c' => same_capital c c'
  | None, None => True
  | _, _ => False
  end.

#[global] Instance same_holdings_refl : Reflexive same_holdings.
Proof. intros i. split; [done|]. by destruct (in_capital i). Qed.

Lemma same_holdings_trans i1 i2 i3 : same_holdings i1 i2 → same_holdings i2 i3 → same_holdings i1 i3.
Proof.
  intros [Hr1 Hc1] [Hr2 Hc2]. split; [congruence|].
  destruct (in_capital i1), (in_capital i2), (in_capital i3); try done. by etrans.
Qed.

Lemma same_holdings_episodes i eps : same_holdings i (set_loss_halt_episodes i eps).
Proof. apply (same_holdings_refl i). Qed.

Definition evaluated request (now : Z) rbs w (r : Result BoltV3SubmitAdmissionEvaluation BoltV3SubmitAdmissionError) w'
    : Prop :=
  let i := sw_inner w in
  let i' := sw_inner w' in
  silent w w' ∧ frames i i' ∧ in_rollback_ownership_latch i' = in_rollback_ownership_latch i ∧
  match r with
  | Err _ => is_Some (in_rollback_ownership_latch i) ∧ i' = i
  | Ok e =>
      in_rollback_ownership_latch i = None ∧ evaluation_validate e = Ok tt ∧
      capital_inv i' (option_list (eval_rollback e) ++ rbs) ∧
      match eval_outcome e with
      | Rejected _ =>
          eval_rollback e = None ∧ eval_reservation_attribution e = None ∧ same_holdings i i'
      | OutcomeAdmitted => may_submit i request now ∧ capital_granted request now i i' e ∧
          in_revision i' = in_revision i + Z.of_nat (length (option_list (eval_rollback e)))
      end
  end.

Lemma refused_evaluated request now rbs w w' e reason :
  capital_inv (sw_inner w) rbs → silent w w' → frames (sw_inner w) (sw_inner w') →
  in_rollback_ownership_latch (sw_inner w') = None →
  in_rollback_ownership_latch (sw_inner w) = None → same_holdings (sw_inner w) (sw_inner w') →
  evaluation_validate e = Ok tt → eval_outcome e = Rejected reason →
  evaluated request now rbs w (Ok e) w'.
Proof.
  intros Hinv Hs Hf Hl' Hl Hh Hv Ho. unfold evaluated. rewrite Ho.
  assert (eval_rollback e = None ∧ eval_reservation_attribution e = None) as [Hrb Hat].
  { unfold evaluation_validate in Hv. rewrite Ho in Hv.
    destruct (eval_rollback e), (eval_reservation_attribution e); try done;
      destruct reason; destruct (negb (is_empty (eval_loss_halt_reasons e)));
      destruct (is_some (eval_capital_admission_rejection e)); done. }
  rewrite Hrb, Hat. split_and!; [done|done|congruence|done|done| |done|done|done].
  eapply capital_inv_same; [by rewrite Hl|by destruct Hh as [_ Hh]|done].
Qed.

Lemma capital_inv_episodes i eps rbs : capital_inv (set_loss_halt_episodes i eps) rbs ↔ capital_inv i rbs.
Proof. done. Qed.

(** The capital step of the evaluation, on the state the loss gate left. *)
Lemma capital_step_evaluated request now rbs w i1 eps w1 d :
  sw_inner w1 = i1 → i1 = set_loss_halt_episodes (sw_inner w) eps → silent w w1 →
  capital_inv (sw_inner w) rbs → may_submit (sw_inner w) request now →
  safe (match in_capital i1 with
        | None => mret (Ok (with_loss_snapshot_diagnostics (without_loss_halt OutcomeAdmitted now) d))
        | Some _ =>
            '(decision, i') ← lift_panic (evaluate_capital_admission_submit i1 request now);
            put_inner i' ;;
            match decision with
            | CapitalRejected reason =>
                mret (Ok (with_loss_snapshot_diagnostics (capital_admission_rejected reason now) d))
            | CapitalAccepted a =>
                mret (Ok (with_loss_snapshot_diagnostics
                  (admitted_with_rollback (acceptance_rollback a) (acceptance_attribution a) now) d))
            | CapitalInvariant invariant => mret (Err (ErrorInvariantViolation invariant))
            end
        end) w1 (evaluated request now rbs w).
Proof.
  intros Hw1 Hi1 Hs Hinv Hmay. pose proof (submit_unlatched _ _ _ Hmay) as Hl.
  assert (Hf1 : frames (sw_inner w) i1) by (rewrite Hi1; apply frames_episodes).
  assert (Hc1 : in_capital i1 = in_capital (sw_inner w)) by (by rewrite Hi1).
  destruct (in_capital i1) as [c|] eqn:Ec.
  2:{ runs_step. unfold evaluated. rewrite Hw1.
      destruct (with_diagnostics_fields (without_loss_halt OutcomeAdmitted now) d) as (-> & -> & Ha & -> & _).
      cbn [eval_outcome eval_rollback without_loss_halt].
      split_and!; [done|done|by rewrite Hi1|done|done|by rewrite Hi1|done| |rewrite Hi1; simpl; lia].
      unfold capital_granted. rewrite <-Hc1, Ec, Ha.
      by destruct (with_diagnostics_fields (without_loss_halt OutcomeAdmitted now) d) as (_ & -> & _). }
  runs_step. runs_step. intros [decision i'] Hev.
  assert (Hinv1 : capital_inv i1 rbs) by (by rewrite Hi1).
  destruct (evaluate_capital_cases i1 c request now rbs Ec Hinv1) as
    (dec & i2 & c' & Hev' & Hf2 & Hl2 & Hc2 & Hdec).
  rewrite Hev' in Hev. injection Hev as <- <-. runs_step. unfold put_inner. runs_step.
  assert (Hf : frames (sw_inner w) i2) by (by etrans).
  assert (Hlatch : in_rollback_ownership_latch i2 = None) by (rewrite Hl2, Hi1; exact Hl).
  assert (Hrev1 : in_revision i1 = in_revision (sw_inner w)) by (by rewrite Hi1).
  destruct dec as [[[rb|] [a|]]|reason|inv]; try done.
  - destruct Hdec as (Hk & Hres & Hrev & _ & Hinv2). runs_step. unfold evaluated.
    cbn [sw_inner set_inner acceptance_rollback acceptance_attribution].
    destruct (with_diagnostics_fields (admitted_with_rollback (Some rb) (Some a) now) d)
      as (-> & Hrb & Ha & -> & _). rewrite Hrb.
    cbn [eval_outcome admitted_with_rollback eval_rollback].
    split_and!; [done|done|congruence|done|done|exact Hinv2|done| |simpl; lia].
    unfold capital_granted. rewrite <-Hc1, Hc2, Hk. exists rb, a. by rewrite Hrb, Ha.
  - destruct Hdec as (Hk & -> & Hcover). runs_step. unfold evaluated.
    cbn [sw_inner set_inner acceptance_rollback acceptance_attribution].
    destruct (with_diagnostics_fields (admitted_with_rollback None None now) d)
      as (-> & Hrb & Ha & -> & _). rewrite Hrb.
    cbn [eval_outcome admitted_with_rollback eval_rollback].
    split_and!; [done|done|congruence|done|done|exact Hinv1|done| |simpl; lia].
    unfold capital_granted. rewrite <-Hc1, Hc2, Hk, Hrb, Ha. split_and!; [done|done|congruence|done].
  - destruct Hdec as (Hsame & Hrev). runs_step.
    destruct (with_diagnostics_fields (capital_admission_rejected reason now) d) as (Ho & _ & _ & Hv & _).
    eapply refused_evaluated; [done|done|done|done|done| |by rewrite Hv|by rewrite Ho].
    split; [simpl; congruence|]. cbn [sw_inner set_inner]. by rewrite <-Hc1, Hc2.
Qed.

(** An evaluation is always consistent; it fails only on a latched state, admits only
    what may be submitted, and a refusal holds on to nothing. *)
Lemma submit_evaluate_safe request now w rbs :
  capital_inv (sw_inner w) rbs →
  safe (submit_evaluate evidence_io request now) w (evaluated request now rbs w).
Proof.
  intros Hinv. unfold submit_evaluate. do 2 sub_step. cbn beta.
  destruct (in_rollback_ownership_latch (sw_inner w)) as [inv|] eqn:Hl.
  { runs_step. split_and!; [done|done|done|by rewrite Hl|done]. }
  assert (Hrefuse : ∀ reason, reason ≠ LossGovernorHalted → reason ≠ CapitalAdmissionRejection →
    evaluated request now rbs w (Ok (without_loss_halt (Rejected reason) now)) w).
  { intros reason ? ?. eapply refused_evaluated; try done. by destruct reason. }
  destruct (authorizes_order _ _ || _) eqn:Hblock; [runs_step; by apply Hrefuse|].
  apply orb_false_iff in Hblock as [Hauth Hfree].
  case_bool_decide as Hk; cbn [negb]; [|runs_step; by apply Hrefuse].
  runs_step. eapply safe_mono; [apply evaluate_loss_safe|].
  intros r w1 [[Hs1 [eps Hi1]] Hr]. destruct r as [[d|e]|]; [| |done].
  2:{ destruct Hr as (Hv & Ho & _ & _). runs_step.
      eapply refused_evaluated; [done|done|rewrite Hi1; apply frames_episodes|by rewrite Hi1|done| |done|done].
      rewrite Hi1. apply same_holdings_episodes. }
  do 2 sub_step. cbn beta. rewrite Hi1.
  destruct (request_refusal _ request) as [reason|] eqn:Href.
  { runs_step. eapply refused_evaluated;
      [done|done|rewrite Hi1; apply frames_episodes|by rewrite Hi1|done|rewrite Hi1; apply same_holdings_episodes| |].
    - by eapply request_refusal_validates.
    - destruct d; reflexivity. }
  apply request_refusal_None in Href as (Hn & Hlim & Hex).
  eapply capital_step_evaluated; [done|done|done|done|]. split; try done.
  intros [Hb|[? Hb]]; [congruence|]. simpl in Hb. by rewrite Hb in Hfree.
Qed.

(** ** Recording a decision *)

Lemma set_authority_id i : set_authority i (in_authority i) = i.
Proof. by destruct i. Qed.

Lemma record_reject_runs request e now w :
  runs (record_submit_admission_order_reject evidence_io reject_episode_max_count request e now) w
    (λ _ w', sw_inner w' = sw_inner w ∧ silent w w').
Proof.
  unfold record_submit_admission_order_reject. do 4 sub_step. destruct (is_power_of_two _).
  - apply runs_append_nonblocking; [done|]. intros w' Hi Hs. by rewrite Hi.
  - by runs_step.
Qed.

Definition admitted_event request e : ReservationRecoveryEvent :=
  match req_intent_kind request with
  | Entry => AdmittedEntry (mkAdmittedEntry (admission_details request e) (eval_reservation_attribution e))
  | RiskReducingExit => RiskReducingExitEvent (mkExitAdmission (admission_details request e) OutcomeAdmitted)
  end.

(** What recording a decision comes to: the authority moves only for an admission, and
    only with its record; an entry without a record is an error, an exit is not. *)
Definition recorded_as request e w (r : Result RecordedAdmissionAuthority unit) w' : Prop :=
  logged w w' ∧ ∃ auth, sw_inner w' = set_authority (sw_inner w) auth ∧
  match eval_outcome e, r with
  | Rejected _, Ok _ => auth = in_authority (sw_inner w)
  | Rejected _, Err _ => False
  | OutcomeAdmitted, Err _ => auth = in_authority (sw_inner w)
  | OutcomeAdmitted, Ok RecordedCommittedEntry =>
      req_intent_kind request = Entry ∧
      recovery_apply (D := D) (in_authority (sw_inner w)) (admitted_event request e) = Ok auth
  | OutcomeAdmitted, Ok (RecordedRiskReducing committed) =>
      req_intent_kind request = RiskReducingExit ∧
      ∃ next, recovery_apply (D := D) (in_authority (sw_inner w)) (admitted_event request e) = Ok next ∧
        auth = if (committed : bool) then next else in_authority (sw_inner w)
  | OutcomeAdmitted, Ok NoExternalActionAuthority => False
  end.

Lemma record_decision_fact_runs request e w :
  runs (record_decision_fact evidence_io request e) w (recorded_as request e w).
Proof.
  unfold record_decision_fact. do 2 sub_step. cbn beta. unfold recorded_as, admitted_event.
  destruct (req_intent_kind request) eqn:Hk.
  - destruct (eval_outcome e) as [|reason] eqn:Ho.
    + destruct (recovery_apply _ _) as [next|err] eqn:Ha.
      * runs_step. apply (runs_commit_recovery_event _ next); [done|].
        intros b w' Hi _ _ Hlog. runs_step. split; [done|]. destruct b; rewrite Hi.
        -- by exists next.
        -- exists (in_authority (sw_inner w)). by rewrite set_authority_id.
      * runs_step. split; [done|]. exists (in_authority (sw_inner w)). by rewrite set_authority_id.
    + runs_step. apply runs_append_nonblocking; [done|]. intros w' Hi Hs. runs_step.
      split; [apply silent_logged; [done|by rewrite Hi]|].
      exists (in_authority (sw_inner w)). by rewrite set_authority_id.
  - destruct (eval_outcome e) as [|reason] eqn:Ho.
    + destruct (recovery_apply _ _) as [next|err] eqn:Ha.
      * runs_step. apply (runs_commit_recovery_event _ next); [done|].
        intros b w' Hi _ _ Hlog. runs_step. split; [done|]. destruct b; rewrite Hi.
        -- exists next. split_and!; [done|done|]. by exists next.
        -- exists (in_authority (sw_inner w)). rewrite set_authority_id. split_and!; [done|done|].
           by exists next.
      * runs_step. split; [done|]. exists (in_authority (sw_inner w)). by rewrite set_authority_id.
    + runs_step. apply runs_append. intros n b. runs_step. split.
      * exists (if b then [RiskReducingExitEvent (mkExitAdmission (admission_details request e) (Rejected reason))] else []).
        simpl. unfold recovery_events. destruct b; [rewrite omap_app; by split|by rewrite app_nil_r].
      * exists (in_authority (sw_inner w)). by rewrite set_authority_id.
Qed.

Lemma record_admission_decision_runs request e now w :
  evaluation_validate e = Ok tt →
  runs (record_admission_decision evidence_io reject_episode_max_count request e now) w
    (recorded_as request e w).
Proof.
  intros Hv. unfold record_admission_decision. rewrite Hv. runs_step.
  eapply runs_mono; [apply record_decision_fact_runs|]. intros r w1 Hr.
  destruct r as [recorded|[]]; [|done]. runs_step.
  assert (Hkeep : ∀ w2, sw_inner w2 = sw_inner w1 → silent w1 w2 →
    recorded_as request e w (Ok recorded) w2).
  { intros w2 Hi Hs. destruct Hr as (Hlog & auth & Ha & Hm). split.
    - etrans; [exact Hlog|]. apply silent_logged; [done|by rewrite Hi].
    - exists auth. by rewrite Hi. }
  destruct (eval_outcome e) as [|reason] eqn:Ho; [do 2 sub_step; by apply Hkeep|].
  destruct reason; try (eapply runs_mono; [apply record_reject_runs|]; intros [] w2 [Hi Hs]; runs_step;
    by apply Hkeep).
  do 2 runs_step. by apply Hkeep.
Qed.

(** ** What an evaluation reserves *)

Definition inner_index i : gmap text BoltV3SubmitReservationRecord :=
  match in_capital i with Some c => cap_index c | None => ∅ end.

Definition inner_live i : list (@LiveReservation D) :=
  match in_capital i with Some c => cap_live c | None => [] end.

(** Orders past the sink are still accounted for. *)
Definition kept i i' : Prop :=
  ∀ id r, inner_index i !! id = Some r → rec_phase r ≠ Reserved →
    ∃ r', inner_index i' !! id = Some r' ∧ rec_phase r' ≠ Reserved.

Lemma kept_index i i' : inner_index i' = inner_index i → kept i i'.
Proof. intros Hi id r Hr Hp. rewrite Hi. by exists r. Qed.

#[global] Instance kept_trans : Transitive kept.
Proof. intros i1 i2 i3 H12 H23 id r Hr Hp. destruct (H12 id r Hr Hp) as (r2 & Hr2 & Hp2). by eapply H23. Qed.

Lemma inner_index_latch i :
  inner_index (latch_submit_admission_rollback_ownership_failure i) = inner_index i.
Proof.
  unfold latch_submit_admission_rollback_ownership_failure, inner_index. simpl.
  destruct (advance_capital_admission_state_revision (in_revision i)); simpl;
    (destruct (in_capital i) as [c|] eqn:Ec; simpl; by rewrite ?Ec).
Qed.

(** Giving back a reservation that did not cross the sink keeps those that did. *)
Lemma rolled_back_kept rbs rbs' i i' : capital_inv i (rbs ++ rbs') → rolled_back rbs i i' → kept i i'.
Proof.
  intros [_ Hinv] (_ & _ & Hm) id r Hr Hp. unfold inner_index in *.
  destruct (in_capital i) as [c|]; [|by rewrite lookup_empty in Hr].
  destruct (in_capital i') as [c'|]; [|done]. case_decide; [subst; by exists r|].
  destruct Hm as (_ & _ & _ & Hidx & _). exists r. split; [|done].
  rewrite Hidx, decide_False; [done|]. intros (rb & -> & Hin)%list_elem_of_fmap.
  destruct Hinv as (_ & Hown & _). apply Forall_app in Hown as [Hown _]. rewrite Forall_forall in Hown.
  destruct (Hown rb Hin) as (r0 & Hr0 & Hp0 & _). congruence.
Qed.

Lemma rollback_kept rbs rbs' i :
  capital_inv i (rbs ++ rbs') → kept i (rollback_capital_admission_reservations i rbs).
Proof.
  intros Hinv. pose proof (prepare_rollback_cases i rbs rbs' Hinv) as Hp.
  unfold rollback_capital_admission_reservations.
  destruct (prepare_capital_admission_reservation_rollback i rbs); [|apply kept_index, inner_index_latch].
  destruct Hp as (Hrb & _). by eapply rolled_back_kept.
Qed.

Lemma rollback_permit_kept rbs rbs' i ocr :
  capital_inv i (rbs ++ rbs') → kept i (rollback_unsubmitted_permit i rbs ocr).
Proof.
  intros Hinv. pose proof (prepare_rollback_cases i rbs rbs' Hinv) as Hp. unfold rollback_unsubmitted_permit.
  destruct (prepare_capital_admission_reservation_rollback i rbs) as [p|].
  - destruct Hp as (Hrb & _). pose proof (rolled_back_kept _ _ _ _ Hinv Hrb) as Hk.
    destruct ocr as [cr|]; [|done]. destruct (checked_admission_counter_rollback i cr); [exact Hk|].
    apply kept_index, inner_index_latch.
  - destruct ocr as [cr|]; [destruct (checked_admission_counter_rollback i cr)|]; apply kept_index, inner_index_latch.
Qed.

(** [i'] is [i] with the reservations that [rbs] name, each recorded for the order of the
    admission [(id, attribution)] of [legs] it belongs to. *)
Record extended rbs (legs : list (text * option ReservationAttribution)) i i' : Prop := {
  ext_frames : frames i i';
  ext_latch : in_rollback_ownership_latch i' = in_rollback_ownership_latch i;
  ext_revision : in_revision i' = in_revision i + Z.of_nat (length rbs);
  ext_live : ∃ news, inner_live i' = inner_live i ++ news ∧ live_key <$> news = rollback_key <$> rbs;
  ext_fresh : ∀ id, id ∈ cids rbs → inner_index i !! id = None ∧
    ∀ r, inner_index i' !! id = Some r → (id, Some (rec_attribution r)) ∈ legs;
  ext_rest : ∀ id, ¬ (id ∈ cids rbs) → inner_index i' !! id = inner_index i !! id;
}.

Lemma extended_nil legs i i' :
  frames i i' → in_rollback_ownership_latch i' = in_rollback_ownership_latch i →
  same_holdings i i' → extended [] legs i i'.
Proof.
  intros Hf Hl [Hr Hc]. unfold same_capital in Hc.
  assert (inner_live i' = inner_live i ∧ inner_index i' = inner_index i) as [HL HI].
  { unfold inner_live, inner_index. destruct (in_capital i), (in_capital i'); try done. by destruct Hc as (-> & -> & _). }
  split; [done|done|simpl; lia| | |].
  - exists []. by rewrite app_nil_r.
  - by intros id ?%elem_of_nil.
  - intros id _. by rewrite HI.
Qed.

Lemma extended_trans rbs1 rbs2 legs1 legs2 i1 i2 i3 :
  extended rbs1 legs1 i1 i2 → extended rbs2 legs2 i2 i3 →
  extended (rbs1 ++ rbs2) (legs1 ++ legs2) i1 i3.
Proof.
  intros [Hf1 Hl1 Hr1 (n1 & Hn1 & Hk1) Hx1 Hy1] [Hf2 Hl2 Hr2 (n2 & Hn2 & Hk2) Hx2 Hy2].
  split; [by etrans|congruence|rewrite length_app; lia| | |].
  - exists (n1 ++ n2). rewrite Hn2, Hn1, !fmap_app, Hk1, Hk2. split; [by rewrite app_assoc|done].
  - unfold cids. rewrite fmap_app. intros id Hin.
    destruct (decide (id ∈ cids rbs2)) as [H2|H2].
    + destruct (Hx2 id H2) as [Hnone Hleg]. split.
      * destruct (decide (id ∈ cids rbs1)) as [H1'|H1']; [by apply Hx1|]. by rewrite <-(Hy1 id H1').
      * intros r Hr. apply elem_of_app. right. by apply Hleg.
    + apply elem_of_app in Hin as [H1'|?]; [|done]. destruct (Hx1 id H1') as [Hnone Hleg].
      split; [done|]. intros r Hr. apply elem_of_app. left. apply Hleg. by rewrite <-(Hy2 id H2).
  - unfold cids. rewrite fmap_app. intros id [Ho1 Ho2]%not_elem_of_app.
    by rewrite (Hy2 id Ho2), (Hy1 id Ho1).
Qed.

Lemma extended_kept_index rbs legs i i' : extended rbs legs i i' → kept i i'.
Proof.
  intros [_ _ _ _ Hx Hy] id r Hr Hp. exists r. split; [|done].
  destruct (decide (id ∈ cids rbs)) as [Hin|Hno]; [|by rewrite Hy].
  destruct (Hx id Hin) as [? _]. congruence.
Qed.

Lemma granted_extended request now i i' e :
  frames i i' → in_rollback_ownership_latch i' = in_rollback_ownership_latch i →
  capital_granted request now i i' e →
  in_revision i' = in_revision i + Z.of_nat (length (option_list (eval_rollback e))) →
  extended (option_list (eval_rollback e))
    [(req_client_order_id request, eval_reservation_attribution e)] i i' ∧
  names_order (req_client_order_id request) (eval_reservation_attribution e).
Proof.
  intros Hf Hl Hg Hr. unfold capital_granted in Hg.
  destruct (in_capital i) as [c|] eqn:Ec, (in_capital i') as [c'|] eqn:Ec'; [|done|done|].
  2:{ destruct Hg as [Hrb ->]. rewrite Hrb in Hr |- *. split; [|done]. apply extended_nil; [done|done|].
      split; [rewrite Hr; simpl; lia|by rewrite Ec, Ec']. }
  destruct (req_intent_kind request).
  - destruct Hg as (rb & a & Hrb & -> & Hres). rewrite Hrb in Hr |- *.
    unfold reserved_for in Hres. cbv zeta in Hres.
    destruct Hres as (ev & s & snap & pos & q & r & _ & Hcid & Hacid & Hsid & Hpool &
      _ & _ & _ & Htag & Hlive & Hra & _ & Hfresh & Hidx).
    split; [|by intros ? [= <-]]. split; [done|done|done| | |].
    + unfold inner_live. rewrite Ec, Ec'. eexists. split; [exact Hlive|]. simpl.
      unfold rollback_key. rewrite live_key_tag, <-Htag. unfold tag_key, attr_tag. simpl.
      rewrite Hsid, Hpool. unfold attr_tag, live_tag in Htag. injection Htag as Hp _. by rewrite Hp.
    + intros id ->%list_elem_of_singleton. rewrite Hcid. unfold inner_index. rewrite Ec, Ec', Hidx.
      split; [done|]. rewrite lookup_insert_eq. intros ? [= <-]. rewrite Hra. apply list_elem_of_here.
    + intros id Hno. unfold inner_index. rewrite Ec, Ec', Hidx. apply lookup_insert_ne.
      intros <-. apply Hno. simpl. rewrite Hcid. apply list_elem_of_here.
  - destruct Hg as (Hrb & -> & -> & _). rewrite Hrb in Hr |- *. split; [|done]. apply extended_nil; [done|done|].
    split; [rewrite Hr; simpl; lia|by rewrite Ec, Ec'].
Qed.

(** ** Giving back *)

(** What admission holds is as it was. *)
Definition restored i i' : Prop :=
  inner_index i' = inner_index i ∧ inner_live i' ≡ₚ inner_live i.

Lemma filter_split {A} (P : A → Prop) `{∀ x, Decision (P x)} (l1 l2 : list A) :
  Forall P l1 → Forall (λ x, ¬ P x) l2 → filter P (l1 ++ l2) = l1.
Proof.
  intros H1' H2'. rewrite filter_app.
  assert (filter P l2 = []) as ->.
  { induction H2' as [|x l Hx _ IH]; [done|]. by rewrite filter_cons, decide_False. }
  rewrite app_nil_r. induction H1' as [|x l Hx _ IH]; [done|]. by rewrite filter_cons, decide_True, IH.
Qed.

Lemma keyed_cancel {A K} `{EqDecision K} (key : A → K) (l news removed l' : list A) :
  NoDup (key <$> (l ++ news)) → l ++ news ≡ₚ removed ++ l' → key <$> removed ≡ₚ key <$> news →
  l' ≡ₚ l.
Proof.
  intros Hnd Hp Hk. set (P := λ x, key x ∉ key <$> news).
  assert (Hsplit : ∀ l1 l2, NoDup (key <$> (l1 ++ l2)) → key <$> l2 ≡ₚ key <$> news →
    filter P (l1 ++ l2) = l1).
  { intros l1 l2 Hnd' Hk'. rewrite fmap_app in Hnd'. apply NoDup_app in Hnd' as (_ & Hdis & _).
    apply filter_split; apply Forall_forall; intros x Hx; unfold P; rewrite <-Hk'.
    - apply Hdis. by apply list_elem_of_fmap_2.
    - intros Hno. apply Hno. by apply list_elem_of_fmap_2. }
  rewrite (Permutation_app_comm removed l') in Hp.
  transitivity (filter P (l' ++ removed)).
  - rewrite Hsplit; [done| |done]. by rewrite <-Hp.
  - rewrite <-Hp. by rewrite Hsplit.
Qed.

Lemma extended_rolled_back rbs legs i i1 i1' i2 :
  extended rbs legs i i1 → in_capital i1' = in_capital i1 →
  (∀ c, in_capital i1 = Some c → capital_ok c) → rolled_back rbs i1' i2 → restored i i2.
Proof.
  intros [_ _ _ (news & Hn & Hk) Hx Hy] Hc Hok (_ & _ & Hd). rewrite Hc in Hd. unfold restored.
  unfold inner_index, inner_live in *. destruct (in_capital i1) as [c1|] eqn:E1, (in_capital i2) as [c2|]; try done.
  - specialize (Hok c1 eq_refl). case_decide as Hnil.
    + subst. destruct news; [|done]. rewrite app_nil_r in Hn. rewrite Hn. split; [|done].
      apply map_eq. intros id. apply Hy. by intros ?%elem_of_nil.
    + destruct Hd as (_ & _ & _ & Hidx & removed & Hl & Hrk). split.
      * apply map_eq. intros id. rewrite Hidx. case_decide as Hin; [|by apply Hy].
        symmetry. by apply Hx.
      * rewrite Hn in Hl. eapply (keyed_cancel live_key _ news removed); [|done|by rewrite Hrk, Hk].
        rewrite <-Hn. apply (ok_keys _ Hok).
  - destruct news; [|by destruct (in_capital i) as [c|]; [destruct (cap_live c)|]].
    rewrite app_nil_r in Hn. rewrite <-Hn. split; [|done].
    apply map_eq. intros id. destruct (decide (id ∈ cids rbs)) as [Hin|Hno]; [|by apply Hy].
    rewrite lookup_empty. symmetry. by apply Hx.
Qed.

End SubmitFacts.
