(* ===== verification/SubmitPermits.v ===== *)
(** * Submit admission: permits

    The invariant of submit admission with the permits that are out and the orders that
    have crossed the sink ([submit_inv]), and that admission of one order, evaluation
    without capacity, admission of a basket, using a permit and dropping one keep it.
    A permit stands here with the client order ids it was granted for: the caller submits
    those orders with it. *)

From Stdlib Require Import ZArith Lia.
From stdpp Require Import sorting strings gmap numbers list.
From S2P Require Import BTree NtTypes.
From S2P Require Import Prelude RustText DecimalAmount LossGovernor KillSwitch.
From S2P Require Import CapitalReservation CapitalReservationFacts CapitalAdmissionState.
From S2P Require Import CapitalAdmission CapitalAdmissionFacts ReservationRecovery.
From S2P Require Import SubmitAdmissionState SubmitCapital SubmitCapitalFacts SubmitAdmission.
From S2P Require Import SubmitAdmissionFacts.

Open Scope Z_scope.

(** ** The authority grows *)

Definition grows (f f' : ReservationRecoveryFacts) : Prop :=
  reservation_attributions f ⊆ reservation_attributions f' ∧
  reservation_fills f' = reservation_fills f ∧
  ∀ id, authorizes_order f id = true → authorizes_order f' id = true.

#[global] Instance grows_refl : Reflexive grows.
Proof. by intros f. Qed.
#[global] Instance grows_trans : Transitive grows.
Proof. intros f1 f2 f3 (? & ? & ?) (? & ? & ?). split_and!; [by etrans|congruence|auto]. Qed.

Lemma insert_admission_grows f id o k f' :
  insert_admission f id o k = Ok f' →
  grows f f' ∧ ∀ a, o = Some a → reservation_attributions f' !! attr_client_order_id a = Some a.
Proof.
  destruct o as [a|]; simpl.
  - intros Hi. pose proof (λ id', insert_attribution_authorizes _ _ _ id' Hi) as Ha.
    apply insert_attribution_Ok in Hi as [Hnew ->]. apply authorizes_order_false in Hnew as [Hnone _].
    split.
    + split_and!; simpl; [by apply insert_subseteq|done|]. intros id' Hid'. apply Ha. by right.
    + intros ? [= <-]. apply lookup_insert_eq.
  - intros (Hnew & Hat & Hfi & Hau)%insert_authorization_Ok. split; [|done].
    split_and!; [by rewrite Hat|done|]. intros id' Hid'. apply Hau. by right.
Qed.

Lemma insert_legs_grows legs f f' :
  insert_legs f legs = Ok f' →
  grows f f' ∧ ∀ leg a, leg ∈ legs → leg_reservation leg = Some a →
    reservation_attributions f' !! attr_client_order_id a = Some a.
Proof.
  revert f. induction legs as [|leg legs IH]; intros f Hl; simpl in Hl.
  - injection Hl as <-. split; [done|]. by intros ? ? ?%elem_of_nil.
  - result_inv. apply insert_admission_grows in E as [Hg Ha]. apply IH in Hl as [Hg' Ha'].
    split; [by etrans|]. intros leg' b [->|Hin]%elem_of_cons Hb; [|by eapply Ha'].
    destruct Hg' as [Hsub _]. eapply lookup_weaken; [|exact Hsub]. by apply Ha.
Qed.

Section Permits.
Context {D : Type} `{DecimalLaws D} `{DecimalText D}.
Implicit Types (w : SubmitWorld D) (i : BoltV3SubmitAdmissionInner D).
Implicit Types (request : BoltV3SubmitAdmissionRequest D) (e : BoltV3SubmitAdmissionEvaluation).
Implicit Types (rbs : list BoltV3CapitalAdmissionReservationRollback).
Implicit Types (permit : BoltV3SubmitAdmissionPermit).

Lemma fills_attributed_grows f f' :
  grows f f' → fills_attributed (D := D) f → fills_attributed (D := D) f'.
Proof.
  intros (Hsub & Hfills & _) Hf key fills Hlook. rewrite Hfills in Hlook.
  destruct (Hf key fills Hlook) as (a & Ha & Hrest). exists a. split; [|done].
  by eapply lookup_weaken.
Qed.

(** ** The invariant *)

(** Order ids and the permit that was granted for them. *)
Definition Granted : Type := list text * BoltV3SubmitAdmissionPermit.
Implicit Types (out : list Granted) (sunk_ids : list text).

Definition held_of permit : list text :=
  match permit_counter_rollback permit with
  | Some cr => uncommitted_evidence_free_client_order_ids cr
  | None => []
  end.

Definition granted_wf (g : Granted) : Prop :=
  permit_committed g.2 = false ∧ is_Some (permit_evidence_authority g.2) ∧
  (∃ cr, permit_counter_rollback g.2 = Some cr ∧ counter_order_count cr = Z.of_nat (length g.1)) ∧
  held_of g.2 ⊆ g.1 ∧ cids (permit_rollbacks g.2) ⊆ g.1.

Definition rbs_of out : list BoltV3CapitalAdmissionReservationRollback :=
  out ≫= λ g, permit_rollbacks g.2.

Definition crs_of out : list BoltV3SubmitAdmissionCounterRollback :=
  omap (λ g, permit_counter_rollback g.2) out.

Definition out_ids out : list text := out ≫= fst.

(** Every record of the index carries the attribution its order was admitted with. *)
Definition index_attributed i : Prop :=
  map_Forall (λ id r, reservation_attributions (in_authority i) !! id = Some (rec_attribution r))
    (inner_index i).

Record submit_inv i out sunk_ids : Prop := {
  inv_capital : capital_inv i (rbs_of out);
  inv_counters : counters_inv i (crs_of out);
  inv_granted : Forall granted_wf out;
  inv_ids : NoDup (out_ids out ++ sunk_ids);
  inv_out : Forall (λ g, Forall (λ id, authorizes_order (in_authority i) id = true ∨ id ∈ held_of g.2) g.1) out;
  inv_sunk : Forall (λ id, authorizes_order (in_authority i) id = true ∨
                           in_evidence_free i !! id = Some EvidenceFreeSinkInvoked) sunk_ids;
  inv_index : in_rollback_ownership_latch i = None → index_attributed i;
  inv_fills : in_rollback_ownership_latch i = None → fills_attributed (D := D) (in_authority i);
  inv_total : in_admitted_order_count i ≤ u32_max;
  inv_limits : ∀ client limits, in_live_submit_approval_limits i !! client = Some limits →
    client_count i client ≤ Z.max 0 (limits_max_order_count limits);
}.

Lemma crs_of_cons g cr out : permit_counter_rollback g.2 = Some cr → crs_of (g :: out) = cr :: crs_of out.
Proof. intros Hg. unfold crs_of. simpl. by rewrite Hg. Qed.

(** The ids of every permit that is out, and those past the sink, are blocked. *)
Lemma out_blocked i out sunk_ids id : submit_inv i out sunk_ids → id ∈ out_ids out → blocked i id.
Proof.
  intros Hi Hin. unfold out_ids in Hin. apply list_elem_of_bind in Hin as ([ids p] & Hid & Hg). simpl in Hid.
  pose proof (inv_out _ _ _ Hi) as Ho. rewrite Forall_forall in Ho. specialize (Ho _ Hg).
  rewrite Forall_forall in Ho. destruct (Ho id Hid) as [Ha|Hh]; [by left|]. right.
  pose proof (counters_held _ _ (inv_counters _ _ _ Hi)) as Hc. rewrite Forall_forall in Hc.
  rewrite Hc; [by eexists|]. unfold held_of in Hh. simpl in Hh.
  destruct (permit_counter_rollback p) as [cr|] eqn:Ecr; [|by apply elem_of_nil in Hh].
  unfold held_ids. apply list_elem_of_bind. exists cr. split; [done|].
  apply list_elem_of_omap. by exists (ids, p).
Qed.

Lemma sunk_blocked i out sunk_ids id : submit_inv i out sunk_ids → id ∈ sunk_ids → blocked i id.
Proof.
  intros Hi Hin. pose proof (inv_sunk _ _ _ Hi) as Hs. rewrite Forall_forall in Hs.
  destruct (Hs id Hin) as [?|Hf]; [by left|right]. by rewrite Hf.
Qed.

(** ** A grant *)

(** [i'] is [i] after the orders [ids] of [client] were granted a permit with the
    rollbacks [rbs], the ids [held] being the ones without evidence. *)
Record grants i i' out (ids : list text) rbs (held : list text) (client : text) : Prop := {
  grant_latch : in_rollback_ownership_latch i' = in_rollback_ownership_latch i;
  grant_capital : capital_inv i' (rbs ++ rbs_of out);
  grant_index : ∀ id r, inner_index i' !! id = Some r →
    inner_index i !! id = Some r ∨ reservation_attributions (in_authority i') !! id = Some (rec_attribution r);
  grant_rollbacks : cids rbs ⊆ ids;
  grant_ids : NoDup ids ∧ ids ≠ [];
  grant_fresh : Forall (λ id, ¬ blocked i id) ids;
  grant_grows : grows (in_authority i) (in_authority i');
  grant_authorized : Forall (λ id, authorizes_order (in_authority i') id = true ∨ id ∈ held) ids;
  grant_held : NoDup held ∧ held ⊆ ids;
  grant_evidence_free : ∀ id, in_evidence_free i' !! id =
    if decide (id ∈ held) then Some PermitHeld else in_evidence_free i !! id;
  grant_total : in_admitted_order_count i' = in_admitted_order_count i + Z.of_nat (length ids) ∧
    in_admitted_order_count i' ≤ u32_max;
  grant_client : ∀ c, client_count i' c =
    client_count i c + if decide (c = client) then Z.of_nat (length ids) else 0;
  grant_approval : in_live_submit_approval_limits i' = in_live_submit_approval_limits i;
  grant_limit : ∀ limits, in_live_submit_approval_limits i !! client = Some limits →
    client_count i' client ≤ limits_max_order_count limits;
}.

Lemma grants_counters i i' out ids rbs held client crs :
  grants i i' out ids rbs held client → counters_inv i crs →
  counters_inv i' (mkCounterRollback client (Z.of_nat (length ids)) held :: crs).
Proof.
  intros Hg [Hpos Htot Hcli Hnd Hheld]. destruct (grant_ids _ _ _ _ _ _ _ Hg) as [_ Hne].
  destruct (grant_total _ _ _ _ _ _ _ Hg) as [Ht _]. destruct (grant_held _ _ _ _ _ _ _ Hg) as [Hndh Hsub].
  assert (1 ≤ Z.of_nat (length ids)) by (destruct ids; simpl in *; [done|lia]).
  assert (Hnew : ∀ id, id ∈ held → in_evidence_free i !! id = None).
  { intros id Hin%Hsub. pose proof (grant_fresh _ _ _ _ _ _ _ Hg) as Hf. rewrite Forall_forall in Hf.
    destruct (in_evidence_free i !! id) eqn:E; [|done]. exfalso. apply (Hf id Hin). right. by eexists. }
  rewrite Forall_forall in Hheld. split.
  - by constructor.
  - change (Z.of_nat (length ids) + Zsum (counter_order_count <$> crs) ≤ in_admitted_order_count i'). lia.
  - intros c. rewrite count_of_cons, (grant_client _ _ _ _ _ _ _ Hg c). specialize (Hcli c). simpl.
    destruct (decide (client = c)), (decide (c = client)); try congruence; lia.
  - unfold held_ids. simpl. apply NoDup_app. split_and!; [done| |done].
    intros id Hin Hin'. specialize (Hheld id Hin'). rewrite (Hnew id Hin) in Hheld. done.
  - unfold held_ids. simpl. apply Forall_app. split; apply Forall_forall; intros id Hin;
      rewrite (grant_evidence_free _ _ _ _ _ _ _ Hg).
    + by rewrite decide_True.
    + case_decide; [done|]. by apply Hheld.
Qed.

Lemma grants_inv i i' out sunk_ids ids rbs held client authority :
  submit_inv i out sunk_ids → grants i i' out ids rbs held client →
  submit_inv i'
    ((ids, mkPermit rbs (Some (mkCounterRollback client (Z.of_nat (length ids)) held)) (Some authority) false)
       :: out) sunk_ids.
Proof.
  intros Hi Hg. pose proof Hg as [Hlatch Hcap Hidx Hrbs [Hnd Hne] Hfresh Hgrow Hauth [Hndh Hsub] Hef Htot Hcli Happ Hlim].
  set (permit := mkPermit _ _ _ _). pose proof Hgrow as (Hsubs & Hfills & Hmono). split.
  - exact Hcap.
  - rewrite (crs_of_cons _ (mkCounterRollback client (Z.of_nat (length ids)) held)) by done.
    eapply grants_counters; [done|]. apply (inv_counters _ _ _ Hi).
  - constructor; [|apply (inv_granted _ _ _ Hi)]. split_and!; [done|by eexists|by eexists|done|done].
  - unfold out_ids. simpl. rewrite <-app_assoc. apply NoDup_app. split_and!; [done| |apply (inv_ids _ _ _ Hi)].
    intros id Hin [Hin'|Hin']%elem_of_app; rewrite Forall_forall in Hfresh; apply (Hfresh id Hin).
    + by eapply out_blocked.
    + by eapply sunk_blocked.
  - constructor; [done|]. eapply Forall_impl; [apply (inv_out _ _ _ Hi)|]. intros g Hgw.
    eapply Forall_impl; [exact Hgw|]. intros id [?|?]; [left; auto|by right].
  - eapply Forall_impl; [apply (inv_sunk _ _ _ Hi)|]. intros id [?|Hf]; [left; auto|]. right.
    rewrite Hef, decide_False; [done|]. intros Hin%Hsub. rewrite Forall_forall in Hfresh.
    apply (Hfresh id Hin). right. by rewrite Hf.
  - rewrite Hlatch. intros Hl id r Hr. destruct (Hidx id r Hr) as [Hold|]; [|done].
    eapply lookup_weaken; [|exact Hsubs]. exact (inv_index _ _ _ Hi Hl id r Hold).
  - rewrite Hlatch. intros Hl. eapply fills_attributed_grows; [done|by apply (inv_fills _ _ _ Hi)].
  - by apply Htot.
  - intros c limits Hl. rewrite Happ in Hl. rewrite Hcli. pose proof (inv_limits _ _ _ Hi c limits Hl) as Hold.
    case_decide as Hc; [|lia]. subst c. specialize (Hlim limits Hl). rewrite Hcli, decide_True in Hlim by done. lia.
Qed.

(** A step that grants nothing, uses no permit and gives none back. *)
Lemma steady_inv i i' out sunk_ids :
  submit_inv i out sunk_ids → capital_inv i' (rbs_of out) →
  (in_rollback_ownership_latch i' = None → in_rollback_ownership_latch i = None ∧
     ∀ id r, inner_index i' !! id = Some r →
       (∃ r0, inner_index i !! id = Some r0 ∧ rec_attribution r0 = rec_attribution r) ∨
       reservation_attributions (in_authority i') !! id = Some (rec_attribution r)) →
  grows (in_authority i) (in_authority i') →
  in_evidence_free i' = in_evidence_free i →
  in_admitted_order_count i' = in_admitted_order_count i →
  in_admitted_order_count_by_execution_client i' = in_admitted_order_count_by_execution_client i →
  in_live_submit_approval_limits i' = in_live_submit_approval_limits i →
  submit_inv i' out sunk_ids.
Proof.
  intros Hi Hcap Hidx Hgrow Hef Ht Hc Hl. pose proof Hgrow as (Hsubs & Hfills & Hmono).
  destruct Hi as [_ [? Htot Hcli ? Hheld] Hgr Hids Hout Hsunk Hix Hfl Htm Hlim]. split; try done.
  - split; [done|by rewrite Ht|unfold client_count; by rewrite Hc|done|by rewrite Hef].
  - eapply Forall_impl; [exact Hout|]. intros g Hgw. eapply Forall_impl; [exact Hgw|].
    intros id [?|?]; [left; auto|by right].
  - rewrite Hef. eapply Forall_impl; [exact Hsunk|]. intros id [?|?]; [left; auto|by right].
  - intros [Hl0 Hrec]%Hidx id r Hr. destruct (Hrec id r Hr) as [(r0 & Hold & <-)|]; [|done].
    eapply lookup_weaken; [|exact Hsubs]. exact (Hix Hl0 id r0 Hold).
  - intros [Hl0 _]%Hidx. eapply fills_attributed_grows; [done|by apply Hfl].
  - by rewrite Ht.
  - unfold client_count. rewrite Hc, Hl. exact Hlim.
Qed.

Lemma steady_frames_inv i i' out sunk_ids :
  submit_inv i out sunk_ids → frames i i' → capital_inv i' (rbs_of out) →
  (in_rollback_ownership_latch i' = None → in_rollback_ownership_latch i = None ∧
     ∀ id r, inner_index i' !! id = Some r →
       ∃ r0, inner_index i !! id = Some r0 ∧ rec_attribution r0 = rec_attribution r) →
  submit_inv i' out sunk_ids.
Proof.
  intros Hi Hf Hcap Hidx. pose proof (frames_counters _ _ Hf) as (? & ? & ?).
  pose proof (frames_context _ _ Hf) as (_ & ? & Ha & _).
  eapply steady_inv; try done; [|by rewrite Ha].
  intros [? Hr]%Hidx. split; [done|]. intros id r Hid. left. by apply Hr.
Qed.

(** Rolling back the reservations of evaluations that came to nothing. *)
Lemma rollback_extended i i1 i1' rbs legs out sunk_ids :
  submit_inv i out sunk_ids → extended rbs legs i i1 → capital_inv i1 (rbs ++ rbs_of out) →
  (∃ auth, i1' = set_authority i1 auth ∧ grows (in_authority i) auth) →
  let i' := rollback_capital_admission_reservations i1' rbs in
  submit_inv i' out sunk_ids ∧ frames i1' i' ∧
  (in_revision i + 2 * Z.of_nat (length rbs) ≤ u64_max →
   restored i i' ∧ in_rollback_ownership_latch i' = in_rollback_ownership_latch i).
Proof.
  intros Hi Hext Hcap (auth & -> & Hgrow).
  pose proof (rollback_reservations_ok (set_authority i1 auth) rbs (rbs_of out) Hcap) as (Hcap' & Hf & Hor).
  cbv zeta in *. set (i' := rollback_capital_admission_reservations _ _) in *.
  assert (Hres : rolled_back rbs (set_authority i1 auth) i' → restored i i').
  { intros Hrb. eapply extended_rolled_back; [exact Hext| | |exact Hrb]; [done|].
    intros c Hc. destruct Hcap as [_ Hm]. rewrite Hc in Hm. by destruct Hm. }
  assert (Hlat : rolled_back rbs (set_authority i1 auth) i' →
    in_rollback_ownership_latch i' = in_rollback_ownership_latch i).
  { intros [-> _]. apply (ext_latch _ _ _ _ Hext). }
  split_and!; [|done|].
  - pose proof (frames_counters _ _ Hf) as (E1 & E2 & E3). pose proof (frames_context _ _ Hf) as (_ & E4 & E5 & _).
    pose proof (frames_counters _ _ (ext_frames _ _ _ _ Hext)) as (F1 & F2 & F3).
    pose proof (frames_context _ _ (ext_frames _ _ _ _ Hext)) as (_ & F4 & F5 & _).
    eapply steady_inv; [done|done| |by rewrite E5|by rewrite E3|by rewrite E1|by rewrite E2|by rewrite E4].
    intros Hl. assert (Hrb : rolled_back rbs (set_authority i1 auth) i').
    { destruct Hor as [?|[_ Hlt]]; [done|congruence]. }
    split; [by rewrite <-(Hlat Hrb)|]. intros id r Hr. left. destruct (Hres Hrb) as [Hix _].
    rewrite Hix in Hr. by exists r.
  - intros Hrev. destruct Hor as [Hrb|[Hlt _]]; [split; auto|].
    pose proof (ext_revision _ _ _ _ Hext). simpl in Hlt. lia.
Qed.

(** ** One order *)

Lemma admitted_event_grows request e f f' :
  names_order (req_client_order_id request) (eval_reservation_attribution e) →
  (req_intent_kind request = RiskReducingExit → eval_reservation_attribution e = None) →
  recovery_apply (D := D) f (admitted_event request e) = Ok f' →
  grows f f' ∧ authorizes_order f' (req_client_order_id request) = true ∧
  ∀ a, eval_reservation_attribution e = Some a →
    reservation_attributions f' !! req_client_order_id request = Some a.
Proof.
  intros Hname Hexit Happ.
  assert (Hins : ∃ k, insert_admission f (req_client_order_id request) (eval_reservation_attribution e) k = Ok f').
  { unfold admitted_event in Happ. destruct (req_intent_kind request) eqn:Hk; simpl in Happ.
    - by eexists.
    - rewrite Hexit by done. by eexists. }
  destruct Hins as [k Hins]. pose proof (insert_admission_authorizes _ _ _ _ _ Hname Hins) as [_ Ha].
  apply insert_admission_grows in Hins as [Hg Hat]. split_and!; [done|apply Ha; by left|].
  intros a Hea. rewrite <-(Hname a Hea). by apply Hat.
Qed.

Lemma granted_exit request now i i' e :
  capital_granted request now i i' e → req_intent_kind request = RiskReducingExit →
  eval_reservation_attribution e = None.
Proof.
  intros Hg Hk. unfold capital_granted in Hg. rewrite Hk in Hg.
  destruct (in_capital i), (in_capital i'); naive_solver.
Qed.

(** What an operation that hands out no permit leaves unchanged; with room in the
    revision counter, the reservations too. *)
Definition unchanged (n : nat) i i' : Prop :=
  in_admitted_order_count i' = in_admitted_order_count i ∧
  in_admitted_order_count_by_execution_client i' = in_admitted_order_count_by_execution_client i ∧
  in_evidence_free i' = in_evidence_free i ∧
  (in_revision i + 2 * Z.of_nat n ≤ u64_max →
   restored i i' ∧ in_rollback_ownership_latch i' = in_rollback_ownership_latch i).

Lemma unchanged_mono n m i i' : (n ≤ m)%nat → unchanged n i i' → unchanged m i i'.
Proof. intros ? (? & ? & ? & Hr). split_and!; [done|done|done|]. intros ?. apply Hr. lia. Qed.

Lemma extended_kept rbs legs i i' : extended rbs legs i i' →
  keeps_context i i' ∧ in_admitted_order_count i' = in_admitted_order_count i ∧
  in_admitted_order_count_by_execution_client i' = in_admitted_order_count_by_execution_client i ∧
  in_evidence_free i' = in_evidence_free i.
Proof. intros Hf%ext_frames. split; [by apply frames_context|by apply frames_counters]. Qed.

(** The reservations of evaluations that came to nothing are given back. *)
Lemma withdraw i i1 i1' rbs legs out sunk_ids :
  submit_inv i out sunk_ids → extended rbs legs i i1 → capital_inv i1 (rbs ++ rbs_of out) →
  (∃ auth, i1' = set_authority i1 auth ∧ grows (in_authority i) auth) →
  let i' := rollback_capital_admission_reservations i1' rbs in
  submit_inv i' out sunk_ids ∧ unchanged (length rbs) i i' ∧ in_authority i' = in_authority i1' ∧ kept i i'.
Proof.
  intros Hi Hext Hcap Hauth. pose proof (rollback_extended _ _ _ _ _ _ _ Hi Hext Hcap Hauth) as (Hi' & Hf & Hr).
  cbv zeta in *. destruct Hauth as (auth & -> & _).
  pose proof (extended_kept _ _ _ _ Hext) as (_ & F1 & F2 & F3).
  pose proof (frames_counters _ _ Hf) as (E1 & E2 & E3). pose proof (frames_context _ _ Hf) as (_ & _ & E5 & _).
  split; [done|]. split; [split_and!; [by rewrite E1|by rewrite E2|by rewrite E3|done]|]. split; [done|].
  etrans; [by eapply extended_kept_index|]. etrans; [by apply (kept_index i1 (set_authority i1 auth))|].
  by apply (rollback_kept rbs (rbs_of out)).
Qed.

Lemma rollback_option_eq i (orb : option BoltV3CapitalAdmissionReservationRollback) :
  rollback_capital_admission_reservation i orb = rollback_capital_admission_reservations i (option_list orb).
Proof.
  destruct orb; [done|]. unfold rollback_capital_admission_reservations. simpl. by destruct i.
Qed.

(** A refusal, as seen from outside. *)
Definition refused_post n w out sunk_ids w' : Prop :=
  logged w w' ∧ submit_inv (sw_inner w') out sunk_ids ∧ unchanged n (sw_inner w) (sw_inner w') ∧
  kept (sw_inner w) (sw_inner w').

Lemma withdraw_refused w w1 w2 rbs legs out sunk_ids auth :
  submit_inv (sw_inner w) out sunk_ids → extended rbs legs (sw_inner w) (sw_inner w1) →
  capital_inv (sw_inner w1) (rbs ++ rbs_of out) → logged w w2 →
  sw_inner w2 = set_authority (sw_inner w1) auth → grows (in_authority (sw_inner w)) auth →
  refused_post (length rbs) w out sunk_ids
    (set_inner w2 (rollback_capital_admission_reservations (sw_inner w2) rbs)).
Proof.
  intros Hi Hext Hcap Hlog Ha Hg.
  destruct (withdraw (sw_inner w) (sw_inner w1) (sw_inner w2) rbs legs out sunk_ids) as (Hi' & Hu & Hau & Hk);
    [done|done|done|by exists auth|]. cbv zeta in *.
  split; [|by split_and!]. etrans; [exact Hlog|]. apply silent_logged; [done|exact Hau].
Qed.

(** A refused evaluation changes nothing. *)
Lemma refused_unchanged request now rbs w e w1 reason out sunk_ids :
  submit_inv (sw_inner w) out sunk_ids → rbs = rbs_of out →
  evaluated request now rbs w (Ok e) w1 → eval_outcome e = Rejected reason →
  refused_post 0 w out sunk_ids w1 ∧ in_authority (sw_inner w1) = in_authority (sw_inner w) ∧
  eval_rollback e = None.
Proof.
  intros Hi -> (Hs & Hf & Hl & _ & _ & Hcap & Ho) Hr. rewrite Hr in Ho. destruct Ho as (Hrb & _ & Hsame).
  rewrite Hrb in Hcap. pose proof (extended_nil [] _ _ Hf Hl Hsame) as Hext.
  pose proof (extended_kept _ _ _ _ Hext) as ((_ & _ & E5 & _) & F1 & F2 & F3).
  assert (Hix : inner_index (sw_inner w1) = inner_index (sw_inner w)).
  { apply map_eq. intros id. apply (ext_rest _ _ _ _ Hext). by intros ?%elem_of_nil. }
  split; [|done]. split; [by apply silent_logged|]. split; [|split; [|by apply kept_index]].
  - eapply steady_frames_inv; [done|done|done|]. rewrite Hl. intros ?. split; [done|].
    intros id r Hid. rewrite Hix in Hid. by exists r.
  - split_and!; [done|done|done|]. intros _. split; [|done]. split; [done|].
    destruct (ext_live _ _ _ _ Hext) as (news & -> & Hk). destruct news; [|done]. by rewrite app_nil_r.
Qed.

Definition admit_post request (economics : option Z) (now : Z) w out sunk_ids
    (r : Result BoltV3SubmitAdmissionPermit BoltV3SubmitAdmissionError) w' : Prop :=
  let i := sw_inner w in
  let i' := sw_inner w' in
  match r with
  | Ok permit =>
      logged w w' ∧ submit_inv i' (([req_client_order_id request], permit) :: out) sunk_ids ∧
      may_submit i request now ∧
      (∀ valid_until, economics = Some valid_until → now ≤ valid_until) ∧
      (∃ e, capital_granted request now i i' e ∧ permit_rollbacks permit = option_list (eval_rollback e)) ∧
      (∃ legs, extended (permit_rollbacks permit) legs i
                 (set_revision (set_capital i (in_capital i')) (in_revision i'))) ∧
      in_rollback_ownership_latch i' = in_rollback_ownership_latch i ∧
      (∃ held, permit_counter_rollback permit =
         Some (mkCounterRollback (req_execution_client_id request) 1 held) ∧
         grants i i' out [req_client_order_id request] (permit_rollbacks permit) held
           (req_execution_client_id request)) ∧
      (authorizes_order (in_authority i') (req_client_order_id request) = true ∨
       req_intent_kind request = RiskReducingExit)
  | Err _ => refused_post 1 w out sunk_ids w' ∧ in_authority i' = in_authority i
  end.

(** What the state of the capital side and the revision say about an extension. *)
Lemma extended_capital rbs legs i i1 i' :
  extended rbs legs i i1 → in_capital i' = in_capital i1 → in_revision i' = in_revision i1 →
  extended rbs legs i (set_revision (set_capital i (in_capital i')) (in_revision i')).
Proof.
  intros [Hf Hl Hr Hn Hx Hy] Hc Hrev.
  assert (E1 : inner_live (set_revision (set_capital i (in_capital i')) (in_revision i')) = inner_live i1)
    by (unfold inner_live; simpl; by rewrite Hc).
  assert (E2 : inner_index (set_revision (set_capital i (in_capital i')) (in_revision i')) = inner_index i1)
    by (unfold inner_index; simpl; by rewrite Hc).
  split; [etrans; [apply frames_capital|apply frames_revision]|done|by simpl; rewrite Hrev| | |].
  - by rewrite E1.
  - by rewrite E2.
  - by rewrite E2.
Qed.

(** What a grant needs of the capital side, from the reservations of its evaluations. *)
Lemma extended_grants i i1 i' rbs legs out sunk_ids :
  submit_inv i out sunk_ids → extended rbs legs i i1 → capital_inv i1 (rbs ++ rbs_of out) →
  in_capital i' = in_capital i1 → in_rollback_ownership_latch i' = in_rollback_ownership_latch i1 →
  (∀ id a, (id, Some a) ∈ legs → reservation_attributions (in_authority i') !! id = Some a) →
  in_rollback_ownership_latch i' = in_rollback_ownership_latch i ∧
  capital_inv i' (rbs ++ rbs_of out) ∧
  (∀ id r, inner_index i' !! id = Some r →
    inner_index i !! id = Some r ∨ reservation_attributions (in_authority i') !! id = Some (rec_attribution r)).
Proof.
  intros Hi Hext Hcap Hc Hl Hleg. split_and!.
  - rewrite Hl. apply (ext_latch _ _ _ _ Hext).
  - apply (capital_inv_same i1); [by rewrite Hl|by rewrite Hc; destruct (in_capital i1)|exact Hcap].
  - intros id r Hr. assert (Hix : inner_index i' = inner_index i1) by (unfold inner_index; by rewrite Hc).
    rewrite Hix in Hr. destruct (decide (id ∈ cids rbs)) as [Hin|Hno].
    + right. apply Hleg. by apply (ext_fresh _ _ _ _ Hext).
    + left. by rewrite <-(ext_rest _ _ _ _ Hext).
Qed.

Lemma checked_counters_Ok total client claims values :
  checked_admission_counter_values total client claims = Ok values →
  values = mkCounterValues (total + claims) (client + claims) ∧ total + claims ≤ u32_max.
Proof.
  unfold checked_admission_counter_values. intros Hv. result_inv.
  apply u32_checked_add_Some in E as [-> ?], E0 as [-> ?]. by subst.
Qed.

Lemma granted_cids request now i i' e :
  capital_granted request now i i' e →
  cids (option_list (eval_rollback e)) ⊆ [req_client_order_id request].
Proof.
  intros Hg. unfold capital_granted in Hg. destruct (eval_rollback e) as [rb|] eqn:Hrb; simpl; [|set_solver].
  destruct (in_capital i) as [c|], (in_capital i') as [c'|]; [|done|done|naive_solver].
  destruct (req_intent_kind request); [|naive_solver].
  destruct Hg as (rb' & a & Heq & _ & Hres). injection Heq as <-.
  destruct Hres as (? & ? & ? & ? & ? & ? & _ & -> & _). done.
Qed.

Lemma client_count_insert i total client n c :
  client_count (set_counts i total (<[client := n]> (in_admitted_order_count_by_execution_client i))) c =
    if decide (c = client) then n else client_count i c.
Proof.
  unfold client_count. simpl. case_decide as Hd; [subst; by rewrite lookup_insert_eq|].
  by rewrite lookup_insert_ne.
Qed.

(** The state a recorded admission of one order leads to is a grant. *)
Lemma one_grants request now e w w1 auth (tracked : bool) out sunk_ids :
  let i := sw_inner w in
  let i1 := sw_inner w1 in
  let id := req_client_order_id request in
  let client := req_execution_client_id request in
  let counted := set_counts (set_authority i1 auth) (in_admitted_order_count i1 + 1)
    (<[client := client_count i1 client + 1]> (in_admitted_order_count_by_execution_client i1)) in
  submit_inv i out sunk_ids → evaluated request now (rbs_of out) w (Ok e) w1 → eval_outcome e = OutcomeAdmitted →
  in_admitted_order_count i1 + 1 ≤ u32_max →
  grows (in_authority i1) auth →
  (authorizes_order auth id = true ∨ tracked = true) →
  (∀ a, eval_reservation_attribution e = Some a → reservation_attributions auth !! id = Some a) →
  grants i (if tracked then set_evidence_free counted (<[id := PermitHeld]> (in_evidence_free i1)) else counted)
    out [id] (option_list (eval_rollback e)) (if tracked then [id] else []) client.
Proof.
  cbv zeta. set (i := sw_inner w). set (i1 := sw_inner w1).
  set (id := req_client_order_id request). set (client := req_execution_client_id request).
  set (counted := set_counts _ _ _). intros Hi (Hs & Hf & Hl & Hl0 & Hv & Hcap & Ho) Hadm Hmax Hgrow Hau Hattr.
  rewrite Hadm in Ho. destruct Ho as (Hmay & Hg & Hrev).
  destruct (granted_extended _ _ _ _ _ Hf Hl Hg Hrev) as [Hext Hname].
  pose proof (extended_kept _ _ _ _ Hext) as ((_ & K2 & K3 & _) & F1 & F2 & F3).
  fold i i1 in Hf, Hl, Hl0, Hcap, Hext, K2, K3, F1, F2, F3, Hg, Hrev, Hmay.
  set (i' := if tracked then _ else _).
  assert (Hsame : in_capital i' = in_capital i1 ∧ in_rollback_ownership_latch i' = in_rollback_ownership_latch i1 ∧
    in_authority i' = auth ∧ in_live_submit_approval_limits i' = in_live_submit_approval_limits i1 ∧
    in_admitted_order_count i' = in_admitted_order_count i1 + 1 ∧
    ∀ c, client_count i' c = client_count counted c) by (unfold i'; by destruct tracked).
  destruct Hsame as (S1 & S2 & S3 & S4 & S5 & S6).
  destruct (extended_grants i i1 i' _ _ out sunk_ids Hi Hext Hcap S1 S2) as (G1 & G2 & G3).
  { intros id' a ?%list_elem_of_singleton. simplify_eq. rewrite S3. by apply Hattr. }
  assert (Hcc : ∀ c, client_count i' c = client_count i c + if decide (c = client) then 1 else 0).
  { intros c. rewrite S6. unfold counted.
    rewrite (client_count_insert (set_authority i1 auth)). unfold client_count. simpl. rewrite F2.
    destruct (decide (c = client)) as [->|]; lia. }
  split.
  - done.
  - done.
  - done.
  - by eapply granted_cids.
  - split; [apply NoDup_singleton|done].
  - constructor; [|done]. apply (submit_fresh _ _ _ Hmay).
  - by rewrite S3, <-K3.
  - constructor; [|done]. rewrite S3. destruct Hau as [?| ->]; [by left|right; apply list_elem_of_here].
  - destruct tracked; [split; [apply NoDup_singleton|done]|split; [constructor|set_solver]].
  - intros id'. unfold i'. destruct tracked; simpl; rewrite F3.
    + destruct (decide (id' = id)) as [->|Hne].
      * rewrite lookup_insert_eq, decide_True; [done|apply list_elem_of_here].
      * rewrite lookup_insert_ne by done. rewrite decide_False; [done|]. by intros ?%list_elem_of_singleton.
    + done.
  - rewrite S5, F1. rewrite F1 in Hmax. done.
  - intros c. rewrite Hcc. done.
  - by rewrite S4, K2.
  - intros limits Hlim. rewrite Hcc, decide_True by done. by apply (submit_limits _ _ _ Hmay).
Qed.

Context (evidence_io : nat → bool) (reject_episode_max_count : nat).

Ltac sub_step := unfold get_inner, put_inner, modify_inner; runs_step.

Lemma admit_permit_runs request economics now e values recorded authority w w1 w2 out sunk_ids :
  submit_inv (sw_inner w) out sunk_ids →
  (∀ valid_until, economics = Some valid_until → now ≤ valid_until) →
  evaluated request now (rbs_of out) w (Ok e) w1 → eval_outcome e = OutcomeAdmitted →
  checked_admission_counter_values (in_admitted_order_count (sw_inner w1))
    (client_count (sw_inner w1) (req_execution_client_id request)) 1 = Ok values →
  recorded_as request e w1 (Ok recorded) w2 → into_submit_authority recorded = Ok authority →
  runs (admit_permit request e values recorded authority) w2
    (λ p w', admit_post request economics now w out sunk_ids (Ok p) w').
Proof.
  intros Hi Heco Hev Hadm Hval Hrec Hauth. apply checked_counters_Ok in Hval as [-> Hmax].
  pose proof Hev as (Hs & Hf & Hl & Hl0 & Hv & Hcap & Ho). rewrite Hadm in Ho. destruct Ho as (Hmay & Hg & Hrev).
  destruct (granted_extended _ _ _ _ _ Hf Hl Hg Hrev) as [Hext Hname].
  destruct Hrec as (Hlog & auth & Hw2 & Hm). rewrite Hadm in Hm.
  assert (Hgrow : grows (in_authority (sw_inner w1)) auth ∧
    (authorizes_order auth (req_client_order_id request) = true ∨
     requires_evidence_free_non_reservation_tracking recorded = true ∧
     req_intent_kind request = RiskReducingExit ∧ eval_reservation_attribution e = None) ∧
    ∀ a, eval_reservation_attribution e = Some a →
      reservation_attributions auth !! req_client_order_id request = Some a).
  { pose proof (λ f f', admitted_event_grows request e f f' Hname (granted_exit _ _ _ _ _ Hg)) as Hgr.
    destruct recorded as [|b|]; [| |done].
    - destruct Hm as [_ Happ]. destruct (Hgr _ _ Happ) as (? & ? & ?). split_and!; [done|by left|done].
    - destruct Hm as (Hk & next & Happ & ->). destruct b.
      + destruct (Hgr _ _ Happ) as (? & ? & ?). split_and!; [done|by left|done].
      + split_and!; [done| |].
        * right. split_and!; [done|done|by eapply granted_exit].
        * intros a Ha. rewrite (granted_exit _ _ _ _ _ Hg Hk) in Ha. done. }
  destruct Hgrow as (Hgrow & Hau & Hattr). unfold admit_permit.
  set (tracked := is_none (eval_reservation_attribution e) && _).
  assert (Hau' : authorizes_order auth (req_client_order_id request) = true ∨ tracked = true).
  { destruct Hau as [?|(Ht & _ & Hn)]; [by left|right]. unfold tracked. by rewrite Hn, Ht. }
  pose proof (one_grants request now e w w1 auth tracked out sunk_ids Hi Hev Hadm Hmax Hgrow Hau' Hattr) as Hgr.
  cbv zeta in Hgr.
  assert (Hfin : ∀ w3, sw_log w3 = sw_log w2 → sw_inner w3 =
    (let counted := set_counts (set_authority (sw_inner w1) auth) (in_admitted_order_count (sw_inner w1) + 1)
       (<[req_execution_client_id request := client_count (sw_inner w1) (req_execution_client_id request) + 1]>
          (in_admitted_order_count_by_execution_client (sw_inner w1))) in
     if tracked then set_evidence_free counted
       (<[req_client_order_id request := PermitHeld]> (in_evidence_free (sw_inner w1))) else counted) →
    admit_post request economics now w out sunk_ids
      (Ok (mkPermit (option_list (eval_rollback e))
         (Some (mkCounterRollback (req_execution_client_id request) 1
            (if tracked then [req_client_order_id request] else []))) (Some authority) false)) w3).
  { intros w3 Hlog3 Hw3. cbv zeta in Hw3. rewrite <-Hw3 in Hgr. unfold admit_post. cbv zeta.
    assert (in_capital (sw_inner w3) = in_capital (sw_inner w1) ∧ in_revision (sw_inner w3) = in_revision (sw_inner w1)
      ∧ in_authority (sw_inner w3) = auth) as (E1 & E2 & E3) by (rewrite Hw3; by destruct tracked).
    split_and!.
    - etrans; [by apply (silent_logged w w1); [|apply frames_context in Hf; apply Hf]|].
      etrans; [exact Hlog|]. apply silent_logged; [by unfold silent; rewrite Hlog3|by rewrite E3, Hw2].
    - exact (grants_inv _ _ _ _ _ _ _ _ authority Hi Hgr).
    - done.
    - done.
    - exists e. split; [|done]. unfold capital_granted in Hg |- *. by rewrite E1.
    - eexists. by eapply extended_capital.
    - apply (grant_latch _ _ _ _ _ _ _ Hgr).
    - by eexists.
    - rewrite E3. destruct Hau as [?|(_ & ? & _)]; [by left|by right]. }
  clear Hgr. clearbody tracked. do 2 sub_step.
  destruct tracked; do 3 sub_step; apply Hfin; simpl; first [done|by rewrite Hw2].
Qed.

Lemma unchanged_same n i i' : i' = i → unchanged n i i'.
Proof. intros ->. by split_and!. Qed.

Lemma refused_same n w w' out sunk_ids :
  submit_inv (sw_inner w) out sunk_ids → silent w w' → sw_inner w' = sw_inner w →
  refused_post n w out sunk_ids w' ∧ in_authority (sw_inner w') = in_authority (sw_inner w).
Proof.
  intros Hi Hs Heq. rewrite Heq. split; [|done]. split; [|split; [by rewrite Heq|split; [by apply unchanged_same|apply kept_index; by rewrite Heq]]].
  apply silent_logged; [done|by rewrite Heq].
Qed.

Lemma refused_mono n m w w' out sunk_ids :
  (n ≤ m)%nat → refused_post n w out sunk_ids w' → refused_post m w out sunk_ids w'.
Proof. intros Hle (? & ? & ? & ?). split; [done|]. split; [done|]. split; [by eapply unchanged_mono|done]. Qed.

(** Evidence that moves no authority may follow a refusal. *)
Lemma refused_then n w w1 w2 out sunk_ids :
  refused_post n w out sunk_ids w1 → logged w1 w2 → sw_inner w2 = sw_inner w1 →
  refused_post n w out sunk_ids w2.
Proof. intros (? & ? & ? & ?) Hl Heq. unfold refused_post. rewrite Heq. split; [by etrans|done]. Qed.

(** The reservation of an admitted evaluation is given back, with the evidence that was
    recorded in between. *)
Lemma evaluated_withdrawn request now e w w1 w2 auth out sunk_ids :
  submit_inv (sw_inner w) out sunk_ids → evaluated request now (rbs_of out) w (Ok e) w1 →
  eval_outcome e = OutcomeAdmitted → logged w1 w2 → sw_inner w2 = set_authority (sw_inner w1) auth →
  grows (in_authority (sw_inner w1)) auth →
  let i' := rollback_capital_admission_reservation (sw_inner w2) (eval_rollback e) in
  refused_post 1 w out sunk_ids (set_inner w2 i') ∧ in_authority i' = auth.
Proof.
  intros Hi (Hs & Hf & Hl & Hl0 & Hv & Hcap & Ho) Hadm Hlog Hw2 Hgrow. rewrite Hadm in Ho.
  destruct Ho as (Hmay & Hg & Hrev). destruct (granted_extended _ _ _ _ _ Hf Hl Hg Hrev) as [Hext _].
  pose proof (frames_context _ _ Hf) as (_ & _ & Ha & _). rewrite Ha in Hgrow. cbv zeta. rewrite rollback_option_eq.
  assert (Hlog' : logged w w2) by (etrans; [by apply (silent_logged w w1)|exact Hlog]).
  pose proof (withdraw_refused w w1 w2 _ _ out sunk_ids auth Hi Hext Hcap Hlog' Hw2 Hgrow) as Hr. split.
  - eapply refused_mono; [|exact Hr]. destruct (eval_rollback e); simpl; lia.
  - destruct (withdraw (sw_inner w) (sw_inner w1) (sw_inner w2) _ _ out sunk_ids Hi Hext Hcap) as (_ & _ & -> & _);
      [by exists auth|by rewrite Hw2].
Qed.

Lemma admit_safe request economics now w out sunk_ids :
  submit_inv (sw_inner w) out sunk_ids →
  safe (admit_at_inner evidence_io reject_episode_max_count request economics now) w
    (admit_post request economics now w out sunk_ids).
Proof.
  intros Hi. unfold admit_at_inner. do 2 runs_step.
  destruct (ensure_economics_available economics now) as [[]|err] eqn:Eeco; [|by apply refused_same].
  assert (Heco : ∀ valid_until, economics = Some valid_until → now ≤ valid_until).
  { intros valid ->. simpl in Eeco. destruct (Z.ltb_spec valid now); [done|lia]. }
  runs_step. eapply safe_mono; [apply submit_evaluate_safe, (inv_capital _ _ _ Hi)|].
  intros r w1 Hev. destruct r as [e|err].
  2:{ destruct Hev as (Hs & _ & _ & _ & Heq). by apply refused_same. }
  pose proof Hev as (Hs & Hf & Hl & Hl0 & Hv & _). rewrite Hv. do 2 sub_step. cbn beta.
  pose proof (set_authority_id (sw_inner w1)) as Hid.
  destruct (eval_outcome e) as [|reason] eqn:Ho.
  - destruct (checked_admission_counter_values _ _ _) as [values|err] eqn:Ec.
    + runs_step. eapply runs_safe_mono; [by apply record_admission_decision_runs|].
      intros r w2 Hrec. destruct r as [recorded|[]].
      * destruct (into_submit_authority recorded) as [authority|err] eqn:Ea.
        -- runs_step. eapply runs_safe_mono; [by eapply admit_permit_runs|]. intros p w3 Hp. by runs_step.
        -- exfalso. destruct Hrec as (_ & auth & _ & Hm). rewrite Ho in Hm. by destruct recorded.
      * destruct Hrec as (Hlog & auth & Hw2 & Hm). rewrite Ho in Hm. do 3 sub_step.
        destruct (evaluated_withdrawn request now e w w1 w2 auth out sunk_ids) as [Hr Hau];
          [done|done|done|done|done|by rewrite Hm|].
        split; [done|]. cbv zeta in Hau. simpl. rewrite Hau, Hm. apply frames_context in Hf. apply Hf.
    + do 2 sub_step. set (e' := with_loss_snapshot_diagnostics _ _). runs_step.
      destruct (with_diagnostics_fields (without_loss_halt (Rejected CountCapExhausted) (eval_admission_now_ns e))
        (eval_loss_snapshot_diagnostics e)) as (Eo & _ & _ & Ev & _).
      eapply runs_safe_mono; [apply record_admission_decision_runs; unfold e'; by rewrite Ev|].
      intros r w2 (Hlog & auth & Hw2 & Hm). unfold e' in Hm. rewrite Eo in Hm. simpl in Hm.
      destruct r as [recorded|[]]; [|done]. subst auth. rewrite set_authority_id in Hw2.
      destruct (evaluated_withdrawn request now e w w1 w1 (in_authority (sw_inner w1)) out sunk_ids) as [Hr Hau];
        [done|done|done|done|done|done|]. runs_step. split.
      * by eapply refused_then.
      * rewrite Hw2. simpl. cbv zeta in Hau. rewrite Hau. apply frames_context in Hf. apply Hf.
  - destruct (refused_unchanged request now _ w e w1 reason out sunk_ids Hi eq_refl Hev Ho) as (Hr & Hau & _).
    runs_step. eapply runs_safe_mono; [by apply record_admission_decision_runs|].
    intros r w2 (Hlog & auth & Hw2 & Hm). rewrite Ho in Hm. destruct r as [recorded|[]]; [|done].
    subst auth. rewrite set_authority_id in Hw2. do 3 sub_step. split.
    + eapply refused_mono; [|by eapply refused_then]. lia.
    + by rewrite Hw2.
Qed.

(** ** Evaluation without capacity *)

(** A dry run hands out nothing; an admission it records stays recorded. *)
Lemma evaluate_only_safe request economics now w out sunk_ids :
  submit_inv (sw_inner w) out sunk_ids →
  safe (evaluate_and_record_without_consuming_capacity_at evidence_io reject_episode_max_count
          request economics now) w (λ _ w', refused_post 1 w out sunk_ids w').
Proof.
  intros Hi. unfold evaluate_and_record_without_consuming_capacity_at. do 2 runs_step.
  destruct (ensure_economics_available economics now) as [[]|err]; [|by apply refused_same].
  runs_step. eapply safe_mono; [apply submit_evaluate_safe, (inv_capital _ _ _ Hi)|].
  intros r w1 Hev. destruct r as [e|err].
  2:{ destruct Hev as (Hs & _ & _ & _ & Heq). by apply refused_same. }
  pose proof Hev as (Hs & Hf & Hl & Hl0 & Hv & _). rewrite Hv. runs_step.
  eapply runs_safe_mono; [by apply record_admission_decision_runs|].
  intros r w2 (Hlog & auth & Hw2 & Hm).
  assert (Hpost : refused_post 1 w out sunk_ids
    (set_inner w2 (rollback_capital_admission_reservation (sw_inner w2) (eval_rollback e)))).
  { destruct (eval_outcome e) as [|reason] eqn:Ho.
    - pose proof Hev as (_ & _ & _ & _ & _ & _ & Hadm). rewrite Ho in Hadm. destruct Hadm as (_ & Hg & Hrev).
      destruct (granted_extended _ _ _ _ _ Hf Hl Hg Hrev) as [_ Hname].
      eapply (evaluated_withdrawn request now e w w1 w2 auth); try done.
      destruct r as [[|b|]|[]]; try done; [| |by rewrite Hm].
      + destruct Hm as [_ Happ].
        by apply admitted_event_grows in Happ as (? & _); [|done|by apply granted_exit with (1 := Hg)].
      + destruct Hm as (_ & next & Happ & ->). destruct b; [|done].
        by apply admitted_event_grows in Happ as (? & _); [|done|by apply granted_exit with (1 := Hg)].
    - destruct (refused_unchanged request now _ w e w1 reason out sunk_ids Hi eq_refl Hev Ho) as (Hr & _ & ->).
      destruct r as [recorded|[]]; [|done]. subst auth. rewrite set_authority_id in Hw2. simpl.
      eapply refused_mono; [|by eapply refused_then]. lia. }
  do 2 sub_step. destruct r as [recorded|[]]; [|by runs_step]. do 2 sub_step. by runs_step.
Qed.

(** ** A basket *)

Definition leg_admission (leg : BasketAdmittedLeg) : text * option ReservationAttribution :=
  (leg_client_order_id leg, leg_reservation leg).

(** The claims admitted so far: their reservations are made, in [w1], and their legs name
    orders that may be submitted. *)
Record claims_state (strategy client : text) (now : Z) w out rbs (legs : list BasketAdmittedLeg)
    (claims : list (BoltV3BasketSubmitSlotClaim D)) w1 : Prop := {
  claims_silent : silent w w1;
  claims_extended : extended rbs (leg_admission <$> legs) (sw_inner w) (sw_inner w1);
  claims_capital : capital_inv (sw_inner w1) (rbs ++ rbs_of out);
  claims_ids : leg_client_order_id <$> legs = claim_client_order_id <$> claims;
  claims_kinds : leg_intent_kind <$> legs = (basket_intent_kind ∘ claim_intent_kind) <$> claims;
  claims_named : Forall (λ leg, names_order (leg_client_order_id leg) (leg_reservation leg)) legs;
  claims_rollbacks : cids rbs ⊆ leg_client_order_id <$> legs;
  claims_length : (length rbs ≤ length legs)%nat;
  claims_exits : Forall (λ leg, leg_intent_kind leg = BasketRiskReducingExit → leg_reservation leg = None) legs;
  claims_may : Forall (λ claim, may_submit (sw_inner w) (basket_submit_request strategy client claim) now) claims;
}.

Lemma claims_start strategy client now w out sunk_ids :
  submit_inv (sw_inner w) out sunk_ids → claims_state strategy client now w out [] [] [] w.
Proof.
  intros Hi. split; try done.
  - by apply extended_nil.
  - apply (inv_capital _ _ _ Hi).
Qed.

Lemma may_submit_frames i i' request now :
  frames i i' → in_rollback_ownership_latch i' = in_rollback_ownership_latch i →
  may_submit i' request now → may_submit i request now.
Proof.
  intros (c & r & l & eps & ->) Hl [? ? ? ? ? ? ?]. split; try done. by rewrite <-Hl.
Qed.

(** One more claim is admitted. *)
Lemma claims_step strategy client now w out rbs legs claims w1 claim e w2 :
  claims_state strategy client now w out rbs legs claims w1 →
  evaluated (basket_submit_request strategy client claim) now (rbs ++ rbs_of out) w1 (Ok e) w2 →
  eval_outcome e = OutcomeAdmitted →
  claims_state strategy client now w out (rbs ++ option_list (eval_rollback e))
    (legs ++ [mkLeg (claim_client_order_id claim) (claim_instrument_id claim)
                (basket_intent_kind (claim_intent_kind claim)) (eval_reservation_attribution e)])
    (claims ++ [claim]) w2.
Proof.
  intros [Hs Hext Hcap Hids Hkinds Hnm Hrb Hlen Hex Hmay] (Hs2 & Hf2 & Hl2 & Hl0 & Hv & Hcap2 & Ho) Hadm.
  rewrite Hadm in Ho. destruct Ho as (Hm & Hg & Hrev).
  destruct (granted_extended _ _ _ _ _ Hf2 Hl2 Hg Hrev) as [Hext2 Hname]. split.
  - by etrans.
  - rewrite fmap_app. by eapply extended_trans.
  - eapply capital_inv_perm; [|exact Hcap2]. by rewrite app_assoc, (Permutation_app_comm (option_list _)).
  - by rewrite !fmap_app, Hids.
  - by rewrite !fmap_app, Hkinds.
  - apply Forall_app. split; [done|]. constructor; [exact Hname|constructor].
  - unfold cids. rewrite !fmap_app.
    pose proof (granted_cids _ _ _ _ _ Hg) as Hc. intros id [Hin|Hin]%elem_of_app; apply elem_of_app.
    + left. by apply Hrb.
    + right. by apply Hc.
  - rewrite !length_app. simpl. destruct (eval_rollback e); simpl; lia.
  - apply Forall_app. split; [done|]. constructor; [|constructor]. simpl. intros Hk.
    apply (granted_exit _ _ _ _ _ Hg). simpl. by destruct (claim_intent_kind claim).
  - apply Forall_app. split; [done|]. constructor; [|constructor].
    eapply may_submit_frames; [apply (ext_frames _ _ _ _ Hext)|apply (ext_latch _ _ _ _ Hext)|exact Hm].
Qed.

(** A refused claim changes nothing of the state the earlier ones left. *)
Lemma claims_refused strategy client now w out rbs legs claims w1 request e w2 reason :
  claims_state strategy client now w out rbs legs claims w1 →
  evaluated request now (rbs ++ rbs_of out) w1 (Ok e) w2 → eval_outcome e = Rejected reason →
  claims_state strategy client now w out rbs legs claims w2.
Proof.
  intros [Hs Hext Hcap Hids Hkinds Hnm Hrb Hlen Hex Hmay] (Hs2 & Hf2 & Hl2 & _ & Hv & Hcap2 & Ho) Hr.
  rewrite Hr in Ho. destruct Ho as (Hn & _ & Hsame). rewrite Hn in Hcap2.
  split; try done; [by etrans|].
  rewrite <-(app_nil_r rbs), <-(app_nil_r (leg_admission <$> legs)).
  eapply extended_trans; [exact Hext|]. by apply extended_nil.
Qed.

(** Giving up on a basket. *)
Lemma claims_withdrawn strategy client now w out sunk_ids rbs legs claims w1 :
  submit_inv (sw_inner w) out sunk_ids → claims_state strategy client now w out rbs legs claims w1 →
  let i' := rollback_capital_admission_reservations (sw_inner w1) rbs in
  refused_post (length claims) w out sunk_ids (set_inner w1 i') ∧ in_authority i' = in_authority (sw_inner w).
Proof.
  intros Hi [Hs Hext Hcap Hids _ _ _ Hlen _ _]. cbv zeta.
  pose proof (extended_kept _ _ _ _ Hext) as ((_ & _ & Ha & _) & _).
  assert (Hlog : logged w w1) by (by apply silent_logged).
  assert (Hw : sw_inner w1 = set_authority (sw_inner w1) (in_authority (sw_inner w)))
    by (rewrite <-Ha; symmetry; apply set_authority_id).
  split.
  - eapply refused_mono; [|by eapply (withdraw_refused w w1 w1)].
    apply (f_equal length) in Hids. rewrite !length_fmap in Hids. lia.
  - destruct (withdraw (sw_inner w) (sw_inner w1) (sw_inner w1) rbs _ out sunk_ids Hi Hext Hcap) as (_ & _ & -> & _);
      [by exists (in_authority (sw_inner w))|done].
Qed.

Lemma evaluate_claims_safe strategy client now w out sunk_ids all claims :
  submit_inv (sw_inner w) out sunk_ids →
  ∀ rbs legs before w1, all = before ++ claims →
  claims_state strategy client now w out rbs legs before w1 →
  safe (evaluate_claims evidence_io strategy client now rbs legs claims) w1 (λ r w2,
    match r with
    | Err _ => refused_post (length all) w out sunk_ids w2 ∧
        in_authority (sw_inner w2) = in_authority (sw_inner w)
    | Ok (rbs', legs', None) => claims_state strategy client now w out rbs' legs' all w2
    | Ok (rbs', legs', Some e) =>
        (∃ before', claims_state strategy client now w out rbs' legs' before' w2 ∧
           (length before' ≤ length all)%nat) ∧
        evaluation_validate e = Ok tt ∧ ∃ reason, eval_outcome e = Rejected reason
    end).
Proof.
  intros Hi. induction claims as [|claim claims IH]; intros rbs legs before w1 Hall Hst;
    cbn [evaluate_claims].
  { runs_step. by rewrite Hall, app_nil_r. }
  runs_step. eapply safe_mono; [apply submit_evaluate_safe, (claims_capital _ _ _ _ _ _ _ _ _ Hst)|].
  intros r w2 Hev. assert (Hle : (length before ≤ length all)%nat) by (rewrite Hall, length_app; lia).
  destruct r as [e|err].
  - pose proof Hev as (_ & _ & _ & _ & Hv & _). rewrite Hv. destruct (eval_outcome e) as [|reason] eqn:Ho.
    + apply (IH _ _ (before ++ [claim])); [by rewrite Hall, <-app_assoc|]. by eapply claims_step.
    + runs_step. split_and!; [|done|by exists reason]. exists before. split; [|done].
      by eapply claims_refused.
  - pose proof Hev as (Hs & _ & _ & _ & Heq).
    assert (Hst2 : claims_state strategy client now w out rbs legs before w2).
    { destruct Hst. split; try done; rewrite ?Heq; try done. by etrans. }
    do 3 sub_step. destruct (claims_withdrawn _ _ _ _ _ _ _ _ _ _ Hi Hst2) as [Hr Ha].
    split; [by eapply refused_mono|exact Ha].
Qed.

Lemma insert_held_lookup ids held id :
  insert_held held ids !! id = if decide (id ∈ ids) then Some PermitHeld else held !! id.
Proof.
  clear evidence_io reject_episode_max_count.
  unfold insert_held. revert held. induction ids as [|id' ids IH]; intros held; cbn [foldl].
  - rewrite decide_False; [done|]. by intros ?%elem_of_nil.
  - rewrite IH. destruct (decide (id = id')) as [->|Hne].
    + rewrite lookup_insert_eq. repeat case_decide; set_solver.
    + rewrite lookup_insert_ne by done. repeat case_decide; set_solver.
Qed.

Definition basket_post (client : text) (claims : list (BoltV3BasketSubmitSlotClaim D))
    (strategy : text) (now : Z) w out sunk_ids
    (r : Result BoltV3SubmitAdmissionPermit BoltV3SubmitAdmissionError) w' : Prop :=
  let i := sw_inner w in
  let i' := sw_inner w' in
  let ids := claim_client_order_id <$> claims in
  match r with
  | Ok permit =>
      logged w w' ∧ submit_inv i' ((ids, permit) :: out) sunk_ids ∧
      Forall (λ claim, may_submit i (basket_submit_request strategy client claim) now) claims ∧
      (∃ legs, extended (permit_rollbacks permit) legs i
                 (set_revision (set_capital i (in_capital i')) (in_revision i'))) ∧
      (∃ held, permit_counter_rollback permit =
         Some (mkCounterRollback client (Z.of_nat (length ids)) held) ∧
         grants i i' out ids (permit_rollbacks permit) held client) ∧
      (Forall (λ id, authorizes_order (in_authority i') id = true) ids ∨
       Forall (λ claim, claim_intent_kind claim = RiskReducingExit) claims)
  | Err _ => refused_post (length claims) w out sunk_ids w' ∧ in_authority i' = in_authority i
  end.

(** The legs of an admitted basket, with or without its record. *)
Lemma basket_grants strategy client now w out sunk_ids rbs legs claims w1 next (committed : bool) i' :
  submit_inv (sw_inner w) out sunk_ids → claims_state strategy client now w out rbs legs claims w1 →
  claims ≠ [] → insert_legs (in_authority (sw_inner w)) legs = Ok next →
  committed || forallb (λ leg, match leg_intent_kind leg with
    | BasketRiskReducingExit => true | BasketEntry => false end) legs = true →
  let ids := claim_client_order_id <$> claims in
  let n := Z.of_nat (length claims) in
  in_admitted_order_count (sw_inner w) + n ≤ u32_max →
  basket_cap_outcome (sw_inner w) client n = OutcomeAdmitted →
  i' = set_evidence_free
    (set_counts (set_authority (sw_inner w1) (if committed then next else in_authority (sw_inner w)))
       (in_admitted_order_count (sw_inner w) + n)
       (<[client := client_count (sw_inner w) client + n]> (in_admitted_order_count_by_execution_client (sw_inner w))))
    (insert_held (in_evidence_free (sw_inner w)) (if committed then [] else leg_client_order_id <$> legs)) →
  grants (sw_inner w) i' out ids rbs (if committed then [] else ids) client.
Proof.
  intros Hi Hst Hne Hins Hpure ids n Hmax Hcap Hi'. pose proof Hst as [Hs Hext Hc Hids Hkinds Hnm Hrb Hlen Hex Hmay].
  destruct (insert_legs_authorizes _ _ _ Hnm Hins) as (Hnd & _ & Hau).
  destruct (insert_legs_grows _ _ _ Hins) as [Hgrow Hat].
  pose proof (extended_kept _ _ _ _ Hext) as ((_ & K2 & K3 & _) & F1 & F2 & F3).
  rewrite Hids in Hau, Hnd. fold ids in Hau, Hnd.
  assert (Hauth : in_authority i' = if committed then next else in_authority (sw_inner w)) by (by rewrite Hi').
  destruct (extended_grants (sw_inner w) (sw_inner w1) i' _ _ out sunk_ids Hi Hext Hc) as (G1 & G2 & G3);
    [by rewrite Hi'|by rewrite Hi'| |].
  { intros id a (leg & Hleg & Hin)%list_elem_of_fmap. unfold leg_admission in Hleg. injection Hleg as -> Hres.
    rewrite Hauth. rewrite Forall_forall in Hnm, Hex. destruct committed.
    - rewrite <-(Hnm leg Hin a (eq_sym Hres)). by eapply Hat.
    - simpl in Hpure. rewrite forallb_forall in Hpure. specialize (Hpure leg).
      rewrite (Hex leg Hin) in Hres; [done|]. apply list_elem_of_In in Hin. specialize (Hpure Hin).
      by destruct (leg_intent_kind leg). }
  assert (Hcc : ∀ c, client_count i' c = client_count (sw_inner w) c + if decide (c = client) then n else 0).
  { intros c. rewrite Hi'. unfold client_count. simpl. destruct (decide (c = client)) as [->|Hd].
    - by rewrite lookup_insert_eq.
    - rewrite lookup_insert_ne by done. lia. }
  assert (Hlen' : Z.of_nat (length ids) = n) by (unfold ids; by rewrite length_fmap).
  split.
  - done.
  - done.
  - done.
  - unfold ids. by rewrite <-Hids.
  - split; [done|]. unfold ids. by destruct claims.
  - unfold ids. apply Forall_fmap. eapply Forall_impl; [exact Hmay|]. intros claim Hm. apply (submit_fresh _ _ _ Hm).
  - rewrite Hauth. by destruct committed.
  - apply Forall_forall. intros id Hin. rewrite Hauth. destruct committed; [left; apply Hau; by left|by right].
  - destruct committed; [split; [constructor|set_solver]|by split].
  - intros id. rewrite Hi'. simpl. rewrite insert_held_lookup. rewrite Hids. by destruct committed.
  - rewrite Hlen', Hi'. simpl. done.
  - intros c. rewrite Hcc, Hlen'. done.
  - rewrite Hi'. simpl. by rewrite K2.
  - intros limits Hl. rewrite Hcc, decide_True by done. unfold basket_cap_outcome in Hcap. rewrite Hl in Hcap.
    apply count_cap_admits. congruence.
Qed.

Lemma exits_of_legs legs (claims : list (BoltV3BasketSubmitSlotClaim D)) :
  leg_intent_kind <$> legs = (basket_intent_kind ∘ claim_intent_kind) <$> claims →
  forallb (λ leg, match leg_intent_kind leg with
    | BasketRiskReducingExit => true | BasketEntry => false end) legs = true →
  Forall (λ claim, claim_intent_kind claim = RiskReducingExit) claims.
Proof.
  revert claims. induction legs as [|leg legs IH]; intros [|claim claims] Hk; try done.
  simpl in Hk. injection Hk as Hk Hks. simpl. intros [Hl Hls]%andb_true_iff. constructor; [|by apply IH].
  simpl in Hk. rewrite Hk in Hl. by destruct (claim_intent_kind claim).
Qed.

Lemma grant_basket_runs strategy client now details w out sunk_ids rbs legs claims w1 :
  submit_inv (sw_inner w) out sunk_ids → claims_state strategy client now w out rbs legs claims w1 →
  claims ≠ [] → basket_cap_outcome (sw_inner w) client (Z.of_nat (length claims)) = OutcomeAdmitted →
  runs (grant_basket evidence_io client details (Z.of_nat (length claims)) rbs legs) w1
    (basket_post client claims strategy now w out sunk_ids).
Proof.
  intros Hi Hst Hne Hcap. unfold grant_basket. do 2 sub_step. cbn beta.
  pose proof Hst as [Hs Hext Hc Hids Hkinds Hnm _ _ _ Hmay].
  pose proof (extended_kept _ _ _ _ Hext) as ((_ & _ & K3 & _) & F1 & F2 & F3).
  assert (Hgive : ∀ err w2, sw_inner w2 = sw_inner w1 → logged w1 w2 →
    runs (modify_inner (λ i, rollback_capital_admission_reservations i rbs) ;; mret (Err err)) w2
      (basket_post client claims strategy now w out sunk_ids)).
  { intros err w2 Hw2 Hlog. do 3 sub_step. rewrite Hw2.
    destruct (claims_withdrawn _ _ _ _ _ _ _ _ _ _ Hi Hst) as [(Hl & Hi' & Hu) Ha]. split; [|exact Ha].
    split; [|by split]. etrans; [by apply (silent_logged w w1)|]. etrans; [exact Hlog|].
    apply silent_logged; [done|]. simpl. by rewrite Ha, Hw2, K3. }
  destruct (checked_admission_counter_values _ _ _) as [values|err] eqn:Ev; [|by apply Hgive].
  apply checked_counters_Ok in Ev as [-> Hmax]. rewrite F1 in Hmax.
  destruct (recovery_apply _ _) as [next|err] eqn:Happ; [|by apply Hgive].
  runs_step. apply (runs_commit_recovery_event _ _ next); [done|]. intros b w2 Hw2 _ _ Hlog.
  simpl in Happ. rewrite K3 in Happ.
  set (pure := forallb _ legs). destruct (b || pure) eqn:Hgo.
  2:{ apply orb_false_iff in Hgo as [-> _]. by apply Hgive. }
  do 4 sub_step.
  set (w3 := set_inner (set_inner w2 _) _).
  assert (Hi3 : sw_inner w3 = set_evidence_free
    (set_counts (set_authority (sw_inner w1) (if b then next else in_authority (sw_inner w)))
       (in_admitted_order_count (sw_inner w) + Z.of_nat (length claims))
       (<[client := client_count (sw_inner w) client + Z.of_nat (length claims)]>
          (in_admitted_order_count_by_execution_client (sw_inner w))))
    (insert_held (in_evidence_free (sw_inner w)) (if b then [] else leg_client_order_id <$> legs))).
  { unfold w3. simpl. rewrite Hw2. unfold client_count. rewrite F1, F2, <-F3.
    destruct b; simpl; rewrite ?F2, ?F3; [done|]. by rewrite <-K3, set_authority_id. }
  pose proof (basket_grants strategy client now w out sunk_ids rbs legs claims w1 next b _ Hi Hst Hne Happ Hgo
    Hmax Hcap Hi3) as Hg. runs_step. unfold basket_post. cbv zeta.
  assert (Hheld : (if b then [] else leg_client_order_id <$> legs) = if b then [] else claim_client_order_id <$> claims)
    by (by rewrite Hids).
  assert (Hlen : Z.of_nat (length claims) = Z.of_nat (length (claim_client_order_id <$> claims)))
    by (by rewrite length_fmap).
  rewrite Hheld, Hlen. split_and!.
  - etrans; [by apply (silent_logged w w1)|]. etrans; [exact Hlog|].
    apply silent_logged; [done|]. rewrite Hi3, Hw2. simpl. destruct b; [done|]. by rewrite <-K3.
  - eapply grants_inv; [exact Hi|exact Hg].
  - done.
  - eexists. eapply extended_capital; [exact Hext|by rewrite Hi3|by rewrite Hi3].
  - by eexists.
  - rewrite Hi3. simpl. destruct b.
    + left. apply Forall_forall. intros id Hin. eapply insert_legs_authorizes; [done|exact Happ|]. left.
      by rewrite Hids.
    + right. by apply (exits_of_legs legs).
Qed.

Lemma reserve_basket_safe client claims details clock w out sunk_ids :
  submit_inv (sw_inner w) out sunk_ids →
  safe (reserve_basket_submit_slots_with_evidence evidence_io client claims details clock) w (λ r w',
    match r with
    | Err _ => refused_post (length claims) w out sunk_ids w' ∧
        in_authority (sw_inner w') = in_authority (sw_inner w)
    | Ok _ => ∃ now, clock = Ok now ∧
        basket_post client claims (basket_strategy_id details) now w out sunk_ids r w'
    end).
Proof.
  intros Hi. unfold reserve_basket_submit_slots_with_evidence.
  destruct clock as [now|reason]; [|runs_step; by apply refused_same].
  unfold checked_basket_claim_count. do 2 runs_step.
  destruct (Z.leb_spec (Z.of_nat (length claims)) u32_max) as [Hle|Hgt]; [|by apply refused_same].
  runs_step. eapply safe_mono.
  { apply (evaluate_claims_safe (basket_strategy_id details) client now w out sunk_ids claims claims Hi [] [] []);
      [done|by eapply claims_start]. }
  intros r w1 Hr. destruct r as [[[rbs legs] refused]|err]; [|done]. do 2 sub_step. cbn beta.
  match goal with |- safe _ _ ?Q => set (Post := Q) end.
  assert (Hrefuse : ∀ before (result : BoltV3SubmitAdmissionInner D → Result unit BoltV3SubmitAdmissionError)
      (err : BoltV3SubmitAdmissionInner D → BoltV3SubmitAdmissionError),
    claims_state (basket_strategy_id details) client now w out rbs legs before w1 →
    (length before ≤ length claims)%nat →
    safe (modify_inner (λ i, rollback_capital_admission_reservations i rbs) ;;
          i ← get_inner; mret (result i) ;;! mret (Err (err i))) w1 Post).
  { intros before result err Hst Hlen. destruct (claims_withdrawn _ _ _ _ _ _ _ _ _ _ Hi Hst) as [Hr' Ha].
    cbv zeta in Ha. do 6 sub_step. destruct (result _); [runs_step|]; (split; [by eapply refused_mono|exact Ha]). }
  destruct refused as [e|].
  - destruct Hr as ((before & Hst & Hlen) & Hv & reason & Ho). rewrite Ho.
    by apply (Hrefuse before (λ i, admission_result i e)).
  - destruct claims as [|claim claims]; [by apply (Hrefuse [] (λ _, Ok tt))|].
    set (all := claim :: claims) in *.
    assert (Hcap : basket_cap_outcome (sw_inner w1) client (Z.of_nat (length all)) =
      basket_cap_outcome (sw_inner w) client (Z.of_nat (length all))).
    { pose proof (extended_kept _ _ _ _ (claims_extended _ _ _ _ _ _ _ _ _ Hr)) as ((_ & K2 & _) & _ & F2 & _).
      unfold basket_cap_outcome, client_count. by rewrite K2, F2. }
    destruct (basket_cap_outcome (sw_inner w1) client _) eqn:Ho.
    + eapply runs_safe_mono; [by eapply grant_basket_runs|]. intros r w2 Hp.
      destruct r as [permit|err]; [by exists now|exact Hp].
    + by apply (Hrefuse all (λ _, Ok tt)).
Qed.

(** ** Using a permit, dropping a permit *)

Lemma submit_inv_perm i out out' sunk_ids :
  out ≡ₚ out' → submit_inv i out sunk_ids → submit_inv i out' sunk_ids.
Proof.
  intros Hp [Hcap Hcnt Hgr Hids Hout Hsunk Hix Hfl Ht Hlim]. split; try done.
  - eapply capital_inv_perm; [|exact Hcap]. unfold rbs_of. by rewrite Hp.
  - unfold crs_of in *. by rewrite <-Hp.
  - by rewrite <-Hp.
  - unfold out_ids in *. by rewrite <-Hp.
  - by rewrite <-Hp.
Qed.

(** The permit at the head and the rest. *)
Lemma submit_inv_head i ids permit out sunk_ids :
  submit_inv i ((ids, permit) :: out) sunk_ids →
  ∃ cr, permit_counter_rollback permit = Some cr ∧ permit_committed permit = false ∧
    is_Some (permit_evidence_authority permit) ∧
    capital_inv i (permit_rollbacks permit ++ rbs_of out) ∧ counters_inv i (cr :: crs_of out) ∧
    held_of permit = uncommitted_evidence_free_client_order_ids cr ∧ held_of permit ⊆ ids ∧
    cids (permit_rollbacks permit) ⊆ ids.
Proof.
  intros [Hcap Hcnt Hgr _ _ _ _ _ _ _]. apply Forall_cons in Hgr as [(Hc & Ha & (cr & Hcr & _) & Hh & Hr) _].
  rewrite (crs_of_cons _ cr) in Hcnt by done. exists cr. unfold held_of in *. simpl in Hcr, Hh. rewrite Hcr in *.
  by split_and!.
Qed.

Lemma index_dropped rbs i i' id r :
  rolled_back rbs i i' → inner_index i' !! id = Some r → inner_index i !! id = Some r.
Proof.
  intros (_ & _ & Hm). unfold inner_index. destruct (in_capital i) as [c|], (in_capital i') as [c'|]; try done.
  case_decide; [by subst|]. destruct Hm as (_ & _ & _ & Hidx & _). rewrite Hidx. by case_decide.
Qed.

Definition drop_post w permit out sunk_ids w' : Prop :=
  silent w w' ∧ submit_inv (sw_inner w') out sunk_ids ∧ keeps_context (sw_inner w) (sw_inner w') ∧
  kept (sw_inner w) (sw_inner w') ∧
  (in_revision (sw_inner w) + Z.of_nat (length (permit_rollbacks permit)) ≤ u64_max →
   rolled_back (permit_rollbacks permit) (sw_inner w) (sw_inner w') ∧
   ∀ cr, permit_counter_rollback permit = Some cr →
     in_admitted_order_count (sw_inner w') = in_admitted_order_count (sw_inner w) - counter_order_count cr ∧
     (∀ client, client_count (sw_inner w') client = client_count (sw_inner w) client -
        if decide (client = counter_execution_client_id cr) then counter_order_count cr else 0) ∧
     (∀ id, in_evidence_free (sw_inner w') !! id =
        if decide (id ∈ uncommitted_evidence_free_client_order_ids cr) then None
        else in_evidence_free (sw_inner w) !! id)).

Lemma drop_runs ids permit w out sunk_ids :
  submit_inv (sw_inner w) ((ids, permit) :: out) sunk_ids →
  runs (permit_drop permit) w (λ _ w', drop_post w permit out sunk_ids w').
Proof.
  intros Hi. destruct (submit_inv_head _ _ _ _ _ Hi) as (cr & Hcr & Hcom & _ & Hcap & Hcnt & Hh & Hsub & _).
  unfold permit_drop. rewrite Hcom, Hcr. sub_step. unfold drop_post. cbn [sw_inner set_inner].
  destruct (rollback_permit_ok _ _ _ _ _ Hcap Hcnt) as (Hcap' & Hcnt' & Hkeep & Hforget & [Ht Hc] & Hor).
  set (i' := rollback_unsubmitted_permit _ _ _) in *. pose proof Hkeep as (_ & K2 & K3 & _).
  split_and!; [done| |done|by eapply rollback_permit_kept|].
  - destruct Hi as [_ _ Hgr Hids Hout Hsunk Hix Hfl Htm Hlim].
    apply Forall_cons in Hgr as [_ Hgr]. apply Forall_cons in Hout as [_ Hout].
    unfold out_ids in Hids. simpl in Hids. rewrite <-app_assoc in Hids. apply NoDup_app in Hids as (_ & _ & Hids).
    assert (Hlat : in_rollback_ownership_latch i' = None →
      rolled_back (permit_rollbacks permit) (sw_inner w) i') by (intros ?; destruct Hor as [[_ ?]|[? _]]; [congruence|done]).
    split; [done|done|done|done|by rewrite K3| |..|lia|].
    + rewrite K3. eapply Forall_impl; [exact Hsunk|]. intros id [?|?]; [by left|right]. by eapply forgets_sunk.
    + intros Hl id r Hr. rewrite K3. specialize (Hlat Hl). apply Hix.
      * destruct Hlat as [<- _]. done.
      * by eapply index_dropped.
    + intros Hl. rewrite K3. apply Hfl. destruct (Hlat Hl) as [<- _]. done.
    + intros client limits Hlm. rewrite K2 in Hlm. specialize (Hlim client limits Hlm). specialize (Hc client). lia.
  - intros Hroom. destruct Hor as [[? _]|(Hrb & Hto & Hcl & Hef)]; [lia|]. split; [done|].
    intros cr' Heq. rewrite Hcr in Heq. injection Heq as <-. split_and!; [done|done|]. intros id. case_decide as Hin; [by apply Hef|].
    destruct (Hforget id) as [?|[? _]]; done.
Qed.

Definition sink_post w ids permit out sunk_ids
    (r : Result BoltV3SubmitAdmissionPermit ReservationRejectionReason) w' : Prop :=
  match r with
  | Ok permit' =>
      permit_committed permit' = true ∧ permit_evidence_authority permit' = None ∧
      silent w w' ∧ submit_inv (sw_inner w') out (ids ++ sunk_ids) ∧
      keeps_context (sw_inner w) (sw_inner w') ∧
      in_rollback_ownership_latch (sw_inner w') = in_rollback_ownership_latch (sw_inner w) ∧
      in_revision (sw_inner w') = in_revision (sw_inner w) + Z.of_nat (length (permit_rollbacks permit)) ∧
      inner_live (sw_inner w') = inner_live (sw_inner w) ∧ kept (sw_inner w) (sw_inner w') ∧
      (∀ id, id ∈ cids (permit_rollbacks permit) → ∃ r, inner_index (sw_inner w') !! id = Some r ∧
         rec_phase r = SinkInvoked)
  | Err _ => w' = w ∧ u64_max < in_revision (sw_inner w) + Z.of_nat (length (permit_rollbacks permit))
  end.

Lemma sink_runs ids permit w out sunk_ids :
  submit_inv (sw_inner w) ((ids, permit) :: out) sunk_ids →
  runs (sink_invocation permit true) w (sink_post w ids permit out sunk_ids).
Proof.
  intros Hi. destruct (submit_inv_head _ _ _ _ _ Hi) as (cr & Hcr & Hcom & [authority Hau] & Hcap & Hcnt & Hh & Hsub & Hcid).
  unfold sink_invocation. do 2 sub_step. cbn beta. rewrite Hcr.
  pose proof (sink_permit_ok _ _ _ _ _ Hcap Hcnt) as Hp.
  destruct (prepare_submit_sink_invocation _ _ _) as [prepared|reason]; [|by runs_step].
  rewrite Hau. do 3 sub_step. cbv zeta in Hp. set (i' := commit_submit_sink_invocation _ _) in *.
  destruct Hp as (Hcap' & Hcnt' & Hkeep & Hl & Ht & Hc & Hrev & Hef & Hm). pose proof Hkeep as (_ & K2 & K3 & _).
  assert (Hidx : inner_live i' = inner_live (sw_inner w) ∧
    ∀ id, (¬ (id ∈ cids (permit_rollbacks permit)) → inner_index i' !! id = inner_index (sw_inner w) !! id) ∧
      (id ∈ cids (permit_rollbacks permit) → ∃ r r', inner_index (sw_inner w) !! id = Some r ∧
         inner_index i' !! id = Some r' ∧ rec_phase r' = SinkInvoked ∧ rec_attribution r' = rec_attribution r)).
  { unfold inner_live, inner_index. destruct (in_capital (sw_inner w)) as [c|] eqn:Ec, (in_capital i') as [c'|]; try done.
    - destruct Hm as (_ & _ & Hlive & Hx). split; [done|]. intros id. destruct (Hx id) as [Hx1 Hx2]. split; [done|].
      intros Hin. destruct (Hx2 Hin) as (r & r' & ? & ? & ? & ? & ?). by exists r, r'.
    - split; [done|]. intros id. split; [done|]. intros Hin. destruct Hcap as [_ Hnil]. rewrite Ec in Hnil.
      apply app_nil in Hnil as [Hnil _]. rewrite Hnil in Hin. by apply elem_of_nil in Hin. }
  destruct Hidx as [Hlive Hidx].
  assert (Hrec : ∀ id r, inner_index i' !! id = Some r → ∃ r0, inner_index (sw_inner w) !! id = Some r0 ∧
    rec_attribution r0 = rec_attribution r).
  { intros id r Hr. destruct (decide (id ∈ cids (permit_rollbacks permit))) as [Hin|Hno].
    - destruct (proj2 (Hidx id) Hin) as (r0 & r' & ? & ? & _ & ?). exists r0. split; [done|congruence].
    - rewrite (proj1 (Hidx id) Hno) in Hr. by exists r. }
  unfold sink_post. cbn [sw_inner set_inner]. fold i'. split_and!; [done|done|done| |done|done|done|done| |].
  2:{ intros id r Hr Hp. destruct (decide (id ∈ cids (permit_rollbacks permit))) as [Hin|Hno].
      - destruct (proj2 (Hidx id) Hin) as (_ & r' & _ & Hr' & Hp' & _). exists r'. by rewrite Hp'.
      - rewrite (proj1 (Hidx id) Hno). by exists r. }
  2:{ intros id Hin. destruct (proj2 (Hidx id) Hin) as (_ & r' & _ & ? & ? & _). by exists r'. }
  destruct Hi as [_ _ Hgr Hids Hout Hsunk Hix Hfl Htm Hlim].
  apply Forall_cons in Hgr as [_ Hgr]. apply Forall_cons in Hout as [Hown Hout].
  split; [done|done|done| |by rewrite K3| |..].
  - eapply NoDup_Permutation_proper; [|exact Hids]. unfold out_ids. simpl. rewrite app_assoc.
    by rewrite (Permutation_app_comm ids).
  - rewrite K3. apply Forall_app. split.
    + eapply Forall_impl; [exact Hown|]. simpl. intros id [?|Hin]; [by left|right].
      rewrite Hef, decide_True; [done|]. by rewrite <-Hh.
    + eapply Forall_impl; [exact Hsunk|]. intros id [?|Hin]; [by left|right]. rewrite Hef. by case_decide.
  - rewrite Hl. intros Hn id r Hr. rewrite K3. destruct (Hrec id r Hr) as (r0 & Hr0 & <-). by apply Hix.
  - rewrite Hl, K3. done.
  - by rewrite Ht.
  - intros client limits Hlm. unfold client_count. rewrite Hc. rewrite K2 in Hlm. by apply Hlim.
Qed.

End Permits.
