(* ===== verification/SubmitLedger.v ===== *)
(** * Submit admission: the ledger against the node's orders

    Rebuilding the reservations from the open orders of the node, retiring the
    reservation of an order that ended, recording fills and the other inputs: each keeps
    the invariant of submit admission, and a reservation that crossed the sink stays until
    it is retired. *)

From Stdlib Require Import ZArith Lia.
From stdpp Require Import sorting strings gmap numbers list.
From S2P Require Import BTree NtTypes.
From S2P Require Import Prelude RustText DecimalAmount LossGovernor KillSwitch.
From S2P Require Import CapitalReservation CapitalReservationFacts CapitalAdmissionState.
From S2P Require Import CapitalAdmission CapitalAdmissionFacts ReservationRecovery.
From S2P Require Import SubmitAdmissionState SubmitCapital SubmitCapitalFacts SubmitAdmission.
From S2P Require Import SubmitAdmissionFacts SubmitPermits.

Open Scope Z_scope.

Section Ledger.
Context {D : Type} `{DecimalLaws D} `{DecimalText D}.
Context (evidence_io : nat → bool).
Implicit Types (w : SubmitWorld D) (i : BoltV3SubmitAdmissionInner D).
Implicit Types (c : BoltV3SubmitCapitalAdmissionState D).
Implicit Types (open : BoltV3SubmitCapitalAdmissionOpenOrderReservation D).
Implicit Types (acc : @RebuildAccumulator D) (index : gmap text BoltV3SubmitReservationRecord).

(** ** The rebuild *)

(** The index and the evidence built so far describe the same reservations. *)
Record acc_ok (pool : text) acc : Prop := {
  acc_tags : (live_tag <$> (live_of <$> acc.2)) ≡ₚ (record_tag <$> map_to_list acc.1);
  acc_records : map_Forall (record_ok pool) acc.1;
  acc_phases : map_Forall (λ _ r, rec_phase r ≠ Reserved) acc.1;
}.

Lemma acc_ok_add pool acc id r item :
  acc_ok pool acc → acc.1 !! id = None → record_ok pool id r → rec_phase r ≠ Reserved →
  live_tag (live_of item) = attr_tag (rec_attribution r) →
  acc_ok pool (<[id := r]> acc.1, acc.2 ++ [item]).
Proof.
  intros [Ht Hr Hp] Hnew Hrec Hph Htag. split; simpl.
  - rewrite !fmap_app, map_to_list_insert_new by done. simpl.
    rewrite Ht, Htag. by rewrite Permutation_app_comm.
  - by apply map_Forall_insert_2.
  - by apply map_Forall_insert_2.
Qed.

(** An open order of the snapshot was admitted with this attribution, in this pool. *)
Definition open_attributed (attributions : gmap text ReservationAttribution) (pool : text) open : Prop :=
  attributions !! open_client_order_id open = Some (open_attribution open) ∧
  attr_capital_pool_id (open_attribution open) = pool.

Lemma attribution_valid_shape open :
  rebuilt_open_order_reservation_attribution_valid open = true →
  open_client_order_id open = attr_client_order_id (open_attribution open) ∧
  open_submit_reservation_id open = attr_submit_reservation_id (open_attribution open) ∧
  open_collateral_group_id open = attr_collateral_group_id (open_attribution open) ∧
  open_instrument_id open = attr_instrument_id (open_attribution open) ∧
  evidence_order_side (open_side open) = attr_side (open_attribution open).
Proof.
  unfold rebuilt_open_order_reservation_attribution_valid.
  destruct (_ || _) eqn:Hb; [done|]. intros _.
  repeat match goal with
  | E : _ || _ = false |- _ => apply orb_false_iff in E as [E ?]
  | E : negb (bool_decide _) = false |- _ => apply negb_false_iff, bool_decide_eq_true in E
  end. done.
Qed.

(** Every record is one of [retained], unchanged in its attribution, or an open order. *)
Definition sourced (attributions : gmap text ReservationAttribution) (retained index : gmap text BoltV3SubmitReservationRecord)
    : Prop :=
  map_Forall (λ id r, (∃ r0, retained !! id = Some r0 ∧ rec_attribution r0 = rec_attribution r) ∨
                      attributions !! id = Some (rec_attribution r)) index.

Lemma rebuild_snapshot_ok attributions pool retained rev opens n acc acc' :
  acc_ok pool acc → sourced attributions retained acc.1 →
  (∀ id r, is_Some (acc.1 !! id) → retained !! id = Some r → rec_phase r ≠ Reserved) →
  Forall (open_attributed attributions pool) opens →
  rebuild_snapshot pool retained rev n acc opens = Ok acc' →
  acc_ok pool acc' ∧ sourced attributions retained acc'.1 ∧
  (∀ id r, is_Some (acc'.1 !! id) → retained !! id = Some r → rec_phase r ≠ Reserved).
Proof.
  intros Hok Hs Hno Hopens. revert n acc Hok Hs Hno.
  induction Hopens as [|open opens [Hat Hpool] _ IH]; intros n acc Hok Hs Hno Hr; simpl in Hr.
  - injection Hr as <-. done.
  - result_inv. apply is_some_false in E. pose proof (attribution_valid_shape _ E0) as (Hc & Hsid & Hgrp & Hins & Hside).
    eapply IH; [| | |exact Hr].
    + apply acc_ok_add; [done|done| |done|].
      * split_and!; [done|done|]. intros m [= <-]. done.
      * unfold live_tag, attr_tag. simpl. by rewrite Hpool, Hgrp, Hsid.
    + apply map_Forall_insert_2; [right; exact Hat|done].
    + simpl. intros id r [r' Hl] Hret. destruct (decide (id = open_client_order_id open)) as [->|Hne].
      * rewrite Hret in E1. destruct (bool_decide (rec_phase r = Reserved)) eqn:Hb; [done|].
        by apply bool_decide_eq_false in Hb.
      * rewrite lookup_insert_ne in Hl by done. by eapply Hno.
Qed.

Lemma rebuild_retained_ok attributions c retained records acc acc' :
  capital_ok c → cap_index c = retained →
  acc_ok (pool_id (cap_pool c)) acc → sourced attributions retained acc.1 →
  Forall (λ x, retained !! x.1 = Some x.2) records →
  rebuild_retained (cap_gate c) acc records = Some acc' →
  acc_ok (pool_id (cap_pool c)) acc' ∧ sourced attributions retained acc'.1 ∧
  (∀ id, is_Some (acc.1 !! id) → is_Some (acc'.1 !! id)) ∧
  Forall (λ x, is_Some (acc'.1 !! x.1) ∧ (rec_phase x.2 = Reserved → is_Some (acc.1 !! x.1))) records.
Proof.
  intros Hcok Hret Hok Hs Hrecs. revert acc Hok Hs.
  induction Hrecs as [|[id r] records Hid Hrecs IH]; intros acc Hok Hs Hr; simpl in Hr.
  - injection Hr as <-. done.
  - simpl in Hid. destruct (acc.1 !! id) as [r0|] eqn:Hl; simpl in Hr.
    + destruct (IH acc Hok Hs Hr) as (Hok' & Hs' & Hkeep & Hall). split_and!; [done|done|done|].
      constructor; [|done]. simpl. split; [|by rewrite Hl]. apply Hkeep. by rewrite Hl.
    + assert (Hid' : cap_index c !! id = Some r) by (by rewrite Hret).
      destruct (retained_exact c id r Hcok Hid') as (live & Hlive & Htag). rewrite Hlive in Hr.
      destruct (ok_records _ Hcok _ _ Hid') as (Hc1 & Hc2 & Hc3).
      set (r' := mkRecord (rec_attribution r) (rec_phase r) (rec_phase_revision r) true (rec_fill_metadata r)).
      assert (Hstep : rec_phase r ≠ Reserved →
        rebuild_retained (cap_gate c) (<[id := r']> acc.1, acc.2 ++ [RetainedLifecycleReservation live]) records = Some acc' →
        acc_ok (pool_id (cap_pool c)) acc' ∧ sourced attributions retained acc'.1 ∧
        (∀ id, is_Some (acc.1 !! id) → is_Some (acc'.1 !! id)) ∧
        Forall (λ x, is_Some (acc'.1 !! x.1) ∧ (rec_phase x.2 = Reserved → is_Some (acc.1 !! x.1)))
          ((id, r) :: records)).
      { intros Hp Hr'. destruct (IH (<[id := r']> acc.1, acc.2 ++ [RetainedLifecycleReservation live]))
          as (Hok' & Hs' & Hkeep & Hall); [by apply acc_ok_add| |done|].
        - apply map_Forall_insert_2; [left; by exists r|done].
        - simpl in Hkeep. split_and!; [done|done| |].
          + intros id2 Hid2. apply Hkeep. destruct (decide (id2 = id)) as [->|?];
              [by rewrite lookup_insert_eq|by rewrite lookup_insert_ne].
          + constructor; [simpl; split; [apply Hkeep; by rewrite lookup_insert_eq|done]|].
            rewrite Forall_forall in Hall, Hrecs |- *. intros [id2 r2] Hin. destruct (Hall _ Hin) as [? Hres].
            specialize (Hrecs _ Hin). simpl in *. split; [done|]. intros Hp2. specialize (Hres Hp2).
            destruct (decide (id2 = id)) as [->|?]; [congruence|by rewrite lookup_insert_ne in Hres]. }
      destruct (rec_phase r) eqn:Hp; [done| |]; by apply Hstep.
Qed.

Lemma rebuild_loop_reason reserve (g : CapitalAdmissionGate D) pool now min n evidence rebuilt d g' :
  rebuild_loop reserve g pool now min n evidence rebuilt = (Ok d, g') → rebuild_accepted d = true →
  rebuild_reason d = None.
Proof.
  revert n rebuilt. induction evidence as [|item evidence IH]; intros n rebuilt; simpl.
  - by intros [= <- <-].
  - destruct (rebuild_candidate _ _ _ _ _ _) as [[[]|] rebuilt']; [apply IH|by intros [= <- <-]|done].
Qed.

Lemma same_with_components c components accepted_at :
  same_capital c (rebuild_with_components c components accepted_at).
Proof.
  unfold rebuild_with_components. destruct components as [components|]; [|done].
  etrans; [|apply same_components].
  destruct (cap_capture_failure_observed_at_ns c) as [f|], accepted_at as [a|]; try done. by destruct (f <? a).
Qed.

(** What an accepted rebuild comes to: the ledger and the index agree again, nothing was
    reserved and unsent before, nothing is now, every order that crossed the sink or was
    seen open is still there, and the gate is reconciled. *)
Definition rebuilt (attributions : gmap text ReservationAttribution) c c' : Prop :=
  capital_ok c' ∧ is_reconciled (cap_gate c') = true ∧
  map_Forall (λ _ r, rec_phase r ≠ Reserved) (cap_index c) ∧
  map_Forall (λ _ r, rec_phase r ≠ Reserved) (cap_index c') ∧
  sourced attributions (cap_index c) (cap_index c') ∧
  (∀ id, is_Some (cap_index c !! id) → is_Some (cap_index c' !! id)).

Lemma same_rebuilt attributions c1 c2 c' : same_capital c1 c2 → rebuilt attributions c2 c' → rebuilt attributions c1 c'.
Proof. intros (_ & Hi & _). unfold rebuilt. by rewrite Hi. Qed.

Lemma rebuild_candidate_cases attributions c s (snapshot : BoltV3SubmitCapitalAdmissionOpenOrderSnapshot D) now rev :
  capital_ok c → Forall (open_attributed attributions (pool_id (cap_pool c))) (snap_reservations snapshot) →
  match rebuild_candidate_gate c s snapshot now rev with
  | PlanAccepted decision c' =>
      rebuilt attributions c c' ∧ submit_rebuild_accepted decision = true ∧ submit_rebuild_reason decision = None
  | PlanRejected decision _ =>
      submit_rebuild_accepted decision = false ∧ is_Some (submit_rebuild_reason decision)
  | PlanInvariant _ _ => False
  end.
Proof.
  intros Hok Hopens. unfold rebuild_candidate_gate.
  set (c1 := set_pool_evidence c _ _). assert (Hsame : same_capital c c1) by done.
  pose proof (same_ok _ _ Hsame Hok) as Hok1. change (pool_id (cap_pool c)) with (pool_id (cap_pool c1)) in Hopens.
  assert (Hempty : acc_ok (pool_id (cap_pool c1)) (∅, []) ∧ sourced attributions (cap_index c1) ∅ ∧
    ∀ id r, is_Some ((∅ : gmap text BoltV3SubmitReservationRecord) !! id) → cap_index c1 !! id = Some r →
      rec_phase r ≠ Reserved).
  { split_and!; [split; simpl; [by rewrite map_to_list_empty|apply map_Forall_empty|apply map_Forall_empty]
      |apply map_Forall_empty|]. intros id r [? Hl]. by rewrite lookup_empty in Hl. }
  destruct Hempty as (He1 & He2 & He3).
  destruct (rebuild_snapshot _ _ _ _ _ _) as [acc|[reason n]] eqn:Esnap; [|simpl; by split; [|eexists]].
  destruct (rebuild_snapshot_ok _ _ _ _ _ _ _ _ He1 He2 He3 Hopens Esnap) as (Ha1 & Ha2 & Ha3).
  destruct (rebuild_retained _ _ _) as [[index requests]|] eqn:Eret; [|simpl; by split; [|eexists]].
  destruct (rebuild_retained_ok attributions c1 (cap_index c1) (btree_iter (cap_index c1)) acc (index, requests) Hok1 eq_refl Ha1 Ha2)
    as (Hb1 & Hb2 & _ & Hall); [|exact Eret|].
  { apply Forall_forall. intros [id r] Hin%elem_of_btree_iter. done. }
  simpl in Hb2. rewrite Forall_forall in Hall.
  assert (Hold : map_Forall (λ _ r, rec_phase r ≠ Reserved) (cap_index c1)).
  { intros id r Hr Hp. destruct (Hall (id, r)) as [_ Hres]; [by apply elem_of_btree_iter|].
    exact (Ha3 id r (Hres Hp) Hr Hp). }
  set (c2 := set_unresolved c1 _).
  pose proof (rebuild_cases (cap_gate c2) (cap_pool c2) requests now (min_remaining_pool_balance (cap_policy c2))) as Hc.
  destruct (rebuild_open_order_reservations _ _ _ _ _) as [r g'] eqn:Ereb. destruct Hc as (d & -> & _ & Hd).
  destruct (rebuild_accepted d) eqn:Hacc.
  - destruct Hd as (Hrec & Hlive & Hnd & _ & _).
    set (c3 := set_cap_state _ _). set (c4 := refresh_capital_admission_reservation_snapshot c3 now).
    pose proof (same_refresh c3 now) as Hs4. fold c4 in Hs4.
    assert (Hok3 : capital_ok c3).
    { split; simpl.
      - exact Hnd.
      - unfold cap_live. simpl. rewrite Hlive. apply (acc_tags _ _ Hb1).
      - apply (acc_records _ _ Hb1). }
    pose proof Hs4 as (_ & Hi4 & _).
    split; [|split; [done|]].
    + split_and!; [by eapply same_ok| |exact Hold| | |].
      * unfold c4, refresh_capital_admission_reservation_snapshot,
          refresh_capital_admission_reservation_snapshot_with_source. simpl. by destruct (cap_state _).
      * rewrite Hi4. apply (acc_phases _ _ Hb1).
      * rewrite Hi4. exact Hb2.
      * rewrite Hi4. intros id [r Hr]. destruct (Hall (id, r)) as [Hk _]; [by apply elem_of_btree_iter|exact Hk].
    + by eapply rebuild_loop_reason.
  - destruct Hd as (_ & _ & Hreason & _). done.
Qed.

(** ** Steps that hand out no permit *)

Record steady w (out : list Granted) (sunk_ids : list text) w' : Prop := {
  steady_logged : logged w w';
  steady_submit : submit_inv (sw_inner w') out sunk_ids;
  steady_latch : in_rollback_ownership_latch (sw_inner w') = in_rollback_ownership_latch (sw_inner w);
  steady_count : in_admitted_order_count (sw_inner w') = in_admitted_order_count (sw_inner w);
  steady_clients : in_admitted_order_count_by_execution_client (sw_inner w') =
    in_admitted_order_count_by_execution_client (sw_inner w);
  steady_evidence_free : in_evidence_free (sw_inner w') = in_evidence_free (sw_inner w);
}.

Ltac sub_step := unfold get_inner, put_inner, modify_inner; runs_step.

(** The ledger, the index and the authority are as they were. *)
Definition same_books i i' : Prop :=
  in_rollback_ownership_latch i' = in_rollback_ownership_latch i ∧
  in_authority i' = in_authority i ∧ in_evidence_free i' = in_evidence_free i ∧
  in_admitted_order_count i' = in_admitted_order_count i ∧
  in_admitted_order_count_by_execution_client i' = in_admitted_order_count_by_execution_client i ∧
  in_live_submit_approval_limits i' = in_live_submit_approval_limits i ∧
  match in_capital i, in_capital i' with
  | Some c, Some c' => same_capital c c'
  | None, None => True
  | _, _ => False
  end.

Lemma same_books_index i i' : same_books i i' → inner_index i' = inner_index i.
Proof.
  intros (_ & _ & _ & _ & _ & _ & Hm). unfold inner_index.
  destruct (in_capital i), (in_capital i'); try done. by destruct Hm as (_ & -> & _).
Qed.

Lemma same_books_refl i : same_books i i.
Proof. split_and!; try done. by destruct (in_capital i). Qed.

(** A step that only touches the capital state of [i], leaving its books. *)
Lemma same_books_capital i oc c :
  in_capital i = Some c → (∃ c', oc = Some c' ∧ same_capital c c') → same_books i (set_capital i oc).
Proof. intros Hc (c' & -> & Hs). split_and!; try done. simpl. by rewrite Hc. Qed.

Lemma same_books_steady w w' out sunk_ids :
  submit_inv (sw_inner w) out sunk_ids → silent w w' → same_books (sw_inner w) (sw_inner w') →
  steady w out sunk_ids w' ∧ kept (sw_inner w) (sw_inner w').
Proof.
  intros Hi Hs Hb. pose proof (same_books_index _ _ Hb) as Hix.
  destruct Hb as (Hl & Ha & He & Ht & Hc & Hlim & Hm). split.
  - split; try done; [by apply silent_logged|]. eapply steady_inv; try done.
    + apply (capital_inv_same (sw_inner w)); [by rewrite Hl|done|apply (inv_capital _ _ _ Hi)].
    + rewrite Hl. intros ?. split; [done|]. intros id r Hr. rewrite Hix in Hr. left. by exists r.
    + by rewrite Ha.
  - intros id r Hr Hp. rewrite Hix. by exists r.
Qed.

Lemma same_books_revision i i' rev : same_books i i' → same_books i (set_revision i' rev).
Proof. intros (? & ? & ? & ? & ? & ? & ?). by split_and!. Qed.

Lemma invalidate_rebuild_books i context rev :
  same_books i (invalidate_capital_admission_rebuild i context rev).
Proof.
  unfold invalidate_capital_admission_rebuild. apply same_books_revision.
  destruct (in_capital i) as [c|] eqn:Hc; [|apply same_books_refl].
  eapply same_books_capital; [done|]. eexists. split; [done|].
  etrans; [apply same_invalidate|apply same_refresh_source].
Qed.

Lemma record_rebuild_runs context (decision : BoltV3SubmitCapitalAdmissionRebuildDecision D) w
    (Q : Result bool BoltV3SubmitAdmissionError → SubmitWorld D → Prop) :
  (∀ r w', sw_inner w' = sw_inner w → silent w w' →
     (∀ err, r = Err err → capital_admission_rebuild_outcome decision = Err err) → Q r w') →
  runs (record_capital_admission_rebuild evidence_io context decision) w Q.
Proof.
  intros HQ. unfold record_capital_admission_rebuild. do 2 runs_step.
  destruct (capital_admission_rebuild_outcome decision) as [outcome|err] eqn:Eo.
  - runs_step. apply runs_append. intros n b. runs_step. apply HQ; [done| |done].
    unfold silent. simpl. destruct b; [|done]. unfold recovery_events. by rewrite omap_app, app_nil_r.
  - apply HQ; [done|done|]. by intros ? [= <-].
Qed.

Lemma finish_rebuild_runs context rev decision w out sunk_ids :
  submit_inv (sw_inner w) out sunk_ids →
  submit_rebuild_accepted decision = false → is_Some (submit_rebuild_reason decision) →
  runs (finish_capital_admission_rebuild evidence_io context rev decision) w
    (λ r w', steady w out sunk_ids w' ∧ kept (sw_inner w) (sw_inner w') ∧
       ∃ d, r = Ok d ∧ submit_rebuild_accepted d = false).
Proof.
  intros Hi Hacc [reason Hreason]. unfold finish_capital_admission_rebuild. do 3 sub_step. apply record_rebuild_runs.
  intros r w2 Hw2 Hs2 Herr.
  assert (steady w out sunk_ids w2 ∧ kept (sw_inner w) (sw_inner w2)) as [Hst Hk].
  { apply same_books_steady; [done|exact Hs2|]. rewrite Hw2. apply invalidate_rebuild_books. }
  destruct r as [[]|err].
  - runs_step. split; [done|split; [done|]]. by exists decision.
  - do 3 sub_step. split; [done|split; [done|]]. by eexists.
  - specialize (Herr err eq_refl). unfold capital_admission_rebuild_outcome in Herr.
    by rewrite Hacc, Hreason in Herr.
Qed.

(** The node's snapshot names orders under the attribution they were admitted with. *)
Definition snapshot_attributed i (snapshot : BoltV3SubmitCapitalAdmissionOpenOrderSnapshot D) : Prop :=
  ∀ c, in_capital i = Some c →
    Forall (open_attributed (reservation_attributions (in_authority i)) (pool_id (cap_pool c)))
      (snap_reservations snapshot).

Lemma rebuilt_capital_inv attributions i i' c c' rbs :
  in_capital i = Some c → in_capital i' = Some c' → rebuilt attributions c c' → capital_inv i rbs →
  rbs = [] ∧ capital_inv i' rbs.
Proof.
  intros Hc Hc' (Hok & _ & Hold & Hnew & _ & _) [_ Hi]. rewrite Hc in Hi. destruct Hi as (_ & Hown & _).
  assert (rbs = []) as ->.
  { destruct rbs as [|rb rbs]; [done|]. apply Forall_cons in Hown as [(r & Hr & Hp & _) _].
    by destruct (Hold _ _ Hr). }
  split; [done|]. split; [constructor|]. rewrite Hc'. split_and!; [done|constructor|].
  intros _ id r Hr Hp. by destruct (Hnew _ _ Hr).
Qed.

Lemma plan_rebuild_cases attributions c snapshot now rev components accepted_at :
  capital_ok c → Forall (open_attributed attributions (pool_id (cap_pool c))) (snap_reservations snapshot) →
  match plan_rebuild c snapshot now rev components accepted_at with
  | PlanAccepted decision c' =>
      rebuilt attributions c c' ∧ submit_rebuild_accepted decision = true ∧ submit_rebuild_reason decision = None
  | PlanRejected decision _ =>
      submit_rebuild_accepted decision = false ∧ is_Some (submit_rebuild_reason decision)
  | PlanInvariant _ _ => False
  end.
Proof.
  intros Hok Hopens. unfold plan_rebuild.
  pose proof (same_with_components c components accepted_at) as Hsame.
  set (c1 := rebuild_with_components c components accepted_at) in *. cbv zeta.
  destruct (cap_fill_evidence_integrity_failed c1); [simpl; by split; [|eexists]|].
  destruct (negb (snap_all_open_orders_attributed snapshot)); [simpl; by split; [|eexists]|].
  destruct (cap_state c1) as [s|]; [|simpl; by split; [|eexists]].
  pose proof (rebuild_candidate_cases attributions c1 s snapshot now rev (same_ok _ _ Hsame Hok)) as Hcase.
  pose proof Hsame as (_ & _ & Hp). rewrite Hp in Hcase. specialize (Hcase Hopens).
  destruct (rebuild_candidate_gate c1 s snapshot now rev); [done|done|].
  destruct Hcase as [Hr ?]. split; [|done]. by apply (same_rebuilt _ c c1).
Qed.

(** A rebuild keeps the invariant, loses no order past the sink, and is accepted only with
    its record, leaving the gate reconciled with no reservation unsent. *)
Lemma rebuild_runs snapshot now epoch components accepted_at w out sunk_ids :
  submit_inv (sw_inner w) out sunk_ids → snapshot_attributed (sw_inner w) snapshot →
  runs (rebuild_capital_admission_open_order_snapshot_with_projection evidence_io snapshot now epoch components
          accepted_at) w (λ r w', steady w out sunk_ids w' ∧ kept (sw_inner w) (sw_inner w') ∧
    match r with
    | Ok decision =>
        (submit_rebuild_accepted decision = true → rbs_of out = [] ∧
         ∀ c', in_capital (sw_inner w') = Some c' → is_reconciled (cap_gate c') = true ∧
           (∀ e, epoch = Some e → e = in_revision (sw_inner w)) ∧
           in_revision (sw_inner w') = in_revision (sw_inner w) + 1)
    | Err _ => False
    end).
Proof.
  intros Hi Hsnap. unfold rebuild_capital_admission_open_order_snapshot_with_projection. do 2 sub_step. cbn beta.
  pose proof (same_books_steady w w out sunk_ids Hi (silent_refl w) (same_books_refl _)) as [Hst Hk].
  assert (Hcapnil : in_capital (sw_inner w) = None → rbs_of out = []).
  { intros Hn. destruct (inv_capital _ _ _ Hi) as [_ Hm]. by rewrite Hn in Hm. }
  destruct (match epoch with Some e => _ | None => _ end) eqn:Hep;
    [runs_step; split; [done|split; [done|by intros ?]]|].
  assert (Hepoch : ∀ e, epoch = Some e → e = in_revision (sw_inner w)).
  { intros e ->. by apply negb_false_iff, Z.eqb_eq in Hep. }
  destruct (u64_checked_add _ 1) as [rev|] eqn:Erev.
  2:{ do 3 sub_step. split; [|split; [|done]].
      all: eapply same_books_steady; [done|done|]; simpl.
      all: destruct (in_capital (sw_inner w)) as [c|] eqn:Hc; [|apply same_books_refl].
      all: eapply same_books_capital; [done|]; eexists; split; [done|apply same_invalidate]. }
  apply u64_checked_add_Some in Erev as [-> _].
  destruct (in_capital (sw_inner w)) as [c|] eqn:Hc.
  2:{ runs_step. split_and!; [done|done|]. intros _. split; [by apply Hcapnil|]. intros c'. congruence. }
  pose proof (inv_capital _ _ _ Hi) as Hcap. pose proof Hcap as [_ Hok]. rewrite Hc in Hok. destruct Hok as [Hok _].
  pose proof (plan_rebuild_cases _ c snapshot now (in_revision (sw_inner w) + 1) components accepted_at Hok (Hsnap c Hc)) as Hplan.
  destruct (plan_rebuild _ _ _ _ _ _) as [decision unresolved|inv unresolved|decision c']; [| done |].
  { destruct Hplan as [Hacc Hreason]. eapply runs_mono; [by apply (finish_rebuild_runs _ _ _ _ out sunk_ids)|].
    intros r w' (Hst' & Hk' & d & -> & Hd). split; [done|split; [done|]]. intros ?. congruence. }
  destruct Hplan as (Hreb & Hacc & Hreason). runs_step. apply record_rebuild_runs.
  intros r w2 Hw2 Hs2 Herr. destruct r as [[]|err].
  - do 3 sub_step.
    set (i' := set_revision (set_capital (sw_inner w) (Some c')) (in_revision (sw_inner w) + 1)).
    destruct (rebuilt_capital_inv _ (sw_inner w) i' c c' _ Hc eq_refl Hreb Hcap) as [Hnil Hcap'].
    pose proof Hreb as (_ & Hrec & Hold & Hnew & Hsrc & Hkeep).
    split; [|split].
    + split; try done; [by apply silent_logged|]. eapply steady_inv; try done. intros ?. split; [done|].
      intros id r Hr. unfold inner_index. rewrite Hc. exact (Hsrc id r Hr).
    + intros id r Hr Hp. unfold inner_index in Hr. rewrite Hc in Hr. unfold inner_index. simpl.
      destruct (Hkeep id) as [r' Hr']; [by eexists|]. exists r'. split; [done|]. exact (Hnew _ _ Hr').
    + intros _. split; [done|]. intros ? [= <-]. done.
  - do 5 sub_step. destruct (same_books_steady w (set_inner w2 (invalidate_capital_admission_rebuild (sw_inner w)
      (audit_context snapshot (cap_unresolved c')) (in_revision (sw_inner w) + 1))) out sunk_ids) as [? ?];
      [done|done|apply invalidate_rebuild_books|]. split; [done|split; [done|by intros ?]].
  - specialize (Herr err eq_refl). unfold capital_admission_rebuild_outcome in Herr.
    by rewrite Hacc, Hreason in Herr.
Qed.

(** ** Retirement *)

Lemma remove_existing_record c id r :
  capital_ok c → cap_index c !! id = Some r →
  ∃ c', retire_candidate c id (rec_attribution r) = Some c' ∧ capital_ok c' ∧
    cap_index c' = delete id (cap_index c).
Proof.
  intros Hok Hid. destruct (index_live c id r Hok Hid) as (j & live & Hpos & Htag).
  unfold retire_candidate, gate_remove_existing, remove_existing. rewrite Hpos.
  pose proof Htag as Htag'. unfold live_tag, attr_tag in Htag'. injection Htag' as _ Hg _.
  rewrite Hg, bool_decide_true by done. cbn [negb release_accepted].
  eexists. split; [done|]. split; [|done]. eapply (same_ok (drop_record c id j)); [done|].
  by eapply drop_record_ok.
Qed.

(** What retirement leaves. *)
Definition retire_post w (out : list Granted) (sunk_ids : list text)
    (capability : BoltV3SubmitTerminalReservationCapability)
    (d : BoltV3SubmitTerminalReservationDecision) w' : Prop :=
  steady w out sunk_ids w' ∧
  match d with
  | Retired =>
      inner_index (sw_inner w') = delete (capability_client_order_id capability) (inner_index (sw_inner w)) ∧
      ∃ r, inner_index (sw_inner w) !! capability_client_order_id capability = Some r ∧
        capability_current r capability = true
  | LedgerMismatch | RetirementInvariantViolation _ => False
  | _ => inner_index (sw_inner w') = inner_index (sw_inner w)
  end.

Lemma fail_retirement_books i rev : same_books i (fail_retirement i rev).
Proof.
  unfold fail_retirement. apply same_books_revision. destruct (in_capital i) as [c|] eqn:Hc; [|apply same_books_refl].
  eapply same_books_capital; [done|]. eexists. split; [done|apply same_invalidate].
Qed.

Lemma retire_runs capability at_ns w out sunk_ids :
  submit_inv (sw_inner w) out sunk_ids →
  runs (retire_terminal_reservation evidence_io capability at_ns) w (retire_post w out sunk_ids capability).
Proof.
  intros Hi. unfold retire_terminal_reservation. do 2 sub_step. cbn beta.
  assert (Hsame : ∀ d w', match d with LedgerMismatch | RetirementInvariantViolation _ | Retired => False | _ => True end →
    silent w w' → same_books (sw_inner w) (sw_inner w') → retire_post w out sunk_ids capability d w').
  { intros d w' Hd Hs Hb. split; [by apply same_books_steady|]. pose proof (same_books_index _ _ Hb). by destruct d. }
  destruct (in_capital (sw_inner w)) as [c|] eqn:Hc; [|runs_step; apply Hsame; [done|done|apply same_books_refl]].
  destruct (cap_index c !! _) as [r|] eqn:Hid; [|runs_step; apply Hsame; [done|done|apply same_books_refl]].
  destruct (capability_current r capability) eqn:Hcur; cbn [negb];
    [|runs_step; apply Hsame; [done|done|apply same_books_refl]].
  destruct (u64_checked_add _ 1) as [rev|].
  2:{ do 3 sub_step. apply Hsame; [done|done|]. simpl. eapply same_books_capital; [done|].
      eexists. split; [done|apply same_invalidate]. }
  pose proof (inv_capital _ _ _ Hi) as Hcap. pose proof Hcap as [Hnd Hok]. rewrite Hc in Hok. destruct Hok as (Hok & Hown & Hres).
  destruct (remove_existing_record c _ r Hok Hid) as (c' & -> & Hok' & Hidx).
  runs_step. apply record_rebuild_runs. intros d w2 Hw2 Hs2 Herr. destruct d as [[]|err].
  - do 3 sub_step. cbn [sw_inner set_inner].
    set (i' := set_revision _ _).
    assert (Hix : inner_index i' = delete (capability_client_order_id capability) (inner_index (sw_inner w))).
    { unfold inner_index. simpl. by rewrite Hc. }
    assert (Hph : rec_phase r ≠ Reserved).
    { intros Hp. unfold capability_current in Hcur. by rewrite Hp in Hcur. }
    split.
    + split; try done; [by apply silent_logged|]. eapply steady_inv; try done.
      * split; [done|]. simpl. split_and!; [done| |].
        -- eapply Forall_impl; [exact Hown|]. intros rb (r0 & Hr0 & Hp0 & Hrest). exists r0. split; [|done].
           rewrite Hidx, lookup_delete_ne; [done|]. intros Heq. rewrite Heq in Hid. congruence.
        -- intros Hl id r0 Hr0 Hp0. rewrite Hidx in Hr0. apply lookup_delete_Some in Hr0 as [_ Hr0]. by eapply Hres.
      * intros ?. split; [done|]. intros id r0 Hr0. left.
        change (inner_index i' !! id = Some r0) in Hr0. rewrite Hix in Hr0.
        apply lookup_delete_Some in Hr0 as [_ Hr0]. by exists r0.
    + split; [exact Hix|]. exists r. split; [|done]. unfold inner_index. by rewrite Hc.
  - do 3 sub_step. apply Hsame; [done|done|apply fail_retirement_books].
  - specialize (Herr err eq_refl). done.
Qed.

(** ** Fills *)

Lemma judge_fill_new i c update sid :
  judge_fill i c update = FillNew sid →
  ∃ r m, cap_index c !! update_client_order_id update = Some r ∧ rec_fill_metadata r = Some m ∧
    sid = attr_submit_reservation_id (rec_attribution r) ∧
    update_instrument_id update = meta_instrument_id m ∧ update_side update = meta_side m ∧
    d_leb (update_fill_quantity update) d_zero = false ∧
    reservation_fill (in_authority i) (update_client_order_id update) sid (update_trade_id update) = None.
Proof.
  unfold judge_fill. destruct (cap_index c !! _) as [r|] eqn:Hr.
  2:{ intros Hj. repeat case_match; simplify_eq. }
  cbv zeta. cbn [is_none is_some negb andb]. unfold expected_fill. cbn [mbind option_bind].
  destruct (rec_fill_metadata r) as [m|] eqn:Hm; cbn [mbind option_bind is_none].
  - destruct (_ || _) eqn:Hb; [done|].
    repeat match goal with
    | E : _ || _ = false |- _ => apply orb_false_iff in E as [E ?]
    | E : negb (bool_decide _) = false |- _ => apply negb_false_iff, bool_decide_eq_true in E
    end.
    destruct (reservation_fill _ _ _ _) eqn:Hf; [by destruct (reservation_fill_update_matches _ _)|].
    intros [= <-]. exists r, m. split_and!; done.
  - destruct (reservation_attribution _ _) as [a|]; [|done]. cbn [mbind option_bind].
    destruct (attr_side a); cbn [mbind option_bind]; try done;
      (destruct (_ || _); [done|]; destruct (reservation_fill _ _ _ _); [|done];
       by destruct (reservation_fill_update_matches _ _)).
Qed.

Lemma insert_fill_attributed `{!DecimalTextLaws D} f (fill : SubmitReservationFillFact) a (q : D) f' :
  fills_attributed (D := D) f → insert_fill (D := D) f fill = Ok f' →
  reservation_fill f (fill_client_order_id fill) (fill_submit_reservation_id fill) (fill_trade_id fill) = None →
  reservation_attributions f !! fill_client_order_id fill = Some a →
  attr_submit_reservation_id a = fill_submit_reservation_id fill →
  fill_instrument_id fill = attr_instrument_id a → fill_side fill = attr_side a →
  fill_quantity fill = d_to_string q → d_gtb q d_zero = true →
  fills_attributed (D := D) f'.
Proof.
  intros Hf Hins Hnew Ha Hsid Hin Hside Hq Hpos. rewrite (insert_fill_new _ _ Hnew) in Hins. cbv zeta in Hins.
  injection Hins as <-. intros key fills Hlook. simpl in Hlook |- *.
  apply lookup_insert_Some in Hlook as [[<- <-]|[_ Hlook]]; [|by apply Hf].
  exists a. simpl. split_and!; [done|done|]. apply map_Forall_insert_2.
  - split_and!; try done. exists q. by rewrite Hq, d_text_round_trip.
  - destruct (reservation_fills f !! _) as [fills|] eqn:Hl; [|apply map_Forall_empty].
    destruct (Hf _ _ Hl) as (a' & Ha' & _ & Hall). simpl in Ha'. rewrite Ha in Ha'. by injection Ha' as <-.
Qed.

Lemma fill_books i c' (rev : Z) c :
  in_capital i = Some c → same_capital c c' → same_books i (put_capital i c' rev).
Proof.
  intros Hc Hs. unfold put_capital. apply same_books_revision. eapply same_books_capital; [done|]. by eexists.
Qed.

(** A fill is recorded with its authority, and both agree: the log with the fill can be
    replayed and validated. *)
Lemma fill_runs `{!DecimalTextLaws D} update w out sunk_ids :
  submit_inv (sw_inner w) out sunk_ids →
  runs (record_capital_admission_fill_evidence evidence_io update) w
    (λ d w', steady w out sunk_ids w' ∧ inner_index (sw_inner w') = inner_index (sw_inner w)).
Proof.
  intros Hi. unfold record_capital_admission_fill_evidence. do 2 sub_step. cbn beta.
  assert (Hsame : ∀ w', silent w w' → same_books (sw_inner w) (sw_inner w') →
    steady w out sunk_ids w' ∧ inner_index (sw_inner w') = inner_index (sw_inner w)).
  { intros w' Hs Hb. split; [by apply same_books_steady|by apply same_books_index]. }
  destruct (in_capital (sw_inner w)) as [c|] eqn:Hc; [|runs_step; apply Hsame; [done|apply same_books_refl]].
  destruct (judge_fill (sw_inner w) c update) as [|sid|] eqn:Hj.
  - runs_step. apply Hsame; [done|apply same_books_refl].
  - destruct (judge_fill_new _ _ _ _ Hj) as (r & m & Hr & Hm & Hsid & Hins & Hside & Hq & Hnew).
    destruct (advance_capital_admission_state_revision _) as [rev|].
    2:{ do 3 sub_step. apply Hsame; [done|]. simpl. eapply same_books_capital; [done|].
        eexists. split; [done|apply same_invalidate]. }
    set (fill := fill_fact_of update sid). do 3 sub_step. apply runs_append. intros n b.
    destruct b; cbn [negb].
    2:{ do 3 sub_step. apply Hsame; [done|]. simpl. by eapply fill_books, same_fail_integrity. }
    pose proof (insert_fill_new (D := D) (in_authority (sw_inner w)) fill Hnew) as Hfill. cbv zeta in Hfill.
    simpl (recovery_apply _ _). destruct (insert_fill _ fill) as [f'|] eqn:Ef; [|done].
    injection Hfill as Hf'. do 3 sub_step. cbn [sw_inner set_inner].
    destruct (insert_fill_keeps _ _ _ Ef) as [Hattr Hau]. split; [|done].
    split; try done.
    + exists [FillEvent fill]. simpl. unfold recovery_events. rewrite omap_app. split; [done|]. by rewrite Ef.
    + destruct Hi as [Hcap [? Htot Hcli ? Hheld] Hgr Hids Hout Hsunk Hix Hfl Htm Hlim]. split; simpl; try done.
      * eapply Forall_impl; [exact Hout|]. intros g Hg. eapply Forall_impl; [exact Hg|]. intros id. simpl. by rewrite Hau.
      * eapply Forall_impl; [exact Hsunk|]. intros id. simpl. by rewrite Hau.
      * intros Hl id r0 Hr0. simpl. rewrite Hattr. by apply Hix.
      * intros Hl. assert (Hid : inner_index (sw_inner w) !! update_client_order_id update = Some r)
          by (unfold inner_index; by rewrite Hc).
        pose proof (Hix Hl _ _ Hid) as Hattr_r. simpl in Hattr_r.
        destruct Hcap as [_ Hok]. rewrite Hc in Hok. destruct Hok as [Hok _].
        destruct (ok_records _ Hok _ _ Hr) as (_ & _ & Hmeta). destruct (Hmeta m Hm) as [Hmi Hms].
        eapply (insert_fill_attributed _ fill (rec_attribution r) (update_fill_quantity update)); try done.
        -- by apply Hfl.
        -- unfold fill. simpl. by rewrite Hins, Hmi.
        -- unfold fill. simpl. by rewrite Hside, Hms.
        -- unfold d_leb in Hq. by apply negb_false_iff in Hq.
  - pose proof (same_reject_integrity c (in_revision (sw_inner w)) (update_observed_at_ns update)) as Hs.
    destruct (reject_capital_admission_fill_evidence_integrity _ _ _) as [c' rev]. do 3 sub_step.
    apply Hsame; [done|]. by eapply fill_books.
Qed.

(** ** The other inputs *)

Lemma reject_fill_runs at_ns w out sunk_ids :
  submit_inv (sw_inner w) out sunk_ids →
  runs (reject_capital_admission_fill_evidence at_ns) w
    (λ _ w', steady w out sunk_ids w' ∧ kept (sw_inner w) (sw_inner w')).
Proof.
  intros Hi. unfold reject_capital_admission_fill_evidence. sub_step. apply same_books_steady; [done|done|]. simpl.
  destruct (in_capital (sw_inner w)) as [c|] eqn:Hc; [|apply same_books_refl].
  pose proof (same_reject_integrity c (in_revision (sw_inner w)) at_ns) as Hs.
  destruct (reject_capital_admission_fill_evidence_integrity _ _ _) as [c' rev]. by eapply fill_books.
Qed.

Lemma invalidate_projection_books i : same_books i (invalidate_for_projection i).
Proof.
  unfold invalidate_for_projection. destruct (advance_capital_admission_state_revision _) as [rev|]; simpl;
    (destruct (in_capital i) as [c|] eqn:Hc; simpl; split_and!; try done; simpl; rewrite ?Hc; done).
Qed.

Lemma suspended_books i evidence : same_books i (suspended i evidence).
Proof.
  unfold suspended. destruct (advance_capital_admission_state_revision _) as [rev|]; simpl;
    (destruct (in_capital i) as [c|] eqn:Hc; simpl; split_and!; try done; simpl; rewrite ?Hc; try done).
  etrans; [apply same_invalidate|]. etrans; [|apply same_refresh_source]. done.
Qed.

(** The events of the rest of the node. *)
Inductive SubmitInput : Type :=
| InputLossSnapshot (snapshot : LossSnapshot D)
| InputLossObservations (observations : LossSourceObservationTimestamps)
| InputLossFreshness (freshness : BoltV3LossFreshness)
| InputKillSwitch (state : KillSwitchState)
| InputProjectionRequest
| InputCaptureFailure (evidence : ProviderCollateralAllowanceCaptureFailureEvidence)
| InputFillRejected (observed_at_ns : Z).

Definition take_input (input : SubmitInput) : Rust (SubmitWorld D) unit :=
  match input with
  | InputLossSnapshot snapshot => update_loss_snapshot snapshot
  | InputLossObservations observations => update_loss_source_observations observations
  | InputLossFreshness freshness => update_loss_freshness freshness
  | InputKillSwitch state => replace_kill_switch state
  | InputProjectionRequest => invalidate_capital_admission_for_nt_projection_request
  | InputCaptureFailure evidence =>
      suspend_capital_admission_for_provider_collateral_allowance_capture_failure evidence_io evidence
  | InputFillRejected observed_at_ns => reject_capital_admission_fill_evidence observed_at_ns
  end.

Lemma input_runs input w out sunk_ids :
  submit_inv (sw_inner w) out sunk_ids →
  runs (take_input input) w (λ _ w', steady w out sunk_ids w' ∧ kept (sw_inner w) (sw_inner w')).
Proof.
  intros Hi. destruct input; simpl.
  1-4: unfold update_loss_snapshot, update_loss_source_observations, update_loss_freshness, replace_kill_switch.
  1-4: sub_step; (apply same_books_steady; [done|done|]); simpl; apply (same_books_refl (sw_inner w)).
  - unfold invalidate_capital_admission_for_nt_projection_request. sub_step.
    apply same_books_steady; [done|done|apply invalidate_projection_books].
  - unfold suspend_capital_admission_for_provider_collateral_allowance_capture_failure. sub_step.
    apply runs_append_nonblocking; [done|]. intros w1 Hw1 Hs1. sub_step.
    apply same_books_steady; [done|exact Hs1|]. simpl. rewrite Hw1. apply suspended_books.
  - by apply reject_fill_runs.
Qed.

(** An open order that the node reports is rebuilt under its committed attribution. *)
Lemma from_attribution_attributed i c evidence a open :
  in_capital i = Some c →
  reservation_attribution (in_authority i) (order_client_order_id evidence) = Some a →
  capital_admission_open_order_reservation_from_attribution i evidence a = Some open →
  open_attributed (reservation_attributions (in_authority i)) (pool_id (cap_pool c)) open.
Proof.
  intros Hc Ha. unfold capital_admission_open_order_reservation_from_attribution.
  destruct (blank _ || _ || _ || _ || _ || _); [done|]. rewrite Hc. cbn [mbind option_bind].
  unfold open_order_reservation. destruct (cap_state c) as [s|]; [|done]. cbn [mbind option_bind].
  destruct (product_state s) as [product]. destruct (_ || _) eqn:Hb; [done|].
  destruct (_ && _); [done|].
  repeat match goal with
  | E : _ || _ = false |- _ => apply orb_false_iff in E as [E ?]
  | E : negb (bool_decide _) = false |- _ => apply negb_false_iff, bool_decide_eq_true in E
  end.
  intros Ho. repeat (case_match; simplify_option_eq; try done); by split.
Qed.

End Ledger.
