(* ===== verification/SubmitAdmissionSafety.v ===== *)
(** * Submit admission: every history

    [submit_step] interleaves the operations of submit admission, the permits that are
    out being used, kept or dropped in any order, from a process that started on the
    evidence log of its predecessors.  The theorems hold in every reachable state,
    whatever records could not be appended. *)

From Stdlib Require Import ZArith Lia.
From stdpp Require Import sorting strings gmap numbers list.
From S2P Require Import BTree NtTypes.
From S2P Require Import Prelude RustText DecimalAmount LossGovernor KillSwitch.
From S2P Require Import CapitalReservation CapitalReservationFacts CapitalAdmissionState.
From S2P Require Import CapitalAdmission CapitalAdmissionFacts ReservationRecovery.
From S2P Require Import SubmitAdmissionState SubmitCapital SubmitCapitalFacts SubmitAdmission.
From S2P Require Import SubmitAdmissionFacts SubmitPermits SubmitLedger.

Open Scope Z_scope.

Section History.
Context {D : Type} `{DecimalLaws D} `{DecimalTextLaws D}.
Context (evidence_io : nat → bool) (reject_episode_max_count : nat).
Implicit Types (w : SubmitWorld D) (i : BoltV3SubmitAdmissionInner D).
Implicit Types (request : BoltV3SubmitAdmissionRequest D) (permit : BoltV3SubmitAdmissionPermit).
Implicit Types (out : list Granted) (sunk_ids : list text).

(** The state of admission, the permits that are out, the orders that crossed the sink. *)
Record SubmitSystem : Type := mkSystem {
  sys_world : SubmitWorld D;
  sys_out : list Granted;
  sys_sunk : list text;
}.

(** A process starts on the recovered authority of the log [past]. *)
Definition started (past : list ReservationRecoveryEvent) w : Prop :=
  ∃ limits loss_policy capital f0,
    recover (D := D) no_recovery_facts past = Ok f0 ∧ recovery_validate (D := D) f0 = Ok tt ∧
    install_recovered_admission_authority f0 (submit_new limits loss_policy capital) = Some (tt, w).

(** One operation; the label is the order whose reservation it retires, if any. *)
Inductive submit_step : SubmitSystem → option text → SubmitSystem → Prop :=
| step_admit w out sunk_ids request economics now permit w' :
    admit_at_inner evidence_io reject_episode_max_count request economics now w = Some (Ok permit, w') →
    submit_step (mkSystem w out sunk_ids) None
      (mkSystem w' (([req_client_order_id request], permit) :: out) sunk_ids)
| step_admit_refused w out sunk_ids request economics now error w' :
    admit_at_inner evidence_io reject_episode_max_count request economics now w = Some (Err error, w') →
    submit_step (mkSystem w out sunk_ids) None (mkSystem w' out sunk_ids)
| step_evaluate w out sunk_ids request economics now r w' :
    evaluate_and_record_without_consuming_capacity_at evidence_io reject_episode_max_count request economics now w =
      Some (r, w') →
    submit_step (mkSystem w out sunk_ids) None (mkSystem w' out sunk_ids)
| step_basket w out sunk_ids client claims details clock permit w' :
    reserve_basket_submit_slots_with_evidence evidence_io client claims details clock w = Some (Ok permit, w') →
    submit_step (mkSystem w out sunk_ids) None
      (mkSystem w' ((claim_client_order_id <$> claims, permit) :: out) sunk_ids)
| step_basket_refused w out sunk_ids client claims details clock error w' :
    reserve_basket_submit_slots_with_evidence evidence_io client claims details clock w = Some (Err error, w') →
    submit_step (mkSystem w out sunk_ids) None (mkSystem w' out sunk_ids)
| step_sink w out sunk_ids ids permit out' permit' w' :
    out ≡ₚ (ids, permit) :: out' →
    sink_invocation permit true w = Some (Ok permit', w') →
    submit_step (mkSystem w out sunk_ids) None (mkSystem w' out' (ids ++ sunk_ids))
| step_sink_not_crossed w out sunk_ids ids permit out' r w' :
    out ≡ₚ (ids, permit) :: out' →
    sink_invocation permit false w = Some (r, w') →
    submit_step (mkSystem w out sunk_ids) None (mkSystem w' out sunk_ids)
| step_drop w out sunk_ids ids permit out' w' :
    out ≡ₚ (ids, permit) :: out' →
    permit_drop permit w = Some (tt, w') →
    submit_step (mkSystem w out sunk_ids) None (mkSystem w' out' sunk_ids)
| step_rebuild w out sunk_ids snapshot now epoch components accepted_at r w' :
    snapshot_attributed (sw_inner w) snapshot →
    rebuild_capital_admission_open_order_snapshot_with_projection evidence_io snapshot now epoch components
      accepted_at w = Some (r, w') →
    submit_step (mkSystem w out sunk_ids) None (mkSystem w' out sunk_ids)
| step_retire w out sunk_ids capability at_ns d w' :
    retire_terminal_reservation evidence_io capability at_ns w = Some (d, w') →
    submit_step (mkSystem w out sunk_ids) (Some (capability_client_order_id capability))
      (mkSystem w' out sunk_ids)
| step_fill w out sunk_ids update d w' :
    record_capital_admission_fill_evidence evidence_io update w = Some (d, w') →
    submit_step (mkSystem w out sunk_ids) None (mkSystem w' out sunk_ids)
| step_input w out sunk_ids input w' :
    take_input evidence_io input w = Some (tt, w') →
    submit_step (mkSystem w out sunk_ids) None (mkSystem w' out sunk_ids).

Inductive submit_reachable (past : list ReservationRecoveryEvent) : SubmitSystem → Prop :=
| reachable_start w : started past w → submit_reachable past (mkSystem w [] [])
| reachable_step s label s' :
    submit_reachable past s → submit_step s label s' → submit_reachable past s'.

(** ** The invariant *)

Lemma sink_not_crossed permit w r w' : sink_invocation permit false w = Some (r, w') → w' = w.
Proof.
  unfold sink_invocation, get_inner. intros (? & ? & [= <- <-] & Hr)%rust_bind_Some.
  destruct (prepare_submit_sink_invocation _ _ _); [|by injection Hr].
  by destruct (permit_evidence_authority permit); injection Hr.
Qed.

Lemma runs_Some {S A} (m : Rust S A) s a s' (Q : A → S → Prop) :
  runs m s Q → m s = Some (a, s') → Q a s'.
Proof. intros Hm%runs_safe Heq. by apply Hm. Qed.

Lemma submit_step_inv s label s' :
  submit_inv (sw_inner (sys_world s)) (sys_out s) (sys_sunk s) → submit_step s label s' →
  submit_inv (sw_inner (sys_world s')) (sys_out s') (sys_sunk s') ∧ logged (sys_world s) (sys_world s').
Proof.
  intros Hi Hstep. destruct Hstep as
    [???????? Hr|???????? Hr|???????? Hr|????????? Hr|????????? Hr|???????? Hp Hr|???????? Hp Hr|??????? Hp Hr
    |?????????? Hs Hr|??????? Hr|?????? Hr|????? Hr]; simpl in *.
  - apply (admit_safe evidence_io reject_episode_max_count _ _ _ _ _ _ Hi) in Hr.
    by destruct Hr as (? & ? & _).
  - apply (admit_safe evidence_io reject_episode_max_count _ _ _ _ _ _ Hi) in Hr.
    by destruct Hr as [(? & ? & _) _].
  - apply (evaluate_only_safe evidence_io reject_episode_max_count _ _ _ _ _ _ Hi) in Hr.
    by destruct Hr as (? & ? & _).
  - apply (reserve_basket_safe evidence_io _ _ _ _ _ _ _ Hi) in Hr.
    by destruct Hr as (now & _ & ? & ? & _).
  - apply (reserve_basket_safe evidence_io _ _ _ _ _ _ _ Hi) in Hr.
    by destruct Hr as [(? & ? & _) _].
  - eapply runs_Some in Hr; [|apply sink_runs, (submit_inv_perm _ _ _ _ Hp Hi)].
    destruct Hr as (_ & _ & Hs & ? & (_ & _ & ? & _) & _). split; [done|by apply silent_logged].
  - apply sink_not_crossed in Hr as ->. done.
  - eapply runs_Some in Hr; [|eapply drop_runs, (submit_inv_perm _ _ _ _ Hp Hi)].
    destruct Hr as (Hs & ? & (_ & _ & ? & _) & _). split; [done|by apply silent_logged].
  - eapply runs_Some in Hr; [|by eapply rebuild_runs]. destruct Hr as ([] & _). done.
  - eapply runs_Some in Hr; [|by eapply retire_runs]. destruct Hr as ([] & _). done.
  - eapply runs_Some in Hr; [|by eapply fill_runs]. destruct Hr as ([] & _). done.
  - eapply runs_Some in Hr; [|by eapply input_runs]. destruct Hr as ([] & _). done.
Qed.

Lemma started_inv past w :
  started past w →
  submit_inv (sw_inner w) [] [] ∧ sw_log w = [] ∧
  recover (D := D) no_recovery_facts past = Ok (in_authority (sw_inner w)).
Proof.
  intros (limits & loss_policy & capital & f0 & Hrec & Hval & Hinst).
  unfold install_recovered_admission_authority, get_inner, put_inner in Hinst.
  apply rust_bind_Some in Hinst as (? & ? & [= <- <-] & Hinst).
  change (in_authority _) with no_recovery_facts in Hinst.
  replace (recovery_is_empty no_recovery_facts) with true in Hinst by reflexivity. injection Hinst as <-.
  split_and!; [|done|done]. split; simpl; try done.
  - split; [constructor|]. simpl. destruct capital as [config|]; [|done]. simpl.
    split_and!; [|constructor|by intros]. split; simpl; [constructor|by rewrite map_to_list_empty|apply map_Forall_empty].
  - split; simpl; try done. constructor.
  - constructor.
  - intros _. unfold index_attributed, inner_index. simpl. destruct capital; apply map_Forall_empty.
  - intros _. by apply recovery_validate_Ok.
  - intros client l Hl. unfold client_count. simpl. rewrite lookup_empty. simpl. lia.
Qed.

Lemma reachable_inv past s :
  submit_reachable past s →
  submit_inv (sw_inner (sys_world s)) (sys_out s) (sys_sunk s) ∧
  recover (D := D) no_recovery_facts (past ++ recovery_events (sw_log (sys_world s))) =
    Ok (in_authority (sw_inner (sys_world s))).
Proof.
  induction 1 as [w Hw|s label s' _ [Hi Hlog] Hstep].
  - apply started_inv in Hw as (Hi & Hl & Hr). split; [done|]. simpl. rewrite Hl. simpl. by rewrite app_nil_r.
  - destruct (submit_step_inv _ _ _ Hi Hstep) as [Hi' (events & Hev & Hre)]. split; [done|].
    rewrite Hev, app_assoc. by rewrite (recover_trans _ _ _ _ Hlog).
Qed.

Lemma submit_step_kept s label s' id r :
  submit_inv (sw_inner (sys_world s)) (sys_out s) (sys_sunk s) → submit_step s label s' →
  label ≠ Some id → inner_index (sw_inner (sys_world s)) !! id = Some r → rec_phase r ≠ Reserved →
  ∃ r', inner_index (sw_inner (sys_world s')) !! id = Some r' ∧ rec_phase r' ≠ Reserved.
Proof.
  intros Hi Hstep Hlab Hr Hp.
  assert (Hk : kept (sw_inner (sys_world s)) (sw_inner (sys_world s')) ∨
    ∃ id', label = Some id' ∧ (inner_index (sw_inner (sys_world s')) = delete id' (inner_index (sw_inner (sys_world s))) ∨
      inner_index (sw_inner (sys_world s')) = inner_index (sw_inner (sys_world s)))).
  { destruct Hstep as
      [???????? Hs|???????? Hs|???????? Hs|????????? Hs|????????? Hs|???????? Hq Hs|???????? Hq Hs|??????? Hq Hs
      |?????????? Ha Hs|??????? Hs|?????? Hs|????? Hs]; simpl in *.
    - left. apply (admit_safe evidence_io reject_episode_max_count _ _ _ _ _ _ Hi) in Hs.
      destruct Hs as (_ & _ & _ & _ & _ & (legs & Hext) & _). exact (extended_kept_index _ _ _ _ Hext).
    - left. apply (admit_safe evidence_io reject_episode_max_count _ _ _ _ _ _ Hi) in Hs.
      by destruct Hs as [(_ & _ & _ & ?) _].
    - left. apply (evaluate_only_safe evidence_io reject_episode_max_count _ _ _ _ _ _ Hi) in Hs.
      by destruct Hs as (_ & _ & _ & ?).
    - left. apply (reserve_basket_safe evidence_io _ _ _ _ _ _ _ Hi) in Hs.
      destruct Hs as (now & _ & _ & _ & _ & (legs & Hext) & _). exact (extended_kept_index _ _ _ _ Hext).
    - left. apply (reserve_basket_safe evidence_io _ _ _ _ _ _ _ Hi) in Hs.
      by destruct Hs as [(_ & _ & _ & ?) _].
    - left. eapply runs_Some in Hs; [|apply sink_runs, (submit_inv_perm _ _ _ _ Hq Hi)].
      by destruct Hs as (_ & _ & _ & _ & _ & _ & _ & _ & ? & _).
    - left. apply sink_not_crossed in Hs as ->. by apply kept_index.
    - left. eapply runs_Some in Hs; [|eapply drop_runs, (submit_inv_perm _ _ _ _ Hq Hi)].
      by destruct Hs as (_ & _ & _ & ? & _).
    - left. eapply runs_Some in Hs; [|by eapply rebuild_runs]. by destruct Hs as (_ & ? & _).
    - right. eexists. split; [done|]. eapply runs_Some in Hs; [|by eapply retire_runs].
      destruct Hs as [_ Hd]. destruct d; try done; [left; by destruct Hd|by right..].
    - left. eapply runs_Some in Hs; [|by eapply fill_runs]. destruct Hs as [_ ?]. by apply kept_index.
    - left. eapply runs_Some in Hs; [|by eapply input_runs]. by destruct Hs as [_ ?]. }
  destruct Hk as [Hk|(id' & -> & [Heq|Heq])]; [by eapply Hk| |].
  - exists r. split; [|done]. rewrite Heq, lookup_delete_ne; [done|]. congruence.
  - rewrite Heq. by exists r.
Qed.

(** ** The theorems *)

(** C3: in every reachable state the reservation ledger of the gate and the reservation
    index agree, one reservation per order and no key twice; and unless ownership was
    latched as lost, a reservation that has not crossed the sink is held by exactly one
    permit that is out. *)
Theorem submit_books_agree past s c :
  submit_reachable past s → in_capital (sw_inner (sys_world s)) = Some c →
  NoDup (live_key <$> live_reservations (reservation_ledger (cap_gate c))) ∧
  (live_tag <$> live_reservations (reservation_ledger (cap_gate c))) ≡ₚ
    (record_tag <$> map_to_list (cap_index c)) ∧
  NoDup (cids (rbs_of (sys_out s))) ∧
  (in_rollback_ownership_latch (sw_inner (sys_world s)) = None →
   ∀ id r, cap_index c !! id = Some r →
     (rec_phase r = Reserved ↔ id ∈ cids (rbs_of (sys_out s)))).
Proof.
  intros [Hi _]%reachable_inv Hc. destruct (inv_capital _ _ _ Hi) as [Hnd Hm]. rewrite Hc in Hm.
  destruct Hm as (Hok & Hown & Hres). split_and!; [apply (ok_keys _ Hok)|apply (ok_index _ Hok)|done|].
  intros Hl id r Hr. split; [by apply Hres|]. intros (rb & -> & Hin)%list_elem_of_fmap.
  rewrite Forall_forall in Hown. destruct (Hown rb Hin) as (r0 & Hr0 & Hp & _). congruence.
Qed.

(** C4: no client order id crosses the sink twice, and none that has crossed it, nor any
    two permits that are out, are granted the same id, in any interleaving of
    admissions, baskets, uses, drops, rebuilds and failures of the evidence log. *)
Theorem order_crosses_sink_once past s :
  submit_reachable past s → NoDup (out_ids (sys_out s) ++ sys_sunk s).
Proof. intros [Hi _]%reachable_inv. apply (inv_ids _ _ _ Hi). Qed.

(** C5: a restart recovers the authority.  Replaying the log of the earlier processes and
    then this one's succeeds and gives the authority in memory, whatever records could
    not be appended; and unless ownership was latched as lost the recovered facts pass
    validation. *)
Theorem restart_replays_authority past s :
  submit_reachable past s →
  recover (D := D) no_recovery_facts (past ++ recovery_events (sw_log (sys_world s))) =
    Ok (in_authority (sw_inner (sys_world s))) ∧
  (in_rollback_ownership_latch (sw_inner (sys_world s)) = None →
   recovery_validate (D := D) (in_authority (sw_inner (sys_world s))) = Ok tt).
Proof.
  intros [Hi Hr]%reachable_inv. split; [done|]. intros Hl. by apply recovery_validate_Ok, (inv_fills _ _ _ Hi).
Qed.

(** C7: the approval limits hold in every reachable state: a client's admitted orders never
    exceed its maximum, the total fits the counter's width, and both cover the permits
    that are out. *)
Theorem approval_limits_hold past s client :
  submit_reachable past s →
  let i := sw_inner (sys_world s) in
  (∀ limits, in_live_submit_approval_limits i !! client = Some limits → 0 ≤ limits_max_order_count limits →
     client_count i client ≤ limits_max_order_count limits) ∧
  in_admitted_order_count i ≤ u32_max ∧
  count_of client (crs_of (sys_out s)) ≤ client_count i client ∧
  Zsum (counter_order_count <$> crs_of (sys_out s)) ≤ in_admitted_order_count i.
Proof.
  intros [Hi _]%reachable_inv i. split_and!.
  - intros limits Hl Hpos. pose proof (inv_limits _ _ _ Hi client limits Hl). subst i. lia.
  - apply (inv_total _ _ _ Hi).
  - apply (counters_client _ _ (inv_counters _ _ _ Hi)).
  - apply (counters_total _ _ (inv_counters _ _ _ Hi)).
Qed.

Lemma commit_submitted_runs past s ids permit out' :
  submit_reachable past s → sys_out s ≡ₚ (ids, permit) :: out' →
  in_revision (sw_inner (sys_world s)) + Z.of_nat (length (permit_rollbacks permit)) ≤ u64_max →
  runs (commit_submitted permit) (sys_world s) (λ permit' w',
    permit_committed permit' = true ∧ submit_reachable past (mkSystem w' out' (ids ++ sys_sunk s)) ∧
    (∀ id, id ∈ cids (permit_rollbacks permit) →
       ∃ r, inner_index (sw_inner w') !! id = Some r ∧ rec_phase r = SinkInvoked)).
Proof.
  intros Hs Hp Hroom. destruct (reachable_inv _ _ Hs) as [Hi _].
  pose proof (sink_runs ids permit (sys_world s) out' (sys_sunk s) (submit_inv_perm _ _ _ _ Hp Hi))
    as (r & w' & Hr & Hpost). unfold commit_submitted. apply runs_bind. exists r, w'. split; [done|].
  destruct r as [permit'|reason]; [|destruct Hpost as [_ ?]; lia]. runs_step.
  destruct Hpost as (Hcom & _ & _ & _ & _ & _ & _ & _ & _ & Hsunk). split_and!; [done| |done].
  eapply (reachable_step _ _ None); [exact Hs|]. destruct s. simpl in *. by econstructor.
Qed.

(** What a dropped permit of the orders [ids] gives back, and nothing else. *)
Definition given_back (ids : list text) (permit : BoltV3SubmitAdmissionPermit)
    (i i' : BoltV3SubmitAdmissionInner D) : Prop :=
  rolled_back (permit_rollbacks permit) i i' ∧
  ∃ cr, permit_counter_rollback permit = Some cr ∧
    in_admitted_order_count i' = in_admitted_order_count i - Z.of_nat (length ids) ∧
    (∀ client, client_count i' client =
       client_count i client - if decide (client = counter_execution_client_id cr) then Z.of_nat (length ids) else 0) ∧
    (∀ id, in_evidence_free i' !! id = if decide (id ∈ held_of permit) then None else in_evidence_free i !! id).

(** C8: a permit that is out is honoured.  Unless the revision counter is exhausted,
    committing it never hits its [expect], moves each of its reservations past the sink
    and leads to a reachable state.  Dropping it instead leads to a reachable state, latches
    nothing, and gives back exactly what the permit holds: its reservations leave the
    ledger and the index, its orders the total and the count of its client, its ids the set
    of those in flight without evidence; no other reservation, client or id changes. *)
Theorem permit_always_honoured past s ids permit out' :
  submit_reachable past s → sys_out s ≡ₚ (ids, permit) :: out' →
  in_revision (sw_inner (sys_world s)) + Z.of_nat (length (permit_rollbacks permit)) ≤ u64_max →
  runs (commit_submitted permit) (sys_world s) (λ permit' w',
    permit_committed permit' = true ∧ submit_reachable past (mkSystem w' out' (ids ++ sys_sunk s)) ∧
    ∀ id, id ∈ cids (permit_rollbacks permit) →
      ∃ r, inner_index (sw_inner w') !! id = Some r ∧ rec_phase r = SinkInvoked) ∧
  runs (permit_drop permit) (sys_world s) (λ _ w',
    submit_reachable past (mkSystem w' out' (sys_sunk s)) ∧
    given_back ids permit (sw_inner (sys_world s)) (sw_inner w')).
Proof.
  intros Hs Hp Hroom. split; [by apply commit_submitted_runs|].
  destruct (reachable_inv _ _ Hs) as [Hi _]. pose proof (submit_inv_perm _ _ _ _ Hp Hi) as Hi'.
  pose proof (inv_granted _ _ _ Hi') as Hg. apply Forall_cons in Hg as [(_ & _ & (cr & Hcr & Hn) & _) _].
  pose proof (drop_runs ids permit (sys_world s) out' (sys_sunk s) Hi') as ([] & w' & Hr & _ & _ & _ & _ & Hpost).
  exists tt, w'. split; [done|]. destruct (Hpost Hroom) as [Hrb Hc]. destruct (Hc cr Hcr) as (Ht & Hclient & Hheld).
  split; [|split; [done|]; exists cr; cbn [fst] in Hn; rewrite <- Hn; split_and!; try done; intros id;
            rewrite Hheld; unfold held_of; cbn [snd] in Hcr; by rewrite Hcr].
  eapply (reachable_step _ _ None); [exact Hs|]. destruct s. simpl in *. by econstructor.
Qed.

(** C9: a reservation that crossed the sink, or was seen open, stays on the books, in the
    ledger as well as in the index, through every operation but the retirement of its own
    order: no rebuild, restart of the projection, drop or fill frees its capital. *)
Theorem sunk_reservation_kept past s label s' id r :
  submit_reachable past s → submit_step s label s' → label ≠ Some id →
  inner_index (sw_inner (sys_world s)) !! id = Some r → rec_phase r ≠ Reserved →
  ∃ r', inner_index (sw_inner (sys_world s')) !! id = Some r' ∧ rec_phase r' ≠ Reserved ∧
    attr_tag (rec_attribution r') ∈ live_tag <$> inner_live (sw_inner (sys_world s')).
Proof.
  intros Hs Hstep Hlab Hr Hp. destruct (reachable_inv _ _ Hs) as [Hi _].
  destruct (submit_step_kept _ _ _ _ _ Hi Hstep Hlab Hr Hp) as (r' & Hr' & Hp').
  exists r'. split_and!; [done|done|]. destruct (submit_step_inv _ _ _ Hi Hstep) as [Hi' _].
  destruct (inv_capital _ _ _ Hi') as [_ Hm]. unfold inner_index, inner_live in *.
  destruct (in_capital (sw_inner (sys_world s'))) as [c|]; [|by rewrite lookup_empty in Hr'].
  destruct Hm as [Hok _]. rewrite (ok_index _ Hok). apply list_elem_of_fmap. exists (id, r').
  split; [done|]. by apply elem_of_map_to_list.
Qed.

(** C12: an order is admitted only when it is safe.  If admission hands out a permit, then
    ownership was not latched as lost, the kill switch was armed, the order id had never
    been authorised and was not in flight, the loss governor passed an entry, the
    notional was positive and within the client's limits, an exit had a valid proof, the
    economics had not expired, and the capital side granted it: an entry has its worst
    case reserved on a trusted state of the node and its admission is in the log, an exit
    sells no more than the position. *)
Theorem admitted_only_when_safe past s request economics now permit w' :
  submit_reachable past s →
  admit_at_inner evidence_io reject_episode_max_count request economics now (sys_world s) =
    Some (Ok permit, w') →
  may_submit (sw_inner (sys_world s)) request now ∧
  (∀ valid_until, economics = Some valid_until → now ≤ valid_until) ∧
  (∃ e, capital_granted request now (sw_inner (sys_world s)) (sw_inner w') e ∧
     permit_rollbacks permit = option_list (eval_rollback e)) ∧
  (req_intent_kind request = Entry →
   authorizes_order (in_authority (sw_inner w')) (req_client_order_id request) = true).
Proof.
  intros [Hi _]%reachable_inv Hr.
  apply (admit_safe evidence_io reject_episode_max_count _ _ _ _ _ _ Hi) in Hr.
  destruct Hr as (_ & _ & Hmay & Heco & He & _ & _ & _ & Hau). split_and!; [done|done|done|].
  intros Hk. destruct Hau as [?|?]; [done|congruence].
Qed.

(** A refused admission has no effect: the counters, the ids in flight, the authority,
    the reservations of the ledger and of the index and the latch are as before (the
    revision counter not being exhausted). *)
Lemma refused_submit_has_no_effect past s request economics now error w' :
  submit_reachable past s → in_revision (sw_inner (sys_world s)) + 2 ≤ u64_max →
  admit_at_inner evidence_io reject_episode_max_count request economics now (sys_world s) =
    Some (Err error, w') →
  let i := sw_inner (sys_world s) in
  let i' := sw_inner w' in
  in_authority i' = in_authority i ∧ in_admitted_order_count i' = in_admitted_order_count i ∧
  in_admitted_order_count_by_execution_client i' = in_admitted_order_count_by_execution_client i ∧
  in_evidence_free i' = in_evidence_free i ∧ inner_index i' = inner_index i ∧
  inner_live i' ≡ₚ inner_live i ∧
  in_rollback_ownership_latch i' = in_rollback_ownership_latch i.
Proof.
  intros [Hi _]%reachable_inv Hroom Hr. cbv zeta.
  apply (admit_safe evidence_io reject_episode_max_count _ _ _ _ _ _ Hi) in Hr.
  destruct Hr as [(_ & _ & (? & ? & ? & Hres) & _) Ha]. destruct Hres as [[? ?] ?]; [simpl; lia|].
  by split_and!.
Qed.

(** Admitting an order and dropping its permit is a round trip: it succeeds and
    restores the counters, the ids in flight, the ledger, the index and the latch.  Only
    the authority stays, so that the order id of an entry is never used again. *)
Lemma admit_drop_roundtrip past s request economics now permit w1 :
  submit_reachable past s → in_revision (sw_inner (sys_world s)) + 2 ≤ u64_max →
  admit_at_inner evidence_io reject_episode_max_count request economics now (sys_world s) =
    Some (Ok permit, w1) →
  let i := sw_inner (sys_world s) in
  runs (permit_drop permit) w1 (λ _ w2,
    let i2 := sw_inner w2 in
    in_admitted_order_count i2 = in_admitted_order_count i ∧
    (∀ client, client_count i2 client = client_count i client) ∧
    in_evidence_free i2 = in_evidence_free i ∧ inner_index i2 = inner_index i ∧
    inner_live i2 ≡ₚ inner_live i ∧
    in_rollback_ownership_latch i2 = in_rollback_ownership_latch i ∧
    in_authority i2 = in_authority (sw_inner w1)).
Proof.
  intros [Hi _]%reachable_inv Hroom Hr. cbv zeta.
  apply (admit_safe evidence_io reject_episode_max_count _ _ _ _ _ _ Hi) in Hr.
  destruct Hr as (_ & Hi1 & Hmay & _ & (e & Hg & Hrb) & (legs & Hext) & Hl1 & (held & Hcr & Hgr) & _).
  assert (Hlen : (length (permit_rollbacks permit) ≤ 1)%nat) by (rewrite Hrb; destruct (eval_rollback e); simpl; lia).
  pose proof (ext_revision _ _ _ _ Hext) as Hrev. simpl in Hrev.
  pose proof (drop_runs _ _ _ _ _ Hi1) as ([] & w2 & Hd & _ & _ & (_ & _ & Ha & _) & _ & Hpost).
  destruct Hpost as [Hroll Hc]; [lia|]. destruct (Hc _ Hcr) as (Ht & Hcl & Hef). simpl in Ht, Hcl, Hef.
  destruct (grant_total _ _ _ _ _ _ _ Hgr) as [Gt _].
  exists tt, w2. split; [done|].
  assert (Hres : restored (sw_inner (sys_world s)) (sw_inner w2)).
  { eapply (extended_rolled_back _ _ _ _ (sw_inner w1)); [exact Hext|done| |exact Hroll].
    simpl. intros c Hc1. destruct (inv_capital _ _ _ Hi1) as [_ Hm]. rewrite Hc1 in Hm. by destruct Hm. }
  destruct Hres as [Hix Hlv]. split_and!; [| | |done|done| |done].
  - rewrite Ht, Gt. simpl. lia.
  - intros client. rewrite Hcl, (grant_client _ _ _ _ _ _ _ Hgr). simpl. case_decide; lia.
  - apply map_eq. intros id. rewrite Hef, (grant_evidence_free _ _ _ _ _ _ _ Hgr).
    case_decide as Hin; [|done]. symmetry. destruct (grant_held _ _ _ _ _ _ _ Hgr) as [_ Hsub].
    apply Hsub, list_elem_of_singleton in Hin as ->. pose proof (submit_fresh _ _ _ Hmay) as Hfresh.
    destruct (in_evidence_free _ !! _) eqn:E; [|done]. exfalso. apply Hfresh. right. by eexists.
  - destruct Hroll as [-> _]. done.
Qed.

(** C28: a basket is granted as a whole or not at all.  A grant means that every claim may
    be submitted, that the ids are distinct and new, that the client's limit covers the
    whole basket, and that the grant is in the log unless every claim is an exit; a
    refusal leaves the counters, the ids in flight, the authority, the index and, up to its
    order, the ledger as before; it may still advance the revision and the sequences, and
    record the refusal and its episode. *)
Theorem basket_all_or_nothing past s client claims details clock r w' :
  submit_reachable past s →
  in_revision (sw_inner (sys_world s)) + 2 * Z.of_nat (length claims) ≤ u64_max →
  reserve_basket_submit_slots_with_evidence evidence_io client claims details clock (sys_world s) =
    Some (r, w') →
  let i := sw_inner (sys_world s) in
  let i' := sw_inner w' in
  let ids := claim_client_order_id <$> claims in
  match r with
  | Ok permit =>
      ∃ now, clock = Ok now ∧
        Forall (λ claim, may_submit i (basket_submit_request (basket_strategy_id details) client claim) now) claims ∧
        NoDup ids ∧ in_admitted_order_count i' = in_admitted_order_count i + Z.of_nat (length claims) ∧
        (∀ limits, in_live_submit_approval_limits i !! client = Some limits →
           client_count i client + Z.of_nat (length claims) ≤ limits_max_order_count limits) ∧
        (Forall (λ id, authorizes_order (in_authority i') id = true) ids ∨
         Forall (λ claim, claim_intent_kind claim = RiskReducingExit) claims)
  | Err _ =>
      in_authority i' = in_authority i ∧ in_admitted_order_count i' = in_admitted_order_count i ∧
      in_admitted_order_count_by_execution_client i' = in_admitted_order_count_by_execution_client i ∧
      in_evidence_free i' = in_evidence_free i ∧ inner_index i' = inner_index i ∧
      inner_live i' ≡ₚ inner_live i
  end.
Proof.
  intros [Hi _]%reachable_inv Hroom Hr. cbv zeta.
  apply (reserve_basket_safe evidence_io _ _ _ _ _ _ _ Hi) in Hr. destruct r as [permit|error].
  - destruct Hr as (now & Hclock & _ & _ & Hmay & _ & (held & _ & Hg) & Hau). exists now.
    destruct (grant_ids _ _ _ _ _ _ _ Hg) as [Hnd _]. destruct (grant_total _ _ _ _ _ _ _ Hg) as [Ht _].
    rewrite length_fmap in Ht. split_and!; [done|done|done|done| |done].
    intros limits Hl. pose proof (grant_limit _ _ _ _ _ _ _ Hg limits Hl) as Hlim.
    rewrite (grant_client _ _ _ _ _ _ _ Hg), decide_True, length_fmap in Hlim by done. done.
  - destruct Hr as [(_ & _ & (? & ? & ? & Hres) & _) Ha]. destruct Hres as [[? ?] _]; [lia|]. by split_and!.
Qed.

(** C29: evaluations are well formed.  In every reachable state an evaluation that returns
    has an outcome, halt reasons, capital rejection, rollback and attribution that fit
    together; an internal inconsistency is reported only for a latched state, where
    nothing changes. *)
Theorem evaluation_always_consistent past s request now r w' :
  submit_reachable past s →
  submit_evaluate evidence_io request now (sys_world s) = Some (r, w') →
  match r with
  | Ok e => evaluation_validate e = Ok tt ∧
      (eval_outcome e = OutcomeAdmitted ∨ eval_rollback e = None ∧ eval_reservation_attribution e = None)
  | Err _ => is_Some (in_rollback_ownership_latch (sw_inner (sys_world s))) ∧
      sw_inner w' = sw_inner (sys_world s)
  end.
Proof.
  intros [Hi _]%reachable_inv Hr.
  apply (submit_evaluate_safe evidence_io _ _ _ _ (inv_capital _ _ _ Hi)) in Hr.
  destruct Hr as (_ & _ & _ & Hr). destruct r as [e|err]; [|done].
  destruct Hr as (_ & Hv & _ & Ho). split; [done|]. destruct (eval_outcome e); [by left|].
  right. by destruct Ho as (? & ? & _).
Qed.

(** Rebuilding from the node's open orders always returns and is never an internal
    inconsistency.  It is accepted only for the epoch it was projected in and when no
    permit holds a reservation that has not crossed the sink, and then the gate is
    reconciled again. *)
Lemma rebuild_reconciles past s snapshot now epoch components accepted_at :
  submit_reachable past s → snapshot_attributed (sw_inner (sys_world s)) snapshot →
  runs (rebuild_capital_admission_open_order_snapshot_with_projection evidence_io snapshot now epoch
          components accepted_at) (sys_world s) (λ r w',
    match r with
    | Ok decision =>
        submit_reachable past (mkSystem w' (sys_out s) (sys_sunk s)) ∧
        (submit_rebuild_accepted decision = true →
         rbs_of (sys_out s) = [] ∧
         ∀ c', in_capital (sw_inner w') = Some c' →
           is_reconciled (cap_gate c') = true ∧
           (∀ e, epoch = Some e → e = in_revision (sw_inner (sys_world s))) ∧
           in_revision (sw_inner w') = in_revision (sw_inner (sys_world s)) + 1)
    | Err _ => False
    end).
Proof.
  intros Hs Hsnap. destruct (reachable_inv _ _ Hs) as [Hi _].
  pose proof (rebuild_runs evidence_io snapshot now epoch components accepted_at _ _ _ Hi Hsnap)
    as (r & w' & Hr & _ & _ & Hpost). exists r, w'. split; [done|]. destruct r as [decision|]; [|done].
  split; [|done]. eapply (reachable_step _ _ None); [exact Hs|]. destruct s. simpl in *. by econstructor.
Qed.

(** Retiring a terminal reservation always returns, never finds the ledger and the
    index in disagreement, and retires exactly the reservation the capability names, in
    the phase and revision it names, if that has crossed the sink; any other decision
    leaves the index as it was. *)
Lemma retirement_exact past s capability at_ns :
  submit_reachable past s →
  let index := inner_index (sw_inner (sys_world s)) in
  let id := capability_client_order_id capability in
  runs (retire_terminal_reservation evidence_io capability at_ns) (sys_world s) (λ d w',
    match d with
    | Retired =>
        inner_index (sw_inner w') = delete id index ∧
        ∃ r, index !! id = Some r ∧ rec_phase r ≠ Reserved ∧ rec_phase r = capability_phase capability ∧
          rec_phase_revision r = capability_phase_revision capability
    | LedgerMismatch | RetirementInvariantViolation _ => False
    | _ => inner_index (sw_inner w') = index
    end).
Proof.
  intros [Hi _]%reachable_inv. cbv zeta. eapply runs_mono; [by apply retire_runs|].
  intros d w' [_ Hd]. destruct d; try done. destruct Hd as (Hix & r & Hr & Hcur). split; [done|]. exists r.
  unfold capability_current in Hcur. destruct (rec_phase r) eqn:Hp; [done| |];
    apply andb_true_iff in Hcur as [Hb%bool_decide_eq_true Hz%Z.eqb_eq]; by split_and!.
Qed.

End History.

(** ** Eviction of episodes *)

Lemma oldest_fold_elem (l : list (text * RejectEpisode)) best :
  let oldest := foldl (λ best entry,
    match best with
    | None => Some entry
    | Some b => if reject_first_ns entry.2 <? reject_first_ns b.2 then Some entry else best
    end) best l in
  (best = None → l = [] → oldest = None) ∧
  ((best ≠ None ∨ l ≠ []) → ∃ entry, oldest = Some entry ∧ (entry ∈ l ∨ best = Some entry)).
Proof.
  revert best. induction l as [|x l IH]; intros best; simpl.
  - split; [done|]. intros [Hb|?]; [|done]. destruct best as [b|]; [|done]. exists b. by split; [|right].
  - split; [done|]. intros _.
    set (best' := match best with None => Some x | Some b => _ end).
    assert (Hb' : best' = Some x ∨ best' = best) by (unfold best'; destruct best as [b|]; [destruct (_ <? _)|]; auto).
    assert (Hne : best' ≠ None) by (unfold best'; destruct best as [b|]; [by destruct (_ <? _)|done]).
    destruct (proj2 (IH best') (or_introl Hne)) as (entry & Hf & Hin). exists entry. split; [exact Hf|].
    destruct Hin as [?|Heq]; [left; by apply list_elem_of_further|].
    destruct Hb' as [Hb'|Hb']; rewrite Hb' in Heq; [left|by right]. injection Heq as <-. apply list_elem_of_here.
Qed.

Lemma oldest_episode_present m : (0 < size m)%nat → ∃ key, oldest_episode m = Some key ∧ is_Some (m !! key).
Proof.
  intros Hsize. unfold oldest_episode. destruct (oldest_fold_elem (btree_iter m) None) as [_ Hf].
  destruct Hf as (entry & -> & [Hin|?]); [|exists entry.1; split; [done|]|done].
  - right. intros Hnil. pose proof (btree_iter_perm m) as Hp. rewrite Hnil in Hp.
    apply Permutation_nil_l in Hp. symmetry in Hp. apply map_to_list_empty_iff in Hp.
    subst. rewrite map_size_empty in Hsize. lia.
  - destruct entry as [k v]. apply elem_of_btree_iter in Hin. by exists v.
Qed.

Lemma evict_oldest_size fuel m cap :
  (size m ≤ fuel)%nat → (size (evict_oldest_episodes fuel m cap) ≤ cap)%nat ∧ evict_oldest_episodes fuel m cap ⊆ m.
Proof.
  revert m. induction fuel as [|fuel IH]; intros m Hle; simpl; [by split; [lia|]|].
  case_decide as Hc; [|by split; [lia|]].
  destruct (oldest_episode_present m) as (key & -> & [v Hv]); [lia|].
  destruct (IH (delete key m)) as [Hs Hsub].
  - rewrite map_size_delete_Some by (by exists v). lia.
  - split; [done|]. etrans; [exact Hsub|apply delete_subseteq].
Qed.

(** C30: the eviction of reject episodes ends: its loop, run at most once per episode,
    leaves no more episodes than the configured maximum, and none that was not there. *)
Theorem eviction_ends_within_cap (m : gmap text RejectEpisode) (cap : nat) :
  (size (evict_oldest_episodes_over_cap m cap) ≤ cap)%nat ∧ evict_oldest_episodes_over_cap m cap ⊆ m ∧
  ((size m ≤ cap)%nat → evict_oldest_episodes_over_cap m cap = m).
Proof.
  unfold evict_oldest_episodes_over_cap. destruct (evict_oldest_size (size m) m cap) as [? ?]; [done|].
  split_and!; [done|done|]. intros Hle. destruct (size m) eqn:E; [done|]. simpl. rewrite E.
  by rewrite decide_False by lia.
Qed.
