(* ===== verification/SubmitAdmissionRuns.v ===== *)
(** * Submit admission: concrete runs

    A process starts on an empty log, learns the loss figures, is reconciled with a node
    that has no open orders, admits an entry, refuses the same order again, sends the
    first and drops another.  The histories instantiate the theorems on every reachable
    state; amounts are millionths. *)

From Stdlib Require Import ZArith Lia.
From stdpp Require Import sorting strings gmap numbers list.
From S2P Require Import BTree NtTypes.
From S2P Require Import Prelude RustText DecimalAmount LossGovernor KillSwitch.
From S2P Require Import CapitalReservation CapitalReservationFacts CapitalAdmissionState.
From S2P Require Import CapitalAdmission CapitalAdmissionFacts ReservationRecovery.
From S2P Require Import SubmitAdmissionState SubmitCapital SubmitCapitalFacts SubmitAdmission.
From S2P Require Import SubmitAdmissionFacts SubmitPermits SubmitLedger SubmitAdmissionSafety.

Open Scope Z_scope.

(** Every record is appended. *)
Definition demo_io : nat → bool := λ _, true.

Definition demo_limits : gmap text (BoltV3LiveSubmitApprovalLimits Z) :=
  {[lit "client" := mkApprovalLimits 2 5000000]}.

Definition demo_config : BoltV3SubmitCapitalAdmissionConfig Z :=
  mkCapitalConfig (lit "venue") (lit "account") ProductPredictionMarketBinary (lit "USD")
    demo_admission_pool demo_admission_policy.

Definition demo_components : BoltV3SubmitCapitalAdmissionNtComponents Z :=
  mkComponents (lit "nt") 1000 (portfolio demo_nt_state) (provider_collateral_allowance demo_nt_state)
    (order_lifecycle demo_nt_state) (product_state demo_nt_state) None.

Definition demo_open_orders : BoltV3SubmitCapitalAdmissionOpenOrderSnapshot Z :=
  mkOpenSnapshot 1000 NtOpenOrderCache 0 true [].

Definition demo_compiled : BoltV3CompiledOrderAdmissionEvidence Z :=
  mkCompiledEvidence (lit "venue") CompiledPredictionMarketBinary CompiledBuy 10000000 400000
    CompiledLimit CompiledTaker None (Some OutcomeYes).

Definition demo_entry (id : text) : BoltV3SubmitAdmissionRequest Z :=
  mkSubmitRequest (lit "strategy-1") (lit "client") id (lit "yes") 4000000 OrderBuy 10000000 Entry None
    (Some demo_compiled).

(** The state a run that returns leads to. *)
Definition run_to {A} (m : Rust (SubmitWorld Z) A) (w : SubmitWorld Z) : SubmitWorld Z :=
  match m w with Some (_, w') => w' | None => w end.

Definition no_permit : BoltV3SubmitAdmissionPermit := mkPermit [] None None false.

Definition granted_permit {E} (m : Rust (SubmitWorld Z) (Result BoltV3SubmitAdmissionPermit E))
    (w : SubmitWorld Z) : BoltV3SubmitAdmissionPermit :=
  match m w with Some (Ok permit, _) => permit | _ => no_permit end.

Definition demo_start : SubmitWorld Z :=
  run_to (install_recovered_admission_authority no_recovery_facts)
    (submit_new demo_limits (Some calm_loss_policy) (Some demo_config)).

Definition demo_fed : SubmitWorld Z :=
  run_to (take_input demo_io (InputLossSnapshot demo_loss_snapshot)) demo_start.

Definition demo_rebuild : Rust (SubmitWorld Z) _ :=
  rebuild_capital_admission_open_order_snapshot_with_projection demo_io demo_open_orders 1000 (Some 0)
    (Some demo_components) None.

Definition demo_reconciled : SubmitWorld Z := run_to demo_rebuild demo_fed.

Definition demo_admit (id : text) : Rust (SubmitWorld Z) _ :=
  admit_at_inner demo_io 8 (demo_entry id) (Some 2000) 1000.

Definition demo_admitted : SubmitWorld Z := run_to (demo_admit (lit "order-1")) demo_reconciled.
Definition demo_permit : BoltV3SubmitAdmissionPermit :=
  granted_permit (demo_admit (lit "order-1")) demo_reconciled.

Definition demo_sent : SubmitWorld Z := run_to (sink_invocation demo_permit true) demo_admitted.

(** ** The history *)

Abbreviation demo_step := (submit_step (D := Z) demo_io 8).
Abbreviation demo_reachable := (submit_reachable (D := Z) demo_io 8 []).

Ltac demo := vm_compute; reflexivity.

Lemma demo_started : started (D := Z) [] demo_start.
Proof. exists demo_limits, (Some calm_loss_policy), (Some demo_config), no_recovery_facts. split_and!; demo. Qed.

Lemma demo_attributed : snapshot_attributed (sw_inner demo_fed) demo_open_orders.
Proof. intros c _. constructor. Qed.

Lemma demo_fed_reachable : demo_reachable (mkSystem demo_fed [] []).
Proof.
  eapply (reachable_step _ _ _ _ None); [apply reachable_start, demo_started|].
  apply (step_input _ _ _ _ _ (InputLossSnapshot demo_loss_snapshot)). demo.
Qed.

Lemma demo_rebuild_runs :
  demo_rebuild demo_fed = Some (Ok (mkSubmitRebuild true None 0 0 0), demo_reconciled).
Proof. demo. Qed.

Lemma demo_reconciled_reachable : demo_reachable (mkSystem demo_reconciled [] []).
Proof.
  eapply (reachable_step _ _ _ _ None); [apply demo_fed_reachable|].
  eapply step_rebuild; [apply demo_attributed|]. apply demo_rebuild_runs.
Qed.

Lemma demo_admit_runs : demo_admit (lit "order-1") demo_reconciled = Some (Ok demo_permit, demo_admitted).
Proof. demo. Qed.

Definition demo_one_out : SubmitSystem := mkSystem demo_admitted [([lit "order-1"], demo_permit)] [].

Lemma demo_admitted_reachable : demo_reachable demo_one_out.
Proof.
  eapply (reachable_step _ _ _ _ None); [apply demo_reconciled_reachable|].
  apply (step_admit _ _ _ _ _ (demo_entry (lit "order-1")) (Some 2000) 1000). apply demo_admit_runs.
Qed.

Definition demo_after_sink : SubmitSystem := mkSystem demo_sent [] [lit "order-1"].

Lemma demo_sink_step : demo_step demo_one_out None demo_after_sink.
Proof.
  apply (step_sink _ _ _ _ [] [lit "order-1"] demo_permit []
    (mkPermit (permit_rollbacks demo_permit) (permit_counter_rollback demo_permit) None true)); [done|demo].
Qed.

Lemma demo_sent_reachable : demo_reachable demo_after_sink.
Proof. eapply reachable_step; [apply demo_admitted_reachable|apply demo_sink_step]. Qed.

(** ** The theorems on it *)

Lemma submit_books_agree_witness :
  ∃ c, in_capital (sw_inner demo_admitted) = Some c ∧ size (cap_index c) = 1%nat ∧
    (live_tag <$> live_reservations (reservation_ledger (cap_gate c))) ≡ₚ
      (record_tag <$> map_to_list (cap_index c)).
Proof.
  destruct (in_capital (sw_inner demo_admitted)) as [c|] eqn:Hc; [|vm_compute in Hc; discriminate].
  exists c. split; [done|]. split; [vm_compute in Hc; injection Hc as <-; demo|].
  exact (proj1 (proj2 (submit_books_agree demo_io 8 [] demo_one_out c demo_admitted_reachable Hc))).
Defined.

Lemma order_crosses_sink_once_witness :
  sys_sunk demo_after_sink = [lit "order-1"] ∧ NoDup (out_ids (sys_out demo_after_sink) ++ sys_sunk demo_after_sink).
Proof. split; [done|]. exact (order_crosses_sink_once demo_io 8 [] demo_after_sink demo_sent_reachable). Defined.

Lemma restart_replays_authority_witness :
  length (recovery_events (sw_log demo_sent)) = 1%nat ∧
  recover (D := Z) no_recovery_facts ([] ++ recovery_events (sw_log demo_sent)) =
    Ok (in_authority (sw_inner demo_sent)).
Proof.
  split; [demo|]. exact (proj1 (restart_replays_authority demo_io 8 [] demo_after_sink demo_sent_reachable)).
Defined.

Lemma approval_limits_hold_witness :
  client_count (sw_inner demo_sent) (lit "client") = 1 ∧
  client_count (sw_inner demo_sent) (lit "client") ≤ 2.
Proof.
  split; [demo|].
  apply (proj1 (approval_limits_hold demo_io 8 [] demo_after_sink (lit "client") demo_sent_reachable)
    (mkApprovalLimits 2 5000000)); [demo|done].
Defined.

Lemma permit_always_honoured_witness :
  runs (commit_submitted demo_permit) demo_admitted (λ permit' _, permit_committed permit' = true).
Proof.
  destruct (permit_always_honoured demo_io 8 [] demo_one_out [lit "order-1"] demo_permit []
    demo_admitted_reachable) as [Hrun _]; [done|vm_compute; discriminate|].
  eapply runs_mono; [exact Hrun|]. intros p w' [Hp _]. exact Hp.
Defined.

(** The order that was sent stays while the projection is requested again. *)
Lemma sunk_reservation_kept_witness :
  ∃ r', inner_index (sw_inner (run_to (take_input demo_io InputProjectionRequest) demo_sent)) !! lit "order-1" = Some r'
    ∧ rec_phase r' ≠ Reserved.
Proof.
  destruct (inner_index (sw_inner demo_sent) !! lit "order-1") as [r|] eqn:Hr; [|vm_compute in Hr; discriminate].
  destruct (sunk_reservation_kept demo_io 8 [] demo_after_sink None
    (mkSystem (run_to (take_input demo_io InputProjectionRequest) demo_sent) [] [lit "order-1"])
    (lit "order-1") r demo_sent_reachable) as (r' & Hr' & Hp & _).
  - apply (step_input _ _ _ _ _ InputProjectionRequest). demo.
  - discriminate.
  - exact Hr.
  - vm_compute in Hr. injection Hr as <-. discriminate.
  - exists r'. by split.
Defined.

Lemma admitted_only_when_safe_witness :
  may_submit (sw_inner demo_reconciled) (demo_entry (lit "order-1")) 1000.
Proof.
  exact (proj1 (admitted_only_when_safe demo_io 8 [] (mkSystem demo_reconciled [] [])
    (demo_entry (lit "order-1")) (Some 2000) 1000 demo_permit demo_admitted demo_reconciled_reachable
    demo_admit_runs)).
Defined.

(** The same order again. *)
Lemma refused_submit_has_no_effect_witness :
  demo_admit (lit "order-1") demo_admitted =
    Some (Err ErrorClientOrderAlreadyAuthorized, run_to (demo_admit (lit "order-1")) demo_admitted) ∧
  inner_index (sw_inner (run_to (demo_admit (lit "order-1")) demo_admitted)) = inner_index (sw_inner demo_admitted).
Proof.
  assert (Hr : demo_admit (lit "order-1") demo_admitted =
    Some (Err ErrorClientOrderAlreadyAuthorized, run_to (demo_admit (lit "order-1")) demo_admitted)) by demo.
  split; [exact Hr|].
  destruct (refused_submit_has_no_effect demo_io 8 [] demo_one_out (demo_entry (lit "order-1")) (Some 2000) 1000
    ErrorClientOrderAlreadyAuthorized (run_to (demo_admit (lit "order-1")) demo_admitted)
    demo_admitted_reachable) as (_ & _ & _ & _ & Hix & _);
    [vm_compute; discriminate|exact Hr|exact Hix].
Defined.

Lemma admit_drop_roundtrip_witness :
  runs (permit_drop demo_permit) demo_admitted (λ _ w2,
    inner_index (sw_inner w2) = inner_index (sw_inner demo_reconciled) ∧
    in_admitted_order_count (sw_inner w2) = 0).
Proof.
  eapply runs_mono.
  - apply (admit_drop_roundtrip demo_io 8 [] (mkSystem demo_reconciled [] []) (demo_entry (lit "order-1"))
      (Some 2000) 1000 demo_permit demo_admitted demo_reconciled_reachable);
      [vm_compute; discriminate|exact demo_admit_runs].
  - intros u w2 (Ht & _ & _ & Hix & _). split; [exact Hix|]. rewrite Ht. demo.
Defined.

Definition demo_claim (id : text) : BoltV3BasketSubmitSlotClaim Z :=
  mkClaim id (lit "yes") 4000000 OrderBuy 10000000 Entry None (Some demo_compiled).

Definition demo_basket : Rust (SubmitWorld Z) _ :=
  reserve_basket_submit_slots_with_evidence demo_io (lit "client")
    [demo_claim (lit "leg-1"); demo_claim (lit "leg-2")]
    (mkBasketDetails (lit "strategy-1") (lit "client") (lit "basket") (lit "group") [] (lit "8") 2) (Ok 1000).

Lemma basket_all_or_nothing_witness :
  ∃ permit w', demo_basket demo_reconciled = Some (Ok permit, w') ∧
    in_admitted_order_count (sw_inner w') = 2.
Proof.
  exists (granted_permit demo_basket demo_reconciled), (run_to demo_basket demo_reconciled).
  assert (Hr : demo_basket demo_reconciled =
    Some (Ok (granted_permit demo_basket demo_reconciled), run_to demo_basket demo_reconciled)) by demo.
  split; [exact Hr|].
  destruct (basket_all_or_nothing demo_io 8 [] (mkSystem demo_reconciled [] []) (lit "client")
    [demo_claim (lit "leg-1"); demo_claim (lit "leg-2")]
    (mkBasketDetails (lit "strategy-1") (lit "client") (lit "basket") (lit "group") [] (lit "8") 2) (Ok 1000)
    (Ok (granted_permit demo_basket demo_reconciled)) (run_to demo_basket demo_reconciled)
    demo_reconciled_reachable) as (now & _ & _ & _ & Ht & _); [vm_compute; discriminate|exact Hr|].
  rewrite Ht. demo.
Defined.

Lemma evaluation_always_consistent_witness :
  ∃ e w', submit_evaluate demo_io (demo_entry (lit "order-1")) 1000 demo_reconciled = Some (Ok e, w') ∧
    evaluation_validate e = Ok tt.
Proof.
  destruct (submit_evaluate demo_io (demo_entry (lit "order-1")) 1000 demo_reconciled) as [[[e|] w']|] eqn:Hr;
    [|vm_compute in Hr; discriminate..].
  exists e, w'. split; [done|].
  exact (proj1 (evaluation_always_consistent demo_io 8 [] (mkSystem demo_reconciled [] []) (demo_entry (lit "order-1"))
    1000 (Ok e) w' demo_reconciled_reachable Hr)).
Defined.

Lemma rebuild_reconciles_witness :
  submit_rebuild_accepted (mkSubmitRebuild true None 0 0 (0 : Z)) = true ∧
  ∀ c', in_capital (sw_inner demo_reconciled) = Some c' → is_reconciled (cap_gate c') = true.
Proof.
  split; [done|].
  destruct (rebuild_reconciles demo_io 8 [] (mkSystem demo_fed [] []) demo_open_orders 1000 (Some 0)
    (Some demo_components) None demo_fed_reachable demo_attributed) as (r & w' & Hr & Hpost).
  pose proof demo_rebuild_runs as Hd. unfold demo_rebuild in Hd. simpl in Hr. rewrite Hd in Hr.
  injection Hr as <- <-. destruct Hpost as [_ Hacc]. destruct (Hacc eq_refl) as [_ Hc].
  intros c' Hc'. exact (proj1 (Hc c' Hc')).
Defined.

Lemma retirement_exact_witness :
  runs (retire_terminal_reservation demo_io (mkCapability (lit "order-1") SinkInvoked 3) 1500) demo_sent
    (λ d w', d = Retired ∧ inner_index (sw_inner w') = delete (lit "order-1") (inner_index (sw_inner demo_sent))).
Proof.
  destruct (retirement_exact demo_io 8 [] demo_after_sink (mkCapability (lit "order-1") SinkInvoked 3) 1500
    demo_sent_reachable) as (d & w' & Hr & Hpost).
  exists d, w'. split; [exact Hr|]. assert (d = Retired) as ->.
  { apply (f_equal (option_map fst)) in Hr. vm_compute in Hr. by injection Hr. }
  split; [done|]. exact (proj1 Hpost).
Defined.
