(* ===== verification/CancelRecord.v ===== *)
(** * Cancellation of a resting order: the record and its query seed

    [src/src/bolt_v3_order_execution/tracked_order_economics/cancel_coordinator.rs]: the
    state machine that drives one requested cancellation to its terminal observation,
    by cancel and query operations that each need a REST reservation, and the order
    snapshot it can be queried by.  Times and counters are [u64] and [u32] values.  An
    operation that fails keeps the changes it made before: the code is in the monad
    [Rust] over the pair of record and seed. *)

From Stdlib Require Import ZArith Lia.
From stdpp Require Import strings gmap numbers list.
From S2P Require Import Prelude.
From S2P Require Import NtTypes.

Open Scope Z_scope.

(** ** What is read of an order of the node *)

Inductive NtOrderSide : Type :=
| NtNoOrderSide
| NtBuy
| NtSell.

#[global] Instance NtOrderSide_eq_dec : EqDecision NtOrderSide.
Proof. solve_decision. Defined.

(** [OrderAny] as far as this code reads it; quantities are in raw units. *)
Record NtOrder : Type := mkNtOrder {
  nt_client_order_id : string;
  nt_strategy_id : string;
  nt_instrument_id : string;
  nt_order_side : NtOrderSide;
  nt_venue_order_id : option string;
  nt_status : OrderStatus;
  nt_leaves_qty : Z;
}.

(** ** Data *)

Inductive CancelOperationKind : Type :=
| OpCancel
| OpQuery.

Inductive CancelRoutingState : Type :=
| RoutingReady
| RoutingAttempting (generation : Z) (operation : CancelOperationKind) (not_before_ns : Z)
| RoutingBackoff (not_before_ns : Z)
| RoutingPendingCancel (not_before_ns : Z).

Inductive CancelObservation : Type :=
| MissingUnqueryable
| MissingQueryable
| ObservedRetryable
| PendingCancelUnqueryable
| PendingCancelQueryable
| ObservedTerminal.

Inductive CancelTransition : Type :=
| TransitionNoOperation
| TransitionBegin (operation : CancelOperationKind)
| TransitionRemove.

Record BoltV3RecoveryIdentityConflict : Type := mkConflict {
  conflict_captured : string;
  conflict_observed : string;
}.

Inductive BoltV3CancellationLivenessFailure : Type :=
| CancellationDeadlineExceeded
| StuckPendingCancel.

Record RestingOrderCancelHealth : Type := mkHealth {
  recovery_identity_unavailable : bool;
  recovery_identity_conflict : option BoltV3RecoveryIdentityConflict;
  retry_escalated : bool;
  liveness : option BoltV3CancellationLivenessFailure;
}.

Record BoltV3RestingOrderCancelHealthSnapshot : Type := mkHealthSnapshot {
  health_client_order_id : string;
  health_total_recovery_attempts : Z;
  health_of : RestingOrderCancelHealth;
}.

Record RestingOrderCancelRecord : Type := mkCancelRecord {
  routing_state : CancelRoutingState;
  cancel_generation : Z;
  total_recovery_attempts : Z;
  cancel_attempts : Z;
  query_attempts : Z;
  quote_deadline_ns : Z;
  last_observed_ns : option Z;
  cancel_health : RestingOrderCancelHealth;
}.

(** [NtOrderQuerySeed] holds the order itself. *)
Record NtOrderQuerySeed : Type := mkSeed { seed_order : NtOrder }.

Record TrackedOrderCancellation : Type := mkTrackedCancellation {
  query_seed : NtOrderQuerySeed;
  cancel_intent : option RestingOrderCancelRecord;
}.

Inductive IdentityTransition : Type :=
| IdentityUnchanged
| IdentityCaptured
| IdentityPreserved
| IdentityConflict (conflict : BoltV3RecoveryIdentityConflict).

Inductive CancelEvent : Type :=
| TimerObserved (cached : option NtOrder) (now_ns retry_timeout_ns : Z)
| PassiveObserved (cached : option NtOrder) (now_ns retry_timeout_ns : Z)
| OperationSucceeded (generation : Z) (cached : option NtOrder) (now_ns retry_timeout_ns : Z)
| OperationUnobserved (generation : Z)
| ReservationGranted (operation : CancelOperationKind) (now_ns retry_timeout_ns : Z)
    (escalation_attempts : Z)
| ReservationDenied (now_ns retry_timeout_ns : Z)
| RequoteReservationDenied.

Inductive CancelEffect : Type :=
| EffectNone
| EffectRemove
| EffectCancel (generation : Z)
| EffectQuery (generation : Z) (seed : NtOrder)
| EffectReservationRequired (operation : CancelOperationKind)
| EffectRetireIntent.

(** The [anyhow] errors. *)
Inductive CancelError : Type :=
| ClockRegressed (prior observed : Z)
| SeedIdentityMismatch
| RecoveryDeadlineOverflow
| RecoveryGenerationOverflow
| RecoveryAttemptOverflow
| CancelAttemptOverflow
| QueryAttemptOverflow.

#[global] Instance CancelOperationKind_eq_dec : EqDecision CancelOperationKind.
Proof. solve_decision. Defined.
#[global] Instance CancelObservation_eq_dec : EqDecision CancelObservation.
Proof. solve_decision. Defined.

(** ** Classification of an observation *)

Definition classify_status (status : OrderStatus) (queryable : bool) : CancelObservation :=
  match status with
  | StatusInitialized | StatusEmulated | StatusReleased | StatusSubmitted | StatusAccepted
  | StatusTriggered | StatusPendingUpdate | StatusPartiallyFilled => ObservedRetryable
  | StatusPendingCancel => if queryable then PendingCancelQueryable else PendingCancelUnqueryable
  | StatusDenied | StatusRejected | StatusCanceled | StatusExpired | StatusFilled | StatusVoided =>
      ObservedTerminal
  end.

Definition classify_order (order : option NtOrder) (queryable : bool) : CancelObservation :=
  match order with
  | None => if queryable then MissingQueryable else MissingUnqueryable
  | Some order =>
      if nt_leaves_qty order =? 0 then ObservedTerminal else classify_status (nt_status order) queryable
  end.

(** ** The routing machine *)

Definition begin_when_due (operation : CancelOperationKind) (now_ns not_before_ns : Z)
    : CancelTransition :=
  if not_before_ns <=? now_ns then TransitionBegin operation else TransitionNoOperation.

Definition transition_routing (state : CancelRoutingState) (observation : CancelObservation)
    (now_ns next_deadline_ns : Z) : CancelRoutingState * CancelTransition :=
  match state, observation with
  | RoutingReady, MissingUnqueryable => (RoutingReady, TransitionNoOperation)
  | RoutingReady, MissingQueryable => (RoutingReady, TransitionBegin OpQuery)
  | RoutingReady, ObservedRetryable => (RoutingReady, TransitionBegin OpCancel)
  | RoutingReady, (PendingCancelUnqueryable | PendingCancelQueryable) =>
      (RoutingPendingCancel next_deadline_ns, TransitionNoOperation)
  | RoutingReady, ObservedTerminal => (RoutingReady, TransitionRemove)
  | RoutingAttempting _ _ not_before, (MissingUnqueryable | MissingQueryable | ObservedRetryable) =>
      (RoutingBackoff not_before, TransitionNoOperation)
  | RoutingAttempting _ _ not_before, (PendingCancelUnqueryable | PendingCancelQueryable) =>
      (RoutingPendingCancel not_before, TransitionNoOperation)
  | RoutingAttempting _ _ _, ObservedTerminal => (RoutingReady, TransitionRemove)
  | RoutingBackoff not_before, MissingUnqueryable =>
      (RoutingBackoff not_before, TransitionNoOperation)
  | RoutingBackoff not_before, MissingQueryable =>
      (RoutingBackoff not_before, begin_when_due OpQuery now_ns not_before)
  | RoutingBackoff not_before, ObservedRetryable =>
      (RoutingBackoff not_before, begin_when_due OpCancel now_ns not_before)
  | RoutingBackoff not_before, (PendingCancelUnqueryable | PendingCancelQueryable) =>
      (RoutingPendingCancel not_before, TransitionNoOperation)
  | RoutingBackoff _, ObservedTerminal => (RoutingReady, TransitionRemove)
  | RoutingPendingCancel not_before, MissingUnqueryable =>
      (RoutingBackoff not_before, TransitionNoOperation)
  | RoutingPendingCancel not_before, MissingQueryable =>
      (RoutingBackoff not_before, begin_when_due OpQuery now_ns not_before)
  | RoutingPendingCancel not_before, ObservedRetryable =>
      (RoutingBackoff not_before, begin_when_due OpCancel now_ns not_before)
  | RoutingPendingCancel not_before, PendingCancelUnqueryable =>
      (RoutingPendingCancel not_before, TransitionNoOperation)
  | RoutingPendingCancel not_before, PendingCancelQueryable =>
      (RoutingPendingCancel not_before, begin_when_due OpQuery now_ns not_before)
  | RoutingPendingCancel _, ObservedTerminal => (RoutingReady, TransitionRemove)
  end.

Definition passive_effect (t : CancelTransition) : CancelEffect :=
  match t with
  | TransitionRemove => EffectRemove
  | TransitionNoOperation | TransitionBegin _ => EffectNone
  end.

(** ** The seed *)

Definition reconcile_cached_identity (seed : NtOrderQuerySeed) (cached : option NtOrder)
    : Result (IdentityTransition * NtOrderQuerySeed) CancelError :=
  match cached with
  | None => Ok (IdentityPreserved, seed)
  | Some cached =>
      let order := seed_order seed in
      ensure (bool_decide (nt_client_order_id cached = nt_client_order_id order)
              && bool_decide (nt_instrument_id cached = nt_instrument_id order))
        SeedIdentityMismatch ;;?
      match nt_venue_order_id order, nt_venue_order_id cached with
      | None, None => Ok (IdentityUnchanged, seed)
      | None, Some _ => Ok (IdentityCaptured, mkSeed cached)
      | Some _, None => Ok (IdentityPreserved, seed)
      | Some captured, Some observed =>
          if bool_decide (captured = observed) then Ok (IdentityUnchanged, seed)
          else Ok (IdentityConflict (mkConflict captured observed), seed)
      end
  end.

Definition seed_venue_order_id (seed : NtOrderQuerySeed) : option string :=
  nt_venue_order_id (seed_order seed).

(** ** The record *)

Definition cancel_record_new (quote_deadline_ns : Z) : RestingOrderCancelRecord :=
  mkCancelRecord RoutingReady 0 0 0 0 quote_deadline_ns None (mkHealth false None false None).

Definition health_snapshot (r : RestingOrderCancelRecord) (client_order_id : string)
    : BoltV3RestingOrderCancelHealthSnapshot :=
  mkHealthSnapshot client_order_id (total_recovery_attempts r) (cancel_health r).

(** Is there anything to report ([runtime_error])? *)
Definition health_failed (h : RestingOrderCancelHealth) : bool :=
  recovery_identity_unavailable h
  || match recovery_identity_conflict h with Some _ => true | None => false end
  || retry_escalated h
  || match liveness h with Some _ => true | None => false end.

Definition set_routing_state (r : RestingOrderCancelRecord) (s : CancelRoutingState)
    : RestingOrderCancelRecord :=
  mkCancelRecord s (cancel_generation r) (total_recovery_attempts r) (cancel_attempts r)
    (query_attempts r) (quote_deadline_ns r) (last_observed_ns r) (cancel_health r).

Definition set_last_observed (r : RestingOrderCancelRecord) (now_ns : Z) : RestingOrderCancelRecord :=
  mkCancelRecord (routing_state r) (cancel_generation r) (total_recovery_attempts r)
    (cancel_attempts r) (query_attempts r) (quote_deadline_ns r) (Some now_ns) (cancel_health r).

Definition set_cancel_health (r : RestingOrderCancelRecord) (h : RestingOrderCancelHealth)
    : RestingOrderCancelRecord :=
  mkCancelRecord (routing_state r) (cancel_generation r) (total_recovery_attempts r)
    (cancel_attempts r) (query_attempts r) (quote_deadline_ns r) (last_observed_ns r) h.

(** [get_or_insert]: the first failure stays. *)
Definition observe_due_liveness (r : RestingOrderCancelRecord) (now_ns : Z) (locally_pending : bool)
    : RestingOrderCancelRecord :=
  if now_ns <? quote_deadline_ns r then r
  else
    let failure := if locally_pending then StuckPendingCancel else CancellationDeadlineExceeded in
    let h := cancel_health r in
    set_cancel_health r
      (mkHealth (recovery_identity_unavailable h) (recovery_identity_conflict h) (retry_escalated h)
         (match liveness h with Some f => Some f | None => Some failure end)).

Definition observe_identity_conflict_hold (r : RestingOrderCancelRecord) (now_ns : Z)
    : RestingOrderCancelRecord :=
  set_last_observed
    (observe_due_liveness r now_ns
       (match routing_state r with RoutingPendingCancel _ => true | _ => false end)) now_ns.

Definition settle_unobserved_generation (r : RestingOrderCancelRecord) (generation : Z)
    : RestingOrderCancelRecord :=
  match routing_state r with
  | RoutingAttempting active _ not_before =>
      if active =? generation then set_routing_state r (RoutingBackoff not_before) else r
  | _ => r
  end.

(** The record with its seed, as [apply_event] borrows them. *)
Definition Recovery : Type := RestingOrderCancelRecord * NtOrderQuerySeed.

Definition get_record : Rust Recovery RestingOrderCancelRecord := rust_get fst.
Definition get_seed : Rust Recovery NtOrderQuerySeed := rust_get snd.
Definition put_record (r : RestingOrderCancelRecord) : Rust Recovery unit :=
  rust_modify (λ s, (r, s.2)).
Definition put_seed (q : NtOrderQuerySeed) : Rust Recovery unit := rust_modify (λ s, (s.1, q)).

Definition is_pending_cancel (o : CancelObservation) : bool :=
  match o with PendingCancelUnqueryable | PendingCancelQueryable => true | _ => false end.

(** From the identity on: what the observation itself leads to. *)
Definition reconcile_observation (cached : option NtOrder) (now_ns retry_timeout_ns : Z)
    : Rust Recovery (Result CancelTransition CancelError) :=
  r ← get_record;
  seed ← get_seed;
  let observation := classify_order cached (bool_decide (is_Some (seed_venue_order_id seed))) in
  if decide (observation = ObservedTerminal) then
    put_record (set_last_observed r now_ns) ;; mret (Ok TransitionRemove)
  else
    let h := cancel_health r in
    let r :=
      if decide (observation = MissingUnqueryable)
      then set_cancel_health r (mkHealth true (recovery_identity_conflict h) (retry_escalated h)
                                  (liveness h))
      else r in
    let r := observe_due_liveness r now_ns (is_pending_cancel observation) in
    put_record r ;;
    next_deadline_ns ←! mret (ok_or (u64_checked_add now_ns retry_timeout_ns)
                                RecoveryDeadlineOverflow);
    let '(next_state, transition) :=
      transition_routing (routing_state r) observation now_ns next_deadline_ns in
    put_record (set_last_observed (set_routing_state r next_state) now_ns) ;;
    mret (Ok transition).

Definition reconcile (cached : option NtOrder) (now_ns retry_timeout_ns : Z)
    : Rust Recovery (Result CancelTransition CancelError) :=
  r ← get_record;
  seed ← get_seed;
  match last_observed_ns r with
  | Some prior =>
      if now_ns <? prior then mret (Err (ClockRegressed prior now_ns)) else mret (Ok tt)
  | None => mret (Ok tt)
  end ;;!
  match recovery_identity_conflict (cancel_health r) with
  | Some _ => put_record (observe_identity_conflict_hold r now_ns) ;; mret (Ok TransitionNoOperation)
  | None =>
      identity ←! mret (reconcile_cached_identity seed cached);
      match identity with
      | (IdentityConflict conflict, _) =>
          let h := cancel_health r in
          put_record (observe_identity_conflict_hold
            (set_cancel_health r (mkHealth (recovery_identity_unavailable h) (Some conflict)
                                    (retry_escalated h) (liveness h))) now_ns) ;;
          mret (Ok TransitionNoOperation)
      | (_, seed') => put_seed seed' ;; reconcile_observation cached now_ns retry_timeout_ns
      end
  end.

Definition begin_operation (kind : CancelOperationKind) (now_ns retry_timeout_ns : Z)
    (escalation_attempts : Z) : Rust Recovery (Result Z CancelError) :=
  r ← get_record;
  generation ←! mret (ok_or (u64_checked_add (cancel_generation r) 1) RecoveryGenerationOverflow);
  total ←! mret (ok_or (u32_checked_add (total_recovery_attempts r) 1) RecoveryAttemptOverflow);
  not_before_ns ←! mret (ok_or (u64_checked_add now_ns retry_timeout_ns) RecoveryDeadlineOverflow);
  attempts ←! mret
    (match kind with
     | OpCancel =>
         n ←? ok_or (u32_checked_add (cancel_attempts r) 1) CancelAttemptOverflow;
         Ok (n, query_attempts r)
     | OpQuery =>
         n ←? ok_or (u32_checked_add (query_attempts r) 1) QueryAttemptOverflow;
         Ok (cancel_attempts r, n)
     end);
  let h := cancel_health r in
  put_record
    (mkCancelRecord (RoutingAttempting generation kind not_before_ns) generation total attempts.1
       attempts.2 (quote_deadline_ns r) (last_observed_ns r)
       (mkHealth (recovery_identity_unavailable h) (recovery_identity_conflict h)
          (if escalation_attempts <=? total then true else retry_escalated h) (liveness h))) ;;
  mret (Ok generation).

Definition apply_event (event : CancelEvent) : Rust Recovery (Result CancelEffect CancelError) :=
  match event with
  | TimerObserved cached now_ns retry_timeout_ns =>
      t ←! reconcile cached now_ns retry_timeout_ns;
      mret (Ok (match t with
                | TransitionNoOperation => EffectNone
                | TransitionRemove => EffectRemove
                | TransitionBegin operation => EffectReservationRequired operation
                end))
  | PassiveObserved cached now_ns retry_timeout_ns =>
      t ←! reconcile cached now_ns retry_timeout_ns;
      mret (Ok (passive_effect t))
  | OperationSucceeded generation cached now_ns retry_timeout_ns =>
      r ← get_record;
      match routing_state r with
      | RoutingAttempting active _ _ =>
          if active =? generation then
            t ← reconcile cached now_ns retry_timeout_ns;
            match t with
            | Ok t => mret (Ok (passive_effect t))
            | Err error =>
                r ← get_record;
                put_record (settle_unobserved_generation r generation) ;;
                mret (Err error)
            end
          else mret (Ok EffectNone)
      | _ => mret (Ok EffectNone)
      end
  | OperationUnobserved generation =>
      r ← get_record;
      put_record (settle_unobserved_generation r generation) ;;
      mret (Ok EffectNone)
  | ReservationGranted operation now_ns retry_timeout_ns escalation_attempts =>
      generation ←! begin_operation operation now_ns retry_timeout_ns escalation_attempts;
      seed ← get_seed;
      mret (Ok (match operation with
                | OpCancel => EffectCancel generation
                | OpQuery => EffectQuery generation (seed_order seed)
                end))
  | ReservationDenied now_ns retry_timeout_ns =>
      r ← get_record;
      not_before_ns ←! mret (ok_or (u64_checked_add now_ns retry_timeout_ns)
                               RecoveryDeadlineOverflow);
      put_record (set_routing_state r (RoutingBackoff not_before_ns)) ;;
      mret (Ok EffectNone)
  | RequoteReservationDenied => mret (Ok EffectRetireIntent)
  end.

(** ** A tracked order *)

Definition tracked_cancellation_new (order : NtOrder) : TrackedOrderCancellation :=
  mkTrackedCancellation (mkSeed order) None.

Definition request_intent (t : TrackedOrderCancellation) (deadline_ns : Z) : TrackedOrderCancellation :=
  match cancel_intent t with
  | Some _ => t
  | None => mkTrackedCancellation (query_seed t) (Some (cancel_record_new deadline_ns))
  end.

Definition is_requested (t : TrackedOrderCancellation) : bool :=
  match cancel_intent t with Some _ => true | None => false end.

Definition matches_scope (t : TrackedOrderCancellation) (instrument : string)
    (side : option NtOrderSide) : bool :=
  bool_decide (nt_instrument_id (seed_order (query_seed t)) = instrument)
  && match side with
     | None => true
     | Some side => bool_decide (nt_order_side (seed_order (query_seed t)) = side)
     end.

(** ** The cadence of the recovery timer *)

(** [validate_cancel_recovery_cadence], with the two configured durations as arguments. *)
Inductive CadenceError : Type :=
| CadenceNotPositive
| CadenceOverflow
| CadenceMargin.


Definition validate_cancel_recovery_cadence (margin_ns retry_timeout_ns cadence_ns : Z)
    : Result unit CadenceError :=
  ensure (0 <? cadence_ns) CadenceNotPositive ;;?
  retry_intervals ←? ok_or (u64_checked_add (retry_timeout_ns / cadence_ns)
                              (if retry_timeout_ns mod cadence_ns =? 0 then 0 else 1))
                       CadenceOverflow;
  rounded_retry_ns ←? ok_or (u64_checked_mul retry_intervals cadence_ns) CadenceOverflow;
  required_margin_ns ←? ok_or (u64_checked_add cadence_ns rounded_retry_ns) CadenceOverflow;
  ensure (required_margin_ns <? margin_ns) CadenceMargin.

(** ** One drive of the coordinator

    The part of [drive_cancel_intent] and [reduce_cancel_drive] that concerns the record:
    the observation, then the reservation it asks for.  [reservation] is what the budget,
    or the participant of a requote, answers. *)

Inductive ReservationOutcome : Type :=
| OutcomeGranted
| OutcomeDenied
| OutcomeRequoteDenied.

Definition drive_record (allows_venue_mutation : bool)
    (reservation : CancelOperationKind → ReservationOutcome) (cached : option NtOrder)
    (now_ns retry_timeout_ns escalation_attempts : Z)
    : Rust Recovery (Result CancelEffect CancelError) :=
  effect ←! apply_event (if allows_venue_mutation
                         then TimerObserved cached now_ns retry_timeout_ns
                         else PassiveObserved cached now_ns retry_timeout_ns);
  match effect with
  | EffectReservationRequired operation =>
      match reservation operation with
      | OutcomeGranted =>
          apply_event (ReservationGranted operation now_ns retry_timeout_ns escalation_attempts)
      | OutcomeDenied => apply_event (ReservationDenied now_ns retry_timeout_ns)
      | OutcomeRequoteDenied => apply_event RequoteReservationDenied
      end
  | other => mret (Ok other)
  end.
