(* ===== verification/CancelRecordFacts.v ===== *)
(** * Cancellation of a resting order: what the recovery guarantees

    The histories of one requested cancellation ([recovery_run]): drives with any answer
    of the budget, callbacks and completions of operations, in any order.  Operations are
    spaced by the retry timeout and counted exactly, the order is never queried under
    another venue identity, recovery does not give up while the order works, and with a
    validated cadence the first retry comes before the quote's deadline. *)

From Stdlib Require Import ZArith Lia.
From stdpp Require Import strings gmap numbers list.
From S2P Require Import Prelude NtTypes CancelRecord.

Open Scope Z_scope.

(** ** Totality *)

(** The code of the record cannot panic. *)
Definition no_panic {S A} (m : Rust S A) : Prop := ∀ s, ∃ a s', m s = Some (a, s').

Lemma no_panic_ret {S A} (a : A) : no_panic (mret a : Rust S A).
Proof. intros s. by eexists _, _. Qed.

Lemma no_panic_bind {S A B} (m : Rust S A) (f : A → Rust S B) :
  no_panic m → (∀ a, no_panic (f a)) → no_panic (m ≫= f).
Proof.
  intros Hm Hf s. destruct (Hm s) as (a & s' & Ha). destruct (Hf a s') as (b & s'' & Hb).
  exists b, s''. by rewrite (rust_bind_step _ _ _ _ _ Ha).
Qed.

Lemma no_panic_try {S A B E} (m : Rust S (Result A E)) (f : A → Rust S (Result B E)) :
  no_panic m → (∀ a, no_panic (f a)) → no_panic (try_bind m f).
Proof. intros Hm Hf. apply no_panic_bind; [done|]. intros [a|e]; [apply Hf|apply no_panic_ret]. Qed.

Create HintDb recovery.
#[export] Hint Resolve no_panic_ret no_panic_bind no_panic_try : recovery.
#[export] Hint Extern 1 (no_panic get_record) => (intros ?; by eexists _, _) : recovery.
#[export] Hint Extern 1 (no_panic get_seed) => (intros ?; by eexists _, _) : recovery.
#[export] Hint Extern 1 (no_panic (put_record _)) => (intros ?; by eexists _, _) : recovery.
#[export] Hint Extern 1 (no_panic (put_seed _)) => (intros ?; by eexists _, _) : recovery.

Ltac no_panic :=
  repeat first
    [ apply no_panic_ret | apply no_panic_try | apply no_panic_bind | intros ?
    | progress simpl | case_match | solve [eauto with recovery] ].

Lemma apply_event_total event : no_panic (apply_event event).
Proof. destruct event; unfold apply_event, reconcile, reconcile_observation, begin_operation; no_panic. Qed.

(** ** What one observation does *)

Definition routing_floor (s : CancelRoutingState) : option Z :=
  match s with
  | RoutingReady => None
  | RoutingAttempting _ _ f | RoutingBackoff f | RoutingPendingCancel f => Some f
  end.

Definition attempting (s : CancelRoutingState) : bool :=
  match s with RoutingAttempting _ _ _ => true | _ => false end.

Definition conflict_of (r : RestingOrderCancelRecord) := recovery_identity_conflict (cancel_health r).

(** Counters, escalation and deadline are as they were. *)
Definition same_counters (r r' : RestingOrderCancelRecord) : Prop :=
  cancel_generation r' = cancel_generation r ∧ total_recovery_attempts r' = total_recovery_attempts r ∧
  cancel_attempts r' = cancel_attempts r ∧ query_attempts r' = query_attempts r ∧
  quote_deadline_ns r' = quote_deadline_ns r ∧
  retry_escalated (cancel_health r') = retry_escalated (cancel_health r).

(** The order the seed stands for is the same, and a captured venue id stays. *)
Definition same_order (q q' : NtOrderQuerySeed) : Prop :=
  nt_client_order_id (seed_order q') = nt_client_order_id (seed_order q) ∧
  nt_instrument_id (seed_order q') = nt_instrument_id (seed_order q) ∧
  (∀ v, seed_venue_order_id q = Some v → q' = q).

#[global] Instance same_counters_refl : Reflexive same_counters.
Proof. by intros r. Qed.
#[global] Instance same_counters_trans : Transitive same_counters.
Proof. intros r1 r2 r3 (?&?&?&?&?&?) (?&?&?&?&?&?). unfold same_counters. intuition congruence. Qed.
#[global] Instance same_order_refl : Reflexive same_order.
Proof. by intros q. Qed.
#[global] Instance same_order_trans : Transitive same_order.
Proof.
  intros q1 q2 q3 (?&?&H1) (?&?&H2). split_and!; [congruence..|].
  intros v Hv. rewrite <-(H1 v Hv). apply (H2 v). by rewrite (H1 v Hv).
Qed.

Lemma transition_floor s o now next s' t :
  transition_routing s o now next = (s', t) →
  (t ≠ TransitionRemove → ∀ f, routing_floor s = Some f → routing_floor s' = Some f) ∧
  (∀ op, t = TransitionBegin op →
     attempting s = false ∧ routing_floor s' = routing_floor s ∧
     (∀ f, routing_floor s = Some f → f ≤ now)) ∧
  attempting s' = false.
Proof.
  unfold transition_routing, begin_when_due. intros Heq.
  destruct s, o; repeat case_match; simplify_eq; simpl; split_and!; try done;
    intros; simplify_eq; split_and!; intros; simplify_eq; try done; lia.
Qed.

Lemma cached_identity_same q cached i q' :
  reconcile_cached_identity q cached = Ok (i, q') → same_order q q'.
Proof.
  unfold reconcile_cached_identity. destruct cached as [o|]; [|by intros [= <- <-]].
  intros (u & [He1%bool_decide_eq_true He2%bool_decide_eq_true]%ensure_Ok%andb_true_iff & Hm)%result_bind_Ok.
  unfold same_order, seed_venue_order_id.
  destruct (nt_venue_order_id (seed_order q)) eqn:E1, (nt_venue_order_id o) eqn:E2;
    repeat case_match; simplify_eq; simpl; try done; split_and!; try done; intros; congruence.
Qed.

Lemma observe_due_liveness_same r now b :
  same_counters r (observe_due_liveness r now b) ∧
  routing_state (observe_due_liveness r now b) = routing_state r ∧
  conflict_of (observe_due_liveness r now b) = conflict_of r.
Proof. unfold observe_due_liveness. by case_match. Qed.

(** What a reconciliation may change. *)
Record reconcile_effect (now : Z) (r : RestingOrderCancelRecord) (q : NtOrderQuerySeed)
    (res : Result CancelTransition CancelError) (r' : RestingOrderCancelRecord) (q' : NtOrderQuerySeed)
    : Prop := mkReconciled {
  rec_counters : same_counters r r';
  rec_order : same_order q q';
  rec_conflict : ∀ c, conflict_of r = Some c → conflict_of r' = Some c ∧ q' = q;
  rec_floor : res ≠ Ok TransitionRemove →
    ∀ f, routing_floor (routing_state r) = Some f → routing_floor (routing_state r') = Some f;
  rec_begin : ∀ op, res = Ok (TransitionBegin op) →
    conflict_of r' = None ∧ routing_floor (routing_state r') = routing_floor (routing_state r) ∧
    (∀ f, routing_floor (routing_state r) = Some f → f ≤ now) ∧
    (op = OpQuery → is_Some (seed_venue_order_id q'));
}.

Lemma begin_query_queryable s cached b now next s' :
  transition_routing s (classify_order cached b) now next = (s', TransitionBegin OpQuery) → b = true.
Proof.
  unfold transition_routing, classify_order, classify_status, begin_when_due. intros Heq.
  destruct b; [done|]. exfalso. destruct s; repeat case_match; simplify_eq.
Qed.

Lemma reconcile_observation_reconciled cached now timeout r q res r' q' :
  conflict_of r = None →
  reconcile_observation cached now timeout (r, q) = Some (res, (r', q')) →
  q' = q ∧ reconcile_effect now r q res r' q'.
Proof.
  intros Hc Hr. unfold reconcile_observation, get_record, get_seed, put_record in Hr.
  apply rust_bind_Some in Hr as (? & ? & [= <- <-] & Hr).
  apply rust_bind_Some in Hr as (? & ? & [= <- <-] & Hr). simpl in Hr.
  set (obs := classify_order _ _) in Hr. case_decide as Hterm.
  { injection Hr as <- <- <-. split; [done|]. split; simpl; try done; intros; congruence. }
  set (r1 := if decide (obs = MissingUnqueryable) then _ else _) in Hr.
  set (r2 := observe_due_liveness r1 now _) in Hr.
  assert (H1 : same_counters r r1 ∧ routing_state r1 = routing_state r ∧ conflict_of r1 = conflict_of r).
  { subst r1. by case_decide. }
  assert (H2 : same_counters r r2 ∧ routing_state r2 = routing_state r ∧ conflict_of r2 = conflict_of r).
  { destruct H1 as (? & ? & ?). destruct (observe_due_liveness_same r1 now (is_pending_cancel obs)) as (? & ? & ?).
    subst r2. split_and!; [by etrans|congruence..]. }
  clearbody r2. clear r1 H1. destruct H2 as (Hsame & Hrs & Hcf).
  destruct (u64_checked_add now timeout) as [next|] eqn:Enext.
  2: { injection Hr as <- <- <-. split; [done|]. split; try done; intros; congruence. }
  simpl in Hr. unfold try_bind in Hr.
  apply rust_bind_Some in Hr as (? & ? & [= <- <-] & Hr).
  apply rust_bind_Some in Hr as (? & ? & [= <- <-] & Hr). simpl in Hr.
  destruct (transition_routing (routing_state r2) obs now next) as [s' t] eqn:Et.
  injection Hr as <- <- <-. split; [done|]. rewrite Hrs in Et.
  destruct (transition_floor _ _ _ _ _ _ Et) as (Hf & Hb & _). split; simpl.
  - done.
  - done.
  - intros c Hc'. congruence.
  - intros Hne. apply Hf. congruence.
  - intros op [= ->]. destruct (Hb op eq_refl) as (_ & Hfl & Hdue).
    split_and!; [|done|done|].
    + unfold conflict_of in *. simpl. congruence.
    + intros ->. apply begin_query_queryable in Et. by apply bool_decide_eq_true in Et.
Qed.

Lemma reconcile_reconciled cached now timeout r q res r' q' :
  reconcile cached now timeout (r, q) = Some (res, (r', q')) → reconcile_effect now r q res r' q'.
Proof.
  intros Hr. unfold reconcile, get_record, get_seed, put_record, put_seed, try_bind in Hr.
  apply rust_bind_Some in Hr as (? & ? & [= <- <-] & Hr).
  apply rust_bind_Some in Hr as (? & ? & [= <- <-] & Hr). simpl in Hr.
  apply rust_bind_Some in Hr as (clock & [rc qc] & Hclock & Hr).
  assert (rc = r ∧ qc = q ∧ (∀ e, clock = Err e → res = Err e ∧ r' = r ∧ q' = q)) as (-> & -> & Herr).
  { destruct (last_observed_ns r) as [prior|]; [destruct (now <? prior)|]; injection Hclock as <- <- <-;
      split_and!; try done; intros e [= <-]; by injection Hr as <- <- <-. }
  destruct clock as [[]|e].
  2: { destruct (Herr e eq_refl) as (-> & -> & ->). split; try done. }
  clear Herr Hclock. destruct (recovery_identity_conflict (cancel_health r)) as [c|] eqn:Hc.
  { injection Hr as <- <- <-. unfold observe_identity_conflict_hold.
    set (p := match routing_state r with RoutingPendingCancel _ => true | _ => false end).
    destruct (observe_due_liveness_same r now p) as (Hs & Hrs & Hcf).
    split; simpl; try done; [|by rewrite Hrs]. intros c' Hc'. split; [|done].
    unfold conflict_of in *. simpl. congruence. }
  destruct (reconcile_cached_identity q cached) as [[i q1]|e] eqn:Ei.
  2: { injection Hr as <- <- <-. split; try done. }
  pose proof (cached_identity_same _ _ _ _ Ei) as Ho. simpl in Hr. unfold mbind, rust_bind in Hr. simpl in Hr.
  destruct i as [| | |c].
  4: { injection Hr as <- <- <-. unfold observe_identity_conflict_hold.
    set (r1 := set_cancel_health r _). set (p := match routing_state r1 with RoutingPendingCancel _ => true | _ => false end).
    destruct (observe_due_liveness_same r1 now p) as (Hs & Hrs & Hcf).
    split; simpl; try done; [|by rewrite Hrs]. intros c' Hc'. unfold conflict_of in Hc'. congruence. }
  all: unfold rust_modify in Hr; simpl in Hr; apply reconcile_observation_reconciled in Hr as [-> Hr]; [|done];
    destruct Hr as [Hcnt Hso Hcn Hfl Hbe]; (split; [done|done| |done|done]);
    intros c Hc'; unfold conflict_of in Hc'; congruence.
Qed.

(** ** What one operation begins *)

Record begun (op : CancelOperationKind) (now timeout escalation : Z) (r r' : RestingOrderCancelRecord)
    (generation : Z) : Prop := mkBegun {
  begun_generation : generation = cancel_generation r + 1;
  begun_state : routing_state r' = RoutingAttempting generation op (now + timeout);
  begun_generation' : cancel_generation r' = generation;
  begun_total : total_recovery_attempts r' = total_recovery_attempts r + 1;
  begun_attempts : cancel_attempts r' + query_attempts r' = cancel_attempts r + query_attempts r + 1;
  begun_escalated : retry_escalated (cancel_health r') =
    if escalation <=? total_recovery_attempts r' then true else retry_escalated (cancel_health r);
  begun_conflict : conflict_of r' = conflict_of r;
  begun_deadline : quote_deadline_ns r' = quote_deadline_ns r;
}.

Lemma begin_operation_begun op now timeout escalation r q res r' q' :
  begin_operation op now timeout escalation (r, q) = Some (res, (r', q')) →
  q' = q ∧
  match res with
  | Ok generation => begun op now timeout escalation r r' generation
  | Err _ => r' = r
  end.
Proof.
  intros Hr. unfold begin_operation, get_record, put_record, try_bind in Hr.
  apply rust_bind_Some in Hr as (? & ? & [= <- <-] & Hr). simpl in Hr.
  repeat (apply rust_bind_Some in Hr as (? & ? & [= <- <-] & Hr); simpl in Hr;
    match type of Hr with
    | context [ok_or ?o _] => destruct o eqn:?; simpl in Hr; [|by injection Hr as <- <- <-]
    | context [match op with _ => _ end] => idtac
    end).
  assert (Hatt : (∃ e, res = Err e ∧ r' = r ∧ q' = q) ∨
    ∃ a, a.1 + a.2 = cancel_attempts r + query_attempts r + 1 ∧ q' = q ∧ res = Ok z ∧
      r' = mkCancelRecord (RoutingAttempting z op z1) z z0 a.1 a.2 (quote_deadline_ns r) (last_observed_ns r)
        (mkHealth (recovery_identity_unavailable (cancel_health r)) (recovery_identity_conflict (cancel_health r))
           (if escalation <=? z0 then true else retry_escalated (cancel_health r)) (liveness (cancel_health r)))).
  { destruct op.
    - destruct (u32_checked_add (cancel_attempts r) 1) eqn:E; simpl in Hr; injection Hr as <- <- <-; [|left; eauto].
      apply u32_checked_add_Some in E as [-> _]. right. exists (cancel_attempts r + 1, query_attempts r). split_and!; [|done..]. simpl. lia.
    - destruct (u32_checked_add (query_attempts r) 1) eqn:E; simpl in Hr; injection Hr as <- <- <-; [|left; eauto].
      apply u32_checked_add_Some in E as [-> _]. right. exists (cancel_attempts r, query_attempts r + 1). split_and!; [|done..]. simpl. lia. }
  destruct Hatt as [(e & -> & -> & ->)|(a & Ha & -> & -> & ->)]; [done|]. split; [done|].
  repeat match goal with
  | H : u64_checked_add _ _ = Some _ |- _ => apply u64_checked_add_Some in H as [? _]
  | H : u32_checked_add _ _ = Some _ |- _ => apply u32_checked_add_Some in H as [? _]
  end. subst. by split.
Qed.

(** ** Histories *)

Record CancelOperation : Type := mkCancelOperation {
  op_time : Z;
  op_kind : CancelOperationKind;
  op_generation : Z;
  op_query : option NtOrder;
}.

Definition issued (now : Z) (res : Result CancelEffect CancelError) : list CancelOperation :=
  match res with
  | Ok (EffectCancel g) => [mkCancelOperation now OpCancel g None]
  | Ok (EffectQuery g seed) => [mkCancelOperation now OpQuery g (Some seed)]
  | _ => []
  end.

(** The record is taken away: a terminal observation, or the requote was refused. *)
Definition ends (res : Result CancelEffect CancelError) : bool :=
  match res with Ok EffectRemove | Ok EffectRetireIntent => true | _ => false end.

Section Recovery.
Context (timeout escalation : Z) (timeout_nonneg : 0 ≤ timeout) (escalation_pos : 1 ≤ escalation).
Context (deadline : Z) (q0 : NtOrderQuerySeed).

Inductive recovery_run : Recovery → list CancelOperation → Prop :=
| run_start : recovery_run (cancel_record_new deadline, q0) []
| run_drive s ops allows reservation cached now res s' :
    recovery_run s ops →
    drive_record allows reservation cached now timeout escalation s = Some (res, s') →
    ends res = false → recovery_run s' (ops ++ issued now res)
| run_observed s ops cached now res s' :
    recovery_run s ops → apply_event (PassiveObserved cached now timeout) s = Some (res, s') →
    ends res = false → recovery_run s' ops
| run_completed s ops generation cached now res s' :
    recovery_run s ops →
    apply_event (OperationSucceeded generation cached now timeout) s = Some (res, s') →
    ends res = false → recovery_run s' ops
| run_unobserved s ops generation res s' :
    recovery_run s ops → apply_event (OperationUnobserved generation) s = Some (res, s') →
    recovery_run s' ops.

(** Operations are in order, each a timeout after the one before and the next generation. *)
Definition spaced (ops : list CancelOperation) : Prop :=
  ∀ before o1 o2 after, ops = before ++ o1 :: o2 :: after →
    op_time o1 + timeout ≤ op_time o2 ∧ op_generation o2 = op_generation o1 + 1.

Record run_inv (s : Recovery) (ops : list CancelOperation) : Prop := mkRunInv {
  inv_generation : cancel_generation s.1 = Z.of_nat (length ops);
  inv_attempts : total_recovery_attempts s.1 = Z.of_nat (length ops);
  inv_kinds : cancel_attempts s.1 + query_attempts s.1 = Z.of_nat (length ops);
  inv_escalated : retry_escalated (cancel_health s.1) = true ↔ escalation ≤ Z.of_nat (length ops);
  inv_last : ∀ o, last ops = Some o →
    op_generation o = Z.of_nat (length ops) ∧
    ∃ f, routing_floor (routing_state s.1) = Some f ∧ op_time o + timeout ≤ f;
  inv_spaced : spaced ops;
  inv_order : same_order q0 s.2;
  inv_deadline : quote_deadline_ns s.1 = deadline;
  inv_queries : ∀ o, o ∈ ops → match op_query o with
    | Some order => s.2 = mkSeed order ∧ is_Some (nt_venue_order_id order)
    | None => op_kind o = OpCancel
    end;
}.

Lemma run_inv_same r q r' q' ops :
  run_inv (r, q) ops → same_counters r r' → same_order q q' →
  (∀ f, routing_floor (routing_state r) = Some f → ∃ f', routing_floor (routing_state r') = Some f' ∧ f ≤ f') →
  run_inv (r', q') ops.
Proof.
  intros [] (?&?&?&?&?&He) Hso Hf. simpl in *. split; simpl.
  - congruence.
  - congruence.
  - congruence.
  - by rewrite He.
  - intros o Ho. destruct (inv_last0 o Ho) as (? & f & Hfl & ?). split; [done|].
    destruct (Hf f Hfl) as (f' & ? & ?). exists f'. split; [done|lia].
  - done.
  - by etrans.
  - congruence.
  - intros o Ho. specialize (inv_queries0 o Ho). destruct (op_query o); [|done].
    destruct inv_queries0 as [-> [v Hv]]. split; [|by exists v].
    destruct Hso as (_ & _ & Hso). by apply (Hso v).
Qed.

Lemma reconciled_inv now r q res r' q' ops :
  run_inv (r, q) ops → reconcile_effect now r q res r' q' → res ≠ Ok TransitionRemove → run_inv (r', q') ops.
Proof.
  intros Hi [Hc Ho _ Hf _] Hne. eapply run_inv_same; [done..|]. intros f Hfl. exists f.
  split; [by apply Hf|lia].
Qed.

(** A drive observes and then, if that begins an operation, asks for the reservation. *)
Lemma drive_cases allows reservation cached now r q res s' :
  drive_record allows reservation cached now timeout escalation (r, q) = Some (res, s') →
  ∃ t r1 q1, reconcile_effect now r q t r1 q1 ∧
    ((s' = (r1, q1) ∧ issued now res = [] ∧ (t = Ok TransitionRemove → ends res = true)) ∨
     ∃ op, t = Ok (TransitionBegin op) ∧
       ((∃ g, begun op now timeout escalation r1 s'.1 g ∧ s'.2 = q1 ∧
           issued now res = [mkCancelOperation now op g
             (match op with OpCancel => None | OpQuery => Some (seed_order q1) end)]) ∨
        issued now res = [] ∧ s'.2 = q1 ∧ same_counters r1 s'.1 ∧ conflict_of s'.1 = conflict_of r1 ∧
          routing_floor (routing_state s'.1) = Some (now + timeout))).
Proof.
  intros Hr. unfold drive_record, try_bind in Hr. apply rust_bind_Some in Hr as (eff & [r1 q1] & He & Hr).
  assert (∃ t, reconcile cached now timeout (r, q) = Some (t, (r1, q1)) ∧
    eff = match t with
          | Ok TransitionRemove => Ok EffectRemove
          | Ok (TransitionBegin op) => Ok (if allows then EffectReservationRequired op else EffectNone)
          | Ok TransitionNoOperation => Ok EffectNone
          | Err e => Err e
          end) as (t & Ht & ->).
  { destruct allows; unfold apply_event, try_bind in He;
      apply rust_bind_Some in He as ([[]|e] & ? & Ht & He); injection He as <- <-; by eexists. }
  clear He. apply reconcile_reconciled in Ht. exists t, r1, q1. split; [done|].
  destruct t as [[|op|]|e].
  - injection Hr as <- <-. left. done.
  - destruct allows; [|injection Hr as <- <-; by left].
    destruct (reservation op).
    + unfold apply_event, try_bind in Hr. apply rust_bind_Some in Hr as (g & [r2 q2] & Hb & Hr).
      apply begin_operation_begun in Hb as [-> Hb]. destruct g as [g|e].
      * right. exists op. split; [done|]. left. exists g. unfold get_seed in Hr.
        apply rust_bind_Some in Hr as (? & ? & [= <- <-] & Hr). injection Hr as <- <-. by destruct op.
      * injection Hr as <- <-. left. by subst.
    + unfold apply_event, try_bind, get_record, put_record in Hr.
      apply rust_bind_Some in Hr as (? & ? & [= <- <-] & Hr). simpl in Hr.
      destruct (u64_checked_add now timeout) as [f|] eqn:E; [|injection Hr as <- <-; by left].
      apply u64_checked_add_Some in E as [-> _]. injection Hr as <- <-. right. exists op. split; [done|]. by right.
    + injection Hr as <- <-. left. done.
  - injection Hr as <- <-. left. done.
  - injection Hr as <- <-. left. done.
Qed.

Lemma recovery_spaced_snoc ops o :
  spaced ops →
  (∀ o', last ops = Some o' → op_time o' + timeout ≤ op_time o ∧ op_generation o = op_generation o' + 1) →
  spaced (ops ++ [o]).
Proof.
  intros Hs Hlast before o1 o2 after Heq.
  destruct after as [|o3 after _] using rev_ind.
  - replace (before ++ [o1; o2]) with ((before ++ [o1]) ++ [o2]) in Heq by by rewrite <-app_assoc.
    apply app_inj_tail in Heq as [-> ->]. apply Hlast. by rewrite last_snoc.
  - replace (before ++ o1 :: o2 :: after ++ [o3]) with ((before ++ o1 :: o2 :: after) ++ [o3]) in Heq
      by by rewrite <-app_assoc.
    apply app_inj_tail in Heq as [-> _]. by eapply Hs.
Qed.

Lemma begun_inv now r q t r1 q1 op g s' ops :
  run_inv (r, q) ops → reconcile_effect now r q t r1 q1 → t = Ok (TransitionBegin op) →
  begun op now timeout escalation r1 s'.1 g → s'.2 = q1 →
  run_inv s' (ops ++ [mkCancelOperation now op g
    (match op with OpCancel => None | OpQuery => Some (seed_order q1) end)]).
Proof.
  intros Hi Hrec -> Hb Hq. assert (Hi1 : run_inv (r1, q1) ops) by by eapply reconciled_inv.
  destruct (rec_begin _ _ _ _ _ _ Hrec op eq_refl) as (_ & Hfl & Hdue & Hv).
  destruct Hb as [-> Hst Hg Ht Ha He _ Hd]. destruct Hi1 as [Ig It Ik Ie Il Is Io Id Iq]. simpl in *.
  assert (Hlen : Z.of_nat (length (ops ++ [mkCancelOperation now op (cancel_generation r1 + 1)
    (match op with OpCancel => None | OpQuery => Some (seed_order q1) end)])) = Z.of_nat (length ops) + 1)
    by (rewrite length_app; simpl; lia).
  split; rewrite ?Hlen; simpl.
  - lia.
  - lia.
  - lia.
  - rewrite He, Ht, It. destruct (Z.leb_spec escalation (Z.of_nat (length ops) + 1)); [done|].
    rewrite Ie. lia.
  - intros o Ho. rewrite last_snoc in Ho. injection Ho as <-. simpl. split; [lia|].
    exists (now + timeout). by rewrite Hst.
  - apply recovery_spaced_snoc; [done|]. intros o' Ho'. destruct (Il o' Ho') as (Hgo & f & Hf & Hle). simpl.
    rewrite Hfl in Hf. specialize (Hdue f Hf). split; lia.
  - by rewrite Hq.
  - congruence.
  - intros o [Ho| ->%list_elem_of_singleton]%elem_of_app; [by rewrite Hq; apply Iq|].
    simpl. destruct op; [done|]. rewrite Hq. split; [by destruct q1|]. by apply Hv.
Qed.

Lemma passive_inv cached now s res s' ops :
  run_inv s ops → apply_event (PassiveObserved cached now timeout) s = Some (res, s') →
  ends res = false → run_inv s' ops.
Proof.
  intros Hi Hr Hend. destruct s as [r q], s' as [r' q']. unfold apply_event, try_bind in Hr.
  apply rust_bind_Some in Hr as (t & [r1 q1] & Ht & Hr). apply reconcile_reconciled in Ht.
  assert (t ≠ Ok TransitionRemove ∧ r' = r1 ∧ q' = q1) as (Hne & -> & ->).
  { destruct t as [[]|]; injection Hr as <- <- <-; split_and!; try done. }
  by eapply reconciled_inv.
Qed.

Lemma settle_inv generation r q ops :
  run_inv (r, q) ops → run_inv (settle_unobserved_generation r generation, q) ops.
Proof.
  intros Hi. unfold settle_unobserved_generation. destruct (routing_state r) eqn:E; try done.
  case_match; [|done]. eapply run_inv_same; [done..|]. intros f Hf. rewrite E in Hf. simpl in *.
  injection Hf as <-. by eexists.
Qed.

Lemma completed_inv generation cached now s res s' ops :
  run_inv s ops → apply_event (OperationSucceeded generation cached now timeout) s = Some (res, s') →
  ends res = false → run_inv s' ops.
Proof.
  intros Hi Hr Hend. destruct s as [r q], s' as [r' q']. unfold apply_event, get_record, put_record in Hr.
  apply rust_bind_Some in Hr as (? & ? & [= <- <-] & Hr). simpl in Hr.
  destruct (routing_state r); try (by injection Hr as <- <- <-).
  case_match; [|by injection Hr as <- <- <-].
  apply rust_bind_Some in Hr as (t & [r1 q1] & Ht & Hr). apply reconcile_reconciled in Ht.
  destruct t as [t|e].
  - injection Hr as <- <- <-. eapply reconciled_inv; [done..|]. by intros [= ->].
  - apply rust_bind_Some in Hr as (? & ? & [= <- <-] & Hr). injection Hr as <- <- <-.
    apply settle_inv. by eapply reconciled_inv.
Qed.

Lemma run_keeps_inv s ops : recovery_run s ops → run_inv s ops.
Proof.
  induction 1 as [|[r q] ops allows reservation cached now res s' _ IH Hr Hend|s ops cached now res s' _ IH Hr Hend
    |s ops generation cached now res s' _ IH Hr Hend|[r q] ops generation res s' _ IH Hr].
  - split; simpl; try done; try lia; try (by intros ? ?%elem_of_nil).
    intros before o1 o2 after Heq. by destruct before.
  - apply drive_cases in Hr as (t & r1 & q1 & Hrec & [(-> & -> & Hne)|(op & Ht & [(g & Hb & Hq & ->)|(-> & Hq & Hs & _ & Hf)])]).
    + rewrite app_nil_r. eapply reconciled_inv; [done..|]. intros Hrm. rewrite (Hne Hrm) in Hend. done.
    + by eapply begun_inv.
    + rewrite app_nil_r. assert (Hi1 : run_inv (r1, q1) ops) by (eapply reconciled_inv; [done..|congruence]).
      destruct (rec_begin _ _ _ _ _ _ Hrec op Ht) as (_ & Hfl & Hdue & _). destruct s' as [r' q']. simpl in *.
      subst q'. eapply run_inv_same; [done|done|done|]. intros f Hf1. exists (now + timeout). split; [done|].
      rewrite Hfl in Hf1. specialize (Hdue f Hf1). lia.
  - by eapply passive_inv.
  - by eapply completed_inv.
  - unfold apply_event, get_record, put_record in Hr.
    apply rust_bind_Some in Hr as (? & ? & [= <- <-] & Hr). injection Hr as <- <-. by apply settle_inv.
Qed.

End Recovery.

(** ** Ticks of the recovery timer *)

(** A tick drives the record with a granting budget on the order as the cache shows it;
    an operation that was issued completes before the next tick, seen by a look at the
    cache ([observed]) or not. *)
Definition tick (timeout escalation : Z) (order : NtOrder) (observed : bool) (now : Z) (s : Recovery)
    : option (list CancelOperation * Recovery) :=
  '(res, s1) ← drive_record true (λ _, OutcomeGranted) (Some order) now timeout escalation s;
  match res with
  | Ok (EffectCancel g) | Ok (EffectQuery g _) =>
      '(_, s2) ← apply_event (if observed then OperationSucceeded g (Some order) now timeout
                              else OperationUnobserved g) s1;
      Some (issued now res, s2)
  | _ => Some (issued now res, s1)
  end.

Fixpoint ticks (timeout escalation : Z) (order : NtOrder) (observed : Z → bool) (cadence : Z) (n : nat)
    (now : Z) (s : Recovery) : option (list CancelOperation * Recovery) :=
  match n with
  | O => Some ([], s)
  | S n' =>
      '(ops, s1) ← tick timeout escalation order (observed now) now s;
      '(ops', s2) ← ticks timeout escalation order observed cadence n' (now + cadence) s1;
      Some (ops ++ ops', s2)
  end.

(** The order still works at the venue. *)
Definition working (order : NtOrder) : Prop :=
  nt_leaves_qty order ≠ 0 ∧ ∀ b, classify_status (nt_status order) b = ObservedRetryable.

Section Ticks.
Context (timeout escalation : Z) (order : NtOrder).
Context (order_works : working order) (timeout_pos : 0 < timeout).

(** The record waits for its next try at [f], after [n] operations. *)
Record waits (f now : Z) (n : Z) (s : Recovery) : Prop := mkWaits {
  waits_state : routing_state s.1 = RoutingBackoff f;
  waits_seed : s.2 = mkSeed order;
  waits_conflict : conflict_of s.1 = None;
  waits_clock : ∀ prior, last_observed_ns s.1 = Some prior → prior ≤ now;
  waits_generation : cancel_generation s.1 = n;
  waits_total : total_recovery_attempts s.1 = n;
  waits_cancels : cancel_attempts s.1 = n;
}.

Lemma working_classified b : classify_order (Some order) b = ObservedRetryable.
Proof. destruct order_works as [Hl Hs]. unfold classify_order. by rewrite (proj2 (Z.eqb_neq _ _) Hl). Qed.

Lemma own_identity : reconcile_cached_identity (mkSeed order) (Some order) = Ok (IdentityUnchanged, mkSeed order).
Proof.
  unfold reconcile_cached_identity. simpl. rewrite !bool_decide_true by done. simpl.
  destruct (nt_venue_order_id order); [|done]. by rewrite bool_decide_true.
Qed.

(** A working order as seen by a record that is not in conflict. *)
Lemma reconcile_working r now :
  conflict_of r = None → (∀ prior, last_observed_ns r = Some prior → prior ≤ now) →
  now + timeout ≤ u64_max →
  ∃ r', reconcile (Some order) now timeout (r, mkSeed order) =
    Some (Ok (transition_routing (routing_state r) ObservedRetryable now (now + timeout)).2, (r', mkSeed order)) ∧
    routing_state r' = (transition_routing (routing_state r) ObservedRetryable now (now + timeout)).1 ∧
    same_counters r r' ∧ conflict_of r' = None ∧ last_observed_ns r' = Some now.
Proof.
  intros Hc Hclock Hmax. unfold reconcile, get_record, get_seed.
  rewrite (rust_bind_step _ _ _ r (r, mkSeed order)) by done.
  rewrite (rust_bind_step _ _ _ (mkSeed order) (r, mkSeed order)) by done.
  assert (Hck : (match last_observed_ns r with
    | Some prior => if now <? prior then mret (Err (ClockRegressed prior now)) else mret (Ok tt)
    | None => mret (Ok tt) end : Rust Recovery (Result unit CancelError)) (r, mkSeed order) =
    Some (Ok tt, (r, mkSeed order))).
  { destruct (last_observed_ns r) as [prior|]; [|done]. specialize (Hclock prior eq_refl).
    by rewrite (proj2 (Z.ltb_ge _ _)). }
  unfold try_bind at 1. rewrite (rust_bind_step _ _ _ _ _ Hck). unfold conflict_of in Hc. rewrite Hc.
  unfold try_bind. rewrite own_identity. rewrite (rust_bind_step _ _ _ _ (r, mkSeed order)) by done.
  cbv beta iota. rewrite (rust_bind_step _ _ _ tt (r, mkSeed order)) by done.
  unfold reconcile_observation, get_record, get_seed, put_record.
  rewrite (rust_bind_step _ _ _ r (r, mkSeed order)) by done.
  rewrite (rust_bind_step _ _ _ (mkSeed order) (r, mkSeed order)) by done.
  rewrite working_classified, decide_False by done. rewrite decide_False by done.
  set (r1 := observe_due_liveness r now _).
  destruct (observe_due_liveness_same r now (is_pending_cancel ObservedRetryable)) as (Hs1 & Hst & Hc1).
  fold r1 in Hs1, Hst, Hc1. rewrite (rust_bind_step _ _ _ tt (r1, mkSeed order)) by done.
  unfold try_bind. replace (u64_checked_add now timeout) with (Some (now + timeout))
    by (symmetry; by apply u64_checked_add_Some).
  rewrite (rust_bind_step _ _ _ (Ok (now + timeout)) (r1, mkSeed order)) by done.
  cbv beta iota zeta. rewrite Hst.
  destruct (transition_routing (routing_state r) ObservedRetryable now (now + timeout)) as [s' t].
  eexists. split; [done|]. split_and!; try done. unfold conflict_of in *. simpl. congruence.
Qed.

Lemma drive_working reservation r now :
  conflict_of r = None → (∀ prior, last_observed_ns r = Some prior → prior ≤ now) →
  now + timeout ≤ u64_max →
  ∃ r', routing_state r' = (transition_routing (routing_state r) ObservedRetryable now (now + timeout)).1 ∧
    same_counters r r' ∧ conflict_of r' = None ∧ last_observed_ns r' = Some now ∧
    drive_record true reservation (Some order) now timeout escalation (r, mkSeed order) =
      match (transition_routing (routing_state r) ObservedRetryable now (now + timeout)).2 with
      | TransitionBegin op =>
          match reservation op with
          | OutcomeGranted => apply_event (ReservationGranted op now timeout escalation)
          | OutcomeDenied => apply_event (ReservationDenied now timeout)
          | OutcomeRequoteDenied => apply_event RequoteReservationDenied
          end (r', mkSeed order)
      | TransitionRemove => Some (Ok EffectRemove, (r', mkSeed order))
      | TransitionNoOperation => Some (Ok EffectNone, (r', mkSeed order))
      end.
Proof.
  intros Hc Hclock Hmax. destruct (reconcile_working r now Hc Hclock Hmax) as (r' & Hr & Hst & Hs & Hc' & Hl).
  exists r'. split_and!; try done. unfold drive_record.
  unfold try_bind, mbind, rust_bind. unfold apply_event at 1, try_bind, mbind, rust_bind. cbv beta iota. rewrite Hr.
  destruct ((transition_routing (routing_state r) ObservedRetryable now (now + timeout)).2); simpl; done.
Qed.

Lemma begin_cancel_ok r now :
  cancel_generation r = total_recovery_attempts r → cancel_attempts r = total_recovery_attempts r →
  total_recovery_attempts r + 1 ≤ u32_max → now + timeout ≤ u64_max →
  ∃ r', begin_operation OpCancel now timeout escalation (r, mkSeed order) =
      Some (Ok (total_recovery_attempts r + 1), (r', mkSeed order)) ∧
    routing_state r' = RoutingAttempting (total_recovery_attempts r + 1) OpCancel (now + timeout) ∧
    cancel_generation r' = total_recovery_attempts r + 1 ∧
    total_recovery_attempts r' = total_recovery_attempts r + 1 ∧
    cancel_attempts r' = total_recovery_attempts r + 1 ∧ conflict_of r' = conflict_of r ∧
    last_observed_ns r' = last_observed_ns r.
Proof.
  intros Hg Ha Hn Hmax. unfold begin_operation, get_record, put_record, try_bind, mbind, rust_bind, rust_get. simpl.
  rewrite Hg, Ha. replace (u64_checked_add (total_recovery_attempts r) 1) with (Some (total_recovery_attempts r + 1)).
  2: { symmetry. apply u64_checked_add_Some. unfold u32_max, u64_max in *. lia. }
  replace (u32_checked_add (total_recovery_attempts r) 1) with (Some (total_recovery_attempts r + 1)).
  2: { symmetry. by apply u32_checked_add_Some. }
  replace (u64_checked_add now timeout) with (Some (now + timeout)) by (symmetry; by apply u64_checked_add_Some).
  simpl. by eexists.
Qed.

(** After an issued operation completed, the record waits for its next try. *)
Lemma completion_waits r g op f now n observed :
  routing_state r = RoutingAttempting g op f → conflict_of r = None → last_observed_ns r = Some now →
  now + timeout ≤ u64_max → cancel_generation r = n → total_recovery_attempts r = n → cancel_attempts r = n →
  ∃ res s', apply_event (if (observed : bool) then OperationSucceeded g (Some order) now timeout
                         else OperationUnobserved g) (r, mkSeed order) = Some (res, s') ∧ waits f now n s'.
Proof.
  intros Hst Hc Hl Hmax Hg Ht Ha. destruct observed.
  - destruct (reconcile_working r now Hc) as (r' & Hr & Hst' & (?&?&?&_) & Hc' & Hl'); [|done|].
    { intros prior. rewrite Hl. by intros [= <-]. }
    unfold apply_event, get_record, mbind, rust_bind, rust_get. simpl. rewrite Hst, Z.eqb_refl. cbv beta iota.
    rewrite Hr. eexists _, _. split; [done|]. rewrite Hst in Hst'. simpl in Hst'.
    split; simpl; try done; try congruence. intros prior. rewrite Hl'. intros [= <-]. lia.
  - unfold apply_event, get_record, put_record, mbind, rust_bind, rust_get. simpl.
    eexists _, _. split; [done|]. unfold settle_unobserved_generation. rewrite Hst, Z.eqb_refl.
    split; simpl; try done. intros prior. rewrite Hl. intros [= <-]. lia.
Qed.

Lemma tick_waiting observed f now n s :
  waits f now n s → now < f → now + timeout ≤ u64_max →
  ∃ s', tick timeout escalation order observed now s = Some ([], s') ∧ waits f now n s'.
Proof.
  intros [Hst Hq Hc Hcl Hg Ht Ha] Hlt Hmax. destruct s as [r q]. simpl in *. subst q.
  destruct (drive_working (λ _, OutcomeGranted) r now Hc Hcl Hmax) as (r' & Hst' & (?&?&?&_) & Hc' & Hl & Hd).
  rewrite Hst in Hst', Hd. simpl in Hst', Hd. unfold begin_when_due in Hd.
  rewrite (proj2 (Z.leb_gt _ _) Hlt) in Hd. exists (r', mkSeed order). unfold tick. rewrite Hd. split; [done|].
  split; simpl; try done; try congruence. intros prior. rewrite Hl. intros [= <-]. lia.
Qed.

Lemma tick_due observed now n r :
  (routing_state r = RoutingReady ∨ ∃ f, routing_state r = RoutingBackoff f ∧ f ≤ now) →
  conflict_of r = None → (∀ prior, last_observed_ns r = Some prior → prior ≤ now) →
  cancel_generation r = n → total_recovery_attempts r = n → cancel_attempts r = n → n + 1 ≤ u32_max →
  now + timeout ≤ u64_max →
  ∃ s', tick timeout escalation order observed now (r, mkSeed order) =
      Some ([mkCancelOperation now OpCancel (n + 1) None], s') ∧ waits (now + timeout) now (n + 1) s'.
Proof.
  intros Hst Hc Hcl Hg Ht Ha Hn Hmax.
  destruct (drive_working (λ _, OutcomeGranted) r now Hc Hcl Hmax) as (r1 & _ & (Hg1&Ht1&Ha1&_) & Hc1 & Hl & Hd).
  assert (Hb : (transition_routing (routing_state r) ObservedRetryable now (now + timeout)).2 = TransitionBegin OpCancel).
  { destruct Hst as [->|(f & -> & Hle)]; [done|]. simpl. unfold begin_when_due. by rewrite (proj2 (Z.leb_le _ _) Hle). }
  rewrite Hb in Hd. destruct (begin_cancel_ok r1 now) as (r2 & Hr2 & Hst2 & Hg2 & Ht2 & Ha2 & Hc2 & Hl2); [congruence..|by rewrite Ht1, Ht|done|].
  destruct (completion_waits r2 (n + 1) OpCancel (now + timeout) now (n + 1) observed) as (res & s' & He & Hw); [congruence..|].
  assert (Hgr : apply_event (ReservationGranted OpCancel now timeout escalation) (r1, mkSeed order) =
    Some (Ok (EffectCancel (n + 1)), (r2, mkSeed order))).
  { unfold apply_event, try_bind, mbind, rust_bind. rewrite Hr2, Ht1, Ht. done. }
  exists s'. split; [|done]. unfold tick. rewrite Hd, Hgr. simpl. by rewrite He.
Qed.

Lemma ticks_waiting observed cadence k f now n s :
  0 < cadence → waits f now n s → (∀ j, (j < k)%nat → now + Z.of_nat j * cadence < f) →
  now + Z.of_nat k * cadence + timeout ≤ u64_max →
  ∃ s', ticks timeout escalation order observed cadence k now s = Some ([], s') ∧
    waits f (now + Z.of_nat k * cadence) n s'.
Proof.
  intros Hcad. revert now s. induction k as [|k IH]; intros now s Hw Hlt Hmax.
  - exists s. split; [done|]. destruct Hw as [? ? ? Hcl ? ? ?]. split; try done. intros prior Hp. specialize (Hcl prior Hp). lia.
  - destruct (tick_waiting (observed now) f now n s Hw) as (s1 & Ht & Hw1).
    { specialize (Hlt 0%nat). lia. } { lia. }
    destruct (IH (now + cadence) s1) as (s2 & Ht2 & Hw2).
    { destruct Hw1 as [? ? ? Hcl ? ? ?]. split; try done. intros prior Hp. specialize (Hcl prior Hp). lia. }
    { intros j Hj. specialize (Hlt (S j)). lia. } { lia. }
    exists s2. simpl. rewrite Ht. simpl. rewrite Ht2. split; [done|].
    by replace (now + Z.of_nat (S k) * cadence) with (now + cadence + Z.of_nat k * cadence) by lia.
Qed.
End Ticks.

(** ** The theorems *)

(** C25: recovery operations are spaced and counted.  In every history of one requested
    cancellation, whatever the cache shows, the budget answers and the callbacks say,
    consecutive cancel and query operations are at least the retry timeout apart and have
    consecutive generations; the counters are exact, and the escalation is reported from
    the configured number of operations on. *)
Theorem recovery_operations_spaced timeout escalation deadline q0 s ops :
  0 ≤ timeout → 1 ≤ escalation →
  recovery_run timeout escalation deadline q0 s ops →
  spaced timeout ops ∧ cancel_generation s.1 = Z.of_nat (length ops) ∧
  total_recovery_attempts s.1 = Z.of_nat (length ops) ∧
  cancel_attempts s.1 + query_attempts s.1 = Z.of_nat (length ops) ∧
  (retry_escalated (cancel_health s.1) = true ↔ escalation ≤ Z.of_nat (length ops)).
Proof. intros Ht He Hr. by destruct (run_keeps_inv timeout escalation Ht He deadline q0 s ops Hr). Qed.

(** The order is only ever queried as itself.  All queries of a history name the
    client order id and instrument the cancellation was requested for and one and the
    same venue order id; and once the cache shows another venue id, no operation follows,
    whatever happens, and the conflict stays on record. *)
Lemma recovery_identity_fixed timeout escalation deadline q0 s ops :
  0 ≤ timeout → 1 ≤ escalation →
  recovery_run timeout escalation deadline q0 s ops →
  (∀ o order, o ∈ ops → op_query o = Some order →
     s.2 = mkSeed order ∧ is_Some (nt_venue_order_id order) ∧
     nt_client_order_id order = nt_client_order_id (seed_order q0) ∧
     nt_instrument_id order = nt_instrument_id (seed_order q0)) ∧
  (∀ c allows reservation cached now res s',
     conflict_of s.1 = Some c →
     drive_record allows reservation cached now timeout escalation s = Some (res, s') →
     issued now res = [] ∧ conflict_of s'.1 = Some c ∧ s'.2 = s.2).
Proof.
  intros Ht He Hr. destruct (run_keeps_inv timeout escalation Ht He deadline q0 s ops Hr). split.
  - intros o order Ho Hq. specialize (inv_queries0 o Ho). rewrite Hq in inv_queries0.
    destruct inv_queries0 as [Hs Hv]. destruct inv_order0 as (Hc & Hi & _). rewrite Hs in Hc, Hi. done.
  - intros c allows reservation cached now res s' Hc Hd. destruct s as [r q]. simpl in *.
    apply drive_cases in Hd as (t & r1 & q1 & Hrec & Hcase).
    destruct (rec_conflict _ _ _ _ _ _ Hrec c Hc) as [Hc1 Hq1].
    destruct Hcase as [(-> & Hi & _)|(op & -> & _)]; [done|].
    destruct (rec_begin _ _ _ _ _ _ Hrec op eq_refl) as [Hn _]. congruence.
Qed.

Lemma ticks_cons timeout escalation order observed cadence n now s ops s1 ops' s2 :
  tick timeout escalation order (observed now) now s = Some (ops, s1) →
  ticks timeout escalation order observed cadence n (now + cadence) s1 = Some (ops', s2) →
  ticks timeout escalation order observed cadence (S n) now s = Some (ops ++ ops', s2).
Proof. intros Ht Hts. simpl. rewrite Ht. simpl. by rewrite Hts. Qed.

Lemma ticks_snoc timeout escalation order observed cadence k now s ops s1 ops' s2 :
  ticks timeout escalation order observed cadence k now s = Some (ops, s1) →
  tick timeout escalation order (observed (now + Z.of_nat k * cadence)) (now + Z.of_nat k * cadence) s1 =
    Some (ops', s2) →
  ticks timeout escalation order observed cadence (S k) now s = Some (ops ++ ops', s2).
Proof.
  revert now s ops. induction k as [|k IH]; intros now s ops Ht Hl.
  - injection Ht as <- <-. rewrite Z.mul_0_l, Z.add_0_r in Hl. simpl. rewrite Hl. simpl. by rewrite app_nil_r.
  - simpl in Ht. destruct (tick timeout escalation order (observed now) now s) as [[ops1 s']|] eqn:E; [|done].
    simpl in Ht. destruct (ticks timeout escalation order observed cadence k (now + cadence) s') as [[ops2 s'']|] eqn:E2;
      [|done]. injection Ht as <- <-. specialize (IH (now + cadence) s' ops2 E2).
    replace (now + cadence + Z.of_nat k * cadence) with (now + Z.of_nat (S k) * cadence) in IH by lia.
    rewrite <-app_assoc. by apply (ticks_cons _ _ _ _ _ _ _ _ _ _ _ _ E), IH.
Qed.

Lemma cadence_rounds margin timeout cadence :
  0 ≤ timeout → validate_cancel_recovery_cadence margin timeout cadence = Ok tt →
  0 < cadence ∧ ∃ k : nat, cadence + Z.of_nat k * cadence < margin ∧ timeout ≤ Z.of_nat k * cadence ∧
    ∀ j : nat, (j < k)%nat → Z.of_nat j * cadence < timeout.
Proof.
  intros Ht Hv. unfold validate_cancel_recovery_cadence in Hv.
  apply result_bind_Ok in Hv as (? & Hc%ensure_Ok%Z.ltb_lt & Hv).
  apply result_bind_Ok in Hv as (n & Hn%ok_or_Ok & Hv).
  apply result_bind_Ok in Hv as (rounded & Hro%ok_or_Ok & Hv).
  apply result_bind_Ok in Hv as (required & Hre%ok_or_Ok & Hv%ensure_Ok%Z.ltb_lt).
  apply u64_checked_add_Some in Hn as [-> _]. apply u64_checked_add_Some in Hre as [-> _].
  unfold u64_checked_mul in Hro. case_match; [|done]. injection Hro as <-. split; [done|].
  pose proof (Z.div_mod timeout cadence ltac:(lia)) as Hdm. pose proof (Z.mod_pos_bound timeout cadence Hc).
  pose proof (Z.div_pos timeout cadence Ht Hc).
  set (n := timeout / cadence + (if timeout mod cadence =? 0 then 0 else 1)) in *.
  assert (0 ≤ n) by (subst n; case_match; lia).
  exists (Z.to_nat n). rewrite Z2Nat.id by done. split_and!; [lia| |].
  - subst n. destruct (Z.eqb_spec (timeout mod cadence) 0); nia.
  - intros j Hj. assert (Z.of_nat j < n) by lia. subst n. destruct (Z.eqb_spec (timeout mod cadence) 0); nia.
Qed.

(** A validated cadence retries in time.  A cancellation requested the refresh margin
    before the quote's deadline, for an order that keeps working, driven by a timer of a
    cadence that passed validation, cancels at the first tick and again at the first tick
    past the retry timeout, and both are strictly before the deadline, however the first
    operation completes. *)
Lemma retry_before_deadline margin timeout escalation cadence order observed requested first :
  0 < timeout → working order →
  validate_cancel_recovery_cadence margin timeout cadence = Ok tt →
  requested ≤ first ≤ requested + cadence → requested + margin + timeout ≤ u64_max →
  let deadline := requested + margin in
  ∃ (k : nat) s' second,
    ticks timeout escalation order observed cadence (S (S k)) first
      (cancel_record_new deadline, mkSeed order) =
      Some ([mkCancelOperation first OpCancel 1 None; mkCancelOperation second OpCancel 2 None], s') ∧
    first + timeout ≤ second < deadline ∧ first < deadline.
Proof.
  intros Ht Hw Hv Hfirst Hmax. cbv zeta. destruct (cadence_rounds margin timeout cadence) as (Hc & k & Hm & Hk & Hj); [lia|done|].
  destruct k as [|k]; [lia|]. rewrite Nat2Z.inj_succ in Hm, Hk.
  destruct (tick_due timeout escalation order Hw (observed first) first 0 (cancel_record_new (requested + margin)))
    as (s1 & Ht1 & Hw1); simpl; try done; try lia; [by left|].
  destruct (ticks_waiting timeout escalation order Hw observed cadence k (first + timeout) (first + cadence) 1 s1)
    as (s2 & Ht2 & Hw2); [done| | |lia|].
  { destruct Hw1 as [? ? ? Hcl ? ? ?]. split; try done. intros prior Hp. specialize (Hcl prior Hp). lia. }
  { intros j Hlt. specialize (Hj (S j)). lia. }
  destruct s2 as [r2 q2]. pose proof (waits_seed _ _ _ _ _ Hw2) as Hq. simpl in Hq. subst q2.
  assert (Hs : first + cadence + Z.of_nat k * cadence = first + Z.succ (Z.of_nat k) * cadence) by lia.
  rewrite Hs in Hw2.
  destruct (tick_due timeout escalation order Hw (observed (first + Z.succ (Z.of_nat k) * cadence))
    (first + Z.succ (Z.of_nat k) * cadence) 1 r2) as (s3 & Ht3 & _); [|apply Hw2..|done|lia|].
  { right. exists (first + timeout). split; [apply Hw2|lia]. }
  exists k, s3, (first + Z.succ (Z.of_nat k) * cadence). split; [|lia].
  rewrite <-Hs in Ht3. pose proof (ticks_snoc _ _ _ _ _ _ _ _ _ _ _ _ Ht2 Ht3) as Hall.
  rewrite <-Hs. exact (ticks_cons _ _ _ _ _ _ _ _ _ _ _ _ Ht1 Hall).
Qed.

(** ** Concrete histories *)

Definition demo_nt_order (venue : option string) : NtOrder :=
  mkNtOrder "O-1" "S-1" "YES" NtBuy venue StatusAccepted 10.

Definition demo_recovery_start : Recovery := (cancel_record_new 1000, mkSeed (demo_nt_order None)).

Definition after {A} (s : Recovery) (r : option (A * Recovery)) : Recovery :=
  match r with Some (_, s') => s' | None => s end.

Definition demo_cancelled : Recovery :=
  after demo_recovery_start (drive_record true (λ _, OutcomeGranted) (Some (demo_nt_order (Some "V-1")))
                               100 50 2 demo_recovery_start).
Definition demo_settled : Recovery :=
  after demo_cancelled (apply_event (OperationUnobserved 1) demo_cancelled).
Definition demo_queried : Recovery :=
  after demo_settled (drive_record true (λ _, OutcomeGranted) None 150 50 2 demo_settled).
Definition demo_conflict : Recovery :=
  after demo_queried
    (apply_event (OperationSucceeded 2 (Some (demo_nt_order (Some "V-2"))) 160 50) demo_queried).

(** A cancel, a query after the order went missing, and a conflicting venue id. *)
Lemma demo_recovery_run :
  recovery_run 50 2 1000 (mkSeed (demo_nt_order None)) demo_conflict
    [mkCancelOperation 100 OpCancel 1 None;
     mkCancelOperation 150 OpQuery 2 (Some (demo_nt_order (Some "V-1")))].
Proof.
  refine (run_completed 50 2 1000 (mkSeed (demo_nt_order None)) demo_queried _ 2
    (Some (demo_nt_order (Some "V-2"))) 160 (Ok EffectNone)
    demo_conflict _ _ _); [|vm_compute; reflexivity|reflexivity].
  refine (run_drive 50 2 1000 (mkSeed (demo_nt_order None)) demo_settled [mkCancelOperation 100 OpCancel 1 None]
    true (λ _, OutcomeGranted) None 150 (Ok (EffectQuery 2 (demo_nt_order (Some "V-1")))) demo_queried _ _ _);
    [|vm_compute; reflexivity|reflexivity].
  refine (run_unobserved 50 2 1000 (mkSeed (demo_nt_order None)) demo_cancelled _ 1 (Ok EffectNone) demo_settled _ _);
    [|vm_compute; reflexivity].
  refine (run_drive 50 2 1000 (mkSeed (demo_nt_order None)) demo_recovery_start [] true (λ _, OutcomeGranted)
    (Some (demo_nt_order (Some "V-1"))) 100 (Ok (EffectCancel 1)) demo_cancelled _ _ _);
    [apply run_start|vm_compute; reflexivity|reflexivity].
Qed.

Lemma recovery_operations_spaced_witness :
  spaced 50 [mkCancelOperation 100 OpCancel 1 None;
             mkCancelOperation 150 OpQuery 2 (Some (demo_nt_order (Some "V-1")))] ∧
  total_recovery_attempts demo_conflict.1 = 2 ∧ retry_escalated (cancel_health demo_conflict.1) = true.
Proof.
  destruct (recovery_operations_spaced 50 2 1000 _ _ _ ltac:(lia) ltac:(lia) demo_recovery_run)
    as (Hs & _ & Ht & _ & He).
  split; [exact Hs|]. split; [exact Ht|]. apply He. simpl. lia.
Defined.

Lemma recovery_identity_fixed_witness :
  demo_conflict.2 = mkSeed (demo_nt_order (Some "V-1")) ∧
  ∀ reservation now res s', drive_record true reservation None now 50 2 demo_conflict = Some (res, s') →
    issued now res = [].
Proof.
  destruct (recovery_identity_fixed 50 2 1000 _ _ _ ltac:(lia) ltac:(lia) demo_recovery_run) as [Hq Hhold].
  split.
  - refine (proj1 (Hq _ _ _ (eq_refl : op_query (mkCancelOperation 150 OpQuery 2
      (Some (demo_nt_order (Some "V-1")))) = _))). right. left.
  - intros reservation now res s' Hd.
    exact (proj1 (Hhold (mkConflict "V-1" "V-2") true reservation None now res s' eq_refl Hd)).
Defined.

Lemma retry_before_deadline_witness :
  ∃ (k : nat) s' second,
    ticks 50 3 (demo_nt_order (Some "V-1")) (λ _, true) 20 (S (S k)) 110
      (cancel_record_new 1100, mkSeed (demo_nt_order (Some "V-1"))) =
      Some ([mkCancelOperation 110 OpCancel 1 None; mkCancelOperation second OpCancel 2 None], s') ∧
    110 + 50 ≤ second < 1100 ∧ 110 < 1100.
Proof.
  apply (retry_before_deadline 1000 50 3 20 (demo_nt_order (Some "V-1")) (λ _, true) 100 110).
  - lia.
  - split; [done|]. intros b. reflexivity.
  - reflexivity.
  - lia.
  - unfold u64_max. lia.
Defined.
