(* ===== verification/RequoteBudget.v ===== *)
(** * Requote budget: the maker's two-window rate throttle

    Models [src/src/bolt_v3_requote_budget.rs]: the sliding-window budget
    [RequoteBudget], the atomic pair of budgets [RequoteBudgetPair] behind its
    shared lock, and the owned reservation token [RequoteBudgetReservation] with
    its [Drop].  The pair is an [Arc<Mutex<..>>]; it is a location of a heap of
    pair states, so that every clone and every token sees the same state. *)

From Stdlib Require Import ZArith Lia.
From stdpp Require Import sorting strings gmap numbers list.
From S2P Require Import Prelude.

Open Scope Z_scope.

(** ** The sliding window *)

Record RequoteBudget : Type := mkRequoteBudget {
  window_ms : Z;
  max_cost_per_window : Z;
  min_interval_ms : Z;
  emits : list (Z * Z);          (* (timestamp_ms, cost), oldest first *)
  window_cost : Z;
  last_emit_ms : option Z;
}.

Definition budget_new (max_cost window interval : Z) : RequoteBudget :=
  {| window_ms := window; max_cost_per_window := max_cost;
     min_interval_ms := interval; emits := []; window_cost := 0;
     last_emit_ms := None |}.

(** The [while let Some(front)] loop of [evict]. *)
Fixpoint evict_loop (cutoff : Z) (es : list (Z * Z)) (wc : Z) : list (Z * Z) * Z :=
  match es with
  | [] => ([], wc)
  | (ts, cost) :: rest =>
      if cutoff <=? ts then (es, wc)
      else evict_loop cutoff rest (u64_wrapping_sub wc cost)
  end.

Definition set_window (b : RequoteBudget) (es : list (Z * Z)) (wc : Z) : RequoteBudget :=
  {| window_ms := window_ms b; max_cost_per_window := max_cost_per_window b;
     min_interval_ms := min_interval_ms b; emits := es; window_cost := wc;
     last_emit_ms := last_emit_ms b |}.

Definition evict (b : RequoteBudget) (now_ms : Z) : RequoteBudget :=
  if now_ms <=? window_ms b then b
  else
    let cutoff := now_ms - window_ms b in
    let '(es, wc) := evict_loop cutoff (emits b) (window_cost b) in
    set_window b es wc.

(** [emits.push_back], with the new window cost and [last_emit_ms]. *)
Definition push_emit (b : RequoteBudget) (now_ms cost next_cost : Z) : RequoteBudget :=
  {| window_ms := window_ms b; max_cost_per_window := max_cost_per_window b;
     min_interval_ms := min_interval_ms b; emits := emits b ++ [(now_ms, cost)];
     window_cost := next_cost; last_emit_ms := Some now_ms |}.

Definition try_acquire (b : RequoteBudget) (now_ms cost : Z) : bool * RequoteBudget :=
  if (cost =? 0) || (window_ms b =? 0) then (false, b)
  else if match last_emit_ms b with Some last => now_ms <? last | None => false end
  then (false, b)
  else
    let b := evict b now_ms in
    if match last_emit_ms b with
       | Some last => (last <? now_ms) && (now_ms - last <? min_interval_ms b)
       | None => false
       end
    then (false, b)
    else
      match u64_checked_add (window_cost b) cost with
      | None => (false, b)
      | Some next_cost =>
          if max_cost_per_window b <? next_cost then (false, b)
          else (true, push_emit b now_ms cost next_cost)
      end.

Definition in_window (b : RequoteBudget) : nat := length (emits b).

(** [record_reserved]; [None] is the panic of its [expect]. *)
Definition record_reserved (b : RequoteBudget) (now_ms cost : Z) : option RequoteBudget :=
  let emit_ms :=
    match last_emit_ms b with Some last => Z.max last now_ms | None => now_ms end in
  let b := evict b emit_ms in
  match u64_checked_add (window_cost b) cost with
  | None => None
  | Some next_cost => Some (push_emit b emit_ms cost next_cost)
  end.

(** ** Liabilities *)

Definition SUBMIT_COMMAND_COST : Z := 1.
Definition REST_CALL_COST : Z := 1.
Definition CANCEL_RESUBMIT_REST_COST : Z := REST_CALL_COST + REST_CALL_COST.

Record LiabilityBalance : Type := mkLiabilityBalance {
  balance_now_ms : Z;
  balance_submit_cost : Z;
  balance_rest_cost : Z;
}.

Inductive OutstandingLiability : Type :=
| OneShot (balance : LiabilityBalance)
| CancelResubmitBothOutstanding (now_ms : Z)
| CancelResubmitReplacementOutstanding (now_ms : Z).

Definition liability_balance (l : OutstandingLiability) : LiabilityBalance :=
  match l with
  | OneShot balance => balance
  | CancelResubmitBothOutstanding now_ms =>
      mkLiabilityBalance now_ms SUBMIT_COMMAND_COST CANCEL_RESUBMIT_REST_COST
  | CancelResubmitReplacementOutstanding now_ms =>
      mkLiabilityBalance now_ms SUBMIT_COMMAND_COST REST_CALL_COST
  end.

Definition liability_submit_cost (l : OutstandingLiability) : Z :=
  balance_submit_cost (liability_balance l).
Definition liability_rest_cost (l : OutstandingLiability) : Z :=
  balance_rest_cost (liability_balance l).
Definition liability_now_ms (l : OutstandingLiability) : Z :=
  balance_now_ms (liability_balance l).

Record RequoteBudgetReservationProposal : Type := mkReservationProposal {
  proposal_liability : OutstandingLiability;
}.

Inductive RequoteBudgetReservationDenied : Type :=
| Capacity
| GenerationOverflow
| StaleReservation.

(** ** The pair of budgets *)

Record RequoteBudgetPairState : Type := mkPairState {
  submit_commands : RequoteBudget;
  rest_calls : RequoteBudget;
  next_reservation_generation : Z;
  outstanding : gmap Z OutstandingLiability;
}.

Definition pair_new (submit rest : RequoteBudget) : RequoteBudgetPairState :=
  {| submit_commands := submit; rest_calls := rest;
     next_reservation_generation := 0; outstanding := ∅ |}.

Definition set_outstanding (st : RequoteBudgetPairState)
    (out : gmap Z OutstandingLiability) : RequoteBudgetPairState :=
  {| submit_commands := submit_commands st; rest_calls := rest_calls st;
     next_reservation_generation := next_reservation_generation st;
     outstanding := out |}.

Definition set_rest_calls (st : RequoteBudgetPairState) (b : RequoteBudget)
    : RequoteBudgetPairState :=
  {| submit_commands := submit_commands st; rest_calls := b;
     next_reservation_generation := next_reservation_generation st;
     outstanding := outstanding st |}.

Definition set_submit_commands (st : RequoteBudgetPairState) (b : RequoteBudget)
    : RequoteBudgetPairState :=
  {| submit_commands := b; rest_calls := rest_calls st;
     next_reservation_generation := next_reservation_generation st;
     outstanding := outstanding st |}.

(** [outstanding.values()]; the [BTreeMap] iterates by key, which the sums below
    do not depend on. *)
Definition outstanding_values (st : RequoteBudgetPairState) : list OutstandingLiability :=
  (map_to_list (outstanding st)).*2.

Definition has_capacity (st : RequoteBudgetPairState)
    (now_ms submit_cost rest_cost : Z) : bool :=
  match u64_checked_sum 0 (liability_submit_cost <$> outstanding_values st),
        u64_checked_sum 0 (liability_rest_cost <$> outstanding_values st) with
  | Some outstanding_submit, Some outstanding_rest =>
      match u64_checked_add outstanding_submit submit_cost with
      | None => false
      | Some required_submit =>
          match u64_checked_add outstanding_rest rest_cost with
          | None => false
          | Some required_rest =>
              let submit_ok :=
                (required_submit =? 0) ||
                (try_acquire (submit_commands st) now_ms required_submit).1 in
              let rest_ok := (try_acquire (rest_calls st) now_ms required_rest).1 in
              submit_ok && rest_ok
          end
      end
  | _, _ => false
  end.

Definition propose (st : RequoteBudgetPairState) (liability : OutstandingLiability)
    : Result RequoteBudgetReservationProposal RequoteBudgetReservationDenied :=
  let balance := liability_balance liability in
  if negb (has_capacity st (balance_now_ms balance) (balance_submit_cost balance)
             (balance_rest_cost balance))
  then Err Capacity
  else Ok (mkReservationProposal liability).

Definition propose_fresh_submit (st : RequoteBudgetPairState) (now_ms : Z) :=
  propose st (OneShot (mkLiabilityBalance now_ms SUBMIT_COMMAND_COST REST_CALL_COST)).

Definition propose_cancel_resubmit (st : RequoteBudgetPairState) (now_ms : Z) :=
  propose st (CancelResubmitBothOutstanding now_ms).

Definition propose_rest (st : RequoteBudgetPairState) (now_ms : Z) :=
  propose st (OneShot (mkLiabilityBalance now_ms 0 REST_CALL_COST)).

(** [reserve] under the pair's lock: the new generation and the new state. *)
Definition reserve_state (st : RequoteBudgetPairState)
    (proposal : RequoteBudgetReservationProposal)
    : Result Z RequoteBudgetReservationDenied * RequoteBudgetPairState :=
  let balance := liability_balance (proposal_liability proposal) in
  if negb (has_capacity st (balance_now_ms balance) (balance_submit_cost balance)
             (balance_rest_cost balance))
  then (Err Capacity, st)
  else
    match u64_checked_add (next_reservation_generation st) 1 with
    | None => (Err GenerationOverflow, st)
    | Some generation =>
        (Ok generation,
         {| submit_commands := submit_commands st; rest_calls := rest_calls st;
            next_reservation_generation := generation;
            outstanding := <[generation := proposal_liability proposal]> (outstanding st) |})
    end.

(** Observers of the pair. *)
Definition pair_min_interval_ms (st : RequoteBudgetPairState) : Z :=
  Z.max (min_interval_ms (submit_commands st)) (min_interval_ms (rest_calls st)).

(** [Option::max] orders [None] below every [Some]. *)
Definition option_max (a b : option Z) : option Z :=
  match a, b with
  | Some x, Some y => Some (Z.max x y)
  | Some x, None => Some x
  | None, b => b
  end.

Definition pair_last_emit_ms (st : RequoteBudgetPairState) : option Z :=
  option_max (last_emit_ms (submit_commands st)) (last_emit_ms (rest_calls st)).

Definition outstanding_submit_cost (st : RequoteBudgetPairState) : Z :=
  Zsum (liability_submit_cost <$> outstanding_values st).

Definition outstanding_rest_cost (st : RequoteBudgetPairState) : Z :=
  Zsum (liability_rest_cost <$> outstanding_values st).

(** [RequoteBudgetReservation::record_balance]. *)
Definition record_balance (st : RequoteBudgetPairState) (balance : LiabilityBalance)
    : option RequoteBudgetPairState :=
  st ← (if 0 <? balance_submit_cost balance
        then set_submit_commands st <$>
               record_reserved (submit_commands st) (balance_now_ms balance)
                 (balance_submit_cost balance)
        else Some st);
  set_rest_calls st <$>
    record_reserved (rest_calls st) (balance_now_ms balance) (balance_rest_cost balance).

(** The ledger part of [settle_prepared_sink_invocation], under the lock. *)
Definition settle_sink_state (st : RequoteBudgetPairState) (generation now_ms : Z)
    : option RequoteBudgetPairState :=
  match outstanding st !! generation with
  | None => Some st
  | Some liability =>
      let st := set_outstanding st (delete generation (outstanding st)) in
      match liability with
      | CancelResubmitBothOutstanding _ =>
          let st := set_outstanding st
            (<[generation := CancelResubmitReplacementOutstanding now_ms]> (outstanding st)) in
          set_rest_calls st <$> record_reserved (rest_calls st) now_ms REST_CALL_COST
      | OneShot balance =>
          record_balance st
            (mkLiabilityBalance now_ms (balance_submit_cost balance) (balance_rest_cost balance))
      | CancelResubmitReplacementOutstanding _ =>
          record_balance st (mkLiabilityBalance now_ms SUBMIT_COMMAND_COST REST_CALL_COST)
      end
  end.

(** ** The shared pair and its owned tokens *)

Definition loc : Type := positive.
Abbreviation budget_heap := (gmap loc RequoteBudgetPairState).

(** The handle [RequoteBudgetPair { state: Arc<Mutex<..>> }]. *)
Record RequoteBudgetPair : Type := mkPair { pair_loc : loc }.

(** Run [f] on the pair state under the lock.  A dangling handle does not exist
    in the program; it is the second [None]. *)
Definition lock_pair {A} (pair : RequoteBudgetPair)
    (f : RequoteBudgetPairState → option (A * RequoteBudgetPairState)) : Rust budget_heap A :=
  λ h,
    match h !! pair_loc pair with
    | Some st =>
        match f st with
        | Some (a, st') => Some (a, <[pair_loc pair := st']> h)
        | None => None
        end
    | None => None
    end.

Inductive RequoteBudgetReservationPhase : Type :=
| Refundable
| SinkInvoked (now_ms : Z).

Record RequoteBudgetReservation : Type := mkReservation {
  reservation_budget : RequoteBudgetPair;
  reservation_generation : Z;
  reservation_phase : RequoteBudgetReservationPhase;
}.

Definition set_phase (r : RequoteBudgetReservation) (p : RequoteBudgetReservationPhase) :=
  mkReservation (reservation_budget r) (reservation_generation r) p.

Definition reserve (pair : RequoteBudgetPair) (proposal : RequoteBudgetReservationProposal)
    : Rust budget_heap (Result RequoteBudgetReservation RequoteBudgetReservationDenied) :=
  lock_pair pair (λ st,
    let '(res, st') := reserve_state st proposal in
    Some (match res with
          | Ok generation => Ok (mkReservation pair generation Refundable)
          | Err e => Err e
          end, st')).

Definition prepare_sink_invoked_at (r : RequoteBudgetReservation) (now_ms : Z)
    : RequoteBudgetReservation :=
  match reservation_phase r with
  | Refundable => set_phase r (SinkInvoked now_ms)
  | SinkInvoked _ => r
  end.

Definition settle_prepared_sink_invocation (r : RequoteBudgetReservation)
    : Rust budget_heap RequoteBudgetReservation :=
  match reservation_phase r with
  | Refundable => mret r
  | SinkInvoked now_ms =>
      lock_pair (reservation_budget r) (λ st,
        st' ← settle_sink_state st (reservation_generation r) now_ms;
        Some (set_phase r Refundable, st'))
  end.

(** [outstanding.remove(&self.generation)] under the lock. *)
Definition remove_outstanding (r : RequoteBudgetReservation)
    : Rust budget_heap (option OutstandingLiability) :=
  lock_pair (reservation_budget r) (λ st,
    Some (outstanding st !! reservation_generation r,
          set_outstanding st (delete (reservation_generation r) (outstanding st)))).

(** [impl Drop]. *)
Definition reservation_drop (r : RequoteBudgetReservation) : Rust budget_heap unit :=
  r ← settle_prepared_sink_invocation r;
  _ ← remove_outstanding r;
  mret tt.

Definition mark_sink_invoked_at (r : RequoteBudgetReservation) (now_ms : Z)
    : Rust budget_heap RequoteBudgetReservation :=
  settle_prepared_sink_invocation (prepare_sink_invoked_at r now_ms).

Definition settle_committed (r : RequoteBudgetReservation)
    : Rust budget_heap (Result unit RequoteBudgetReservationDenied * RequoteBudgetReservation) :=
  r ← settle_prepared_sink_invocation r;
  res ← lock_pair (reservation_budget r) (λ st,
    match outstanding st !! reservation_generation r with
    | None => Some (Ok tt, st)
    | Some liability =>
        let st := set_outstanding st (delete (reservation_generation r) (outstanding st)) in
        st' ← record_balance st (liability_balance liability);
        Some (Ok tt, st')
    end);
  mret (res, r).

Definition settle_aborted (r : RequoteBudgetReservation)
    : Rust budget_heap (Result unit RequoteBudgetReservationDenied * RequoteBudgetReservation) :=
  match reservation_phase r with
  | SinkInvoked _ =>
      r ← settle_prepared_sink_invocation r;
      _ ← remove_outstanding r;
      mret (Ok tt, r)
  | Refundable =>
      removed ← remove_outstanding r;
      mret (match removed with Some _ => Ok tt | None => Err StaleReservation end, r)
  end.

(** [commit] and [abort] consume the token: its [Drop] runs at the end. *)
Definition commit (r : RequoteBudgetReservation)
    : Rust budget_heap (Result unit RequoteBudgetReservationDenied) :=
  settled ← settle_committed r;
  reservation_drop settled.2;; mret settled.1.

Definition abort (r : RequoteBudgetReservation)
    : Rust budget_heap (Result unit RequoteBudgetReservationDenied) :=
  settled ← settle_aborted r;
  reservation_drop settled.2;; mret settled.1.
