(* ===== verification/RequoteBudgetFacts.v ===== *)
(** * Requote budget: window accounting and the capacity invariant

    The window invariant [budget_wf], the exact effect of eviction, grants and
    charges, and the invariant [pair_inv]: at every instant not before the last
    charge, what both windows count plus what outstanding reservations hold stays
    within the caps.  From it follow the caps themselves and the absence of the
    overflow panic in [record_reserved]. *)

From Stdlib Require Import ZArith Lia.
From stdpp Require Import sorting strings gmap numbers list.
From S2P Require Import Prelude RequoteBudget.

Open Scope Z_scope.

(** ** One window *)

(** The charges a window ending at [t] counts, and their cost. *)
Definition live_emits (b : RequoteBudget) (t : Z) : list (Z * Z) :=
  filter (λ e, t - window_ms b ≤ e.1) (emits b).

Definition cost_at (b : RequoteBudget) (t : Z) : Z := Zsum (live_emits b t).*2.

Definition last0 (b : RequoteBudget) : Z := default 0 (last_emit_ms b).

Record budget_wf (b : RequoteBudget) : Prop := {
  wf_window : is_u64 (window_ms b);
  wf_max : is_u64 (max_cost_per_window b);
  wf_last : is_u64 (last0 b);
  wf_sorted : StronglySorted (λ x y, x.1 ≤ y.1) (emits b);
  wf_emits : Forall (λ e, 0 ≤ e.1 ∧ last0 b - window_ms b ≤ e.1 ≤ last0 b ∧ 0 ≤ e.2) (emits b);
  wf_cost : window_cost b = Zsum (emits b).*2;
  wf_bound : is_u64 (window_cost b);
}.

Lemma filter_Forall_all {A} (P : A → Prop) `{∀ x, Decision (P x)} (l : list A) :
  Forall P l → filter P l = l.
Proof. induction 1; [done|]. rewrite filter_cons_True by done. by f_equal. Qed.

Lemma Zsum_filter_le (P : Z * Z → Prop) `{∀ x, Decision (P x)} (l : list (Z * Z)) :
  Forall (λ e, 0 ≤ e.2) l → Zsum (filter P l).*2 ≤ Zsum l.*2.
Proof.
  induction 1 as [|e l He Hl IH]; [done|]. rewrite filter_cons.
  case_decide; csimpl; lia.
Qed.

Lemma evict_loop_spec cutoff es wc :
  StronglySorted (λ x y, x.1 ≤ y.1) es → Forall (λ e, 0 ≤ e.2) es →
  wc = Zsum es.*2 → is_u64 wc →
  evict_loop cutoff es wc =
    (filter (λ e, cutoff ≤ e.1) es, Zsum (filter (λ e, cutoff ≤ e.1) es).*2).
Proof.
  intros Hs. revert wc.
  induction Hs as [|[ts c] es Hs IH Hle]; intros wc Hpos -> Hu; [done|].
  apply Forall_cons in Hpos as [Hc Hpos]. csimpl in *.
  destruct (Z.leb_spec cutoff ts) as [Hcut|Hcut].
  - rewrite filter_Forall_all; [done|]. constructor; [done|].
    eapply Forall_impl; [exact Hle|]. simpl. lia.
  - rewrite filter_cons_False by (simpl; lia).
    assert (0 ≤ Zsum es.*2) by (apply Zsum_nonneg, Forall_fmap; done).
    rewrite u64_wrapping_sub_exact by (unfold is_u64 in *; lia).
    apply IH; unfold is_u64 in *; [done|lia|lia].
Qed.

Lemma wf_costs_nonneg b : budget_wf b → Forall (λ e, 0 ≤ e.2) (emits b).
Proof. intros Hb. eapply Forall_impl; [apply Hb|]. by intros e (_ & _ & ?). Qed.

Lemma cost_at_nonneg b t : budget_wf b → 0 ≤ cost_at b t.
Proof.
  intros Hb. apply Zsum_nonneg, Forall_fmap, Forall_forall. intros e He.
  apply list_elem_of_filter in He as [_ He].
  pose proof (wf_costs_nonneg b Hb) as Hc. rewrite Forall_forall in Hc. by apply Hc.
Qed.

Lemma cost_at_le b t : budget_wf b → cost_at b t ≤ window_cost b.
Proof. intros Hb. rewrite wf_cost by done. by apply Zsum_filter_le, wf_costs_nonneg. Qed.

(** A later window counts no more of the charges made so far. *)
Lemma cost_at_antitone b t t' : budget_wf b → t ≤ t' → cost_at b t' ≤ cost_at b t.
Proof.
  intros Hb Ht. unfold cost_at, live_emits.
  pose proof (wf_costs_nonneg b Hb) as Hc. induction Hc as [|e l He Hl IH]; [done|].
  rewrite !filter_cons. repeat case_decide; csimpl; lia.
Qed.

Lemma evict_spec b now :
  budget_wf b → evict b now = set_window b (live_emits b now) (cost_at b now).
Proof.
  intros Hb. unfold evict, cost_at, live_emits.
  destruct (Z.leb_spec now (window_ms b)) as [Hn|Hn].
  - rewrite filter_Forall_all.
    + rewrite <- wf_cost by done. by destruct b.
    + eapply Forall_impl; [apply Hb|]. simpl. lia.
  - erewrite evict_loop_spec; [done|apply Hb|by apply wf_costs_nonneg|apply Hb|apply Hb].
Qed.

Lemma live_emits_evict b now t :
  now ≤ t → live_emits (set_window b (live_emits b now) (cost_at b now)) t = live_emits b t.
Proof.
  intros Ht. unfold live_emits. simpl. rewrite list_filter_filter_l; [done|]. lia.
Qed.

Lemma StronglySorted_snoc {A} (R : A → A → Prop) l x :
  StronglySorted R l → Forall (λ y, R y x) l → StronglySorted R (l ++ [x]).
Proof.
  induction 1 as [|y l Hs IH Hy]; intros Hx; simpl; [by repeat constructor|].
  apply Forall_cons in Hx as [? ?]. constructor; [by apply IH|].
  apply Forall_app. split; [done|]. by constructor.
Qed.

Lemma StronglySorted_filter {A} (R : A → A → Prop) (P : A → Prop)
    `{∀ x, Decision (P x)} l : StronglySorted R l → StronglySorted R (filter P l).
Proof.
  induction 1 as [|y l Hs IH Hy]; [constructor|]. rewrite filter_cons.
  case_decide; [|done]. constructor; [done|].
  apply Forall_forall. intros z Hz. apply list_elem_of_filter in Hz as [_ Hz].
  rewrite Forall_forall in Hy. by apply Hy.
Qed.

(** A charge that the cap admits at instant [now >= last0] keeps the window
    well formed; both [try_acquire] and [record_reserved] end with it. *)
Lemma push_emit_wf b now cost :
  budget_wf b → last0 b ≤ now → is_u64 now → 0 ≤ cost →
  cost_at b now + cost ≤ u64_max →
  budget_wf (push_emit (evict b now) now cost (window_cost (evict b now) + cost)).
Proof.
  intros Hb Hlast Hnow Hc Hmax. rewrite evict_spec by done.
  pose proof (cost_at_nonneg b now Hb). pose proof (wf_window b Hb).
  assert (Hlive : Forall (λ e, 0 ≤ e.1 ∧ now - window_ms b ≤ e.1 ≤ now ∧ 0 ≤ e.2)
                    (live_emits b now)).
  { apply Forall_forall. intros e [? He]%list_elem_of_filter.
    pose proof (wf_emits b Hb) as Hes. rewrite Forall_forall in Hes.
    specialize (Hes e He). lia. }
  constructor; simpl; try apply Hb; try done.
  - apply StronglySorted_snoc; [by apply StronglySorted_filter, Hb|].
    eapply Forall_impl; [exact Hlive|]. simpl. lia.
  - apply Forall_app. split; [exact Hlive|].
    constructor; [|done]. unfold is_u64 in *. unfold last0. simpl. lia.
  - rewrite fmap_app, Zsum_app. csimpl. unfold cost_at. lia.
  - unfold is_u64. lia.
Qed.

(** What a window ending at [t] counts after such a charge. *)
Lemma cost_at_push_emit b now cost t :
  budget_wf b → now ≤ t →
  cost_at (push_emit (evict b now) now cost (window_cost (evict b now) + cost)) t =
    cost_at b t + (if decide (t - window_ms b ≤ now) then cost else 0).
Proof.
  intros Hb Ht. rewrite evict_spec by done. unfold cost_at, live_emits. simpl.
  rewrite filter_app, fmap_app, Zsum_app, list_filter_filter_l by lia.
  f_equal. rewrite filter_cons. repeat case_decide; csimpl in *; try done; lia.
Qed.

(** ** Granting and charging *)

(** A grant: the cap admits the cost in the window ending now, time does not go
    back, and a strictly later tick respects the minimum interval. *)
Lemma try_acquire_true b now cost b' :
  budget_wf b → is_u64 now → try_acquire b now cost = (true, b') →
  cost ≠ 0 ∧ last0 b ≤ now ∧ cost_at b now + cost ≤ max_cost_per_window b ∧
  (∀ last, last_emit_ms b = Some last → last = now ∨ min_interval_ms b ≤ now - last) ∧
  b' = push_emit (evict b now) now cost (window_cost (evict b now) + cost).
Proof.
  intros Hb Hnow. unfold try_acquire. rewrite evict_spec by done.
  unfold is_u64, last0 in *. simpl.
  destruct (Z.eqb_spec cost 0); [done|]. destruct (Z.eqb_spec (window_ms b) 0); [done|]. simpl.
  destruct (u64_checked_add (cost_at b now) cost) as [next|] eqn:Enext;
    destruct (last_emit_ms b) as [last|]; simpl.
  - destruct (Z.ltb_spec now last); [done|].
    destruct (Z.ltb_spec last now), (Z.ltb_spec (now - last) (min_interval_ms b)); simpl; try done.
    all: apply u64_checked_add_Some in Enext as [-> ?].
    all: destruct (Z.ltb_spec (max_cost_per_window b) (cost_at b now + cost)); [done|].
    all: intros [= <-]; split_and!; try done; try lia.
    all: intros ? [= <-]; lia.
  - apply u64_checked_add_Some in Enext as [-> ?].
    destruct (Z.ltb_spec (max_cost_per_window b) (cost_at b now + cost)); [done|].
    intros [= <-]. split_and!; try done; lia.
  - destruct (now <? last); [done|]. by destruct (_ && _).
  - done.
Qed.

(** [record_reserved] charges at the later of [now] and the last charge; while
    that window has room it does not panic. *)
Lemma record_reserved_spec b now cost :
  budget_wf b → is_u64 now → 0 ≤ cost →
  let e := Z.max (last0 b) now in
  cost_at b e + cost ≤ u64_max →
  ∃ b', record_reserved b now cost = Some b' ∧ budget_wf b' ∧
    last_emit_ms b' = Some e ∧ window_cost b' = cost_at b e + cost ∧
    window_ms b' = window_ms b ∧ max_cost_per_window b' = max_cost_per_window b ∧
    ∀ t, e ≤ t → cost_at b' t ≤ cost_at b t + cost.
Proof.
  intros Hb Hnow Hc e Hmax. pose proof (wf_last b Hb) as Hl.
  assert (He : match last_emit_ms b with Some last => Z.max last now | None => now end = e).
  { unfold e, last0 in *. unfold is_u64 in *. destruct (last_emit_ms b); simpl in *; lia. }
  assert (Hb' := push_emit_wf b e cost Hb ltac:(lia) ltac:(unfold is_u64 in *; lia) Hc Hmax).
  unfold record_reserved. rewrite He.
  assert (Hw : window_cost (evict b e) = cost_at b e) by (by rewrite evict_spec).
  assert (Hn : u64_checked_add (window_cost (evict b e)) cost = Some (window_cost (evict b e) + cost)).
  { apply u64_checked_add_Some. rewrite Hw. done. }
  rewrite Hn. eexists. split; [done|]. split; [exact Hb'|].
  split_and!; try done; [by rewrite <- Hw|by rewrite evict_spec|by rewrite evict_spec|].
  intros t Ht. rewrite cost_at_push_emit by done. case_decide; lia.
Qed.

(** ** Sums over the outstanding ledger *)

Abbreviation ledger := (gmap Z OutstandingLiability).

Definition ledger_sum (f : OutstandingLiability → Z) (out : ledger) : Z :=
  Zsum ((λ kv, f kv.2) <$> map_to_list out).

Lemma ledger_sum_insert f (out : ledger) g l :
  out !! g = None → ledger_sum f (<[g := l]> out) = f l + ledger_sum f out.
Proof. intros Hg. unfold ledger_sum. by rewrite map_to_list_insert. Qed.

Lemma ledger_sum_delete f (out : ledger) g l :
  out !! g = Some l → ledger_sum f out = f l + ledger_sum f (delete g out).
Proof. intros Hg. unfold ledger_sum. by rewrite <- (map_to_list_delete out g l Hg). Qed.

Lemma ledger_sum_le (f f' : OutstandingLiability → Z) (out : ledger) :
  map_Forall (λ _ l, f l ≤ f' l) out → ledger_sum f out ≤ ledger_sum f' out.
Proof.
  intros H. apply map_Forall_to_list in H. unfold ledger_sum.
  induction H as [|[k l] kvs Hl Hkvs IH]; csimpl in *; [done|]. lia.
Qed.

Lemma ledger_sum_nonneg f (out : ledger) :
  map_Forall (λ _ l, 0 ≤ f l) out → 0 ≤ ledger_sum f out.
Proof.
  intros H. apply map_Forall_to_list in H. apply Zsum_nonneg, Forall_fmap.
  eapply Forall_impl; [exact H|]. by intros [k l].
Qed.

Lemma ledger_sum_values (f : OutstandingLiability → Z) st :
  Zsum (f <$> outstanding_values st) = ledger_sum f (outstanding st).
Proof.
  unfold outstanding_values, ledger_sum. f_equal.
  induction (map_to_list (outstanding st)) as [|[k l] kvs IH]; csimpl; congruence.
Qed.

(** ** The capacity invariant of the pair *)

Definition liability_ok (l : OutstandingLiability) : Prop :=
  is_u64 (liability_now_ms l) ∧ 0 ≤ liability_submit_cost l ∧ 0 ≤ liability_rest_cost l.

(** The part of a liability reserved at or before [t]. *)
Definition due (f : OutstandingLiability → Z) (t : Z) (l : OutstandingLiability) : Z :=
  if liability_now_ms l <=? t then f l else 0.

(** One budget against the ledger: no instant from the last charge on is
    over-committed. *)
Definition within_cap (b : RequoteBudget) (f : OutstandingLiability → Z) (out : ledger) : Prop :=
  ∀ t, last0 b ≤ t → cost_at b t + ledger_sum (due f t) out ≤ max_cost_per_window b.

Record pair_inv (st : RequoteBudgetPairState) : Prop := {
  inv_submit_wf : budget_wf (submit_commands st);
  inv_rest_wf : budget_wf (rest_calls st);
  inv_liabilities : map_Forall (λ _ l, liability_ok l) (outstanding st);
  inv_generation : is_u64 (next_reservation_generation st);
  inv_fresh : map_Forall (λ g _, 0 < g ≤ next_reservation_generation st) (outstanding st);
  inv_submit_cap : within_cap (submit_commands st) liability_submit_cost (outstanding st);
  inv_rest_cap : within_cap (rest_calls st) liability_rest_cost (outstanding st);
}.

Lemma due_le f t l : 0 ≤ f l → due f t l ≤ f l.
Proof. unfold due. destruct (liability_now_ms l <=? t); lia. Qed.

Lemma due_nonneg f t l : 0 ≤ f l → 0 ≤ due f t l.
Proof. unfold due. destruct (liability_now_ms l <=? t); lia. Qed.

(** Granting a reservation whose cost, with all of the ledger, fits at its own
    instant. *)
Lemma within_cap_insert b f (out : ledger) g l :
  budget_wf b → map_Forall (λ _ l, 0 ≤ f l) out → 0 ≤ f l → out !! g = None →
  (f l = 0 ∨ cost_at b (liability_now_ms l) + ledger_sum f out + f l ≤ max_cost_per_window b) →
  within_cap b f out → within_cap b f (<[g := l]> out).
Proof.
  intros Hb Hpos Hl Hg Hroom Hcap t Ht. rewrite ledger_sum_insert by done.
  specialize (Hcap t Ht). unfold due at 1.
  destruct (Z.leb_spec (liability_now_ms l) t) as [Hn|]; [|lia].
  destruct Hroom as [->|Hroom]; [lia|].
  pose proof (cost_at_antitone b _ _ Hb Hn).
  assert (ledger_sum (due f t) out ≤ ledger_sum f out).
  { apply ledger_sum_le. eapply map_Forall_impl; [exact Hpos|]. intros. by apply due_le. }
  lia.
Qed.

(** Replacing the ledger by one that is due no more at any instant. *)
Lemma within_cap_weaken b f (out out' : ledger) :
  (∀ t, ledger_sum (due f t) out' ≤ ledger_sum (due f t) out) →
  within_cap b f out → within_cap b f out'.
Proof. intros Hle Hcap t Ht. specialize (Hcap t Ht). specialize (Hle t). lia. Qed.

(** Charging [cost] at [now] while the ledger gives up at least [cost] at every
    instant from [now] on. *)
Lemma within_cap_record b f (out out' : ledger) now cost :
  budget_wf b → is_u64 now → 0 ≤ cost →
  map_Forall (λ _ l, 0 ≤ f l) out' →
  (∀ t, now ≤ t → cost + ledger_sum (due f t) out' ≤ ledger_sum (due f t) out) →
  within_cap b f out →
  ∃ b', record_reserved b now cost = Some b' ∧ budget_wf b' ∧ within_cap b' f out'.
Proof.
  intros Hb Hnow Hc Hpos Hpay Hcap. pose proof (wf_max b Hb) as Hmax.
  assert (Hroom := Hcap (Z.max (last0 b) now) ltac:(lia)).
  assert (Hpay' := Hpay (Z.max (last0 b) now) ltac:(lia)).
  assert (0 ≤ ledger_sum (due f (Z.max (last0 b) now)) out').
  { apply ledger_sum_nonneg. eapply map_Forall_impl; [exact Hpos|]. intros. by apply due_nonneg. }
  destruct (record_reserved_spec b now cost) as (b' & Hr & Hwf & Hl & _ & _ & Hm & Hct); try done.
  { unfold is_u64 in *. lia. }
  exists b'. split_and!; [done|done|]. intros t Ht.
  unfold last0 in Ht. rewrite Hl in Ht. simpl in Ht. rewrite Hm.
  specialize (Hct t Ht). specialize (Hcap t ltac:(lia)). specialize (Hpay t ltac:(lia)). lia.
Qed.

Lemma liabilities_submit st :
  pair_inv st → map_Forall (λ _ l, 0 ≤ liability_submit_cost l) (outstanding st).
Proof. intros Hst. eapply map_Forall_impl; [apply Hst|]. by intros ?? (_ & ? & _). Qed.

Lemma liabilities_rest st :
  pair_inv st → map_Forall (λ _ l, 0 ≤ liability_rest_cost l) (outstanding st).
Proof. intros Hst. eapply map_Forall_impl; [apply Hst|]. by intros ?? (_ & _ & ?). Qed.

Lemma ledger_checked_sum f st :
  map_Forall (λ _ l, 0 ≤ f l) (outstanding st) →
  u64_checked_sum 0 (f <$> outstanding_values st) =
    if ledger_sum f (outstanding st) <=? u64_max
    then Some (ledger_sum f (outstanding st)) else None.
Proof.
  intros Hpos. rewrite u64_checked_sum_spec, Z.add_0_l, ledger_sum_values; [done| |].
  - apply Forall_fmap, Forall_fmap. apply map_Forall_to_list in Hpos.
    eapply Forall_impl; [exact Hpos|]. by intros [k l].
  - done.
Qed.

(** What an affirmative [has_capacity] promises: each budget admits the whole
    ledger plus the new cost at [now_ms]. *)
Lemma has_capacity_true st now sc rc :
  pair_inv st → is_u64 now → 0 ≤ sc → 0 ≤ rc → has_capacity st now sc rc = true →
  (sc = 0 ∨ cost_at (submit_commands st) now +
     ledger_sum liability_submit_cost (outstanding st) + sc ≤
     max_cost_per_window (submit_commands st)) ∧
  cost_at (rest_calls st) now + ledger_sum liability_rest_cost (outstanding st) + rc ≤
    max_cost_per_window (rest_calls st) ∧
  last0 (rest_calls st) ≤ now.
Proof.
  intros Hst Hnow Hsc Hrc. unfold has_capacity.
  pose proof (ledger_sum_nonneg _ _ (liabilities_submit st Hst)).
  rewrite !ledger_checked_sum by (by apply liabilities_submit || by apply liabilities_rest).
  destruct (Z.leb_spec (ledger_sum liability_submit_cost (outstanding st)) u64_max); [|done].
  destruct (Z.leb_spec (ledger_sum liability_rest_cost (outstanding st)) u64_max); [|done].
  destruct (u64_checked_add _ sc) as [rs|] eqn:Es; [|done].
  destruct (u64_checked_add _ rc) as [rr|] eqn:Er; [|done].
  apply u64_checked_add_Some in Es as [-> _]. apply u64_checked_add_Some in Er as [-> _].
  destruct (try_acquire (rest_calls st) _ _) as [[] br] eqn:Tr; [|by rewrite andb_false_r].
  apply try_acquire_true in Tr as (_ & Hlast & Hroom & _); [|apply Hst|done].
  rewrite andb_true_r. intros Hs. split; [|split; [lia|done]].
  apply orb_true_iff in Hs as [Hz%Z.eqb_eq|Ht]; [left; lia|right].
  destruct (try_acquire (submit_commands st) _ _) as [[] bs] eqn:Ts; [|done].
  apply try_acquire_true in Ts as (_ & _ & ? & _); [|apply Hst|done]. lia.
Qed.

(** ** Every ledger operation preserves the invariant *)

Lemma reserve_state_inv st p :
  pair_inv st → liability_ok (proposal_liability p) → pair_inv (reserve_state st p).2.
Proof.
  intros Hst Hp. unfold reserve_state.
  destruct (has_capacity st _ _ _) eqn:Hcap; [|done].
  destruct Hp as (Hnow & Hsc & Hrc).
  apply has_capacity_true in Hcap as (Hs & Hr & _); try done.
  destruct (u64_checked_add _ 1) as [g|] eqn:Hg; [|done].
  apply u64_checked_add_Some in Hg as [-> Hg].
  pose proof (inv_generation st Hst) as Hgen.
  assert (Hnone : outstanding st !! (next_reservation_generation st + 1) = None).
  { destruct (outstanding st !! _) as [l|] eqn:E; [|done].
    pose proof (inv_fresh st Hst _ _ E). simpl in *. lia. }
  constructor; simpl; try apply Hst.
  - by apply map_Forall_insert_2; [|apply Hst].
  - unfold is_u64 in *. lia.
  - apply map_Forall_insert_2; [unfold is_u64 in *; lia|].
    eapply map_Forall_impl; [exact (inv_fresh st Hst)|]. intros ?? Hi. simpl in Hi |- *. lia.
  - apply within_cap_insert; try apply Hst; try done. by apply liabilities_submit.
  - apply within_cap_insert; try apply Hst; try done; [by apply liabilities_rest|by right].
Qed.

Lemma map_Forall_delete_2 {A} (P : Z → A → Prop) (m : gmap Z A) g :
  map_Forall P m → map_Forall P (delete g m).
Proof. intros H. apply map_Forall_lookup. intros i x [_ Hi]%lookup_delete_Some. by apply H. Qed.

Lemma ledger_sum_due_delete f t (out : ledger) g :
  map_Forall (λ _ l, 0 ≤ f l) out →
  ledger_sum (due f t) (delete g out) ≤ ledger_sum (due f t) out.
Proof.
  intros Hpos. destruct (out !! g) as [l|] eqn:Hg.
  - rewrite (ledger_sum_delete _ out g l Hg). pose proof (due_nonneg f t l (Hpos _ _ Hg)). lia.
  - by rewrite delete_id.
Qed.

(** Dropping a reservation from the ledger. *)
Lemma delete_outstanding_inv st g :
  pair_inv st → pair_inv (set_outstanding st (delete g (outstanding st))).
Proof.
  intros Hst. constructor; simpl; try apply Hst; try by apply map_Forall_delete_2, Hst.
  - eapply within_cap_weaken; [|apply Hst]. intros t. by apply ledger_sum_due_delete, liabilities_submit.
  - eapply within_cap_weaken; [|apply Hst]. intros t. by apply ledger_sum_due_delete, liabilities_rest.
Qed.

(** A reservation made at or before [now] gives up its full cost from [now] on. *)
Lemma ledger_sum_due_pays f (out : ledger) g l now t :
  out !! g = Some l → liability_now_ms l ≤ now → now ≤ t →
  ledger_sum (due f t) out = f l + ledger_sum (due f t) (delete g out).
Proof.
  intros Hg Hl Ht. rewrite (ledger_sum_delete _ out g l Hg). f_equal.
  unfold due. by destruct (Z.leb_spec (liability_now_ms l) t); [|lia].
Qed.

Lemma pair_inv_ledger st out' :
  pair_inv st → map_Forall (λ _ l, liability_ok l) out' →
  map_Forall (λ g _, 0 < g ≤ next_reservation_generation st) out' →
  within_cap (submit_commands st) liability_submit_cost out' →
  within_cap (rest_calls st) liability_rest_cost out' →
  pair_inv (set_outstanding st out').
Proof. intros Hst ????. constructor; simpl; try apply Hst; done. Qed.

Lemma record_balance_inv st out' bal :
  pair_inv st → map_Forall (λ _ l, liability_ok l) out' →
  map_Forall (λ g _, 0 < g ≤ next_reservation_generation st) out' →
  is_u64 (balance_now_ms bal) → 0 ≤ balance_submit_cost bal → 0 ≤ balance_rest_cost bal →
  (∀ t, ledger_sum (due liability_submit_cost t) out' ≤
        ledger_sum (due liability_submit_cost t) (outstanding st)) →
  (∀ t, balance_now_ms bal ≤ t →
        balance_submit_cost bal + ledger_sum (due liability_submit_cost t) out' ≤
        ledger_sum (due liability_submit_cost t) (outstanding st)) →
  (∀ t, balance_now_ms bal ≤ t →
        balance_rest_cost bal + ledger_sum (due liability_rest_cost t) out' ≤
        ledger_sum (due liability_rest_cost t) (outstanding st)) →
  ∃ st', record_balance (set_outstanding st out') bal = Some st' ∧ pair_inv st' ∧
    outstanding st' = out'.
Proof.
  intros Hst Hok Hfresh Hnow Hsc Hrc Hweak Hsub Hrest.
  assert (Hs : map_Forall (λ _ l, 0 ≤ liability_submit_cost l) out').
  { eapply map_Forall_impl; [exact Hok|]. by intros ?? (_ & ? & _). }
  assert (Hr : map_Forall (λ _ l, 0 ≤ liability_rest_cost l) out').
  { eapply map_Forall_impl; [exact Hok|]. by intros ?? (_ & _ & ?). }
  destruct (within_cap_record (rest_calls st) liability_rest_cost (outstanding st) out'
    (balance_now_ms bal) (balance_rest_cost bal)) as (br & Er & Hbr & Hcr); try apply Hst; try done.
  unfold record_balance. destruct (Z.ltb_spec 0 (balance_submit_cost bal)).
  - destruct (within_cap_record (submit_commands st) liability_submit_cost (outstanding st) out'
      (balance_now_ms bal) (balance_submit_cost bal)) as (bs & Es & Hbs & Hcs);
      try apply Hst; try done.
    simpl. rewrite Es. simpl. rewrite Er. simpl. eexists. split; [done|]. split; [|done].
    constructor; simpl; try done; apply Hst.
  - simpl. rewrite Er. simpl. eexists. split; [done|]. split; [|done].
    constructor; simpl; try done; try apply Hst.
    eapply within_cap_weaken; [exact Hweak|apply Hst].
Qed.

(** Charging a whole liability at [now] and removing it from the ledger. *)
Lemma record_liability_inv st g l now :
  pair_inv st → outstanding st !! g = Some l → is_u64 now → liability_now_ms l ≤ now →
  ∃ st', record_balance (set_outstanding st (delete g (outstanding st)))
           (mkLiabilityBalance now (liability_submit_cost l) (liability_rest_cost l)) = Some st' ∧
    pair_inv st' ∧ outstanding st' = delete g (outstanding st).
Proof.
  intros Hst Hg Hnow Hl. pose proof (inv_liabilities st Hst _ _ Hg) as (_ & Hs & Hr).
  apply record_balance_inv; simpl; try done.
  - apply map_Forall_delete_2, Hst.
  - apply map_Forall_delete_2, (inv_fresh st Hst).
  - intros t. by apply ledger_sum_due_delete, liabilities_submit.
  - intros t Ht. by rewrite (ledger_sum_due_pays _ (outstanding st) g l now).
  - intros t Ht. by rewrite (ledger_sum_due_pays _ (outstanding st) g l now).
Qed.

Lemma settle_cancel_inv st g n now :
  pair_inv st → outstanding st !! g = Some (CancelResubmitBothOutstanding n) →
  is_u64 now → n ≤ now →
  let out' := <[g := CancelResubmitReplacementOutstanding now]> (delete g (outstanding st)) in
  ∃ b', record_reserved (rest_calls st) now REST_CALL_COST = Some b' ∧
    pair_inv (set_rest_calls (set_outstanding st out') b').
Proof.
  intros Hst Hg Hnow Hn out'. pose proof (inv_fresh st Hst _ _ Hg) as Hgen.
  assert (Hsum : ∀ f t, ledger_sum (due f t) out' =
    due f t (CancelResubmitReplacementOutstanding now) + ledger_sum (due f t) (delete g (outstanding st))).
  { intros f t. apply ledger_sum_insert, lookup_delete_eq. }
  assert (Hok : map_Forall (λ _ l, liability_ok l) out').
  { apply map_Forall_insert_2; [done|]. apply map_Forall_delete_2, Hst. }
  assert (Hfresh : map_Forall (λ g _, 0 < g ≤ next_reservation_generation st) out').
  { apply map_Forall_insert_2; [done|]. apply map_Forall_delete_2, (inv_fresh st Hst). }
  destruct (within_cap_record (rest_calls st) liability_rest_cost (outstanding st) out'
    now REST_CALL_COST) as (br & Er & Hbr & Hcr); try apply Hst; try done.
  { eapply map_Forall_impl; [exact Hok|]. by intros ?? (_ & _ & ?). }
  { intros t Ht. rewrite Hsum. rewrite (ledger_sum_due_pays _ (outstanding st) g _ now t Hg) by done.
    assert (due liability_rest_cost t (CancelResubmitReplacementOutstanding now) ≤ 1)
      by (unfold due; case_match; done).
    change (liability_rest_cost (CancelResubmitBothOutstanding n)) with 2.
    unfold REST_CALL_COST. lia. }
  exists br. split; [done|]. constructor; simpl; try done; try apply Hst.
  eapply within_cap_weaken; [|apply Hst]. intros t. rewrite Hsum.
  rewrite (ledger_sum_delete _ (outstanding st) g _ Hg).
  assert (due liability_submit_cost t (CancelResubmitReplacementOutstanding now) ≤
          due liability_submit_cost t (CancelResubmitBothOutstanding n)); [|lia].
  unfold due. cbv [liability_now_ms liability_submit_cost]. simpl.
  destruct (Z.leb_spec now t), (Z.leb_spec n t); unfold SUBMIT_COMMAND_COST; lia.
Qed.

(** What the sink boundary leaves of a liability: a cancel+resubmit still owes its
    replacement, everything else is paid in full. *)
Definition settled_liability (l : OutstandingLiability) (now : Z) : option OutstandingLiability :=
  match l with
  | CancelResubmitBothOutstanding _ => Some (CancelResubmitReplacementOutstanding now)
  | OneShot _ | CancelResubmitReplacementOutstanding _ => None
  end.

(** The sink boundary: never panics and keeps the invariant, provided the sink
    clock is not before the clock the reservation was made at. *)
Lemma settle_sink_state_inv st g now :
  pair_inv st → is_u64 now →
  (∀ l, outstanding st !! g = Some l → liability_now_ms l ≤ now) →
  ∃ st', settle_sink_state st g now = Some st' ∧ pair_inv st' ∧
    outstanding st' =
      partial_alter (λ o, l ← o; settled_liability l now) g (outstanding st).
Proof.
  intros Hst Hnow Hclock. unfold settle_sink_state.
  destruct (outstanding st !! g) as [l|] eqn:Hg.
  2: { exists st. split_and!; try done. symmetry. apply partial_alter_id. by rewrite Hg. }
  specialize (Hclock l eq_refl).
  assert (Hdel : settled_liability l now = None →
    delete g (outstanding st) = partial_alter (λ o, l ← o; settled_liability l now) g (outstanding st)).
  { intros Hl. apply partial_alter_ext. intros o Ho. rewrite Hg in Ho. subst o. simpl. by rewrite Hl. }
  destruct l as [[n sc rc]|n|n].
  - destruct (record_liability_inv st g _ now Hst Hg Hnow Hclock) as (st' & E & ? & Hout).
    exists st'. rewrite Hout. split_and!; [done|done|by apply Hdel].
  - destruct (settle_cancel_inv st g n now) as (b' & E & ?); try done.
    simpl. rewrite E. simpl. eexists. split_and!; [done|done|].
    simpl. rewrite insert_delete_eq. apply partial_alter_ext. intros o Ho.
    rewrite Hg in Ho. by subst o.
  - destruct (record_liability_inv st g _ now Hst Hg Hnow Hclock) as (st' & E & ? & Hout).
    exists st'. rewrite Hout. split_and!; [done|done|by apply Hdel].
Qed.

(** ** Generations only move forward *)

Lemma record_balance_next st bal st' :
  record_balance st bal = Some st' →
  next_reservation_generation st' = next_reservation_generation st.
Proof.
  unfold record_balance. destruct (0 <? balance_submit_cost bal); simpl;
    repeat (destruct (record_reserved _ _ _); simpl; [|done]); by intros [= <-].
Qed.

Lemma settle_sink_state_next st g now st' :
  settle_sink_state st g now = Some st' →
  next_reservation_generation st' = next_reservation_generation st.
Proof.
  unfold settle_sink_state. destruct (outstanding st !! g) as [[]|]; simpl.
  - by intros ->%record_balance_next.
  - destruct (record_reserved _ _ _); [|done]. by intros [= <-].
  - by intros ->%record_balance_next.
  - by intros [= <-].
Qed.

(** ** Fresh pairs *)

(** The parameters are [u64]s. *)
Definition budget_params_ok (b : RequoteBudget) : Prop :=
  ∃ max_cost window interval,
    is_u64 max_cost ∧ is_u64 window ∧ b = budget_new max_cost window interval.

Lemma budget_new_wf b : budget_params_ok b → budget_wf b.
Proof.
  intros (m & win & i & Hm & Hw & ->). constructor; simpl; try done; by constructor.
Qed.

Lemma budget_new_within b f : budget_params_ok b → within_cap b f ∅.
Proof.
  intros (m & win & i & Hm & Hw & ->) t _. unfold cost_at, live_emits, ledger_sum. simpl.
  rewrite map_to_list_empty. unfold is_u64 in *. simpl. lia.
Qed.

Lemma pair_new_inv submit rest :
  budget_params_ok submit → budget_params_ok rest → pair_inv (pair_new submit rest).
Proof.
  intros Hs Hr. constructor; simpl; try (by apply budget_new_wf); try (by apply budget_new_within).
  - apply map_Forall_empty.
  - done.
  - apply map_Forall_empty.
Qed.

Lemma window_cost_last b : budget_wf b → cost_at b (last0 b) = window_cost b.
Proof.
  intros Hb. unfold cost_at, live_emits. rewrite filter_Forall_all; [by rewrite wf_cost|].
  eapply Forall_impl; [apply Hb|]. simpl. lia.
Qed.

(** The cap itself, from the invariant at the instant of the last charge. *)
Lemma within_cap_window b f out :
  budget_wf b → map_Forall (λ _ l, 0 ≤ f l) out → within_cap b f out →
  window_cost b ≤ max_cost_per_window b.
Proof.
  intros Hb Hpos Hcap. specialize (Hcap (last0 b) ltac:(lia)). rewrite window_cost_last in Hcap by done.
  assert (0 ≤ ledger_sum (due f (last0 b)) out); [|lia].
  apply ledger_sum_nonneg. eapply map_Forall_impl; [exact Hpos|]. intros. by apply due_nonneg.
Qed.

Lemma pair_inv_caps st :
  pair_inv st →
  window_cost (submit_commands st) ≤ max_cost_per_window (submit_commands st) ∧
  window_cost (rest_calls st) ≤ max_cost_per_window (rest_calls st).
Proof.
  intros Hst. split; (eapply within_cap_window; [| |by apply Hst]);
    [apply Hst|by apply liabilities_submit|apply Hst|by apply liabilities_rest].
Qed.

(** ** The pair's promises *)

(** Reserving is all or nothing.  A grant takes the next generation, records the
    proposed liability under it and nothing else, and keeps both windows within their
    caps with every outstanding liability; a denial changes nothing. *)
Lemma reserve_all_or_nothing st p :
  pair_inv st → liability_ok (proposal_liability p) →
  match reserve_state st p with
  | (Ok g, st') =>
      pair_inv st' ∧ g = next_reservation_generation st + 1 ∧ outstanding st !! g = None ∧
      outstanding st' = <[g := proposal_liability p]> (outstanding st) ∧
      submit_commands st' = submit_commands st ∧ rest_calls st' = rest_calls st
  | (Err _, st') => st' = st
  end.
Proof.
  intros Hst Hp. pose proof (reserve_state_inv st p Hst Hp) as Hinv. unfold reserve_state in *.
  destruct (has_capacity st _ _ _); simpl in *; [|done].
  destruct (u64_checked_add _ 1) as [g|] eqn:Hg; simpl in *; [|done].
  apply u64_checked_add_Some in Hg as [-> _]. split_and!; try done.
  destruct (outstanding st !! _) as [l|] eqn:E; [|done].
  pose proof (inv_fresh st Hst _ _ E). simpl in *. lia.
Qed.

Definition demo_pair : RequoteBudgetPairState := pair_new (budget_new 2 1000 0) (budget_new 3 1000 0).

Lemma demo_pair_inv : pair_inv demo_pair.
Proof. by apply pair_new_inv; [exists 2, 1000, 0|exists 3, 1000, 0]. Qed.

Definition demo_requote : RequoteBudgetReservationProposal :=
  mkReservationProposal (CancelResubmitBothOutstanding 50).

Lemma reserve_all_or_nothing_witness :
  outstanding (reserve_state demo_pair demo_requote).2 !! 1 = Some (CancelResubmitBothOutstanding 50).
Proof.
  pose proof (reserve_all_or_nothing demo_pair demo_requote demo_pair_inv ltac:(done)) as H.
  destruct (reserve_state demo_pair demo_requote) as [[g|e] st'] eqn:E.
  - destruct H as (_ & -> & _ & Hout & _). simpl in Hout |- *. by rewrite Hout.
  - by vm_compute in E.
Defined.

(** The sink boundary never panics.  Whatever reservation is settled, at a clock
    not before the one it was made at, the charge fits: the pair stays within its
    caps, and the ledger keeps only the prepaid replacement of a cancel-resubmit. *)
Lemma sink_settlement_never_panics st g now :
  pair_inv st → is_u64 now →
  (∀ l, outstanding st !! g = Some l → liability_now_ms l ≤ now) →
  ∃ st', settle_sink_state st g now = Some st' ∧ pair_inv st' ∧
    window_cost (submit_commands st') ≤ max_cost_per_window (submit_commands st') ∧
    window_cost (rest_calls st') ≤ max_cost_per_window (rest_calls st') ∧
    outstanding st' =
      partial_alter (λ o, l ← o; settled_liability l now) g (outstanding st).
Proof.
  intros Hst Hnow Hclock. destruct (settle_sink_state_inv st g now) as (st' & E & Hinv & Hout); try done.
  exists st'. destruct (pair_inv_caps st' Hinv). done.
Qed.

Lemma sink_settlement_never_panics_witness :
  ∃ st', settle_sink_state (reserve_state demo_pair demo_requote).2 1 60 = Some st' ∧ pair_inv st'.
Proof.
  destruct (sink_settlement_never_panics (reserve_state demo_pair demo_requote).2 1 60)
    as (st' & E & Hinv & _).
  - apply reserve_state_inv; [apply demo_pair_inv|done].
  - done.
  - intros l Hl. vm_compute in Hl. injection Hl as <-. done.
  - by exists st'.
Defined.

(** A cancel-resubmit is prepaid in full.  Once its reservation was granted, both
    sink crossings, the cancel and later the replacement submit, are charged without
    a denial or a panic, whatever else happened to the ledger in between, and the
    ledger holds nothing of it afterwards. *)
Lemma cancel_resubmit_prepaid st g n now1 :
  pair_inv st → outstanding st !! g = Some (CancelResubmitBothOutstanding n) →
  n ≤ now1 → is_u64 now1 →
  ∃ st1, settle_sink_state st g now1 = Some st1 ∧
    outstanding st1 !! g = Some (CancelResubmitReplacementOutstanding now1) ∧
    ∀ st2 now2, pair_inv st2 → outstanding st2 !! g = outstanding st1 !! g →
      now1 ≤ now2 → is_u64 now2 →
      ∃ st3, settle_sink_state st2 g now2 = Some st3 ∧ pair_inv st3 ∧
        outstanding st3 = delete g (outstanding st2).
Proof.
  intros Hst Hg Hn Hnow. destruct (settle_sink_state_inv st g now1) as (st1 & E & Hinv & Hout); try done.
  { intros l Hl. by simplify_eq. }
  assert (H1 : outstanding st1 !! g = Some (CancelResubmitReplacementOutstanding now1))
    by (by rewrite Hout, lookup_partial_alter_eq, Hg).
  exists st1. split_and!; [done|done|]. intros st2 now2 Hst2 H2 Hle Hnow2. rewrite H1 in H2.
  destruct (settle_sink_state_inv st2 g now2) as (st3 & E3 & Hinv3 & Hout3); try done.
  { intros l Hl. by simplify_eq. }
  exists st3. split_and!; [done|done|]. rewrite Hout3. apply map_eq. intros g'.
  destruct (decide (g' = g)) as [->|?].
  - by rewrite lookup_partial_alter_eq, H2, lookup_delete_eq.
  - by rewrite lookup_partial_alter_ne, lookup_delete_ne.
Qed.

Lemma cancel_resubmit_prepaid_witness :
  ∃ st1, settle_sink_state (reserve_state demo_pair demo_requote).2 1 60 = Some st1 ∧
    outstanding st1 !! 1 = Some (CancelResubmitReplacementOutstanding 60).
Proof.
  destruct (cancel_resubmit_prepaid (reserve_state demo_pair demo_requote).2 1 50 60)
    as (st1 & E & H1 & _); try done.
  - apply reserve_state_inv; [apply demo_pair_inv|done].
  - by exists st1.
Defined.
