(* ===== verification/RequoteWindow.v ===== *)
(** * Requote window: the sliding window against its full history

    [RequoteBudget::try_acquire] keeps a pruned deque and a running cost.  The
    reference limiter [spec_grants] keeps nothing but the list of all grants ever
    made and recomputes the window from it.  On a clock that does not go back the two
    take the same decisions, and over the full history no window of [window_ms]
    holds more than the cap. *)

From Stdlib Require Import ZArith Lia.
From stdpp Require Import sorting strings gmap numbers list.
From S2P Require Import Prelude RequoteBudget RequoteBudgetFacts.

Open Scope Z_scope.

(** ** The reference limiter *)

Abbreviation history := (list (Z * Z)).

(** Cost of the grants in the window that starts [window] before [t]. *)
Definition cost_since (window : Z) (hist : history) (t : Z) : Z :=
  Zsum (filter (λ e, t - window ≤ e.1) hist).*2.

(** Cost of the grants with a timestamp in [lo, hi]. *)
Definition cost_between (hist : history) (lo hi : Z) : Z :=
  Zsum (filter (λ e, lo ≤ e.1 ≤ hi) hist).*2.

Definition last_grant (hist : history) : option Z := fst <$> last hist.

Definition spec_grants (max_cost window interval : Z) (hist : history) (now cost : Z) : bool :=
  bool_decide (cost ≠ 0 ∧ window ≠ 0) &&
  match last_grant hist with
  | None => true
  | Some last => bool_decide (last = now ∨ last < now ∧ interval ≤ now - last)
  end &&
  bool_decide (cost_since window hist now + cost ≤ max_cost).

Fixpoint spec_run (max_cost window interval : Z) (hist : history) (calls : list (Z * Z))
    : list bool * history :=
  match calls with
  | [] => ([], hist)
  | (now, cost) :: calls =>
      let granted := spec_grants max_cost window interval hist now cost in
      let hist' := if granted then hist ++ [(now, cost)] else hist in
      let '(bs, hist'') := spec_run max_cost window interval hist' calls in
      (granted :: bs, hist'')
  end.

(** The code over a sequence of calls. *)
Fixpoint acquire_run (b : RequoteBudget) (calls : list (Z * Z)) : list bool * RequoteBudget :=
  match calls with
  | [] => ([], b)
  | (now, cost) :: calls =>
      let '(granted, b') := try_acquire b now cost in
      let '(bs, b'') := acquire_run b' calls in
      (granted :: bs, b'')
  end.

(** Calls on a clock that does not go back before [clock]. *)
Fixpoint monotone_calls (clock : Z) (calls : list (Z * Z)) : Prop :=
  match calls with
  | [] => True
  | (now, cost) :: calls => clock ≤ now ∧ is_u64 now ∧ 0 ≤ cost ∧ monotone_calls now calls
  end.

(** ** Simulation *)

(** From [clock] on, the pruned deque counts what the full history counts. *)
Record represents (clock : Z) (hist : history) (b : RequoteBudget) : Prop := {
  rep_wf : budget_wf b;
  rep_clock : last0 b ≤ clock;
  rep_last : last_emit_ms b = last_grant hist;
  rep_live : ∀ t, clock ≤ t → live_emits b t = filter (λ e, t - window_ms b ≤ e.1) hist;
  rep_before : Forall (λ e, e.1 ≤ clock ∧ 0 ≤ e.2) hist;
}.

Lemma represents_new max_cost window interval :
  is_u64 max_cost → is_u64 window → represents 0 [] (budget_new max_cost window interval).
Proof.
  intros. constructor; try done. constructor; simpl; try done; by constructor.
Qed.

Lemma represents_cost clock hist b t :
  represents clock hist b → clock ≤ t → cost_at b t = cost_since (window_ms b) hist t.
Proof. intros Hr Ht. unfold cost_at, cost_since. by rewrite (rep_live _ _ _ Hr) by done. Qed.

(** A denied call may prune the deque, which no later instant notices. *)
Lemma represents_evict clock hist b now :
  represents clock hist b → clock ≤ now → represents now hist (evict b now).
Proof.
  intros [Hb Hc Hl Hv Hf] Hn. rewrite evict_spec by done. constructor; simpl; try done.
  - constructor; simpl; try apply Hb.
    + by apply StronglySorted_filter, Hb.
    + apply Forall_forall. intros e [_ He]%list_elem_of_filter.
      pose proof (wf_emits b Hb) as Hes. rewrite Forall_forall in Hes. by apply Hes.
    + done.
    + pose proof (cost_at_nonneg b now Hb). pose proof (cost_at_le b now Hb).
      pose proof (wf_bound b Hb). unfold is_u64 in *. lia.
  - unfold last0 in *. simpl. lia.
  - intros t Ht. rewrite live_emits_evict by done. apply Hv. lia.
  - eapply Forall_impl; [exact Hf|]. simpl. lia.
Qed.

Lemma represents_weaken clock clock' hist b :
  represents clock hist b → clock ≤ clock' → represents clock' hist b.
Proof.
  intros [Hb Hc Hl Hv Hf] Hle. constructor; try done; [lia|intros t Ht; apply Hv; lia|].
  eapply Forall_impl; [exact Hf|]. simpl. lia.
Qed.

Lemma last_grant_snoc hist now cost : last_grant (hist ++ [(now, cost)]) = Some now.
Proof. unfold last_grant. by rewrite last_snoc. Qed.

Lemma represents_grant clock hist b now cost b' :
  represents clock hist b → clock ≤ now → is_u64 now → 0 ≤ cost →
  try_acquire b now cost = (true, b') → represents now (hist ++ [(now, cost)]) b'.
Proof.
  intros Hr Hn Hu Hc Ht. pose proof (rep_wf _ _ _ Hr) as Hb. pose proof (wf_max b Hb) as Hmax.
  apply try_acquire_true in Ht as (_ & Hlast & Hfit & _ & ->); [|done|done].
  pose proof (push_emit_wf b now cost Hb Hlast Hu Hc) as Hwf.
  constructor; simpl; try done.
  - apply Hwf. unfold is_u64 in *. lia.
  - by rewrite last_grant_snoc.
  - intros t Ht. rewrite evict_spec by done. unfold live_emits. simpl.
    rewrite !filter_app, list_filter_filter_l by lia. f_equal.
    apply (rep_live _ _ _ Hr). lia.
  - apply Forall_app. split; [|by constructor].
    eapply Forall_impl; [apply (rep_before _ _ _ Hr)|]. simpl. lia.
Qed.

(** The decision of the code, computed from the whole history. *)
Lemma try_acquire_decides clock hist b now cost :
  represents clock hist b → clock ≤ now → is_u64 now → 0 ≤ cost →
  (try_acquire b now cost).1 =
    spec_grants (max_cost_per_window b) (window_ms b) (min_interval_ms b) hist now cost.
Proof.
  intros Hr Hn Hu Hc. pose proof (rep_wf _ _ _ Hr) as Hb. pose proof (rep_clock _ _ _ Hr) as Hl.
  pose proof (wf_max b Hb) as Hmax. unfold try_acquire, spec_grants.
  rewrite <- (rep_last _ _ _ Hr), <- (represents_cost _ _ _ _ Hr Hn).
  rewrite evict_spec by done. unfold last0 in Hl.
  destruct (Z.eqb_spec cost 0); [by rewrite bool_decide_false by (by intros [])|].
  destruct (Z.eqb_spec (window_ms b) 0); [by rewrite bool_decide_false by (by intros [])|].
  rewrite (bool_decide_true (cost ≠ 0 ∧ _)) by done. simpl.
  assert (Hcap : (match u64_checked_add (cost_at b now) cost with
      | Some next_cost => negb (max_cost_per_window b <? next_cost) | None => false end) =
      bool_decide (cost_at b now + cost ≤ max_cost_per_window b)).
  { unfold is_u64, u64_checked_add in *. symmetry.
    destruct (Z.leb_spec (cost_at b now + cost) u64_max); [|by rewrite bool_decide_false by lia].
    destruct (Z.ltb_spec (max_cost_per_window b) (cost_at b now + cost)); simpl.
    - by rewrite bool_decide_false by lia.
    - by rewrite bool_decide_true by lia. }
  rewrite <- Hcap. destruct (last_emit_ms b) as [last|]; simpl in *.
  - destruct (Z.ltb_spec now last); [lia|].
    destruct (Z.ltb_spec last now), (Z.ltb_spec (now - last) (min_interval_ms b)); simpl.
    1: by rewrite bool_decide_false by lia.
    all: rewrite bool_decide_true by lia.
    all: destruct (u64_checked_add _ _); [|done]; by destruct (_ <? _).
  - destruct (u64_checked_add _ _); [|done]. by destruct (_ <? _).
Qed.

(** A denied call leaves the budget as it was or prunes it. *)
Lemma try_acquire_denied b now cost :
  (try_acquire b now cost).1 = false →
  (try_acquire b now cost).2 = b ∨ (try_acquire b now cost).2 = evict b now.
Proof. unfold try_acquire. repeat case_match; simpl; auto; done. Qed.

Lemma evict_params b now :
  max_cost_per_window (evict b now) = max_cost_per_window b ∧
  window_ms (evict b now) = window_ms b ∧ min_interval_ms (evict b now) = min_interval_ms b.
Proof. unfold evict. case_match; [done|]. by destruct (evict_loop _ _ _). Qed.

Lemma try_acquire_params b now cost :
  max_cost_per_window (try_acquire b now cost).2 = max_cost_per_window b ∧
  window_ms (try_acquire b now cost).2 = window_ms b ∧
  min_interval_ms (try_acquire b now cost).2 = min_interval_ms b.
Proof.
  pose proof (evict_params b now) as Hp. unfold try_acquire. repeat case_match; simpl; done.
Qed.

Lemma acquire_run_simulates calls clock hist b :
  represents clock hist b → monotone_calls clock calls →
  let spec := spec_run (max_cost_per_window b) (window_ms b) (min_interval_ms b) hist calls in
  (acquire_run b calls).1 = spec.1 ∧ ∃ clock', represents clock' spec.2 (acquire_run b calls).2.
Proof.
  revert clock hist b. induction calls as [|[now cost] calls IH]; intros clock hist b Hr Hm; simpl.
  - split; [done|]. by exists clock.
  - destruct Hm as (Hn & Hu & Hc & Hm).
    pose proof (try_acquire_decides _ _ _ _ _ Hr Hn Hu Hc) as Hdec.
    pose proof (try_acquire_params b now cost) as (Hmax & Hwin & Hint).
    pose proof (try_acquire_denied b now cost) as Hden.
    destruct (try_acquire b now cost) as [granted b'] eqn:Et. simpl in *. rewrite <- Hdec.
    assert (Hr' : represents now (if granted then hist ++ [(now, cost)] else hist) b').
    { destruct granted; [by eapply represents_grant|].
      destruct (Hden eq_refl) as [-> | ->]; [by eapply represents_weaken|by eapply represents_evict]. }
    specialize (IH now _ b' Hr' Hm). rewrite Hmax, Hwin, Hint in IH.
    destruct (acquire_run b' calls) as [bs b'']. destruct (spec_run _ _ _ _ calls) as [bs' hist'].
    simpl in *. destruct IH as [-> IH]. done.
Qed.

(** ** The window property of the reference *)

Definition window_bounded (max_cost window : Z) (hist : history) : Prop :=
  ∀ t, cost_between hist (t - window) t ≤ max_cost.

Lemma filter_window_snoc hist lo hi now cost :
  cost_between (hist ++ [(now, cost)]) lo hi =
    cost_between hist lo hi + (if decide (lo ≤ now ≤ hi) then cost else 0).
Proof.
  unfold cost_between. rewrite filter_app, fmap_app, Zsum_app. f_equal.
  rewrite filter_cons. repeat case_decide; csimpl in *; first [done|lia].
Qed.

Lemma cost_between_since window hist lo now :
  Forall (λ e, e.1 ≤ now ∧ 0 ≤ e.2) hist → now - window ≤ lo →
  ∀ hi, cost_between hist lo hi ≤ cost_since window hist now.
Proof.
  intros Hf Hlo hi. unfold cost_between, cost_since.
  induction Hf as [|e hist [He1 He2] Hf IH]; [done|]. rewrite !filter_cons.
  repeat case_decide; csimpl in *; lia.
Qed.

Lemma spec_grants_bounded max_cost window interval hist now cost :
  Forall (λ e, e.1 ≤ now ∧ 0 ≤ e.2) hist → window_bounded max_cost window hist →
  spec_grants max_cost window interval hist now cost = true →
  window_bounded max_cost window (hist ++ [(now, cost)]).
Proof.
  intros Hf Hb Hg t. rewrite filter_window_snoc. specialize (Hb t).
  apply andb_true_iff in Hg as [_ Hg]. apply bool_decide_eq_true_1 in Hg.
  case_decide; [|lia]. pose proof (cost_between_since window hist (t - window) now Hf ltac:(lia) t).
  lia.
Qed.

Lemma spec_run_bounded max_cost window interval calls clock hist :
  Forall (λ e, e.1 ≤ clock ∧ 0 ≤ e.2) hist → monotone_calls clock calls →
  window_bounded max_cost window hist →
  window_bounded max_cost window (spec_run max_cost window interval hist calls).2.
Proof.
  revert clock hist. induction calls as [|[now cost] calls IH]; intros clock hist Hf Hm Hb; [done|].
  destruct Hm as (Hn & Hu & Hc & Hm). simpl.
  assert (Hf' : Forall (λ e, e.1 ≤ now ∧ 0 ≤ e.2) hist)
    by (eapply Forall_impl; [exact Hf|]; simpl; lia).
  destruct (spec_grants max_cost window interval hist now cost) eqn:Hg.
  - pose proof (spec_grants_bounded _ _ _ _ _ _ Hf' Hb Hg) as Hb'.
    specialize (IH now (hist ++ [(now, cost)])).
    destruct (spec_run _ _ _ (hist ++ _) calls) as [bs h2]. simpl in *. apply IH; try done.
    apply Forall_app. split; [done|]. by constructor.
  - specialize (IH now hist). destruct (spec_run _ _ _ hist calls) as [bs h2]. by apply IH.
Qed.

(** ** Spacing of grants *)

(** Consecutive grants share a tick or are at least [interval] apart. *)
Definition spaced (interval : Z) (hist : history) : Prop :=
  ∀ i e e', hist !! i = Some e → hist !! S i = Some e' →
    e.1 = e'.1 ∨ interval ≤ e'.1 - e.1.

Lemma spaced_snoc interval hist now cost :
  spaced interval hist →
  (∀ last, last_grant hist = Some last → last = now ∨ interval ≤ now - last) →
  spaced interval (hist ++ [(now, cost)]).
Proof.
  intros Hs Hl i e e' He He'. destruct (decide (S i < length hist)%nat) as [Hlt|Hge].
  - rewrite lookup_app_l in He by lia. rewrite lookup_app_l in He' by lia. by eapply Hs.
  - pose proof (lookup_lt_Some _ _ _ He') as Hlen. rewrite length_app in Hlen. simpl in Hlen.
    assert (S i = length hist) as Hi by lia.
    rewrite lookup_app_r, Hi, Nat.sub_diag in He' by lia. injection He' as <-.
    rewrite lookup_app_l in He by lia. apply Hl. unfold last_grant.
    rewrite last_lookup, <- Hi. simpl. by rewrite He.
Qed.

Lemma spec_run_spaced max_cost window interval calls hist :
  spaced interval hist → spaced interval (spec_run max_cost window interval hist calls).2.
Proof.
  revert hist. induction calls as [|[now cost] calls IH]; intros hist Hs; [done|]. simpl.
  destruct (spec_grants max_cost window interval hist now cost) eqn:Hg.
  - specialize (IH (hist ++ [(now, cost)])).
    destruct (spec_run _ _ _ (hist ++ _) calls) as [bs h2]. apply IH, spaced_snoc; [done|].
    intros last Hlast. unfold spec_grants in Hg. rewrite Hlast in Hg.
    apply andb_true_iff in Hg as [Hg _]. apply andb_true_iff in Hg as [_ Hg].
    apply bool_decide_eq_true_1 in Hg. lia.
  - specialize (IH hist). destruct (spec_run _ _ _ hist calls) as [bs h2]. by apply IH.
Qed.

(** The calls a run granted. *)
Fixpoint granted_calls (bs : list bool) (calls : list (Z * Z)) : history :=
  match bs, calls with
  | true :: bs, call :: calls => call :: granted_calls bs calls
  | false :: bs, _ :: calls => granted_calls bs calls
  | _, _ => []
  end.

Lemma spec_run_granted max_cost window interval calls hist :
  let spec := spec_run max_cost window interval hist calls in
  spec.2 = hist ++ granted_calls spec.1 calls.
Proof.
  revert hist. induction calls as [|[now cost] calls IH]; intros hist; simpl; [by rewrite app_nil_r|].
  destruct (spec_grants max_cost window interval hist now cost).
  - specialize (IH (hist ++ [(now, cost)])).
    destruct (spec_run _ _ _ (hist ++ _) calls) as [bs h2]. simpl in *. by rewrite IH, <- app_assoc.
  - specialize (IH hist). by destruct (spec_run _ _ _ hist calls) as [bs h2].
Qed.

Section Runs.
Context (max_cost window interval : Z) (calls : list (Z * Z)).
Context (Hmax : is_u64 max_cost) (Hwindow : is_u64 window) (Hcalls : monotone_calls 0 calls).

Let decisions := (acquire_run (budget_new max_cost window interval) calls).1.

Lemma acquire_run_decisions : decisions = (spec_run max_cost window interval [] calls).1.
Proof.
  by apply (acquire_run_simulates calls 0 [] (budget_new max_cost window interval));
    [apply represents_new|].
Qed.

Lemma acquire_run_granted :
  granted_calls decisions calls = (spec_run max_cost window interval [] calls).2.
Proof. rewrite acquire_run_decisions. symmetry. apply spec_run_granted. Qed.

End Runs.

(** C19: on a clock that does not go back, the pruned deque with its running cost takes
    on every call the decision of the reference limiter that recomputes the window
    from the full list of grants. *)
Theorem try_acquire_refines_history max_cost window interval calls :
  is_u64 max_cost → is_u64 window → monotone_calls 0 calls →
  (acquire_run (budget_new max_cost window interval) calls).1 =
    (spec_run max_cost window interval [] calls).1.
Proof. intros. by apply acquire_run_decisions. Qed.

Lemma try_acquire_refines_history_witness :
  (acquire_run (budget_new 2 10 3) [(0, 1); (2, 1); (4, 1); (5, 1); (11, 1)]).1 =
    [true; false; true; false; true].
Proof.
  rewrite (try_acquire_refines_history 2 10 3); [by vm_compute|done|done|].
  repeat split; done.
Defined.

(** C17: over the full history of a run, every closed window of [window] milliseconds
    holds grants of total cost at most the cap. *)
Theorem window_cap_never_exceeded max_cost window interval calls :
  is_u64 max_cost → is_u64 window → monotone_calls 0 calls →
  let decisions := (acquire_run (budget_new max_cost window interval) calls).1 in
  ∀ t, cost_between (granted_calls decisions calls) (t - window) t ≤ max_cost.
Proof.
  intros Hm Hw Hc decisions. unfold decisions. rewrite acquire_run_granted by done.
  apply (spec_run_bounded _ _ _ _ 0); [by constructor|done|].
  intros t. unfold cost_between. simpl. unfold is_u64 in Hm. lia.
Qed.

Lemma window_cap_never_exceeded_witness :
  cost_between [(0, 1); (4, 1); (11, 1)] (14 - 10) 14 ≤ 2.
Proof.
  apply (window_cap_never_exceeded 2 10 3 [(0, 1); (2, 1); (4, 1); (5, 1); (11, 1)]);
    repeat split; done.
Defined.

(** Two consecutive grants share a tick or are at least the minimum interval
    apart. *)
Lemma grants_respect_min_interval max_cost window interval calls :
  is_u64 max_cost → is_u64 window → monotone_calls 0 calls →
  spaced interval
    (granted_calls (acquire_run (budget_new max_cost window interval) calls).1 calls).
Proof.
  intros Hm Hw Hc. rewrite acquire_run_granted by done. apply spec_run_spaced. by intros i e e' He.
Qed.

Lemma grants_respect_min_interval_witness : spaced 3 [(0, 1); (4, 1); (11, 1)].
Proof.
  apply (grants_respect_min_interval 2 10 3 [(0, 1); (2, 1); (4, 1); (5, 1); (11, 1)]);
    repeat split; done.
Defined.

(** Without the clock hypothesis the window does leak: a denied call on a clock that
    ran ahead evicts charges that a later call on the true clock should still count. *)
Example denied_call_evicts :
  (acquire_run (budget_new 1 10 0) [(0, 1); (100, 2); (5, 1)]).1 = [true; false; true].
Proof. reflexivity. Qed.
