(* ===== verification/BudgetTokens.v ===== *)
(** * Reservation tokens over the shared heap of budget pairs

    The token operations of [src/src/bolt_v3_requote_budget.rs]
    ([reserve], [settle_prepared_sink_invocation], [commit], [abort], [Drop]) as
    total, frame-respecting steps on the heap: each runs without a panic, keeps
    every pair within its caps, and touches one ledger entry only.  The quote
    lifecycle is verified against these specifications. *)

From Stdlib Require Import ZArith Lia.
From stdpp Require Import sorting strings gmap numbers list.
From S2P Require Import Prelude RequoteBudget RequoteBudgetFacts.

Open Scope Z_scope.

(** ** Ledger entries across the heap *)

Definition entry_key : Type := loc * Z.

Definition token_key (r : RequoteBudgetReservation) : entry_key :=
  (pair_loc (reservation_budget r), reservation_generation r).

Definition ledger_entry (h : budget_heap) (k : entry_key) : option OutstandingLiability :=
  st ← h !! k.1; outstanding st !! k.2.

Definition heap_ok (h : budget_heap) : Prop := map_Forall (λ _ st, pair_inv st) h.

(** The generation counter of a pair is below [k]: no token of [k] exists yet. *)
Definition fresh_key (h : budget_heap) (k : entry_key) : Prop :=
  ∀ st, h !! k.1 = Some st → next_reservation_generation st < k.2.

(** The pairs stay allocated and their generation counters do not go back. *)
Definition heap_grows (h h' : budget_heap) : Prop :=
  ∀ l st, h !! l = Some st → ∃ st', h' !! l = Some st' ∧
    next_reservation_generation st ≤ next_reservation_generation st'.

(** A token refers to an allocated pair that has issued its generation; once its
    sink was invoked, the recorded clock is not before the clock of the liability
    it still holds. *)
Definition token_ok (h : budget_heap) (r : RequoteBudgetReservation) : Prop :=
  (∃ st, h !! pair_loc (reservation_budget r) = Some st ∧
     reservation_generation r ≤ next_reservation_generation st) ∧
  match reservation_phase r with
  | Refundable => True
  | SinkInvoked now =>
      is_u64 now ∧ ∀ l, ledger_entry h (token_key r) = Some l → liability_now_ms l ≤ now
  end.

Lemma heap_grows_refl h : heap_grows h h.
Proof. intros l st Hl. by exists st. Qed.

Lemma heap_grows_trans h1 h2 h3 : heap_grows h1 h2 → heap_grows h2 h3 → heap_grows h1 h3.
Proof.
  intros H12 H23 l st1 H1. destruct (H12 l st1 H1) as (st2 & H2 & ?).
  destruct (H23 l st2 H2) as (st3 & H3 & ?). exists st3. split; [done|lia].
Qed.

Lemma token_ok_not_fresh h r : token_ok h r → ¬ fresh_key h (token_key r).
Proof. intros [(st & Hl & Hg) _] Hf. specialize (Hf st Hl). simpl in Hf. lia. Qed.

Lemma fresh_key_entry h k : heap_ok h → fresh_key h k → ledger_entry h k = None.
Proof.
  intros Hh Hf. unfold ledger_entry. destruct (h !! k.1) as [st|] eqn:Hl; [|done]. simpl.
  destruct (outstanding st !! k.2) as [l|] eqn:Hg; [|done].
  pose proof (inv_fresh st (Hh _ _ Hl) _ _ Hg). specialize (Hf st Hl). simpl in *. lia.
Qed.

Lemma fresh_key_grows h h' k : heap_grows h h' → fresh_key h' k → fresh_key h k.
Proof. intros Hg Hf st Hl. destruct (Hg _ _ Hl) as (st' & Hl' & ?). specialize (Hf st' Hl'). lia. Qed.

(** Only the entry [k] may differ; the pairs stay within their caps. *)
Record only_entry (k : entry_key) (h h' : budget_heap) : Prop := {
  only_ok : heap_ok h';
  only_grows : heap_grows h h';
  only_frame : ∀ k', k' ≠ k → ledger_entry h' k' = ledger_entry h k';
}.

Lemma only_entry_refl k h : heap_ok h → only_entry k h h.
Proof. intros. constructor; [done|apply heap_grows_refl|done]. Qed.

Lemma only_entry_trans k h1 h2 h3 :
  only_entry k h1 h2 → only_entry k h2 h3 → only_entry k h1 h3.
Proof.
  intros [? A1 F1] [? A2 F2]. constructor; [done|by eapply heap_grows_trans|].
  intros k' Hk. by rewrite F2, F1.
Qed.

(** Operating on the pair at [l]: enough to look at the pair state. *)
Lemma lock_pair_runs {A} pair (f : RequoteBudgetPairState → option (A * RequoteBudgetPairState))
    g h (Q : A → budget_heap → Prop) :
  heap_ok h → is_Some (h !! pair_loc pair) →
  (∀ st, h !! pair_loc pair = Some st → pair_inv st →
    ∃ a st', f st = Some (a, st') ∧ pair_inv st' ∧
      next_reservation_generation st ≤ next_reservation_generation st' ∧
      (∀ g', g' ≠ g → outstanding st' !! g' = outstanding st !! g') ∧
      (only_entry (pair_loc pair, g) h (<[pair_loc pair := st']> h) →
       ledger_entry (<[pair_loc pair := st']> h) (pair_loc pair, g) = outstanding st' !! g →
       ledger_entry h (pair_loc pair, g) = outstanding st !! g →
       Q a (<[pair_loc pair := st']> h))) →
  runs (lock_pair pair f) h Q.
Proof.
  intros Hh [st Hst] Hf.
  destruct (Hf st Hst (Hh _ _ Hst)) as (a & st' & Ef & Hinv & Hnext & Hfr & HQ).
  exists a, (<[pair_loc pair := st']> h). unfold lock_pair. rewrite Hst, Ef. split; [done|].
  apply HQ.
  - constructor.
    + by apply map_Forall_insert_2.
    + intros l stl Hl. destruct (decide (l = pair_loc pair)) as [->|?].
      * rewrite lookup_insert_eq. exists st'. by simplify_eq.
      * rewrite lookup_insert_ne by done. by exists stl.
    + intros [l g'] Hk. unfold ledger_entry. simpl.
      destruct (decide (l = pair_loc pair)) as [->|?].
      * rewrite lookup_insert_eq, Hst. simpl. apply Hfr. congruence.
      * by rewrite lookup_insert_ne.
  - unfold ledger_entry. simpl. by rewrite lookup_insert_eq.
  - unfold ledger_entry. simpl. by rewrite Hst.
Qed.

(** ** Specifications of the token operations *)

Lemma token_refundable_ok h h' r :
  only_entry (token_key r) h h' → token_ok h r → token_ok h' (set_phase r Refundable).
Proof.
  intros [_ Hg _] [(st & Hl & ?) _]. split; [|done].
  destruct (Hg _ _ Hl) as (st' & ? & ?). exists st'. split; [done|]. simpl. lia.
Qed.

Lemma token_ok_alloc h r : token_ok h r → is_Some (h !! pair_loc (reservation_budget r)).
Proof. intros [(st & Hl & _) _]. by exists st. Qed.

Lemma settle_prepared_runs h r :
  heap_ok h → token_ok h r →
  runs (settle_prepared_sink_invocation r) h (λ r' h',
    r' = set_phase r Refundable ∧ only_entry (token_key r) h h' ∧
    ledger_entry h' (token_key r) =
      match reservation_phase r with
      | Refundable => ledger_entry h (token_key r)
      | SinkInvoked now => l ← ledger_entry h (token_key r); settled_liability l now
      end).
Proof.
  intros Hh Hr. pose proof (token_ok_alloc h r Hr) as Hl. destruct Hr as [_ Hp].
  unfold settle_prepared_sink_invocation.
  destruct (reservation_phase r) as [|now] eqn:Hphase.
  { apply runs_ret. split_and!; [by destruct r; simpl in *; subst|by apply only_entry_refl|done]. }
  destruct Hp as [Hnow Hclock]. apply (lock_pair_runs _ _ (reservation_generation r)); try done.
  intros st Hst Hinv. assert (Hent : ledger_entry h (token_key r) = outstanding st !! reservation_generation r).
  { unfold ledger_entry, token_key. simpl. by rewrite Hst. }
  destruct (settle_sink_state_inv st (reservation_generation r) now) as (st' & E & Hinv' & Hout); try done.
  { intros l. rewrite <- Hent. apply Hclock. }
  exists (set_phase r Refundable), st'. rewrite E. split_and!; try done.
  - by rewrite (settle_sink_state_next _ _ _ _ E).
  - intros g' Hg'. by rewrite Hout, lookup_partial_alter_ne.
  - intros Honly He' He. split_and!; [done|done|].
    fold (token_key r) in He, He'. by rewrite He', He, Hout, lookup_partial_alter_eq.
Qed.

Lemma remove_outstanding_runs h r :
  heap_ok h → is_Some (h !! pair_loc (reservation_budget r)) →
  runs (remove_outstanding r) h (λ o h',
    o = ledger_entry h (token_key r) ∧ only_entry (token_key r) h h' ∧
    ledger_entry h' (token_key r) = None).
Proof.
  intros Hh Hl. apply (lock_pair_runs _ _ (reservation_generation r)); try done.
  intros st Hst Hinv. eexists _, _. split_and!; [done|by apply delete_outstanding_inv|done| |].
  - intros g' Hg'. simpl. by rewrite lookup_delete_ne.
  - intros Honly He' He. fold (token_key r) in He, He', Honly. rewrite He', He. simpl.
    by rewrite lookup_delete_eq.
Qed.

(** [Drop]: the entry is gone, nothing else changed. *)
Lemma reservation_drop_runs h r :
  heap_ok h → token_ok h r →
  runs (reservation_drop r) h (λ _ h',
    only_entry (token_key r) h h' ∧ ledger_entry h' (token_key r) = None).
Proof.
  intros Hh Hr. apply runs_bind. eapply runs_mono; [by apply settle_prepared_runs|].
  intros r' h1 (-> & H1 & _). apply runs_bind.
  eapply runs_mono; [apply remove_outstanding_runs; [apply H1|by eapply token_ok_alloc, token_refundable_ok]|].
  intros o h2 (_ & H2 & Hnone). apply runs_ret. split; [|done].
  by eapply only_entry_trans.
Qed.

Lemma reservation_commit_runs h r :
  heap_ok h → token_ok h r →
  runs (commit r) h (λ res h',
    res = Ok tt ∧ only_entry (token_key r) h h' ∧ ledger_entry h' (token_key r) = None).
Proof.
  intros Hh Hr. apply runs_bind, runs_bind. eapply runs_mono; [by apply settle_prepared_runs|].
  intros r' h1 (-> & H1 & _). pose proof (token_refundable_ok _ _ _ H1 Hr) as Hr1. apply runs_bind.
  eapply (runs_mono _ _ (λ res h2, res = Ok tt ∧ only_entry (token_key r) h1 h2)).
  { apply (lock_pair_runs _ _ (reservation_generation r)); [apply H1|by eapply token_ok_alloc|].
    intros st Hst Hinv. simpl. destruct (outstanding st !! reservation_generation r) as [l|] eqn:Hg.
    - destruct (record_liability_inv st (reservation_generation r) l (liability_now_ms l))
        as (st' & E & Hinv' & Hout); try done; [apply (inv_liabilities st Hinv _ _ Hg)|].
      assert (Hbal : mkLiabilityBalance (liability_now_ms l) (liability_submit_cost l)
                (liability_rest_cost l) = liability_balance l)
        by (unfold liability_now_ms, liability_submit_cost, liability_rest_cost; by destruct (liability_balance l)).
      rewrite Hbal in E. rewrite E. eexists _, _. split_and!; [done|done| | |done].
      { rewrite (record_balance_next _ _ _ E). done. }
      intros g' Hg'. by rewrite Hout, lookup_delete_ne.
    - by eexists _, _. }
  intros res h2 [-> H2]. apply runs_ret. simpl. apply runs_bind.
  eapply runs_mono.
  { apply reservation_drop_runs; [apply H2|]. eapply token_refundable_ok; [|exact Hr].
    by eapply only_entry_trans. }
  intros [] h3 [H3 Hnone]. apply runs_ret. split_and!; [done| |done].
  eapply only_entry_trans; [|exact H3]. by eapply only_entry_trans.
Qed.

Definition abort_result (phase : RequoteBudgetReservationPhase) (held : option OutstandingLiability)
    : Result unit RequoteBudgetReservationDenied :=
  match phase, held with
  | Refundable, None => Err StaleReservation
  | _, _ => Ok tt
  end.

Lemma reservation_abort_runs h r :
  heap_ok h → token_ok h r →
  runs (abort r) h (λ res h',
    res = abort_result (reservation_phase r) (ledger_entry h (token_key r)) ∧
    only_entry (token_key r) h h' ∧ ledger_entry h' (token_key r) = None).
Proof.
  intros Hh Hr. apply runs_bind.
  eapply (runs_mono _ _ (λ p h1,
    p = (abort_result (reservation_phase r) (ledger_entry h (token_key r)), set_phase r Refundable) ∧
    only_entry (token_key r) h h1)).
  { unfold settle_aborted. destruct (reservation_phase r) as [|now] eqn:Hp.
    - apply runs_bind. eapply runs_mono; [by apply remove_outstanding_runs; [|apply token_ok_alloc]|].
      intros o h1 (-> & H1 & _). apply runs_ret. split; [|done].
      assert (set_phase r Refundable = r) as -> by (by destruct r; simpl in *; subst).
      by destruct (ledger_entry h (token_key r)).
    - apply runs_bind. eapply runs_mono; [by apply settle_prepared_runs|].
      intros r' h1 (-> & H1 & _). apply runs_bind.
      eapply runs_mono; [apply remove_outstanding_runs; [apply H1|by eapply token_ok_alloc, token_refundable_ok]|].
      intros o h2 (_ & H2 & _). apply runs_ret. split; [done|]. by eapply only_entry_trans. }
  intros p h1 [-> H1]. simpl. apply runs_bind.
  eapply runs_mono; [apply reservation_drop_runs; [apply H1|by eapply token_refundable_ok]|].
  intros [] h2 [H2 Hnone]. apply runs_ret. split_and!; [done| |done]. by eapply only_entry_trans.
Qed.

(** [reserve]: a fresh entry for the new token, or no change at all. *)
Lemma reserve_runs h pair p :
  heap_ok h → is_Some (h !! pair_loc pair) → liability_ok (proposal_liability p) →
  runs (reserve pair p) h (λ res h',
    match res with
    | Ok r => reservation_budget r = pair ∧ reservation_phase r = Refundable ∧
        fresh_key h (token_key r) ∧ only_entry (token_key r) h h' ∧
        ledger_entry h' (token_key r) = Some (proposal_liability p) ∧ token_ok h' r
    | Err _ => h' = h
    end).
Proof.
  intros Hh [st Hst] Hp. pose proof (Hh _ _ Hst) as Hinv. simpl in Hinv.
  pose proof (reserve_state_inv st p Hinv Hp) as Hinv'.
  destruct (reserve_state st p) as [res st'] eqn:Eres.
  destruct res as [g|e]; simpl in *.
  2: { exists (Err e), h. unfold reserve, lock_pair. rewrite Hst, Eres. split; [|done].
       unfold reserve_state in Eres. repeat case_match; simplify_eq; by rewrite insert_id. }
  assert (Hg : next_reservation_generation st < g ∧ next_reservation_generation st' = g ∧
            outstanding st' = <[g := proposal_liability p]> (outstanding st)).
  { unfold reserve_state in Eres. repeat case_match; simplify_eq. split; [|done].
    match goal with H : u64_checked_add _ _ = Some _ |- _ => apply u64_checked_add_Some in H as [-> _] end.
    lia. }
  destruct Hg as (Hlt & Hnext & Hout). apply (lock_pair_runs _ _ g); [done|by exists st|].
  intros st0 Hst0 _. assert (st0 = st) as -> by congruence. rewrite Eres.
  eexists _, _. split_and!; [done|done|lia| |].
  - intros g' Hg'. by rewrite Hout, lookup_insert_ne.
  - intros Honly He' He. unfold token_key. simpl. rewrite He', Hout, lookup_insert_eq.
    split_and!; try done.
    + intros st1. simpl. rewrite Hst. by intros [= <-].
    + split; [|done]. simpl. rewrite lookup_insert_eq. exists st'. split; [done|lia].
Qed.

(** ** Token accounting

    [moves ts h ts' h']: the code owned the tokens [ts] in heap [h] and owns [ts']
    in [h'].  Entries of tokens it never owned are untouched, a token it gave up
    left no entry behind, and a token it gained is of a new generation. *)

Definition keys (ts : list RequoteBudgetReservation) : list entry_key := token_key <$> ts.

Record moves (ts : list RequoteBudgetReservation) (h : budget_heap)
    (ts' : list RequoteBudgetReservation) (h' : budget_heap) : Prop := {
  moves_ok : heap_ok h';
  moves_grows : heap_grows h h';
  moves_tokens : Forall (token_ok h') ts';
  moves_frame : ∀ k, k ∉ keys ts → k ∉ keys ts' → ledger_entry h' k = ledger_entry h k;
  moves_gone : ∀ k, k ∈ keys ts → k ∉ keys ts' → ledger_entry h' k = None;
  moves_fresh : ∀ k, k ∈ keys ts' → k ∈ keys ts ∨ fresh_key h k;
}.

Lemma moves_refl ts h : heap_ok h → Forall (token_ok h) ts → moves ts h ts h.
Proof. intros. constructor; try done; [apply heap_grows_refl|by left]. Qed.

Lemma moves_trans ts1 h1 ts2 h2 ts3 h3 :
  heap_ok h1 → moves ts1 h1 ts2 h2 → moves ts2 h2 ts3 h3 → moves ts1 h1 ts3 h3.
Proof.
  intros Hh [_ G1 _ F1 N1 R1] [H3 G2 T2 F2 N2 R2].
  constructor; [done|by eapply heap_grows_trans|done| | |].
  - intros k Hk1 Hk3. destruct (decide (k ∈ keys ts2)) as [Hk2|Hk2].
    + rewrite N2 by done. destruct (R1 k Hk2) as [?|Hf]; [done|].
      by rewrite (fresh_key_entry h1 k).
    + by rewrite F2, F1.
  - intros k Hk1 Hk3. destruct (decide (k ∈ keys ts2)) as [Hk2|Hk2]; [by apply N2|].
    rewrite F2 by done. by apply N1.
  - intros k Hk3. destruct (R2 k Hk3) as [Hk2|Hf]; [by apply R1|].
    right. by eapply fresh_key_grows.
Qed.

Lemma token_ok_unframed h h' r :
  heap_grows h h' → ledger_entry h' (token_key r) = ledger_entry h (token_key r) →
  token_ok h r → token_ok h' r.
Proof.
  intros Hg He [(st & Hl & ?) Hp]. destruct (Hg _ _ Hl) as (st' & ? & ?). split.
  - exists st'. split; [done|lia].
  - destruct (reservation_phase r); [done|]. by rewrite He.
Qed.

(** Tokens held elsewhere survive a move. *)
Lemma moves_unframed ts h ts' h' r :
  moves ts h ts' h' → token_ok h r → token_key r ∉ keys ts →
  token_key r ∉ keys ts' ∧ ledger_entry h' (token_key r) = ledger_entry h (token_key r) ∧
  token_ok h' r.
Proof.
  intros [_ Hg _ F N R] Hr Hk.
  assert (Hk' : token_key r ∉ keys ts').
  { intros Hin. destruct (R _ Hin) as [?|Hf]; [done|]. by eapply token_ok_not_fresh. }
  pose proof (F _ Hk Hk') as He. split_and!; [done|done|]. by eapply token_ok_unframed.
Qed.

Lemma moves_app ts h ts' h' fs :
  moves ts h ts' h' → Forall (token_ok h) fs → (∀ k, k ∈ keys fs → k ∉ keys ts) →
  moves (ts ++ fs) h (ts' ++ fs) h'.
Proof.
  intros Hm Hfs Hd.
  assert (Hfs' : ∀ r, r ∈ fs → token_key r ∉ keys ts' ∧
    ledger_entry h' (token_key r) = ledger_entry h (token_key r) ∧ token_ok h' r).
  { intros r Hr. rewrite Forall_forall in Hfs. eapply moves_unframed; [done|by apply Hfs|].
    apply Hd. unfold keys. apply list_elem_of_fmap. by exists r. }
  destruct Hm as [Hh Hg T F N R]. unfold keys in *.
  constructor; rewrite ?fmap_app; try done.
  - apply Forall_app. split; [done|]. apply Forall_forall. intros r Hr. by apply Hfs'.
  - intros k. unfold keys. rewrite !fmap_app, !not_elem_of_app. intros [? ?] [? ?]. by apply F.
  - intros k. unfold keys. rewrite !fmap_app, !not_elem_of_app, elem_of_app.
    intros [?|?] [? ?]; [by apply N|done].
  - intros k. unfold keys. rewrite !fmap_app, !elem_of_app. intros [Hk|?]; [|by left; right].
    destruct (R k Hk); [by left; left|by right].
Qed.

(** ** The operations as token moves *)

Lemma only_entry_moves r h h' ts' :
  only_entry (token_key r) h h' → Forall (token_ok h') ts' →
  (keys ts' = [] ∧ ledger_entry h' (token_key r) = None ∨ keys ts' = [token_key r]) →
  moves [r] h ts' h'.
Proof.
  intros [Hh Hg F] Ht Hk. constructor; try done.
  - intros k Hk1 _. apply F. intros ->. apply Hk1. unfold keys. set_solver.
  - intros k Hk1 Hk2. unfold keys in Hk1. simpl in Hk1. apply list_elem_of_singleton in Hk1 as ->.
    destruct Hk as [[_ ?]|Hk]; [done|]. rewrite Hk in Hk2. set_solver.
  - intros k Hk1. left. destruct Hk as [[Hk _]|Hk]; rewrite Hk in Hk1; [set_solver|done].
Qed.

Lemma drop_moves h r :
  heap_ok h → token_ok h r → runs (reservation_drop r) h (λ _ h', moves [r] h [] h').
Proof.
  intros Hh Hr. eapply runs_mono; [by apply reservation_drop_runs|].
  intros _ h' [Ho Hn]. apply only_entry_moves; [done|done|by left].
Qed.

Lemma settle_moves h r :
  heap_ok h → token_ok h r →
  runs (settle_prepared_sink_invocation r) h (λ r' h',
    r' = set_phase r Refundable ∧ moves [r] h [r'] h').
Proof.
  intros Hh Hr. eapply runs_mono; [by apply settle_prepared_runs|].
  intros r' h' (-> & Ho & _). split; [done|].
  apply only_entry_moves; [done| |by right]. constructor; [|done]. by eapply token_refundable_ok.
Qed.

Lemma commit_moves h r :
  heap_ok h → token_ok h r →
  runs (commit r) h (λ res h', res = Ok tt ∧ moves [r] h [] h').
Proof.
  intros Hh Hr. eapply runs_mono; [by apply reservation_commit_runs|].
  intros res h' (-> & Ho & Hn). split; [done|]. apply only_entry_moves; [done|done|by left].
Qed.

Lemma abort_moves h r :
  heap_ok h → token_ok h r →
  runs (abort r) h (λ res h',
    res = abort_result (reservation_phase r) (ledger_entry h (token_key r)) ∧ moves [r] h [] h').
Proof.
  intros Hh Hr. eapply runs_mono; [by apply reservation_abort_runs|].
  intros res h' (-> & Ho & Hn). split; [done|]. apply only_entry_moves; [done|done|by left].
Qed.

Lemma reserve_moves h pair p :
  heap_ok h → is_Some (h !! pair_loc pair) → liability_ok (proposal_liability p) →
  runs (reserve pair p) h (λ res h',
    match res with
    | Ok r => moves [] h [r] h' ∧ reservation_phase r = Refundable ∧
        ledger_entry h' (token_key r) = Some (proposal_liability p)
    | Err _ => h' = h
    end).
Proof.
  intros Hh Hl Hp. eapply runs_mono; [by apply reserve_runs|].
  intros [r|e] h'; [|done]. intros (_ & Hphase & Hf & [Hok Hg F] & He & Ht). split_and!; [|done|done].
  constructor; try done; [by constructor| | |].
  - intros k _ Hk. apply F. intros ->. apply Hk. unfold keys. set_solver.
  - intros k Hk. unfold keys in Hk. set_solver.
  - intros k Hk. right. unfold keys in Hk. simpl in Hk. apply list_elem_of_singleton in Hk as ->. done.
Qed.

(** Ownership does not depend on the order tokens are listed in. *)
#[global] Instance keys_Permutation : Proper ((≡ₚ) ==> (≡ₚ)) keys.
Proof. intros ts ts' H. unfold keys. by rewrite H. Qed.

#[global] Instance moves_Permutation :
  Proper ((≡ₚ) ==> (=) ==> (≡ₚ) ==> (=) ==> iff) moves.
Proof.
  assert (Himp : ∀ ts1 ts2 h ts1' ts2' h', ts1 ≡ₚ ts2 → ts1' ≡ₚ ts2' →
    moves ts1 h ts1' h' → moves ts2 h ts2' h').
  { intros ts1 ts2 h ts1' ts2' h' Hts Hts' [Hok Hg T F N R].
    constructor; [done|done|by rewrite <- Hts'| | |].
    - intros k. rewrite <- Hts, <- Hts'. apply F.
    - intros k. rewrite <- Hts, <- Hts'. apply N.
    - intros k. rewrite <- Hts, <- Hts'. apply R. }
  intros ts1 ts2 Hts h ? <- ts1' ts2' Hts' h' ? <-.
  split; apply Himp; done.
Qed.

(** ** Reserving and giving back *)

(** The pair with only its generation counter advanced. *)
Definition bump_generation (st : RequoteBudgetPairState) : RequoteBudgetPairState :=
  {| submit_commands := submit_commands st; rest_calls := rest_calls st;
     next_reservation_generation := next_reservation_generation st + 1;
     outstanding := outstanding st |}.

Lemma remove_outstanding_at h r st :
  h !! pair_loc (reservation_budget r) = Some st →
  remove_outstanding r h =
    Some (outstanding st !! reservation_generation r,
          <[pair_loc (reservation_budget r) :=
              set_outstanding st (delete (reservation_generation r) (outstanding st))]> h).
Proof. intros Hl. unfold remove_outstanding, lock_pair. by rewrite Hl. Qed.

Lemma drop_absent h r st :
  reservation_phase r = Refundable → h !! pair_loc (reservation_budget r) = Some st →
  outstanding st !! reservation_generation r = None → reservation_drop r h = Some (tt, h).
Proof.
  intros Hp Hl Hn. unfold reservation_drop, settle_prepared_sink_invocation. rewrite Hp.
  rewrite (rust_bind_step _ _ h r h) by done.
  rewrite (rust_bind_step _ _ _ _ _ (remove_outstanding_at h r st Hl)), rust_ret_eq.
  rewrite delete_id by done. rewrite insert_id; [done|]. by rewrite Hl; destruct st.
Qed.

(** A reservation that is aborted, or dropped, before the sink is reached gives
    everything back: the heap is the one before [reserve], but for the generation
    counter of the pair, so a generation is never issued twice. *)
Lemma reserve_abort_roundtrip h pair st p :
  h !! pair_loc pair = Some st → pair_inv st →
  match reserve pair p h with
  | Some (Ok r, h1) =>
      let refunded := <[pair_loc pair := bump_generation st]> h in
      abort r h1 = Some (Ok tt, refunded) ∧ reservation_drop r h1 = Some (tt, refunded)
  | Some (Err _, h1) => h1 = h
  | None => False
  end.
Proof.
  intros Hl Hst. unfold reserve, lock_pair. rewrite Hl. unfold reserve_state.
  destruct (has_capacity st _ _ _); simpl; [|by rewrite insert_id].
  destruct (u64_checked_add _ 1) as [g|] eqn:Hg; simpl; [|by rewrite insert_id].
  apply u64_checked_add_Some in Hg as [-> _].
  assert (Hnone : outstanding st !! (next_reservation_generation st + 1) = None).
  { destruct (outstanding st !! _) as [l|] eqn:E; [|done].
    pose proof (inv_fresh st Hst _ _ E). simpl in *. lia. }
  set (st1 := mkPairState _ _ _ _). set (r := mkReservation _ _ _).
  assert (Hrem : remove_outstanding r (<[pair_loc pair := st1]> h) =
    Some (Some (proposal_liability p), <[pair_loc pair := bump_generation st]> h)).
  { rewrite (remove_outstanding_at _ r st1) by apply lookup_insert_eq. simpl.
    rewrite lookup_insert_eq, insert_insert_eq. unfold set_outstanding, bump_generation. simpl.
    by rewrite delete_insert_id. }
  split.
  - unfold abort, settle_aborted. simpl.
    rewrite (rust_bind_step _ _ _ (Ok tt, r) (<[pair_loc pair := bump_generation st]> h)).
    + rewrite (rust_bind_step _ _ _ tt (<[pair_loc pair := bump_generation st]> h)); [done|].
      apply (drop_absent _ _ (bump_generation st)); [done|apply lookup_insert_eq|done].
    + by rewrite (rust_bind_step _ _ _ _ _ Hrem).
  - unfold reservation_drop. simpl.
    rewrite (rust_bind_step _ _ _ r (<[pair_loc pair := st1]> h)) by done.
    by rewrite (rust_bind_step _ _ _ _ _ Hrem).
Qed.

Definition demo_heap : budget_heap := {[ 1%positive := demo_pair ]}.

Lemma reserve_abort_roundtrip_witness :
  ∃ r h1, reserve (mkPair 1%positive) demo_requote demo_heap = Some (Ok r, h1) ∧
    abort r h1 = Some (Ok tt, {[ 1%positive := bump_generation demo_pair ]}).
Proof.
  pose proof (reserve_abort_roundtrip demo_heap (mkPair 1%positive) demo_pair demo_requote
    ltac:(reflexivity) demo_pair_inv) as H.
  destruct (reserve (mkPair 1%positive) demo_requote demo_heap) as [[[r|e] h1]|] eqn:E.
  - exists r, h1. destruct H as [H _]. split; [done|]. simpl in H. rewrite H.
    unfold demo_heap. by rewrite insert_singleton_eq.
  - by vm_compute in E.
  - by vm_compute in E.
Defined.
