(* ===== verification/QuoteLifecycle.v ===== *)
(** * Quote lifecycle: the governed transaction of one quote leg

    Models the reducer of [src/src/bolt_v3_quote_lifecycle.rs]: the states, events
    and reduction functions of [GovernedQuoteTransactionInner], the settlement
    states, and the two entry points [QuoteTransactionReductionRequest::apply] and
    [MakerQuoteLifecycleRefinementRequest::apply].  States own reservation tokens of
    the shared requote budget, so every function that drops, aborts, commits or
    settles a token runs in the heap of budget pairs.  Where Rust drops a token
    implicitly at the end of a scope, the drop is written out. *)

From Stdlib Require Import ZArith Lia.
From stdpp Require Import sorting strings gmap numbers list.
From S2P Require Import Prelude RequoteBudget.

Open Scope Z_scope.

(** ** Data *)

Inductive LegState : Type :=
| LegIdle
| LegSubmitPending
| LegResting
| LegRequotePending
| LegModifyPending
| LegCancelPending
| LegReplacementPendingBackoff
| LegPoisonedReconciliationHold.

Inductive LegEvent : Type :=
| QuoteTrigger (requote_needed : bool)
| Accepted
| Rejected
| Canceled
| Modified
| ModifyRejected
| CancelRejected
| Filled.

Inductive LifecycleAction : Type := Submit | Cancel | Modify.

Inductive MakerQuoteTerminalDisposition : Type :=
| DispDenied
| DispRejected
| DispCanceled
| DispExpired
| DispFilled
| DispVoided.

Inductive Leg : Type := LegYes | LegNo.

#[global] Instance LegState_eq_dec : EqDecision LegState.
Proof. solve_decision. Defined.
#[global] Instance LegEvent_eq_dec : EqDecision LegEvent.
Proof. solve_decision. Defined.
#[global] Instance LifecycleAction_eq_dec : EqDecision LifecycleAction.
Proof. solve_decision. Defined.
#[global] Instance Disposition_eq_dec : EqDecision MakerQuoteTerminalDisposition.
Proof. solve_decision. Defined.
#[global] Instance Leg_eq_dec : EqDecision Leg.
Proof. solve_decision. Defined.

(** The orders a disposition may be refined to are those of the pinned NT order
    machine; a conflicting disposition does not rewrite the retained one. *)
Definition refine_terminal_with (self authoritative : MakerQuoteTerminalDisposition)
    : MakerQuoteTerminalDisposition :=
  match self, authoritative with
  | DispCanceled, DispFilled => DispFilled
  | DispFilled, DispVoided => DispVoided
  | DispDenied, _ => DispDenied
  | DispRejected, _ => DispRejected
  | DispCanceled, _ => DispCanceled
  | DispExpired, _ => DispExpired
  | DispFilled, _ => DispFilled
  | DispVoided, _ => DispVoided
  end.

Definition can_refine (d : MakerQuoteTerminalDisposition) : bool :=
  match d with
  | DispCanceled | DispFilled => true
  | DispDenied | DispRejected | DispExpired | DispVoided => false
  end.

Record MakerQuoteLifecycleIdentity : Type := mkIdentity {
  client_order_id : string;
  identity_generation : Z;
}.

#[global] Instance Identity_eq_dec : EqDecision MakerQuoteLifecycleIdentity.
Proof. solve_decision. Defined.

Inductive MakerQuoteLifecycleRefinement : Type :=
| RefTerminal (stable_effect : option MakerQuoteTerminalDisposition) (closes_reopened : bool)
| RefReopened
| RefRetentionHorizon.

Record MakerQuoteLifecycleRefinementEvent : Type := mkRefinementEvent {
  refinement_identity : MakerQuoteLifecycleIdentity;
  refinement : MakerQuoteLifecycleRefinement;
}.

Inductive MakerQuoteLifecycleRefinementOutcome : Type :=
| OutApplied
| OutUnaffected (event : MakerQuoteLifecycleIdentity) (active : option MakerQuoteLifecycleIdentity)
| OutInvalid (event : MakerQuoteLifecycleIdentity) (active : option MakerQuoteLifecycleIdentity).

Inductive QuoteTransactionRegistrationPhase : Type :=
| PhasePreSink
| PhaseSinkInvoked
| PhaseSettled.

Inductive MakerQuoteBudgetProposal : Type :=
| BudgetReserve (proposal : RequoteBudgetReservationProposal)
| BudgetPrepaid (generation now_ms : Z).

Record QuoteLegTransitionProposal : Type := mkTransitionProposal {
  proposal_leg : Leg;
  proposal_action : LifecycleAction;
  proposal_prior_state : LegState;
  proposal_pending_state : LegState;
}.

Inductive QuoteLegTransactionObligation : Type :=
| FreshSubmit
| ReplacementSubmit
| RequoteCancel
| PlainCancel
| ObligationModify.

Definition obligation_from_proposal (proposal : QuoteLegTransitionProposal)
    : QuoteLegTransactionObligation :=
  match proposal_action proposal with
  | Submit =>
      match proposal_prior_state proposal with
      | LegReplacementPendingBackoff => ReplacementSubmit
      | LegIdle | LegSubmitPending | LegResting | LegRequotePending | LegModifyPending
      | LegCancelPending | LegPoisonedReconciliationHold => FreshSubmit
      end
  | Cancel =>
      match proposal_pending_state proposal with
      | LegRequotePending => RequoteCancel
      | LegIdle | LegSubmitPending | LegResting | LegModifyPending | LegCancelPending
      | LegReplacementPendingBackoff | LegPoisonedReconciliationHold => PlainCancel
      end
  | Modify => ObligationModify
  end.

Inductive QuoteRouteSuccess : Type := RouteSubmitted | RouteNtMutationInvoked.

Definition obligation_route_success (o : QuoteLegTransactionObligation) : QuoteRouteSuccess :=
  match o with
  | FreshSubmit | ReplacementSubmit => RouteSubmitted
  | RequoteCancel | PlainCancel | ObligationModify => RouteNtMutationInvoked
  end.

Record QuoteTransactionArm : Type := mkArm {
  arm_identity : MakerQuoteLifecycleIdentity;
  arm_prior_state : LegState;
  arm_pending_state : LegState;
  arm_obligation : QuoteLegTransactionObligation;
}.

Inductive QuoteRouteSettlement : Type :=
| SettledSubmitted
| SettledNtMutationInvoked
| SettledSinkRejected
| SettledCallbackRetired
| SettledPreSinkAbort
| SettledPreSinkInvariantFailure
| SettledPostSinkInvariantFailure.

#[global] Instance QuoteRouteSettlement_eq_dec : EqDecision QuoteRouteSettlement.
Proof. solve_decision. Defined.

Open Scope string_scope.

(** [QuoteRouteSuccess::projection]: the settlement and the message of an illegal outcome. *)
Definition route_success_projection (s : QuoteRouteSuccess) : QuoteRouteSettlement * string :=
  match s with
  | RouteSubmitted =>
      (SettledSubmitted, "submitted outcome is not legal for this quote transaction")
  | RouteNtMutationInvoked =>
      (SettledNtMutationInvoked,
       "NT-mutation-invoked outcome is not legal for this quote transaction")
  end.

Close Scope string_scope.

(** ** States *)

Inductive QuoteTransactionMode : Type := ModeActive | ModeWindingDown.

Inductive ActiveQuotePhase : Type :=
| ActiveIdle
| ActiveSubmitPending
| ActiveResting
| ActiveRequotePending (prepaid : RequoteBudgetReservation)
| ActiveModifyPending
| ActiveCancelPending
| ActiveReplacementPendingBackoff
| ActiveReplacementPendingBackoffPrepaid (prepaid : RequoteBudgetReservation).

Inductive WindDownQuotePhase : Type := WindDownIdle | WindDownCancelPending.

Inductive QuotePoisonedBudget : Type :=
| PoisonedCharged
| PoisonedPrepaid (prepaid : RequoteBudgetReservation).

Record QuotePoisonedHold : Type := mkHold {
  hold_mode : QuoteTransactionMode;
  hold_obligation : QuoteLegTransactionObligation;
  hold_budget : QuotePoisonedBudget;
}.

Inductive QuoteStableState : Type :=
| StableActive (phase : ActiveQuotePhase)
| StableWindingDown (phase : WindDownQuotePhase)
| StablePoisoned (hold : QuotePoisonedHold).

Inductive ArmedQuoteBudget : Type :=
| ArmedReserved (reservation : RequoteBudgetReservation)
| ArmedPrepaid (prepaid : RequoteBudgetReservation).

Inductive SinkInvokedQuoteBudget : Type :=
| ChargePending (reservation : RequoteBudgetReservation)
| PrepaidPending (prepaid : RequoteBudgetReservation)
| SinkCharged
| SinkPrepaid (prepaid : RequoteBudgetReservation).

Inductive AccountedSinkInvokedQuoteBudget : Type :=
| AccountedCharged
| AccountedPrepaid (prepaid : RequoteBudgetReservation).

Inductive QuoteAttemptPhase : Type :=
| AttemptArmed (budget : ArmedQuoteBudget)
| AttemptSinkInvoked (budget : SinkInvokedQuoteBudget).

Record QuoteAttemptState : Type := mkAttempt {
  attempt_mode : QuoteTransactionMode;
  attempt_arm : QuoteTransactionArm;
  attempt_phase : QuoteAttemptPhase;
}.

Inductive QuoteSettlementStatus : Type :=
| AwaitingRoute
| ReopenedAwaitingRoute
| RouteSettled (route : QuoteRouteSettlement)
| Reopened (route : QuoteRouteSettlement).

Record QuoteSettlementState : Type := mkSettlement {
  settlement_generation : Z;
  settlement_status : QuoteSettlementStatus;
  settlement_stable : QuoteStableState;
}.

Inductive QuoteTransactionState : Type :=
| TxStable (stable : QuoteStableState)
| TxAttempt (attempt : QuoteAttemptState)
| TxSettled (settlement : QuoteSettlementState).

Definition tx_idle : QuoteTransactionState := TxStable (StableActive ActiveIdle).

(** [GovernedQuoteTransactionCommit { action }]. *)
Record GovernedQuoteTransactionCommit : Type := mkCommit {
  commit_action : option LifecycleAction;
}.

Definition no_action : GovernedQuoteTransactionCommit := mkCommit None.
Definition with_action (a : LifecycleAction) : GovernedQuoteTransactionCommit := mkCommit (Some a).

(** The [anyhow] errors of the reducer. *)
Inductive QuoteError : Type :=
| QuoteMessage (message : string)
| BudgetReservationDenied (error : RequoteBudgetReservationDenied)
| BudgetAbortFailed (error : RequoteBudgetReservationDenied)
| BudgetCommitFailed (error : RequoteBudgetReservationDenied).

Definition QuoteReduction : Type :=
  Result (QuoteTransactionState * GovernedQuoteTransactionCommit)
         (QuoteTransactionState * QuoteError).

Abbreviation Governed := (Rust budget_heap).

(** ** Projections *)

Record ActiveQuoteProjection : Type := mkActiveProjection {
  ap_leg_state : LegState;
  ap_prepaid_generation : option Z;
}.

Record QuoteStableProjection : Type := mkStableProjection {
  sp_leg_state : LegState;
  sp_prepaid_generation : option Z;
  sp_winding_down : bool;
}.

Record QuoteStateProjection : Type := mkStateProjection {
  qp_armed_identity : option MakerQuoteLifecycleIdentity;
  qp_leg_state : LegState;
  qp_prepaid_generation : option Z;
  qp_winding_down : bool;
  qp_generation : option Z;
  qp_registration_phase : QuoteTransactionRegistrationPhase;
}.

Definition is_winding_down_mode (m : QuoteTransactionMode) : bool :=
  match m with ModeWindingDown => true | ModeActive => false end.

(** [QuoteTransactionMode::begin_wind_down]: the new mode and the action. *)
Definition begin_wind_down (m : QuoteTransactionMode)
    : QuoteTransactionMode * option LifecycleAction :=
  (ModeWindingDown,
   match m with ModeActive => Some Cancel | ModeWindingDown => None end).

Definition active_projection (p : ActiveQuotePhase) : ActiveQuoteProjection :=
  match p with
  | ActiveIdle => mkActiveProjection LegIdle None
  | ActiveSubmitPending => mkActiveProjection LegSubmitPending None
  | ActiveResting => mkActiveProjection LegResting None
  | ActiveRequotePending prepaid =>
      mkActiveProjection LegRequotePending (Some (reservation_generation prepaid))
  | ActiveModifyPending => mkActiveProjection LegModifyPending None
  | ActiveCancelPending => mkActiveProjection LegCancelPending None
  | ActiveReplacementPendingBackoff => mkActiveProjection LegReplacementPendingBackoff None
  | ActiveReplacementPendingBackoffPrepaid prepaid =>
      mkActiveProjection LegReplacementPendingBackoff (Some (reservation_generation prepaid))
  end.

Definition poisoned_prepaid_generation (b : QuotePoisonedBudget) : option Z :=
  match b with
  | PoisonedCharged => None
  | PoisonedPrepaid prepaid => Some (reservation_generation prepaid)
  end.

Definition stable_projection (s : QuoteStableState) : QuoteStableProjection :=
  match s with
  | StableActive phase =>
      let active := active_projection phase in
      mkStableProjection (ap_leg_state active) (ap_prepaid_generation active) false
  | StableWindingDown WindDownIdle => mkStableProjection LegIdle None true
  | StableWindingDown WindDownCancelPending => mkStableProjection LegCancelPending None true
  | StablePoisoned hold =>
      mkStableProjection LegPoisonedReconciliationHold
        (poisoned_prepaid_generation (hold_budget hold))
        (is_winding_down_mode (hold_mode hold))
  end.

Definition stable_can_reopen (s : QuoteStableState) : bool :=
  match sp_leg_state (stable_projection s) with
  | LegIdle | LegCancelPending | LegReplacementPendingBackoff => true
  | _ => false
  end.

Definition attempt_projection (a : QuoteAttemptState) : QuoteStateProjection :=
  let '(prepaid_generation, registration_phase) :=
    match attempt_phase a with
    | AttemptArmed (ArmedPrepaid prepaid) => (Some (reservation_generation prepaid), PhasePreSink)
    | AttemptArmed (ArmedReserved _) => (None, PhasePreSink)
    | AttemptSinkInvoked (PrepaidPending prepaid)
    | AttemptSinkInvoked (SinkPrepaid prepaid) =>
        (Some (reservation_generation prepaid), PhaseSinkInvoked)
    | AttemptSinkInvoked (ChargePending _)
    | AttemptSinkInvoked SinkCharged => (None, PhaseSinkInvoked)
    end in
  {| qp_armed_identity := Some (arm_identity (attempt_arm a));
     qp_leg_state := arm_pending_state (attempt_arm a);
     qp_prepaid_generation := prepaid_generation;
     qp_winding_down := is_winding_down_mode (attempt_mode a);
     qp_generation := Some (identity_generation (arm_identity (attempt_arm a)));
     qp_registration_phase := registration_phase |}.

Definition settlement_leg_state (s : QuoteSettlementState) : LegState :=
  match settlement_status s with
  | ReopenedAwaitingRoute | Reopened _ => LegCancelPending
  | AwaitingRoute | RouteSettled _ => sp_leg_state (stable_projection (settlement_stable s))
  end.

Definition settlement_projection (s : QuoteSettlementState) : QuoteStateProjection :=
  let stable := stable_projection (settlement_stable s) in
  {| qp_armed_identity := None;
     qp_leg_state := settlement_leg_state s;
     qp_prepaid_generation := sp_prepaid_generation stable;
     qp_winding_down := sp_winding_down stable;
     qp_generation := Some (settlement_generation s);
     qp_registration_phase := PhaseSettled |}.

Definition tx_projection (s : QuoteTransactionState) : QuoteStateProjection :=
  match s with
  | TxStable stable =>
      let stable := stable_projection stable in
      {| qp_armed_identity := None;
         qp_leg_state := sp_leg_state stable;
         qp_prepaid_generation := sp_prepaid_generation stable;
         qp_winding_down := sp_winding_down stable;
         qp_generation := None;
         qp_registration_phase := PhasePreSink |}
  | TxAttempt attempt => attempt_projection attempt
  | TxSettled settlement => settlement_projection settlement
  end.

Definition armed_identity (s : QuoteTransactionState) : option MakerQuoteLifecycleIdentity :=
  qp_armed_identity (tx_projection s).
Definition leg_state (s : QuoteTransactionState) : LegState := qp_leg_state (tx_projection s).
Definition prepaid_generation (s : QuoteTransactionState) : option Z :=
  qp_prepaid_generation (tx_projection s).
Definition is_winding_down (s : QuoteTransactionState) : bool :=
  qp_winding_down (tx_projection s).

Definition registration_phase (s : QuoteTransactionState) (generation : Z)
    : QuoteTransactionRegistrationPhase :=
  let projection := tx_projection s in
  if decide (qp_generation projection = Some generation)
  then qp_registration_phase projection
  else PhasePreSink.

(** ** Settlement states *)

Definition set_settlement_status (s : QuoteSettlementState) (st : QuoteSettlementStatus) :=
  mkSettlement (settlement_generation s) st (settlement_stable s).

Definition set_settlement_stable (s : QuoteSettlementState) (st : QuoteStableState) :=
  mkSettlement (settlement_generation s) (settlement_status s) st.

Definition settlement_reduce_stable (s : QuoteSettlementState)
    (reduce : QuoteStableState → Governed (QuoteStableState * GovernedQuoteTransactionCommit))
    : Governed (QuoteSettlementState * GovernedQuoteTransactionCommit) :=
  reduced ← reduce (settlement_stable s);
  mret (set_settlement_stable s reduced.1, reduced.2).

Definition close_reopened (s : QuoteSettlementState) (closes : bool) : QuoteSettlementState :=
  set_settlement_status s
    (match closes, settlement_status s with
     | false, status => status
     | true, ReopenedAwaitingRoute => AwaitingRoute
     | true, Reopened route => RouteSettled route
     | true, (AwaitingRoute | RouteSettled _) as status => status
     end).

Definition settle_route (s : QuoteSettlementState) (generation : Z) (route : QuoteRouteSettlement)
    : Result QuoteSettlementState (QuoteSettlementState * QuoteError) :=
  let conflict :=
    Err (s, QuoteMessage "conflicting or stale quote transaction settlement") in
  if decide (settlement_generation s = generation) then
    match settlement_status s with
    | AwaitingRoute => Ok (set_settlement_status s (RouteSettled route))
    | ReopenedAwaitingRoute => Ok (set_settlement_status s (Reopened route))
    | RouteSettled settled_route | Reopened settled_route =>
        if decide (settled_route = route) then Ok s else conflict
    end
  else conflict.

Definition reopen (s : QuoteSettlementState)
    : Result QuoteSettlementState (QuoteSettlementState * QuoteError) :=
  match settlement_status s, stable_can_reopen (settlement_stable s) with
  | ReopenedAwaitingRoute, _ | Reopened _, _ => Ok s
  | AwaitingRoute, true => Ok (set_settlement_status s ReopenedAwaitingRoute)
  | RouteSettled route, true => Ok (set_settlement_status s (Reopened route))
  | _, false =>
      Err (s, QuoteMessage "maker quote reopening conflicts with current leg occupancy")
  end.

(** ** Budgets held by an attempt *)

(** [ArmedQuoteBudget::prepare_sink_invoked_at]. *)
Definition armed_prepare_sink_invoked_at (b : ArmedQuoteBudget)
    (obligation : QuoteLegTransactionObligation) (actor_now_ms : Z) : SinkInvokedQuoteBudget :=
  match b, obligation with
  | ArmedReserved reservation, RequoteCancel =>
      PrepaidPending (prepare_sink_invoked_at reservation actor_now_ms)
  | ArmedReserved reservation, (FreshSubmit | ReplacementSubmit | PlainCancel | ObligationModify)
  | ArmedPrepaid reservation,
      (FreshSubmit | ReplacementSubmit | RequoteCancel | PlainCancel | ObligationModify) =>
      ChargePending (prepare_sink_invoked_at reservation actor_now_ms)
  end.

(** [SinkInvokedQuoteBudget::account]: the sink boundary is charged here. *)
Definition account (b : SinkInvokedQuoteBudget) : Governed AccountedSinkInvokedQuoteBudget :=
  match b with
  | ChargePending reservation =>
      reservation ← settle_prepared_sink_invocation reservation;
      reservation_drop reservation;;
      mret AccountedCharged
  | PrepaidPending prepaid =>
      prepaid ← settle_prepared_sink_invocation prepaid;
      mret (AccountedPrepaid prepaid)
  | SinkCharged => mret AccountedCharged
  | SinkPrepaid prepaid => mret (AccountedPrepaid prepaid)
  end.

Definition into_sink_invoked (b : AccountedSinkInvokedQuoteBudget) : SinkInvokedQuoteBudget :=
  match b with
  | AccountedCharged => SinkCharged
  | AccountedPrepaid prepaid => SinkPrepaid prepaid
  end.

Definition into_poisoned (b : AccountedSinkInvokedQuoteBudget) : QuotePoisonedBudget :=
  match b with
  | AccountedCharged => PoisonedCharged
  | AccountedPrepaid prepaid => PoisonedPrepaid prepaid
  end.

(** [drop(budget)] of a poisoned hold's budget. *)
Definition poisoned_drop (b : QuotePoisonedBudget) : Governed unit :=
  match b with
  | PoisonedCharged => mret tt
  | PoisonedPrepaid prepaid => reservation_drop prepaid
  end.

(** The implicit drop of an [ActiveQuotePhase] that goes out of scope. *)
Definition active_drop (p : ActiveQuotePhase) : Governed unit :=
  match p with
  | ActiveRequotePending prepaid | ActiveReplacementPendingBackoffPrepaid prepaid =>
      reservation_drop prepaid
  | ActiveIdle | ActiveSubmitPending | ActiveResting | ActiveModifyPending
  | ActiveCancelPending | ActiveReplacementPendingBackoff => mret tt
  end.

(** ** Events *)

Inductive QuoteTransactionEvent : Type :=
| EvLifecycle (event : LegEvent)
| EvWindDown
| EvMissingMoneyMovingTruth
| EvArm (proposal : QuoteLegTransitionProposal) (budget : RequoteBudgetPair)
    (budget_proposal : MakerQuoteBudgetProposal) (identity : MakerQuoteLifecycleIdentity)
| EvPreSinkAbort (generation : Z)
| EvPreSinkInvariantFailure (generation : Z)
| EvUnwind.

Inductive SinkCapableQuoteTransactionEvent : Type :=
| EvSubmitted (generation : Z)
| EvNtMutationInvoked (generation : Z)
| EvSinkRejected (generation : Z)
| EvCallbackRetired (generation : Z)
| EvPostSinkUnwind (generation : Z).

Inductive QuoteTransactionReductionEvent : Type :=
| PreSink (event : QuoteTransactionEvent)
| SinkCapable (event : SinkCapableQuoteTransactionEvent).

(** ** Lifecycle events and wind-down *)

Definition reduce_winding_down_lifecycle (phase : WindDownQuotePhase) (event : LegEvent)
    : QuoteStableState * GovernedQuoteTransactionCommit :=
  match phase, event with
  | WindDownIdle, (Accepted | Modified | ModifyRejected) =>
      (StableWindingDown WindDownIdle, with_action Cancel)
  | WindDownIdle, (QuoteTrigger _ | Rejected | Canceled | CancelRejected | Filled) =>
      (StableWindingDown WindDownIdle, no_action)
  | WindDownCancelPending, (Accepted | Modified | ModifyRejected) =>
      (StableWindingDown WindDownCancelPending, with_action Cancel)
  | WindDownCancelPending, (Rejected | Canceled | Filled) =>
      (StableWindingDown WindDownIdle, no_action)
  | WindDownCancelPending, (QuoteTrigger _ | CancelRejected) =>
      (StableWindingDown WindDownCancelPending, no_action)
  end.

(** The [(stable, event)] match of [reduce_lifecycle]. *)
Definition reduce_stable_lifecycle (stable : QuoteStableState) (event : LegEvent)
    (supports_modify : bool)
    : Governed (QuoteTransactionState * GovernedQuoteTransactionCommit) :=
  match stable, event with
  | StableWindingDown phase, event =>
      let '(stable, commit) := reduce_winding_down_lifecycle phase event in
      mret (TxStable stable, commit)
  | StablePoisoned hold, _ => mret (TxStable (StablePoisoned hold), no_action)
  | StableActive ActiveIdle, QuoteTrigger _ =>
      mret (TxStable (StableActive ActiveSubmitPending), with_action Submit)
  | StableActive ActiveSubmitPending, Accepted =>
      mret (TxStable (StableActive ActiveResting), no_action)
  | StableActive (ActiveSubmitPending | ActiveCancelPending), Rejected => mret (tx_idle, no_action)
  | StableActive ActiveResting, QuoteTrigger true =>
      mret (TxStable stable, with_action (if supports_modify then Modify else Cancel))
  | StableActive (ActiveReplacementPendingBackoff | ActiveReplacementPendingBackoffPrepaid _),
      QuoteTrigger _ =>
      mret (TxStable stable, with_action Submit)
  | StableActive (ActiveRequotePending prepaid), Canceled =>
      mret (TxStable (StableActive (ActiveReplacementPendingBackoffPrepaid prepaid)), no_action)
  | StableActive ActiveModifyPending, Modified =>
      mret (TxStable (StableActive ActiveResting), no_action)
  | StableActive ActiveModifyPending, ModifyRejected =>
      mret (TxStable (StableActive ActiveResting), with_action Cancel)
  | StableActive (ActiveCancelPending | ActiveIdle), (Accepted | Modified | ModifyRejected) =>
      mret (TxStable stable, with_action Cancel)
  | StableActive (ActiveCancelPending | ActiveSubmitPending | ActiveResting | ActiveModifyPending),
      Canceled => mret (tx_idle, no_action)
  | StableActive (ActiveSubmitPending | ActiveResting | ActiveModifyPending | ActiveCancelPending
                 | ActiveReplacementPendingBackoff), Filled => mret (tx_idle, no_action)
  | StableActive (ActiveRequotePending prepaid | ActiveReplacementPendingBackoffPrepaid prepaid),
      Filled =>
      reservation_drop prepaid;;
      mret (tx_idle, no_action)
  | StableActive _, _ => mret (TxStable stable, no_action)
  end.

Definition reduce_lifecycle (state : QuoteTransactionState) (event : LegEvent)
    (supports_modify : bool)
    : Governed (QuoteTransactionState * GovernedQuoteTransactionCommit) :=
  match state with
  | TxStable stable => reduce_stable_lifecycle stable event supports_modify
  | TxSettled settlement =>
      reduce_stable_lifecycle (settlement_stable settlement) event supports_modify
  | TxAttempt _ => mret (state, no_action)
  end.

Definition reduce_stable_wind_down (stable : QuoteStableState)
    : Governed (QuoteStableState * GovernedQuoteTransactionCommit) :=
  match stable with
  | StableActive ActiveIdle => mret (StableWindingDown WindDownIdle, no_action)
  | StableActive ActiveCancelPending => mret (StableWindingDown WindDownCancelPending, no_action)
  | StableActive ActiveReplacementPendingBackoff => mret (StableWindingDown WindDownIdle, no_action)
  | StableActive (ActiveReplacementPendingBackoffPrepaid prepaid) =>
      reservation_drop prepaid;;
      mret (StableWindingDown WindDownIdle, no_action)
  | StableActive (ActiveRequotePending prepaid) =>
      reservation_drop prepaid;;
      mret (StableWindingDown WindDownCancelPending, no_action)
  | StableActive (ActiveSubmitPending | ActiveResting | ActiveModifyPending) =>
      mret (StableWindingDown WindDownCancelPending, with_action Cancel)
  | StablePoisoned hold =>
      let '(mode, action) := begin_wind_down (hold_mode hold) in
      mret (StablePoisoned (mkHold mode (hold_obligation hold) (hold_budget hold)), mkCommit action)
  | StableWindingDown _ => mret (stable, no_action)
  end.

Definition reduce_wind_down (state : QuoteTransactionState)
    : Governed (QuoteTransactionState * GovernedQuoteTransactionCommit) :=
  match state with
  | TxStable stable =>
      reduced ← reduce_stable_wind_down stable;
      mret (TxStable reduced.1, reduced.2)
  | TxAttempt attempt =>
      let '(mode, action) := begin_wind_down (attempt_mode attempt) in
      mret (TxAttempt (mkAttempt mode (attempt_arm attempt) (attempt_phase attempt)), mkCommit action)
  | TxSettled settlement =>
      reduced ← settlement_reduce_stable settlement reduce_stable_wind_down;
      mret (TxSettled reduced.1, reduced.2)
  end.

(** ** Missing truth: poison the leg *)

Definition poison_stable (stable : QuoteStableState) : QuoteStableState :=
  match stable with
  | StableActive (ActiveRequotePending prepaid | ActiveReplacementPendingBackoffPrepaid prepaid) =>
      StablePoisoned (mkHold ModeActive PlainCancel (PoisonedPrepaid prepaid))
  | StableActive (ActiveIdle | ActiveSubmitPending | ActiveResting | ActiveModifyPending
                 | ActiveCancelPending | ActiveReplacementPendingBackoff) =>
      StablePoisoned (mkHold ModeActive PlainCancel PoisonedCharged)
  | StableWindingDown _ => StablePoisoned (mkHold ModeWindingDown PlainCancel PoisonedCharged)
  | StablePoisoned _ => stable
  end.

Definition poison_attempt (attempt : QuoteAttemptState) : Governed QuoteStableState :=
  budget ← match attempt_phase attempt with
           | AttemptArmed (ArmedReserved reservation) =>
               reservation_drop reservation;;
               mret PoisonedCharged
           | AttemptArmed (ArmedPrepaid prepaid) => mret (PoisonedPrepaid prepaid)
           | AttemptSinkInvoked budget =>
               accounted ← account budget;
               mret (into_poisoned accounted)
           end;
  mret (StablePoisoned (mkHold (attempt_mode attempt) PlainCancel budget)).

Definition reduce_missing_money_moving_truth (state : QuoteTransactionState)
    : Governed (QuoteTransactionState * GovernedQuoteTransactionCommit) :=
  match state with
  | TxSettled settlement =>
      reduced ← settlement_reduce_stable settlement
                  (λ stable, mret (poison_stable stable, no_action));
      mret (TxSettled (close_reopened reduced.1 true), no_action)
  | TxStable stable => mret (TxStable (poison_stable stable), no_action)
  | TxAttempt attempt =>
      stable ← poison_attempt attempt;
      mret (TxStable stable, no_action)
  end.

(** ** Arming *)

Definition reduce_arm_active (active : ActiveQuotePhase) (proposal : QuoteLegTransitionProposal)
    (budget : RequoteBudgetPair) (budget_proposal : MakerQuoteBudgetProposal)
    (identity : MakerQuoteLifecycleIdentity) : Governed QuoteReduction :=
  if decide (ap_leg_state (active_projection active) ≠ proposal_prior_state proposal) then
    mret (Err (TxStable (StableActive active), QuoteMessage "quote lifecycle proposal is stale"))
  else
    let arm :=
      mkArm identity (proposal_prior_state proposal) (proposal_pending_state proposal)
        (obligation_from_proposal proposal) in
    let prepaid_stale : Governed QuoteReduction :=
      mret (Err (TxStable (StableActive active),
                 QuoteMessage "replacement prepaid reservation generation is stale")) in
    match budget_proposal with
    | BudgetPrepaid prepaid_generation _ =>
        match active with
        | ActiveReplacementPendingBackoffPrepaid prepaid =>
            if decide (reservation_generation prepaid = prepaid_generation) then
              mret (Ok (TxAttempt (mkAttempt ModeActive arm (AttemptArmed (ArmedPrepaid prepaid))),
                        no_action))
            else prepaid_stale
        | _ => prepaid_stale
        end
    | BudgetReserve reservation_proposal =>
        reserved ← reserve budget reservation_proposal;
        match reserved with
        | Ok reservation =>
            active_drop active;;
            mret (Ok (TxAttempt (mkAttempt ModeActive arm (AttemptArmed (ArmedReserved reservation))),
                      no_action))
        | Err error =>
            mret (Err (TxStable (StableActive active), BudgetReservationDenied error))
        end
    end.

Definition reduce_arm (state : QuoteTransactionState) (proposal : QuoteLegTransitionProposal)
    (budget : RequoteBudgetPair) (budget_proposal : MakerQuoteBudgetProposal)
    (identity : MakerQuoteLifecycleIdentity) : Governed QuoteReduction :=
  if decide (identity_generation identity = 0) then
    mret (Err (state, QuoteMessage "quote lifecycle transaction generation must be positive"))
  else
    let held (stable : QuoteStableState) : Governed QuoteReduction :=
      mret (Err (TxStable stable, QuoteMessage "quote lifecycle is winding down or held")) in
    match state with
    | TxStable (StableActive active) =>
        reduce_arm_active active proposal budget budget_proposal identity
    | TxSettled settlement =>
        match settlement_stable settlement with
        | StableActive active =>
            reduce_arm_active active proposal budget budget_proposal identity
        | (StableWindingDown _ | StablePoisoned _) as stable => held stable
        end
    | TxStable ((StableWindingDown _ | StablePoisoned _) as stable) => held stable
    | TxAttempt _ =>
        mret (Err (state, QuoteMessage "quote lifecycle already has an armed attempt"))
    end.

(** ** Settling an attempt *)

Definition restore_prior (arm : QuoteTransactionArm) : QuoteStableState :=
  match arm_prior_state arm with
  | LegIdle => StableActive ActiveIdle
  | LegSubmitPending => StableActive ActiveSubmitPending
  | LegResting => StableActive ActiveResting
  | LegRequotePending | LegCancelPending => StableActive ActiveCancelPending
  | LegModifyPending => StableActive ActiveModifyPending
  | LegReplacementPendingBackoff => StableActive ActiveReplacementPendingBackoff
  | LegPoisonedReconciliationHold =>
      StablePoisoned (mkHold ModeActive (arm_obligation arm) PoisonedCharged)
  end.

Definition committed_pending (arm : QuoteTransactionArm) : QuoteStableState :=
  match arm_pending_state arm with
  | LegIdle => StableActive ActiveIdle
  | LegSubmitPending => StableActive ActiveSubmitPending
  | LegResting => StableActive ActiveResting
  | LegRequotePending | LegCancelPending => StableActive ActiveCancelPending
  | LegModifyPending => StableActive ActiveModifyPending
  | LegReplacementPendingBackoff => StableActive ActiveReplacementPendingBackoff
  | LegPoisonedReconciliationHold =>
      StablePoisoned (mkHold ModeActive (arm_obligation arm) PoisonedCharged)
  end.

Definition settled (generation : Z) (route : QuoteRouteSettlement) (stable : QuoteStableState)
    : QuoteTransactionState :=
  TxSettled (mkSettlement generation (RouteSettled route) stable).

Definition terminal_before_route_settlement (generation : Z) (stable : QuoteStableState)
    : QuoteTransactionState :=
  TxSettled (mkSettlement generation AwaitingRoute stable).

(** [reduce_generation_fenced]: an armed attempt of another generation takes the
    stale branch. *)
Definition reduce_generation_fenced (state : QuoteTransactionState) (generation : Z)
    (stale current : QuoteTransactionState → Governed QuoteReduction) : Governed QuoteReduction :=
  match armed_identity state with
  | Some identity =>
      if decide (identity_generation identity = generation) then current state else stale state
  | None => current state
  end.

Definition reduce_settlement_replay (state : QuoteTransactionState) (generation : Z)
    (route : QuoteRouteSettlement) : QuoteReduction :=
  match state with
  | TxSettled settlement =>
      match settle_route settlement generation route with
      | Ok settlement => Ok (TxSettled settlement, no_action)
      | Err (settlement, error) => Err (TxSettled settlement, error)
      end
  | TxStable _ | TxAttempt _ => Err (state, QuoteMessage "quote transaction is not settled")
  end.

Definition finish_pre_sink_abort (mode : QuoteTransactionMode) (arm : QuoteTransactionArm)
    (budget : ArmedQuoteBudget) (generation : Z) : Governed QuoteReduction :=
  match budget with
  | ArmedReserved reservation =>
      aborted ← abort reservation;
      match aborted with
      | Ok _ =>
          let stable :=
            match mode with
            | ModeActive => restore_prior arm
            | ModeWindingDown => StableWindingDown WindDownIdle
            end in
          mret (Ok (settled generation SettledPreSinkAbort stable, no_action))
      | Err error =>
          mret (Err (settled generation SettledPreSinkAbort
                       (StablePoisoned (mkHold mode (arm_obligation arm) PoisonedCharged)),
                     BudgetAbortFailed error))
      end
  | ArmedPrepaid prepaid =>
      stable ← match mode with
               | ModeActive =>
                   mret (StableActive (ActiveReplacementPendingBackoffPrepaid prepaid))
               | ModeWindingDown =>
                   reservation_drop prepaid;;
                   mret (StableWindingDown WindDownIdle)
               end;
      mret (Ok (settled generation SettledPreSinkAbort stable, no_action))
  end.

Definition reduce_pre_sink_abort (state : QuoteTransactionState) (generation : Z)
    : Governed QuoteReduction :=
  reduce_generation_fenced state generation
    (λ state, mret (Ok (state, no_action)))
    (λ state, match state with
     | TxAttempt (mkAttempt mode arm (AttemptArmed budget)) =>
         finish_pre_sink_abort mode arm budget generation
     | TxSettled _ => mret (reduce_settlement_replay state generation SettledPreSinkAbort)
     | TxStable _ | TxAttempt (mkAttempt _ _ (AttemptSinkInvoked _)) =>
         mret (Ok (state, no_action))
     end).

Definition finish_pre_sink_invariant_failure (mode : QuoteTransactionMode)
    (arm : QuoteTransactionArm) (budget : ArmedQuoteBudget) (generation : Z)
    : Governed QuoteReduction :=
  let poisoned budget :=
    settled generation SettledPreSinkInvariantFailure
      (StablePoisoned (mkHold mode (arm_obligation arm) budget)) in
  match budget with
  | ArmedReserved reservation =>
      committed ← commit reservation;
      match committed with
      | Ok _ => mret (Ok (poisoned PoisonedCharged, no_action))
      | Err error => mret (Err (poisoned PoisonedCharged, BudgetCommitFailed error))
      end
  | ArmedPrepaid prepaid => mret (Ok (poisoned (PoisonedPrepaid prepaid), no_action))
  end.

Definition reduce_pre_sink_invariant_failure (state : QuoteTransactionState) (generation : Z)
    : Governed QuoteReduction :=
  reduce_generation_fenced state generation
    (λ state, mret (Ok (state, no_action)))
    (λ state, match state with
     | TxAttempt (mkAttempt mode arm (AttemptArmed budget)) =>
         finish_pre_sink_invariant_failure mode arm budget generation
     | TxSettled _ =>
         mret (reduce_settlement_replay state generation SettledPreSinkInvariantFailure)
     | TxStable _ | TxAttempt (mkAttempt _ _ (AttemptSinkInvoked _)) =>
         mret (Ok (state, no_action))
     end).

Definition finish_post_sink_failure (mode : QuoteTransactionMode) (arm : QuoteTransactionArm)
    (budget : SinkInvokedQuoteBudget) (generation : Z) : Governed QuoteReduction :=
  accounted ← account budget;
  mret (Ok (settled generation SettledPostSinkInvariantFailure
              (StablePoisoned (mkHold mode (arm_obligation arm) (into_poisoned accounted))),
            no_action)).

Definition reduce_unwind (state : QuoteTransactionState) : Governed QuoteReduction :=
  match state with
  | TxAttempt (mkAttempt mode arm (AttemptArmed budget)) =>
      finish_pre_sink_abort mode arm budget (identity_generation (arm_identity arm))
  | TxAttempt (mkAttempt mode arm (AttemptSinkInvoked budget)) =>
      finish_post_sink_failure mode arm budget (identity_generation (arm_identity arm))
  | TxStable _ | TxSettled _ => mret (Ok (state, no_action))
  end.

(** ** The sink boundary and its outcomes *)

(** [account_sink_invocation] and [commit_sink_invoked]. *)
Definition account_sink_invocation (mode : QuoteTransactionMode) (arm : QuoteTransactionArm)
    (budget : ArmedQuoteBudget) (actor_now_ms : Z)
    : QuoteTransactionState * GovernedQuoteTransactionCommit :=
  (TxAttempt (mkAttempt mode arm
     (AttemptSinkInvoked (armed_prepare_sink_invoked_at budget (arm_obligation arm) actor_now_ms))),
   no_action).

Definition commit_sink_invoked (state : QuoteTransactionState) (generation actor_now_ms : Z)
    : QuoteTransactionState * GovernedQuoteTransactionCommit :=
  match state with
  | TxAttempt (mkAttempt mode arm (AttemptArmed budget)) =>
      if decide (identity_generation (arm_identity arm) = generation)
      then account_sink_invocation mode arm budget actor_now_ms
      else (state, no_action)
  | TxStable _ | TxSettled _ | TxAttempt _ => (state, no_action)
  end.

Definition route_success_state (mode : QuoteTransactionMode) (arm : QuoteTransactionArm)
    (budget : SinkInvokedQuoteBudget) : Governed QuoteStableState :=
  accounted ← account budget;
  match mode, accounted with
  | ModeActive, AccountedCharged => mret (committed_pending arm)
  | ModeActive, AccountedPrepaid prepaid => mret (StableActive (ActiveRequotePending prepaid))
  | ModeWindingDown, AccountedCharged => mret (StableWindingDown WindDownCancelPending)
  | ModeWindingDown, AccountedPrepaid prepaid =>
      reservation_drop prepaid;;
      mret (StableWindingDown WindDownCancelPending)
  end.

Definition reduce_route_success (state : QuoteTransactionState) (generation : Z)
    (success : QuoteRouteSuccess) : Governed QuoteReduction :=
  let '(settlement, illegal_outcome_message) := route_success_projection success in
  let illegal (state : QuoteTransactionState) : Governed QuoteReduction :=
    mret (Err (state, QuoteMessage illegal_outcome_message)) in
  reduce_generation_fenced state generation illegal
    (λ state, match state with
     | TxAttempt (mkAttempt mode arm (AttemptSinkInvoked budget)) =>
         match obligation_route_success (arm_obligation arm), success with
         | RouteSubmitted, RouteSubmitted
         | RouteNtMutationInvoked, RouteNtMutationInvoked =>
             stable ← route_success_state mode arm budget;
             mret (Ok (settled generation settlement stable, no_action))
         | RouteSubmitted, RouteNtMutationInvoked
         | RouteNtMutationInvoked, RouteSubmitted => illegal state
         end
     | TxSettled _ => mret (reduce_settlement_replay state generation settlement)
     | TxStable _ | TxAttempt (mkAttempt _ _ (AttemptArmed _)) => illegal state
     end).

Definition reduce_sink_rejected (state : QuoteTransactionState) (generation : Z)
    : Governed QuoteReduction :=
  let illegal (state : QuoteTransactionState) : Governed QuoteReduction :=
    mret (Err (state,
      QuoteMessage "sink-rejected outcome is not legal for this quote transaction")) in
  reduce_generation_fenced state generation illegal
    (λ state, match state with
     | TxAttempt (mkAttempt mode arm (AttemptSinkInvoked budget)) =>
         match arm_obligation arm with
         | FreshSubmit | ReplacementSubmit =>
             accounted ← account budget;
             match accounted with
             | AccountedCharged =>
                 let stable :=
                   match mode with
                   | ModeActive => restore_prior arm
                   | ModeWindingDown => StableWindingDown WindDownIdle
                   end in
                 mret (Ok (settled generation SettledSinkRejected stable, no_action))
             | AccountedPrepaid prepaid =>
                 illegal (TxAttempt (mkAttempt mode arm
                   (AttemptSinkInvoked (into_sink_invoked (AccountedPrepaid prepaid)))))
             end
         | RequoteCancel | PlainCancel | ObligationModify => illegal state
         end
     | TxAttempt _ => illegal state
     | TxSettled _ => mret (reduce_settlement_replay state generation SettledSinkRejected)
     | TxStable _ => illegal state
     end).

Definition reduce_callback_retired (state : QuoteTransactionState) (generation : Z)
    : QuoteReduction :=
  match state with
  | TxSettled _ => reduce_settlement_replay state generation SettledCallbackRetired
  | TxStable _ | TxAttempt _ =>
      Err (state, QuoteMessage "callback retirement is not legal for this quote transaction")
  end.

Definition reduce_post_sink_failure (state : QuoteTransactionState) (generation : Z)
    : Governed QuoteReduction :=
  let illegal (state : QuoteTransactionState) : Governed QuoteReduction :=
    mret (Err (state, QuoteMessage "post-sink failure is not legal for this quote transaction")) in
  reduce_generation_fenced state generation illegal
    (λ state, match state with
     | TxAttempt (mkAttempt mode arm (AttemptSinkInvoked budget)) =>
         finish_post_sink_failure mode arm budget generation
     | TxSettled _ =>
         mret (reduce_settlement_replay state generation SettledPostSinkInvariantFailure)
     | TxStable _ | TxAttempt (mkAttempt _ _ (AttemptArmed _)) => illegal state
     end).

(** ** Terminal truth *)

Definition terminal_state (obligation : QuoteLegTransactionObligation)
    (budget : QuotePoisonedBudget) (disposition : MakerQuoteTerminalDisposition)
    : Governed QuoteStableState :=
  match disposition with
  | DispFilled =>
      poisoned_drop budget;;
      mret (StableActive ActiveIdle)
  | DispDenied | DispRejected | DispCanceled | DispExpired | DispVoided =>
      match obligation, budget with
      | (ReplacementSubmit | RequoteCancel), PoisonedPrepaid prepaid =>
          mret (StableActive (ActiveReplacementPendingBackoffPrepaid prepaid))
      | (ReplacementSubmit | RequoteCancel), PoisonedCharged =>
          mret (StableActive ActiveReplacementPendingBackoff)
      | (FreshSubmit | PlainCancel | ObligationModify), budget =>
          poisoned_drop budget;;
          mret (StableActive ActiveIdle)
      end
  end.

Definition terminal_stable (stable : QuoteStableState)
    (disposition : MakerQuoteTerminalDisposition) : Governed QuoteStableState :=
  match stable with
  | StableWindingDown _ => mret (StableWindingDown WindDownIdle)
  | StablePoisoned hold =>
      match hold_mode hold with
      | ModeActive => terminal_state (hold_obligation hold) (hold_budget hold) disposition
      | ModeWindingDown =>
          poisoned_drop (hold_budget hold);;
          mret (StableWindingDown WindDownIdle)
      end
  | StableActive (ActiveRequotePending prepaid) =>
      terminal_state RequoteCancel (PoisonedPrepaid prepaid) disposition
  | StableActive (ActiveReplacementPendingBackoffPrepaid prepaid) =>
      reservation_drop prepaid;;
      mret (StableActive ActiveIdle)
  | StableActive (ActiveIdle | ActiveSubmitPending | ActiveResting | ActiveModifyPending
                 | ActiveCancelPending | ActiveReplacementPendingBackoff) =>
      mret (StableActive ActiveIdle)
  end.

Definition terminal_attempt (attempt : QuoteAttemptState)
    (disposition : MakerQuoteTerminalDisposition) : Governed QuoteStableState :=
  let obligation := arm_obligation (attempt_arm attempt) in
  match attempt_mode attempt, attempt_phase attempt with
  | ModeActive, AttemptArmed (ArmedReserved reservation) =>
      reservation_drop reservation;;
      terminal_state obligation PoisonedCharged disposition
  | ModeActive, AttemptArmed (ArmedPrepaid prepaid) =>
      terminal_state obligation (PoisonedPrepaid prepaid) disposition
  | ModeActive, AttemptSinkInvoked budget =>
      accounted ← account budget;
      terminal_state obligation (into_poisoned accounted) disposition
  | ModeWindingDown, AttemptArmed (ArmedReserved reservation) =>
      reservation_drop reservation;;
      mret (StableWindingDown WindDownIdle)
  | ModeWindingDown, AttemptArmed (ArmedPrepaid prepaid) =>
      reservation_drop prepaid;;
      mret (StableWindingDown WindDownIdle)
  | ModeWindingDown, AttemptSinkInvoked budget =>
      accounted ← account budget;
      poisoned_drop (into_poisoned accounted);;
      mret (StableWindingDown WindDownIdle)
  end.

Definition reduce_terminal (state : QuoteTransactionState)
    (disposition : MakerQuoteTerminalDisposition)
    : Governed (QuoteTransactionState * GovernedQuoteTransactionCommit) :=
  match state with
  | TxStable stable =>
      stable ← terminal_stable stable disposition;
      mret (TxStable stable, no_action)
  | TxAttempt attempt =>
      let generation := identity_generation (arm_identity (attempt_arm attempt)) in
      stable ← terminal_attempt attempt disposition;
      mret (terminal_before_route_settlement generation stable, no_action)
  | TxSettled settlement =>
      reduced ← settlement_reduce_stable settlement
                  (λ stable, stable ← terminal_stable stable disposition; mret (stable, no_action));
      mret (TxSettled (close_reopened reduced.1 true), reduced.2)
  end.

Definition reduce_terminal_refinement (state : QuoteTransactionState) (generation : Z)
    (stable_effect : option MakerQuoteTerminalDisposition) (closes_reopened : bool)
    : Governed QuoteReduction :=
  reduced ← match stable_effect with
            | Some disposition => reduce_terminal state disposition
            | None => mret (state, no_action)
            end;
  match reduced.1 with
  | TxSettled settlement =>
      mret (Ok (TxSettled (close_reopened settlement closes_reopened), reduced.2))
  | TxStable stable =>
      let settlement := mkSettlement generation (RouteSettled SettledCallbackRetired) stable in
      mret (Ok (TxSettled (close_reopened settlement closes_reopened), reduced.2))
  | TxAttempt _ =>
      mret (Err (reduced.1, QuoteMessage
        "terminal refinement without a stable effect cannot retain an active attempt"))
  end.

Definition reduce_reopened (state : QuoteTransactionState) : QuoteReduction :=
  match state with
  | TxSettled settlement =>
      match reopen settlement with
      | Ok settlement => Ok (TxSettled settlement, no_action)
      | Err (settlement, error) => Err (TxSettled settlement, error)
      end
  | TxStable _ | TxAttempt _ =>
      Err (state, QuoteMessage "maker quote reopening conflicts with current leg occupancy")
  end.

(** ** Dispatch *)

Definition reduce_pre_sink (state : QuoteTransactionState) (event : QuoteTransactionEvent)
    (supports_modify : bool) : Governed QuoteReduction :=
  match event with
  | EvLifecycle event =>
      reduced ← reduce_lifecycle state event supports_modify;
      mret (Ok reduced)
  | EvWindDown =>
      reduced ← reduce_wind_down state;
      mret (Ok reduced)
  | EvMissingMoneyMovingTruth =>
      reduced ← reduce_missing_money_moving_truth state;
      mret (Ok reduced)
  | EvArm proposal budget budget_proposal identity =>
      reduce_arm state proposal budget budget_proposal identity
  | EvPreSinkAbort generation => reduce_pre_sink_abort state generation
  | EvPreSinkInvariantFailure generation => reduce_pre_sink_invariant_failure state generation
  | EvUnwind => reduce_unwind state
  end.

Definition reduce_sink_capable (state : QuoteTransactionState)
    (event : SinkCapableQuoteTransactionEvent) : Governed QuoteReduction :=
  match event with
  | EvSubmitted generation => reduce_route_success state generation RouteSubmitted
  | EvNtMutationInvoked generation => reduce_route_success state generation RouteNtMutationInvoked
  | EvSinkRejected generation => reduce_sink_rejected state generation
  | EvCallbackRetired generation => mret (reduce_callback_retired state generation)
  | EvPostSinkUnwind generation => reduce_post_sink_failure state generation
  end.

Record GovernedQuoteTransactionInner : Type := mkInner {
  inner_state : QuoteTransactionState;
  inner_supports_modify : bool;
  inner_terminal_owner : option MakerQuoteLifecycleIdentity;
  inner_retention_scope_closed : bool;
}.

Definition set_inner_state (i : GovernedQuoteTransactionInner) (s : QuoteTransactionState) :=
  mkInner s (inner_supports_modify i) (inner_terminal_owner i) (inner_retention_scope_closed i).

Definition set_terminal_owner (i : GovernedQuoteTransactionInner)
    (o : option MakerQuoteLifecycleIdentity) :=
  mkInner (inner_state i) (inner_supports_modify i) o (inner_retention_scope_closed i).

(** The pair [(settled_owner, poison_only)] of [QuoteTransactionReductionRequest::apply]. *)
Definition settled_owner (prior : QuoteTransactionState) (event : QuoteTransactionReductionEvent)
    : option MakerQuoteLifecycleIdentity * bool :=
  match event with
  | SinkCapable (EvSubmitted _ | EvNtMutationInvoked _ | EvPostSinkUnwind _) =>
      (armed_identity prior, false)
  | PreSink (EvPreSinkAbort _ | EvPreSinkInvariantFailure _ | EvUnwind) =>
      (armed_identity prior, true)
  | PreSink (EvLifecycle _ | EvWindDown | EvMissingMoneyMovingTruth | EvArm _ _ _ _)
  | SinkCapable (EvSinkRejected _ | EvCallbackRetired _) => (None, false)
  end.

Definition update_terminal_owner (inner : GovernedQuoteTransactionInner)
    (owner : option MakerQuoteLifecycleIdentity) (poison_only : bool)
    : GovernedQuoteTransactionInner :=
  match owner, poison_only, leg_state (inner_state inner) with
  | Some _, false, _ | Some _, true, LegPoisonedReconciliationHold =>
      set_terminal_owner inner owner
  | None, _, _ | Some _, true, _ => inner
  end.

(** [QuoteTransactionReductionRequest::apply]. *)
Definition reduction_apply (event : QuoteTransactionReductionEvent)
    (inner : GovernedQuoteTransactionInner)
    : Governed (Result GovernedQuoteTransactionCommit QuoteError * GovernedQuoteTransactionInner) :=
  let prior := inner_state inner in
  let '(owner, poison_only) := settled_owner prior event in
  reduced ← match event with
            | PreSink event => reduce_pre_sink prior event (inner_supports_modify inner)
            | SinkCapable event => reduce_sink_capable prior event
            end;
  match reduced with
  | Ok (next, commit) =>
      mret (Ok commit, update_terminal_owner (set_inner_state inner next) owner poison_only)
  | Err (restored, error) =>
      mret (Err error, update_terminal_owner (set_inner_state inner restored) owner poison_only)
  end.

Inductive MakerQuoteRefinementAuthority : Type :=
| AuthorityExact
| AuthorityArmedByAnother
| AuthorityInactive.

Definition refinement_authority (inner : GovernedQuoteTransactionInner)
    (identity : MakerQuoteLifecycleIdentity) : MakerQuoteRefinementAuthority :=
  match armed_identity (inner_state inner) with
  | Some armed => if decide (armed = identity) then AuthorityExact else AuthorityArmedByAnother
  | None =>
      if decide (inner_terminal_owner inner = Some identity)
      then AuthorityExact else AuthorityInactive
  end.

(** [MakerQuoteLifecycleRefinementRequest::apply]. *)
Definition refinement_apply (event : MakerQuoteLifecycleRefinementEvent)
    (inner : GovernedQuoteTransactionInner)
    : Governed (MakerQuoteLifecycleRefinementOutcome * GovernedQuoteTransactionInner) :=
  let prior := inner_state inner in
  let active :=
    match armed_identity prior with Some id => Some id | None => inner_terminal_owner inner end in
  let identity := refinement_identity event in
  let finish (reduced : QuoteReduction) :=
    match reduced with
    | Ok (next, _) =>
        (OutApplied, set_terminal_owner (set_inner_state inner next) (Some identity))
    | Err (restored, _) => (OutInvalid identity active, set_inner_state inner restored)
    end in
  match refinement event, refinement_authority inner identity with
  | RefTerminal stable_effect closes_reopened, AuthorityExact =>
      reduced ← reduce_terminal_refinement prior (identity_generation identity)
                  stable_effect closes_reopened;
      mret (finish reduced)
  | RefReopened, (AuthorityExact | AuthorityInactive) => mret (finish (reduce_reopened prior))
  | RefRetentionHorizon, AuthorityExact =>
      next ← match prior with
             | TxSettled settlement =>
                 reduced ← settlement_reduce_stable settlement reduce_stable_wind_down;
                 mret (TxSettled (close_reopened reduced.1 true))
             | state => mret state
             end;
      mret (OutApplied, set_inner_state inner next)
  | (RefTerminal _ _ | RefRetentionHorizon), (AuthorityArmedByAnother | AuthorityInactive)
  | RefReopened, AuthorityArmedByAnother => mret (OutUnaffected identity active, inner)
  end.

(** [PreparedMakerQuoteSinkInvocation]: prepared at an armed generation, committed
    at the sink boundary.  The guard holds the transaction's lock in between. *)
Definition prepare_sink_invoked (inner : GovernedQuoteTransactionInner) (generation : Z) : bool :=
  match inner_state inner with
  | TxAttempt (mkAttempt _ arm (AttemptArmed _)) =>
      bool_decide (identity_generation (arm_identity arm) = generation)
  | TxStable _ | TxSettled _ | TxAttempt _ => false
  end.

Definition prepared_commit (inner : GovernedQuoteTransactionInner) (generation actor_now_ms : Z)
    : GovernedQuoteTransactionInner :=
  set_inner_state inner (commit_sink_invoked (inner_state inner) generation actor_now_ms).1.

Definition close_retention_scope_inner (inner : GovernedQuoteTransactionInner)
    : Governed (Result GovernedQuoteTransactionCommit QuoteError * GovernedQuoteTransactionInner) :=
  reduction_apply (PreSink EvWindDown)
    (mkInner (inner_state inner) (inner_supports_modify inner) (inner_terminal_owner inner) true).

(** [GovernedQuoteTransaction::propose]. *)
Definition propose_transition (inner : GovernedQuoteTransactionInner) (leg : Leg)
    (event : LegEvent) : option QuoteLegTransitionProposal :=
  if is_winding_down (inner_state inner) then None
  else
    let prior_state := leg_state (inner_state inner) in
    let proposal action pending := Some (mkTransitionProposal leg action prior_state pending) in
    match prior_state, event with
    | LegIdle, QuoteTrigger _ => proposal Submit LegSubmitPending
    | LegResting, QuoteTrigger true =>
        if inner_supports_modify inner
        then proposal Modify LegModifyPending
        else proposal Cancel LegRequotePending
    | LegReplacementPendingBackoff, QuoteTrigger _ => proposal Submit LegSubmitPending
    | LegModifyPending, ModifyRejected => proposal Cancel LegRequotePending
    | _, _ => None
    end.

Definition inner_new (supports_modify : bool) : GovernedQuoteTransactionInner :=
  mkInner tx_idle supports_modify None false.
