(* ===== verification/QuoteLifecycleFacts.v ===== *)
(** * Quote lifecycle: ownership of reservation tokens

    Which token each lifecycle state owns, and the proof that every reduction
    runs without a panic, keeps all budgets within their caps, loses no token and
    invents none ([reduction_apply_owns], [refinement_apply_owns],
    [prepared_commit_owns]).  Proved against the token specifications of
    [BudgetTokens]. *)

From Stdlib Require Import ZArith Lia.
From stdpp Require Import sorting strings gmap numbers list.
From S2P Require Import Prelude RequoteBudget RequoteBudgetFacts BudgetTokens QuoteLifecycle.

Open Scope Z_scope.

(** ** The tokens a state owns *)

Definition active_tokens (p : ActiveQuotePhase) : list RequoteBudgetReservation :=
  match p with
  | ActiveRequotePending r | ActiveReplacementPendingBackoffPrepaid r => [r]
  | _ => []
  end.

Definition poisoned_tokens (b : QuotePoisonedBudget) : list RequoteBudgetReservation :=
  match b with PoisonedCharged => [] | PoisonedPrepaid r => [r] end.

Definition stable_tokens (s : QuoteStableState) : list RequoteBudgetReservation :=
  match s with
  | StableActive p => active_tokens p
  | StableWindingDown _ => []
  | StablePoisoned hold => poisoned_tokens (hold_budget hold)
  end.

Definition armed_tokens (b : ArmedQuoteBudget) : list RequoteBudgetReservation :=
  match b with ArmedReserved r | ArmedPrepaid r => [r] end.

Definition sink_tokens (b : SinkInvokedQuoteBudget) : list RequoteBudgetReservation :=
  match b with
  | ChargePending r | PrepaidPending r | SinkPrepaid r => [r]
  | SinkCharged => []
  end.

Definition accounted_tokens (b : AccountedSinkInvokedQuoteBudget)
    : list RequoteBudgetReservation :=
  match b with AccountedCharged => [] | AccountedPrepaid r => [r] end.

Definition phase_tokens (p : QuoteAttemptPhase) : list RequoteBudgetReservation :=
  match p with
  | AttemptArmed b => armed_tokens b
  | AttemptSinkInvoked b => sink_tokens b
  end.

Definition tx_tokens (s : QuoteTransactionState) : list RequoteBudgetReservation :=
  match s with
  | TxStable stable => stable_tokens stable
  | TxAttempt attempt => phase_tokens (attempt_phase attempt)
  | TxSettled settlement => stable_tokens (settlement_stable settlement)
  end.

(** A freshly reserved token is still refundable and on the ledger. *)
Definition armed_ok (h : budget_heap) (s : QuoteTransactionState) : Prop :=
  match s with
  | TxAttempt (mkAttempt _ _ (AttemptArmed (ArmedReserved r))) =>
      reservation_phase r = Refundable ∧ is_Some (ledger_entry h (token_key r))
  | _ => True
  end.

Definition tx_inv (h : budget_heap) (s : QuoteTransactionState) : Prop :=
  Forall (token_ok h) (tx_tokens s) ∧ armed_ok h s.

(** ** Owning computations *)

(** [m] started in [h] with tokens [ts] ends owning the tokens [toks] of its result. *)
Definition owns {A} (ts : list RequoteBudgetReservation) (h : budget_heap) (m : Governed A)
    (toks : A → list RequoteBudgetReservation) (P : A → budget_heap → Prop) : Prop :=
  runs m h (λ a h', moves ts h (toks a) h' ∧ P a h').

Section Owning.
Context (h : budget_heap) (Hh : heap_ok h).

Lemma owns_ret {A} ts (a : A) toks (P : A → budget_heap → Prop) :
  Forall (token_ok h) ts → toks a = ts → P a h → owns ts h (mret a) toks P.
Proof. intros Ht Ha HP. apply runs_ret. split; [|done]. rewrite Ha. by apply moves_refl. Qed.

Lemma owns_bind {A B} ts (m : Governed A) (f : A → Governed B) mid toks
    (P : A → budget_heap → Prop) (Q : B → budget_heap → Prop) :
  owns ts h m mid P →
  (∀ a h', heap_ok h' → Forall (token_ok h') (mid a) → P a h' → owns (mid a) h' (f a) toks Q) →
  owns ts h (m ≫= f) toks Q.
Proof.
  intros Hm Hf. apply runs_bind. eapply runs_mono; [exact Hm|].
  intros a h' [Hmv HP]. eapply runs_mono; [by apply Hf; [apply Hmv|apply Hmv|]|].
  intros b h'' [Hmv' HQ]. split; [|done]. by eapply moves_trans.
Qed.

(** A computation whose result is dropped from view. *)
Lemma owns_seq {A B} ts (m : Governed A) (k : Governed B) toks (Q : B → budget_heap → Prop) :
  owns ts h m (λ _, []) (λ _ _, True) →
  (∀ h', heap_ok h' → owns [] h' k toks Q) →
  owns ts h (m ;; k) toks Q.
Proof. intros Hm Hk. eapply owns_bind; [exact Hm|]. intros a h' Hh' _ _. by apply Hk. Qed.

Lemma owns_mono {A} ts (m : Governed A) toks toks' (P Q : A → budget_heap → Prop) :
  owns ts h m toks P → (∀ a h', P a h' → toks' a = toks a ∧ Q a h') → owns ts h m toks' Q.
Proof.
  intros Hm HPQ. eapply runs_mono; [exact Hm|]. intros a h' [Hmv HP].
  destruct (HPQ a h' HP) as [-> ?]. done.
Qed.

Lemma owns_drop r :
  token_ok h r → owns [r] h (reservation_drop r) (λ _, []) (λ _ _, True).
Proof. intros Hr. eapply runs_mono; [by apply drop_moves|]. by intros [] h' ?. Qed.

Lemma owns_active_drop p :
  Forall (token_ok h) (active_tokens p) →
  owns (active_tokens p) h (active_drop p) (λ _, []) (λ _ _, True).
Proof.
  destruct p; simpl; intros Hp; try (by apply owns_ret); apply owns_drop; by inversion Hp.
Qed.

Lemma owns_poisoned_drop b :
  Forall (token_ok h) (poisoned_tokens b) →
  owns (poisoned_tokens b) h (poisoned_drop b) (λ _, []) (λ _ _, True).
Proof. destruct b; simpl; intros Hb; [by apply owns_ret|]. apply owns_drop. by inversion Hb. Qed.

End Owning.

Lemma owns_account h b :
  heap_ok h → Forall (token_ok h) (sink_tokens b) →
  owns (sink_tokens b) h (account b) accounted_tokens (λ _ _, True).
Proof.
  intros Hh Hb. destruct b as [r|r| |r]; simpl in *; try (by apply owns_ret).
  - inversion Hb as [|? ? Hr]; subst.
    eapply (owns_bind _ Hh _ _ _ (λ r, [r]) _ (λ _ _, True)).
    { eapply runs_mono; [by apply settle_moves|]. by intros r' h' [-> ?]. }
    intros r' h' Hh' Hr' _. inversion Hr'; subst. apply owns_seq; [done|by apply owns_drop|].
    intros h'' Hh''. by apply owns_ret.
  - inversion Hb as [|? ? Hr]; subst.
    eapply (owns_bind _ Hh _ _ _ (λ r, [r]) _ (λ _ _, True)).
    { eapply runs_mono; [by apply settle_moves|]. by intros r' h' [-> ?]. }
    intros r' h' Hh' Hr' _. by apply owns_ret.
Qed.

(** Closes the goals left by a match over states: returns, drops and sequences. *)
Ltac owning :=
  repeat first
    [ progress simpl in *
    | match goal with H : Forall _ [_] |- _ => inversion_clear H end
    | match goal with
      | |- owns _ _ (mret _) _ _ => apply owns_ret; [done|first [done|by constructor]|done|done]
      | |- owns _ _ (_ ;; _) _ _ => apply owns_seq; [done| |intros ? ?]
      | |- owns _ _ (reservation_drop _) _ _ => by apply owns_drop
      | |- owns _ _ (poisoned_drop _) _ _ => apply owns_poisoned_drop; [done|first [done|by constructor]]
      end ].

(** ** The reducers *)

Definition reduction_state (r : QuoteReduction) : QuoteTransactionState :=
  match r with Ok (s, _) | Err (s, _) => s end.

Abbreviation reduced_tokens := (λ p : QuoteTransactionState * GovernedQuoteTransactionCommit, tx_tokens p.1).
Abbreviation reduced_armed :=
  (λ (p : QuoteTransactionState * GovernedQuoteTransactionCommit) (h : budget_heap), armed_ok h p.1).
Abbreviation reduction_tokens := (λ r : QuoteReduction, tx_tokens (reduction_state r)).
Abbreviation reduction_armed :=
  (λ (r : QuoteReduction) (h : budget_heap), armed_ok h (reduction_state r)).

Lemma owns_stable_lifecycle h stable event sm :
  heap_ok h → Forall (token_ok h) (stable_tokens stable) →
  owns (stable_tokens stable) h (reduce_stable_lifecycle stable event sm)
    reduced_tokens reduced_armed.
Proof.
  intros Hh Hs. destruct stable as [p|p|hold].
  - destruct p; destruct event as [[]| | | | | | |]; owning.
  - destruct p, event; owning.
  - destruct event; owning.
Qed.

Lemma owns_lifecycle h s event sm :
  heap_ok h → tx_inv h s →
  owns (tx_tokens s) h (reduce_lifecycle s event sm) reduced_tokens reduced_armed.
Proof.
  intros Hh [Hs Ha]. destruct s as [stable|attempt|settlement]; simpl in *.
  - by apply owns_stable_lifecycle.
  - by apply owns_ret.
  - by apply owns_stable_lifecycle.
Qed.

Lemma owns_stable_wind_down h stable :
  heap_ok h → Forall (token_ok h) (stable_tokens stable) →
  owns (stable_tokens stable) h (reduce_stable_wind_down stable)
    (λ p, stable_tokens p.1) (λ _ _, True).
Proof. intros Hh Hs. destruct stable as [[]|[]|hold]; owning. Qed.

Lemma owns_reduce_stable h settlement reduce :
  heap_ok h →
  owns (stable_tokens (settlement_stable settlement)) h (reduce (settlement_stable settlement))
    (λ p, stable_tokens p.1) (λ _ _, True) →
  owns (stable_tokens (settlement_stable settlement)) h (settlement_reduce_stable settlement reduce)
    (λ p, stable_tokens (settlement_stable p.1)) (λ _ _, True).
Proof.
  intros Hh Hr. eapply owns_bind; [done|exact Hr|].
  intros p h' Hh' Hp _. by apply owns_ret.
Qed.

Lemma owns_wind_down h s :
  heap_ok h → tx_inv h s →
  owns (tx_tokens s) h (reduce_wind_down s) reduced_tokens reduced_armed.
Proof.
  intros Hh [Hs Ha]. destruct s as [stable|[mode arm phase]|settlement]; simpl in *.
  - eapply owns_bind; [done|by apply owns_stable_wind_down|].
    intros p h' Hh' Hp _. by apply owns_ret.
  - by apply owns_ret.
  - eapply owns_bind; [done|apply owns_reduce_stable; [done|by apply owns_stable_wind_down]|].
    intros p h' Hh' Hp _. by apply owns_ret.
Qed.

Lemma poison_stable_tokens stable : stable_tokens (poison_stable stable) = stable_tokens stable.
Proof. by destruct stable as [[]|[]|hold]. Qed.

Lemma close_reopened_stable s c : settlement_stable (close_reopened s c) = settlement_stable s.
Proof. done. Qed.

Lemma into_poisoned_tokens b : poisoned_tokens (into_poisoned b) = accounted_tokens b.
Proof. by destruct b. Qed.

Lemma owns_poison_attempt h attempt :
  heap_ok h → Forall (token_ok h) (phase_tokens (attempt_phase attempt)) →
  owns (phase_tokens (attempt_phase attempt)) h (poison_attempt attempt)
    stable_tokens (λ _ _, True).
Proof.
  intros Hh Hp. unfold poison_attempt.
  eapply (owns_bind _ Hh _ _ _ poisoned_tokens _ (λ _ _, True)).
  - destruct (attempt_phase attempt) as [[r|r]|b]; owning.
    eapply owns_bind; [done|by apply owns_account|]. intros a h' Hh' Ha _.
    apply owns_ret; try done. apply into_poisoned_tokens.
  - intros b h' Hh' Hb _. by apply owns_ret.
Qed.

Lemma owns_missing_truth h s :
  heap_ok h → tx_inv h s →
  owns (tx_tokens s) h (reduce_missing_money_moving_truth s) reduced_tokens reduced_armed.
Proof.
  intros Hh [Hs Ha]. destruct s as [stable|attempt|settlement]; simpl in *.
  - apply owns_ret; try done. apply poison_stable_tokens.
  - eapply owns_bind; [done|by apply owns_poison_attempt|].
    intros p h' Hh' Hp _. by apply owns_ret.
  - eapply owns_bind; [done|apply owns_reduce_stable; [done|]|].
    + apply owns_ret; try done. apply poison_stable_tokens.
    + intros p h' Hh' Hp _. by apply owns_ret.
Qed.

(** ** Arming *)

(** A reserve proposal refers to an allocated pair and carries well-formed costs. *)
Definition budget_proposal_ok (h : budget_heap) (budget : RequoteBudgetPair)
    (p : MakerQuoteBudgetProposal) : Prop :=
  match p with
  | BudgetReserve p => is_Some (h !! pair_loc budget) ∧ liability_ok (proposal_liability p)
  | BudgetPrepaid _ _ => True
  end.

(** Tokens the computation does not touch are carried along. *)
Lemma owns_frame {A} ts fs h (m : Governed A) toks (P : A → budget_heap → Prop) :
  owns ts h m toks P → Forall (token_ok h) fs → (∀ k, k ∈ keys fs → k ∉ keys ts) →
  owns (ts ++ fs) h m (λ a, toks a ++ fs) (λ a h', P a h' ∧
    ∀ r, r ∈ fs → ledger_entry h' (token_key r) = ledger_entry h (token_key r)).
Proof.
  intros Hm Hfs Hd. eapply runs_mono; [exact Hm|]. intros a h' [Hmv HP].
  split_and!; [by apply moves_app|done|]. intros r Hr. rewrite Forall_forall in Hfs.
  eapply moves_unframed; [exact Hmv|by apply Hfs|]. apply Hd.
  apply list_elem_of_fmap. by exists r.
Qed.

Lemma owns_perm {A} ts ts' h (m : Governed A) toks (P : A → budget_heap → Prop) :
  ts ≡ₚ ts' → owns ts h m toks P → owns ts' h m toks P.
Proof. intros Hts Hm. eapply runs_mono; [exact Hm|]. intros a h' [Hmv ?]. by rewrite <- Hts. Qed.

Lemma owns_reserve h pair p fs :
  heap_ok h → is_Some (h !! pair_loc pair) → liability_ok (proposal_liability p) →
  Forall (token_ok h) fs →
  owns fs h (reserve pair p)
    (λ res, match res with Ok r => r :: fs | Err _ => fs end)
    (λ res h', match res with
     | Ok r => token_key r ∉ keys fs ∧ reservation_phase r = Refundable ∧
         ledger_entry h' (token_key r) = Some (proposal_liability p)
     | Err _ => True
     end).
Proof.
  intros Hh Hl Hp Hfs. eapply runs_mono; [by apply reserve_moves|].
  intros [r|e] h'; [|intros ->; split; [by apply moves_refl|done]].
  intros (Hm & Hphase & He). split_and!; try done.
  - apply (moves_app [] h [r] h' fs); [done|done|]. intros k _. apply not_elem_of_nil.
  - intros Hin. apply list_elem_of_fmap in Hin as (r' & Hk & Hr').
    destruct (moves_fresh _ _ _ _ Hm (token_key r)) as [Hin|Hf].
    + by apply list_elem_of_singleton.
    + by apply not_elem_of_nil in Hin.
    + rewrite Hk in Hf. rewrite Forall_forall in Hfs. by eapply token_ok_not_fresh, Hf; apply Hfs.
Qed.

Lemma owns_arm_active h active proposal budget bp identity :
  heap_ok h → Forall (token_ok h) (active_tokens active) → budget_proposal_ok h budget bp →
  owns (active_tokens active) h (reduce_arm_active active proposal budget bp identity)
    reduction_tokens reduction_armed.
Proof.
  intros Hh Ht Hbp. unfold reduce_arm_active. case_decide; [by apply owns_ret|].
  destruct bp as [p|g now].
  - destruct Hbp as [Hl Hp]. eapply owns_bind; [done|by apply owns_reserve|].
    intros [r|e] h' Hh' Ht' HP; [|by apply owns_ret].
    destruct HP as (Hk & Hphase & He). apply Forall_cons in Ht' as [Hr Hact].
    eapply (owns_bind _ Hh' _ _ _ (λ _, [r]) _ (λ _ h'', is_Some (ledger_entry h'' (token_key r)))).
    + eapply owns_perm; [apply Permutation_app_comm with (l := active_tokens active) (l' := [r])|].
      eapply owns_mono; [apply owns_frame; [by apply owns_active_drop|by constructor|]|].
      * intros k Hk' Hin. by apply list_elem_of_singleton in Hk' as ->.
      * intros [] h'' [_ Hfr]. split; [done|]. rewrite Hfr, He by (by apply list_elem_of_singleton). done.
    + intros [] h'' Hh'' Hr'' Hent. by apply owns_ret.
  - destruct active; try (by apply owns_ret). case_decide; by apply owns_ret.
Qed.

Lemma owns_arm h s proposal budget bp identity :
  heap_ok h → tx_inv h s → budget_proposal_ok h budget bp →
  owns (tx_tokens s) h (reduce_arm s proposal budget bp identity)
    reduction_tokens reduction_armed.
Proof.
  intros Hh [Hs Ha] Hbp. unfold reduce_arm. case_decide; [by apply owns_ret|].
  destruct s as [[]|attempt|[g st []]]; simpl in *;
    first [by apply owns_arm_active|by apply owns_ret].
Qed.

(** ** Settling an attempt *)

Lemma restore_prior_tokens arm : stable_tokens (restore_prior arm) = [].
Proof. unfold restore_prior. by destruct (arm_prior_state arm). Qed.

Lemma committed_pending_tokens arm : stable_tokens (committed_pending arm) = [].
Proof. unfold committed_pending. by destruct (arm_pending_state arm). Qed.

Lemma settlement_replay_tokens s g route :
  tx_tokens (reduction_state (reduce_settlement_replay s g route)) = tx_tokens s.
Proof.
  destruct s as [stable|attempt|[g' st stable]]; try done. simpl.
  unfold settle_route. simpl. case_decide; [|done].
  destruct st; simpl; try done; by case_decide.
Qed.

Lemma settlement_replay_armed h settlement g route :
  armed_ok h (reduction_state (reduce_settlement_replay (TxSettled settlement) g route)).
Proof.
  simpl. unfold settle_route. case_decide; [|done].
  destruct (settlement_status settlement); simpl; try done; by case_decide.
Qed.

Lemma owns_settlement_replay h settlement g route :
  heap_ok h → tx_inv h (TxSettled settlement) →
  owns (tx_tokens (TxSettled settlement)) h
    (mret (reduce_settlement_replay (TxSettled settlement) g route))
    reduction_tokens reduction_armed.
Proof.
  intros Hh [Hs _]. apply owns_ret; try done; [apply settlement_replay_tokens|].
  apply settlement_replay_armed.
Qed.

Lemma owns_finish_abort h mode arm budget g :
  heap_ok h → tx_inv h (TxAttempt (mkAttempt mode arm (AttemptArmed budget))) →
  owns (armed_tokens budget) h (finish_pre_sink_abort mode arm budget g)
    reduction_tokens (λ r h', armed_ok h' (reduction_state r) ∧ is_ok r = true).
Proof.
  intros Hh [Ht Ha]. destruct budget as [r|r]; simpl in *.
  - inversion_clear Ht as [|? ? Hr _]. destruct Ha as [Hphase [l Hl]].
    eapply (owns_bind _ Hh _ _ _ (λ _, []) _ (λ res _, res = Ok tt)).
    + eapply runs_mono; [by apply abort_moves|]. intros res h' [-> Hm].
      by rewrite Hphase, Hl.
    + intros res h' Hh' _ ->. destruct mode; apply owns_ret; try done. apply restore_prior_tokens.
  - inversion_clear Ht as [|? ? Hr _]. eapply (owns_bind _ Hh _ _ _ stable_tokens _ (λ _ _, True)).
    + destruct mode; owning.
    + intros stable h' Hh' Hs _. by apply owns_ret.
Qed.

Lemma owns_finish_invariant_failure h mode arm budget g :
  heap_ok h → Forall (token_ok h) (armed_tokens budget) →
  owns (armed_tokens budget) h (finish_pre_sink_invariant_failure mode arm budget g)
    reduction_tokens reduction_armed.
Proof.
  intros Hh Ht. destruct budget as [r|r]; simpl in *; [|by apply owns_ret].
  inversion_clear Ht as [|? ? Hr _].
  eapply (owns_bind _ Hh _ _ _ (λ _, []) _ (λ res _, res = Ok tt)).
  - eapply runs_mono; [by apply commit_moves|]. by intros res h' [-> ?].
  - intros res h' Hh' _ ->. by apply owns_ret.
Qed.

Lemma owns_finish_post_sink h mode arm budget g :
  heap_ok h → Forall (token_ok h) (sink_tokens budget) →
  owns (sink_tokens budget) h (finish_post_sink_failure mode arm budget g)
    reduction_tokens reduction_armed.
Proof.
  intros Hh Ht. eapply owns_bind; [done|by apply owns_account|].
  intros a h' Hh' Ha _. apply owns_ret; try done. apply into_poisoned_tokens.
Qed.

(** The fence picks one of two branches; both must own. *)
Lemma owns_fenced h s g stale current :
  owns (tx_tokens s) h (stale s) reduction_tokens reduction_armed →
  owns (tx_tokens s) h (current s) reduction_tokens reduction_armed →
  owns (tx_tokens s) h (reduce_generation_fenced s g stale current)
    reduction_tokens reduction_armed.
Proof. intros. unfold reduce_generation_fenced. destruct (armed_identity s); [case_decide|]; done. Qed.

Lemma owns_pre_sink_abort h s g :
  heap_ok h → tx_inv h s →
  owns (tx_tokens s) h (reduce_pre_sink_abort s g) reduction_tokens reduction_armed.
Proof.
  intros Hh Hinv. apply owns_fenced; [by apply owns_ret; try apply Hinv|].
  destruct s as [stable|[mode arm [b|b]]|settlement]; try (by apply owns_ret; try apply Hinv).
  - eapply owns_mono; [by apply owns_finish_abort|]. naive_solver.
  - by apply owns_settlement_replay.
Qed.

Lemma owns_pre_sink_invariant_failure h s g :
  heap_ok h → tx_inv h s →
  owns (tx_tokens s) h (reduce_pre_sink_invariant_failure s g) reduction_tokens reduction_armed.
Proof.
  intros Hh Hinv. apply owns_fenced; [by apply owns_ret; try apply Hinv|].
  destruct s as [stable|[mode arm [b|b]]|settlement]; try (by apply owns_ret; try apply Hinv).
  - apply owns_finish_invariant_failure; [done|apply Hinv].
  - by apply owns_settlement_replay.
Qed.

Lemma owns_unwind h s :
  heap_ok h → tx_inv h s →
  owns (tx_tokens s) h (reduce_unwind s) reduction_tokens reduction_armed.
Proof.
  intros Hh Hinv. destruct s as [stable|[mode arm [b|b]]|settlement];
    try (by apply owns_ret; try apply Hinv).
  - eapply owns_mono; [by apply owns_finish_abort|]. naive_solver.
  - apply owns_finish_post_sink; [done|apply Hinv].
Qed.

Lemma owns_route_success_state h mode arm budget :
  heap_ok h → Forall (token_ok h) (sink_tokens budget) →
  owns (sink_tokens budget) h (route_success_state mode arm budget) stable_tokens (λ _ _, True).
Proof.
  intros Hh Ht. eapply owns_bind; [done|by apply owns_account|].
  intros a h' Hh' Ha _. destruct mode, a; owning. apply owns_ret; try done.
  apply committed_pending_tokens.
Qed.

Lemma owns_route_success h s g success :
  heap_ok h → tx_inv h s →
  owns (tx_tokens s) h (reduce_route_success s g success) reduction_tokens reduction_armed.
Proof.
  intros Hh Hinv. unfold reduce_route_success. destruct (route_success_projection success) as [settlement msg].
  apply owns_fenced; [by apply owns_ret; try apply Hinv|].
  destruct s as [stable|[mode arm [b|b]]|st]; try (by apply owns_ret; try apply Hinv).
  - assert (Hgo : owns (sink_tokens b) h
      (stable ← route_success_state mode arm b; mret (Ok (settled g settlement stable, no_action)))
      reduction_tokens reduction_armed).
    { eapply owns_bind; [done|apply owns_route_success_state; [done|apply Hinv]|].
      intros stable h' Hh' Hs _. by apply owns_ret. }
    destruct (obligation_route_success (arm_obligation arm)), success;
      first [exact Hgo|by apply owns_ret; try apply Hinv].
  - by apply owns_settlement_replay.
Qed.

Lemma owns_sink_rejected h s g :
  heap_ok h → tx_inv h s →
  owns (tx_tokens s) h (reduce_sink_rejected s g) reduction_tokens reduction_armed.
Proof.
  intros Hh Hinv. unfold reduce_sink_rejected.
  apply owns_fenced; [by apply owns_ret; try apply Hinv|].
  destruct s as [stable|[mode arm [b|b]]|st]; try (by apply owns_ret; try apply Hinv).
  - destruct (arm_obligation arm); try (by apply owns_ret; try apply Hinv).
    all: eapply owns_bind; [done|apply owns_account; [done|apply Hinv]|].
    all: intros [|r] h' Hh' Ha _; apply owns_ret; try done.
    all: destruct mode; [apply restore_prior_tokens|done].
  - by apply owns_settlement_replay.
Qed.

Lemma owns_post_sink_failure h s g :
  heap_ok h → tx_inv h s →
  owns (tx_tokens s) h (reduce_post_sink_failure s g) reduction_tokens reduction_armed.
Proof.
  intros Hh Hinv. unfold reduce_post_sink_failure.
  apply owns_fenced; [by apply owns_ret; try apply Hinv|].
  destruct s as [stable|[mode arm [b|b]]|st]; try (by apply owns_ret; try apply Hinv).
  - apply owns_finish_post_sink; [done|apply Hinv].
  - by apply owns_settlement_replay.
Qed.

Lemma owns_callback_retired h s g :
  heap_ok h → tx_inv h s →
  owns (tx_tokens s) h (mret (reduce_callback_retired s g)) reduction_tokens reduction_armed.
Proof.
  intros Hh Hinv. destruct s as [stable|attempt|st]; try (by apply owns_ret; try apply Hinv).
  by apply owns_settlement_replay.
Qed.

(** ** Terminal truth *)

Lemma owns_terminal_state h obligation budget disposition :
  heap_ok h → Forall (token_ok h) (poisoned_tokens budget) →
  owns (poisoned_tokens budget) h (terminal_state obligation budget disposition)
    stable_tokens (λ _ _, True).
Proof. intros Hh Ht. destruct disposition, obligation, budget; owning. Qed.

Lemma owns_terminal_stable h stable disposition :
  heap_ok h → Forall (token_ok h) (stable_tokens stable) →
  owns (stable_tokens stable) h (terminal_stable stable disposition)
    stable_tokens (λ _ _, True).
Proof.
  intros Hh Ht. destruct stable as [p|p|[mode obligation budget]]; simpl in *.
  - destruct p; try by owning.
    by apply (owns_terminal_state h RequoteCancel (PoisonedPrepaid prepaid)).
  - by apply owns_ret.
  - destruct mode; [by apply owns_terminal_state|owning].
Qed.

Lemma owns_terminal_attempt h attempt disposition :
  heap_ok h → Forall (token_ok h) (phase_tokens (attempt_phase attempt)) →
  owns (phase_tokens (attempt_phase attempt)) h (terminal_attempt attempt disposition)
    stable_tokens (λ _ _, True).
Proof.
  intros Hh Ht. unfold terminal_attempt.
  destruct attempt as [[] arm [[r|r]|b]]; simpl in *; try by owning.
  - inversion_clear Ht. apply owns_seq; [done|by apply owns_drop|].
    intros h' Hh'. by apply (owns_terminal_state h' _ PoisonedCharged).
  - by apply (owns_terminal_state h _ (PoisonedPrepaid r)).
  - eapply owns_bind; [done|by apply owns_account|]. intros a h' Hh' Ha _.
    rewrite <- into_poisoned_tokens in *. by apply owns_terminal_state.
  - eapply owns_bind; [done|by apply owns_account|]. intros a h' Hh' Ha _.
    rewrite <- into_poisoned_tokens in *. owning.
Qed.

Lemma owns_terminal h s disposition :
  heap_ok h → tx_inv h s →
  owns (tx_tokens s) h (reduce_terminal s disposition) reduced_tokens reduced_armed.
Proof.
  intros Hh [Hs _]. destruct s as [stable|attempt|settlement]; simpl in *.
  - eapply owns_bind; [done|by apply owns_terminal_stable|].
    intros st h' Hh' Hst _. by apply owns_ret.
  - eapply owns_bind; [done|by apply owns_terminal_attempt|].
    intros st h' Hh' Hst _. by apply owns_ret.
  - eapply owns_bind; [done|apply owns_reduce_stable; [done|]|].
    + eapply owns_bind; [done|by apply owns_terminal_stable|].
      intros st h' Hh' Hst _. by apply owns_ret.
    + intros p h' Hh' Hp _. by apply owns_ret.
Qed.

Lemma owns_terminal_refinement h s g effect closes :
  heap_ok h → tx_inv h s →
  owns (tx_tokens s) h (reduce_terminal_refinement s g effect closes)
    reduction_tokens reduction_armed.
Proof.
  intros Hh Hinv. unfold reduce_terminal_refinement.
  eapply (owns_bind _ Hh _ _ _ reduced_tokens _ reduced_armed).
  - destruct effect; [by apply owns_terminal|]. by apply owns_ret; try apply Hinv.
  - intros [[stable|attempt|settlement] c] h' Hh' Ht Ha; by apply owns_ret.
Qed.

Lemma reduce_reopened_tokens h s :
  tx_inv h s → tx_tokens (reduction_state (reduce_reopened s)) = tx_tokens s ∧
    armed_ok h (reduction_state (reduce_reopened s)).
Proof.
  intros [Hs Ha]. destruct s as [stable|attempt|[g st stable]]; try done.
  unfold reduce_reopened, reopen. simpl. destruct st, (stable_can_reopen stable); done.
Qed.

(** ** The two entry points *)

Definition reduction_event_ok (h : budget_heap) (event : QuoteTransactionReductionEvent) : Prop :=
  match event with
  | PreSink (EvArm _ budget bp _) => budget_proposal_ok h budget bp
  | _ => True
  end.

Lemma owns_reduce_pre_sink h s event sm :
  heap_ok h → tx_inv h s → reduction_event_ok h (PreSink event) →
  owns (tx_tokens s) h (reduce_pre_sink s event sm) reduction_tokens reduction_armed.
Proof.
  intros Hh Hinv Hev. destruct event; simpl in *.
  - eapply owns_bind; [done|by apply owns_lifecycle|]. intros [s' c] h' Hh' Ht Ha. by apply owns_ret.
  - eapply owns_bind; [done|by apply owns_wind_down|]. intros [s' c] h' Hh' Ht Ha. by apply owns_ret.
  - eapply owns_bind; [done|by apply owns_missing_truth|]. intros [s' c] h' Hh' Ht Ha. by apply owns_ret.
  - by apply owns_arm.
  - by apply owns_pre_sink_abort.
  - by apply owns_pre_sink_invariant_failure.
  - by apply owns_unwind.
Qed.

Lemma owns_reduce_sink_capable h s event :
  heap_ok h → tx_inv h s →
  owns (tx_tokens s) h (reduce_sink_capable s event) reduction_tokens reduction_armed.
Proof.
  intros Hh Hinv. destruct event; simpl.
  - by apply owns_route_success.
  - by apply owns_route_success.
  - by apply owns_sink_rejected.
  - by apply owns_callback_retired.
  - by apply owns_post_sink_failure.
Qed.

Lemma update_terminal_owner_state inner owner po :
  inner_state (update_terminal_owner inner owner po) = inner_state inner.
Proof. unfold update_terminal_owner. by repeat case_match. Qed.

(** An entry point keeps the token invariant and moves only its own tokens. *)
Definition apply_owns {A} (h : budget_heap) (inner : GovernedQuoteTransactionInner)
    (m : Governed (A * GovernedQuoteTransactionInner)) : Prop :=
  runs m h (λ p h',
    moves (tx_tokens (inner_state inner)) h (tx_tokens (inner_state p.2)) h' ∧
    tx_inv h' (inner_state p.2)).

Lemma reduction_apply_owns h inner event :
  heap_ok h → tx_inv h (inner_state inner) → reduction_event_ok h event →
  apply_owns h inner (reduction_apply event inner).
Proof.
  intros Hh Hinv Hev. unfold reduction_apply.
  destruct (settled_owner (inner_state inner) event) as [owner po].
  apply runs_bind.
  eapply (runs_mono _ _ (λ r h', moves (tx_tokens (inner_state inner)) h (reduction_tokens r) h' ∧
    reduction_armed r h')).
  { destruct event; [by apply owns_reduce_pre_sink|by apply owns_reduce_sink_capable]. }
  intros [[s c]|[s e]] h' [Hm Ha]; apply runs_ret; simpl;
    rewrite update_terminal_owner_state; split_and!; try done; split; try done; apply Hm.
Qed.

Lemma refinement_apply_owns h inner event :
  heap_ok h → tx_inv h (inner_state inner) →
  apply_owns h inner (refinement_apply event inner).
Proof.
  intros Hh Hinv. unfold refinement_apply, apply_owns.
  assert (Hsame : moves (tx_tokens (inner_state inner)) h (tx_tokens (inner_state inner)) h)
    by (apply moves_refl; [done|apply Hinv]).
  assert (Hreopen := reduce_reopened_tokens h (inner_state inner) Hinv).
  destruct (refinement event) as [effect closes| |], (refinement_authority inner _).
  all: try (by apply runs_ret).
  - apply runs_bind. eapply runs_mono; [by apply owns_terminal_refinement|].
    intros [[s c]|[s e]] h' [Hm Ha]; apply runs_ret; split_and!; try done; split; try done; apply Hm.
  - apply runs_ret. destruct (reduce_reopened (inner_state inner)) as [[s c]|[s e]];
      simpl in *; destruct Hreopen as [Ht Ha]; unfold tx_inv; rewrite Ht; split_and!; try done; apply Hinv.
  - apply runs_ret. destruct (reduce_reopened (inner_state inner)) as [[s c]|[s e]];
      simpl in *; destruct Hreopen as [Ht Ha]; unfold tx_inv; rewrite Ht; split_and!; try done; apply Hinv.
  - apply runs_bind. destruct (inner_state inner) as [stable|attempt|settlement] eqn:Es;
      try (by apply runs_ret, runs_ret).
    apply runs_bind. eapply runs_mono; [apply owns_reduce_stable; [done|]|].
    + apply owns_stable_wind_down; [done|apply Hinv].
    + intros p h' [Hm _]. apply runs_ret, runs_ret. split_and!; try done. split; [|done]. apply Hm.
Qed.

(** Crossing the sink boundary with a clock that is not before the reservation's. *)
Lemma prepared_commit_owns h inner g now :
  heap_ok h → tx_inv h (inner_state inner) → is_u64 now →
  (∀ r l, r ∈ tx_tokens (inner_state inner) → ledger_entry h (token_key r) = Some l →
     liability_now_ms l ≤ now) →
  tx_inv h (inner_state (prepared_commit inner g now)) ∧
  keys (tx_tokens (inner_state (prepared_commit inner g now))) = keys (tx_tokens (inner_state inner)).
Proof.
  intros Hh Hinv Hnow Hclock. unfold prepared_commit, commit_sink_invoked. simpl.
  destruct (inner_state inner) as [stable|[mode arm [b|b]]|settlement]; simpl in *; try done.
  case_decide; [|done]. simpl.
  assert (Hprep : ∀ r, r ∈ armed_tokens b → token_ok h (prepare_sink_invoked_at r now) ∧
    token_key (prepare_sink_invoked_at r now) = token_key r).
  { intros r Hr. destruct Hinv as [Ht _]. simpl in Ht. rewrite Forall_forall in Ht.
    specialize (Ht r Hr). unfold prepare_sink_invoked_at.
    destruct (reservation_phase r) eqn:Hp; [|done]. split; [|done].
    destruct Ht as [? _]. split; [done|]. split; [done|]. intros l Hl. by apply (Hclock r). }
  unfold tx_inv. destruct b as [r|r], (arm_obligation arm); simpl in *;
    (destruct (Hprep r) as [? Hk]; [by apply list_elem_of_singleton|]); rewrite ?Hk; repeat split;
    try done; by constructor.
Qed.
