(* ===== verification/MarketQuote.v ===== *)
(** * Market quote: the two-leg controller

    Models [MarketQuote], [MakerQuoteLifecycleHandle] and [GovernedQuoteTransaction]
    of [src/src/bolt_v3_quote_lifecycle.rs].  A governed transaction is an
    [Arc<Mutex<..>>], so it is a location; a [world] is the heap of budget pairs
    together with the heap of transactions, and clones of a market or a handle share
    locations.  [expect] on an [Err] is a panic. *)

From Stdlib Require Import ZArith Lia.
From stdpp Require Import sorting strings gmap numbers list.
From S2P Require Import Prelude RequoteBudget QuoteLifecycle.

Open Scope Z_scope.

Abbreviation tx_heap := (gmap loc GovernedQuoteTransactionInner).

Record world : Type := mkWorld {
  world_budgets : budget_heap;
  world_txs : tx_heap;
}.

Record GovernedQuoteTransaction : Type := mkTx { tx_loc : loc }.

(** Run [f] on the transaction under its lock. *)
Definition lock_tx {A} (t : GovernedQuoteTransaction)
    (f : GovernedQuoteTransactionInner → Governed (A * GovernedQuoteTransactionInner))
    : Rust world A :=
  λ w,
    match world_txs w !! tx_loc t with
    | Some inner =>
        match f inner (world_budgets w) with
        | Some ((a, inner'), h') => Some (a, mkWorld h' (<[tx_loc t := inner']> (world_txs w)))
        | None => None
        end
    | None => None
    end.

(** Read the transaction under its lock. *)
Definition read_tx {A} (t : GovernedQuoteTransaction) (f : GovernedQuoteTransactionInner → A)
    : Rust world A :=
  λ w,
    match world_txs w !! tx_loc t with
    | Some inner => Some (f inner, w)
    | None => None
    end.

Definition tx_reduce (t : GovernedQuoteTransaction) (event : QuoteTransactionReductionEvent)
    : Rust world (Result GovernedQuoteTransactionCommit QuoteError) :=
  lock_tx t (reduction_apply event).

Definition tx_refine (t : GovernedQuoteTransaction) (event : MakerQuoteLifecycleRefinementEvent)
    : Rust world MakerQuoteLifecycleRefinementOutcome :=
  lock_tx t (refinement_apply event).

Definition tx_leg_state (t : GovernedQuoteTransaction) : Rust world LegState :=
  read_tx t (λ inner, leg_state (inner_state inner)).

Definition tx_prepaid_generation (t : GovernedQuoteTransaction) : Rust world (option Z) :=
  read_tx t (λ inner, prepaid_generation (inner_state inner)).

Definition tx_supports_modify (t : GovernedQuoteTransaction) : Rust world bool :=
  read_tx t inner_supports_modify.

Definition tx_retention_scope_is_closed (t : GovernedQuoteTransaction) : Rust world bool :=
  read_tx t inner_retention_scope_closed.

Definition tx_propose (t : GovernedQuoteTransaction) (leg : Leg) (event : LegEvent)
    : Rust world (option QuoteLegTransitionProposal) :=
  read_tx t (λ inner, propose_transition inner leg event).

Definition tx_registration_phase (t : GovernedQuoteTransaction) (generation : Z)
    : Rust world QuoteTransactionRegistrationPhase :=
  read_tx t (λ inner, registration_phase (inner_state inner) generation).

Definition tx_close_retention_scope (t : GovernedQuoteTransaction)
    : Rust world (Result GovernedQuoteTransactionCommit QuoteError) :=
  lock_tx t close_retention_scope_inner.

(** [prepare_sink_invoked] followed by [commit] of the prepared guard: the guard holds
    the lock, so the two are one step; an unprepared transaction is refused. *)
Definition tx_prepare_and_commit_sink (t : GovernedQuoteTransaction) (generation actor_now_ms : Z)
    : Rust world (Result unit QuoteError) :=
  lock_tx t (λ inner,
    if prepare_sink_invoked inner generation
    then mret (Ok tt, prepared_commit inner generation actor_now_ms)
    else mret (Err (QuoteMessage "quote transaction is not armed at the prepared generation"), inner)).

Definition shares_authority (a b : GovernedQuoteTransaction) : bool :=
  bool_decide (tx_loc a = tx_loc b).

(** [.expect(..)] on a reduction. *)
Definition expect_commit (r : Result GovernedQuoteTransactionCommit QuoteError)
    : Rust world GovernedQuoteTransactionCommit :=
  match r with
  | Ok c => mret c
  | Err _ => panic
  end.

Inductive MarketState : Type :=
| MarketIdle
| MarketQuoting
| MarketDraining
| MarketReconciliationHold.

Inductive MarketAction : Type :=
| ActionLeg (leg : Leg) (action : LifecycleAction)
| CancelAllBothLegs
| CancelAllOneSide (leg : Leg).

(** The part of [market_state] that depends on the two leg states only. *)
Definition market_state_of (yes no : LegState) : MarketState :=
  let states := [yes; no] in
  let any (f : LegState → bool) := existsb f states in
  let any_active :=
    any (λ s, match s with
     | LegSubmitPending | LegResting | LegRequotePending | LegModifyPending
     | LegReplacementPendingBackoff => true
     | _ => false
     end) in
  if any (λ s, bool_decide (s = LegPoisonedReconciliationHold)) then MarketReconciliationHold
  else if any_active then MarketQuoting
  else if any (λ s, bool_decide (s = LegCancelPending)) then MarketDraining
  else MarketIdle.

Section Market.
Context {InstrumentId : Type} `{EqDecision InstrumentId}.

Record MakerOrderLifecycleScopeIdentity : Type := mkScope {
  start_timestamp_milliseconds : Z;
  yes_instrument_id : InstrumentId;
  no_instrument_id : InstrumentId;
}.

Definition scope_instrument_id (s : MakerOrderLifecycleScopeIdentity) (leg : Leg) : InstrumentId :=
  match leg with LegYes => yes_instrument_id s | LegNo => no_instrument_id s end.

#[global] Instance scope_eq_dec : EqDecision MakerOrderLifecycleScopeIdentity.
Proof. solve_decision. Defined.

Record MarketQuote : Type := mkMarket {
  market_scope_identity : MakerOrderLifecycleScopeIdentity;
  market_yes : GovernedQuoteTransaction;
  market_no : GovernedQuoteTransaction;
}.

(** [MarketQuote::new]; the two locations are the allocator's. *)
Definition market_new (yes_loc no_loc : loc) (scope : MakerOrderLifecycleScopeIdentity)
    (supports_modify : bool) : Rust world MarketQuote :=
  λ w, Some (mkMarket scope (mkTx yes_loc) (mkTx no_loc),
             mkWorld (world_budgets w)
               (<[no_loc := inner_new supports_modify]>
                 (<[yes_loc := inner_new supports_modify]> (world_txs w)))).

Definition transaction (m : MarketQuote) (leg : Leg) : GovernedQuoteTransaction :=
  match leg with LegYes => market_yes m | LegNo => market_no m end.

Definition market_shares_authority_with (a b : MarketQuote) : bool :=
  bool_decide (market_scope_identity a = market_scope_identity b) &&
  shares_authority (market_yes a) (market_yes b) && shares_authority (market_no a) (market_no b).

Definition market_leg_state (m : MarketQuote) (leg : Leg) : Rust world LegState :=
  tx_leg_state (transaction m leg).

Definition leg_supports_modify (m : MarketQuote) (leg : Leg) : Rust world bool :=
  tx_supports_modify (transaction m leg).

Definition market_prepaid_generation (m : MarketQuote) (leg : Leg) : Rust world (option Z) :=
  tx_prepaid_generation (transaction m leg).

Definition market_state (m : MarketQuote) : Rust world MarketState :=
  yes ← tx_leg_state (market_yes m);
  no ← tx_leg_state (market_no m);
  mret (market_state_of yes no).

Definition snapshot (m : MarketQuote)
    : Rust world (LegState * LegState * option Z * option Z) :=
  yes ← tx_leg_state (market_yes m);
  no ← tx_leg_state (market_no m);
  yes_prepaid ← tx_prepaid_generation (market_yes m);
  no_prepaid ← tx_prepaid_generation (market_no m);
  mret (yes, no, yes_prepaid, no_prepaid).

Definition on_leg_event (m : MarketQuote) (leg : Leg) (event : LegEvent)
    : Rust world (option MarketAction) :=
  reduced ← tx_reduce (transaction m leg) (PreSink (EvLifecycle event));
  commit ← expect_commit reduced;
  mret (ActionLeg leg <$> commit_action commit).

Definition propose_leg_event (m : MarketQuote) (leg : Leg) (event : LegEvent)
    : Rust world (option QuoteLegTransitionProposal) :=
  tx_propose (transaction m leg) leg event.

(** [?] on the reduction, then [ensure!] that no action came out. *)
Definition ensure_no_action (r : Result GovernedQuoteTransactionCommit QuoteError)
    (message : string) : Result unit QuoteError :=
  match r with
  | Err e => Err e
  | Ok c => match commit_action c with
            | None => Ok tt
            | Some _ => Err (QuoteMessage message)
            end
  end.

Definition arm_leg_transaction (m : MarketQuote) (proposal : QuoteLegTransitionProposal)
    (budget : RequoteBudgetPair) (budget_proposal : MakerQuoteBudgetProposal)
    (identity : MakerQuoteLifecycleIdentity) : Rust world (Result unit QuoteError) :=
  reduced ← tx_reduce (transaction m (proposal_leg proposal))
              (PreSink (EvArm proposal budget budget_proposal identity));
  mret (ensure_no_action reduced "arming cannot emit a lifecycle action").

(** The guard of [prepare_leg_transaction_sink_invoked], committed at the boundary. *)
Definition prepare_leg_transaction_sink_invoked (m : MarketQuote)
    (proposal : QuoteLegTransitionProposal) (generation actor_now_ms : Z)
    : Rust world (Result unit QuoteError) :=
  tx_prepare_and_commit_sink (transaction m (proposal_leg proposal)) generation actor_now_ms.

Definition leg_transaction_registration_phase (m : MarketQuote)
    (proposal : QuoteLegTransitionProposal) (generation : Z)
    : Rust world QuoteTransactionRegistrationPhase :=
  tx_registration_phase (transaction m (proposal_leg proposal)) generation.

Definition unwind_leg_transaction (m : MarketQuote) (proposal : QuoteLegTransitionProposal)
    : Rust world (Result unit QuoteError) :=
  reduced ← tx_reduce (transaction m (proposal_leg proposal)) (PreSink EvUnwind);
  mret (ensure_no_action reduced "unwind cannot emit a lifecycle action").

(** The methods that report [reduce(..).is_ok()]. *)
Definition reduce_is_ok (m : MarketQuote) (proposal : QuoteLegTransitionProposal)
    (event : QuoteTransactionReductionEvent) : Rust world bool :=
  reduced ← tx_reduce (transaction m (proposal_leg proposal)) event;
  mret (is_ok reduced).

Definition commit_leg_transaction (m : MarketQuote) (proposal : QuoteLegTransitionProposal)
    (generation : Z) : Rust world bool :=
  reduce_is_ok m proposal
    (SinkCapable (match proposal_action proposal with
                  | Submit => EvSubmitted generation
                  | Cancel | Modify => EvNtMutationInvoked generation
                  end)).

Definition abort_leg_transaction (m : MarketQuote) proposal (generation : Z) : Rust world bool :=
  reduce_is_ok m proposal (PreSink (EvPreSinkAbort generation)).

Definition retire_leg_transaction_from_callback (m : MarketQuote) proposal (generation : Z)
    : Rust world bool :=
  reduce_is_ok m proposal (SinkCapable (EvCallbackRetired generation)).

Definition fail_pre_sink_leg_transaction (m : MarketQuote) proposal (generation : Z)
    : Rust world bool :=
  reduce_is_ok m proposal (PreSink (EvPreSinkInvariantFailure generation)).

Definition unwind_post_sink_leg_transaction (m : MarketQuote) proposal (generation : Z)
    : Rust world bool :=
  reduce_is_ok m proposal (SinkCapable (EvPostSinkUnwind generation)).

Definition reject_leg_transaction_at_sink (m : MarketQuote) proposal (generation : Z)
    : Rust world bool :=
  reduce_is_ok m proposal (SinkCapable (EvSinkRejected generation)).

Definition wind_down_leg (m : MarketQuote) (leg : Leg)
    : Rust world GovernedQuoteTransactionCommit :=
  reduced ← tx_reduce (transaction m leg) (PreSink EvWindDown);
  expect_commit reduced.

Definition cancel_leg (m : MarketQuote) (leg : Leg) : Rust world (option MarketAction) :=
  commit ← wind_down_leg m leg;
  mret (ActionLeg leg <$> commit_action commit).

(** [(yes || no).then_some(CancelAllBothLegs)]. *)
Definition both_legs_action (yes no : GovernedQuoteTransactionCommit) : option MarketAction :=
  match commit_action yes, commit_action no with
  | None, None => None
  | _, _ => Some CancelAllBothLegs
  end.

Definition drain (m : MarketQuote) : Rust world (option MarketAction) :=
  yes ← wind_down_leg m LegYes;
  no ← wind_down_leg m LegNo;
  mret (both_legs_action yes no).

Definition close_retention_scope (m : MarketQuote) : Rust world (option MarketAction) :=
  yes ← tx_close_retention_scope (market_yes m);
  yes ← expect_commit yes;
  no ← tx_close_retention_scope (market_no m);
  no ← expect_commit no;
  mret (both_legs_action yes no).

Definition cancel_one_side (m : MarketQuote) (leg : Leg) : Rust world (option MarketAction) :=
  commit ← wind_down_leg m leg;
  mret ((λ _, CancelAllOneSide leg) <$> commit_action commit).

(** ** Handles *)

Record MakerQuoteLifecycleHandle : Type := mkHandle {
  handle_market : MarketQuote;
  handle_leg : Leg;
}.

Definition handle_transaction (h : MakerQuoteLifecycleHandle) : GovernedQuoteTransaction :=
  transaction (handle_market h) (handle_leg h).

Definition handle_refine (h : MakerQuoteLifecycleHandle)
    (event : MakerQuoteLifecycleRefinementEvent) : Rust world MakerQuoteLifecycleRefinementOutcome :=
  tx_refine (handle_transaction h) event.

Definition handle_scope_identity (h : MakerQuoteLifecycleHandle) :=
  market_scope_identity (handle_market h).

Definition shares_lifecycle_scope_with (a b : MakerQuoteLifecycleHandle) : bool :=
  bool_decide (handle_leg a = handle_leg b) &&
  bool_decide (handle_scope_identity a = handle_scope_identity b).

Definition handle_shares_authority_with (a b : MakerQuoteLifecycleHandle) : bool :=
  bool_decide (handle_leg a = handle_leg b) &&
  bool_decide (handle_scope_identity a = handle_scope_identity b) &&
  shares_authority (handle_transaction a) (handle_transaction b).

Definition handle_retention_scope_is_closed (h : MakerQuoteLifecycleHandle) : Rust world bool :=
  tx_retention_scope_is_closed (handle_transaction h).

Definition hold_missing_money_moving_truth (h : MakerQuoteLifecycleHandle) : Rust world bool :=
  reduced ← tx_reduce (handle_transaction h) (PreSink EvMissingMoneyMovingTruth);
  mret (is_ok reduced).

End Market.
