(* ===== verification/QuoteLifecycleSafety.v ===== *)
(** * Quote lifecycle: state-machine safety

    Wind-down is absorbing: a winding-down leg stays so under every operation and
    emits cancels only.  A reconciliation hold is left only by a terminal refinement
    of the order that owns it.  Both are facts about what the reducers return,
    whatever the budget heap, so they are proved with [yields]. *)

From Stdlib Require Import ZArith Lia.
From stdpp Require Import sorting strings gmap numbers list.
From S2P Require Import Prelude RequoteBudget RequoteBudgetFacts BudgetTokens.
From S2P Require Import QuoteLifecycle QuoteLifecycleFacts.

Open Scope Z_scope.

(** ** Automation: facts about what a reducer returns *)

(** Walks the binds and matches of a reducer; the leaves are [mret]. *)
Ltac yielding :=
  repeat first
    [ progress simpl in *
    | match goal with
      | |- yields (mret _) _ => apply yields_ret
      | |- yields (_ ;; _) _ => eapply yields_bind; [apply yields_any|intros ? _]
      | |- yields (if decide ?P then _ else _) _ => destruct (decide P)
      | |- yields (match ?x with _ => _ end) _ => destruct x eqn:?
      end ].

Definition winding (r : QuoteReduction) : Prop :=
  match r with
  | Ok (s, c) => is_winding_down s = true ∧ (commit_action c = None ∨ commit_action c = Some Cancel)
  | Err (s, _) => is_winding_down s = true
  end.

Definition winding_pair (p : QuoteTransactionState * GovernedQuoteTransactionCommit) : Prop :=
  winding (Ok p).

Definition stable_winding (s : QuoteStableState) : Prop := sp_winding_down (stable_projection s) = true.

Lemma winding_stable_lifecycle stable event sm :
  stable_winding stable → yields (reduce_stable_lifecycle stable event sm) winding_pair.
Proof.
  intros Hw. destruct stable as [p|p|hold]; [done| |].
  - destruct p, event; yielding; unfold winding_pair; simpl; auto.
  - destruct event; yielding; unfold winding_pair; simpl; auto.
Qed.

Lemma winding_stable_wind_down stable :
  yields (reduce_stable_wind_down stable)
    (λ p, stable_winding p.1 ∧ (commit_action p.2 = None ∨ commit_action p.2 = Some Cancel)).
Proof.
  destruct stable as [[]|[]|[[] o b]]; yielding; unfold stable_winding; simpl; auto.
Qed.

Lemma winding_terminal_stable stable d :
  stable_winding stable → yields (terminal_stable stable d) stable_winding.
Proof.
  intros Hw. destruct stable as [p|p|[mode o b]]; [done|yielding; done|].
  destruct mode; [done|]. yielding. done.
Qed.

(** ** Wind-down *)

Lemma attempt_winding_down a :
  is_winding_down (TxAttempt a) = is_winding_down_mode (attempt_mode a).
Proof.
  unfold is_winding_down. simpl. unfold attempt_projection.
  by destruct (attempt_phase a) as [[]|[]].
Qed.

Lemma winding_ok_no_action s : is_winding_down s = true → winding (Ok (s, no_action)).
Proof. intros. split; [done|by left]. Qed.

Lemma winding_replay s g route :
  is_winding_down s = true → winding (reduce_settlement_replay s g route).
Proof.
  intros Hw. destruct s as [stable|attempt|[g' st stable]]; try done. simpl.
  unfold settle_route. simpl. case_decide; [|done].
  destruct st; simpl; try (by apply winding_ok_no_action); case_decide; try done; by apply winding_ok_no_action.
Qed.

Lemma winding_fenced s g stale current :
  yields (stale s) winding → yields (current s) winding →
  yields (reduce_generation_fenced s g stale current) winding.
Proof. intros. unfold reduce_generation_fenced. destruct (armed_identity s); [case_decide|]; done. Qed.

Lemma winding_account_bind {B} b (f : AccountedSinkInvokedQuoteBudget → Governed B) (Q : B → Prop) :
  (∀ a, yields (f a) Q) → yields (a ← account b; f a) Q.
Proof. intros Hf. eapply yields_bind; [apply yields_any|]. intros a _. apply Hf. Qed.

(** The state is stable, a winding-down attempt, or settled. *)
Ltac winding_cases s Hw :=
  destruct s as [?stable|[[] ?arm [?b|?b]]|?settlement];
  rewrite ?attempt_winding_down in Hw; try discriminate Hw.

Ltac winding_leaf :=
  unfold winding_pair;
  first [done | by cbn [winding]; rewrite attempt_winding_down
        | by apply winding_ok_no_action; rewrite attempt_winding_down | by apply winding_ok_no_action | by apply winding_replay | by split; [done|auto]].

Lemma winding_lifecycle s event sm :
  is_winding_down s = true → yields (reduce_lifecycle s event sm) winding_pair.
Proof.
  intros Hw. destruct s as [stable|attempt|settlement]; simpl.
  - by apply winding_stable_lifecycle.
  - apply yields_ret. by apply winding_ok_no_action.
  - by apply winding_stable_lifecycle.
Qed.

(** After a wind-down event the leg winds down, whatever it was doing. *)
Lemma winding_wind_down s : yields (reduce_wind_down s) winding_pair.
Proof.
  destruct s as [stable|[mode arm phase]|settlement]; simpl.
  - eapply yields_bind; [apply winding_stable_wind_down|]. intros p [Hp Hc]. by apply yields_ret.
  - apply yields_ret. split; [by rewrite attempt_winding_down|]. destruct mode; auto.
  - eapply (yields_bind _ _ (λ p, stable_winding (settlement_stable p.1) ∧
      (commit_action p.2 = None ∨ commit_action p.2 = Some Cancel))).
    + eapply yields_bind; [apply winding_stable_wind_down|]. intros p Hp. by apply yields_ret.
    + intros p [Hp Hc]. by apply yields_ret.
Qed.

Lemma poison_stable_winding stable :
  stable_winding stable → stable_winding (poison_stable stable).
Proof. by destruct stable. Qed.

Lemma winding_poison_attempt a :
  attempt_mode a = ModeWindingDown → yields (poison_attempt a) stable_winding.
Proof.
  intros Hm. eapply yields_bind; [apply yields_any|]. intros b _. apply yields_ret.
  unfold stable_winding. simpl. by rewrite Hm.
Qed.

Lemma winding_missing_truth s :
  is_winding_down s = true → yields (reduce_missing_money_moving_truth s) winding_pair.
Proof.
  intros Hw. winding_cases s Hw.
  - destruct stable; try done; yielding; unfold winding_pair; winding_leaf.
  - eapply (yields_bind _ _ stable_winding); [by apply winding_poison_attempt|].
    intros stable Hs. apply yields_ret. unfold winding_pair. winding_leaf.
  - eapply (yields_bind _ _ stable_winding); [by apply winding_poison_attempt|].
    intros stable Hs. apply yields_ret. unfold winding_pair. winding_leaf.
  - eapply (yields_bind _ _ (λ p, stable_winding (settlement_stable p.1))).
    + eapply yields_bind; [by apply yields_ret with (P := λ p, stable_winding p.1);
        apply poison_stable_winding|]. intros p Hp. by apply yields_ret.
    + intros p Hp. apply yields_ret. winding_leaf.
Qed.

Lemma winding_arm s proposal budget bp identity :
  is_winding_down s = true → yields (reduce_arm s proposal budget bp identity) winding.
Proof.
  intros Hw. unfold reduce_arm. case_decide; [by apply yields_ret|].
  destruct s as [[p|p|hold]|attempt|[g st [p|p|hold]]]; try done; by apply yields_ret.
Qed.

Lemma winding_finish_abort arm b g :
  yields (finish_pre_sink_abort ModeWindingDown arm b g) winding.
Proof.
  destruct b as [r|r]; simpl.
  - eapply yields_bind; [apply yields_any|]. intros [] _; apply yields_ret; winding_leaf.
  - eapply (yields_bind _ _ stable_winding).
    + eapply yields_bind; [apply yields_any|]. intros _ _. by apply yields_ret.
    + intros stable Hs. apply yields_ret. winding_leaf.
Qed.

Lemma winding_finish_invariant_failure arm b g :
  yields (finish_pre_sink_invariant_failure ModeWindingDown arm b g) winding.
Proof.
  destruct b as [r|r]; simpl; [|apply yields_ret; winding_leaf].
  eapply yields_bind; [apply yields_any|]. intros [] _; apply yields_ret; winding_leaf.
Qed.

Lemma winding_finish_post_sink arm b g :
  yields (finish_post_sink_failure ModeWindingDown arm b g) winding.
Proof. apply winding_account_bind. intros a. apply yields_ret. winding_leaf. Qed.

Lemma winding_pre_sink s event sm :
  is_winding_down s = true → yields (reduce_pre_sink s event sm) winding.
Proof.
  intros Hw. destruct event; simpl.
  - eapply yields_bind; [by apply winding_lifecycle|]. intros p Hp. apply yields_ret. by destruct p.
  - eapply yields_bind; [by apply winding_wind_down|]. intros p Hp. apply yields_ret. by destruct p.
  - eapply yields_bind; [by apply winding_missing_truth|]. intros p Hp. apply yields_ret. by destruct p.
  - by apply winding_arm.
  - apply winding_fenced; [apply yields_ret; winding_leaf|].
    winding_cases s Hw; try (apply yields_ret; winding_leaf).
    apply winding_finish_abort.
  - apply winding_fenced; [apply yields_ret; winding_leaf|].
    winding_cases s Hw; try (apply yields_ret; winding_leaf).
    apply winding_finish_invariant_failure.
  - winding_cases s Hw; try (apply yields_ret; winding_leaf).
    + apply winding_finish_abort.
    + apply winding_finish_post_sink.
Qed.

Lemma winding_route_success s g success :
  is_winding_down s = true → yields (reduce_route_success s g success) winding.
Proof.
  intros Hw. unfold reduce_route_success. destruct (route_success_projection success) as [st msg].
  apply winding_fenced; [apply yields_ret; winding_leaf|].
  winding_cases s Hw; try (apply yields_ret; winding_leaf).
  destruct (obligation_route_success (arm_obligation arm)), success; try (apply yields_ret; winding_leaf).
  all: eapply (yields_bind _ _ stable_winding);
    [apply winding_account_bind; intros []; yielding; done|].
  all: intros stable Hs; apply yields_ret; winding_leaf.
Qed.

Lemma winding_sink_capable s event :
  is_winding_down s = true → yields (reduce_sink_capable s event) winding.
Proof.
  intros Hw. destruct event; simpl.
  - by apply winding_route_success.
  - by apply winding_route_success.
  - apply winding_fenced; [apply yields_ret; winding_leaf|].
    winding_cases s Hw; try (apply yields_ret; winding_leaf).
    destruct (arm_obligation arm); try (apply yields_ret; winding_leaf).
    all: apply winding_account_bind; intros []; apply yields_ret; winding_leaf.
  - apply yields_ret. destruct s; winding_leaf.
  - apply winding_fenced; [apply yields_ret; winding_leaf|].
    winding_cases s Hw; try (apply yields_ret; winding_leaf).
    apply winding_finish_post_sink.
Qed.

(** ** Everything the controller can do to one transaction *)

Inductive tx_op : Type :=
| OpReduce (event : QuoteTransactionReductionEvent)
| OpRefine (event : MakerQuoteLifecycleRefinementEvent)
| OpSink (generation actor_now_ms : Z)
| OpCloseScope.

Definition result_action (r : Result GovernedQuoteTransactionCommit QuoteError)
    : list LifecycleAction :=
  match r with
  | Ok c => match commit_action c with Some a => [a] | None => [] end
  | Err _ => []
  end.

(** One operation: the actions it emits and the transaction afterwards. *)
Definition tx_op_apply (op : tx_op) (inner : GovernedQuoteTransactionInner)
    : Governed (list LifecycleAction * GovernedQuoteTransactionInner) :=
  match op with
  | OpReduce event =>
      applied ← reduction_apply event inner;
      mret (result_action applied.1, applied.2)
  | OpRefine event =>
      refined ← refinement_apply event inner;
      mret ([], refined.2)
  | OpSink generation now =>
      if prepare_sink_invoked inner generation
      then mret ([], prepared_commit inner generation now)
      else mret ([], inner)
  | OpCloseScope =>
      applied ← close_retention_scope_inner inner;
      mret (result_action applied.1, applied.2)
  end.

Fixpoint tx_run (ops : list tx_op) (inner : GovernedQuoteTransactionInner)
    : Governed (list LifecycleAction * GovernedQuoteTransactionInner) :=
  match ops with
  | [] => mret ([], inner)
  | op :: ops =>
      first ← tx_op_apply op inner;
      rest ← tx_run ops first.2;
      mret (first.1 ++ rest.1, rest.2)
  end.

Definition winding_inner (inner : GovernedQuoteTransactionInner) : Prop :=
  is_winding_down (inner_state inner) = true.

Definition only_cancels (acts : list LifecycleAction) : Prop := Forall (λ a, a = Cancel) acts.

Lemma winding_reduction event inner :
  (winding_inner inner ∨ event = PreSink EvWindDown) →
  yields (reduction_apply event inner) (λ p, only_cancels (result_action p.1) ∧ winding_inner p.2).
Proof.
  intros Hw. unfold reduction_apply. destruct (settled_owner (inner_state inner) event) as [o po].
  eapply (yields_bind _ _ winding).
  - destruct Hw as [Hw| ->].
    + destruct event; [by apply winding_pre_sink|by apply winding_sink_capable].
    + simpl. eapply yields_bind; [by apply winding_wind_down|]. intros p Hp. apply yields_ret. by destruct p.
  - intros [[s c]|[s e]] Hr; apply yields_ret; unfold winding_inner; simpl; rewrite update_terminal_owner_state; simpl.
    + destruct Hr as [? [Hc|Hc]]; rewrite Hc; split; repeat constructor; done.
    + by split; [constructor|].
Qed.

Lemma winding_close_reopened s c :
  sp_winding_down (stable_projection (settlement_stable s)) = true →
  is_winding_down (TxSettled (close_reopened s c)) = true.
Proof. done. Qed.

Lemma winding_terminal s d :
  is_winding_down s = true → yields (reduce_terminal s d) (λ p, is_winding_down p.1 = true).
Proof.
  intros Hw. winding_cases s Hw; simpl.
  - eapply yields_bind; [by apply winding_terminal_stable|]. intros st Hs. by apply yields_ret.
  - eapply (yields_bind _ _ stable_winding).
    + unfold terminal_attempt. destruct b; yielding; done.
    + intros st Hs. by apply yields_ret.
  - eapply (yields_bind _ _ stable_winding).
    + unfold terminal_attempt. simpl. apply winding_account_bind. intros a.
      eapply yields_bind; [apply yields_any|]. intros _ _. by apply yields_ret.
    + intros st Hs. by apply yields_ret.
  - eapply (yields_bind _ _ (λ p, stable_winding (settlement_stable p.1))).
    + eapply (yields_bind _ _ (λ p, stable_winding p.1)).
      * eapply yields_bind; [by apply winding_terminal_stable|]. intros st Hs. by apply yields_ret.
      * intros p Hp. by apply yields_ret.
    + intros p Hp. by apply yields_ret.
Qed.

Lemma winding_reopened s :
  is_winding_down s = true →
  match reduce_reopened s with Ok (s', _) | Err (s', _) => is_winding_down s' = true end.
Proof.
  intros Hw. destruct s as [stable|attempt|[g st stable]]; try done.
  unfold reduce_reopened, reopen. simpl. by destruct st, (stable_can_reopen stable).
Qed.

Lemma winding_terminal_refinement s g effect closes :
  is_winding_down s = true →
  yields (reduce_terminal_refinement s g effect closes)
    (λ r, match r with Ok (s', _) | Err (s', _) => is_winding_down s' = true end).
Proof.
  intros Hw. unfold reduce_terminal_refinement.
  eapply (yields_bind _ _ (λ p, is_winding_down p.1 = true)).
  - destruct effect; [by apply winding_terminal|by apply yields_ret].
  - intros [[stable|attempt|st] c] Hp; by apply yields_ret.
Qed.

Lemma winding_refinement event inner :
  winding_inner inner → yields (refinement_apply event inner) (λ p, winding_inner p.2).
Proof.
  intros Hw. unfold refinement_apply, winding_inner in *.
  pose proof (winding_reopened _ Hw) as Hre.
  destruct (refinement event) as [effect closes| |], (refinement_authority inner _);
    try (by apply yields_ret).
  - eapply yields_bind; [by apply winding_terminal_refinement|].
    intros [[s c]|[s e]] Hr; by apply yields_ret.
  - apply yields_ret. by destruct (reduce_reopened _) as [[s c]|[s e]].
  - apply yields_ret. by destruct (reduce_reopened _) as [[s c]|[s e]].
  - eapply (yields_bind _ _ (λ s, is_winding_down s = true)).
    + destruct (inner_state inner) as [stable|attempt|settlement]; try (by apply yields_ret).
      eapply (yields_bind _ _ (λ p, stable_winding (settlement_stable p.1))).
      * eapply yields_bind; [apply winding_stable_wind_down|]. intros p [Hp _]. by apply yields_ret.
      * intros p Hp. by apply yields_ret.
    + intros s Hs. by apply yields_ret.
Qed.

Lemma winding_prepared_commit inner g now :
  winding_inner inner → winding_inner (prepared_commit inner g now).
Proof.
  unfold winding_inner, prepared_commit, commit_sink_invoked. intros Hw. simpl.
  winding_cases (inner_state inner) Hw; try done.
  - case_decide; cbn [set_inner_state account_sink_invocation inner_state fst];
      by rewrite attempt_winding_down.
  - cbn [set_inner_state inner_state fst]. by rewrite attempt_winding_down.
Qed.

Lemma winding_op op inner :
  winding_inner inner →
  yields (tx_op_apply op inner) (λ p, only_cancels p.1 ∧ winding_inner p.2).
Proof.
  intros Hw. destruct op as [event|event|g now|]; simpl.
  - eapply yields_bind; [apply winding_reduction; by left|]. intros p Hp. by apply yields_ret.
  - eapply yields_bind; [by apply winding_refinement|]. intros p Hp. by apply yields_ret; split; [constructor|].
  - destruct (prepare_sink_invoked inner g); apply yields_ret; (split; [constructor|]); [|done].
    by apply winding_prepared_commit.
  - eapply yields_bind; [apply winding_reduction; by right|]. intros p Hp. by apply yields_ret.
Qed.

Lemma winding_run ops inner :
  winding_inner inner → yields (tx_run ops inner) (λ p, only_cancels p.1 ∧ winding_inner p.2).
Proof.
  revert inner. induction ops as [|op ops IH]; intros inner Hw; simpl.
  - by apply yields_ret; split; [constructor|].
  - eapply yields_bind; [by apply winding_op|]. intros [a i] [Ha Hi].
    eapply yields_bind; [by apply IH|]. intros [b j] [Hb Hj]. apply yields_ret.
    split; [|done]. by apply Forall_app.
Qed.

Lemma winding_no_proposal inner leg event :
  winding_inner inner → propose_transition inner leg event = None.
Proof. unfold winding_inner, propose_transition. by intros ->. Qed.

(** ** The reconciliation hold *)

Definition stable_held (s : QuoteStableState) : Prop :=
  match s with StablePoisoned _ => True | _ => False end.

(** The leg is held non-routing, settled or not. *)
Definition held (s : QuoteTransactionState) : Prop :=
  match s with
  | TxStable stable => stable_held stable
  | TxSettled settlement => stable_held (settlement_stable settlement)
  | TxAttempt _ => False
  end.

Definition reduction_held (r : QuoteReduction) : Prop :=
  match r with Ok (s, _) | Err (s, _) => held s end.

Lemma held_replay settlement g route :
  stable_held (settlement_stable settlement) →
  reduction_held (reduce_settlement_replay (TxSettled settlement) g route).
Proof.
  intros Hs. simpl. unfold settle_route. case_decide; [|done].
  destruct (settlement_status settlement); simpl; try done; by case_decide.
Qed.

Lemma held_stable_wind_down stable :
  stable_held stable → yields (reduce_stable_wind_down stable) (λ p, stable_held p.1).
Proof. destruct stable; [done|done|]. intros _. by apply yields_ret. Qed.

Lemma held_total s event sm :
  held s →
  yields (reduce_lifecycle s event sm) (λ p, held p.1) ∧
  yields (reduce_wind_down s) (λ p, held p.1) ∧
  yields (reduce_missing_money_moving_truth s) (λ p, held p.1).
Proof.
  intros Hh. destruct s as [stable|attempt|[g st stable]]; [|done|];
    destruct stable as [p|p|hold]; try done; simpl; split_and!;
    first [by destruct event; apply yields_ret|by apply yields_ret].
Qed.

Lemma held_arm s proposal budget bp identity :
  held s → yields (reduce_arm s proposal budget bp identity) reduction_held.
Proof.
  intros Hh. unfold reduce_arm. case_decide; [by apply yields_ret|].
  destruct s as [stable|attempt|[g st stable]]; [|done|];
    destruct stable as [p|p|hold]; try done; by apply yields_ret.
Qed.

(** Outcomes of a route find no attempt to settle. *)
Lemma held_outcomes s event sm :
  held s →
  match event with
  | PreSink ((EvPreSinkAbort _ | EvPreSinkInvariantFailure _ | EvUnwind) as e) =>
      yields (reduce_pre_sink s e sm) reduction_held
  | SinkCapable e => yields (reduce_sink_capable s e) reduction_held
  | _ => True
  end.
Proof.
  intros Hh. destruct s as [stable|attempt|settlement]; [|done|];
    destruct event as [[]|[]]; try done; apply yields_ret; try done; by apply held_replay.
Qed.

Lemma held_reduction event inner :
  held (inner_state inner) → yields (reduction_apply event inner) (λ p, held (inner_state p.2)).
Proof.
  intros Hh. unfold reduction_apply. destruct (settled_owner (inner_state inner) event) as [o po].
  eapply (yields_bind _ _ reduction_held).
  2: { intros [[s c]|[s e]] Hr; apply yields_ret; simpl; by rewrite update_terminal_owner_state. }
  pose proof (held_outcomes _ event (inner_supports_modify inner) Hh) as Hout.
  destruct event as [[]|]; try exact Hout; simpl.
  - eapply yields_bind; [by eapply held_total|]. intros [s c] Hp. by apply yields_ret.
  - eapply yields_bind; [by apply (held_total _ Filled true)|]. intros [s c] Hp. by apply yields_ret.
  - eapply yields_bind; [by apply (held_total _ Filled true)|]. intros [s c] Hp. by apply yields_ret.
  - by apply held_arm.
Qed.

(** Of all refinements only a terminal disposition releases the hold. *)
Definition releases_hold (inner : GovernedQuoteTransactionInner) (op : tx_op) : Prop :=
  match op with
  | OpRefine event =>
      refinement_authority inner (refinement_identity event) = AuthorityExact ∧
      ∃ disposition closes, refinement event = RefTerminal (Some disposition) closes
  | _ => False
  end.

Lemma held_reopened s :
  held s → reduction_held (reduce_reopened s).
Proof.
  destruct s as [stable|attempt|[g st stable]]; try done. intros Hh.
  unfold reduce_reopened, reopen. simpl. by destruct st, (stable_can_reopen stable).
Qed.

Lemma held_refinement event inner :
  held (inner_state inner) → ¬ releases_hold inner (OpRefine event) →
  yields (refinement_apply event inner) (λ p, held (inner_state p.2)).
Proof.
  intros Hh Hno. unfold refinement_apply. pose proof (held_reopened _ Hh) as Hre.
  simpl in Hno.
  destruct (refinement event) as [effect closes| |] eqn:Er, (refinement_authority inner _) eqn:Ea;
    try (by apply yields_ret).
  - destruct effect as [d|]; [exfalso; eauto|].
    eapply (yields_bind _ _ reduction_held).
    + unfold reduce_terminal_refinement. eapply (yields_bind _ _ (λ p, held p.1)); [by apply yields_ret|].
      intros [[stable|attempt|st] c] Hp; [|done|]; by apply yields_ret.
    + intros [[s c]|[s e]] Hr; by apply yields_ret.
  - apply yields_ret. by destruct (reduce_reopened _) as [[s c]|[s e]].
  - apply yields_ret. by destruct (reduce_reopened _) as [[s c]|[s e]].
  - eapply (yields_bind _ _ held).
    + destruct (inner_state inner) as [stable|attempt|settlement]; try (by apply yields_ret).
      eapply (yields_bind _ _ (λ p, stable_held (settlement_stable p.1))).
      * eapply yields_bind; [by apply held_stable_wind_down|]. intros p Hp. by apply yields_ret.
      * intros p Hp. by apply yields_ret.
    + intros s Hs. by apply yields_ret.
Qed.

Lemma held_prepared_commit inner g now :
  held (inner_state inner) → held (inner_state (prepared_commit inner g now)).
Proof.
  unfold prepared_commit, commit_sink_invoked. simpl.
  by destruct (inner_state inner) as [stable|attempt|settlement].
Qed.

Lemma held_no_proposal inner leg event :
  held (inner_state inner) → propose_transition inner leg event = None.
Proof.
  intros Hh. unfold propose_transition. destruct (is_winding_down _); [done|].
  destruct (inner_state inner) as [stable|attempt|[g st stable]]; [|done|];
    destruct stable as [p|p|hold]; try done.
  unfold leg_state. simpl. unfold settlement_leg_state. simpl. by destruct st.
Qed.

Lemma held_op op inner :
  held (inner_state inner) → ¬ releases_hold inner op →
  yields (tx_op_apply op inner) (λ p, held (inner_state p.2)).
Proof.
  intros Hh Hno. destruct op as [event|event|g now|]; simpl.
  - eapply yields_bind; [by apply held_reduction|]. intros p Hp. by apply yields_ret.
  - eapply yields_bind; [by apply held_refinement|]. intros p Hp. by apply yields_ret.
  - destruct (prepare_sink_invoked inner g); apply yields_ret; [|done]. by apply held_prepared_commit.
  - eapply yields_bind.
    + apply (held_reduction _ (mkInner (inner_state inner) (inner_supports_modify inner)
        (inner_terminal_owner inner) true)). done.
    + intros p Hp. by apply yields_ret.
Qed.

(** ** What the state machine promises *)

(** Winding down is absorbing and safe.  From the wind-down event on, whatever
    sequence of lifecycle events, outcomes, refinements and sink crossings follows,
    the leg stays winding down, emits no action but cancels, and proposes nothing. *)
Lemma wind_down_absorbing inner h r inner1 h1 ops acts inner2 h2 h3 :
  reduction_apply (PreSink EvWindDown) inner h = Some ((r, inner1), h1) →
  tx_run ops inner1 h2 = Some ((acts, inner2), h3) →
  is_winding_down (inner_state inner2) = true ∧
  Forall (λ a, a = Cancel) (result_action r ++ acts) ∧
  ∀ leg event, propose_transition inner2 leg event = None.
Proof.
  intros E1 E2. destruct (winding_reduction _ _ ltac:(by right) _ _ _ E1) as [Ha1 Hw1].
  destruct (winding_run ops inner1 Hw1 _ _ _ E2) as [Ha2 Hw2]. simpl in *.
  split_and!; [done|by apply Forall_app|]. intros leg event. by apply winding_no_proposal.
Qed.

(** A leg resting in the market. *)
Definition demo_resting : GovernedQuoteTransactionInner :=
  mkInner (TxStable (StableActive ActiveResting)) false None false.

Lemma wind_down_absorbing_witness :
  is_winding_down (TxStable (StableWindingDown WindDownIdle)) = true ∧
  Forall (λ a, a = Cancel) [Cancel; Cancel].
Proof.
  destruct (wind_down_absorbing demo_resting ∅ (Ok (mkCommit (Some Cancel)))
    (mkInner (TxStable (StableWindingDown WindDownCancelPending)) false None false) ∅
    [OpReduce (PreSink (EvLifecycle Modified)); OpReduce (PreSink (EvLifecycle Canceled))]
    [Cancel] (mkInner (TxStable (StableWindingDown WindDownIdle)) false None false) ∅ ∅)
    as (Hw & Ha & _); [reflexivity|reflexivity|]. by split.
Defined.

(** C27: a reconciliation hold is left by one thing only.  Any operation on a held leg
    other than a terminal refinement with a stable effect, by the identity that owns
    the leg, leaves it held, and a held leg proposes no transition. *)
Theorem hold_left_only_by_terminal_truth op inner h actions inner' h' :
  held (inner_state inner) →
  tx_op_apply op inner h = Some ((actions, inner'), h') →
  (∀ leg event, propose_transition inner leg event = None) ∧
  (held (inner_state inner') ∨
   ∃ event disposition closes, op = OpRefine event ∧
     refinement event = RefTerminal (Some disposition) closes ∧
     inner_terminal_owner inner = Some (refinement_identity event)).
Proof.
  intros Hh E. split; [intros leg event; by apply held_no_proposal|].
  assert (Hdec : releases_hold inner op ∨ ¬ releases_hold inner op).
  { destruct op as [|event| |]; simpl; try (by right; intros []).
    destruct (refinement_authority inner (refinement_identity event));
      [|by right; intros [] ..].
    destruct (refinement event) as [[d|] closes| |]; [left; eauto|right; by intros (_ & ? & ? & ?) ..]. }
  destruct Hdec as [Hrel|Hno]; [right|left; by apply (held_op op inner Hh Hno _ _ _ E)].
  destruct op as [|event| |]; try done. destruct Hrel as [Ha (d & closes & Hr)].
  exists event, d, closes. split_and!; [done|done|]. unfold refinement_authority in Ha.
  destruct (armed_identity (inner_state inner)) as [id|] eqn:Eid.
  - by destruct (inner_state inner) as [|attempt|].
  - by case_decide.
Qed.

Definition demo_held : GovernedQuoteTransactionInner :=
  mkInner (TxStable (StablePoisoned (mkHold ModeActive PlainCancel PoisonedCharged))) false None false.

Lemma hold_left_only_by_terminal_truth_witness :
  propose_transition demo_held LegYes (QuoteTrigger true) = None.
Proof.
  apply (hold_left_only_by_terminal_truth (OpReduce (PreSink (EvLifecycle Filled)))
    demo_held ∅ [] demo_held ∅); [done|reflexivity].
Defined.

(** An order of the leg may be live without a cancel under way. *)
Definition may_rest (s : QuoteTransactionState) : bool :=
  match s with
  | TxAttempt _ => true
  | TxStable stable | TxSettled (mkSettlement _ _ stable) =>
      match sp_leg_state (stable_projection stable) with
      | LegSubmitPending | LegResting | LegModifyPending | LegPoisonedReconciliationHold => true
      | LegIdle | LegRequotePending | LegCancelPending | LegReplacementPendingBackoff => false
      end
  end.

(** Wind-down cancels exactly what may rest: the first wind-down of a leg emits a
    cancel when an order of it may be live with no cancel under way, and nothing
    otherwise; a leg that already winds down emits nothing. *)
Lemma wind_down_cancels_what_may_rest s h s' c h' :
  reduce_wind_down s h = Some ((s', c), h') →
  commit_action c = if negb (is_winding_down s) && may_rest s then Some Cancel else None.
Proof.
  assert (Hstable : ∀ stable, yields (reduce_stable_wind_down stable) (λ p,
    commit_action p.2 = if negb (sp_winding_down (stable_projection stable)) &&
      may_rest (TxStable stable) then Some Cancel else None)).
  { intros stable. destruct stable as [[]|[]|[[] o b]]; yielding; done. }
  destruct s as [stable|[mode arm phase]|[g st stable]]; simpl; intros E.
  - apply rust_bind_Some in E as (p & h1 & E1 & E2). apply Hstable in E1.
    injection E2 as <- <- <-. exact E1.
  - rewrite attempt_winding_down. simpl. destruct mode; simpl in E; by injection E as <- <- <-.
  - apply rust_bind_Some in E as (p & h1 & E1 & E2). injection E2 as <- <- <-.
    apply rust_bind_Some in E1 as (q & h2 & E1 & E2). apply Hstable in E1.
    injection E2 as <- <-. exact E1.
Qed.

Lemma wind_down_cancels_what_may_rest_witness :
  commit_action (with_action Cancel) =
    if negb (is_winding_down (inner_state demo_resting)) && may_rest (inner_state demo_resting)
    then Some Cancel else None.
Proof.
  apply (wind_down_cancels_what_may_rest (inner_state demo_resting) ∅
    (TxStable (StableWindingDown WindDownCancelPending)) (with_action Cancel) ∅). reflexivity.
Defined.

(** ** Terminal dispositions *)

(** The disposition of an order is refined, never rewritten: a refinement either
    keeps it or moves along canceled, filled, voided; it is idempotent; and
    [can_refine] says exactly which dispositions some truth can still refine. *)
Lemma disposition_only_refined d a :
  (refine_terminal_with d a = d ∨
   (d = DispCanceled ∧ a = DispFilled ∨ d = DispFilled ∧ a = DispVoided) ∧
     refine_terminal_with d a = a) ∧
  refine_terminal_with (refine_terminal_with d a) a = refine_terminal_with d a ∧
  (can_refine d = true ↔ ∃ b, refine_terminal_with d b ≠ d).
Proof.
  split_and!.
  - destruct d, a; simpl; auto 10.
  - by destruct d, a.
  - split.
    + destruct d; try done; intros _; [by exists DispFilled|by exists DispVoided].
    + intros [b Hb]. destruct d; try done; by destruct b.
Qed.
