(* ===== verification/QuoteOutcomes.v ===== *)
(** * Quote lifecycle: route outcomes

    Outcome events (abort, failure, unwind, submitted, mutation invoked, rejected,
    retired) are idempotent, fenced by generation, and mutually exclusive; arming and
    aborting is a round trip; a prepaid replacement needs no budget. *)

From Stdlib Require Import ZArith Lia.
From stdpp Require Import sorting strings gmap numbers list.
From S2P Require Import Prelude RequoteBudget RequoteBudgetFacts BudgetTokens.
From S2P Require Import QuoteLifecycle QuoteLifecycleFacts QuoteLifecycleSafety.

Open Scope Z_scope.

(** ** Outcome events *)

Definition is_outcome (event : QuoteTransactionReductionEvent) : bool :=
  match event with
  | PreSink (EvPreSinkAbort _ | EvPreSinkInvariantFailure _ | EvUnwind) | SinkCapable _ => true
  | PreSink _ => false
  end.

Definition outcome_generation (event : QuoteTransactionReductionEvent) : option Z :=
  match event with
  | PreSink (EvPreSinkAbort g | EvPreSinkInvariantFailure g)
  | SinkCapable (EvSubmitted g | EvNtMutationInvoked g | EvSinkRejected g
                | EvCallbackRetired g | EvPostSinkUnwind g) => Some g
  | _ => None
  end.

(** The route settlement an outcome event claims. *)
Definition outcome_route (event : QuoteTransactionReductionEvent) : option QuoteRouteSettlement :=
  match event with
  | PreSink (EvPreSinkAbort _) => Some SettledPreSinkAbort
  | PreSink (EvPreSinkInvariantFailure _) => Some SettledPreSinkInvariantFailure
  | SinkCapable (EvSubmitted _) => Some SettledSubmitted
  | SinkCapable (EvNtMutationInvoked _) => Some SettledNtMutationInvoked
  | SinkCapable (EvSinkRejected _) => Some SettledSinkRejected
  | SinkCapable (EvCallbackRetired _) => Some SettledCallbackRetired
  | SinkCapable (EvPostSinkUnwind _) => Some SettledPostSinkInvariantFailure
  | _ => None
  end.

Definition reduce_event (s : QuoteTransactionState) (event : QuoteTransactionReductionEvent)
    (supports_modify : bool) : Governed QuoteReduction :=
  match event with
  | PreSink event => reduce_pre_sink s event supports_modify
  | SinkCapable event => reduce_sink_capable s event
  end.

(** On a settled transaction every outcome is a replay against the settlement. *)
Lemma settled_outcome settlement event g route sm h :
  outcome_generation event = Some g → outcome_route event = Some route →
  reduce_event (TxSettled settlement) event sm h =
    Some (reduce_settlement_replay (TxSettled settlement) g route, h).
Proof. destruct event as [[]|[]]; simpl; intros [= <-] [= <-]; done. Qed.

Lemma settle_route_idem s g route s' :
  settle_route s g route = Ok s' → settle_route s' g route = Ok s'.
Proof.
  unfold settle_route. case_decide; [|done].
  destruct (settlement_status s) as [| |r|r] eqn:Hs.
  1,2: intros [= <-]; simpl; by rewrite !decide_True.
  all: case_decide; [|done]; intros [= <-]; by rewrite Hs, !decide_True.
Qed.

Lemma replay_idem s g route s' c :
  reduce_settlement_replay s g route = Ok (s', c) →
  reduce_settlement_replay s' g route = Ok (s', no_action).
Proof.
  destruct s as [stable|attempt|settlement]; try done. simpl.
  destruct (settle_route settlement g route) as [s1|[s1 e]] eqn:E; [|done].
  intros [= <- <-]. simpl. by rewrite (settle_route_idem _ _ _ _ E).
Qed.

Lemma replay_settled g route stable :
  reduce_settlement_replay (settled g route stable) g route = Ok (settled g route stable, no_action).
Proof. simpl. unfold settle_route. simpl. by rewrite !decide_True. Qed.

(** The reduction by [event] of [s'] is a no-op in every heap. *)
Definition absorbed (event : QuoteTransactionReductionEvent) (sm : bool) (s' : QuoteTransactionState) : Prop :=
  ∀ h, reduce_event s' event sm h = Some (Ok (s', no_action), h).

Definition ok_absorbed (event : QuoteTransactionReductionEvent) (sm : bool) (r : QuoteReduction) : Prop :=
  match r with Ok (s', _) => absorbed event sm s' | Err _ => True end.

Lemma absorbed_settled event sm g route stable :
  outcome_generation event = Some g → outcome_route event = Some route →
  absorbed event sm (settled g route stable).
Proof.
  intros Hg Hr h. unfold settled. rewrite (settled_outcome _ _ g route) by done.
  fold (settled g route stable). by rewrite replay_settled.
Qed.

Lemma absorbed_replay event sm settlement g route :
  outcome_generation event = Some g → outcome_route event = Some route →
  ok_absorbed event sm (reduce_settlement_replay (TxSettled settlement) g route).
Proof.
  intros Hg Hr.
  destruct (reduce_settlement_replay (TxSettled settlement) g route) as [[s' c]|] eqn:E; [|done].
  intros h. pose proof (replay_idem _ _ _ _ _ E) as Hidem. simpl in E.
  destruct (settle_route settlement g route) as [s1|[s1 e]]; [|done].
  injection E as <- <-. by rewrite (settled_outcome _ _ g route), Hidem.
Qed.

Lemma armed_identity_attempt mode arm phase :
  armed_identity (TxAttempt (mkAttempt mode arm phase)) = Some (arm_identity arm).
Proof. unfold armed_identity. simpl. unfold attempt_projection. simpl. by destruct phase as [[]|[]]. Qed.

(** An attempt that the outcome leaves alone absorbs it. *)
Lemma absorbed_stale mode arm phase event sm g :
  (event = PreSink (EvPreSinkAbort g) ∨ event = PreSink (EvPreSinkInvariantFailure g)) →
  (identity_generation (arm_identity arm) ≠ g ∨ ∃ b, phase = AttemptSinkInvoked b) →
  absorbed event sm (TxAttempt (mkAttempt mode arm phase)).
Proof.
  intros Hev Hst h.
  destruct Hev as [-> | ->]; cbn [reduce_event reduce_pre_sink];
    unfold reduce_pre_sink_abort, reduce_pre_sink_invariant_failure, reduce_generation_fenced;
    rewrite armed_identity_attempt; destruct Hst as [?|[b ->]]; by case_decide.
Qed.

(** A fenced reduction of an attempt: only the matching generation reaches the body. *)
Lemma fenced_attempt mode arm phase g stale current h :
  reduce_generation_fenced (TxAttempt (mkAttempt mode arm phase)) g stale current h =
    (if decide (identity_generation (arm_identity arm) = g) then current else stale)
      (TxAttempt (mkAttempt mode arm phase)) h.
Proof. unfold reduce_generation_fenced. rewrite armed_identity_attempt. by case_decide. Qed.

Lemma yields_fenced mode arm phase g stale current (P : QuoteReduction → Prop) :
  (identity_generation (arm_identity arm) ≠ g → yields (stale (TxAttempt (mkAttempt mode arm phase))) P) →
  (identity_generation (arm_identity arm) = g → yields (current (TxAttempt (mkAttempt mode arm phase))) P) →
  yields (reduce_generation_fenced (TxAttempt (mkAttempt mode arm phase)) g stale current) P.
Proof. intros Hs Hc h r h'. rewrite fenced_attempt. case_decide; [by eapply Hc|by eapply Hs]. Qed.

Lemma yields_unfenced s g stale current (P : QuoteReduction → Prop) :
  armed_identity s = None → yields (current s) P →
  yields (reduce_generation_fenced s g stale current) P.
Proof. intros Hs Hc h r h'. unfold reduce_generation_fenced. rewrite Hs. apply Hc. Qed.

Lemma finish_absorbed mode arm b g sm :
  yields (finish_pre_sink_abort mode arm b g) (ok_absorbed (PreSink (EvPreSinkAbort g)) sm) ∧
  yields (finish_pre_sink_invariant_failure mode arm b g)
    (ok_absorbed (PreSink (EvPreSinkInvariantFailure g)) sm).
Proof.
  split; destruct b as [r|r]; simpl.
  2: eapply yields_bind; [apply yields_any|intros stable _; apply yields_ret; by apply absorbed_settled].
  3: apply yields_ret; by apply absorbed_settled.
  all: eapply yields_bind; [apply yields_any|]; intros [] _; apply yields_ret; [|done];
    by apply absorbed_settled.
Qed.

Lemma settled_by_outcome event sm g route (m : Governed QuoteStableState) :
  outcome_generation event = Some g → outcome_route event = Some route →
  yields (stable ← m; mret (Ok (settled g route stable, no_action))) (ok_absorbed event sm).
Proof.
  intros Hg Hr. eapply yields_bind; [apply yields_any|]. intros stable _.
  apply yields_ret. by apply absorbed_settled.
Qed.

Lemma route_success_absorbed s g success event sm :
  outcome_generation event = Some g →
  outcome_route event = Some (route_success_projection success).1 →
  yields (reduce_route_success s g success) (ok_absorbed event sm).
Proof.
  intros Hg Hr. unfold reduce_route_success.
  destruct (route_success_projection success) as [route msg]. simpl in Hr.
  destruct s as [stable|[mode arm [b|b]]|settlement].
  - by apply yields_ret.
  - apply yields_fenced; intros _; by apply yields_ret.
  - apply yields_fenced; intros _; [by apply yields_ret|].
    destruct (obligation_route_success _), success; try (by apply yields_ret);
      by apply settled_by_outcome.
  - apply yields_ret. by apply absorbed_replay.
Qed.

Lemma sink_rejected_absorbed s g sm :
  yields (reduce_sink_rejected s g) (ok_absorbed (SinkCapable (EvSinkRejected g)) sm).
Proof.
  unfold reduce_sink_rejected. destruct s as [stable|[mode arm [b|b]]|settlement].
  - by apply yields_ret.
  - apply yields_fenced; intros _; by apply yields_ret.
  - apply yields_fenced; intros _; [by apply yields_ret|].
    destruct (arm_obligation arm); try (by apply yields_ret).
    all: eapply yields_bind; [apply yields_any|]; intros [] _; apply yields_ret; [|done];
      by apply absorbed_settled.
  - apply yields_ret. by apply absorbed_replay.
Qed.

Lemma post_sink_absorbed mode arm b g event sm :
  event = PreSink EvUnwind ∨ event = SinkCapable (EvPostSinkUnwind g) →
  yields (finish_post_sink_failure mode arm b g) (ok_absorbed event sm).
Proof.
  intros Hev. eapply yields_bind; [apply yields_any|]. intros a _. apply yields_ret.
  destruct Hev as [-> | ->]; [by intros h|by apply absorbed_settled].
Qed.

Lemma unwind_absorbed s sm : yields (reduce_unwind s) (ok_absorbed (PreSink EvUnwind) sm).
Proof.
  destruct s as [stable|[mode arm [b|b]]|settlement]; simpl; try (by apply yields_ret; intros h).
  - destruct b as [r|r]; simpl; (eapply yields_bind; [apply yields_any|]).
    + intros [] _; by apply yields_ret.
    + intros stable _. by apply yields_ret.
  - apply post_sink_absorbed. by left.
Qed.

(** Every outcome event, delivered a second time, is a no-op. *)
Lemma outcome_absorbed s event sm :
  is_outcome event = true → yields (reduce_event s event sm) (ok_absorbed event sm).
Proof.
  destruct event as [[]|[]]; try done; intros _; cbn [reduce_event reduce_pre_sink reduce_sink_capable].
  - destruct s as [stable|[mode arm [b|b]]|settlement].
    + by apply yields_ret; intros h.
    + apply yields_fenced; [|intros _; apply finish_absorbed].
      intros ?. apply yields_ret. eapply absorbed_stale; eauto.
    + apply yields_fenced; intros ?; apply yields_ret; eapply absorbed_stale; eauto.
    + apply yields_ret. by apply absorbed_replay.
  - destruct s as [stable|[mode arm [b|b]]|settlement].
    + by apply yields_ret; intros h.
    + apply yields_fenced; [|intros _; apply finish_absorbed].
      intros ?. apply yields_ret. eapply absorbed_stale; eauto.
    + apply yields_fenced; intros ?; apply yields_ret; eapply absorbed_stale; eauto.
    + apply yields_ret. by apply absorbed_replay.
  - apply unwind_absorbed.
  - by apply route_success_absorbed.
  - by apply route_success_absorbed.
  - apply sink_rejected_absorbed.
  - apply yields_ret. destruct s as [| |settlement]; [done|done|]. by apply absorbed_replay.
  - unfold reduce_post_sink_failure. destruct s as [stable|[mode arm [b|b]]|settlement].
    + by apply yields_ret.
    + apply yields_fenced; intros _; by apply yields_ret.
    + apply yields_fenced; intros _; [by apply yields_ret|]. apply post_sink_absorbed. by right.
    + apply yields_ret. by apply absorbed_replay.
Qed.

(** An accepted outcome either leaves the transaction as it was or settles it. *)
Definition settles (s : QuoteTransactionState) (r : QuoteReduction) : Prop :=
  match r with
  | Ok (s', c) => commit_action c = None ∧ (s' = s ∨ armed_identity s' = None)
  | Err _ => True
  end.

Ltac settling :=
  repeat first
    [ progress cbn [fst snd]
    | match goal with
      | |- yields (mret _) _ => apply yields_ret
      | |- yields (_ ≫= _) _ => eapply yields_bind; [apply yields_any|intros ? _]
      | |- yields (match ?x with _ => _ end) _ => destruct x eqn:?
      | |- settles _ (Err _) => done
      | |- settles _ (Ok _) => split; by auto
      end ].

Lemma replay_settles settlement g route :
  settles (TxSettled settlement) (reduce_settlement_replay (TxSettled settlement) g route).
Proof.
  simpl. destruct (settle_route _ _ _) as [s'|[s' e]]; [|done]. split; [done|by right].
Qed.

Lemma outcome_settles s event sm :
  is_outcome event = true → yields (reduce_event s event sm) (settles s).
Proof.
  destruct event as [[]|[]]; try done; intros _; cbn [reduce_event reduce_pre_sink reduce_sink_capable].
  all: unfold reduce_pre_sink_abort, reduce_pre_sink_invariant_failure, reduce_route_success,
    reduce_sink_rejected, reduce_post_sink_failure, reduce_unwind, reduce_callback_retired,
    finish_post_sink_failure, finish_pre_sink_abort, finish_pre_sink_invariant_failure.
  all: destruct s as [stable|[mode arm [b|b]]|settlement]; simpl;
    first [apply yields_fenced; intros ?|apply yields_unfenced; [done|]|idtac];
    settling; try (by apply replay_settles).
Qed.

(** ** Idempotence of the whole request *)

Lemma reduction_apply_eq event inner h :
  reduction_apply event inner h =
    match reduce_event (inner_state inner) event (inner_supports_modify inner) h with
    | Some (r, h') =>
        let '(o, po) := settled_owner (inner_state inner) event in
        Some (match r with
              | Ok (s, c) => (Ok c, update_terminal_owner (set_inner_state inner s) o po)
              | Err (s, e) => (Err e, update_terminal_owner (set_inner_state inner s) o po)
              end, h')
    | None => None
    end.
Proof.
  unfold reduction_apply, reduce_event.
  destruct (settled_owner (inner_state inner) event) as [o po].
  unfold mbind, rust_bind. destruct event as [event|event].
  - by destruct (reduce_pre_sink _ _ _ _) as [[[[s c]|[s e]] h']|].
  - by destruct (reduce_sink_capable _ _ _) as [[[[s c]|[s e]] h']|].
Qed.

Lemma update_terminal_owner_idem inner o po :
  update_terminal_owner (update_terminal_owner inner o po) o po = update_terminal_owner inner o po.
Proof.
  destruct inner as [s sm owner closed]. unfold update_terminal_owner.
  destruct o, po; simpl; try done. by destruct (leg_state s) eqn:E; simpl; rewrite ?E.
Qed.

Lemma settled_owner_unarmed s event :
  armed_identity s = None → (settled_owner s event).1 = None.
Proof. intros Hs. destruct event as [[]|[]]; simpl; by rewrite ?Hs. Qed.

Lemma set_update_same inner s o po :
  set_inner_state (update_terminal_owner (set_inner_state inner s) o po) s =
    update_terminal_owner (set_inner_state inner s) o po.
Proof. unfold update_terminal_owner. destruct o, po; try done; by destruct (leg_state _). Qed.

Lemma update_set_supports inner s o po :
  inner_supports_modify (update_terminal_owner (set_inner_state inner s) o po) =
    inner_supports_modify inner ∧
  inner_state (update_terminal_owner (set_inner_state inner s) o po) = s.
Proof. unfold update_terminal_owner. destruct o, po; try done; by destruct (leg_state _). Qed.

(** ** Arming and aborting *)

(** What an accepted arming builds. *)
Definition armed_shape (proposal : QuoteLegTransitionProposal) (identity : MakerQuoteLifecycleIdentity)
    (r : QuoteReduction) : Prop :=
  match r with
  | Ok (s, c) => commit_action c = None ∧ ∃ b,
      s = TxAttempt (mkAttempt ModeActive
            (mkArm identity (proposal_prior_state proposal) (proposal_pending_state proposal)
               (obligation_from_proposal proposal)) (AttemptArmed b)) ∧
      ((∃ prepaid, b = ArmedPrepaid prepaid) → proposal_prior_state proposal = LegReplacementPendingBackoff)
  | Err _ => True
  end.

Lemma arm_active_shape active proposal budget bp identity :
  yields (reduce_arm_active active proposal budget bp identity) (armed_shape proposal identity).
Proof.
  unfold reduce_arm_active. case_decide as Hp; [by apply yields_ret|].
  destruct bp as [p|g now].
  - eapply yields_bind; [apply yields_any|]. intros [r|e] _; [|by apply yields_ret].
    eapply yields_bind; [apply yields_any|]. intros [] _. apply yields_ret. split; [done|].
    eexists. split; [done|]. by intros [? ?].
  - destruct active; try (by apply yields_ret). case_decide; [|by apply yields_ret].
    apply yields_ret. split; [done|]. eexists. split; [done|]. by simpl in Hp.
Qed.

Lemma arm_shape s proposal budget bp identity :
  yields (reduce_arm s proposal budget bp identity) (armed_shape proposal identity).
Proof.
  unfold reduce_arm. case_decide; [by apply yields_ret|].
  destruct s as [[p|p|hold]|attempt|[g st [p|p|hold]]]; simpl;
    first [apply arm_active_shape|by apply yields_ret].
Qed.

(** An accepted abort of an active attempt restores its prior state. *)
Lemma finish_abort_shape arm b g :
  yields (finish_pre_sink_abort ModeActive arm b g) (λ r,
    match r with
    | Ok (s, c) => c = no_action ∧
        s = settled g SettledPreSinkAbort
              (match b with
               | ArmedReserved _ => restore_prior arm
               | ArmedPrepaid prepaid => StableActive (ActiveReplacementPendingBackoffPrepaid prepaid)
               end)
    | Err _ => True
    end).
Proof.
  destruct b as [r|r]; simpl; [|by apply yields_ret].
  eapply yields_bind; [apply yields_any|]. intros [] _; by apply yields_ret.
Qed.

(** The legs propose from four states only, each of which an abort can restore. *)
Lemma proposal_prior inner leg event proposal :
  propose_transition inner leg event = Some proposal →
  proposal_prior_state proposal = leg_state (inner_state inner) ∧
  (leg_state (inner_state inner) = LegIdle ∨ leg_state (inner_state inner) = LegResting ∨
   leg_state (inner_state inner) = LegReplacementPendingBackoff ∨
   leg_state (inner_state inner) = LegModifyPending).
Proof.
  unfold propose_transition. destruct (is_winding_down _); [done|].
  destruct (leg_state (inner_state inner)), event as [[]| | | | | | |]; try done;
    try (destruct (inner_supports_modify inner)); intros [= <-]; simpl; auto.
Qed.

(** Every outcome event (abort, invariant failure, unwind, submitted, mutation
    invoked, sink rejection, callback retirement, post-sink unwind) is idempotent:
    delivered again to the transaction it was accepted by, it is accepted again, emits
    nothing, and changes neither the transaction nor the budgets. *)
Lemma outcome_idempotent event inner h c inner' h' :
  is_outcome event = true →
  reduction_apply event inner h = Some ((Ok c, inner'), h') →
  commit_action c = None ∧ reduction_apply event inner' h' = Some ((Ok no_action, inner'), h').
Proof.
  intros Hout. rewrite reduction_apply_eq.
  destruct (reduce_event _ event _ h) as [[r h1]|] eqn:E; [|done].
  pose proof (outcome_absorbed _ _ _ Hout _ _ _ E) as Habs.
  pose proof (outcome_settles _ _ _ Hout _ _ _ E) as Hset.
  destruct (settled_owner (inner_state inner) event) as [o po] eqn:Eo.
  destruct r as [[s c1]|[s e]]; [|done]. simpl in Habs, Hset. intros [= -> <- <-].
  destruct Hset as [Hc Hs]. split; [done|]. rewrite reduction_apply_eq.
  destruct (update_set_supports inner s o po) as [-> ->].
  rewrite Habs, set_update_same. destruct Hs as [->|Hs].
  - by rewrite Eo, update_terminal_owner_idem.
  - destruct (settled_owner s event) as [o' po'] eqn:Eo'.
    pose proof (settled_owner_unarmed s event Hs) as Hn. rewrite Eo' in Hn. simpl in Hn.
    by subst o'.
Qed.

Lemma outcome_idempotent_witness :
  let settled_tx := mkInner (settled 7 SettledSubmitted (StableActive ActiveSubmitPending)) false
    (Some (mkIdentity "order" 7)) false in
  reduction_apply (SinkCapable (EvSubmitted 7)) settled_tx ∅ = Some ((Ok no_action, settled_tx), ∅).
Proof.
  apply (outcome_idempotent (SinkCapable (EvSubmitted 7))
    (mkInner (TxAttempt (mkAttempt ModeActive
      (mkArm (mkIdentity "order" 7) LegIdle LegSubmitPending FreshSubmit)
      (AttemptSinkInvoked SinkCharged))) false None false) ∅ no_action); reflexivity.
Defined.

(** The generation fence.  An outcome of another generation than the armed attempt's
    touches neither the attempt nor the budgets: the pre-sink ones are ignored, the
    others refused. *)
Lemma generation_fence event inner attempt g h :
  inner_state inner = TxAttempt attempt →
  outcome_generation event = Some g →
  identity_generation (arm_identity (attempt_arm attempt)) ≠ g →
  ∃ r inner', reduction_apply event inner h = Some ((r, inner'), h) ∧
    inner_state inner' = inner_state inner ∧
    match event with
    | PreSink _ => r = Ok no_action
    | SinkCapable _ => is_ok r = false
    end.
Proof.
  intros Hs Hg Hne. destruct attempt as [mode arm phase]. simpl in Hne.
  assert (Hr : ∃ r, reduce_event (inner_state inner) event (inner_supports_modify inner) h = Some (r, h) ∧
    match r with
    | Ok (s, c) => s = inner_state inner ∧ c = no_action ∧ (∃ e, event = PreSink e)
    | Err (s, _) => s = inner_state inner ∧ (∃ e, event = SinkCapable e)
    end).
  { rewrite Hs. destruct event as [[]|[]]; try done; injection Hg as ->;
      cbn [reduce_event reduce_pre_sink reduce_sink_capable].
    all: unfold reduce_pre_sink_abort, reduce_pre_sink_invariant_failure, reduce_route_success,
      reduce_sink_rejected, reduce_post_sink_failure, reduce_callback_retired.
    all: simpl; rewrite ?fenced_attempt, ?decide_False by done; eexists; split; [done|].
    all: simpl; eauto. }
  destruct Hr as (r & Er & Hr). rewrite reduction_apply_eq, Er.
  destruct (settled_owner (inner_state inner) event) as [o po].
  destruct r as [[s c]|[s e]].
  - destruct Hr as (-> & -> & e & ->). eexists _, _. split; [done|]. by rewrite update_terminal_owner_state.
  - destruct Hr as (-> & ev & ->). eexists _, _. split; [done|]. by rewrite update_terminal_owner_state.
Qed.

Definition demo_armed : GovernedQuoteTransactionInner :=
  mkInner (TxAttempt (mkAttempt ModeActive
    (mkArm (mkIdentity "second" 8) LegIdle LegSubmitPending FreshSubmit)
    (AttemptArmed (ArmedReserved (mkReservation (mkPair 1%positive) 1 Refundable)))))
    false (Some (mkIdentity "first" 7)) false.

Lemma generation_fence_witness :
  ∃ r inner', reduction_apply (SinkCapable (EvSubmitted 7)) demo_armed ∅ = Some ((r, inner'), ∅) ∧
    inner_state inner' = inner_state demo_armed.
Proof.
  destruct (generation_fence (SinkCapable (EvSubmitted 7)) demo_armed _ 7 ∅ eq_refl eq_refl)
    as (r & inner' & E & Hs & _); [done|]. by exists r, inner'.
Defined.

(** A settlement is final.  Once the route of a generation is settled, an outcome
    that names another route or another generation is refused and changes nothing. *)
Lemma settlement_exclusive event inner settlement route0 g route h :
  inner_state inner = TxSettled settlement →
  settlement_status settlement = RouteSettled route0 ∨ settlement_status settlement = Reopened route0 →
  outcome_generation event = Some g → outcome_route event = Some route →
  settlement_generation settlement ≠ g ∨ route0 ≠ route →
  ∃ e, reduction_apply event inner h = Some ((Err e, inner), h).
Proof.
  intros Hs Hst Hg Hr Hne. rewrite reduction_apply_eq, Hs.
  rewrite (settled_outcome _ _ g route) by done. simpl.
  assert (Hc : ∃ e, settle_route settlement g route = Err (settlement, e)).
  { unfold settle_route. case_decide; [|eauto].
    destruct Hst as [-> | ->]; case_decide; try eauto; by destruct Hne. }
  destruct Hc as [e ->].
  destruct (settled_owner (TxSettled settlement) event) as [o po] eqn:Eo.
  pose proof (settled_owner_unarmed (TxSettled settlement) event eq_refl) as Ho.
  rewrite Eo in Ho. simpl in Ho. subst o. exists e. rewrite <- Hs.
  unfold update_terminal_owner. by destruct inner.
Qed.

Lemma settlement_exclusive_witness :
  let settled_tx := mkInner (settled 7 SettledSubmitted (StableActive ActiveSubmitPending)) false
    (Some (mkIdentity "order" 7)) false in
  ∃ e, reduction_apply (SinkCapable (EvSinkRejected 7)) settled_tx ∅ = Some ((Err e, settled_tx), ∅).
Proof.
  eapply (settlement_exclusive (SinkCapable (EvSinkRejected 7)) _ _ SettledSubmitted 7 SettledSinkRejected);
    [done|by left|done|done|by right].
Defined.

(** Arming and aborting before the sink is a round trip.  Whatever the leg proposed,
    if the transaction accepts the arming then the abort of that generation succeeds,
    emits nothing, and puts the leg back in the state it proposed from. *)
Lemma arm_abort_roundtrip inner leg event proposal budget bp identity h c inner1 h1 :
  heap_ok h → tx_inv h (inner_state inner) → budget_proposal_ok h budget bp →
  propose_transition inner leg event = Some proposal →
  reduction_apply (PreSink (EvArm proposal budget bp identity)) inner h = Some ((Ok c, inner1), h1) →
  ∃ inner2 h2,
    reduction_apply (PreSink (EvPreSinkAbort (identity_generation identity))) inner1 h1 =
      Some ((Ok no_action, inner2), h2) ∧
    leg_state (inner_state inner2) = leg_state (inner_state inner) ∧
    is_winding_down (inner_state inner2) = false ∧ heap_ok h2.
Proof.
  intros Hh Hinv Hbp Hprop Harm. apply proposal_prior in Hprop as [Hprior Hlegs].
  destruct (reduction_apply_owns h inner (PreSink (EvArm proposal budget bp identity)) Hh Hinv Hbp) as (p & h1' & E1 & Hm1 & Hinv1).
  rewrite Harm in E1. injection E1 as <- <-. simpl in Hm1, Hinv1.
  rewrite reduction_apply_eq in Harm. simpl in Harm.
  destruct (reduce_arm (inner_state inner) proposal budget bp identity h) as [[r h0]|] eqn:Er; [|done].
  pose proof (arm_shape _ _ _ _ _ _ _ _ Er) as Hshape.
  destruct r as [[s c0]|[s e]]; [|done]. injection Harm as <- <- <-.
  destruct Hshape as (_ & b & -> & Hpre). simpl in Hm1, Hinv1.
  rewrite reduction_apply_eq. cbn [inner_state set_inner_state update_terminal_owner reduce_event
    reduce_pre_sink]. unfold reduce_pre_sink_abort. rewrite fenced_attempt, decide_True by done.
  destruct (owns_finish_abort h0 _ _ _ (identity_generation identity) (moves_ok _ _ _ _ Hm1) Hinv1)
    as (r & h2 & Ef & Hm2 & _ & Hok). simpl. rewrite Ef.
  pose proof (finish_abort_shape _ _ _ _ _ _ Ef) as Hs2.
  destruct r as [[s2 c2]|[s2 e2]]; [|done]. destruct Hs2 as [-> ->]. rewrite armed_identity_attempt.
  eexists _, _. split; [done|]. rewrite update_terminal_owner_state. simpl.
  unfold leg_state at 1. simpl. unfold settlement_leg_state, is_winding_down. simpl. rewrite <- Hprior in *.
  destruct b as [r|r].
  - unfold restore_prior. simpl. destruct Hlegs as [-> | [-> | [-> | ->]]]; split_and!; try done; apply Hm2.
  - rewrite Hpre by eauto. split_and!; [done|done|apply Hm2].
Qed.

Lemma arm_abort_roundtrip_witness :
  ∃ inner1 h1,
    reduction_apply (PreSink (EvArm (mkTransitionProposal LegYes Submit LegIdle LegSubmitPending)
      (mkPair 1%positive) (BudgetReserve demo_requote) (mkIdentity "order" 7)))
      (inner_new false) demo_heap = Some ((Ok no_action, inner1), h1) ∧
    ∃ inner2 h2, reduction_apply (PreSink (EvPreSinkAbort 7)) inner1 h1 = Some ((Ok no_action, inner2), h2) ∧
    leg_state (inner_state inner2) = LegIdle.
Proof.
  eexists _, _. split; [reflexivity|].
  edestruct (arm_abort_roundtrip (inner_new false) LegYes (QuoteTrigger true)
    (mkTransitionProposal LegYes Submit LegIdle LegSubmitPending) (mkPair 1%positive)
    (BudgetReserve demo_requote) (mkIdentity "order" 7) demo_heap) as (i2 & h2 & E & Hl & _).
  - apply map_Forall_singleton, demo_pair_inv.
  - done.
  - split; [by exists demo_pair|done].
  - done.
  - reflexivity.
  - exists i2, h2. split; [exact E|exact Hl].
Defined.

(** A prepaid replacement waits for nothing but its trigger.  A leg that holds the
    prepaid token of a cancel-resubmit proposes a submit on every quote trigger, and
    arming it with that token succeeds in every budget heap and leaves the heap alone:
    no capacity check can deny it. *)
Lemma prepaid_replacement_needs_no_budget inner leg requote prepaid budget now identity h :
  (inner_state inner = TxStable (StableActive (ActiveReplacementPendingBackoffPrepaid prepaid)) ∨
   ∃ g route, inner_state inner =
     settled g route (StableActive (ActiveReplacementPendingBackoffPrepaid prepaid))) →
  identity_generation identity ≠ 0 →
  ∃ proposal inner',
    propose_transition inner leg (QuoteTrigger requote) = Some proposal ∧
    proposal_action proposal = Submit ∧
    reduction_apply (PreSink (EvArm proposal budget
      (BudgetPrepaid (reservation_generation prepaid) now) identity)) inner h =
      Some ((Ok no_action, inner'), h) ∧
    armed_identity (inner_state inner') = Some identity ∧
    prepaid_generation (inner_state inner') = Some (reservation_generation prepaid).
Proof.
  intros Hs Hid. exists (mkTransitionProposal leg Submit LegReplacementPendingBackoff LegSubmitPending).
  eexists. unfold propose_transition. rewrite reduction_apply_eq.
  destruct Hs as [-> | (g & route & ->)]; simpl; (split; [done|]); (split; [done|]);
    unfold reduce_arm; rewrite decide_False by done; simpl; unfold reduce_arm_active; simpl;
    rewrite decide_True by done; by split_and!.
Qed.

Lemma prepaid_replacement_needs_no_budget_witness :
  let prepaid := mkReservation (mkPair 1%positive) 1 Refundable in
  ∃ proposal, propose_transition (mkInner (TxStable (StableActive
    (ActiveReplacementPendingBackoffPrepaid prepaid))) false None false) LegYes (QuoteTrigger false) =
    Some proposal.
Proof.
  edestruct (prepaid_replacement_needs_no_budget (mkInner (TxStable (StableActive
    (ActiveReplacementPendingBackoffPrepaid (mkReservation (mkPair 1%positive) 1 Refundable)))) false None
    false) LegYes false (mkReservation (mkPair 1%positive) 1 Refundable) (mkPair 1%positive) 0
    (mkIdentity "order" 8) ∅) as (p & i & E & _); [by left|done|by exists p].
Defined.

(** ** Two behaviours worth knowing *)

(** A refused outcome of an older generation still records the armed identity as the
    terminal owner: the owner of generation 7 is replaced by the attempt 8 that has not
    reached the sink. *)
Example refused_outcome_moves_owner :
  ∃ e inner', reduction_apply (SinkCapable (EvSubmitted 7)) demo_armed ∅ = Some ((Err e, inner'), ∅) ∧
    inner_terminal_owner demo_armed = Some (mkIdentity "first" 7) ∧
    inner_terminal_owner inner' = Some (mkIdentity "second" 8).
Proof. eexists _, _. split; [reflexivity|]. by split. Qed.

(** A leg whose order was reopened after it settled, over an idle stable state. *)
Definition demo_reopened : GovernedQuoteTransactionInner :=
  mkInner (TxSettled (mkSettlement 7 (Reopened SettledSubmitted) (StableActive ActiveIdle))) false
    (Some (mkIdentity "first" 7)) false.

(** Such a leg reports [CancelPending] and proposes nothing, but a proposal taken before
    the reopening is still armed: the staleness check reads the stable state and not
    the settlement's leg state. *)
Example earlier_proposal_arms_reopened_leg :
  leg_state (inner_state demo_reopened) = LegCancelPending ∧
  (∀ event, propose_transition demo_reopened LegYes event = None) ∧
  ∃ inner' h',
    reduction_apply (PreSink (EvArm (mkTransitionProposal LegYes Submit LegIdle LegSubmitPending)
      (mkPair 1%positive) (BudgetReserve demo_requote) (mkIdentity "second" 8)))
      demo_reopened demo_heap = Some ((Ok no_action, inner'), h').
Proof.
  split_and!; [done|by intros []|]. eexists _, _. reflexivity.
Qed.
