(* ===== verification/MarketQuoteFacts.v ===== *)
(** * Market quotes over shared state: the world invariant

    Transactions and budget pairs live in one [world].  Each lock acquisition is one
    atomic step, so the interleavings of all controllers, handles and callbacks are
    the sequences of [world_step]s.  The invariant [world_ok] says that every pair is
    within its caps, every token a transaction owns is valid, no two transactions
    own the same ledger entry, and every ledger entry has an owner. *)

From Stdlib Require Import ZArith Lia.
From stdpp Require Import sorting strings gmap numbers list relations.
From S2P Require Import Prelude RequoteBudget RequoteBudgetFacts BudgetTokens.
From S2P Require Import QuoteLifecycle QuoteLifecycleFacts MarketQuote QuoteLifecycleSafety.

Open Scope Z_scope.

Definition owned_keys (inner : GovernedQuoteTransactionInner) : list entry_key :=
  keys (tx_tokens (inner_state inner)).

Record world_ok (w : world) : Prop := {
  world_heap : heap_ok (world_budgets w);
  world_tx : map_Forall (λ _ inner, tx_inv (world_budgets w) (inner_state inner)) (world_txs w);
  world_disjoint : ∀ l1 l2 i1 i2 k,
    world_txs w !! l1 = Some i1 → world_txs w !! l2 = Some i2 →
    k ∈ owned_keys i1 → k ∈ owned_keys i2 → l1 = l2;
  world_owned : ∀ k, is_Some (ledger_entry (world_budgets w) k) →
    ∃ l inner, world_txs w !! l = Some inner ∧ k ∈ owned_keys inner;
}.

(** ** A move by one transaction keeps the world *)

Lemma owned_key_token inner k :
  k ∈ owned_keys inner → ∃ r, r ∈ tx_tokens (inner_state inner) ∧ token_key r = k.
Proof. unfold owned_keys, keys. intros (r & -> & ?)%list_elem_of_fmap. by exists r. Qed.

Lemma token_owned inner r : r ∈ tx_tokens (inner_state inner) → token_key r ∈ owned_keys inner.
Proof. intros Hr. apply list_elem_of_fmap. by exists r. Qed.

Lemma tx_inv_token h s r : tx_inv h s → r ∈ tx_tokens s → token_ok h r.
Proof. intros [Ht _] Hr. rewrite Forall_forall in Ht. by apply Ht. Qed.

Lemma other_tx_inv ts h ts' h' s :
  moves ts h ts' h' → tx_inv h s → (∀ r, r ∈ tx_tokens s → token_key r ∉ keys ts) →
  tx_inv h' s ∧ (∀ r, r ∈ tx_tokens s → token_key r ∉ keys ts').
Proof.
  intros Hm Hs Hd.
  assert (Hr : ∀ r, r ∈ tx_tokens s → token_key r ∉ keys ts' ∧
    ledger_entry h' (token_key r) = ledger_entry h (token_key r) ∧ token_ok h' r).
  { intros r Hr. eapply moves_unframed; [done|by eapply tx_inv_token|by apply Hd]. }
  split; [|intros r Hin; by apply Hr]. split.
  - apply Forall_forall. intros r Hin. by apply Hr.
  - destruct Hs as [_ Ha]. destruct s as [|[mode arm [[r|r]|]]|]; try done. simpl in *.
    destruct (Hr r) as (_ & -> & _); [by apply list_elem_of_singleton|done].
Qed.

Lemma world_move w l inner inner' h' :
  world_ok w → world_txs w !! l = Some inner →
  moves (tx_tokens (inner_state inner)) (world_budgets w) (tx_tokens (inner_state inner')) h' →
  tx_inv h' (inner_state inner') →
  world_ok (mkWorld h' (<[l := inner']> (world_txs w))).
Proof.
  intros [Hh Ht Hd Ho] Hl Hm Hinv.
  assert (Hother : ∀ l' i, world_txs w !! l' = Some i → l' ≠ l →
    tx_inv h' (inner_state i) ∧ ∀ k, k ∈ owned_keys i → k ∉ owned_keys inner').
  { intros l' i Hi Hne. destruct (other_tx_inv _ _ _ _ (inner_state i) Hm (Ht _ _ Hi)) as [Hi' Hk].
    - intros r Hr Hin. apply Hne. by eapply Hd; [exact Hi|exact Hl|by apply token_owned|].
    - split; [done|]. intros k (r & Hr & <-)%owned_key_token. by apply Hk. }
  constructor; simpl.
  - apply Hm.
  - intros l' i [[<- <-]|[? Hi]]%lookup_insert_Some; [done|]. by eapply Hother.
  - intros l1 l2 i1 i2 k [[<- <-]|[? H1]]%lookup_insert_Some [[<- <-]|[? H2]]%lookup_insert_Some Hk1 Hk2.
    + done.
    + by destruct (Hother l2 i2) as [_ []%(λ H, H k Hk2)].
    + by destruct (Hother l1 i1) as [_ []%(λ H, H k Hk1)].
    + by eapply Hd.
  - intros k Hk. destruct (decide (k ∈ owned_keys inner')) as [Hin|Hout].
    { exists l, inner'. by rewrite lookup_insert_eq. }
    destruct (decide (k ∈ owned_keys inner)) as [Hin|Hin].
    { rewrite (moves_gone _ _ _ _ Hm k Hin Hout) in Hk. by destruct Hk. }
    rewrite (moves_frame _ _ _ _ Hm k Hin Hout) in Hk.
    destruct (Ho k Hk) as (l' & i & Hi & Hki). exists l', i. split; [|done].
    rewrite lookup_insert_ne; [done|]. intros <-. by simplify_eq.
Qed.

Lemma world_lock_tx {A} w t inner (f : GovernedQuoteTransactionInner →
    Governed (A * GovernedQuoteTransactionInner)) :
  world_ok w → world_txs w !! tx_loc t = Some inner →
  apply_owns (world_budgets w) inner (f inner) →
  runs (lock_tx t f) w (λ a w', world_ok w' ∧ dom (world_txs w') = dom (world_txs w) ∧
    heap_grows (world_budgets w) (world_budgets w') ∧
    ∃ inner' h', f inner (world_budgets w) = Some ((a, inner'), h') ∧
      world_txs w' = <[tx_loc t := inner']> (world_txs w)).
Proof.
  intros Hw Hl ([a inner'] & h' & E & Hm & Hinv). simpl in *.
  exists a, (mkWorld h' (<[tx_loc t := inner']> (world_txs w))). split.
  - unfold lock_tx. by rewrite Hl, E.
  - split_and!; simpl; [by eapply world_move| |apply Hm|eauto].
    apply dom_insert_lookup_L. by exists inner.
Qed.

(** ** Operations on one transaction *)

(** What the callers owe: an armed proposal refers to an allocated pair and carries
    well-formed costs; the sink clock is not before the clock the reservation was
    made at. *)
Definition op_ok (h : budget_heap) (inner : GovernedQuoteTransactionInner) (op : tx_op) : Prop :=
  match op with
  | OpReduce event => reduction_event_ok h event
  | OpSink _ now =>
      is_u64 now ∧
      ∀ r l, r ∈ tx_tokens (inner_state inner) → ledger_entry h (token_key r) = Some l →
        liability_now_ms l ≤ now
  | OpRefine _ | OpCloseScope => True
  end.

Lemma moves_same_keys ts ts' h :
  heap_ok h → Forall (token_ok h) ts' → keys ts' = keys ts → moves ts h ts' h.
Proof.
  intros Hh Ht Hk. constructor; rewrite ?Hk; try done; [apply heap_grows_refl|by left].
Qed.

Lemma close_scope_owns h inner :
  heap_ok h → tx_inv h (inner_state inner) → apply_owns h inner (close_retention_scope_inner inner).
Proof.
  intros Hh Hinv. apply (reduction_apply_owns h (mkInner (inner_state inner)
    (inner_supports_modify inner) (inner_terminal_owner inner) true)); done.
Qed.

Lemma tx_op_owns h inner op :
  heap_ok h → tx_inv h (inner_state inner) → op_ok h inner op →
  apply_owns h inner (tx_op_apply op inner).
Proof.
  intros Hh Hinv Hop. destruct op as [event|event|g now|]; simpl.
  - apply runs_bind. eapply runs_mono; [by apply reduction_apply_owns|].
    intros p h' Hp. by apply runs_ret.
  - apply runs_bind. eapply runs_mono; [by apply refinement_apply_owns|].
    intros p h' Hp. by apply runs_ret.
  - destruct Hop as [Hu Hclock]. destruct (prepare_sink_invoked inner g); apply runs_ret; simpl.
    + destruct (prepared_commit_owns h inner g now) as [Hinv' Hk]; try done.
      split; [|done]. apply moves_same_keys; [done|apply Hinv'|done].
    + split; [|done]. apply moves_refl; [done|apply Hinv].
  - apply runs_bind. eapply runs_mono; [by apply close_scope_owns|].
    intros p h' Hp. by apply runs_ret.
Qed.

(** ** Interleavings *)

(** One atomic step of the program: a transaction operation under its lock, or the
    allocation of a transaction or of a budget pair. *)
Inductive world_step : world → world → Prop :=
| step_tx w l inner op actions inner' h' :
    world_txs w !! l = Some inner → op_ok (world_budgets w) inner op →
    tx_op_apply op inner (world_budgets w) = Some ((actions, inner'), h') →
    world_step w (mkWorld h' (<[l := inner']> (world_txs w)))
| step_new_tx w l supports_modify :
    world_txs w !! l = None →
    world_step w (mkWorld (world_budgets w) (<[l := inner_new supports_modify]> (world_txs w)))
| step_new_pair w l submit rest :
    world_budgets w !! l = None → budget_params_ok submit → budget_params_ok rest →
    world_step w (mkWorld (<[l := pair_new submit rest]> (world_budgets w)) (world_txs w)).

Definition world_init : world := mkWorld ∅ ∅.

Definition reachable (w : world) : Prop := rtc world_step world_init w.

Lemma ledger_entry_new h l st k :
  h !! l = None → outstanding st = ∅ →
  ledger_entry (<[l := st]> h) k = ledger_entry h k.
Proof.
  intros Hl Hst. unfold ledger_entry. destruct (decide (k.1 = l)) as [<-|Hne].
  - rewrite lookup_insert_eq, Hl. simpl. rewrite Hst. apply lookup_empty.
  - by rewrite lookup_insert_ne.
Qed.

Lemma heap_grows_insert h l st : h !! l = None → heap_grows h (<[l := st]> h).
Proof.
  intros Hl l' st' Hl'. exists st'. rewrite lookup_insert_ne; [done|]. by intros ->; simplify_eq.
Qed.

Lemma tx_inv_new_pair h l st s :
  h !! l = None → outstanding st = ∅ → tx_inv h s → tx_inv (<[l := st]> h) s.
Proof.
  intros Hl Hst [Ht Ha]. split.
  - eapply Forall_impl; [exact Ht|]. intros r. simpl. apply token_ok_unframed.
    + by apply heap_grows_insert.
    + by apply ledger_entry_new.
  - destruct s as [|[mode arm [[r|r]|]]|]; try done. simpl in *. by rewrite ledger_entry_new.
Qed.

Lemma world_step_ok w w' : world_step w w' → world_ok w → world_ok w'.
Proof.
  destruct 1 as [w l inner op acts inner' h' Hl Hop E|w l sm Hl|w l submit rest Hl Hs Hr]; intros Hw.
  - destruct (tx_op_owns (world_budgets w) inner op) as (p & h1 & E1 & Hm & Hinv); try done.
    { apply Hw. } { by eapply (world_tx w Hw). }
    rewrite E in E1. injection E1 as <- <-. by eapply world_move.
  - destruct Hw as [Hh Ht Hd Ho]. constructor; simpl; try done.
    + by apply map_Forall_insert_2.
    + intros l1 l2 i1 i2 k [[<- <-]|[? H1]]%lookup_insert_Some
        [[<- <-]|[? H2]]%lookup_insert_Some Hk1 Hk2; try done; [|by inversion Hk2|by eapply Hd].
      by inversion Hk1.
    + intros k Hk. destruct (Ho k Hk) as (l' & i & Hi & Hki). exists l', i. split; [|done].
      rewrite lookup_insert_ne; [done|]. by intros ->; simplify_eq.
  - destruct Hw as [Hh Ht Hd Ho]. constructor; simpl; try done.
    + apply map_Forall_insert_2; [by apply pair_new_inv|done].
    + eapply map_Forall_impl; [exact Ht|]. intros l' i. simpl. by apply tx_inv_new_pair.
    + intros k. by rewrite ledger_entry_new; [apply Ho| |].
Qed.

Lemma world_init_ok : world_ok world_init.
Proof.
  constructor; simpl; try done; [apply map_Forall_empty..|].
  intros k [l Hk]. unfold ledger_entry in Hk. simpl in Hk. by rewrite lookup_empty in Hk.
Qed.

Lemma reachable_ok w : reachable w → world_ok w.
Proof.
  unfold reachable. pose proof world_init_ok as Hok. revert Hok.
  generalize world_init as w0. intros w0 Hok Hrtc. induction Hrtc as [|w0 w1 w2 Hstep _ IH]; [done|].
  by apply IH, (world_step_ok w0).
Qed.

(** ** The controller's methods *)

Definition keeps_world {A} (w : world) (m : Rust world A) (Q : A → world → Prop) : Prop :=
  runs m w (λ a w', world_ok w' ∧ dom (world_txs w') = dom (world_txs w) ∧
                    heap_grows (world_budgets w) (world_budgets w') ∧ Q a w').

Lemma keeps_ret {A} w (a : A) (Q : A → world → Prop) :
  world_ok w → Q a w → keeps_world w (mret a) Q.
Proof. intros Hw HQ. apply runs_ret. split_and!; try done. apply heap_grows_refl. Qed.

Lemma keeps_bind {A B} w (m : Rust world A) (f : A → Rust world B) P (Q : B → world → Prop) :
  keeps_world w m P →
  (∀ a w', world_ok w' → dom (world_txs w') = dom (world_txs w) →
     heap_grows (world_budgets w) (world_budgets w') → P a w' → keeps_world w' (f a) Q) →
  keeps_world w (m ≫= f) Q.
Proof.
  intros Hm Hf. apply runs_bind. eapply runs_mono; [exact Hm|].
  intros a w' (Hw & Hd & Hg & HP). eapply runs_mono; [by apply Hf|].
  intros b w'' (Hw' & Hd' & Hg' & HQ). split_and!; [done|congruence| |done].
  by eapply heap_grows_trans.
Qed.

Lemma keeps_assoc {A B C} w (m : Rust world A) (f : A → Rust world B) (g : B → Rust world C) Q :
  keeps_world w ((m ≫= f) ≫= g) Q → keeps_world w (m ≫= λ a, f a ≫= g) Q.
Proof.
  intros (c & w' & E & HQ). exists c, w'. split; [|done]. rewrite <- E.
  unfold mbind, rust_bind. by destruct (m w) as [[]|].
Qed.

Lemma keeps_mono {A} w (m : Rust world A) (P Q : A → world → Prop) :
  keeps_world w m P → (∀ a w', P a w' → Q a w') → keeps_world w m Q.
Proof. intros Hm HPQ. eapply runs_mono; [exact Hm|]. naive_solver. Qed.

(** The transaction at [t] after a reduction, whatever [R] says of it. *)
Definition tx_satisfies (w : world) (t : GovernedQuoteTransaction)
    (R : GovernedQuoteTransactionInner → Prop) : Prop :=
  ∃ inner, world_txs w !! tx_loc t = Some inner ∧ R inner.

Definition allocated (w : world) (t : GovernedQuoteTransaction) : Prop :=
  tx_loc t ∈ dom (world_txs w).

Lemma allocated_dom w w' t :
  dom (world_txs w') = dom (world_txs w) → allocated w t → allocated w' t.
Proof. unfold allocated. by intros ->. Qed.

Lemma allocated_Some w t : allocated w t → ∃ inner, world_txs w !! tx_loc t = Some inner.
Proof. unfold allocated. by intros [i Hi]%elem_of_dom; eauto. Qed.

Lemma keeps_reduce w t event (R : Result GovernedQuoteTransactionCommit QuoteError *
    GovernedQuoteTransactionInner → Prop) :
  world_ok w → allocated w t → reduction_event_ok (world_budgets w) event →
  (∀ inner, world_txs w !! tx_loc t = Some inner → yields (reduction_apply event inner) R) →
  keeps_world w (tx_reduce t event) (λ r w',
    (∃ inner', world_txs w' !! tx_loc t = Some inner' ∧ R (r, inner')) ∧
    ∀ l, l ≠ tx_loc t → world_txs w' !! l = world_txs w !! l).
Proof.
  intros Hw [inner Hl]%allocated_Some Hev HR.
  eapply runs_mono.
  { apply (world_lock_tx w t inner (reduction_apply event)); try done. apply reduction_apply_owns; [apply Hw| |done].
    by apply (world_tx w Hw (tx_loc t)). }
  intros r w' (Hw' & Hd & Hg & inner' & h' & E & Ht). split_and!; try done; rewrite Ht.
  - exists inner'. rewrite lookup_insert_eq. split; [done|]. by eapply HR.
  - intros l Hne. by rewrite lookup_insert_ne.
Qed.

(** Lifecycle events, wind-down and the missing-truth hold cannot fail: the [expect]s
    of the controller hold. *)
Definition infallible (event : QuoteTransactionReductionEvent) : bool :=
  match event with
  | PreSink (EvLifecycle _ | EvWindDown | EvMissingMoneyMovingTruth) => true
  | _ => false
  end.

Lemma infallible_ok event inner :
  infallible event = true → yields (reduction_apply event inner) (λ p, is_ok p.1 = true).
Proof.
  intros Hev. unfold reduction_apply. destruct event as [[]|]; try done; simpl.
  all: eapply (yields_bind _ _ (λ r, is_ok r = true));
    [eapply yields_bind; [apply yields_any|]; intros p _; by apply yields_ret|].
  all: intros [[s c]|[s e]] Hr; [|done]; by apply yields_ret.
Qed.

(** An infallible event through [expect]. *)
Lemma keeps_expect w t event (R : GovernedQuoteTransactionCommit →
    GovernedQuoteTransactionInner → Prop) :
  world_ok w → allocated w t → infallible event = true →
  (∀ inner, world_txs w !! tx_loc t = Some inner →
     yields (reduction_apply event inner)
       (λ p, match p.1 with Ok c => R c p.2 | Err _ => True end)) →
  keeps_world w (reduced ← tx_reduce t event; expect_commit reduced) (λ c w',
    tx_satisfies w' t (R c) ∧ ∀ l, l ≠ tx_loc t → world_txs w' !! l = world_txs w !! l).
Proof.
  intros Hw Ht Hev HR. eapply keeps_bind.
  - eapply (keeps_reduce w t event (λ p,
      is_ok p.1 = true ∧ match p.1 with Ok c => R c p.2 | Err _ => True end)); try done.
    + by destruct event as [[]|].
    + intros inner Hl s a s' E. split; [by eapply infallible_ok|by eapply (HR inner Hl)].
  - intros r w' Hw' _ _ [(inner' & Hl' & Hok & HR') Hother].
    destruct r as [c|e]; [|done]. apply keeps_ret; [done|]. split; [|done]. by exists inner'.
Qed.

Section Controller.
Context {InstrumentId : Type} `{EqDecision InstrumentId}.
Implicit Types (m : @MarketQuote InstrumentId).

Definition market_allocated (w : world) m : Prop :=
  allocated w (market_yes m) ∧ allocated w (market_no m).

Lemma market_transaction_allocated w m leg :
  market_allocated w m → allocated w (transaction m leg).
Proof. by intros []; destruct leg. Qed.

Lemma keeps_wind_down_leg w m leg :
  world_ok w → market_allocated w m →
  keeps_world w (wind_down_leg m leg) (λ c w',
    (tx_satisfies w' (transaction m leg) winding_inner ∧
     (commit_action c = None ∨ commit_action c = Some Cancel)) ∧
    ∀ l, l ≠ tx_loc (transaction m leg) → world_txs w' !! l = world_txs w !! l).
Proof.
  intros Hw Hm. eapply keeps_mono.
  { eapply (keeps_expect w _ _ (λ c inner', winding_inner inner' ∧
      (commit_action c = None ∨ commit_action c = Some Cancel))); try done.
    - by apply market_transaction_allocated.
    - intros inner _ h p h' E. pose proof (winding_reduction (PreSink EvWindDown) inner) as Hy.
      destruct (Hy ltac:(by right) _ _ _ E) as [Hact Hwi].
      destruct p as [[c|e] inner']; [|done]. split; [done|].
      unfold only_cancels, result_action in Hact. simpl in Hact.
      destruct (commit_action c) as [a|]; [right|by left].
      by inversion Hact; subst. }
  intros c w' [(inner' & Hl & Hwi & Hc) Hother]. split; [split; [|done]|done]. by exists inner'.
Qed.

Lemma keeps_on_leg_event w m leg event :
  world_ok w → market_allocated w m → keeps_world w (on_leg_event m leg event) (λ _ _, True).
Proof.
  intros Hw Hm. apply keeps_assoc. eapply (keeps_bind _ _ _ (λ _ _, True)).
  - eapply keeps_mono; [apply (keeps_expect w _ _ (λ _ _, True)); try done|done].
    + by apply market_transaction_allocated.
    + intros inner _ h p h' _. by destruct p.1.
  - intros c w' Hw' _ _ _. by apply keeps_ret.
Qed.

Lemma market_allocated_dom w w' m :
  dom (world_txs w') = dom (world_txs w) → market_allocated w m → market_allocated w' m.
Proof. intros Hd []. split; by eapply allocated_dom. Qed.

Lemma keeps_drain w m :
  world_ok w → market_allocated w m →
  keeps_world w (drain m) (λ action w',
    tx_satisfies w' (market_yes m) winding_inner ∧ tx_satisfies w' (market_no m) winding_inner ∧
    (action = None ∨ action = Some CancelAllBothLegs)).
Proof.
  intros Hw Hm. eapply keeps_bind; [by apply (keeps_wind_down_leg w m LegYes)|].
  intros yes w1 Hw1 Hd1 _ [[Hyes _] _]. simpl in Hyes.
  eapply keeps_bind; [apply (keeps_wind_down_leg w1 m LegNo); [done|by eapply market_allocated_dom]|].
  intros no w2 Hw2 _ _ [[Hno _] Hother]. simpl in *. apply keeps_ret; [done|]. split_and!; [|done|].
  - destruct (decide (tx_loc (market_yes m) = tx_loc (market_no m))) as [He|Hne].
    + destruct Hno as (i & Hi & Hwi). exists i. by rewrite He.
    + destruct Hyes as (i & Hi & Hwi). exists i. by rewrite Hother.
  - unfold both_legs_action. destruct (commit_action yes), (commit_action no); auto.
Qed.

Lemma keeps_wind_down_then {A} w m leg (f : GovernedQuoteTransactionCommit → A) :
  world_ok w → market_allocated w m →
  keeps_world w (commit ← wind_down_leg m leg; mret (f commit)) (λ _ w',
    tx_satisfies w' (transaction m leg) winding_inner).
Proof.
  intros Hw Hm. eapply keeps_bind; [by apply keeps_wind_down_leg|].
  intros c w' Hw' _ _ [[? _] _]. by apply keeps_ret.
Qed.

(** Closing the scope of one leg: winds down and marks the scope closed. *)
Lemma keeps_close_leg w t :
  world_ok w → allocated w t →
  keeps_world w (closed ← tx_close_retention_scope t; expect_commit closed) (λ _ w',
    tx_satisfies w' t winding_inner ∧
    ∀ l, l ≠ tx_loc t → world_txs w' !! l = world_txs w !! l).
Proof.
  intros Hw [inner Hl]%allocated_Some.
  eapply (keeps_bind _ _ _ (λ r w', is_ok r = true ∧ tx_satisfies w' t winding_inner ∧
    ∀ l, l ≠ tx_loc t → world_txs w' !! l = world_txs w !! l)).
  - eapply runs_mono.
    { apply (world_lock_tx w t inner close_retention_scope_inner); try done.
      by apply close_scope_owns; [apply Hw|apply (world_tx w Hw (tx_loc t))]. }
    intros r w' (Hw' & Hd & Hg & inner' & h' & E & Ht). split_and!; try done.
    + by pose proof (infallible_ok (PreSink EvWindDown) _ eq_refl _ _ _ E).
    + exists inner'. rewrite Ht, lookup_insert_eq. split; [done|].
      by destruct (winding_reduction _ _ ltac:(by right) _ _ _ E) as [_ ?].
    + intros l Hne. by rewrite Ht, lookup_insert_ne.
  - intros [c|e] w' Hw' _ _ (Hok & Hwi & Hother); [|done]. by apply keeps_ret.
Qed.

Lemma keeps_close_retention_scope w m :
  world_ok w → market_allocated w m →
  keeps_world w (close_retention_scope m) (λ _ w',
    tx_satisfies w' (market_yes m) winding_inner ∧ tx_satisfies w' (market_no m) winding_inner).
Proof.
  intros Hw Hm. apply keeps_assoc. eapply keeps_bind; [by apply keeps_close_leg; [|apply Hm]|].
  intros yes w1 Hw1 Hd1 _ [Hyes _]. apply keeps_assoc.
  eapply keeps_bind; [apply keeps_close_leg; [done|]|].
  { eapply market_allocated_dom in Hm as [_ ?]; done. }
  intros no w2 Hw2 _ _ [Hno Hother]. apply keeps_ret; [done|]. split; [|done].
  destruct (decide (tx_loc (market_yes m) = tx_loc (market_no m))) as [He|Hne].
  - destruct Hno as (i & Hi & Hwi). exists i. by rewrite He.
  - destruct Hyes as (i & Hi & Hwi). exists i. by rewrite Hother.
Qed.

End Controller.

(** ** A leg that winds down, in the world *)

Lemma winding_step w w' l inner :
  world_step w w' → world_txs w !! l = Some inner → winding_inner inner →
  ∃ inner', world_txs w' !! l = Some inner' ∧ winding_inner inner'.
Proof.
  intros Hstep Hl Hwi.
  destruct Hstep as [w l' i op acts i' h' Hl' Hop E|w l' sm Hl'|w l' submit rest Hl' _ _]; simpl.
  - destruct (decide (l = l')) as [<-|Hne].
    + exists i'. rewrite lookup_insert_eq. split; [done|].
      rewrite Hl in Hl'. injection Hl' as <-. by destruct (winding_op op inner Hwi _ _ _ E).
    + exists inner. by rewrite lookup_insert_ne.
  - exists inner. rewrite lookup_insert_ne; [done|]. by intros ->; simplify_eq.
  - by exists inner.
Qed.

Lemma winding_rtc w w' l inner :
  rtc world_step w w' → world_txs w !! l = Some inner → winding_inner inner →
  ∃ inner', world_txs w' !! l = Some inner' ∧ winding_inner inner'.
Proof.
  intros Hrtc. revert inner. induction Hrtc as [|w w1 w2 Hstep _ IH]; intros inner Hl Hwi; [eauto|].
  destruct (winding_step _ _ _ _ Hstep Hl Hwi) as (i1 & Hl1 & Hwi1). by eapply IH.
Qed.

(** ** A concrete world for the witnesses *)

Definition demo_world : world :=
  mkWorld demo_heap {[ 2%positive := inner_new false; 1%positive := inner_new false ]}.

Lemma demo_reachable : reachable demo_world.
Proof.
  apply (rtc_l _ _ (mkWorld demo_heap ∅)).
  { apply (step_new_pair world_init 1%positive); [done|by exists 2, 1000, 0|by exists 3, 1000, 0]. }
  apply (rtc_l _ _ (mkWorld demo_heap {[ 1%positive := inner_new false ]})).
  { by apply (step_new_tx (mkWorld demo_heap ∅) 1%positive). }
  apply rtc_once. by apply (step_new_tx (mkWorld demo_heap _) 2%positive).
Qed.

(** Arm the first leg with a fresh submit. *)
Definition demo_arm : tx_op :=
  OpReduce (PreSink (EvArm
    (mkTransitionProposal LegYes Submit LegIdle LegSubmitPending) (mkPair 1%positive)
    (BudgetReserve (mkReservationProposal (OneShot (mkLiabilityBalance 50 1 1))))
    (mkIdentity "order" 7))).

Definition demo_market : @MarketQuote string :=
  mkMarket (mkScope 0 "yes"%string "no"%string) (mkTx 1%positive) (mkTx 2%positive).

Lemma demo_market_allocated : market_allocated demo_world demo_market.
Proof. split; by vm_compute. Qed.

(** ** What the world promises *)

(** C1: in every world reachable by transaction operations in any interleaving, whose
    callers arm with well-formed costs on allocated pairs and cross the sink at a clock
    not before the one they reserved at, both windows of every budget pair are within
    their caps; and at every instant from the last charge on, what the window then holds
    together with the outstanding reservations made by that instant is within the cap. *)
Theorem reachable_within_caps w l st :
  reachable w → world_budgets w !! l = Some st →
  window_cost (submit_commands st) ≤ max_cost_per_window (submit_commands st) ∧
  window_cost (rest_calls st) ≤ max_cost_per_window (rest_calls st) ∧
  (∀ t, last0 (submit_commands st) ≤ t →
     cost_at (submit_commands st) t + ledger_sum (due liability_submit_cost t) (outstanding st)
       ≤ max_cost_per_window (submit_commands st)) ∧
  (∀ t, last0 (rest_calls st) ≤ t →
     cost_at (rest_calls st) t + ledger_sum (due liability_rest_cost t) (outstanding st)
       ≤ max_cost_per_window (rest_calls st)).
Proof.
  intros Hw Hl. pose proof (world_heap w (reachable_ok w Hw) l st Hl) as Hst. simpl in Hst.
  destruct (pair_inv_caps st Hst). split_and!; try done; apply Hst.
Qed.

Lemma reachable_within_caps_witness :
  window_cost (rest_calls demo_pair) ≤ max_cost_per_window (rest_calls demo_pair).
Proof. by destruct (reachable_within_caps demo_world 1%positive demo_pair demo_reachable eq_refl). Defined.

(** C2: no operation on a transaction panics in a reachable world, and it leads to a
    reachable world. *)
Theorem reachable_no_panic w l inner op :
  reachable w → world_txs w !! l = Some inner → op_ok (world_budgets w) inner op →
  ∃ actions inner' h', tx_op_apply op inner (world_budgets w) = Some ((actions, inner'), h') ∧
    reachable (mkWorld h' (<[l := inner']> (world_txs w))).
Proof.
  intros Hw Hl Hop. pose proof (reachable_ok w Hw) as Hok.
  destruct (tx_op_owns (world_budgets w) inner op) as ([acts inner'] & h' & E & _);
    [apply Hok|by eapply (world_tx w Hok)|done|].
  exists acts, inner', h'. split; [done|]. eapply rtc_r; [exact Hw|]. by eapply step_tx.
Qed.

Lemma reachable_no_panic_witness :
  ∃ actions inner' h', tx_op_apply demo_arm (inner_new false) demo_heap = Some ((actions, inner'), h').
Proof.
  destruct (reachable_no_panic demo_world 1%positive (inner_new false) demo_arm demo_reachable)
    as (acts & inner' & h' & E & _); [done| |by exists acts, inner', h'].
  split; [by exists demo_pair|done].
Defined.

(** C13: reservations do not leak and are not shared.  In every reachable world each
    ledger entry is owned by exactly one transaction, and once no transaction holds a
    token every pair has an empty ledger. *)
Theorem reachable_entries_owned w :
  reachable w →
  (∀ k, is_Some (ledger_entry (world_budgets w) k) →
     exists! l, ∃ inner, world_txs w !! l = Some inner ∧ k ∈ owned_keys inner) ∧
  (map_Forall (λ _ inner, tx_tokens (inner_state inner) = []) (world_txs w) →
   map_Forall (λ _ st, outstanding st = ∅) (world_budgets w)).
Proof.
  intros Hw. destruct (reachable_ok w Hw) as [_ _ Hd Ho]. split.
  - intros k Hk. destruct (Ho k Hk) as (l & inner & Hl & Hin). exists l. split; [eauto|].
    intros l' (i' & Hl' & Hin'). by eapply Hd.
  - intros Hnone l st Hl. apply map_empty. intros g. destruct (outstanding st !! g) as [x|] eqn:Hg; [|done].
    destruct (Ho (l, g)) as (l' & inner & Hl' & Hin).
    { exists x. unfold ledger_entry. simpl. by rewrite Hl. }
    unfold owned_keys in Hin. rewrite (Hnone _ _ Hl') in Hin. by inversion Hin.
Qed.

Lemma reachable_entries_owned_witness :
  map_Forall (λ _ st, outstanding st = ∅) (world_budgets demo_world).
Proof.
  apply (reachable_entries_owned demo_world demo_reachable).
  apply map_Forall_insert_2; [done|]. apply map_Forall_insert_2; [done|]. apply map_Forall_empty.
Defined.

(** The controller's [expect]s hold.  From a consistent world, every method of the
    market that unwraps a reduction returns, and the world stays consistent. *)
Lemma controller_never_panics {InstrumentId} (m : @MarketQuote InstrumentId) leg event w :
  world_ok w → market_allocated w m →
  (∃ a w', on_leg_event m leg event w = Some (a, w') ∧ world_ok w') ∧
  (∃ a w', cancel_leg m leg w = Some (a, w') ∧ world_ok w') ∧
  (∃ a w', cancel_one_side m leg w = Some (a, w') ∧ world_ok w') ∧
  (∃ a w', drain m w = Some (a, w') ∧ world_ok w') ∧
  (∃ a w', close_retention_scope m w = Some (a, w') ∧ world_ok w').
Proof.
  intros Hw Hm.
  assert (Hk : ∀ A (r : Rust world A) Q, keeps_world w r Q → ∃ a w', r w = Some (a, w') ∧ world_ok w').
  { intros A r Q (a & w' & E & ? & _). eauto. }
  split_and!; eapply Hk.
  - by apply keeps_on_leg_event.
  - by apply keeps_wind_down_then.
  - by apply (keeps_wind_down_then w m leg (λ commit, (λ _, CancelAllOneSide leg) <$> commit_action commit)).
  - by apply keeps_drain.
  - by apply keeps_close_retention_scope.
Qed.

Lemma controller_never_panics_witness :
  ∃ a w', drain demo_market demo_world = Some (a, w') ∧ world_ok w'.
Proof.
  apply (controller_never_panics demo_market LegYes Filled demo_world);
    [apply reachable_ok, demo_reachable|apply demo_market_allocated].
Defined.

(** C16: draining a market is final for both legs.  After [drain] both legs wind down
    and keep winding down in every later world, whatever the interleaving; a
    winding-down leg proposes no transition and emits nothing but cancels. *)
Theorem drain_is_final {InstrumentId} (m : @MarketQuote InstrumentId) w :
  world_ok w → market_allocated w m →
  ∃ action w', drain m w = Some (action, w') ∧
    ∀ w'' leg, rtc world_step w' w'' →
      ∃ inner, world_txs w'' !! tx_loc (transaction m leg) = Some inner ∧
        is_winding_down (inner_state inner) = true ∧
        (∀ event, propose_transition inner leg event = None) ∧
        (∀ op h actions inner' h',
           tx_op_apply op inner h = Some ((actions, inner'), h') → Forall (λ a, a = Cancel) actions).
Proof.
  intros Hw Hm. destruct (keeps_drain w m Hw Hm) as (a & w' & E & _ & _ & _ & Hyes & Hno & _).
  exists a, w'. split; [done|]. intros w'' leg Hrtc.
  assert (Hleg : tx_satisfies w' (transaction m leg) winding_inner) by (by destruct leg).
  destruct Hleg as (i & Hl & Hwi). destruct (winding_rtc _ _ _ _ Hrtc Hl Hwi) as (i' & Hl' & Hwi').
  exists i'. split_and!; [done|done| |].
  - intros event. by apply winding_no_proposal.
  - intros op h acts i2 h2 Eop. by destruct (winding_op op i' Hwi' _ _ _ Eop).
Qed.

Lemma drain_is_final_witness :
  ∃ action w', drain demo_market demo_world = Some (action, w') ∧
    ∃ inner, world_txs w' !! 1%positive = Some inner ∧ is_winding_down (inner_state inner) = true.
Proof.
  destruct (drain_is_final demo_market demo_world) as (a & w' & E & H);
    [apply reachable_ok, demo_reachable|apply demo_market_allocated|].
  exists a, w'. split; [done|]. destruct (H w' LegYes) as (i & Hl & Hwi & _); [apply rtc_refl|by exists i].
Defined.
