(* ===== verification/QuoteControl.v ===== *)
(** * Quote control

    Models [src/src/bolt_v3_maker_quote_control.rs] and
    [src/src/bolt_v3_maker_quote_set.rs]: the plan of one leg and of the two legs of a
    binary market.  Planning composes the lifecycle's proposal with the budget's; it
    reads both under their locks and changes neither, and what it plans can be armed. *)

From Stdlib Require Import ZArith Lia.
From stdpp Require Import sorting strings gmap numbers list.
From S2P Require Import Prelude F64 RequoteBudget QuoteLifecycle MarketQuote QuoteOutcomes.
From S2P Require Import RequoteBudgetFacts BudgetTokens MarketQuoteFacts.

Open Scope Z_scope.

Record QuoteControlInput : Type := mkControlInput {
  control_leg : Leg;
  desired_price : f64;
  resting_price : option f64;
  requote_threshold : f64;
  control_eps : f64;
  control_now_ms : Z;
}.

Inductive QuoteControlBlockReason : Type :=
| InvalidDesiredPrice
| InvalidRestingPrice
| InvalidRequoteThreshold
| MissingRestingPrice
| RequoteBudgetExhausted.

Record MakerQuoteCommandProposal : Type := mkCommand {
  command_lifecycle : QuoteLegTransitionProposal;
  command_budget : MakerQuoteBudgetProposal;
}.

Definition command_action (c : MakerQuoteCommandProposal) : MarketAction :=
  ActionLeg (proposal_leg (command_lifecycle c)) (proposal_action (command_lifecycle c)).

Record QuoteControlDecision : Type := mkControlDecision {
  control_action : option MarketAction;
  control_proposal : option MakerQuoteCommandProposal;
  control_blocked_by : option QuoteControlBlockReason;
  control_requote_needed : bool;
}.

Definition control_blocked (reason : QuoteControlBlockReason) : QuoteControlDecision :=
  mkControlDecision None None (Some reason) false.

(** A method of the pair that reads its state under the lock. *)
Definition read_pair {A} (pair : RequoteBudgetPair) (f : RequoteBudgetPairState → A)
    : Rust world A :=
  λ w,
    match world_budgets w !! pair_loc pair with
    | Some st => Some (f st, w)
    | None => None
    end.

(** [.ok().map(MakerQuoteBudgetProposal::Reserve)]. *)
Definition ok_reserve {E} (r : Result RequoteBudgetReservationProposal E)
    : option MakerQuoteBudgetProposal :=
  match r with Ok p => Some (BudgetReserve p) | Err _ => None end.

(** The resting price, where there is one, must be an open probability. *)
Definition validate_resting_price (resting : option f64) (eps : f64)
    : Result (option f64) QuoteControlBlockReason :=
  match resting with
  | Some price =>
      match sanitize_open_probability price eps with
      | Some validated => Ok (Some validated)
      | None => Err InvalidRestingPrice
      end
  | None => Ok None
  end.

(** [(desired - price).abs() >= threshold], or true without a resting price. *)
Definition requote_is_needed (desired : f64) (resting : option f64) (threshold : f64) : bool :=
  match resting with
  | Some price => f64_ge (f64_abs (f64_sub desired price)) threshold
  | None => true
  end.

Section Control.
Context {InstrumentId : Type}.
Implicit Types (market : @MarketQuote InstrumentId).

Definition propose_action_budget market (budget : RequoteBudgetPair) (now_ms : Z)
    (lifecycle : QuoteLegTransitionProposal) : Rust world (option MakerQuoteBudgetProposal) :=
  let fresh_submit := read_pair budget (λ st, ok_reserve (propose_fresh_submit st now_ms)) in
  match proposal_action lifecycle with
  | Submit =>
      if decide (proposal_prior_state lifecycle = LegReplacementPendingBackoff) then
        prepaid ← market_prepaid_generation market (proposal_leg lifecycle);
        match prepaid with
        | Some generation => mret (Some (BudgetPrepaid generation now_ms))
        | None => fresh_submit
        end
      else fresh_submit
  | Cancel =>
      if decide (proposal_pending_state lifecycle = LegRequotePending)
      then read_pair budget (λ st, ok_reserve (propose_cancel_resubmit st now_ms))
      else read_pair budget (λ st, ok_reserve (propose_rest st now_ms))
  | Modify => read_pair budget (λ st, ok_reserve (propose_rest st now_ms))
  end.

(** From the lifecycle's proposal on. *)
Definition plan_leg market (budget : RequoteBudgetPair) (input : QuoteControlInput)
    (requote_needed : bool) : Rust world QuoteControlDecision :=
  lifecycle ← propose_leg_event market (control_leg input) (QuoteTrigger requote_needed);
  match lifecycle with
  | None => mret (mkControlDecision None None None requote_needed)
  | Some lifecycle =>
      proposed ← propose_action_budget market budget (control_now_ms input) lifecycle;
      mret (match proposed with
            | None => mkControlDecision None None (Some RequoteBudgetExhausted) requote_needed
            | Some budget_proposal =>
                mkControlDecision
                  (Some (ActionLeg (proposal_leg lifecycle) (proposal_action lifecycle)))
                  (Some (mkCommand lifecycle budget_proposal)) None requote_needed
            end)
  end.

Definition drive_quote_leg market (budget : RequoteBudgetPair) (input : QuoteControlInput)
    : Rust world QuoteControlDecision :=
  match sanitize_open_probability (desired_price input) (control_eps input) with
  | None => mret (control_blocked InvalidDesiredPrice)
  | Some desired =>
      if negb (is_non_negative_finite (requote_threshold input))
      then mret (control_blocked InvalidRequoteThreshold)
      else
        match validate_resting_price (resting_price input) (control_eps input) with
        | Err reason => mret (control_blocked reason)
        | Ok resting =>
            state ← market_leg_state market (control_leg input);
            if decide (state = LegResting ∧ resting = None)
            then mret (control_blocked MissingRestingPrice)
            else plan_leg market budget input
                   (requote_is_needed desired resting (requote_threshold input))
        end
  end.

(** ** The quote set *)

Inductive QuoteSide : Type := QuoteBuy | QuoteSell.

#[global] Instance QuoteSide_eq_dec : EqDecision QuoteSide.
Proof. solve_decision. Defined.

Record QuoteTargetLeg : Type := mkTargetLeg {
  target_side : QuoteSide;
  target_price : f64;
  size_notional : f64;
}.

Record QuoteTargets : Type := mkTargets { leg_a : QuoteTargetLeg; leg_b : QuoteTargetLeg }.

Record QuoteSetInput : Type := mkSetInput {
  targets : QuoteTargets;
  yes_quantity : f64;
  no_quantity : f64;
  yes_resting_price : option f64;
  no_resting_price : option f64;
  set_requote_threshold : f64;
  set_eps : f64;
  set_now_ms : Z;
}.

Inductive QuoteSetBlockReason : Type := UnsupportedQuoteSide | InvalidQuantity.

Record QuoteSetLegDecision : Type := mkSetLegDecision {
  set_control : QuoteControlDecision;
  set_blocked_by : option QuoteSetBlockReason;
}.

Record QuoteSetDecision : Type := mkSetDecision {
  set_yes : QuoteSetLegDecision;
  set_no : QuoteSetLegDecision;
}.

Definition no_control_action : QuoteControlDecision := mkControlDecision None None None false.

Definition set_blocked (reason : QuoteSetBlockReason) : QuoteSetLegDecision :=
  mkSetLegDecision no_control_action (Some reason).

Definition drive_quote_set_leg market (budget : RequoteBudgetPair) (leg : Leg)
    (target : QuoteTargetLeg) (quantity : f64) (resting : option f64) (threshold eps : f64)
    (now_ms : Z) : Rust world QuoteSetLegDecision :=
  if decide (target_side target ≠ QuoteBuy) then mret (set_blocked UnsupportedQuoteSide)
  else if negb (is_positive_finite quantity) then mret (set_blocked InvalidQuantity)
  else
    control ← drive_quote_leg market budget
                (mkControlInput leg (target_price target) resting threshold eps now_ms);
    mret (mkSetLegDecision control None).

Definition drive_binary_quote_set market (budget : RequoteBudgetPair) (input : QuoteSetInput)
    : Rust world QuoteSetDecision :=
  yes ← drive_quote_set_leg market budget LegYes (leg_a (targets input)) (yes_quantity input)
          (yes_resting_price input) (set_requote_threshold input) (set_eps input) (set_now_ms input);
  no ← drive_quote_set_leg market budget LegNo (leg_b (targets input)) (no_quantity input)
         (no_resting_price input) (set_requote_threshold input) (set_eps input) (set_now_ms input);
  mret (mkSetDecision yes no).

End Control.

(** ** What a plan costs, and that it can be armed *)

(** The cost class of an action: a fresh quote, the whole cancel-resubmit round trip, or
    a single call. *)
Definition action_liability (l : QuoteLegTransitionProposal) (now_ms : Z) : OutstandingLiability :=
  match proposal_action l, proposal_pending_state l with
  | Submit, _ => OneShot (mkLiabilityBalance now_ms SUBMIT_COMMAND_COST REST_CALL_COST)
  | Cancel, LegRequotePending => CancelResubmitBothOutstanding now_ms
  | Cancel, _ | Modify, _ => OneShot (mkLiabilityBalance now_ms 0 REST_CALL_COST)
  end.

(** The budget proposal of a plan, as a function of what planning reads. *)
Definition planned_budget (prepaid : option Z) (st : RequoteBudgetPairState) (now_ms : Z)
    (l : QuoteLegTransitionProposal) : option MakerQuoteBudgetProposal :=
  match proposal_action l, proposal_prior_state l, prepaid with
  | Submit, LegReplacementPendingBackoff, Some generation => Some (BudgetPrepaid generation now_ms)
  | _, _, _ => ok_reserve (propose st (action_liability l now_ms))
  end.

Section Plans.
Context {InstrumentId : Type}.
Implicit Types (m : @MarketQuote InstrumentId).

Lemma read_tx_eq {A} w t inner (f : GovernedQuoteTransactionInner → A) :
  world_txs w !! tx_loc t = Some inner → read_tx t f w = Some (f inner, w).
Proof. unfold read_tx. by intros ->. Qed.

Lemma read_pair_eq {A} w pair st (f : RequoteBudgetPairState → A) :
  world_budgets w !! pair_loc pair = Some st → read_pair pair f w = Some (f st, w).
Proof. unfold read_pair. by intros ->. Qed.

Lemma propose_action_budget_eq m budget now l w inner st :
  world_txs w !! tx_loc (transaction m (proposal_leg l)) = Some inner →
  world_budgets w !! pair_loc budget = Some st →
  propose_action_budget m budget now l w =
    Some (planned_budget (prepaid_generation (inner_state inner)) st now l, w).
Proof.
  intros Hl Hb. unfold propose_action_budget, planned_budget, action_liability.
  destruct (proposal_action l).
  - case_decide as Hp.
    + rewrite Hp. unfold market_prepaid_generation, tx_prepaid_generation.
      erewrite rust_bind_step by (by apply read_tx_eq).
      destruct (prepaid_generation (inner_state inner)); [done|]. by erewrite read_pair_eq.
    + erewrite read_pair_eq by done. by destruct (proposal_prior_state l).
  - case_decide as Hp; erewrite read_pair_eq by done; [by rewrite Hp|].
    by destruct (proposal_pending_state l).
  - by erewrite read_pair_eq.
Qed.

(** The plan of a leg, as a function of what planning reads. *)
Definition leg_plan (inner : GovernedQuoteTransactionInner) (st : RequoteBudgetPairState)
    (input : QuoteControlInput) (requote_needed : bool) : QuoteControlDecision :=
  match propose_transition inner (control_leg input) (QuoteTrigger requote_needed) with
  | None => mkControlDecision None None None requote_needed
  | Some l =>
      match planned_budget (prepaid_generation (inner_state inner)) st (control_now_ms input) l with
      | None => mkControlDecision None None (Some RequoteBudgetExhausted) requote_needed
      | Some bp =>
          mkControlDecision (Some (ActionLeg (proposal_leg l) (proposal_action l)))
            (Some (mkCommand l bp)) None requote_needed
      end
  end.

Lemma proposal_leg_eq inner leg event l :
  propose_transition inner leg event = Some l → proposal_leg l = leg.
Proof. unfold propose_transition. intros. by repeat case_match; simplify_eq. Qed.

Lemma plan_leg_eq m budget input requote w inner st :
  world_txs w !! tx_loc (transaction m (control_leg input)) = Some inner →
  world_budgets w !! pair_loc budget = Some st →
  plan_leg m budget input requote w = Some (leg_plan inner st input requote, w).
Proof.
  intros Hl Hb. unfold plan_leg, propose_leg_event, tx_propose, leg_plan.
  erewrite rust_bind_step by (by apply read_tx_eq).
  destruct (propose_transition _ _ _) as [l|] eqn:Ep; [|done].
  erewrite rust_bind_step.
  2:{ apply propose_action_budget_eq; [|done]. by erewrite proposal_leg_eq. }
  by destruct (planned_budget _ _ _ _).
Qed.

(** Planning reads only; a decision with a proposal is the plan of the leg. *)
Lemma drive_quote_leg_reads m budget input w inner st :
  world_txs w !! tx_loc (transaction m (control_leg input)) = Some inner →
  world_budgets w !! pair_loc budget = Some st →
  ∃ d, drive_quote_leg m budget input w = Some (d, w) ∧
    (control_proposal d ≠ None → ∃ requote, d = leg_plan inner st input requote).
Proof.
  intros Hl Hb. unfold drive_quote_leg.
  destruct (sanitize_open_probability _ _); [|by eexists].
  destruct (negb _); [by eexists|]. destruct (validate_resting_price _ _); [|by eexists].
  unfold market_leg_state, tx_leg_state. erewrite rust_bind_step by (by apply read_tx_eq).
  case_decide; [by eexists|]. eexists. split; [by apply plan_leg_eq|]. eauto.
Qed.

(** The two legs are planned on the same, unchanged world; a leg is commanded only to
    buy, and only a positive finite quantity. *)
Lemma drive_binary_quote_set_reads m budget input w yes no st :
  world_txs w !! tx_loc (market_yes m) = Some yes →
  world_txs w !! tx_loc (market_no m) = Some no →
  world_budgets w !! pair_loc budget = Some st →
  ∃ d, drive_binary_quote_set m budget input w = Some (d, w) ∧
    (control_action (set_control (set_yes d)) ≠ None →
     target_side (leg_a (targets input)) = QuoteBuy ∧ is_positive_finite (yes_quantity input) = true) ∧
    (control_action (set_control (set_no d)) ≠ None →
     target_side (leg_b (targets input)) = QuoteBuy ∧ is_positive_finite (no_quantity input) = true).
Proof.
  intros Hy Hn Hb.
  assert (Hleg : ∀ leg target quantity resting threshold eps now,
    ∃ d, drive_quote_set_leg m budget leg target quantity resting threshold eps now w = Some (d, w) ∧
      (control_action (set_control d) ≠ None →
       target_side target = QuoteBuy ∧ is_positive_finite quantity = true)).
  { intros leg target quantity resting threshold eps now. unfold drive_quote_set_leg.
    case_decide as Hside; [by eexists|]. destruct (is_positive_finite quantity); [|by eexists].
    destruct (drive_quote_leg_reads m budget
      (mkControlInput leg (target_price target) resting threshold eps now) w
      (match leg with LegYes => yes | LegNo => no end) st) as (d & E & _); [by destruct leg|done|].
    simpl. erewrite rust_bind_step by exact E. eexists. split; [done|]. intros _.
    split; [by destruct (target_side target); [|destruct Hside]|done]. }
  unfold drive_binary_quote_set.
  destruct (Hleg LegYes (leg_a (targets input)) (yes_quantity input) (yes_resting_price input)
    (set_requote_threshold input) (set_eps input) (set_now_ms input)) as (dy & Ey & Hdy).
  destruct (Hleg LegNo (leg_b (targets input)) (no_quantity input) (no_resting_price input)
    (set_requote_threshold input) (set_eps input) (set_now_ms input)) as (dn & En & Hdn).
  erewrite rust_bind_step by exact Ey. erewrite rust_bind_step by exact En. by eexists.
Qed.

(** A proposed reservation is granted as long as the pair is as it was proposed on. *)
Lemma proposed_is_granted st liability p budget h :
  propose st liability = Ok p → h !! pair_loc budget = Some st →
  next_reservation_generation st < u64_max →
  ∃ r h', reserve budget p h = Some (Ok r, h') ∧ proposal_liability p = liability.
Proof.
  unfold propose. destruct (has_capacity _ _ _ _) eqn:Hc; [|done]. intros [= <-] Hh Hg.
  unfold reserve, lock_pair, reserve_state. rewrite Hh. simpl. rewrite Hc. simpl.
  destruct (u64_checked_add (next_reservation_generation st) 1) as [g|] eqn:Eg; [by eauto|].
  apply u64_checked_add_None in Eg. lia.
Qed.

(** The stable state a proposing leg is in. *)
Lemma proposing_stable inner leg requote l :
  propose_transition inner leg (QuoteTrigger requote) = Some l →
  armed_identity (inner_state inner) = None →
  ∃ active, ap_leg_state (active_projection active) = proposal_prior_state l ∧
    ap_prepaid_generation (active_projection active) = prepaid_generation (inner_state inner) ∧
    (proposal_prior_state l = LegIdle ∨ proposal_prior_state l = LegResting ∨
     (proposal_prior_state l = LegReplacementPendingBackoff ∧ proposal_action l = Submit)) ∧
    ∀ bp budget identity, identity_generation identity ≠ 0 →
      reduce_arm (inner_state inner) l budget bp identity =
        reduce_arm_active active l budget bp identity.
Proof.
  unfold propose_transition. destruct (is_winding_down (inner_state inner)) eqn:Hw; [done|].
  intros Hp Ha.
  assert (Hprior : proposal_prior_state l = leg_state (inner_state inner) ∧
    (proposal_prior_state l = LegIdle ∨ proposal_prior_state l = LegResting ∨
     (proposal_prior_state l = LegReplacementPendingBackoff ∧ proposal_action l = Submit))).
  { destruct (leg_state (inner_state inner)), requote; try done;
      try (destruct (inner_supports_modify inner)); simplify_eq; simpl; auto. }
  destruct Hprior as [Hls Hprior]. rewrite Hls in Hprior |- *. clear Hp Hls.
  unfold leg_state, prepaid_generation, is_winding_down, armed_identity in *.
  destruct (inner_state inner) as [[active|p|hold]|a|[g status stable]]; simpl in *; try done.
  - exists active. split_and!; try done. intros bp budget identity Hid.
    unfold reduce_arm. by rewrite decide_False.
  - by destruct p; simpl in *.
  - by destruct Hprior as [?|[?|[? _]]].
  - exfalso. revert Ha. unfold attempt_projection. by destruct (attempt_phase a) as [[]|[]].
  - assert (Hlive : settlement_leg_state (mkSettlement g status stable) = sp_leg_state (stable_projection stable)).
    { unfold settlement_leg_state in *. simpl in *.
      destruct status; simpl in *; try done; by destruct Hprior as [?|[?|[? _]]]. }
    rewrite Hlive in Hprior |- *. destruct stable as [active|p|hold]; simpl in *.
    + exists active. split_and!; try done. intros bp budget identity Hid.
      unfold reduce_arm. by rewrite decide_False.
    + by destruct p; simpl in *.
    + by destruct Hprior as [?|[?|[? _]]].
Qed.

Lemma planned_arms inner leg requote l st now bp budget identity h :
  propose_transition inner leg (QuoteTrigger requote) = Some l →
  armed_identity (inner_state inner) = None →
  planned_budget (prepaid_generation (inner_state inner)) st now l = Some bp →
  h !! pair_loc budget = Some st → next_reservation_generation st < u64_max →
  identity_generation identity ≠ 0 →
  ∃ inner' h', reduction_apply (PreSink (EvArm l budget bp identity)) inner h =
      Some ((Ok no_action, inner'), h') ∧
    armed_identity (inner_state inner') = Some identity ∧
    leg_state (inner_state inner') = proposal_pending_state l ∧
    (prepaid_generation (inner_state inner) = None →
     bp = BudgetReserve (mkReservationProposal (action_liability l now))).
Proof.
  intros Hp Ha Hbp Hh Hg Hid.
  destruct (proposing_stable _ _ _ _ Hp Ha) as (active & Hls & Hpre & Hprior & Harm).
  rewrite reduction_apply_eq. unfold reduce_event. simpl. rewrite Harm by done.
  unfold reduce_arm_active. rewrite decide_False by (by intros []).
  rewrite <- Hpre in Hbp |- *. rewrite <- Hls in Hprior. unfold planned_budget in Hbp.
  rewrite <- Hls in Hbp.
  assert (Hreserve : ok_reserve (propose st (action_liability l now)) = Some bp →
    ap_prepaid_generation (active_projection active) = None →
    ∃ p r h', bp = BudgetReserve p ∧ proposal_liability p = action_liability l now ∧
      reserve budget p h = Some (Ok r, h') ∧ active_drop active = mret tt).
  { intros Hr Hnone. destruct (propose st (action_liability l now)) as [p|e] eqn:Epr; [|done].
    injection Hr as <-. destruct (proposed_is_granted _ _ _ _ _ Epr Hh Hg) as (r & h' & Er & Hliab).
    exists p, r, h'. split_and!; try done. by destruct active. }
  destruct (ap_prepaid_generation (active_projection active)) as [g|] eqn:Hpg.
  - destruct active; simpl in *; try done; [by destruct Hprior as [?|[?|[? _]]]|].
    destruct Hprior as [?|[?|[_ Hact]]]; [done..|]. rewrite Hact in Hbp.
    injection Hbp as <-. injection Hpg as <-. rewrite decide_True by done.
    eexists _, h. by split_and!.
  - destruct Hreserve as (p & r & h' & -> & Hliab & Er & Hdrop); [|done|].
    { revert Hbp. by destruct (proposal_action l), (ap_leg_state (active_projection active)). }
    erewrite rust_bind_step by exact Er. rewrite Hdrop.
    eexists _, h'. split; [done|]. simpl. split_and!; [done|done|].
    intros _. destruct p as [liability]. simpl in Hliab. by rewrite Hliab.
Qed.

(** What planning proposes can be armed.  Planning a leg never panics and changes
    nothing; when it plans a command, arming that command on the same world succeeds,
    leaves the leg in the planned pending state under the given identity, and, without a
    prepaid token, reserves exactly the cost class of the action: a cancel-resubmit is
    reserved as a whole. *)
Lemma planned_command_arms m budget input identity w inner st :
  world_txs w !! tx_loc (transaction m (control_leg input)) = Some inner →
  armed_identity (inner_state inner) = None →
  world_budgets w !! pair_loc budget = Some st →
  next_reservation_generation st < u64_max → identity_generation identity ≠ 0 →
  ∃ d, drive_quote_leg m budget input w = Some (d, w) ∧
    ∀ c, control_proposal d = Some c →
      control_action d = Some (command_action c) ∧
      (prepaid_generation (inner_state inner) = None →
       command_budget c = BudgetReserve (mkReservationProposal
         (action_liability (command_lifecycle c) (control_now_ms input)))) ∧
      ∃ w' inner', arm_leg_transaction m (command_lifecycle c) budget (command_budget c) identity w
                     = Some (Ok tt, w') ∧
        world_txs w' = <[tx_loc (transaction m (control_leg input)) := inner']> (world_txs w) ∧
        armed_identity (inner_state inner') = Some identity ∧
        leg_state (inner_state inner') = proposal_pending_state (command_lifecycle c).
Proof.
  intros Hl Ha Hb Hg Hid. destruct (drive_quote_leg_reads m budget input w inner st Hl Hb) as (d & E & Hd).
  exists d. split; [done|]. intros c Hc. destruct Hd as [requote ->]; [by rewrite Hc|].
  unfold leg_plan in *. destruct (propose_transition _ _ _) as [l|] eqn:Ep; [|done].
  destruct (planned_budget _ _ _ _) as [bp|] eqn:Ebp; [|done]. injection Hc as <-. simpl.
  destruct (planned_arms _ _ _ _ _ _ _ budget identity (world_budgets w) Ep Ha Ebp Hb Hg Hid)
    as (inner' & h' & Er & Harm & Hls & Hcost).
  split_and!; [done|done|].
  set (w' := mkWorld h' (<[tx_loc (transaction m (control_leg input)) := inner']> (world_txs w))).
  exists w', inner'. split_and!; try done. apply rust_bind_Some. exists (Ok no_action), w'.
  split; [|done]. unfold tx_reduce, lock_tx. by rewrite (proposal_leg_eq _ _ _ _ Ep), Hl, Er.
Qed.

End Plans.

(** ** A fresh quote at 0.40 on the demo market *)

Definition demo_control_input : QuoteControlInput :=
  mkControlInput LegYes (f64_ratio 40 100) None (f64_ratio 1 100) (f64_ratio 1 1000) 50.

Lemma planned_command_arms_witness :
  ∃ d c w', drive_quote_leg demo_market (mkPair 1%positive) demo_control_input demo_world
              = Some (d, demo_world) ∧
    control_proposal d = Some c ∧ control_action d = Some (ActionLeg LegYes Submit) ∧
    arm_leg_transaction demo_market (command_lifecycle c) (mkPair 1%positive) (command_budget c)
      (mkIdentity "order" 7) demo_world = Some (Ok tt, w').
Proof.
  destruct (planned_command_arms demo_market (mkPair 1%positive) demo_control_input
    (mkIdentity "order" 7) demo_world (inner_new false) demo_pair) as (d & E & Hd);
    [done|done|done|done|done|].
  destruct (control_proposal d) as [c|] eqn:Ec.
  - destruct (Hd c eq_refl) as (Ha & _ & w' & inner' & Earm & _). exists d, c, w'.
    split_and!; [exact E|exact Ec| |exact Earm]. vm_compute in E. by injection E as <-.
  - vm_compute in E. injection E as <-. by vm_compute in Ec.
Defined.

(** A resting leg moved from 0.40 to 0.55 plans the whole cancel-resubmit; within the
    threshold it plans nothing; without its resting price it is blocked. *)
Definition demo_resting_world : world :=
  mkWorld demo_heap {[ 1%positive := mkInner (TxStable (StableActive ActiveResting)) false None false;
                       2%positive := inner_new false ]}.

Definition demo_requote_input (desired : f64) (resting : option f64) : QuoteControlInput :=
  mkControlInput LegYes desired resting (f64_ratio 1 100) (f64_ratio 1 1000) 50.

Example requote_plans :
  let drive desired resting := fst <$> drive_quote_leg demo_market (mkPair 1%positive)
                                 (demo_requote_input desired resting) demo_resting_world in
  (control_action <$> drive (f64_ratio 55 100) (Some (f64_ratio 40 100)))
    = Some (Some (ActionLeg LegYes Cancel)) ∧
  (control_action <$> drive (f64_ratio 405 1000) (Some (f64_ratio 40 100))) = Some None ∧
  (control_blocked_by <$> drive (f64_ratio 55 100) None) = Some (Some MissingRestingPrice).
Proof. by vm_compute. Qed.
