(* ===== verification/EventFence.v ===== *)
(** * Event fence

    Models [src/src/bolt_v3_maker_event_fence.rs]: the identity a leg's venue reports
    must carry before they reach the lifecycle. *)

From Stdlib Require Import ZArith Lia.
From stdpp Require Import sorting strings gmap numbers list.
From S2P Require Import Prelude RequoteBudget QuoteLifecycle.

Open Scope Z_scope.

(** [ClientOrderId(String)]. *)
Record ClientOrderId : Type := mkClientOrderId { client_id_str : string }.

#[global] Instance ClientOrderId_eq_dec : EqDecision ClientOrderId.
Proof. solve_decision. Defined.

Record OrderIdentity : Type := mkOrderIdentity {
  order_client_id : ClientOrderId;
  order_generation : Z;
}.

Inductive VenueReportKind : Type :=
| ReportAccepted
| ReportRejected
| ReportCanceled
| ReportModified
| ReportModifyRejected
| ReportCancelRejected
| ReportFilled.

Record VenueReport : Type := mkReport {
  report_client_id : ClientOrderId;
  report_generation : Z;
  report_kind : VenueReportKind;
}.

Definition into_leg_event (kind : VenueReportKind) : LegEvent :=
  match kind with
  | ReportAccepted => Accepted
  | ReportRejected => Rejected
  | ReportCanceled => Canceled
  | ReportModified => Modified
  | ReportModifyRejected => ModifyRejected
  | ReportCancelRejected => CancelRejected
  | ReportFilled => Filled
  end.

Inductive FenceReject : Type :=
| ForeignClientId
| StaleGeneration
| UnknownOrder.

Record ExpectedIdentity : Type := mkExpected { expected : option OrderIdentity }.

Definition fence_idle : ExpectedIdentity := mkExpected None.
Definition fence_submitting (identity : OrderIdentity) : ExpectedIdentity := mkExpected (Some identity).

Definition requote_to (f : ExpectedIdentity) (next : OrderIdentity) : bool * ExpectedIdentity :=
  match expected f with
  | Some current =>
      if order_generation next <=? order_generation current then (false, f)
      else (true, mkExpected (Some next))
  | None => (true, mkExpected (Some next))
  end.

Definition fence_clear (f : ExpectedIdentity) : ExpectedIdentity := mkExpected None.

Definition fence_admit (f : ExpectedIdentity) (report : VenueReport) : Result LegEvent FenceReject :=
  expected ←? ok_or (expected f) UnknownOrder;
  if negb (bool_decide (report_client_id report = order_client_id expected))
  then Err ForeignClientId
  else if report_generation report <? order_generation expected then Err StaleGeneration
  else if order_generation expected <? report_generation report then Err UnknownOrder
  else Ok (into_leg_event (report_kind report)).

(** ** Properties *)

Definition current_report (id : OrderIdentity) (report : VenueReport) : Prop :=
  report_client_id report = order_client_id id ∧ report_generation report = order_generation id.

Lemma fence_admit_Ok f report event :
  fence_admit f report = Ok event ↔
    ∃ id, expected f = Some id ∧ current_report id report ∧ event = into_leg_event (report_kind report).
Proof.
  unfold fence_admit, current_report. destruct (expected f) as [id|]; simpl; [|by split; [|intros (? & ? & _)]].
  case_bool_decide as Hid; simpl.
  - zcases.
    + split; [done|]. intros (? & [= <-] & [_ ?] & _). lia.
    + split; [done|]. intros (? & [= <-] & [_ ?] & _). lia.
    + split; [intros [= <-]; exists id; split_and!; [done|done|lia|done]|]. by intros (? & ? & ? & ->).
  - split; [done|]. by intros (? & [= <-] & [? _] & _).
Qed.

(** Re-homing only: the expected generation never goes back. *)
Lemma requote_monotone f id next :
  expected f = Some id →
  let '(moved, f') := requote_to f next in
  if moved then expected f' = Some next ∧ order_generation id < order_generation next
  else f' = f ∧ order_generation next ≤ order_generation id.
Proof. intros Hf. unfold requote_to. rewrite Hf. by zcases. Qed.

(** A leg's life: requotes, and the fence cleared between orders. *)
Definition requotes (f : ExpectedIdentity) (nexts : list OrderIdentity) : ExpectedIdentity :=
  foldl (λ f next, (requote_to f next).2) f nexts.

Lemma requotes_monotone nexts f id :
  expected f = Some id →
  ∃ id', expected (requotes f nexts) = Some id' ∧
    (id' = id ∨ order_generation id < order_generation id').
Proof.
  revert f id. induction nexts as [|next nexts IH]; intros f id Hf; simpl; [by exists id; auto|].
  pose proof (requote_monotone f id next Hf) as Hm.
  destruct (requote_to f next) as [moved f']. destruct moved; simpl.
  - destruct Hm as [Hf' Hlt]. destruct (IH f' next Hf') as (id' & ? & Hgen).
    exists id'. split; [done|]. right. destruct Hgen as [->|?]; lia.
  - destruct Hm as [-> _]. by apply IH.
Qed.

(** The fence lets through exactly the reports of the current order.  A report is
    admitted, as the lifecycle event of its kind, exactly when it carries the client
    identifier and the generation the leg expects; once the leg has been re-homed, no
    sequence of further requotes ever admits a report of an earlier generation. *)
Lemma fence_admits_current_only f nexts report :
  (∀ event, fence_admit f report = Ok event ↔
     ∃ id, expected f = Some id ∧ current_report id report ∧
           event = into_leg_event (report_kind report)) ∧
  (∀ id, expected f = Some id → report_generation report < order_generation id →
     ∃ reason, fence_admit (requotes f nexts) report = Err reason).
Proof.
  split; [intros event; apply fence_admit_Ok|].
  intros id Hf Hold. destruct (requotes_monotone nexts f id Hf) as (id' & Hf' & Hgen).
  destruct (fence_admit (requotes f nexts) report) as [event|reason] eqn:Ha; [|by exists reason].
  apply fence_admit_Ok in Ha as (? & Hid & [_ Hg] & _). rewrite Hf' in Hid. injection Hid as <-.
  destruct Hgen as [->|?]; lia.
Qed.

Example fence_rehomed :
  let a := mkOrderIdentity (mkClientOrderId "order-a") 7 in
  let b := mkOrderIdentity (mkClientOrderId "order-b") 8 in
  fence_admit (requotes (fence_submitting a) [mkOrderIdentity (mkClientOrderId "order-b") 7; b])
    (mkReport (mkClientOrderId "order-b") 8 ReportAccepted) = Ok Accepted ∧
  fence_admit (requotes (fence_submitting a) [b]) (mkReport (mkClientOrderId "order-a") 7 ReportCanceled)
    = Err ForeignClientId.
Proof. by vm_compute. Qed.
