(* ===== verification/MakerRisk.v ===== *)
(** * Maker risk

    Models [src/src/bolt_v3_maker_risk.rs]: the action on a maker's market that a loss
    decision implies.  The theorem composes the loss governor, the risk mode and the
    market controller: a refusal of the governor winds the market down for good. *)

From Stdlib Require Import ZArith Lia.
From stdpp Require Import sorting strings gmap numbers list relations.
From S2P Require Import Prelude DecimalAmount LossGovernor.
From S2P Require Import RequoteBudget QuoteLifecycle MarketQuote QuoteLifecycleSafety MarketQuoteFacts.

Open Scope Z_scope.

Inductive MakerRiskMode : Type :=
| SoftHold
| CancelOnly
| ReduceOnly (leg : Leg)
| HardFlat.

Inductive MakerRiskBlockReason : Type := HardFlatReduceUnsupported.

Record MakerRiskDecision : Type := mkRiskDecision {
  risk_mode : MakerRiskMode;
  risk_action : option MarketAction;
  risk_blocked_by : option MakerRiskBlockReason;
}.

Record MakerLossRiskPolicy : Type := mkLossRiskPolicy {
  on_loss_breach : MakerRiskMode;
  on_untrusted_snapshot : MakerRiskMode;
}.

(** [MakerRiskRank] with its derived order. *)
Inductive MakerRiskRank : Type := RankSoftHold | RankCancelOnly | RankReduceOnly | RankHardFlat.

Definition risk_mode_rank (mode : MakerRiskMode) : MakerRiskRank :=
  match mode with
  | SoftHold => RankSoftHold
  | CancelOnly => RankCancelOnly
  | ReduceOnly _ => RankReduceOnly
  | HardFlat => RankHardFlat
  end.

Definition rank_order (r : MakerRiskRank) : Z :=
  match r with RankSoftHold => 0 | RankCancelOnly => 1 | RankReduceOnly => 2 | RankHardFlat => 3 end.

Definition mode_for_loss_reason (policy : MakerLossRiskPolicy) (reason : LossHaltReason)
    : MakerRiskMode :=
  match reason with
  | StaleLossSnapshot => on_untrusted_snapshot policy
  | PerTradeLossLimit | DailyLossLimit | RollingLossLimit | MaxDrawdownLimit => on_loss_breach policy
  end.

(** [max_by_key(rank)]: of equal maxima the last one. *)
Definition max_by_rank (modes : list MakerRiskMode) : option MakerRiskMode :=
  foldl (λ best mode,
    match best with
    | None => Some mode
    | Some b =>
        if rank_order (risk_mode_rank b) <=? rank_order (risk_mode_rank mode)
        then Some mode else Some b
    end) None modes.

Definition maker_risk_mode_for_loss_decision (policy : MakerLossRiskPolicy)
    (decision : LossAdmissionDecision) : MakerRiskMode :=
  if loss_accepted decision then SoftHold
  else default CancelOnly (max_by_rank (mode_for_loss_reason policy <$> halt_reasons decision)).

Definition apply_maker_risk_mode {InstrumentId} (market : @MarketQuote InstrumentId)
    (mode : MakerRiskMode) : Rust world MakerRiskDecision :=
  match mode with
  | SoftHold => mret (mkRiskDecision mode None None)
  | CancelOnly => action ← drain market; mret (mkRiskDecision mode action None)
  | ReduceOnly leg => action ← cancel_one_side market leg; mret (mkRiskDecision mode action None)
  | HardFlat =>
      action ← drain market;
      mret (mkRiskDecision mode action (Some HardFlatReduceUnsupported))
  end.

(** ** The mode of a refusal *)

Lemma max_by_rank_same mode modes :
  modes ≠ [] → Forall (λ m, m = mode) modes → max_by_rank modes = Some mode.
Proof.
  intros Hne Hall. destruct Hall as [|m ms -> Hall]; [done|]. clear Hne. unfold max_by_rank. simpl.
  induction Hall as [|m ms -> Hall IH]; simpl; [done|]. by rewrite Z.leb_refl.
Qed.

Section Refusal.
Context {D : Type} `{DecimalOps D}.

(** The snapshot may be judged. *)
Definition snapshot_judgeable (policy : LossGovernorPolicy D) (snapshot : option (LossSnapshot D))
    (now : Z) : Prop :=
  match snapshot with Some s => judgeable policy s now | None => False end.

#[global] Instance snapshot_judgeable_dec policy snapshot now :
  Decision (snapshot_judgeable policy snapshot now).
Proof. destruct snapshot; apply _. Defined.

(** A refusal is for breaches only or for staleness only. *)
Lemma refusal_reasons (policy : LossGovernorPolicy D) snapshot now obs d :
  evaluate_loss_admission_with_observations policy snapshot now obs = Some d →
  loss_accepted d = false →
  halt_reasons d ≠ [] ∧
  Forall (λ r, r = StaleLossSnapshot ↔ ¬ snapshot_judgeable policy snapshot now) (halt_reasons d).
Proof.
  rewrite evaluate_cases. destruct snapshot as [s|]; simpl.
  2:{ intros [= <-] _. split; [done|]. apply Forall_singleton. by split; [intros _ []|]. }
  case_decide as Hj; [|intros [= <-] _; split; [done|]; by apply Forall_singleton].
  unfold checked_reasons. destruct (drawdown_check _ _ _) as [dd|] eqn:Edd; [|done]. simpl.
  set (reasons := _ ++ _). intros [= <-]. simpl. intros Hne. split; [by destruct reasons|].
  apply Forall_forall. intros r Hr. split; [|done]. intros ->. exfalso.
  unfold reasons in Hr. rewrite !elem_of_app in Hr.
  destruct Hr as [Hr|[Hr|[Hr|Hr]]]; try by apply loss_check_reason in Hr.
  by eapply drawdown_check_reason in Hr.
Qed.

Lemma mode_of_refusal (policy : LossGovernorPolicy D) rp snapshot now d :
  evaluate_loss_admission policy snapshot now = Some d → loss_accepted d = false →
  maker_risk_mode_for_loss_decision rp d =
    if decide (snapshot_judgeable policy snapshot now)
    then on_loss_breach rp else on_untrusted_snapshot rp.
Proof.
  intros Hd Ha. unfold maker_risk_mode_for_loss_decision. rewrite Ha.
  destruct (refusal_reasons _ _ _ _ _ Hd Ha) as [Hne Hall].
  rewrite (max_by_rank_same (if decide (snapshot_judgeable policy snapshot now)
    then on_loss_breach rp else on_untrusted_snapshot rp)); [done| |].
  - by destruct (halt_reasons d).
  - apply Forall_fmap. eapply Forall_impl; [exact Hall|]. intros r Hr. simpl.
    case_decide as Hj; destruct r; try done; exfalso.
    all: first [by apply (proj1 Hr eq_refl)|by pose proof (proj2 Hr Hj)].
Qed.

End Refusal.

(** ** What the mode does to the market *)

Section Market.
Context {InstrumentId : Type}.
Implicit Types (m : @MarketQuote InstrumentId).

(** The modes that drain the whole market. *)
Definition stops (mode : MakerRiskMode) : Prop := mode = CancelOnly ∨ mode = HardFlat.

(** The leg winds down in [w] and in every later world, and proposes nothing. *)
Definition winds_down_for_good (w : world) m (leg : Leg) : Prop :=
  ∀ w', rtc world_step w w' →
    ∃ inner, world_txs w' !! tx_loc (transaction m leg) = Some inner ∧
      is_winding_down (inner_state inner) = true ∧
      ∀ event, propose_transition inner leg event = None.

Lemma winding_for_good w m leg :
  tx_satisfies w (transaction m leg) winding_inner → winds_down_for_good w m leg.
Proof.
  intros (i & Hl & Hwi) w' Hrtc. destruct (winding_rtc _ _ _ _ Hrtc Hl Hwi) as (i' & Hl' & Hwi').
  exists i'. split_and!; [done|done|]. intros event. by apply winding_no_proposal.
Qed.

Lemma apply_mode_runs w m mode :
  world_ok w → market_allocated w m →
  keeps_world w (apply_maker_risk_mode m mode) (λ d w',
    risk_mode d = mode ∧ (is_Some (risk_blocked_by d) ↔ mode = HardFlat) ∧
    match mode with
    | SoftHold => w' = w
    | ReduceOnly leg => winds_down_for_good w' m leg
    | CancelOnly | HardFlat => ∀ leg, winds_down_for_good w' m leg
    end).
Proof.
  intros Hw Hm. assert (Hnone : ∀ P : Prop, ¬ P → is_Some (@None MakerRiskBlockReason) ↔ P)
    by (intros P HP; split; [by intros [? ?]|done]).
  destruct mode as [| |leg|]; simpl.
  - apply keeps_ret; [done|]. split_and!; [done|by apply Hnone|done].
  - eapply keeps_bind; [by apply keeps_drain|]. intros a w' Hw' _ _ (Hy & Hn & _).
    apply keeps_ret; [done|]. split_and!; [done|by apply Hnone|].
    intros []; by apply winding_for_good.
  - eapply keeps_bind; [by apply (keeps_wind_down_then w m leg
      (λ commit, (λ _, CancelAllOneSide leg) <$> commit_action commit))|].
    intros a w' Hw' _ _ Hl. apply keeps_ret; [done|]. split_and!; [done|by apply Hnone|].
    by apply winding_for_good.
  - eapply keeps_bind; [by apply keeps_drain|]. intros a w' Hw' _ _ (Hy & Hn & _).
    apply keeps_ret; [done|]. split_and!; [done|by split|].
    intros []; by apply winding_for_good.
Qed.

(** A refusal of the loss governor ends quoting.  The risk mode of a refused
    decision is the policy's choice for a breach or, without a snapshot that may be
    judged, for an untrusted one; applying it does not panic and keeps the world
    consistent.  Cancel-only and hard-flat wind both legs down for good, reduce-only
    its own leg, whatever the later interleaving. *)
Lemma loss_refusal_ends_quoting {D} `{DecimalOps D} (policy : LossGovernorPolicy D) snapshot now
    decision rp m w :
  evaluate_loss_admission policy snapshot now = Some decision → loss_accepted decision = false →
  world_ok w → market_allocated w m →
  let mode := maker_risk_mode_for_loss_decision rp decision in
  mode = (if decide (snapshot_judgeable policy snapshot now)
          then on_loss_breach rp else on_untrusted_snapshot rp) ∧
  ∃ d w', apply_maker_risk_mode m mode w = Some (d, w') ∧ world_ok w' ∧
    (is_Some (risk_blocked_by d) ↔ mode = HardFlat) ∧
    (stops mode → ∀ leg, winds_down_for_good w' m leg) ∧
    (∀ leg, mode = ReduceOnly leg → winds_down_for_good w' m leg).
Proof.
  intros Hd Ha Hw Hm mode. split; [by apply mode_of_refusal|].
  destruct (apply_mode_runs w m mode Hw Hm) as (d & w' & E & Hw' & _ & _ & _ & Hb & HQ).
  exists d, w'. split_and!; [done|done|done| |].
  - by intros [-> | ->].
  - by intros leg ->.
Qed.

End Market.

(** The demo loss of 12 against a limit of 10, under a hard-flat policy. *)
Lemma loss_refusal_ends_quoting_witness :
  ∃ decision d w', evaluate_loss_admission demo_loss_policy (Some demo_loss_snapshot) 600 = Some decision ∧
    apply_maker_risk_mode demo_market HardFlat demo_world = Some (d, w') ∧
    ∀ leg, winds_down_for_good w' demo_market leg.
Proof.
  destruct (evaluate_loss_admission demo_loss_policy (Some demo_loss_snapshot) 600) as [decision|] eqn:E;
    [|by vm_compute in E].
  assert (Ha : loss_accepted decision = false) by (vm_compute in E; by injection E as <-).
  destruct (loss_refusal_ends_quoting demo_loss_policy (Some demo_loss_snapshot) 600 decision
    (mkLossRiskPolicy HardFlat CancelOnly) demo_market demo_world E Ha
    (reachable_ok _ demo_reachable) demo_market_allocated) as [Hmode (d & w' & Ed & _ & _ & Hs & _)].
  rewrite Hmode in Ed, Hs. exists decision, d, w'. split_and!; [done|done|]. apply Hs. by right.
Defined.
