(* ===== verification/BasketAdmission.v ===== *)
(** * Basket admission

    [src/src/bolt_v3_basket_admission.rs]: a scanned basket of an outcome group is checked
    against the limits, takes a place among the open baskets, and reserves its orders
    through submit admission ([SubmitAdmission]) as one.  The permit gives both back when
    it is dropped, unless the basket is stuck.

    The open baskets are shared by the state and its permits: one field of
    [BasketWorld], beside the world of submit admission.  Each has its own lock, and
    [admit] and the drop of a permit take them one after the other: they are written as
    the parts between which other threads run ([admit_place], [admit_submit],
    [admit_settle]; [drop_place], [drop_submit]) and as the whole.  Rejections are recorded
    without blocking; the world keeps what was handed to the recorder. *)

From Stdlib Require Import ZArith Lia.
From stdpp Require Import sorting strings gmap numbers list.
From S2P Require Import BTree NtTypes.
From S2P Require Import Prelude RustText DecimalAmount LossGovernor KillSwitch.
From S2P Require Import CapitalReservation CapitalAdmissionState CapitalAdmission ReservationRecovery.
From S2P Require Import SubmitAdmissionState SubmitCapital SubmitAdmission.
From S2P Require Import OutcomeGroups ExecutableCost GroupScanner.

Open Scope Z_scope.

Inductive BoltV3BasketAdmissionError : Type :=
| BasketNotionalCapExceeded
| MaxOpenBasketCapExceeded
| StaleScannerEvidence
| StaleSubmitRecheck
| NonPositiveCandidateCost
| BasketNonPositiveEdge
| EdgeThreshold
| SubmitClaimsMismatch
| MissingGroupingProof
| GroupingProofMismatch
| MissingSettlementRules
| RetryBudgetExceeded
| BasketAlreadyOpen
| BasketReservationMissing
| StuckReservationHeld
| SubmitAdmissionFailed (error : BoltV3SubmitAdmissionError)
| BasketEvidenceWriteFailed (reason : text).

Inductive BasketAdmissionRejectionReason : Type :=
| RejectBasketNotionalCapExceeded
| RejectMaxOpenBasketCapExceeded
| RejectStaleScannerEvidence
| RejectStaleSubmitRecheck
| RejectNonPositiveCandidateCost
| RejectNonPositiveEdge
| RejectEdgeThreshold
| RejectMissingGroupingProof
| RejectMissingSettlementRules
| RejectRetryBudgetExceeded
| RejectSubmitSlots.

Definition basket_rejection_reason (e : BoltV3BasketAdmissionError) : BasketAdmissionRejectionReason :=
  match e with
  | BasketNotionalCapExceeded => RejectBasketNotionalCapExceeded
  | MaxOpenBasketCapExceeded => RejectMaxOpenBasketCapExceeded
  | StaleScannerEvidence => RejectStaleScannerEvidence
  | StaleSubmitRecheck => RejectStaleSubmitRecheck
  | NonPositiveCandidateCost => RejectNonPositiveCandidateCost
  | BasketNonPositiveEdge => RejectNonPositiveEdge
  | EdgeThreshold => RejectEdgeThreshold
  | MissingGroupingProof => RejectMissingGroupingProof
  | MissingSettlementRules => RejectMissingSettlementRules
  | RetryBudgetExceeded => RejectRetryBudgetExceeded
  | SubmitClaimsMismatch | GroupingProofMismatch | BasketAlreadyOpen | BasketReservationMissing
  | StuckReservationHeld | SubmitAdmissionFailed _ | BasketEvidenceWriteFailed _ => RejectSubmitSlots
  end.

Inductive BoltV3BasketAdmissionReleaseReason : Type := ReleaseTerminal | ReleaseAbort | ReleaseReject | ReleaseStuck.

Record BasketAdmissionRejectedFact : Type := mkBasketRejected {
  rejected_details : BasketAdmissionDetails;
  rejected_reason : BasketAdmissionRejectionReason;
}.

Section Basket.
Context {D : Type} `{DecimalOps D} `{DecimalSigns D} `{DecimalText D} `{DecimalNormalize D}.
Context {NT : NtTypes} {IT : InstrumentText}.
Context (sha256_hex : bytes → text).
Context (evidence_io : nat → bool).

Record BoltV3BasketAdmissionLimits : Type := mkBasketLimits {
  max_basket_notional : D;
  max_open_baskets : Z;
  min_edge_bps : D;
  max_scanner_evidence_age_ms : Z;
  max_submit_recheck_age_ms : Z;
  max_retry_count : Z;
}.

Record BoltV3BasketAdmissionRequest : Type := mkBasketRequest {
  br_strategy_id : text;
  br_basket_id : text;
  br_execution_client_id : text;
  br_group : OutcomeGroup D;
  br_scanner_evidence : OutcomeGroupScanEvidence D;
  br_submit_claims : list (BoltV3BasketSubmitSlotClaim D);
  br_now_unix_ms : Z;
  br_submit_recheck_observed_unix_ms : Z;
  br_retry_count : Z;
}.

Record BoltV3BasketReservation : Type := mkBasketReservation {
  reservation_strategy_id : text;
  reservation_group_id : text;
  reservation_total_notional : D;
  release_on_drop : bool;
}.

(** The shared state: submit admission, the open baskets and the rejections recorded. *)
Record BasketWorld : Type := mkBasketWorld {
  bw_submit : SubmitWorld D;
  open_baskets : BTreeMap text BoltV3BasketReservation;
  bw_rejections : list BasketAdmissionRejectedFact;
}.

Record BoltV3BasketAdmissionPermit : Type := mkBasketPermit {
  permit_basket_id : text;
  basket_submit_permit : option BoltV3SubmitAdmissionPermit;
}.

Implicit Types (limits : BoltV3BasketAdmissionLimits) (request : BoltV3BasketAdmissionRequest).

Definition set_open (open : BTreeMap text BoltV3BasketReservation) : Rust BasketWorld unit :=
  rust_modify (λ w, mkBasketWorld (bw_submit w) open (bw_rejections w)).

(** Code of submit admission inside the larger world. *)
Definition in_submit {A} (m : Rust (SubmitWorld D) A) : Rust BasketWorld A := λ w,
  match m (bw_submit w) with
  | Some (a, s) => Some (a, mkBasketWorld s (open_baskets w) (bw_rejections w))
  | None => None
  end.

(** ** Evaluation *)

(** The first loop of [validate_submit_claims_match_scanned_legs]. *)
Fixpoint scanned_notionals (g : OutcomeGroup D) (acc : BTreeMap text D) (legs : list (OutcomeGroupLegScanEvidence D))
    : Result (BTreeMap text D) BoltV3BasketAdmissionError :=
  match legs with
  | [] => Ok acc
  | leg :: legs =>
      let id := instrument_to_string (ls_instrument_id leg) in
      ensure (existsb (λ l, match ord_cmp (OutcomeGroups.leg_instrument_id l) (ls_instrument_id leg) with
                            | Eq => true | _ => false end) (bt_values (tradable_legs g))) SubmitClaimsMismatch;;?
      ensure (negb (contains_key acc id)) SubmitClaimsMismatch;;?
      scanned_notionals g (bt_insert acc id (ls_total_adjusted_cost leg)) legs
  end.

(** The second loop: every claim takes the notional scanned for its instrument. *)
Fixpoint take_claims (scanned : BTreeMap text D) (total : D) (claims : list (BoltV3BasketSubmitSlotClaim D))
    : Result (BTreeMap text D * D) BoltV3BasketAdmissionError :=
  match claims with
  | [] => Ok (scanned, total)
  | claim :: claims =>
      notional ←? ok_or (bt_get scanned (claim_instrument_id claim)) SubmitClaimsMismatch;
      ensure (negb (d_leb (claim_notional claim) d_zero || d_gtb (claim_notional claim) notional))
        SubmitClaimsMismatch;;?
      total ←? ok_or (d_checked_add total (claim_notional claim)) BasketNotionalCapExceeded;
      take_claims (bt_remove scanned (claim_instrument_id claim)) total claims
  end.

Definition validate_submit_claims_match_scanned_legs limits request : Result unit BoltV3BasketAdmissionError :=
  let legs := sc_leg_costs (br_scanner_evidence request) in
  ensure (Nat.eqb (length (br_submit_claims request)) (length legs)) SubmitClaimsMismatch;;?
  scanned ←? scanned_notionals (br_group request) [] legs;
  taken ←? take_claims scanned d_zero (br_submit_claims request);
  ensure (is_empty taken.1) SubmitClaimsMismatch;;?
  ensure (negb (d_gtb taken.2 (max_basket_notional limits))) BasketNotionalCapExceeded.

Definition evaluate_basket_request limits request : option (Result unit BoltV3BasketAdmissionError) :=
  let e := br_scanner_evidence request in
  let fresh observed age := outcome_group_observation_is_fresh (br_now_unix_ms request) observed age None in
  proof ←?! Some (ok_or (grouping_proof (br_group request)) MissingGroupingProof);
  scanner_proof ←?! Some (ok_or (sc_grouping_proof e) MissingGroupingProof);
  Some (ensure (bool_decide (sc_group_id e = group_id (br_group request)) && bool_decide (scanner_proof = proof))
          GroupingProofMismatch);;?!
  (map_err (λ _, MissingSettlementRules) <$> validate_outcome_group sha256_hex (br_group request));;?!
  Some (ensure (br_retry_count request <=? max_retry_count limits) RetryBudgetExceeded);;?!
  Some (ensure (negb (d_leb (sc_total_adjusted_cost e) d_zero || is_empty (br_submit_claims request)))
          NonPositiveCandidateCost);;?!
  Some (ensure (negb (d_gtb (sc_total_adjusted_cost e) (max_basket_notional limits))) BasketNotionalCapExceeded);;?!
  Some (validate_submit_claims_match_scanned_legs limits request);;?!
  Some (ensure (sc_admissible e && match sc_block_reason e with None => true | Some _ => false end)
          NonPositiveCandidateCost);;?!
  Some (ensure (negb (d_leb (sc_absolute_edge e) d_zero)) BasketNonPositiveEdge);;?!
  Some (ensure (negb (d_ltb (sc_edge_bps e) (min_edge_bps limits))) EdgeThreshold);;?!
  Some (ensure (forallb (λ leg, fresh (ls_observed_unix_ms leg) (max_scanner_evidence_age_ms limits)) (sc_leg_costs e))
          StaleScannerEvidence);;?!
  Some (ensure (fresh (br_submit_recheck_observed_unix_ms request) (max_submit_recheck_age_ms limits)) StaleSubmitRecheck).

Definition basket_admission_details request : Result BasketAdmissionDetails BoltV3BasketAdmissionError :=
  let count := Z.of_nat (length (br_submit_claims request)) in
  if count <=? u32_max then
    Ok (mkBasketDetails (br_strategy_id request) (br_execution_client_id request) (br_basket_id request)
          (group_id (br_group request)) (claim_instrument_id <$> br_submit_claims request)
          (d_to_string (sc_total_adjusted_cost (br_scanner_evidence request))) count)
  else Err (SubmitAdmissionFailed ErrorCountCapExhausted).

(** ** The open baskets *)

Definition reserve_open_basket limits request : Rust BasketWorld (Result unit BoltV3BasketAdmissionError) :=
  open ← rust_get open_baskets;
  if contains_key open (br_basket_id request) then mret (Err BasketAlreadyOpen)
  else
    let count := Z.of_nat (length open) in
    if negb (count <=? u32_max) || (max_open_baskets limits <=? count) then mret (Err MaxOpenBasketCapExceeded)
    else
      set_open (bt_insert open (br_basket_id request)
                  (mkBasketReservation (br_strategy_id request) (group_id (br_group request))
                     (sc_total_adjusted_cost (br_scanner_evidence request)) true)) ;;
      mret (Ok tt).

Definition release_reserved_basket_after_failed_submit (basket : text) : Rust BasketWorld unit :=
  open ← rust_get open_baskets;
  set_open (bt_remove open basket).

Definition record_basket_rejection request (reason : BasketAdmissionRejectionReason)
    : Rust BasketWorld (Result unit BoltV3BasketAdmissionError) :=
  details ←! mret (basket_admission_details request);
  rust_modify (λ w, mkBasketWorld (bw_submit w) (open_baskets w)
                      (bw_rejections w ++ [mkBasketRejected details reason])) ;;
  mret (Ok tt).

(** [admit] up to the lock of the open baskets: the request is checked and takes its
    place. *)
Definition admit_place limits request : Rust BasketWorld (Result BasketAdmissionDetails BoltV3BasketAdmissionError) :=
  evaluated ← lift_panic (evaluate_basket_request limits request);
  match evaluated with
  | Err error =>
      record_basket_rejection request (basket_rejection_reason error) ;;!
      mret (Err error)
  | Ok _ =>
      details ←! mret (basket_admission_details request);
      reserved ← reserve_open_basket limits request;
      match reserved with
      | Err error =>
          record_basket_rejection request (basket_rejection_reason error) ;;!
          mret (Err error)
      | Ok _ => mret (Ok details)
      end
  end.

(** The lock of submit admission; [clock] is the reading it takes. *)
Definition admit_submit request (details : BasketAdmissionDetails) (clock : Result Z text)
    : Rust BasketWorld (Result BoltV3SubmitAdmissionPermit BoltV3SubmitAdmissionError) :=
  in_submit (reserve_basket_submit_slots_with_evidence evidence_io (br_execution_client_id request)
               (br_submit_claims request) details clock).

(** The rest; a refusal takes the lock of the open baskets again. *)
Definition admit_settle request (granted : Result BoltV3SubmitAdmissionPermit BoltV3SubmitAdmissionError)
    : Rust BasketWorld (Result BoltV3BasketAdmissionPermit BoltV3BasketAdmissionError) :=
  match granted with
  | Ok permit => mret (Ok (mkBasketPermit (br_basket_id request) (Some permit)))
  | Err error =>
      release_reserved_basket_after_failed_submit (br_basket_id request) ;;
      record_basket_rejection request RejectSubmitSlots ;;!
      mret (Err (SubmitAdmissionFailed error))
  end.

Definition basket_admit limits request (clock : Result Z text)
    : Rust BasketWorld (Result BoltV3BasketAdmissionPermit BoltV3BasketAdmissionError) :=
  details ←! admit_place limits request;
  granted ← admit_submit request details clock;
  admit_settle request granted.

Definition release_basket (basket : text) (reason : BoltV3BasketAdmissionReleaseReason)
    : Rust BasketWorld (Result unit BoltV3BasketAdmissionError) :=
  open ← rust_get open_baskets;
  match bt_get open basket with
  | None => mret (Err BasketReservationMissing)
  | Some r =>
      match reason with
      | ReleaseStuck =>
          set_open (bt_insert open basket
                      (mkBasketReservation (reservation_strategy_id r) (reservation_group_id r)
                         (reservation_total_notional r) false)) ;;
          mret (Err StuckReservationHeld)
      | _ => set_open (bt_remove open basket) ;; mret (Ok tt)
      end
  end.

(** ** The permit *)

(** [commit_submitted]; the submit permit is taken out, committed and dropped. *)
Definition basket_commit_submitted (p : BoltV3BasketAdmissionPermit) : Rust BasketWorld BoltV3BasketAdmissionPermit :=
  match basket_submit_permit p with
  | None => mret p
  | Some permit =>
      committed ← in_submit (commit_submitted permit);
      in_submit (permit_drop committed) ;;
      mret (mkBasketPermit (permit_basket_id p) None)
  end.

(** [Drop::drop]: the basket's place, under the lock of the open baskets. *)
Definition drop_place (p : BoltV3BasketAdmissionPermit) : Rust BasketWorld unit :=
  open ← rust_get open_baskets;
  if match bt_get open (permit_basket_id p) with Some r => release_on_drop r | None => false end
  then set_open (bt_remove open (permit_basket_id p)) else mret tt.

(** The field that is dropped after it: the submit permit, if it is still there. *)
Definition drop_submit (p : BoltV3BasketAdmissionPermit) : Rust BasketWorld unit :=
  match basket_submit_permit p with
  | Some permit => in_submit (permit_drop permit)
  | None => mret tt
  end.

Definition basket_permit_drop (p : BoltV3BasketAdmissionPermit) : Rust BasketWorld unit :=
  drop_place p ;; drop_submit p.

End Basket.
Arguments BoltV3BasketAdmissionLimits D : clear implicits.
Arguments BoltV3BasketAdmissionRequest D {_}.
Arguments BoltV3BasketReservation D : clear implicits.
Arguments BasketWorld D : clear implicits.
