(* ===== verification/BasketAdmissionFacts.v ===== *)
(** * Basket admission: what an admitted basket means

    The composition of the parts: an admitted basket is one the scanner found on a valid
    group; its claims are the scanned legs, each for no more than its scanned cost; and
    the whole pays more than it costs in every terminal state.  Over every history of
    admissions, releases, commits and drops the open baskets stay within their cap, and
    the history is one of submit admission, whose theorems apply. *)

From Stdlib Require Import ZArith Lia.
From stdpp Require Import sorting strings gmap numbers list.
From S2P Require Import BTree NtTypes.
From S2P Require Import Prelude RustText DecimalAmount LossGovernor KillSwitch.
From S2P Require Import CapitalReservation CapitalAdmissionState CapitalAdmission ReservationRecovery.
From S2P Require Import SubmitAdmissionState SubmitCapital SubmitAdmission.
From S2P Require Import SubmitAdmissionFacts SubmitPermits SubmitLedger SubmitAdmissionSafety SubmitAdmissionRuns.
From S2P Require Import OutcomeGroups OutcomeGroupsFacts ExecutableCost GroupScanner GroupScannerFacts.
From S2P Require Import BasketAdmission.

Open Scope Z_scope.

Section Facts.
Context {D : Type} `{DecimalLaws D} `{DecimalSigns D} `{DecimalText D} `{DecimalNormalize D} `{DecimalF64 D}.
Context {NT : NtTypes} {BP : BookPrice} {IT : InstrumentText}.
Context (sha256_hex : bytes → text) (evidence_io : nat → bool).
Implicit Types (limits : BoltV3BasketAdmissionLimits D) (request : BoltV3BasketAdmissionRequest D).
Implicit Types (w : BasketWorld D) (legs : list (OutcomeGroupLegScanEvidence D)).

(** ** The claims *)

Definition leg_entry (l : OutcomeGroupLegScanEvidence D) : text * D :=
  (instrument_to_string (ls_instrument_id l), ls_total_adjusted_cost l).

Lemma scanned_notionals_Ok g acc legs out :
  bt_sorted acc → scanned_notionals g acc legs = Ok out → bt_sorted out ∧ out ≡ₚ acc ++ (leg_entry <$> legs).
Proof.
  revert acc. induction legs as [|l legs IH]; intros acc Ha Ho; cbn [scanned_notionals] in Ho.
  { injection Ho as <-. by rewrite app_nil_r. }
  accept_inv. apply negb_true_iff in E0. apply IH in Ho as [Hs Hp]; [|by apply bt_upsert_sorted].
  split; [done|]. rewrite Hp, bt_insert_new_perm.
  - csimpl. by rewrite Permutation_middle.
  - intros Hin. apply contains_key_elem in Hin; [congruence|done].
Qed.

(** A claim against the scanned cost of its leg. *)
Definition claim_within (c : BoltV3BasketSubmitSlotClaim D) (t : text * D) : Prop :=
  claim_instrument_id c = t.1 ∧ d_leb (claim_notional c) d_zero = false ∧ d_gtb (claim_notional c) t.2 = false.

Lemma take_claims_Ok scanned total claims rest total' :
  bt_sorted scanned → take_claims scanned total claims = Ok (rest, total') →
  ∃ taken, scanned ≡ₚ taken ++ rest ∧ Forall2 claim_within claims taken ∧
    checked_sum total (claim_notional <$> claims) = Some total'.
Proof.
  revert scanned total. induction claims as [|c claims IH]; intros scanned total Hs Ht; cbn [take_claims] in Ht.
  { injection Ht as <- <-. by exists []. }
  accept_inv. apply negb_true_iff, orb_false_iff in E0 as [Hz Hc].
  apply IH in Ht as (taken & Hp & Hall & Hsum); [|by apply bt_remove_sorted].
  exists ((claim_instrument_id c, a) :: taken). split_and!.
  - rewrite (bt_remove_Some _ _ _ E), Hp. done.
  - by constructor.
  - csimpl. cbn [checked_sum]. by rewrite E1.
Qed.

(** The claims are the scanned legs, in some order, each for no more than its cost. *)
Definition claims_match (claims : list (BoltV3BasketSubmitSlotClaim D)) legs : Prop :=
  ∃ legs', legs' ≡ₚ legs ∧ Forall2 (λ c l, claim_within c (leg_entry l)) claims legs'.

Lemma claims_match_Ok limits request :
  validate_submit_claims_match_scanned_legs limits request = Ok tt →
  claims_match (br_submit_claims request) (sc_leg_costs (br_scanner_evidence request)) ∧
  ∃ total, checked_sum d_zero (claim_notional <$> br_submit_claims request) = Some total ∧
    d_gtb total (max_basket_notional limits) = false.
Proof.
  unfold validate_submit_claims_match_scanned_legs. intros Hv. accept_inv. destruct a1 as [rest total].
  apply scanned_notionals_Ok in E0 as [Hs Hp]; [|constructor]. apply take_claims_Ok in E1 as (taken & Ht & Hall & Hsum); [|done].
  cbn [fst snd] in *. destruct rest; [|done]. apply negb_true_iff in Hv. split; [|by exists total].
  rewrite app_nil_r in Ht. rewrite Hp in Ht. cbn [app] in Ht. symmetry in Ht.
  apply Permutation_map_inv in Ht as (legs' & -> & Hl). exists legs'. split; [done|]. exact (proj1 (Forall2_fmap_r _ _ _ _) Hall).
Qed.

(** ** The evaluation *)

Record basket_evaluated limits request : Prop := {
  be_valid : validate_outcome_group sha256_hex (br_group request) = Some (Ok tt);
  be_group : sc_group_id (br_scanner_evidence request) = group_id (br_group request);
  be_retries : br_retry_count request ≤ max_retry_count limits;
  be_cost : d_leb (sc_total_adjusted_cost (br_scanner_evidence request)) d_zero = false ∧
    d_gtb (sc_total_adjusted_cost (br_scanner_evidence request)) (max_basket_notional limits) = false;
  be_claims : claims_match (br_submit_claims request) (sc_leg_costs (br_scanner_evidence request));
  be_total : ∃ total, checked_sum d_zero (claim_notional <$> br_submit_claims request) = Some total ∧
    d_gtb total (max_basket_notional limits) = false;
  be_admissible : sc_admissible (br_scanner_evidence request) = true;
  be_edge : d_ltb (sc_edge_bps (br_scanner_evidence request)) (min_edge_bps limits) = false;
  be_fresh : Forall (λ l, ls_observed_unix_ms l ≤ br_now_unix_ms request ≤
                          ls_observed_unix_ms l + max_scanner_evidence_age_ms limits)
               (sc_leg_costs (br_scanner_evidence request));
  be_recheck : br_submit_recheck_observed_unix_ms request ≤ br_now_unix_ms request ≤
    br_submit_recheck_observed_unix_ms request + max_submit_recheck_age_ms limits;
}.

Lemma evaluate_basket_Ok limits request :
  evaluate_basket_request sha256_hex limits request = Some (Ok tt) → basket_evaluated limits request.
Proof.
  unfold evaluate_basket_request. intros He. accept_inv.
  match goal with E : map_err _ <$> _ = Some (Ok _) |- _ =>
    apply fmap_Some in E as (r & HV & HR); symmetry in HR; apply map_err_Ok in HR; subst r end.
  repeat match goal with E : _ && _ = true |- _ => apply andb_true_iff in E as [? ?] end.
  repeat match goal with E : negb _ = true |- _ => apply negb_true_iff in E end.
  repeat match goal with E : _ || _ = false |- _ => apply orb_false_iff in E as [? ?] end.
  repeat match goal with x : () |- _ => destruct x end.
  match goal with E : validate_submit_claims_match_scanned_legs _ _ = _ |- _ => apply claims_match_Ok in E as [Hcl Htot] end.
  split; try done.
  - by eapply bool_decide_eq_true.
  - by apply Z.leb_le.
  - match goal with E : forallb _ _ = true |- _ => rewrite forallb_forall in E; apply Forall_forall;
      intros l Hl; apply observation_fresh, E, list_elem_of_In, Hl end.
  - by apply observation_fresh.
Qed.

(** ** The steps of an admission *)

Definition new_reservation request : BoltV3BasketReservation D :=
  mkBasketReservation (br_strategy_id request) (group_id (br_group request))
    (sc_total_adjusted_cost (br_scanner_evidence request)) true.

Lemma record_rejection_same request reason w r w' :
  record_basket_rejection request reason w = Some (r, w') →
  bw_submit w' = bw_submit w ∧ open_baskets w' = open_baskets w.
Proof.
  unfold record_basket_rejection, try_bind. intros (d & w1 & [= <- <-] & Hr)%rust_bind_Some.
  destruct (basket_admission_details request); [|by injection Hr as <- <-].
  apply rust_bind_Some in Hr as (u & w2 & [= <- <-] & [= <- <-]). done.
Qed.

Lemma rejected_same {A} request reason error w (x : Result A BoltV3BasketAdmissionError) w' :
  (record_basket_rejection request reason ;;! mret (Err error)) w = Some (x, w') →
  bw_submit w' = bw_submit w ∧ open_baskets w' = open_baskets w ∧ ∃ e, x = Err e.
Proof.
  unfold try_bind. intros (u & w1 & Hrec & Hr)%rust_bind_Some. apply record_rejection_same in Hrec as [? ?].
  destruct u; injection Hr as <- <-; eauto.
Qed.

Lemma reserve_open_cases limits request w r w' :
  reserve_open_basket limits request w = Some (r, w') →
  match r with
  | Ok _ => bt_get (open_baskets w) (br_basket_id request) = None ∧
      Z.of_nat (length (open_baskets w)) < max_open_baskets limits ∧
      w' = mkBasketWorld (bw_submit w) (bt_insert (open_baskets w) (br_basket_id request) (new_reservation request))
             (bw_rejections w)
  | Err _ => w' = w
  end.
Proof.
  unfold reserve_open_basket. intros (open & w1 & [= <- <-] & Hr)%rust_bind_Some.
  unfold contains_key in Hr. destruct (bt_get (open_baskets w) _) eqn:Hg; [by injection Hr as <- <-|].
  destruct (negb _ || _) eqn:Hc; [by injection Hr as <- <-|].
  apply rust_bind_Some in Hr as (u & w2 & [= <- <-] & [= <- <-]).
  apply orb_false_iff in Hc as [_ Hc%Z.leb_gt]. done.
Qed.

Lemma in_submit_Some {A} (m : Rust (SubmitWorld D) A) w a w' :
  in_submit m w = Some (a, w') →
  m (bw_submit w) = Some (a, bw_submit w') ∧ open_baskets w' = open_baskets w ∧ bw_rejections w' = bw_rejections w.
Proof. unfold in_submit. destruct (m (bw_submit w)) as [[a' s]|]; [|done]. by intros [= <- <-]. Qed.

(** The submit side of an admission. *)
Definition submit_grant request (clock : Result Z text) (details : BasketAdmissionDetails)
    : Rust (SubmitWorld D) (Result BoltV3SubmitAdmissionPermit BoltV3SubmitAdmissionError) :=
  reserve_basket_submit_slots_with_evidence evidence_io (br_execution_client_id request) (br_submit_claims request)
    details clock.

Lemma place_cases limits request w r w' :
  admit_place sha256_hex limits request w = Some (r, w') →
  bw_submit w' = bw_submit w ∧
  match r with
  | Ok details => evaluate_basket_request sha256_hex limits request = Some (Ok tt) ∧
      basket_admission_details request = Ok details ∧
      bt_get (open_baskets w) (br_basket_id request) = None ∧
      Z.of_nat (length (open_baskets w)) < max_open_baskets limits ∧
      open_baskets w' = bt_insert (open_baskets w) (br_basket_id request) (new_reservation request)
  | Err _ => open_baskets w' = open_baskets w
  end.
Proof.
  unfold admit_place. intros (ev & w1 & Hev & Hr)%rust_bind_Some. unfold lift_panic in Hev.
  destruct (evaluate_basket_request sha256_hex limits request) as [ev'|]; [|done]. injection Hev as <- <-.
  destruct ev' as [[]|error].
  2:{ apply rejected_same in Hr as (Hs & Ho & e & ->). auto. }
  unfold try_bind in Hr. apply rust_bind_Some in Hr as (d & w2 & [= <- <-] & Hr).
  destruct (basket_admission_details request) as [details|error]; [|injection Hr as <- <-; auto].
  apply rust_bind_Some in Hr as (res & w3 & Hres & Hr). apply reserve_open_cases in Hres.
  destruct res as [u|error].
  - destruct Hres as (Hnone & Hcap & ->). injection Hr as <- <-. by split_and!.
  - subst w3. apply rejected_same in Hr as (Hs & Ho & e & ->). auto.
Qed.

Lemma submit_cases request details clock w r w' :
  admit_submit evidence_io request details clock w = Some (r, w') →
  submit_grant request clock details (bw_submit w) = Some (r, bw_submit w') ∧ open_baskets w' = open_baskets w.
Proof. intros (Hg & Ho & _)%in_submit_Some. by split. Qed.

Lemma settle_cases request granted w r w' :
  admit_settle request granted w = Some (r, w') →
  bw_submit w' = bw_submit w ∧
  match granted with
  | Ok permit => r = Ok (mkBasketPermit (br_basket_id request) (Some permit)) ∧ w' = w
  | Err _ => (∃ e, r = Err e) ∧ open_baskets w' = bt_remove (open_baskets w) (br_basket_id request)
  end.
Proof.
  unfold admit_settle. destruct granted as [permit|error]; [by intros [= <- <-]|].
  intros (u & w1 & Hrel & Hr)%rust_bind_Some. unfold release_reserved_basket_after_failed_submit in Hrel.
  apply rust_bind_Some in Hrel as (open & w2 & [= <- <-] & [= <- <-]).
  apply rejected_same in Hr as (Hs & Ho & e & ->). split_and!; [done|by eexists|done].
Qed.

(** ** An admitted basket profits *)

Lemma z_sum_perm l k : l ≡ₚ k → z_sum l = z_sum k.
Proof. unfold z_sum. induction 1; simpl; lia. Qed.

(** What the claims of a basket cost. *)
Definition claim_cost request : Z := z_sum (d_value ∘ claim_notional <$> br_submit_claims request).

Lemma claim_cost_bounds claims legs :
  claims_match claims legs → Forall (λ c, d_exact (claim_notional c)) claims →
  (∀ l, l ∈ legs → d_exact (ls_total_adjusted_cost l)) →
  Forall (λ c, 0 < d_value (claim_notional c)) claims ∧
  z_sum (d_value ∘ claim_notional <$> claims) ≤ z_sum (d_value ∘ ls_total_adjusted_cost <$> legs).
Proof.
  intros (legs' & Hp & Hall) Hex Hlx.
  assert (z_sum (d_value ∘ ls_total_adjusted_cost <$> legs) = z_sum (d_value ∘ ls_total_adjusted_cost <$> legs')) as ->
    by (apply z_sum_perm; by rewrite Hp).
  assert (Hlx' : ∀ l, l ∈ legs' → d_exact (ls_total_adjusted_cost l)) by (intros l; rewrite Hp; apply Hlx).
  clear Hp Hlx. destruct (d_zero_exact (D := D)) as [Hze Hzv].
  induction Hall as [|c l claims legs' (_ & Hz & Hle) _ IH]; [by split|].
  apply Forall_cons in Hex as [Hc Hex]. destruct IH as [IH1 IH2]; [done|intros x Hx; apply Hlx'; by right|].
  assert (d_exact (ls_total_adjusted_cost l)) by (apply Hlx'; left).
  rewrite d_leb_value in Hz by done. rewrite d_gtb_value in Hle by done. apply Z.leb_gt in Hz. apply Z.ltb_ge in Hle.
  cbn [leg_entry snd] in Hle. split; [constructor; [lia|done]|]. csimpl. unfold compose in *. lia.
Qed.

(** *** The orders of the claims *)

(** The claims in the order of the scanned legs [legs], as orders to buy at least the
    quantity scanned of each. *)
Definition orders_cover (claims : list (BoltV3BasketSubmitSlotClaim D)) legs : Prop :=
  Forall2 (λ c l, claim_within c (leg_entry l) ∧ claim_order_side c = OrderBuy ∧
                  d_value (ls_executable_quantity l) ≤ d_value (claim_order_quantity c)) claims legs.

(** What the orders of the claims buy of a leg. *)
Definition ordered (claims : list (BoltV3BasketSubmitSlotClaim D)) legs (leg : text) : Z :=
  z_sum (zip_with (λ c l, if bool_decide (ls_leg_id l = leg) then d_value (claim_order_quantity c) else 0) claims legs).

Lemma ordered_covers claims legs leg : orders_cover claims legs → bought_of legs leg ≤ ordered claims legs leg.
Proof.
  unfold bought_of, ordered. induction 1 as [|c l claims legs (_ & _ & Hq) _ IH]; [done|]. csimpl. cbn [zip_with].
  unfold z_sum in *. cbn [foldr]. case_bool_decide; lia.
Qed.

Lemma payout_sum_mono (f h : text → Z) cols (row : list D) :
  Forall (λ p, 0 ≤ d_value p) row → (∀ leg, f leg ≤ h leg) → payout_sum f cols row ≤ payout_sum h cols row.
Proof.
  intros Hrow Hf. revert row Hrow. induction cols as [|c cols IH]; intros row Hrow; [done|].
  destruct Hrow as [|p row Hp Hrow]; [done|]. cbn [payout_sum]. specialize (IH row Hrow). specialize (Hf c). nia.
Qed.

Lemma bought_of_perm legs legs' leg : legs' ≡ₚ legs → bought_of legs' leg = bought_of legs leg.
Proof. intros Hp. unfold bought_of. apply z_sum_perm. by rewrite Hp. Qed.

(** A basket admitted on a scan: what the checks of [admit_place] give. *)
Lemma placed_profits limits request input row state st :
  group_maps (br_group request) → scan_group input = br_group request →
  scan_outcome_group_candidate sha256_hex input = Some (br_scanner_evidence request) →
  exact_amounts input (br_scanner_evidence request) →
  Forall (λ c, d_exact (claim_notional c)) (br_submit_claims request) →
  basket_evaluated limits request → (state, st) ∈ terminal_states (br_group request) →
  bt_get (payout_per_unit_by_state (payout_matrix (br_group request))) state = Some row →
  claim_cost request * d_unit <
    payout_sum (bought (br_scanner_evidence request)) (matrix_cols (payout_matrix (br_group request))) row ∧
  Forall (λ p, 0 ≤ d_value p) row.
Proof.
  intros Hm Hg Hscan Hex Hcx Hev Hin Hrow. rewrite <- Hg in *.
  destruct (admissible_scan_sound sha256_hex input _ Hm Hscan (be_admissible _ _ Hev) Hex)
    as (Hvalid & _ & _ & _ & _ & Hpay). destruct (Hpay _ _ Hin) as (row' & Hrow' & Hlt). simplify_eq. split.
  - destruct (claim_cost_bounds _ _ (be_claims _ _ Hev) Hcx) as [_ Hle]; [intros l Hl; by apply (exact_cost _ _ Hex)|].
    pose proof d_unit_pos. eapply Z.le_lt_trans; [apply Z.mul_le_mono_nonneg_r; [lia|exact Hle]|exact Hlt].
  - destruct (vg_row _ _ Hvalid _ _ Hin) as (row' & Hrow'' & _ & Hb & _). simplify_eq.
    pose proof (exact_rows _ _ Hex _ _ Hrow) as Hrx. destruct (d_zero_exact (D := D)) as [Hze Hzv].
    apply Forall_forall. intros p Hp. rewrite Forall_forall in Hb, Hrx. destruct (Hb p Hp) as [Hlow _].
    specialize (Hrx p Hp). rewrite d_ltb_value in Hlow by done. apply Z.ltb_ge in Hlow. lia.
Qed.

(** C6: A basket admitted on the evidence of a scan of its group is the scanned basket within
    the limits, also when other threads run between the locks the admission takes: its
    claims are the scanned legs, each positive and for no more than the scanned cost,
    their sum is at most the scanned cost of the basket and that at most the notional cap;
    the observations behind it are fresh at admission; the basket took a new place among
    fewer than the allowed number; and submit admission granted its orders as one.
    Whichever terminal state settles, the quantities scanned pay more than the claims
    cost; and when the orders of the claims are to buy at least the quantities scanned,
    which the admission itself does not check, the quantities ordered do so too. *)
Theorem admitted_basket_profits limits request clock details permit w1 w2 w3 w4 input :
  group_maps (br_group request) → scan_group input = br_group request →
  scan_outcome_group_candidate sha256_hex input = Some (br_scanner_evidence request) →
  exact_amounts input (br_scanner_evidence request) →
  Forall (λ c, d_exact (claim_notional c)) (br_submit_claims request) → d_exact (max_basket_notional limits) →
  admit_place sha256_hex limits request w1 = Some (Ok details, w2) →
  admit_submit evidence_io request details clock w3 = Some (Ok permit, w4) →
  let e := br_scanner_evidence request in
  let cols := matrix_cols (payout_matrix (br_group request)) in
  claims_match (br_submit_claims request) (sc_leg_costs e) ∧
  Forall (λ c, 0 < d_value (claim_notional c)) (br_submit_claims request) ∧
  claim_cost request ≤ basket_cost e ≤ d_value (max_basket_notional limits) ∧
  (∀ state st, (state, st) ∈ terminal_states (br_group request) →
     ∃ row, bt_get (payout_per_unit_by_state (payout_matrix (br_group request))) state = Some row ∧
       claim_cost request * d_unit < payout_sum (bought e) cols row ∧
       ∀ legs, legs ≡ₚ sc_leg_costs e → orders_cover (br_submit_claims request) legs →
         claim_cost request * d_unit < payout_sum (ordered (br_submit_claims request) legs) cols row) ∧
  Forall (λ l, ls_observed_unix_ms l ≤ br_now_unix_ms request ≤
               ls_observed_unix_ms l + max_scanner_evidence_age_ms limits) (sc_leg_costs e) ∧
  bt_get (open_baskets w1) (br_basket_id request) = None ∧
  Z.of_nat (length (open_baskets w1)) < max_open_baskets limits ∧
  open_baskets w2 = bt_insert (open_baskets w1) (br_basket_id request) (new_reservation request) ∧
  basket_admission_details request = Ok details ∧
  submit_grant request clock details (bw_submit w3) = Some (Ok permit, bw_submit w4).
Proof.
  intros Hm Hg Hscan Hex Hcx Hlx Hplace Hsub e cols. apply place_cases in Hplace as (_ & Hev & Hdet & Hnone & Hcap & Hopen).
  apply submit_cases in Hsub as [Hsub _]. apply evaluate_basket_Ok in Hev. subst e. set (e := br_scanner_evidence request) in *.
  pose proof (be_claims _ _ Hev) as Hcl. pose proof Hm as Hm'. rewrite <- Hg in Hm'.
  destruct (admissible_scan_sound sha256_hex input e Hm' Hscan (be_admissible _ _ Hev) Hex)
    as (_ & _ & _ & _ & [Htx Htot] & Hpay). rewrite Hg in Hpay.
  destruct (claim_cost_bounds _ _ Hcl Hcx) as [Hpos Hle]; [intros l Hl; by apply (exact_cost _ _ Hex)|].
  assert (basket_cost e ≤ d_value (max_basket_notional limits)) as Hbound.
  { destruct (be_cost _ _ Hev) as [_ Hb]. rewrite <- Htot. fold e in Hb.
    rewrite d_gtb_value in Hb; [by apply Z.ltb_ge|done|done]. }
  split_and!; try done; [|by apply be_fresh].
  intros state st Hin. destruct (Hpay _ _ Hin) as (row & Hrow & _). exists row. split; [done|].
  destruct (placed_profits limits request input row state st Hm Hg Hscan Hex Hcx Hev Hin Hrow) as [Hlt Hnn].
  split; [done|]. intros legs Hp Hord. eapply Z.lt_le_trans; [exact Hlt|]. apply payout_sum_mono; [done|].
  intros leg. etrans; [|by apply ordered_covers]. rewrite (bought_of_perm _ _ leg Hp). done.
Qed.

(** ** Every history *)

Section History.
Context (reject_episode_max_count : nat) (limits : BoltV3BasketAdmissionLimits D).

(** The calls that are under way: the basket permits that are out with the order ids of
    their claims, the admissions that took a place and have not reached submit admission,
    those it refused that still hold the place, and the permits being dropped whose place
    was given back. *)
Record BasketCalls : Type := mkBasketCalls {
  bc_held : list (list text * BoltV3BasketAdmissionPermit);
  bc_placing : list (BoltV3BasketAdmissionRequest D * BasketAdmissionDetails);
  bc_refused : list (BoltV3BasketAdmissionRequest D * BoltV3SubmitAdmissionError);
  bc_dropping : list (list text * BoltV3BasketAdmissionPermit);
}.

(** Submit admission with its permits, the open baskets, and the calls. *)
Record BasketSystem : Type := mkBasketSystem {
  bs_submit : SubmitSystem (D := D);
  bs_open : BTreeMap text (BoltV3BasketReservation D);
  bs_rejections : list BasketAdmissionRejectedFact;
  bs_calls : BasketCalls;
}.

Definition no_calls : BasketCalls := mkBasketCalls [] [] [] [].

Definition bs_world (s : BasketSystem) : BasketWorld D :=
  mkBasketWorld (sys_world (bs_submit s)) (bs_open s) (bs_rejections s).

(** The system after an operation that left the world [w]. *)
Definition bs_after w out sunk_ids calls : BasketSystem :=
  mkBasketSystem (mkSystem (bw_submit w) out sunk_ids) (open_baskets w) (bw_rejections w) calls.

Lemma bs_world_after w out sunk_ids calls : bs_world (bs_after w out sunk_ids calls) = w.
Proof. by destruct w. Qed.

Definition claim_ids request : list text := claim_client_order_id <$> br_submit_claims request.

(** What a step does to the place of a basket: releases it by name, gives back the place
    of an admission of that name that was refused, or neither. *)
Inductive BasketLabel : Type := Quiet | ReleasedName (basket : text) | RefusedPlace (basket : text).

(** One part of an operation: what happens under one lock. *)
Inductive basket_step (s : BasketSystem) : BasketLabel → BasketSystem → Prop :=
| bstep_place request details w' held placing refused dropping :
    bs_calls s = mkBasketCalls held placing refused dropping →
    admit_place sha256_hex limits request (bs_world s) = Some (Ok details, w') →
    basket_step s Quiet (bs_after w' (sys_out (bs_submit s)) (sys_sunk (bs_submit s))
      (mkBasketCalls held ((request, details) :: placing) refused dropping))
| bstep_place_refused request error w' :
    admit_place sha256_hex limits request (bs_world s) = Some (Err error, w') →
    basket_step s Quiet (bs_after w' (sys_out (bs_submit s)) (sys_sunk (bs_submit s)) (bs_calls s))
| bstep_submit request details clock permit p w' w'' held placing placing' refused dropping :
    bs_calls s = mkBasketCalls held placing refused dropping → placing ≡ₚ (request, details) :: placing' →
    admit_submit evidence_io request details clock (bs_world s) = Some (Ok permit, w') →
    admit_settle request (Ok permit) w' = Some (Ok p, w'') →
    basket_step s Quiet (bs_after w'' ((claim_ids request, permit) :: sys_out (bs_submit s)) (sys_sunk (bs_submit s))
      (mkBasketCalls ((claim_ids request, p) :: held) placing' refused dropping))
| bstep_submit_refused request details clock error w' held placing placing' refused dropping :
    bs_calls s = mkBasketCalls held placing refused dropping → placing ≡ₚ (request, details) :: placing' →
    admit_submit evidence_io request details clock (bs_world s) = Some (Err error, w') →
    basket_step s Quiet (bs_after w' (sys_out (bs_submit s)) (sys_sunk (bs_submit s))
      (mkBasketCalls held placing' ((request, error) :: refused) dropping))
| bstep_settle_refused request error r w' held placing refused refused' dropping :
    bs_calls s = mkBasketCalls held placing refused dropping → refused ≡ₚ (request, error) :: refused' →
    admit_settle request (Err error) (bs_world s) = Some (r, w') →
    basket_step s (RefusedPlace (br_basket_id request)) (bs_after w' (sys_out (bs_submit s)) (sys_sunk (bs_submit s))
      (mkBasketCalls held placing refused' dropping))
| bstep_release basket reason r w' :
    release_basket basket reason (bs_world s) = Some (r, w') →
    basket_step s (ReleasedName basket) (bs_after w' (sys_out (bs_submit s)) (sys_sunk (bs_submit s)) (bs_calls s))
| bstep_commit ids p permit out' p' w' held held' placing refused dropping :
    bs_calls s = mkBasketCalls held placing refused dropping → held ≡ₚ (ids, p) :: held' →
    basket_submit_permit p = Some permit → sys_out (bs_submit s) ≡ₚ (ids, permit) :: out' →
    basket_commit_submitted p (bs_world s) = Some (p', w') →
    basket_step s Quiet (bs_after w' out' (ids ++ sys_sunk (bs_submit s))
      (mkBasketCalls ((ids, p') :: held') placing refused dropping))
| bstep_drop ids p w' held held' placing refused dropping :
    bs_calls s = mkBasketCalls held placing refused dropping → held ≡ₚ (ids, p) :: held' →
    drop_place p (bs_world s) = Some (tt, w') →
    basket_step s Quiet (bs_after w' (sys_out (bs_submit s)) (sys_sunk (bs_submit s))
      (mkBasketCalls held' placing refused ((ids, p) :: dropping)))
| bstep_drop_submit ids p permit out' w' held placing refused dropping dropping' :
    bs_calls s = mkBasketCalls held placing refused dropping → dropping ≡ₚ (ids, p) :: dropping' →
    basket_submit_permit p = Some permit → sys_out (bs_submit s) ≡ₚ (ids, permit) :: out' →
    drop_submit p (bs_world s) = Some (tt, w') →
    basket_step s Quiet (bs_after w' out' (sys_sunk (bs_submit s)) (mkBasketCalls held placing refused dropping'))
| bstep_drop_committed ids p w' held placing refused dropping dropping' :
    bs_calls s = mkBasketCalls held placing refused dropping → dropping ≡ₚ (ids, p) :: dropping' →
    basket_submit_permit p = None → drop_submit p (bs_world s) = Some (tt, w') →
    basket_step s Quiet (bs_after w' (sys_out (bs_submit s)) (sys_sunk (bs_submit s))
      (mkBasketCalls held placing refused dropping'))
| bstep_other label submit' :
    submit_step evidence_io reject_episode_max_count (bs_submit s) label submit' →
    basket_step s Quiet (mkBasketSystem submit' (bs_open s) (bs_rejections s) (bs_calls s)).

Inductive basket_reachable (past : list ReservationRecoveryEvent) : BasketSystem → Prop :=
| breachable_start (w0 : SubmitWorld D) :
    started past w0 → basket_reachable past (mkBasketSystem (mkSystem w0 [] []) [] [] no_calls)
| breachable_step s label s' : basket_reachable past s → basket_step s label s' → basket_reachable past s'.

(** The cases of a step, with the names the proofs below use. *)
Ltac basket_step_cases H := destruct H as
    [request details w' held placing refused dropping Hc Ha|request error w' Ha
    |request details clock permit p w' w'' held placing placing' refused dropping Hc Hpl Ha Hset
    |request details clock error w' held placing placing' refused dropping Hc Hpl Ha
    |request error r0 w' held placing refused refused' dropping Hc Hre Ha|basket reason r0 w' Hr
    |ids p permit out' p' w' held held' placing refused dropping Hc Hh Hp Hout Hcom
    |ids p w' held held' placing refused dropping Hc Hh Hd
    |ids p permit out' w' held placing refused dropping dropping' Hc Hdr Hp Hout Hd
    |ids p w' held placing refused dropping dropping' Hc Hdr Hp Hd|l submit' Hsub].

(** *** The submit side *)

Lemma commit_submitted_sinks permit (w0 w1 : SubmitWorld D) permit' :
  commit_submitted permit w0 = Some (permit', w1) →
  sink_invocation permit true w0 = Some (Ok permit', w1) ∧ permit_committed permit' = true.
Proof.
  unfold commit_submitted. intros (r & w2 & Hs & Hr)%rust_bind_Some. destruct r as [p|]; [|done].
  injection Hr as <- <-. split; [done|]. unfold sink_invocation in Hs.
  apply rust_bind_Some in Hs as (i & w3 & [= <- <-] & Hs). destruct (prepare_submit_sink_invocation _ _ _); [|done].
  destruct (permit_evidence_authority permit); [|done].
  apply rust_bind_Some in Hs as (u & w4 & _ & Hs). by injection Hs as <- _.
Qed.

Lemma basket_commit_Some p permit w p' w' :
  basket_submit_permit p = Some permit → basket_commit_submitted p w = Some (p', w') →
  open_baskets w' = open_baskets w ∧ p' = mkBasketPermit (permit_basket_id p) None ∧
  ∃ permit', sink_invocation permit true (bw_submit w) = Some (Ok permit', bw_submit w').
Proof.
  intros Hp. unfold basket_commit_submitted. rewrite Hp. intros (c & w1 & Hc & Hr)%rust_bind_Some.
  apply in_submit_Some in Hc as (Hc & Ho & _). apply commit_submitted_sinks in Hc as [Hc Hcom].
  apply rust_bind_Some in Hr as ([] & w2 & Hd & [= <- <-]). apply in_submit_Some in Hd as (Hd & Ho2 & _).
  unfold permit_drop in Hd. rewrite Hcom in Hd. injection Hd as Hd. split; [congruence|]. split; [done|].
  exists c. congruence.
Qed.

(** A drop gives the place back unless the basket is stuck. *)
Lemma drop_place_cases p w w' :
  drop_place p w = Some (tt, w') →
  bw_submit w' = bw_submit w ∧
  (open_baskets w' = open_baskets w ∨
   open_baskets w' = bt_remove (open_baskets w) (permit_basket_id p) ∧
   ∃ r, bt_get (open_baskets w) (permit_basket_id p) = Some r ∧ release_on_drop r = true).
Proof.
  unfold drop_place. intros (open & w1 & [= <- <-] & Hr)%rust_bind_Some.
  destruct (bt_get (open_baskets w) (permit_basket_id p)) as [r|] eqn:Hg; [|injection Hr as <-; auto].
  destruct (release_on_drop r) eqn:Hrel; injection Hr as <-; [|auto]. split; [done|]. right. eauto.
Qed.

Lemma drop_submit_cases p w w' :
  drop_submit p w = Some (tt, w') →
  open_baskets w' = open_baskets w ∧
  match basket_submit_permit p with
  | Some permit => permit_drop permit (bw_submit w) = Some (tt, bw_submit w')
  | None => bw_submit w' = bw_submit w
  end.
Proof.
  unfold drop_submit. destruct (basket_submit_permit p) as [permit|]; [|by intros [= <-]].
  by intros (Hd & Ho & _)%in_submit_Some.
Qed.

Lemma release_basket_submit basket reason w r w' :
  release_basket basket reason w = Some (r, w') → bw_submit w' = bw_submit w.
Proof.
  unfold release_basket. intros (open & w1 & [= <- <-] & Hr)%rust_bind_Some.
  destruct (bt_get _ basket); [|by injection Hr as <- <-].
  destruct reason; apply rust_bind_Some in Hr as (u & w2 & [= <- <-] & [= <- <-]); done.
Qed.

Lemma release_basket_open basket reason w r w' :
  release_basket basket reason w = Some (r, w') →
  open_baskets w' = open_baskets w ∨ open_baskets w' = bt_remove (open_baskets w) basket ∨
  ∃ stuck old, bt_get (open_baskets w) basket = Some old ∧ open_baskets w' = bt_insert (open_baskets w) basket stuck.
Proof.
  unfold release_basket. intros (open & w1 & [= <- <-] & Hr)%rust_bind_Some.
  destruct (bt_get _ basket) as [old|] eqn:Hg; [|injection Hr as <- <-; by left].
  destruct reason; apply rust_bind_Some in Hr as (u & w2 & [= <- <-] & [= <- <-]); eauto 10.
Qed.

Lemma basket_step_refines s label s' :
  basket_step s label s' →
  bs_submit s' = bs_submit s ∨ ∃ l, submit_step evidence_io reject_episode_max_count (bs_submit s) l (bs_submit s').
Proof.
  intros Hstep. destruct s as [[w0 out sunk_ids] open rej calls]. basket_step_cases Hstep;
    unfold bs_after, bs_world in *; cbn [bs_submit sys_world sys_out sys_sunk bs_open bs_rejections] in *.
  - apply place_cases in Ha as [-> _]. by left.
  - apply place_cases in Ha as [-> _]. by left.
  - apply settle_cases in Hset as (_ & _ & ->). apply submit_cases in Ha as [Hg _]. right. exists None.
    by eapply step_basket.
  - apply submit_cases in Ha as [Hg _]. right. exists None. by eapply step_basket_refused.
  - apply settle_cases in Ha as [-> _]. by left.
  - left. by rewrite (release_basket_submit _ _ _ _ _ Hr).
  - apply (basket_commit_Some p permit) in Hcom as (_ & _ & permit' & Hcom); [|done]. right. exists None. by eapply step_sink.
  - apply drop_place_cases in Hd as [-> _]. by left.
  - apply drop_submit_cases in Hd as [_ Hd]. rewrite Hp in Hd. right. exists None. by eapply step_drop.
  - apply drop_submit_cases in Hd as [_ Hd]. rewrite Hp in Hd. left. by rewrite Hd.
  - right. by exists l.
Qed.

(** *** The open baskets *)

Definition open_ok (open : BTreeMap text (BoltV3BasketReservation D)) : Prop :=
  bt_sorted open ∧ Z.of_nat (length open) ≤ Z.max 0 (max_open_baskets limits).

Lemma insert_length {V} (m : BTreeMap text V) k v :
  bt_sorted m →
  length (bt_insert m k v) = (length m + match bt_get m k with Some _ => 0 | None => 1 end)%nat.
Proof.
  intros Hm. destruct (bt_get m k) as [v'|] eqn:Hg.
  - unfold bt_insert. clear Hm. induction m as [|[k' x] m IH]; simpl in *; [done|].
    destruct (ord_cmp k k'); simpl; [lia|done|]. rewrite (IH Hg). lia.
  - rewrite bt_insert_new_perm; [simpl; lia|]. by apply bt_get_None.
Qed.

Lemma basket_step_open_ok s label s' : open_ok (bs_open s) → basket_step s label s' → open_ok (bs_open s').
Proof.
  intros [Hs Hn] Hstep. basket_step_cases Hstep;
    cbn [bs_open bs_after].
  - apply place_cases in Ha as (_ & _ & _ & Hg & Hcap & ->). cbn [bs_world open_baskets] in *.
    split; [by apply bt_upsert_sorted|]. rewrite insert_length, Hg by done. lia.
  - by apply place_cases in Ha as [_ ->].
  - apply settle_cases in Hset as (_ & _ & ->). by apply submit_cases in Ha as [_ ->].
  - by apply submit_cases in Ha as [_ ->].
  - apply settle_cases in Ha as (_ & _ & ->). cbn [bs_world open_baskets].
    split; [by apply bt_remove_sorted|]. pose proof (bt_remove_length (bs_open s) (br_basket_id request)). lia.
  - apply release_basket_open in Hr as [->|[->|(stuck & old & Hr & ->)]]; cbn [bs_world open_baskets] in *; [done| |].
    + split; [by apply bt_remove_sorted|]. pose proof (bt_remove_length (bs_open s) basket). lia.
    + split; [by apply bt_upsert_sorted|]. rewrite insert_length, Hr by done. lia.
  - apply (basket_commit_Some p permit) in Hcom as (-> & _); [|done]. done.
  - apply drop_place_cases in Hd as [_ [->|[-> _]]]; [done|]. cbn [bs_world open_baskets].
    split; [by apply bt_remove_sorted|]. pose proof (bt_remove_length (bs_open s) (permit_basket_id p)). lia.
  - by apply drop_submit_cases in Hd as [-> _].
  - by apply drop_submit_cases in Hd as [-> _].
  - done.
Qed.

Lemma basket_reachable_inv past s :
  basket_reachable past s →
  submit_reachable evidence_io reject_episode_max_count past (bs_submit s) ∧ open_ok (bs_open s).
Proof.
  induction 1 as [w0 Hst|s label s' _ [Hsub Hopen] Hstep].
  - split; [by apply reachable_start|]. split; [constructor|simpl; lia].
  - split; [|by eapply basket_step_open_ok].
    apply basket_step_refines in Hstep as [->|[l Hl]]; [done|]. by eapply reachable_step.
Qed.

(** The basket [id] is open and stuck. *)
Definition stuck (s : BasketSystem) (id : text) (r : BoltV3BasketReservation D) : Prop :=
  bt_get (bs_open s) id = Some r ∧ release_on_drop r = false.

(** An admission of the name [id] took the place and is not done. *)
Definition in_flight (s : BasketSystem) (id : text) : Prop :=
  (∃ request details, (request, details) ∈ bc_placing (bs_calls s) ∧ br_basket_id request = id) ∨
  (∃ request error, (request, error) ∈ bc_refused (bs_calls s) ∧ br_basket_id request = id).

(** A stuck basket keeps its place through every step but its own release and the refusal
    of an admission of its name that was under way. *)
Lemma stuck_basket_kept s label s' id r :
  open_ok (bs_open s) → basket_step s label s' → label ≠ ReleasedName id → label ≠ RefusedPlace id →
  stuck s id r → stuck s' id r.
Proof.
  intros [Hs _] Hstep Hl Hl' [Hid Hstuck]. split; [|done]. basket_step_cases Hstep;
    cbn [bs_open bs_after].
  - apply place_cases in Ha as (_ & _ & _ & Hg & _ & ->). cbn [bs_world open_baskets] in *.
    unfold bt_insert. rewrite bt_get_upsert_ne; [done|]. intros ->. congruence.
  - by apply place_cases in Ha as [_ ->].
  - apply settle_cases in Hset as (_ & _ & ->). by apply submit_cases in Ha as [_ ->].
  - by apply submit_cases in Ha as [_ ->].
  - apply settle_cases in Ha as (_ & _ & ->). cbn [bs_world open_baskets].
    rewrite bt_get_remove_ne; [done|done|]. congruence.
  - assert (id ≠ basket) by congruence.
    apply release_basket_open in Hr as [->|[->|(stuck' & old & _ & ->)]]; cbn [bs_world open_baskets] in *; [done| |].
    + by rewrite bt_get_remove_ne.
    + unfold bt_insert. by rewrite bt_get_upsert_ne.
  - by apply (basket_commit_Some p permit) in Hcom as (-> & _).
  - apply drop_place_cases in Hd as [_ [->|[-> (r' & Hr & Hrel)]]]; [done|]. cbn [bs_world open_baskets] in *.
    rewrite bt_get_remove_ne; [done|done|]. intros ->. congruence.
  - by apply drop_submit_cases in Hd as [-> _].
  - by apply drop_submit_cases in Hd as [-> _].
  - done.
Qed.

(** While its name is taken no admission of it gets under way. *)
Lemma in_flight_kept s label s' id r :
  basket_step s label s' → stuck s id r → ¬ in_flight s id → ¬ in_flight s' id ∧ label ≠ RefusedPlace id.
Proof.
  intros Hstep [Hid _] Hno. basket_step_cases Hstep;
    unfold in_flight in *; cbn [bs_calls bs_after bc_placing bc_refused] in *; try (by split);
    rewrite Hc in Hno; cbn [bc_placing bc_refused] in Hno; try (by split).
  - split; [|done]. apply place_cases in Ha as (_ & _ & _ & Hg & _). cbn [bs_world open_baskets] in Hg.
    intros [(q & d & [[= -> ->]|Hin]%elem_of_cons & Hq)|Hr]; [congruence|apply Hno; left; eauto|by apply Hno; right].
  - split; [|done]. intros [(q & d & Hin & Hq)|Hr]; [|by apply Hno; right].
    apply Hno. left. exists q, d. split; [|done]. rewrite Hpl. by right.
  - split; [|done]. intros [(q & d & Hin & Hq)|(q & e & [[= -> ->]|Hin]%elem_of_cons & Hq)].
    + apply Hno. left. exists q, d. split; [|done]. rewrite Hpl. by right.
    + apply Hno. left. exists request, details. split; [|done]. rewrite Hpl. left.
    + apply Hno. right. by exists q, e.
  - split.
    + intros [Hp|(q & e & Hin & Hq)]; [by apply Hno; left|]. apply Hno. right. exists q, e. split; [|done].
      rewrite Hre. by right.
    + intros [= Heq]. apply Hno. right. exists request, error. split; [|done]. rewrite Hre. left.
Qed.

(** The steps other than a release of [id] by name. *)
Definition step_without_release (id : text) (s s' : BasketSystem) : Prop :=
  ∃ label, basket_step s label s' ∧ label ≠ ReleasedName id.

Lemma stuck_for_good s id r s' :
  open_ok (bs_open s) → rtc (step_without_release id) s s' → stuck s id r → ¬ in_flight s id → stuck s' id r.
Proof.
  intros Hopen Hsteps. induction Hsteps as [s|s s1 s2 (label & Hstep & Hl) _ IH]; [done|]. intros Hst Hno.
  destruct (in_flight_kept _ _ _ _ _ Hstep Hst Hno) as [Hno' Hl']. apply IH; [|by eapply stuck_basket_kept|done].
  by eapply basket_step_open_ok.
Qed.

(** A history of submit admission is one in which no basket is asked for. *)
Lemma submit_reachable_lifts past s :
  submit_reachable evidence_io reject_episode_max_count past s →
  basket_reachable past (mkBasketSystem s [] [] no_calls).
Proof.
  induction 1 as [w0 Hst|s label s' _ IH Hstep]; [by apply breachable_start|].
  eapply breachable_step; [done|]. exact (bstep_other (mkBasketSystem s [] [] no_calls) label s' Hstep).
Qed.

(** C10: Every history of basket admissions, releases, commits and drops, interleaved lock by
    lock with each other and with any other use of submit admission, is a history of
    submit admission, so that all its guarantees hold of baskets; the open baskets never
    exceed the configured number; a basket reported stuck keeps its place through every
    step but its own release and the refusal of an admission of its name that was under
    way; and when none is under way, through every history without its release. *)
Theorem basket_history_refines past s :
  basket_reachable past s →
  submit_reachable evidence_io reject_episode_max_count past (bs_submit s) ∧
  Z.of_nat (length (bs_open s)) ≤ Z.max 0 (max_open_baskets limits) ∧
  (∀ label s' id r, basket_step s label s' → label ≠ ReleasedName id → label ≠ RefusedPlace id →
     stuck s id r → stuck s' id r) ∧
  ∀ s' id r, rtc (step_without_release id) s s' → stuck s id r → ¬ in_flight s id → stuck s' id r.
Proof.
  intros [Hsub Hopen]%basket_reachable_inv. split; [done|]. split; [apply Hopen|]. split.
  - intros label s' id r Hstep. by apply stuck_basket_kept.
  - intros s' id r Hsteps. by apply stuck_for_good.
Qed.

End History.

End Facts.

(** ** A concrete history *)

Module BasketDemo.
#[local] Existing Instance Demo.nt.
#[local] Existing Instance Demo.itext.
#[local] Existing Instance Demo.dnorm.
#[local] Existing Instance ScanDemo.cents.
#[local] Existing Instance ScanDemo.millionths_f64.

(** Baskets of at most ten units, one at a time. *)
Definition limits : BoltV3BasketAdmissionLimits Z := mkBasketLimits 10000000 1 1000000 500 500 3.

Definition claim_for (notional quantity : Z) (id instrument : string) (outcome : PredictionMarketOutcomeSide)
    : BoltV3BasketSubmitSlotClaim Z :=
  mkClaim (lit id) (lit instrument) notional OrderBuy quantity Entry None
    (Some (mkCompiledEvidence (lit "venue") CompiledPredictionMarketBinary CompiledBuy quantity 400000
             CompiledLimit CompiledTaker None (Some outcome))).

Definition claim : string → string → PredictionMarketOutcomeSide → BoltV3BasketSubmitSlotClaim Z :=
  claim_for 4000000 10000000.

Definition request_for (client basket : string) (claims : list (BoltV3BasketSubmitSlotClaim Z))
    : BoltV3BasketAdmissionRequest Z :=
  mkBasketRequest (lit "strategy-1") (lit basket) (lit client) (Demo.group "a") ScanDemo.evidence claims 1150 1150 0.

Definition request (client basket a b : string) : BoltV3BasketAdmissionRequest Z :=
  request_for client basket [claim a "yes" OutcomeYes; claim b "no" OutcomeNo].

Definition world : BasketWorld Z := mkBasketWorld demo_reconciled [] [].

Definition do_admit (r : BoltV3BasketAdmissionRequest Z)
    : Rust (BasketWorld Z) (Result BoltV3BasketAdmissionPermit BoltV3BasketAdmissionError) :=
  basket_admit demo_digest demo_io limits r (Ok 1000).

Definition after {A} (m : Rust (BasketWorld Z) A) (w : BasketWorld Z) : BasketWorld Z :=
  match m w with Some (_, w') => w' | None => w end.

Definition accepts {A E} (m : Rust (BasketWorld Z) (Result A E)) (w : BasketWorld Z) : bool :=
  match m w with Some (Ok _, _) => true | _ => false end.

Lemma accepted {A E} (m : Rust (BasketWorld Z) (Result A E)) w :
  accepts m w = true → ∃ a, m w = Some (Ok a, after m w).
Proof. unfold accepts, after. destruct (m w) as [[[a|] w']|]; [by exists a|done..]. Qed.

Definition finishes (m : Rust (BasketWorld Z) unit) (w : BasketWorld Z) : bool :=
  match m w with Some _ => true | None => false end.

Lemma finished m w : finishes m w = true → m w = Some (tt, after m w).
Proof. unfold finishes, after. by destruct (m w) as [[[] w']|]. Qed.

Definition permit_of (r : BoltV3BasketAdmissionRequest Z) (w : BasketWorld Z) : BoltV3BasketAdmissionPermit :=
  match do_admit r w with Some (Ok p, _) => p | _ => mkBasketPermit [] None end.

Definition granted_of (p : BoltV3BasketAdmissionPermit) : BoltV3SubmitAdmissionPermit :=
  default no_permit (basket_submit_permit p).

(** The request is admitted with its orders granted. *)
Definition grants (r : BoltV3BasketAdmissionRequest Z) (w : BasketWorld Z) : bool :=
  match do_admit r w with Some (Ok (mkBasketPermit _ (Some _)), _) => true | _ => false end.

Definition granted_permit (r : BoltV3BasketAdmissionRequest Z) (w : BasketWorld Z) : BoltV3BasketAdmissionPermit :=
  mkBasketPermit (permit_basket_id (permit_of r w)) (Some (granted_of (permit_of r w))).

Lemma granted r w : grants r w = true →
  basket_admit demo_digest demo_io limits r (Ok 1000) w = Some (Ok (granted_permit r w), after (do_admit r) w).
Proof.
  change (basket_admit demo_digest demo_io limits r (Ok 1000)) with (do_admit r).
  unfold grants, granted_permit, granted_of, permit_of, after.
  destruct (do_admit r w) as [[[[id [g|]]|] w']|]; done.
Qed.

Definition first : BoltV3BasketAdmissionRequest Z := request "client" "basket" "leg-1" "leg-2".

(** *** A released basket's permit frees the place of a later one

    The limit is one basket.  A basket is admitted and released as terminal while its
    permit is still out; the same name is admitted again; dropping the first permit then
    frees the place of the second, and a third basket is admitted while the second is
    out. *)
Definition second : BoltV3BasketAdmissionRequest Z := request "roomy" "basket" "leg-3" "leg-4".
Definition third : BoltV3BasketAdmissionRequest Z := request "roomy" "another" "leg-5" "leg-6".

Definition w1 : BasketWorld Z := after (do_admit first) world.
Definition w2 : BasketWorld Z := after (release_basket (lit "basket") ReleaseTerminal) w1.
Definition w3 : BasketWorld Z := after (do_admit second) w2.
Definition w4 : BasketWorld Z := after (basket_permit_drop (granted_permit first world)) w3.
Definition w5 : BasketWorld Z := after (do_admit third) w4.

Example released_permit_frees_later_basket :
  max_open_baskets limits = 1 ∧
  do_admit first world = Some (Ok (granted_permit first world), w1) ∧
  release_basket (lit "basket") ReleaseTerminal w1 = Some (Ok tt, w2) ∧
  do_admit second w2 = Some (Ok (granted_permit second w2), w3) ∧ bt_keys (open_baskets w3) = [lit "basket"] ∧
  basket_permit_drop (granted_permit first world) w3 = Some (tt, w4) ∧ open_baskets w4 = [] ∧
  do_admit third w4 = Some (Ok (granted_permit third w4), w5).
Proof.
  split; [reflexivity|]. split; [apply granted; vm_cast_no_check (eq_refl true)|]. split.
  { destruct (accepted (release_basket (lit "basket") ReleaseTerminal) w1) as [[] Hr]; [|exact Hr].
    vm_cast_no_check (eq_refl true). }
  split; [apply granted; vm_cast_no_check (eq_refl true)|]. split; [vm_cast_no_check (eq_refl [lit "basket"])|].
  split; [apply finished; vm_cast_no_check (eq_refl true)|].
  split; [vm_cast_no_check (eq_refl (@nil (text * BoltV3BasketReservation Z)))|].
  apply granted. vm_cast_no_check (eq_refl true).
Qed.

(** *** The parts of an admission *)

(** The value of a call that succeeds. *)
Definition value_of {A E} (d : A) (m : Rust (BasketWorld Z) (Result A E)) (w : BasketWorld Z) : A :=
  match m w with Some (Ok a, _) => a | _ => d end.

Lemma accepted_value {A E} (d : A) (m : Rust (BasketWorld Z) (Result A E)) w :
  accepts m w = true → m w = Some (Ok (value_of d m w), after m w).
Proof. intros (a & Ha)%accepted. unfold value_of. by rewrite Ha at 1 2. Qed.

Definition refuses {A E} (m : Rust (BasketWorld Z) (Result A E)) (w : BasketWorld Z) : bool :=
  match m w with Some (Err _, _) => true | _ => false end.

Lemma refused {A E} (m : Rust (BasketWorld Z) (Result A E)) w :
  refuses m w = true → ∃ e, m w = Some (Err e, after m w).
Proof. unfold refuses, after. destruct (m w) as [[[|e] w']|]; [done|by exists e|done]. Qed.

Definition no_details : BasketAdmissionDetails := mkBasketDetails [] [] [] [] [] [] 0.

Notation place r := (admit_place demo_digest limits r).

Definition details_of (r : BoltV3BasketAdmissionRequest Z) : BasketAdmissionDetails := value_of no_details (place r) world.

(** Submit admission with the clock's reading. *)
Notation submit r clock := (admit_submit demo_io r (details_of r) clock).

(** *** Orders for less than the scanned quantity

    The claims are compared with the scanned legs by instrument and notional.  A claim to
    buy five of the ten units scanned of a leg, for half its cost, is admitted, and the
    basket loses in the state that leg pays in. *)
Definition short : BoltV3BasketAdmissionRequest Z :=
  request_for "client" "basket" [claim "leg-1" "yes" OutcomeYes; claim_for 2000000 5000000 "leg-2" "no" OutcomeNo].

Definition short_legs : list (OutcomeGroupLegScanEvidence Z) := sc_leg_costs (br_scanner_evidence short).

Definition loses_in_a_state : bool :=
  existsb (λ row, payout_sum (ordered (br_submit_claims short) short_legs) (matrix_cols (payout_matrix (br_group short))) row
                  <? claim_cost short * d_unit)
    (bt_values (payout_per_unit_by_state (payout_matrix (br_group short)))).

Example short_order_admitted :
  accepts (do_admit short) world = true ∧ loses_in_a_state = true.
Proof. split; vm_cast_no_check (eq_refl true). Qed.

(** *** A basket reported stuck while its admission is under way

    The basket takes its place; it is reported stuck; submit admission then refuses its
    orders, since the clock fails, and the refusal frees the place. *)
Definition placed : BasketWorld Z := after (place first) world.
Definition placed_stuck : BasketWorld Z := after (release_basket (lit "basket") ReleaseStuck) placed.
Definition placed_refused : BasketWorld Z := after (submit first (Err (lit "clock"))) placed_stuck.

Definition kept_stuck (w : BasketWorld Z) : bool :=
  match bt_get (open_baskets w) (lit "basket") with Some r => negb (release_on_drop r) | None => false end.

Example stuck_lost_to_refusal :
  accepts (place first) world = true ∧ kept_stuck placed_stuck = true ∧
  refuses (submit first (Err (lit "clock"))) placed_stuck = true ∧ kept_stuck placed_refused = true ∧
  ∀ error, open_baskets (after (admit_settle first (Err error)) placed_refused) = [].
Proof.
  split; [vm_cast_no_check (eq_refl true)|]. split; [vm_cast_no_check (eq_refl true)|].
  split; [vm_cast_no_check (eq_refl true)|]. split; [vm_cast_no_check (eq_refl true)|].
  intros error. vm_cast_no_check (eq_refl (@nil (text * BoltV3BasketReservation Z))).
Qed.

(** *** The witnesses *)

Lemma first_placed : admit_place demo_digest limits first world = Some (Ok (details_of first), placed).
Proof.
  assert (accepts (place first) world = true) as Ha by vm_cast_no_check (eq_refl true).
  exact (accepted_value no_details (place first) world Ha).
Qed.

Definition granted_world : BasketWorld Z := after (submit first (Ok 1000)) placed.
Definition first_grant : BoltV3SubmitAdmissionPermit := value_of no_permit (submit first (Ok 1000)) placed.

Lemma first_submitted :
  admit_submit demo_io first (details_of first) (Ok 1000) placed = Some (Ok first_grant, granted_world).
Proof.
  assert (accepts (submit first (Ok 1000)) placed = true) as Ha by vm_cast_no_check (eq_refl true).
  exact (accepted_value no_permit (submit first (Ok 1000)) placed Ha).
Qed.

(** Eight units of notional for ten of payout in both outcomes and when void. *)
Lemma admitted_basket_profits_witness :
  claim_cost first = 8000000 ∧ basket_cost ScanDemo.evidence = 8080000 ∧
  ∀ state st, (state, st) ∈ terminal_states (br_group first) →
    ∃ row, bt_get (payout_per_unit_by_state (payout_matrix (br_group first))) state = Some row ∧
      claim_cost first * d_unit <
      payout_sum (ordered (br_submit_claims first) (sc_leg_costs ScanDemo.evidence))
        (matrix_cols (payout_matrix (br_group first))) row.
Proof.
  split; [reflexivity|]. split; [reflexivity|]. intros state st Hin.
  destruct (admitted_basket_profits demo_digest demo_io limits first (Ok 1000) (details_of first) first_grant
    world placed placed granted_world ScanDemo.input (Demo.group_sorted "a") eq_refl ScanDemo.scans
    ScanDemo.evidence_exact) as (_ & _ & _ & Hpay & _).
  - repeat constructor; vm_compute; discriminate.
  - vm_compute. discriminate.
  - exact first_placed.
  - exact first_submitted.
  - destruct (Hpay state st Hin) as (row & Hrow & _ & Hord). exists row. split; [exact Hrow|]. apply Hord; [reflexivity|].
    repeat constructor; vm_compute; discriminate.
Defined.

Definition first_ids : list text := [lit "leg-1"; lit "leg-2"].
Definition first_permit : BoltV3BasketAdmissionPermit := mkBasketPermit (lit "basket") (Some first_grant).

Definition start : BasketSystem (D := Z) := mkBasketSystem (mkSystem demo_reconciled [] []) [] [] no_calls.

(** The first basket has its place; its orders are granted; it is reported stuck; its
    permit is dropped, in two parts. *)
Definition placing_first : BasketSystem (D := Z) :=
  bs_after placed [] [] (mkBasketCalls [] [(first, details_of first)] [] []).
Definition held_first : BasketSystem (D := Z) :=
  bs_after granted_world [(first_ids, first_grant)] [] (mkBasketCalls [(first_ids, first_permit)] [] [] []).
Definition stuck_first : BasketSystem (D := Z) :=
  bs_after (after (release_basket (lit "basket") ReleaseStuck) granted_world) [(first_ids, first_grant)] []
    (bs_calls held_first).
Definition dropping_first : BasketSystem (D := Z) :=
  bs_after (after (drop_place first_permit) (bs_world stuck_first)) [(first_ids, first_grant)] []
    (mkBasketCalls [] [] [] [(first_ids, first_permit)]).
Definition dropped_first : BasketSystem (D := Z) :=
  bs_after (after (drop_submit first_permit) (bs_world dropping_first)) [] [] (mkBasketCalls [] [] [] []).

Notation step := (basket_step demo_digest demo_io 8 limits).

Lemma first_places : step start Quiet placing_first.
Proof.
  exact (bstep_place demo_digest demo_io 8 limits start first (details_of first) placed [] [] [] [] eq_refl first_placed).
Qed.

Lemma first_granted : step placing_first Quiet held_first.
Proof.
  refine (bstep_submit demo_digest demo_io 8 limits placing_first first (details_of first) (Ok 1000) first_grant
            first_permit granted_world granted_world [] [(first, details_of first)] [] [] [] eq_refl (reflexivity _) _ eq_refl).
  unfold placing_first. rewrite bs_world_after. exact first_submitted.
Qed.

Lemma first_sticks : step held_first (ReleasedName (lit "basket")) stuck_first.
Proof.
  destruct (refused (release_basket (lit "basket") ReleaseStuck) granted_world) as [e He];
    [vm_cast_no_check (eq_refl true)|].
  apply (bstep_release demo_digest demo_io 8 limits held_first (lit "basket") ReleaseStuck (Err e)).
  unfold held_first. rewrite bs_world_after. exact He.
Qed.

Lemma stuck_reachable : basket_reachable demo_digest demo_io 8 limits [] stuck_first.
Proof.
  eapply breachable_step; [|exact first_sticks]. eapply breachable_step; [|exact first_granted].
  eapply breachable_step; [|exact first_places]. apply submit_reachable_lifts, demo_reconciled_reachable.
Qed.

Lemma stuck_dropping : step stuck_first Quiet dropping_first.
Proof.
  apply (bstep_drop demo_digest demo_io 8 limits stuck_first first_ids first_permit
           (after (drop_place first_permit) (bs_world stuck_first)) [(first_ids, first_permit)] [] [] [] []); [done..|].
  apply finished. vm_cast_no_check (eq_refl true).
Qed.

Lemma stuck_dropped : step dropping_first Quiet dropped_first.
Proof.
  apply (bstep_drop_submit demo_digest demo_io 8 limits dropping_first first_ids first_permit first_grant []
           (after (drop_submit first_permit) (bs_world dropping_first)) [] [] [] [(first_ids, first_permit)] []); [done..|].
  apply finished. vm_cast_no_check (eq_refl true).
Qed.

Definition stuck_reservation : BoltV3BasketReservation Z :=
  default (new_reservation first) (bt_get (bs_open stuck_first) (lit "basket")).

Lemma kept_is_stuck (s : BasketSystem (D := Z)) r :
  kept_stuck (bs_world s) = true → stuck s (lit "basket") (default r (bt_get (bs_open s) (lit "basket"))).
Proof.
  unfold stuck, kept_stuck. cbn [bs_world open_baskets].
  destruct (bt_get (bs_open s) (lit "basket")) as [r'|]; [|done]. cbn. by destruct (release_on_drop r').
Qed.

Lemma stuck_reserved : stuck stuck_first (lit "basket") stuck_reservation.
Proof.
  assert (kept_stuck (bs_world stuck_first) = true) as H by vm_cast_no_check (eq_refl true).
  exact (kept_is_stuck stuck_first (new_reservation first) H).
Qed.

(** Dropping the permit of the stuck basket leaves its place taken. *)
Lemma basket_history_refines_witness :
  Z.of_nat (length (bs_open stuck_first)) ≤ 1 ∧ stuck dropping_first (lit "basket") stuck_reservation ∧
  stuck dropped_first (lit "basket") stuck_reservation.
Proof.
  destruct (basket_history_refines demo_digest demo_io 8 limits [] stuck_first stuck_reachable)
    as (_ & Hlen & Hkeep & Hgood).
  split; [exact Hlen|]. split.
  - apply (Hkeep Quiet _ _ _ stuck_dropping); [discriminate..|exact stuck_reserved].
  - apply Hgood; [|exact stuck_reserved|].
    + eapply rtc_l; [exists Quiet; split; [exact stuck_dropping|discriminate]|].
      eapply rtc_l; [exists Quiet; split; [exact stuck_dropped|discriminate]|]. apply rtc_refl.
    + intros [(q & d & Hin & _)|(q & d & Hin & _)]; by apply elem_of_nil in Hin.
Defined.
End BasketDemo.
