(* ===== verification/TakerExposure.v ===== *)
(** * The exposure of the edge taker

    [src/src/strategies/binary_oracle_edge_taker/exposure.rs]: the machine that owns the
    one position the strategy may have, from the entry order over the position to the exit
    order.  [ExposureOwner] holds the state and the generations of the entry arms and exit
    attempts; a capability names the arm or attempt it was issued for.

    The order book a position carries along is never read here and is a type.  The
    authority over an exit order is a handle: two handles are equal when they share their
    cell; its instrument and position are fixed at its creation. *)

From Stdlib Require Import ZArith Lia.
From stdpp Require Import sorting strings gmap numbers list.
From S2P Require Import Prelude.
From S2P Require Import RustText.
From S2P Require Import BTree.
From S2P Require Import NtTypes.
From S2P Require Import F64.
From S2P Require Import PositionContract.

Open Scope Z_scope.

(** ** Tags *)

Inductive ExitLifecyclePhase : Type := PhaseAttempting | PhaseWorking | PhaseTerminalAwaitingPosition.

Inductive EntryReconcileReason : Type :=
| AwaitingPositionMaterialization
| UnresolvedAtSelectionBoundary
| UnsupportedEntryFillSide (order_side : OrderSide)
| InvalidObservedPosition (entry_order_side : OrderSide) (side : PositionSide).

Inductive UnsupportedObservedReason : Type := LiveUnsupportedContract.

Inductive EntryCancellation : Type := CancellationWorking | CancellationPending | CancellationRefused.

Inductive ExposureOccupancy : Type :=
| OccupancyPendingEntry
| OccupancyEntryReconcilePending
| OccupancyEntryRemainder
| OccupancyManagedPosition
| OccupancyExitPending
| OccupancyUnsupportedObserved
| OccupancyBlindRecovery.

Inductive ExitRouteAvailability : Type := RouteManaged | RouteEntryRemainder | RouteExitPending | RouteUnavailable.

Inductive ExposureEntryGate : Type :=
| GateOpen
| GateOccupied (occupancy : ExposureOccupancy)
| GateRecovering (occupancy : ExposureOccupancy).

Inductive ExposureMarketDataRoute : Type := RouteEntry | RouteExit | RouteNone.

(** Of the lifecycle outcomes of the evidence, those an exposure has. *)
Inductive OrderLifecycleOutcome : Type :=
| OutcomeFlat | OutcomePendingEntry | OutcomeEntryReconcilePending | OutcomeManaged | OutcomeExitPending
| OutcomeUnsupportedObserved | OutcomeBlindRecovery.

Inductive EntryArmError : Type := ArmOccupied (occupancy : ExposureOccupancy) | GenerationExhausted.
Inductive ExitAttemptError : Type := ExitRequiresManaged | ExitGenerationOverflow.
Inductive ExitAttemptSettlement : Type := ExitRetain | ExitAbort.
Inductive EntryArmSettlement : Type := ArmRetain | ArmAbort.
Inductive EntryCancellationSettlement : Type := RestoreWorking | RetainPending.

#[global] Instance EntryCancellation_eq_dec : EqDecision EntryCancellation.
Proof. solve_decision. Defined.
#[global] Instance ExposureOccupancy_eq_dec : EqDecision ExposureOccupancy.
Proof. solve_decision. Defined.

Section Exposure.
Context `{NT : NtTypes} {Venue Book : Type}.

(** [==] of the identifiers. *)
Definition position_eqb (a b : PositionId) : bool := match ord_cmp a b with Eq => true | _ => false end.
Definition instrument_eqb (a b : InstrumentId) : bool := match ord_cmp a b with Eq => true | _ => false end.
Definition client_order_eqb (a b : ClientOrderId) : bool := match ord_cmp a b with Eq => true | _ => false end.

(** ** Data *)

Record OpenPositionState : Type := mkOpenPosition {
  op_lifecycle : BoltV3PositionMarketLifecycle;
  op_instrument_id : InstrumentId;
  op_position_id : PositionId;
  op_entry_order_side : OrderSide;
  op_side : PositionSide;
  op_quantity : Quantity;
  op_avg_px_open : f64;
  op_book : Book;
}.

Record PendingEntryState : Type := mkPendingEntry {
  pe_client_order_id : ClientOrderId;
  pe_submitted_at_ms : option Z;
  pe_lifecycle : BoltV3PositionMarketLifecycle;
  pe_instrument_id : InstrumentId;
  pe_book : Book;
}.

Record PendingEntryArmState : Type := mkPendingArm { arm_generation : Z; arm_pending : PendingEntryState }.

Record PendingExitState : Type := mkPendingExit {
  px_client_order_id : ClientOrderId;
  px_submitted_at_ms : option Z;
  px_market_id : option text;
  px_position_id : option PositionId;
}.

Record ManagedPositionContext : Type := mkManaged {
  mp_lifecycle : BoltV3PositionMarketLifecycle;
  mp_instrument_id : InstrumentId;
  mp_position_id : PositionId;
  mp_book : Book;
}.

(** [BoltV3ExitOrderAuthorityHandle]. *)
Record ExitAuthority : Type := mkExitAuthority {
  authority_cell : Z;
  authority_instrument_id : InstrumentId;
  authority_position_id : PositionId;
}.

Record ExitPendingState : Type := mkExitPending {
  ep_position : option ManagedPositionContext;
  ep_pending_exit : PendingExitState;
  ep_authority : ExitAuthority;
}.

Record ExitAttemptingState : Type := mkExitAttempting {
  ea_generation : Z;
  ea_managed : ManagedPositionContext;
  ea_pending_exit : PendingExitState;
  ea_authority : ExitAuthority;
}.

Definition attempt_snapshot (a : ExitAttemptingState) : ExitPendingState :=
  mkExitPending (Some (ea_managed a)) (ea_pending_exit a) (ea_authority a).
Definition into_pending (a : ExitAttemptingState) : ExitPendingState :=
  mkExitPending (Some (ea_managed a)) (ea_pending_exit a) (ea_authority a).

Inductive BlindRecoveryReason : Type :=
| CacheProbeFailed
| MultipleOpenPositions (count : Z)
| InvalidBootstrappedPosition (entry_order_side : OrderSide) (side : PositionSide)
| InvalidLivePosition (entry_order_side : OrderSide) (side : option PositionSide)
| SettlementEvidenceRecoveryFailed
| RestartOpenPosition (instrument_id : InstrumentId) (position_id : PositionId)
| UnretainedExitCorrection (instrument_id : InstrumentId)
| ForeignVenuePosition (instrument_venue execution_venue : Venue).

Record UnsupportedObservedState : Type := mkUnsupported {
  uo_context : ManagedPositionContext;
  uo_reason : UnsupportedObservedReason;
}.

Inductive EntryRemainderPosition : Type :=
| RemainderSupported (position : ManagedPositionContext)
| RemainderUnsupported (observed : UnsupportedObservedState)
| RemainderCanonicallyFlat.

Record EntryRemainderState : Type := mkRemainder {
  er_pending_entry : PendingEntryState;
  er_position : EntryRemainderPosition;
  er_cancellation : EntryCancellation;
}.

Inductive EntryTerminalPositionTruth : Type :=
| TruthZeroFill
| TruthSupported (position : ManagedPositionContext)
| TruthUnsupported (observed : UnsupportedObservedState)
| TruthCanonicallyFlat
| TruthUnresolved (reason : EntryReconcileReason).

Inductive ExposureState : Type :=
| Flat
| PendingEntry (arm : PendingEntryArmState)
| EntryReconcilePending (pending : PendingEntryState) (reason : EntryReconcileReason)
| EntryRemainder (remainder : EntryRemainderState)
| Managed (position : ManagedPositionContext)
| ExitAttempting (attempt : ExitAttemptingState)
| ExitPending (exit : ExitPendingState)
| TerminalExitAwaitingPosition (exit : ExitPendingState)
| UnsupportedObserved (observed : UnsupportedObservedState)
| BlindRecovery (reason : BlindRecoveryReason).

Record EntryCancellationToken : Type := mkCancellationToken { token_client_order_id : ClientOrderId }.

Inductive EntryCancellationEffect : Type :=
| CancellationNone
| CancellationRoute (client_order_id : ClientOrderId) (token : EntryCancellationToken)
| CancellationAwaitingLifecycle
| CancellationIsRefused.

Implicit Types (st : ExposureState) (r : EntryRemainderState) (m : ManagedPositionContext).

Definition set_remainder_position r (position : EntryRemainderPosition) : EntryRemainderState :=
  mkRemainder (er_pending_entry r) position (er_cancellation r).
Definition set_cancellation r (cancellation : EntryCancellation) : EntryRemainderState :=
  mkRemainder (er_pending_entry r) (er_position r) cancellation.
Definition set_managed (a : ExitAttemptingState) m : ExitAttemptingState :=
  mkExitAttempting (ea_generation a) m (ea_pending_exit a) (ea_authority a).
Definition set_exit_position (e : ExitPendingState) (position : option ManagedPositionContext) : ExitPendingState :=
  mkExitPending position (ep_pending_exit e) (ep_authority e).

(** ** The state *)

(** [position_id == .. && instrument_id == ..]. *)
Definition is_position m (position_id : PositionId) (instrument_id : InstrumentId) : bool :=
  position_eqb (mp_position_id m) position_id && instrument_eqb (mp_instrument_id m) instrument_id.

Definition authority_is (a : ExitAuthority) (position_id : PositionId) (instrument_id : InstrumentId) : bool :=
  position_eqb (authority_position_id a) position_id && instrument_eqb (authority_instrument_id a) instrument_id.

(** [EntryRemainderState::position_matches]. *)
Definition position_matches r (position_id : PositionId) (instrument_id : InstrumentId) : bool :=
  match er_position r with
  | RemainderSupported position => is_position position position_id instrument_id
  | RemainderUnsupported observed => is_position (uo_context observed) position_id instrument_id
  | RemainderCanonicallyFlat => instrument_eqb (pe_instrument_id (er_pending_entry r)) instrument_id
  end.

Definition entry_cancellation_effect r : EntryCancellationEffect * EntryRemainderState :=
  match er_cancellation r with
  | CancellationWorking =>
      let id := pe_client_order_id (er_pending_entry r) in
      (CancellationRoute id (mkCancellationToken id), set_cancellation r CancellationPending)
  | CancellationPending => (CancellationAwaitingLifecycle, r)
  | CancellationRefused => (CancellationIsRefused, r)
  end.

Definition pending_entry st : option PendingEntryState :=
  match st with
  | PendingEntry arm => Some (arm_pending arm)
  | EntryReconcilePending pending _ => Some pending
  | EntryRemainder r => Some (er_pending_entry r)
  | _ => None
  end.

Definition entry_remainder st : option EntryRemainderState :=
  match st with EntryRemainder r => Some r | _ => None end.

Definition resolve_unmaterialized_entry_terminal (pending : PendingEntryState) (truth : EntryTerminalPositionTruth)
    : ExposureState * option PendingEntryState :=
  match truth with
  | TruthZeroFill => (Flat, Some pending)
  | TruthSupported position =>
      if instrument_eqb (pe_instrument_id pending) (mp_instrument_id position)
      then (Managed position, Some pending)
      else (EntryReconcilePending pending AwaitingPositionMaterialization, None)
  | TruthUnsupported observed =>
      if instrument_eqb (pe_instrument_id pending) (mp_instrument_id (uo_context observed))
      then (UnsupportedObserved observed, Some pending)
      else (EntryReconcilePending pending AwaitingPositionMaterialization, None)
  | TruthCanonicallyFlat => (EntryReconcilePending pending AwaitingPositionMaterialization, None)
  | TruthUnresolved reason => (EntryReconcilePending pending reason, None)
  end.

(** The remainder's next state, if the truth settles it. *)
Definition resolve_remainder r (truth : EntryTerminalPositionTruth) : option ExposureState :=
  match truth with
  | TruthSupported position =>
      if position_matches r (mp_position_id position) (mp_instrument_id position)
      then Some (Managed position) else None
  | TruthUnsupported observed =>
      if position_matches r (mp_position_id (uo_context observed)) (mp_instrument_id (uo_context observed))
      then Some (UnsupportedObserved observed) else None
  | TruthZeroFill => match er_position r with RemainderCanonicallyFlat => Some Flat | _ => None end
  | TruthCanonicallyFlat => Some Flat
  | TruthUnresolved _ => None
  end.

Definition resolve_entry_terminal st (client_order_id : ClientOrderId) (truth : EntryTerminalPositionTruth)
    : ExposureState * option PendingEntryState :=
  match st with
  | PendingEntry arm =>
      if client_order_eqb (pe_client_order_id (arm_pending arm)) client_order_id
      then resolve_unmaterialized_entry_terminal (arm_pending arm) truth else (st, None)
  | EntryReconcilePending pending _ =>
      if client_order_eqb (pe_client_order_id pending) client_order_id
      then resolve_unmaterialized_entry_terminal pending truth else (st, None)
  | EntryRemainder r =>
      if client_order_eqb (pe_client_order_id (er_pending_entry r)) client_order_id
      then match resolve_remainder r truth with
           | Some next => (next, Some (er_pending_entry r))
           | None => (EntryRemainder r, None)
           end
      else (st, None)
  | _ => (st, None)
  end.

(** A first position of the entry order [pending]. *)
Definition materialize_entry (pending : PendingEntryState) m (keep_entry_remainder : bool) : ExposureState :=
  if keep_entry_remainder then EntryRemainder (mkRemainder pending (RemainderSupported m) CancellationWorking)
  else Managed m.

Definition materialize_supported_position st m (keep_entry_remainder : bool)
    (unlineaged_reason : BlindRecoveryReason) : bool * ExposureState :=
  let position_id := mp_position_id m in
  let instrument_id := mp_instrument_id m in
  let unlineaged := (false, BlindRecovery unlineaged_reason) in
  match st with
  | PendingEntry (mkPendingArm _ pending) | EntryReconcilePending pending _ =>
      if instrument_eqb (pe_instrument_id pending) instrument_id
      then (true, materialize_entry pending m keep_entry_remainder) else unlineaged
  | EntryRemainder r =>
      if position_matches r position_id instrument_id
      then (true, EntryRemainder (set_remainder_position r (RemainderSupported m))) else unlineaged
  | Managed current => if is_position current position_id instrument_id then (true, Managed m) else unlineaged
  | ExitAttempting attempt =>
      if authority_is (ea_authority attempt) position_id instrument_id
      then (true, ExitAttempting (set_managed attempt m)) else unlineaged
  | ExitPending exit =>
      if authority_is (ep_authority exit) position_id instrument_id
      then (true, ExitPending (set_exit_position exit (Some m))) else unlineaged
  | TerminalExitAwaitingPosition exit =>
      if authority_is (ep_authority exit) position_id instrument_id
      then (true, TerminalExitAwaitingPosition (set_exit_position exit (Some m))) else unlineaged
  | UnsupportedObserved current =>
      if is_position (uo_context current) position_id instrument_id then (true, Managed m) else unlineaged
  | BlindRecovery reason => (false, BlindRecovery reason)
  | Flat => unlineaged
  end.

Definition reduce_position_closed st (position_id : PositionId) (instrument_id : InstrumentId)
    : ExposureState * EntryCancellationEffect :=
  match st with
  | EntryRemainder r =>
      let matches := match er_position r with
                     | RemainderSupported position => is_position position position_id instrument_id
                     | RemainderUnsupported observed => is_position (uo_context observed) position_id instrument_id
                     | RemainderCanonicallyFlat => false
                     end in
      if matches
      then let '(effect, r) := entry_cancellation_effect (set_remainder_position r RemainderCanonicallyFlat) in
           (EntryRemainder r, effect)
      else (st, CancellationNone)
  | EntryReconcilePending pending _ =>
      if instrument_eqb (pe_instrument_id pending) instrument_id
      then let '(effect, r) :=
             entry_cancellation_effect (mkRemainder pending RemainderCanonicallyFlat CancellationWorking) in
           (EntryRemainder r, effect)
      else (st, CancellationNone)
  | Managed position =>
      if is_position position position_id instrument_id then (Flat, CancellationNone) else (st, CancellationNone)
  | UnsupportedObserved observed =>
      if is_position (uo_context observed) position_id instrument_id then (Flat, CancellationNone)
      else (st, CancellationNone)
  | _ => (st, CancellationNone)
  end.

(** [request_entry_remainder_cancellation] of the state. *)
Definition request_cancellation st : EntryCancellationEffect * ExposureState :=
  match st with
  | EntryRemainder r => let '(effect, r) := entry_cancellation_effect r in (effect, EntryRemainder r)
  | _ => (CancellationNone, st)
  end.

(** [settle_entry_cancellation] of the state. *)
Definition settle_cancellation st (token : EntryCancellationToken) (settlement : EntryCancellationSettlement)
    : ExposureState :=
  match st, settlement with
  | EntryRemainder r, RestoreWorking =>
      if client_order_eqb (pe_client_order_id (er_pending_entry r)) (token_client_order_id token)
         && bool_decide (er_cancellation r = CancellationPending)
      then EntryRemainder (set_cancellation r CancellationWorking) else st
  | _, _ => st
  end.

(** [observe_cancel_rejected] of the state. *)
Definition cancel_rejected st (client_order_id : ClientOrderId) : ExposureState :=
  match st with
  | EntryRemainder r =>
      if client_order_eqb (pe_client_order_id (er_pending_entry r)) client_order_id
         && bool_decide (er_cancellation r = CancellationPending)
      then EntryRemainder (set_cancellation r CancellationRefused) else st
  | _ => st
  end.

(** A write through [tracked_position_context_mut]. *)
Definition update_tracked (f : ManagedPositionContext → ManagedPositionContext) st : ExposureState :=
  match st with
  | Managed position => Managed (f position)
  | ExitAttempting attempt => ExitAttempting (set_managed attempt (f (ea_managed attempt)))
  | ExitPending exit => ExitPending (set_exit_position exit (f <$> ep_position exit))
  | TerminalExitAwaitingPosition exit => TerminalExitAwaitingPosition (set_exit_position exit (f <$> ep_position exit))
  | UnsupportedObserved observed => UnsupportedObserved (mkUnsupported (f (uo_context observed)) (uo_reason observed))
  | EntryRemainder r =>
      EntryRemainder (set_remainder_position r
        match er_position r with
        | RemainderSupported position => RemainderSupported (f position)
        | RemainderUnsupported observed => RemainderUnsupported (mkUnsupported (f (uo_context observed)) (uo_reason observed))
        | RemainderCanonicallyFlat => RemainderCanonicallyFlat
        end)
  | _ => st
  end.

(** A write through [pending_entry_mut]. *)
Definition update_pending (f : PendingEntryState → PendingEntryState) st : ExposureState :=
  match st with
  | PendingEntry arm => PendingEntry (mkPendingArm (arm_generation arm) (f (arm_pending arm)))
  | EntryReconcilePending pending reason => EntryReconcilePending (f pending) reason
  | EntryRemainder r => EntryRemainder (mkRemainder (f (er_pending_entry r)) (er_position r) (er_cancellation r))
  | _ => st
  end.

Definition set_pending_book (f : Book → Book) (pending : PendingEntryState) : PendingEntryState :=
  mkPendingEntry (pe_client_order_id pending) (pe_submitted_at_ms pending) (pe_lifecycle pending)
    (pe_instrument_id pending) (f (pe_book pending)).
Definition set_managed_market (lifecycle : BoltV3PositionMarketLifecycle) (book : Book) m : ManagedPositionContext :=
  mkManaged lifecycle (mp_instrument_id m) (mp_position_id m) book.

Definition managed_position_context st : option ManagedPositionContext :=
  match st with
  | Managed position => Some position
  | ExitAttempting attempt => Some (ea_managed attempt)
  | ExitPending exit | TerminalExitAwaitingPosition exit => ep_position exit
  | _ => None
  end.

Definition tracked_position_context st : option ManagedPositionContext :=
  match st with
  | Managed position => Some position
  | ExitAttempting attempt => Some (ea_managed attempt)
  | ExitPending exit | TerminalExitAwaitingPosition exit => ep_position exit
  | UnsupportedObserved observed => Some (uo_context observed)
  | EntryRemainder r =>
      match er_position r with
      | RemainderSupported position => Some position
      | RemainderUnsupported observed => Some (uo_context observed)
      | RemainderCanonicallyFlat => None
      end
  | _ => None
  end.

Definition held_instrument_id st : option InstrumentId :=
  opt_or (mp_instrument_id <$> tracked_position_context st) (pe_instrument_id <$> pending_entry st).

Definition exit_pending_snapshot st : option ExitPendingState :=
  match st with
  | ExitAttempting attempt => Some (attempt_snapshot attempt)
  | ExitPending exit | TerminalExitAwaitingPosition exit => Some exit
  | _ => None
  end.

Definition exit_lifecycle st : option (ExitLifecyclePhase * ExitPendingState) :=
  match st with
  | ExitAttempting attempt => Some (PhaseAttempting, attempt_snapshot attempt)
  | ExitPending exit => Some (PhaseWorking, exit)
  | TerminalExitAwaitingPosition exit => Some (PhaseTerminalAwaitingPosition, exit)
  | _ => None
  end.

Definition occupancy st : option ExposureOccupancy :=
  match st with
  | Flat => None
  | PendingEntry _ => Some OccupancyPendingEntry
  | EntryReconcilePending _ _ => Some OccupancyEntryReconcilePending
  | EntryRemainder _ => Some OccupancyEntryRemainder
  | Managed _ => Some OccupancyManagedPosition
  | ExitAttempting _ | ExitPending _ | TerminalExitAwaitingPosition _ => Some OccupancyExitPending
  | UnsupportedObserved _ => Some OccupancyUnsupportedObserved
  | BlindRecovery _ => Some OccupancyBlindRecovery
  end.

Definition current_position_market_id st : option text :=
  opt_or (position ← tracked_position_context st; lc_market_id (mp_lifecycle position))
    (exit ← exit_pending_snapshot st; px_market_id (ep_pending_exit exit)).

(** ** The owner *)

Record EntryArmCapability : Type := mkEntryCapability {
  ec_generation : Z;
  ec_client_order_id : ClientOrderId;
}.

Record ExitAttemptCapability : Type := mkExitCapability { xc_generation : Z }.

Inductive ExposureReleaseObservation : Type :=
| EntryArmAborted (capability : EntryArmCapability)
| EntryTerminal (client_order_id : ClientOrderId) (truth : EntryTerminalPositionTruth)
| PositionClosed (position_id : PositionId) (instrument_id : InstrumentId)
| ExitFlat
| Settlement
| CancelRejected (client_order_id : ClientOrderId).

Record ExposureReleaseEffects : Type := mkReleaseEffects {
  retired_entry : option PendingEntryState;
  release_cancellation : EntryCancellationEffect;
}.

Definition effects_none : ExposureReleaseEffects := mkReleaseEffects None CancellationNone.

Record ExposureOwner : Type := mkOwner {
  owner_state : ExposureState;
  next_entry_generation : Z;
  next_exit_generation : Z;
}.

Implicit Types o : ExposureOwner.

Definition owner_new : ExposureOwner := mkOwner Flat 0 0.

Definition set_state o st : ExposureOwner := mkOwner st (next_entry_generation o) (next_exit_generation o).

Definition lifecycle_outcome o : OrderLifecycleOutcome :=
  match owner_state o with
  | Flat => OutcomeFlat
  | PendingEntry _ | EntryRemainder _ => OutcomePendingEntry
  | EntryReconcilePending _ _ => OutcomeEntryReconcilePending
  | Managed _ => OutcomeManaged
  | ExitAttempting _ | ExitPending _ | TerminalExitAwaitingPosition _ => OutcomeExitPending
  | UnsupportedObserved _ => OutcomeUnsupportedObserved
  | BlindRecovery _ => OutcomeBlindRecovery
  end.

Definition pending_entry_arm o : option PendingEntryState :=
  match owner_state o with PendingEntry arm => Some (arm_pending arm) | _ => None end.

Definition is_entry_reconcile_pending o : bool :=
  match owner_state o with EntryReconcilePending _ _ => true | _ => false end.

Definition is_blind_recovery o : bool := match owner_state o with BlindRecovery _ => true | _ => false end.

Definition exit_route_availability o : ExitRouteAvailability :=
  match owner_state o with
  | Managed _ => RouteManaged
  | EntryRemainder _ => RouteEntryRemainder
  | ExitAttempting _ | ExitPending _ | TerminalExitAwaitingPosition _ => RouteExitPending
  | _ => RouteUnavailable
  end.

Definition entry_gate o : ExposureEntryGate :=
  match owner_state o with
  | Flat => GateOpen
  | PendingEntry _ => GateOccupied OccupancyPendingEntry
  | EntryReconcilePending _ _ => GateRecovering OccupancyEntryReconcilePending
  | EntryRemainder r =>
      match er_position r with
      | RemainderSupported _ => GateOccupied OccupancyEntryRemainder
      | RemainderUnsupported _ | RemainderCanonicallyFlat => GateRecovering OccupancyEntryRemainder
      end
  | Managed _ => GateOccupied OccupancyManagedPosition
  | ExitAttempting _ | ExitPending _ | TerminalExitAwaitingPosition _ => GateOccupied OccupancyExitPending
  | UnsupportedObserved _ => GateRecovering OccupancyUnsupportedObserved
  | BlindRecovery _ => GateRecovering OccupancyBlindRecovery
  end.

Definition market_data_route o : ExposureMarketDataRoute :=
  match owner_state o with Flat => RouteEntry | Managed _ => RouteExit | _ => RouteNone end.

Definition terminal_exit_snapshot o : option ExitPendingState :=
  match owner_state o with TerminalExitAwaitingPosition exit => Some exit | _ => None end.

Definition reduce_release o (observation : ExposureReleaseObservation) : ExposureReleaseEffects * ExposureOwner :=
  let prior := owner_state o in
  let '(next, effects) :=
    match observation with
    | EntryArmAborted capability =>
        let exact_generation :=
          match prior with
          | PendingEntry arm =>
              (arm_generation arm =? ec_generation capability)
              && client_order_eqb (pe_client_order_id (arm_pending arm)) (ec_client_order_id capability)
          | _ => false
          end in
        (if exact_generation then Flat else prior, effects_none)
    | EntryTerminal client_order_id truth =>
        let '(next, retired) := resolve_entry_terminal prior client_order_id truth in
        (next, mkReleaseEffects retired CancellationNone)
    | PositionClosed position_id instrument_id =>
        let '(next, cancellation) := reduce_position_closed prior position_id instrument_id in
        (next, mkReleaseEffects None cancellation)
    | ExitFlat =>
        (match prior with
         | ExitAttempting _ | ExitPending _ | TerminalExitAwaitingPosition _ => Flat
         | _ => prior
         end, effects_none)
    | Settlement =>
        match prior with
        | EntryRemainder r =>
            let '(cancellation, r) :=
              entry_cancellation_effect (set_remainder_position r RemainderCanonicallyFlat) in
            (EntryRemainder r, mkReleaseEffects None cancellation)
        | Managed _ | UnsupportedObserved _ => (Flat, effects_none)
        | _ => (prior, effects_none)
        end
    | CancelRejected client_order_id => (cancel_rejected prior client_order_id, effects_none)
    end in
  (effects, set_state o next).

Definition arm_entry o (pending : PendingEntryState) : Result EntryArmCapability EntryArmError * ExposureOwner :=
  match occupancy (owner_state o) with
  | Some occupancy => (Err (ArmOccupied occupancy), o)
  | None =>
      match u64_checked_add (next_entry_generation o) 1 with
      | None => (Err GenerationExhausted, o)
      | Some generation =>
          (Ok (mkEntryCapability generation (pe_client_order_id pending)),
           mkOwner (PendingEntry (mkPendingArm generation pending)) generation (next_exit_generation o))
      end
  end.

Definition settle_entry_arm o (capability : EntryArmCapability) (settlement : EntryArmSettlement) : ExposureOwner :=
  match settlement with
  | ArmAbort => (reduce_release o (EntryArmAborted capability)).2
  | ArmRetain => o
  end.

Definition enter_entry_reconcile o (pending : PendingEntryState) (reason : EntryReconcileReason) : ExposureOwner :=
  set_state o (EntryReconcilePending pending reason).

Definition reclassify_pending_entry o (reason : EntryReconcileReason) : option PendingEntryState * ExposureOwner :=
  match owner_state o with
  | PendingEntry arm => (Some (arm_pending arm), set_state o (EntryReconcilePending (arm_pending arm) reason))
  | _ => (None, o)
  end.

Definition enter_blind_recovery o (reason : BlindRecoveryReason) : ExposureOwner :=
  set_state o (BlindRecovery reason).

Definition observe_clean_start o : ExposureOwner := set_state o Flat.

Definition observe_entry_terminal o (client_order_id : ClientOrderId) (truth : EntryTerminalPositionTruth)
    : option PendingEntryState * ExposureOwner :=
  let '(effects, o) := reduce_release o (EntryTerminal client_order_id truth) in (retired_entry effects, o).

(** [materialize_supported_position] of the owner. *)
Definition owner_materialize o m (keep_entry_remainder : bool) (unlineaged_reason : BlindRecoveryReason)
    : bool * ExposureOwner :=
  let '(materialized, next) :=
    materialize_supported_position (owner_state o) m keep_entry_remainder unlineaged_reason in
  (materialized, set_state o next).

(** The next state of [set_unsupported_observed]. *)
Definition unsupported_next st (unsupported : UnsupportedObservedState) (keep_entry_remainder : bool)
    (unlineaged_reason : BlindRecoveryReason) : ExposureState :=
  let position_id := mp_position_id (uo_context unsupported) in
  let instrument_id := mp_instrument_id (uo_context unsupported) in
  let unlineaged := BlindRecovery unlineaged_reason in
  match st with
  | PendingEntry (mkPendingArm _ pending) | EntryReconcilePending pending _ =>
      if instrument_eqb (pe_instrument_id pending) instrument_id
      then if keep_entry_remainder
           then EntryRemainder (mkRemainder pending (RemainderUnsupported unsupported) CancellationWorking)
           else UnsupportedObserved unsupported
      else unlineaged
  | EntryRemainder r =>
      match position_matches r position_id instrument_id, keep_entry_remainder with
      | true, true => EntryRemainder (set_remainder_position r (RemainderUnsupported unsupported))
      | true, false => UnsupportedObserved unsupported
      | false, _ => unlineaged
      end
  | Managed current =>
      if is_position current position_id instrument_id then UnsupportedObserved unsupported else unlineaged
  | UnsupportedObserved current =>
      if is_position (uo_context current) position_id instrument_id then UnsupportedObserved unsupported
      else unlineaged
  | ExitAttempting attempt =>
      if authority_is (ea_authority attempt) position_id instrument_id then st else unlineaged
  | ExitPending exit | TerminalExitAwaitingPosition exit =>
      if authority_is (ep_authority exit) position_id instrument_id then st else unlineaged
  | BlindRecovery reason => BlindRecovery reason
  | Flat => unlineaged
  end.

Definition set_unsupported_observed o (unsupported : UnsupportedObservedState) (keep_entry_remainder : bool)
    (unlineaged_reason : BlindRecoveryReason) : ExposureOwner :=
  set_state o (unsupported_next (owner_state o) unsupported keep_entry_remainder unlineaged_reason).

Definition observe_position_closed o (position_id : PositionId) (instrument_id : InstrumentId)
    : EntryCancellationEffect * ExposureOwner :=
  let '(effects, o) := reduce_release o (PositionClosed position_id instrument_id) in
  (release_cancellation effects, o).

Definition request_entry_remainder_cancellation o : EntryCancellationEffect * ExposureOwner :=
  let '(effect, next) := request_cancellation (owner_state o) in (effect, set_state o next).

Definition settle_entry_cancellation o (token : EntryCancellationToken) (settlement : EntryCancellationSettlement)
    : ExposureOwner :=
  set_state o (settle_cancellation (owner_state o) token settlement).

Definition observe_cancel_rejected o (client_order_id : ClientOrderId) : ExposureOwner :=
  (reduce_release o (CancelRejected client_order_id)).2.

Definition begin_exit o (pending_exit : PendingExitState) (authority : ExitAuthority)
    : Result ExitAttemptCapability ExitAttemptError * ExposureOwner :=
  match owner_state o with
  | Managed managed =>
      match u64_checked_add (next_exit_generation o) 1 with
      | None => (Err ExitGenerationOverflow, o)
      | Some generation =>
          (Ok (mkExitCapability generation),
           mkOwner (ExitAttempting (mkExitAttempting generation managed pending_exit authority))
             (next_entry_generation o) generation)
      end
  | _ => (Err ExitRequiresManaged, o)
  end.

Definition settle_exit_attempt o (capability : ExitAttemptCapability) (settlement : ExitAttemptSettlement)
    : ExposureOwner :=
  match owner_state o with
  | ExitAttempting attempt =>
      if ea_generation attempt =? xc_generation capability
      then match settlement with
           | ExitRetain => set_state o (ExitPending (into_pending attempt))
           | ExitAbort => set_state o (Managed (ea_managed attempt))
           end
      else o
  | _ => o
  end.

Definition observe_exit_working o (exit : ExitPendingState) : ExposureOwner := set_state o (ExitPending exit).
Definition observe_exit_terminal o (exit : ExitPendingState) : ExposureOwner :=
  set_state o (TerminalExitAwaitingPosition exit).
Definition observe_exit_residual o m : ExposureOwner := set_state o (Managed m).
Definition observe_exit_flat o : ExposureOwner := (reduce_release o ExitFlat).2.

Definition observe_settlement o : EntryCancellationEffect * ExposureOwner :=
  let '(effects, o) := reduce_release o Settlement in (release_cancellation effects, o).

(** ** Market data *)

(** What [sync_exposure_context_from_active] reads of the active market. *)
Record ActiveMarket : Type := mkActiveMarket {
  active_market_id : option text;
  active_price_to_beat : option f64;
  active_interval_open : option f64;
  active_interval_end_ms : option Z;
  active_selection_published_at_ms : option Z;
  active_seconds_to_expiry_at_selection : option Z;
  active_up : option InstrumentId * Book;
  active_down : option InstrumentId * Book;
}.

Definition active_is (instrument : option InstrumentId) (instrument_id : InstrumentId) : bool :=
  match instrument with Some i => instrument_eqb i instrument_id | None => false end.

Definition active_lifecycle (active : ActiveMarket) (side : OutcomeSide) : BoltV3PositionMarketLifecycle :=
  from_entry_context (active_market_id active) (Some side) (active_price_to_beat active) (active_interval_open active)
    (active_interval_end_ms active) (active_selection_published_at_ms active)
    (active_seconds_to_expiry_at_selection active).

(** The position's lifecycle and book learn from the active market's. *)
Definition learn_from_active (active : ActiveMarket) (side : OutcomeSide) (book : Book) (repair : bool) m
    : ManagedPositionContext :=
  let lifecycle := mp_lifecycle m in
  if negb (market_matches_or_missing lifecycle (active_market_id active)) then m
  else
    let other := active_lifecycle active side in
    let lifecycle :=
      if interval_end_matches lifecycle other || repair && negb (is_some (interval_end_ms lifecycle))
      then fill_missing_from lifecycle other else lifecycle in
    set_managed_market lifecycle (if interval_end_matches lifecycle other then book else mp_book m) m.

Definition sync_exposure_context_from_active o (active : ActiveMarket) : ExposureOwner :=
  let repair := is_some (managed_position_context (owner_state o)) in
  let learn m :=
    if active_is (active_up active).1 (mp_instrument_id m)
    then learn_from_active active OutcomeUp (active_up active).2 repair m
    else if active_is (active_down active).1 (mp_instrument_id m)
    then learn_from_active active OutcomeDown (active_down active).2 repair m
    else m in
  set_state o (update_tracked learn (owner_state o)).

(** The books of [on_book_deltas] that are not the active market's: of the tracked position
    [observed] says [tracked_observed_position] finds, and of the entry order. *)
Definition update_exposure_books o (active : ActiveMarket) (observed : option InstrumentId)
    (instrument_id : InstrumentId) (update : Book → Book) : ExposureOwner :=
  let other := negb (active_is (active_up active).1 instrument_id || active_is (active_down active).1 instrument_id) in
  let o := if active_is observed instrument_id && other
           then set_state o (update_tracked (λ m, set_managed_market (mp_lifecycle m) (update (mp_book m)) m) (owner_state o))
           else o in
  if match pending_entry (owner_state o) with
     | Some pending => instrument_eqb (pe_instrument_id pending) instrument_id
     | None => false end && other
  then set_state o (update_pending (set_pending_book update) (owner_state o)) else o.

(** ** The configured contract *)

(** *** An entry fill

    What [materialize_position_from_event] makes of the exposure while an entry is
    pending, by what the node's cache holds: a position the strategy supports, one it does
    not, one it cannot account for (of another venue, or behind a cache error), or no
    position. *)
Inductive FillMaterialization : Type :=
| FillSupported m (keep_entry_remainder : bool) (unlineaged_reason : BlindRecoveryReason)
| FillUnsupported (unsupported : UnsupportedObservedState) (keep_entry_remainder : bool)
    (unlineaged_reason : BlindRecoveryReason)
| FillQuarantined (reason : BlindRecoveryReason)
| FillAbsent.

Definition fill_materialize o (fill : FillMaterialization) : ExposureOwner :=
  match fill with
  | FillSupported m keep reason => (owner_materialize o m keep reason).2
  | FillUnsupported unsupported keep reason => set_unsupported_observed o unsupported keep reason
  | FillQuarantined reason => enter_blind_recovery o reason
  | FillAbsent => o
  end.

(** [handle_order_filled] for the pending entry's order when no remainder of it is held:
    unless the strategy now manages the filled position, or recovers blindly, the entry
    read before the materialization is put to reconciliation.  [projected]: the node's
    cache shows the managed position. *)
Definition entry_fill o (client_order_id : ClientOrderId) (instrument_id : InstrumentId)
    (position_id : option PositionId) (fill : FillMaterialization) (projected : bool)
    (reason : EntryReconcileReason) (invalid : BlindRecoveryReason) : ExposureOwner :=
  match pending_entry (owner_state o), entry_remainder (owner_state o) with
  | Some pending, None =>
      if negb (client_order_eqb (pe_client_order_id pending) client_order_id) then o
      else
        let filled := fill_materialize o fill in
        let managed :=
          projected && match managed_position_context (owner_state filled), position_id with
                       | Some m, Some position_id => position_eqb (mp_position_id m) position_id
                       | _, _ => false
                       end in
        if managed || is_blind_recovery filled then filled
        else if instrument_eqb (pe_instrument_id pending) instrument_id
             then enter_entry_reconcile filled pending reason
             else enter_blind_recovery filled invalid
  | _, _ => o
  end.

Record ConfiguredPositionContract : Type := mkConfiguredContract {
  cc_entry_order_side : OrderSide;
  cc_entry_position_side : PositionSide;
  cc_exit_order_side : OrderSide;
  cc_exit_position_side : PositionSide;
}.

Definition supports_strategy_position_contract (c : ConfiguredPositionContract) : bool :=
  if bool_decide (cc_entry_position_side c = PositionShort) || bool_decide (cc_exit_position_side c = PositionShort)
  then false
  else bool_decide (expected_position_side_for_entry_order (cc_entry_order_side c) = Some (cc_entry_position_side c))
       && bool_decide (expected_exit_order_side_for_position (cc_exit_position_side c) = Some (cc_exit_order_side c))
       && bool_decide (cc_entry_position_side c = cc_exit_position_side c)
       && is_observed_open_side (cc_entry_position_side c).

Definition supports_strategy_managed_position (entry_order_side : OrderSide) (side : PositionSide)
    (c : ConfiguredPositionContract) : bool :=
  supports_strategy_position_contract c
  && bool_decide (entry_order_side = cc_entry_order_side c)
  && bool_decide (side = cc_entry_position_side c)
  && is_observed_open_side side.

Definition infer_strategy_position_side_from_entry_fill (entry_order_side configured_entry_order_side : OrderSide)
    (configured_position_side : PositionSide) : option PositionSide :=
  if bool_decide (entry_order_side = configured_entry_order_side) then Some configured_position_side else None.

Definition managed_position_effective_entry_cost (position : OpenPositionState)
    (configured_entry_order_side : OrderSide) (configured_position_side : PositionSide) : option f64 :=
  opt_filter is_positive_finite
    (if bool_decide (op_entry_order_side position = configured_entry_order_side)
        && bool_decide (op_side position = configured_position_side)
     then Some (op_avg_px_open position) else None).

End Exposure.

Arguments ExposureState {_} Venue Book.
Arguments ExposureOwner {_} Venue Book.
Arguments OpenPositionState {_} Book.
Arguments ManagedPositionContext {_} Book.
Arguments PendingEntryState {_} Book.
Arguments ExitPendingState {_} Book.
Arguments UnsupportedObservedState {_} Book.
Arguments EntryTerminalPositionTruth {_} Book.
Arguments BlindRecoveryReason {_} Venue.
