(* ===== verification/TakerExposureFacts.v ===== *)
(** * The exposure of the edge taker: one position, released by truth only

    The histories of an [ExposureOwner]: any interleaving of its operations, as the
    strategy calls them.  An occupied exposure becomes flat only by a report that names
    what it holds; the position and the entry order it tracks are never exchanged for
    others; an arm or an attempt is settled by its own capability only; and blind
    recovery is left by a start that finds no open position alone. *)

From Stdlib Require Import ZArith Lia.
From stdpp Require Import sorting strings gmap numbers list.
From S2P Require Import Prelude.
From S2P Require Import RustText.
From S2P Require Import BTree.
From S2P Require Import NtTypes.
From S2P Require Import F64.
From S2P Require Import PositionContract.
From S2P Require Import TakerExposure.

Open Scope Z_scope.

Section Facts.
Context `{NT : NtTypes} {Venue Book : Type}.

Implicit Types (st : ExposureState Venue Book) (o : ExposureOwner Venue Book) (m : ManagedPositionContext Book).

Lemma position_eqb_eq a b : position_eqb a b = true ↔ a = b.
Proof. unfold position_eqb. rewrite <-(cmp_eq a b). by destruct (ord_cmp a b). Qed.

Lemma instrument_eqb_eq a b : instrument_eqb a b = true ↔ a = b.
Proof. unfold instrument_eqb. rewrite <-(cmp_eq a b). by destruct (ord_cmp a b). Qed.

Lemma client_order_eqb_eq a b : client_order_eqb a b = true ↔ a = b.
Proof. unfold client_order_eqb. rewrite <-(cmp_eq a b). by destruct (ord_cmp a b). Qed.

(** ** Identities *)

(** Two contexts of one position. *)
Definition same_position m (p : ManagedPositionContext Book) : Prop :=
  mp_position_id m = mp_position_id p ∧ mp_instrument_id m = mp_instrument_id p.

Lemma is_position_iff m pid iid : is_position m pid iid = true ↔ mp_position_id m = pid ∧ mp_instrument_id m = iid.
Proof. unfold is_position. by rewrite andb_true_iff, position_eqb_eq, instrument_eqb_eq. Qed.

Lemma authority_is_iff a pid iid :
  authority_is a pid iid = true ↔ authority_position_id a = pid ∧ authority_instrument_id a = iid.
Proof. unfold authority_is. by rewrite andb_true_iff, position_eqb_eq, instrument_eqb_eq. Qed.

Lemma position_matches_iff (r : EntryRemainderState (Book := Book)) pid iid :
  position_matches r pid iid = true ↔
  match tracked_position_context (EntryRemainder (Venue := Venue) r) with
  | Some p => mp_position_id p = pid ∧ mp_instrument_id p = iid
  | None => pe_instrument_id (er_pending_entry r) = iid
  end.
Proof.
  unfold position_matches, tracked_position_context.
  destruct (er_position r); [apply is_position_iff..|apply instrument_eqb_eq].
Qed.

(** An exit is for the position it carries. *)
Definition exit_for (e : ExitPendingState Book) : Prop :=
  px_position_id (ep_pending_exit e) = Some (authority_position_id (ep_authority e)) ∧
  ∃ p, ep_position e = Some p ∧ mp_position_id p = authority_position_id (ep_authority e) ∧
       mp_instrument_id p = authority_instrument_id (ep_authority e).

(** The generations: an arm or an attempt in the state is the last one issued; every exit
    is for the position it carries. *)
Definition owner_ok o : Prop :=
  0 ≤ next_entry_generation o ≤ u64_max ∧ 0 ≤ next_exit_generation o ≤ u64_max ∧
  (∀ arm, owner_state o = PendingEntry arm → arm_generation arm = next_entry_generation o) ∧
  (∀ a, owner_state o = ExitAttempting a → ea_generation a = next_exit_generation o) ∧
  (∀ e, exit_pending_snapshot (owner_state o) = Some e → exit_for e).

(** ** The operations *)

Inductive exposure_op : Type :=
| OpArm (pending : PendingEntryState Book)
| OpSettleArm (capability : EntryArmCapability) (settlement : EntryArmSettlement)
| OpEntryReconcile (pending : PendingEntryState Book) (reason : EntryReconcileReason)
| OpReclassify (reason : EntryReconcileReason)
| OpBlind (reason : BlindRecoveryReason Venue)
| OpEntryTerminal (client_order_id : ClientOrderId) (truth : EntryTerminalPositionTruth Book)
| OpMaterialize (m : ManagedPositionContext Book) (keep : bool) (reason : BlindRecoveryReason Venue)
| OpUnsupported (u : UnsupportedObservedState Book) (keep : bool) (reason : BlindRecoveryReason Venue)
| OpPositionClosed (position_id : PositionId) (instrument_id : InstrumentId)
| OpRequestCancellation
| OpSettleCancellation (token : EntryCancellationToken) (settlement : EntryCancellationSettlement)
| OpCancelRejected (client_order_id : ClientOrderId)
| OpBeginExit (pending_exit : PendingExitState) (authority : ExitAuthority)
| OpSettleExit (capability : ExitAttemptCapability) (settlement : ExitAttemptSettlement)
| OpExitWorking (exit : ExitPendingState Book)
| OpExitTerminal (exit : ExitPendingState Book)
| OpExitResidual (m : ManagedPositionContext Book)
| OpExitFlat
| OpSettlement
| OpSyncActive (active : ActiveMarket (Book := Book))
| OpBooks (active : ActiveMarket (Book := Book)) (observed : option InstrumentId) (instrument_id : InstrumentId)
    (update : Book → Book)
| OpEntryFill (client_order_id : ClientOrderId) (instrument_id : InstrumentId) (position_id : option PositionId)
    (fill : FillMaterialization (Venue := Venue) (Book := Book)) (projected : bool) (reason : EntryReconcileReason)
    (invalid : BlindRecoveryReason Venue).

Definition exposure_apply (op : exposure_op) o : ExposureOwner Venue Book :=
  match op with
  | OpArm pending => (arm_entry o pending).2
  | OpSettleArm capability settlement => settle_entry_arm o capability settlement
  | OpEntryReconcile pending reason => enter_entry_reconcile o pending reason
  | OpReclassify reason => (reclassify_pending_entry o reason).2
  | OpBlind reason => enter_blind_recovery o reason
  | OpEntryTerminal id truth => (observe_entry_terminal o id truth).2
  | OpMaterialize m keep reason => (owner_materialize o m keep reason).2
  | OpUnsupported u keep reason => set_unsupported_observed o u keep reason
  | OpPositionClosed pid iid => (observe_position_closed o pid iid).2
  | OpRequestCancellation => (request_entry_remainder_cancellation o).2
  | OpSettleCancellation token settlement => settle_entry_cancellation o token settlement
  | OpCancelRejected id => observe_cancel_rejected o id
  | OpBeginExit pending_exit authority => (begin_exit o pending_exit authority).2
  | OpSettleExit capability settlement => settle_exit_attempt o capability settlement
  | OpExitWorking exit => observe_exit_working o exit
  | OpExitTerminal exit => observe_exit_terminal o exit
  | OpExitResidual m => observe_exit_residual o m
  | OpExitFlat => observe_exit_flat o
  | OpSettlement => (observe_settlement o).2
  | OpSyncActive active => sync_exposure_context_from_active o active
  | OpBooks active observed iid update => update_exposure_books o active observed iid update
  | OpEntryFill id iid pid fill projected reason invalid => entry_fill o id iid pid fill projected reason invalid
  end.

(** What the strategy passes: the entry and the exit it read back from the exposure, an exit
    order of the managed position, and a residual of the position the exit was for.  The
    one handler that passes an entry read before it changed the exposure is
    [OpEntryFill]. *)
Definition op_allowed o (op : exposure_op) : Prop :=
  match op with
  | OpEntryReconcile pending _ => pending_entry (owner_state o) = Some pending
  | OpBeginExit pending_exit authority => ∀ m, owner_state o = Managed m →
      px_position_id pending_exit = Some (mp_position_id m) ∧
      authority_position_id authority = mp_position_id m ∧ authority_instrument_id authority = mp_instrument_id m
  | OpExitWorking exit | OpExitTerminal exit => exit_pending_snapshot (owner_state o) = Some exit
  | OpExitResidual m => ∃ exit, exit_pending_snapshot (owner_state o) = Some exit ∧
      px_position_id (ep_pending_exit exit) = Some (mp_position_id m) ∧
      ∀ p, ep_position exit = Some p → mp_position_id p = mp_position_id m → mp_instrument_id p = mp_instrument_id m
  | _ => True
  end.

(** The histories, with the starts of the strategy that find no open position. *)
Inductive exposure_reachable : ExposureOwner Venue Book → Prop :=
| xreachable_new : exposure_reachable owner_new
| xreachable_step o op :
    exposure_reachable o → op_allowed o op → exposure_reachable (exposure_apply op o)
| xreachable_start o : exposure_reachable o → exposure_reachable (observe_clean_start o).

(** ** The invariant *)

Lemma set_state_ok o st :
  owner_ok o →
  (∀ arm, st = PendingEntry arm → owner_state o = PendingEntry arm) →
  (∀ a, st = ExitAttempting a → ∃ b, owner_state o = ExitAttempting b ∧ ea_generation a = ea_generation b) →
  (∀ e, exit_pending_snapshot st = Some e → exit_for e) →
  owner_ok (set_state o st).
Proof.
  intros (Hn & Hx & Ha & He & Hs) H1 H2 H3. split_and!; cbn; try done; try apply Hn; try apply Hx.
  - intros arm Harm. by apply Ha, H1.
  - intros a Haa. destruct (H2 a Haa) as (b & Hb & ->). by apply He.
Qed.

(** A state that is neither an arm nor an exit needs nothing. *)
Lemma set_state_plain o st :
  owner_ok o → pending_entry_arm (set_state o st) = None → exit_pending_snapshot st = None →
  owner_ok (set_state o st).
Proof.
  intros Ho Harm Hs. apply set_state_ok; [done|..].
  - intros arm ->. by cbn in Harm.
  - intros a ->. by cbn in Hs.
  - intros e He. by rewrite He in Hs.
Qed.

Lemma set_state_same o : set_state o (owner_state o) = o.
Proof. by destruct o. Qed.
(** Most operations leave the state alone or leave a state that is neither. *)
Definition calm st st' : Prop :=
  st' = st ∨ (∀ arm, st' ≠ PendingEntry arm) ∧ exit_pending_snapshot st' = None.

Lemma calm_ok o st : owner_ok o → calm (owner_state o) st → owner_ok (set_state o st).
Proof.
  intros Ho [->|[Harm Hs]]; [by rewrite set_state_same|]. apply set_state_plain; [done| |done].
  cbn. destruct st; try done. by destruct (Harm arm).
Qed.

Ltac calm_solve := repeat case_match; simplify_eq/=; first [by left|right; split; [done|reflexivity]].

Lemma release_calm o observation :
  calm (owner_state o) (owner_state (reduce_release o observation).2).
Proof.
  unfold reduce_release. destruct observation as [c|id truth|pid iid| | |id].
  - cbn. destruct (owner_state o); calm_solve.
  - unfold resolve_entry_terminal, resolve_unmaterialized_entry_terminal, resolve_remainder.
    destruct (owner_state o); cbn; try calm_solve; destruct truth; calm_solve.
  - unfold reduce_position_closed, entry_cancellation_effect. destruct (owner_state o); cbn; calm_solve.
  - destruct (owner_state o); cbn; calm_solve.
  - unfold entry_cancellation_effect. destruct (owner_state o); cbn; calm_solve.
  - cbn. unfold cancel_rejected. destruct (owner_state o); calm_solve.
Qed.

Lemma release_set_state o observation :
  (reduce_release o observation).2 = set_state o (owner_state (reduce_release o observation).2).
Proof. unfold reduce_release. by case_match. Qed.

Lemma release_ok o observation : owner_ok o → owner_ok (reduce_release o observation).2.
Proof. intros Ho. rewrite release_set_state. apply calm_ok; [done|apply release_calm]. Qed.

Lemma unsupported_calm st u keep reason : calm st (unsupported_next st u keep reason).
Proof. unfold unsupported_next. destruct st; calm_solve. Qed.

Lemma request_calm st : calm st (request_cancellation st).2.
Proof. unfold request_cancellation, entry_cancellation_effect. destruct st; calm_solve. Qed.

Lemma settle_cancellation_calm st token settlement : calm st (settle_cancellation st token settlement).
Proof. unfold settle_cancellation. destruct st, settlement; calm_solve. Qed.

Lemma materialize_ok o m keep reason :
  owner_ok o → owner_ok (owner_materialize o m keep reason).2.
Proof.
  intros Ho. unfold owner_materialize.
  destruct (materialize_supported_position (owner_state o) m keep reason) as [b next] eqn:Hm.
  change (owner_ok (set_state o next)). destruct Ho as (Hn & Hx & Ha & He & Hs).
  assert (owner_ok o) as Ho by done. unfold materialize_supported_position in Hm.
  destruct (owner_state o) as [| | | | |a|e|e| |] eqn:Hst;
    try (apply calm_ok; [done|rewrite Hst; unfold materialize_entry in Hm; calm_solve]).
  all: case_match eqn:Hau; injection Hm as <- <-; [apply set_state_ok|apply calm_ok; [done|right; split; done]]; try done.
  all: try (intros ? [= <-]; rewrite Hst; eauto; fail).
  all: apply authority_is_iff in Hau as [Hp Hi]; intros x [= <-]; destruct (Hs _ eq_refl) as [Hpx _];
    split; [exact Hpx|]; exists m; done.
Qed.

(** Writes that keep the identifiers. *)
Lemma update_tracked_ok f o :
  (∀ m, same_position (f m) m) → owner_ok o → owner_ok (set_state o (update_tracked f (owner_state o))).
Proof.
  intros Hf Ho. pose proof Ho as (_ & _ & Ha & He & Hs). apply set_state_ok; [done|..].
  - intros arm. by destruct (owner_state o).
  - intros a. destruct (owner_state o) as [| | | | |b| | | |]; try done. intros [= <-]. by exists b.
  - intros e. destruct (owner_state o) as [| | | | |b|x|x| |]; try done; intros [= <-]; cbn in *;
      [destruct (Hs _ eq_refl) as (Hpx & p & Hp & Hid & Hi) .. ]; cbn in *;
      (split; [exact Hpx|]); cbn; rewrite ?Hp; exists (f p); destruct (Hf p) as [Hfp Hfi];
      (split_and!; [|congruence..]); [by injection Hp as ->|done..].
Qed.

Lemma update_pending_ok f o : owner_ok o → owner_ok (set_state o (update_pending f (owner_state o))).
Proof.
  intros (Hn & Hx & Ha & He & Hs). destruct (owner_state o) as [|arm| | | | | | | |] eqn:Hst;
    split_and!; cbn; try done; try lia.
  intros ? [= <-]. by apply (Ha arm).
Qed.

(** What the market data writes. *)
Lemma sync_updates active o : ∃ f, (∀ m, same_position (f m) m) ∧
  sync_exposure_context_from_active o active = set_state o (update_tracked f (owner_state o)).
Proof.
  eexists. split; [|reflexivity]. intros m. unfold learn_from_active. by repeat case_match.
Qed.

Lemma books_update active observed iid update o : ∃ f,
  (∀ m, same_position (f m) m) ∧
  let o1 := set_state o (update_tracked f (owner_state o)) in
  update_exposure_books o active observed iid update = o1 ∨
  update_exposure_books o active observed iid update =
    set_state o1 (update_pending (set_pending_book update) (owner_state o1)).
Proof.
  unfold update_exposure_books.
  assert (Hid : o = set_state o (update_tracked id (owner_state o))).
  { destruct o as [st ne nx]. unfold set_state. cbn. f_equal.
    destruct st as [| | |[? [|[]|] ?]|[]|[]|[[]]|[[]]|[[]]|]; done. }
  destruct (active_is observed iid && _).
  - exists (λ m, set_managed_market (mp_lifecycle m) (update (mp_book m)) m). split; [done|]. cbn.
    case_match; [by right|by left].
  - exists id. split; [done|]. rewrite <-Hid. case_match; [by right|by left].
Qed.

(** A fill of the pending entry ends in one of: nothing done, one materialization, or the
    pending entry's reconciliation, or blind recovery. *)
Lemma entry_fill_cases o id iid pid fill projected reason invalid :
  let o' := entry_fill o id iid pid fill projected reason invalid in
  o' = o ∨ (o' = fill_materialize o fill ∧ pending_entry (owner_state o) ≠ None) ∨
  (∃ pending, pending_entry (owner_state o) = Some pending ∧
     o' = enter_entry_reconcile (fill_materialize o fill) pending reason) ∨
  (o' = enter_blind_recovery (fill_materialize o fill) invalid ∧ pending_entry (owner_state o) ≠ None).
Proof.
  cbv zeta. unfold entry_fill. destruct (pending_entry (owner_state o)) as [e|]; [|by left].
  destruct (entry_remainder (owner_state o)); [by left|]. destruct (negb _); [by left|].
  destruct (_ || _); [by right; left|]. destruct (instrument_eqb _ _); [|by right; right; right].
  right; right; left. by exists e.
Qed.

Lemma fill_materialize_ok o fill : owner_ok o → owner_ok (fill_materialize o fill).
Proof.
  intros Ho. destruct fill as [m keep r|u keep r|r|]; cbn [fill_materialize]; [|apply calm_ok; [done|apply unsupported_calm]| |done].
  - by apply materialize_ok.
  - by apply set_state_plain.
Qed.

Lemma entry_fill_ok o id iid pid fill projected reason invalid :
  owner_ok o → owner_ok (entry_fill o id iid pid fill projected reason invalid).
Proof.
  intros Ho. pose proof (fill_materialize_ok o fill Ho) as Hf.
  destruct (entry_fill_cases o id iid pid fill projected reason invalid)
    as [->|[[-> _]|[(pending & _ & ->)|[-> _]]]]; try done; by apply set_state_plain.
Qed.

Lemma apply_ok o op : owner_ok o → op_allowed o op → owner_ok (exposure_apply op o).
Proof.
  intros Ho Hal. destruct op as [pending|c [|]|pending reason|reason|reason|id truth|m keep reason|u keep reason
    |pid iid| |token settlement|id|pending_exit authority|c settlement|exit|exit|m| |
    |active|active observed iid' update|fid fiid fpid fill projected freason invalid]; cbn [exposure_apply].
  - unfold arm_entry. destruct (occupancy (owner_state o)); [done|].
    destruct (u64_checked_add (next_entry_generation o) 1) as [g|] eqn:Hg; [|done].
    apply u64_checked_add_Some in Hg as [-> Hg]. destruct Ho as (Hn & Hx & Ha & He & Hs).
    split_and!; cbn; try done; try lia. intros arm [= <-]. done.
  - done.
  - by apply release_ok.
  - apply set_state_plain; done.
  - unfold reclassify_pending_entry. destruct (owner_state o); try done. by apply set_state_plain.
  - by apply set_state_plain.
  - unfold observe_entry_terminal. pose proof (release_ok o (EntryTerminal id truth) Ho) as H.
    by destruct (reduce_release o (EntryTerminal id truth)).
  - by apply materialize_ok.
  - apply calm_ok; [done|apply unsupported_calm].
  - unfold observe_position_closed. pose proof (release_ok o (PositionClosed pid iid) Ho) as H.
    by destruct (reduce_release o (PositionClosed pid iid)).
  - unfold request_entry_remainder_cancellation. pose proof (request_calm (owner_state o)) as H.
    destruct (request_cancellation (owner_state o)) as [e next]. by apply calm_ok.
  - apply calm_ok; [done|apply settle_cancellation_calm].
  - by apply release_ok.
  - unfold begin_exit. cbn [op_allowed] in Hal.
    destruct (owner_state o) as [| | | |managed| | | | |] eqn:Hst; try done.
    destruct (u64_checked_add (next_exit_generation o) 1) as [g|] eqn:Hg; [|done].
    apply u64_checked_add_Some in Hg as [-> Hg]. destruct (Hal managed eq_refl) as (Hpx & Hap & Hai).
    destruct Ho as (Hn & Hx & Ha & He & Hs). split_and!; cbn; try done; try lia.
    + by intros a [= <-].
    + intros e [= <-]. split; cbn; [by rewrite Hap|]. by exists managed.
  - unfold settle_exit_attempt. destruct (owner_state o) as [| | | | |a| | | |] eqn:Hst; try done.
    case_match; [|done]. destruct settlement; [apply set_state_ok; try done|by apply set_state_plain].
    intros e [= <-]. destruct Ho as (_ & _ & _ & _ & Hs). apply (Hs (attempt_snapshot a)). by rewrite Hst.
  - apply set_state_ok; try done. intros e [= <-]. destruct Ho as (_ & _ & _ & _ & Hs). by apply Hs.
  - apply set_state_ok; try done. intros e [= <-]. destruct Ho as (_ & _ & _ & _ & Hs). by apply Hs.
  - by apply set_state_plain.
  - by apply release_ok.
  - unfold observe_settlement. pose proof (release_ok o Settlement Ho) as H. by destruct (reduce_release o Settlement).
  - destruct (sync_updates active o) as (f & Hf & ->). by apply update_tracked_ok.
  - destruct (books_update active observed iid' update o) as (f & Hf & [->| ->]); [by apply update_tracked_ok|].
    by apply update_pending_ok, update_tracked_ok.
  - by apply entry_fill_ok.
Qed.

Lemma exposure_reachable_ok o : exposure_reachable o → owner_ok o.
Proof.
  induction 1 as [|o op _ IH Hal|o _ IH]; [|by apply apply_ok|by apply set_state_plain].
  split_and!; cbn; try done; unfold u64_max; lia.
Qed.
(** ** Lineage *)

(** The same entry order: only its book may differ. *)
Definition same_entry (e e' : PendingEntryState Book) : Prop := e = set_pending_book (λ _, pe_book e) e'.

Lemma same_entry_refl e : same_entry e e.
Proof. by destruct e. Qed.
#[local] Hint Resolve same_entry_refl : core.

(** The position of [st'] is the one of [st], or the first one of its entry order; its
    entry order is the one of [st]. *)
Definition lineage st st' : Prop :=
  (∀ q, tracked_position_context st' = Some q →
     match tracked_position_context st with
     | Some p => same_position q p
     | None => ∃ e, pending_entry st = Some e ∧ pe_instrument_id e = mp_instrument_id q
     end) ∧
  (∀ e, pending_entry st' = Some e → ∃ e', pending_entry st = Some e' ∧ same_entry e e').

Lemma lineage_refl st : lineage st st.
Proof.
  split; [|intros e He; exists e; auto]. intros q Hq. by rewrite Hq.
Qed.

Ltac ids := rewrite ?is_position_iff, ?authority_is_iff, ?position_matches_iff, ?instrument_eqb_eq,
  ?client_order_eqb_eq in *.
Ltac lineage_solve :=
  repeat case_match; simplify_eq/=; try apply lineage_refl; ids; simplify_eq/=;
  split; cbn; intros; simplify_eq/=; try done; rewrite ?position_matches_iff in *; simplify_eq/=;
  repeat case_match; simplify_eq/=; unfold same_position; destruct_and?; simplify_eq/=; eauto.

Lemma release_lineage o observation :
  lineage (owner_state o) (owner_state (reduce_release o observation).2).
Proof.
  unfold reduce_release. destruct observation as [c|id truth|pid iid| | |id].
  - cbn. destruct (owner_state o); lineage_solve.
  - unfold resolve_entry_terminal, resolve_unmaterialized_entry_terminal, resolve_remainder.
    destruct (owner_state o); cbn; try lineage_solve; destruct truth; lineage_solve.
  - unfold reduce_position_closed, entry_cancellation_effect. destruct (owner_state o); cbn; lineage_solve.
  - destruct (owner_state o); cbn; lineage_solve.
  - unfold entry_cancellation_effect. destruct (owner_state o); cbn; lineage_solve.
  - cbn. unfold cancel_rejected. destruct (owner_state o); lineage_solve.
Qed.
(** The managed position of an exit is its authority's. *)
Lemma exit_tracked o e :
  owner_ok o → exit_pending_snapshot (owner_state o) = Some e →
  ∃ p, tracked_position_context (owner_state o) = Some p ∧ ep_position e = Some p ∧
    mp_position_id p = authority_position_id (ep_authority e) ∧
    mp_instrument_id p = authority_instrument_id (ep_authority e) ∧
    px_position_id (ep_pending_exit e) = Some (mp_position_id p).
Proof.
  intros (_ & _ & _ & _ & Hs) He. destruct (Hs e He) as (Hpx & p & Hp & Hid & Hi). exists p.
  rewrite Hpx, Hid. split_and!; try done.
  by destruct (owner_state o); cbn in He |- *; simplify_eq.
Qed.

Lemma materialize_lineage o m keep reason :
  owner_ok o → lineage (owner_state o) (owner_state (owner_materialize o m keep reason).2).
Proof.
  intros Ho. unfold owner_materialize, materialize_supported_position, materialize_entry.
  pose proof (exit_tracked o) as He.
  destruct (owner_state o) as [| | | | |a|e|e| |]; cbn; try (solve [lineage_solve]).
  all: [> destruct (He (attempt_snapshot a) Ho eq_refl) as (p & Hp & _ & Hid & Hi & _)
        | destruct (He e Ho eq_refl) as (p & Hp & _ & Hid & Hi & _)
        | destruct (He e Ho eq_refl) as (p & Hp & _ & Hid & Hi & _) ]; cbn in Hp, Hid, Hi.
  all: destruct (authority_is _ _ _) eqn:Hau; cbn; [|split; done].
  all: ids; destruct Hau as [Hap Hai]; split; cbn; [|done].
  all: intros q [= <-]; rewrite ?Hp; simplify_eq; split; congruence.
Qed.

Lemma unsupported_lineage st u keep reason : lineage st (unsupported_next st u keep reason).
Proof. unfold unsupported_next. destruct st; lineage_solve. Qed.

Lemma request_lineage st : lineage st (request_cancellation st).2.
Proof. unfold request_cancellation, entry_cancellation_effect. destruct st; lineage_solve. Qed.

Lemma settle_cancellation_lineage st token settlement : lineage st (settle_cancellation st token settlement).
Proof. unfold settle_cancellation. destruct st, settlement; lineage_solve. Qed.

Lemma update_tracked_context f st : tracked_position_context (update_tracked f st) = f <$> tracked_position_context st.
Proof. by destruct st as [| | |[? [|[]|] ?]|[]|[]|[[]]|[[]]|[[]]|]. Qed.

Lemma update_tracked_pending f st : pending_entry (update_tracked f st) = pending_entry st.
Proof. by destruct st. Qed.

Lemma update_pending_context f st : tracked_position_context (update_pending f st) = tracked_position_context st.
Proof. by destruct st. Qed.

Lemma update_pending_pending f st : pending_entry (update_pending f st) = f <$> pending_entry st.
Proof. by destruct st. Qed.

Lemma update_tracked_lineage f st : (∀ m, same_position (f m) m) → lineage st (update_tracked f st).
Proof.
  intros Hf. split.
  - intros q. rewrite update_tracked_context. destruct (tracked_position_context st) as [p|]; [|done]. by intros [= <-].
  - intros e. rewrite update_tracked_pending. eauto.
Qed.

Lemma update_pending_lineage update st st' :
  lineage st st' → lineage st (update_pending (set_pending_book update) st').
Proof.
  intros [Hp He]. split.
  - intros q. rewrite update_pending_context. apply Hp.
  - intros e. rewrite update_pending_pending. destruct (pending_entry st') as [e'|]; [|done]. intros [= <-].
    destruct (He e' eq_refl) as (e0 & ? & Heq). exists e0. split; [done|]. unfold same_entry in *. cbn. by rewrite Heq.
Qed.

(** A state is entered anew only by arming a flat exposure. *)
Lemma apply_lineage o op :
  owner_ok o → op_allowed o op → (∀ pending, op = OpArm pending → owner_state o ≠ Flat) →
  lineage (owner_state o) (owner_state (exposure_apply op o)).
Proof.
  intros Ho Hal Harm.
  destruct op as [pending|c [|]|pending reason|reason|reason|id truth|m keep reason|u keep reason
    |pid iid| |token settlement|id|pending_exit authority|c settlement|exit|exit|m| |
    |active|active observed iid' update|fid fiid fpid fill projected freason invalid]; cbn [exposure_apply].
  - unfold arm_entry. specialize (Harm _ eq_refl).
    destruct (owner_state o) eqn:Hst; try done; cbn [occupancy]; cbn; rewrite Hst; apply lineage_refl.
  - apply lineage_refl.
  - apply release_lineage.
  - cbn. cbn in Hal. split; cbn; [done|]. intros e [= <-]. eauto.
  - unfold reclassify_pending_entry. destruct (owner_state o) eqn:Hst; cbn; rewrite ?Hst; try apply lineage_refl.
    split; cbn; [done|]. intros e [= <-]. eauto.
  - split; done.
  - unfold observe_entry_terminal. pose proof (release_lineage o (EntryTerminal id truth)) as H.
    by destruct (reduce_release o (EntryTerminal id truth)).
  - by apply materialize_lineage.
  - apply unsupported_lineage.
  - unfold observe_position_closed. pose proof (release_lineage o (PositionClosed pid iid)) as H.
    by destruct (reduce_release o (PositionClosed pid iid)).
  - unfold request_entry_remainder_cancellation. pose proof (request_lineage (owner_state o)) as H.
    by destruct (request_cancellation (owner_state o)).
  - apply settle_cancellation_lineage.
  - apply release_lineage.
  - unfold begin_exit. destruct (owner_state o) eqn:Hst; cbn; rewrite ?Hst; try apply lineage_refl.
    case_match; cbn; [|rewrite Hst; apply lineage_refl]. split; cbn; [|done]. intros q [= <-]. done.
  - unfold settle_exit_attempt. destruct (owner_state o) eqn:Hst; rewrite ?Hst; try apply lineage_refl.
    case_match; [|rewrite Hst; apply lineage_refl].
    destruct settlement; (split; cbn; [|done]); intros q [= <-]; done.
  - destruct (exit_tracked o exit Ho Hal) as (p & Hp & Hep & _). split; cbn; [|done].
    intros q Hq. rewrite Hp. rewrite Hep in Hq. by injection Hq as <-.
  - destruct (exit_tracked o exit Ho Hal) as (p & Hp & Hep & _). split; cbn; [|done].
    intros q Hq. rewrite Hp. rewrite Hep in Hq. by injection Hq as <-.
  - destruct Hal as (exit & He & Hpx & Hi). destruct (exit_tracked o exit Ho He) as (p & Hp & Hep & _ & _ & Hpp).
    split; cbn; [|done]. intros q [= <-]. rewrite Hp. rewrite Hpx in Hpp. simplify_eq.
    split; [done|]. symmetry. by apply Hi.
  - apply release_lineage.
  - unfold observe_settlement. pose proof (release_lineage o Settlement) as H. by destruct (reduce_release o Settlement).
  - destruct (sync_updates active o) as (f & Hf & ->). by apply update_tracked_lineage.
  - destruct (books_update active observed iid' update o) as (f & Hf & [->| ->]); [by apply update_tracked_lineage|].
    by apply update_pending_lineage, update_tracked_lineage.
  - destruct (entry_fill_cases o fid fiid fpid fill projected freason invalid)
      as [->|[[-> _]|[(pending & He & ->)|[-> _]]]]; [apply lineage_refl| | |split; done].
    + destruct fill as [m keep r|u keep r|r|]; cbn [fill_materialize];
        [by apply materialize_lineage|apply unsupported_lineage|split; done|apply lineage_refl].
    + split; cbn; [done|]. intros e [= <-]. eauto.
Qed.

(** ** Release *)

(** The report [op] ends what the occupied exposure [o] holds: the abort of its own arm
    by the capability issued last, a terminal report of its entry order that leaves no
    position, the end of its position, of its exit, or its settlement. *)
Definition releases o (op : exposure_op) : Prop :=
  match op with
  | OpSettleArm capability ArmAbort => ∃ arm, owner_state o = PendingEntry arm ∧
      ec_generation capability = next_entry_generation o ∧
      ec_client_order_id capability = pe_client_order_id (arm_pending arm)
  | OpEntryTerminal id truth => ∃ e, pending_entry (owner_state o) = Some e ∧ pe_client_order_id e = id ∧
      (truth = TruthZeroFill ∧ tracked_position_context (owner_state o) = None ∨
       truth = TruthCanonicallyFlat ∧ is_Some (entry_remainder (owner_state o)))
  | OpPositionClosed pid iid => pending_entry (owner_state o) = None ∧
      ∃ p, tracked_position_context (owner_state o) = Some p ∧ mp_position_id p = pid ∧ mp_instrument_id p = iid
  | OpExitFlat => is_Some (exit_pending_snapshot (owner_state o))
  | OpSettlement => pending_entry (owner_state o) = None ∧ is_Some (tracked_position_context (owner_state o))
  | _ => False
  end.

Ltac flat_solve := repeat case_match; simplify_eq/=; try done; ids; destruct_and?; eauto 10.

Lemma release_flat o observation :
  owner_ok o → owner_state o ≠ Flat → owner_state (reduce_release o observation).2 = Flat →
  match observation with
  | EntryArmAborted capability => releases o (OpSettleArm capability ArmAbort)
  | EntryTerminal id truth => releases o (OpEntryTerminal id truth)
  | PositionClosed pid iid => releases o (OpPositionClosed pid iid)
  | ExitFlat => releases o OpExitFlat
  | Settlement => releases o OpSettlement
  | CancelRejected _ => False
  end.
Proof.
  intros (_ & _ & Ha & _ & _) Hst. unfold reduce_release, releases. destruct observation as [c|id truth|pid iid| | |id].
  - cbn. destruct (owner_state o) as [|arm| | | | | | | |]; try done. case_match eqn:Hc; [|done].
    apply andb_true_iff in Hc as [Hg Hid]. apply Z.eqb_eq in Hg. apply client_order_eqb_eq in Hid. intros _.
    exists arm. rewrite <-Hg, Hid. split_and!; [done|by apply Ha|done].
  - unfold resolve_entry_terminal, resolve_unmaterialized_entry_terminal, resolve_remainder.
    destruct (owner_state o) as [|arm|pending reason|r| | | | | |]; cbn; try done;
      destruct (client_order_eqb _ _) eqn:Hid; try done; apply client_order_eqb_eq in Hid;
      destruct truth; repeat case_match; simplify_eq/=; try done; intros _;
      eexists; split_and!; eauto; cbn in *; repeat case_match; simplify_eq/=; eauto.
  - unfold reduce_position_closed, entry_cancellation_effect. destruct (owner_state o); cbn; flat_solve.
  - destruct (owner_state o); cbn; try done; intros _; eauto.
  - unfold entry_cancellation_effect. destruct (owner_state o); cbn; flat_solve.
  - cbn. unfold cancel_rejected. destruct (owner_state o); flat_solve.
Qed.

(** No materialization frees the exposure. *)
Lemma fill_not_flat o fill : owner_state o ≠ Flat → owner_state (fill_materialize o fill) ≠ Flat.
Proof.
  intros Hst. destruct fill as [m keep r|u keep r|r|]; cbn [fill_materialize]; try done.
  - unfold owner_materialize, materialize_supported_position, materialize_entry.
    destruct (owner_state o); cbn; repeat case_match; simplify_eq/=; by intros.
  - unfold set_unsupported_observed, unsupported_next.
    destruct (owner_state o); cbn; repeat case_match; simplify_eq/=; by intros.
Qed.

Lemma apply_flat o op :
  owner_ok o → owner_state o ≠ Flat → owner_state (exposure_apply op o) = Flat → releases o op.
Proof.
  intros Ho Hst.
  destruct op as [pending|c [|]|pending reason|reason|reason|id truth|m keep reason|u keep reason
    |pid iid| |token settlement|id|pending_exit authority|c settlement|exit|exit|m| |
    |active|active observed iid' update|fid fiid fpid fill projected freason invalid]; cbn [exposure_apply];
    try discriminate.
  - unfold arm_entry. destruct (owner_state o) eqn:Hs; [done|by cbn; rewrite Hs..].
  - by intros.
  - apply (release_flat o (EntryArmAborted c) Ho Hst).
  - unfold reclassify_pending_entry. destruct (owner_state o) eqn:Hs; cbn; by rewrite ?Hs.
  - unfold observe_entry_terminal. pose proof (release_flat o (EntryTerminal id truth) Ho Hst) as H.
    by destruct (reduce_release o (EntryTerminal id truth)).
  - intros Hf. by destruct (fill_not_flat o (FillSupported m keep reason) Hst).
  - intros Hf. by destruct (fill_not_flat o (FillUnsupported u keep reason) Hst).
  - unfold observe_position_closed. pose proof (release_flat o (PositionClosed pid iid) Ho Hst) as H.
    by destruct (reduce_release o (PositionClosed pid iid)).
  - unfold request_entry_remainder_cancellation, request_cancellation, entry_cancellation_effect.
    destruct (owner_state o); cbn; repeat case_match; simplify_eq/=; by intros.
  - unfold settle_entry_cancellation, settle_cancellation.
    destruct (owner_state o), settlement; cbn; repeat case_match; simplify_eq/=; by intros.
  - apply (release_flat o (CancelRejected id) Ho Hst).
  - unfold begin_exit. destruct (owner_state o) eqn:Hs; cbn; try by rewrite Hs.
    destruct (u64_checked_add _ _); cbn; by rewrite ?Hs.
  - unfold settle_exit_attempt. destruct (owner_state o) as [| | | | |a| | | |] eqn:Hs; try by rewrite Hs.
    destruct (ea_generation a =? xc_generation c); [by destruct settlement|by rewrite Hs].
  - apply (release_flat o ExitFlat Ho Hst).
  - unfold observe_settlement. pose proof (release_flat o Settlement Ho Hst) as H. by destruct (reduce_release o Settlement).
  - destruct (sync_updates active o) as (f & _ & ->). by destruct (owner_state o).
  - destruct (books_update active observed iid' update o) as (f & _ & [->| ->]); by destruct (owner_state o).
  - intros Hf. exfalso. destruct (entry_fill_cases o fid fiid fpid fill projected freason invalid)
      as [E|[[E _]|[(pending & _ & E)|[E _]]]]; rewrite E in Hf; try done.
    by apply (fill_not_flat o fill).
Qed.

(** Blind recovery is left by no operation. *)
Lemma apply_blind o op reason :
  op_allowed o op → owner_state o = BlindRecovery reason →
  ∃ reason', owner_state (exposure_apply op o) = BlindRecovery reason'.
Proof.
  intros Hal Hst. destruct o as [st ne nx]. cbn in Hst. subst st.
  destruct op as [pending|c [|]|pending r|r|r|id truth|m keep r|u keep r
    |pid iid| |token []|id|pending_exit authority|c settlement|exit|exit|m| |
    |active|active observed iid' update|fid fiid fpid fill projected freason invalid]; cbn in *; eauto; try done.
  - by destruct Hal as (exit & ? & _).
  - unfold update_exposure_books. cbn. repeat case_match; simplify_eq/=; eauto.
Qed.

Lemma gate_open_iff o : entry_gate o = GateOpen ↔ owner_state o = Flat.
Proof. unfold entry_gate. destruct (owner_state o) as [| | |r| | | | | |]; try done. by destruct (er_position r). Qed.

(** A capability of an earlier generation settles nothing. *)
Lemma stale_arm o c settlement :
  owner_ok o → ec_generation c ≠ next_entry_generation o → settle_entry_arm o c settlement = o.
Proof.
  intros (_ & _ & Ha & _) Hne. destruct settlement; [done|]. cbn. unfold reduce_release.
  destruct o as [st ne nx]. cbn in *. destruct st as [|arm| | | | | | | |]; try done.
  rewrite (Ha arm eq_refl). destruct (Z.eqb_spec ne (ec_generation c)); [congruence|done].
Qed.

Lemma stale_exit o c settlement :
  owner_ok o → xc_generation c ≠ next_exit_generation o → settle_exit_attempt o c settlement = o.
Proof.
  intros (_ & _ & _ & He & _) Hne. unfold settle_exit_attempt. destruct (owner_state o) as [| | | | |a| | | |] eqn:Hst;
    try done. rewrite (He a eq_refl). by destruct (Z.eqb_spec (next_exit_generation o) (xc_generation c)).
Qed.


End Facts.

(** ** A history *)

Module ExposureDemo.
#[local] Instance nt : NtTypes := demo_nt.

Definition entry : PendingEntryState unit :=
  mkPendingEntry (lit "entry-1") (Some 5) lifecycle_missing (lit "up") tt.
Definition first_position : ManagedPositionContext unit := mkManaged lifecycle_missing (lit "up") (lit "position-1") tt.

(** Armed, partly filled, closed at the venue: the entry order is still to be cancelled. *)
Definition armed : ExposureOwner unit unit := exposure_apply (OpArm entry) owner_new.
Definition filled : ExposureOwner unit unit := exposure_apply (OpMaterialize first_position true CacheProbeFailed) armed.
Definition ended : exposure_op (Venue := unit) (Book := unit) :=
  OpPositionClosed (mp_position_id first_position) (mp_instrument_id first_position).
Definition closed : ExposureOwner unit unit := exposure_apply ended filled.

Example closed_keeps_entry :
  pending_entry (owner_state closed) = Some entry ∧ tracked_position_context (owner_state closed) = None ∧
  entry_gate closed = GateRecovering OccupancyEntryRemainder ∧
  owner_state (exposure_apply OpSettlement filled) = owner_state closed.
Proof. repeat split. Qed.

Lemma filled_reachable : exposure_reachable filled.
Proof.
  refine (xreachable_step armed (OpMaterialize first_position true CacheProbeFailed) _ I).
  exact (xreachable_step owner_new (OpArm entry) xreachable_new I).
Qed.

(** The first partial fill of a resting entry, seen in the cache: the remainder keeps the
    position, which is not the managed one, so the handler puts the entry to
    reconciliation and the position is tracked no more. *)
Definition first_fill : exposure_op (Venue := unit) (Book := unit) :=
  OpEntryFill (pe_client_order_id entry) (lit "up") (Some (mp_position_id first_position))
    (FillSupported first_position true CacheProbeFailed) true (UnsupportedEntryFillSide OrderBuy) CacheProbeFailed.

Example partial_fill_forgets_position :
  tracked_position_context (owner_state (exposure_apply (OpMaterialize first_position true CacheProbeFailed) armed)) =
    Some first_position ∧
  owner_state (exposure_apply first_fill armed) = EntryReconcilePending entry (UnsupportedEntryFillSide OrderBuy).
Proof. repeat split. Qed.

(** The entry order ends without another fill. *)
Definition unfilled : exposure_op (Venue := unit) (Book := unit) :=
  OpEntryTerminal (pe_client_order_id entry) TruthZeroFill.


Definition old_capability : EntryArmCapability := mkEntryCapability 7 (pe_client_order_id entry).

End ExposureDemo.
