(* ===== verification/MakerInventory.v ===== *)
(** * Inventory of the maker

    [src/src/bolt_v3_maker_inventory.rs]: the net position in units of YES, from confirmed
    fills ([MakerInventory]) and as the snapshot the admission reads, which adds the open
    and the inflight orders ([CompositeExposure]).  Both go through the one sign adapter
    [signed_net_yes]; the theorem below says that they therefore agree. *)

From Stdlib Require Import ZArith Lia SpecFloat.
From stdpp Require Import sorting strings gmap numbers list.
From S2P Require Import Prelude.
From S2P Require Import F64.
From S2P Require Import QuoteLifecycle.
From S2P Require Import QuoteControl.

Open Scope Z_scope.

Definition signed_net_yes (leg : Leg) (side : QuoteSide) (qty : f64) : option f64 :=
  if negb (is_positive_finite qty) then None
  else Some match leg, side with
            | LegYes, QuoteBuy | LegNo, QuoteSell => qty
            | LegYes, QuoteSell | LegNo, QuoteBuy => f64_neg qty
            end.

(** ** Confirmed fills *)

Record MakerInventory : Type := mkInventory { net_position : f64 }.

Definition inventory_flat : MakerInventory := mkInventory ZERO_F64.

Definition apply_fill (inventory : MakerInventory) (leg : Leg) (side : QuoteSide) (qty : f64)
    : bool * MakerInventory :=
  match signed_net_yes leg side qty with
  | None => (false, inventory)
  | Some signed =>
      let next_position := f64_add (net_position inventory) signed in
      if negb (is_finite next_position) then (false, inventory) else (true, mkInventory next_position)
  end.

(** ** The composite *)

Record ExposureLeg : Type := mkExposureLeg { xl_leg : Leg; xl_side : QuoteSide; xl_qty : f64 }.
Record CompositeExposure : Type := mkComposite { net_yes : f64 }.

(** The loop of [snapshot]. *)
Fixpoint fold_exposure (net : f64) (orders : list ExposureLeg) : option f64 :=
  match orders with
  | [] => Some net
  | order :: orders =>
      signed ← signed_net_yes (xl_leg order) (xl_side order) (xl_qty order);
      let net := f64_add net signed in
      if negb (is_finite net) then None else fold_exposure net orders
  end.

(** [CompositeExposure::snapshot]. *)
Definition composite_snapshot (filled_net_yes : f64) (open_orders inflight_orders : list ExposureLeg)
    : option CompositeExposure :=
  if negb (is_finite filled_net_yes) then None
  else mkComposite <$> fold_exposure filled_net_yes (open_orders ++ inflight_orders).

(** ** What they have in common *)

(** The inventory after a list of fills, if every one was taken. *)
Fixpoint fill_all (inventory : MakerInventory) (fills : list ExposureLeg) : option MakerInventory :=
  match fills with
  | [] => Some inventory
  | fill :: fills =>
      let '(taken, inventory) := apply_fill inventory (xl_leg fill) (xl_side fill) (xl_qty fill) in
      if taken then fill_all inventory fills else None
  end.

Lemma fold_exposure_fills net orders :
  fold_exposure net orders = net_position <$> fill_all (mkInventory net) orders.
Proof.
  revert net. induction orders as [|order orders IH]; intros net; [done|]. cbn. unfold apply_fill.
  destruct (signed_net_yes (xl_leg order) (xl_side order) (xl_qty order)) as [signed|]; [|done]. cbn.
  destruct (is_finite (f64_add net signed)); [apply IH|done].
Qed.

Lemma fold_exposure_app net l k : fold_exposure net (l ++ k) = (n ← fold_exposure net l; fold_exposure n k).
Proof.
  revert net. induction l as [|order l IH]; intros net; [done|]. cbn.
  destruct (signed_net_yes (xl_leg order) (xl_side order) (xl_qty order)) as [signed|]; [|done]. cbn.
  destruct (is_finite (f64_add net signed)); [apply IH|done].
Qed.

Lemma fold_exposure_finite net orders n : is_finite net = true → fold_exposure net orders = Some n → is_finite n = true.
Proof.
  revert net. induction orders as [|order orders IH]; intros net Hnet; [by intros [= <-]|]. cbn.
  destruct (signed_net_yes (xl_leg order) (xl_side order) (xl_qty order)) as [signed|]; [|done]. cbn.
  destruct (is_finite (f64_add net signed)) eqn:Hf; [by apply IH|done].
Qed.

(** The composite exposure is the inventory the maker would have if every open and
    inflight order were filled: it exists exactly when the position is finite and every
    one of these fills would be taken, and it is finite. *)
Lemma composite_is_filled_inventory filled open_orders inflight_orders :
  composite_snapshot filled open_orders inflight_orders =
  (if is_finite filled
   then mkComposite ∘ net_position <$> (fill_all (mkInventory filled) open_orders ≫= λ i, fill_all i inflight_orders)
   else None) ∧
  ∀ c, composite_snapshot filled open_orders inflight_orders = Some c → is_finite (net_yes c) = true.
Proof.
  unfold composite_snapshot. destruct (is_finite filled) eqn:Hf; cbn [negb]; [|done]. split.
  - rewrite fold_exposure_app, fold_exposure_fills. destruct (fill_all (mkInventory filled) open_orders) as [[n]|]; [|done].
    cbn. rewrite fold_exposure_fills. by destruct (fill_all (mkInventory n) inflight_orders).
  - intros c. destruct (fold_exposure filled (open_orders ++ inflight_orders)) as [n|] eqn:Hn; [|done].
    intros [= <-]. cbn. by eapply fold_exposure_finite.
Qed.

(** A refused fill leaves the inventory alone. *)
Lemma refused_fill_no_effect inventory leg side qty next :
  apply_fill inventory leg side qty = (false, next) → next = inventory.
Proof. unfold apply_fill. repeat case_match; congruence. Qed.
