(* ===== verification/Settlement.v ===== *)
(** * Settlement of binary markets

    [src/src/bolt_v3_binary_settlement.rs]: what the lots of a resolved market pay;
    [src/src/bolt_v3_binary_settlement_runtime.rs] and the settlement bindings of
    [src/src/bolt_v3_market_families/]: the payout from a reference close and a strike;
    [src/src/bolt_v3_settlement_booking.rs]: the decision to book a settlement, to report a
    booking error or to skip, and the recovery of what was booked before a restart from the
    facts of [src/src/bolt_v3_current_evidence/facts.rs].

    Doubles are [F64].  Texts of errors are the literals of the code. *)

From Stdlib Require Import ZArith Lia SpecFloat.
From stdpp Require Import sorting strings gmap numbers list.
From S2P Require Import Prelude.
From S2P Require Import RustText.
From S2P Require Import BTree.
From S2P Require Import NtTypes.
From S2P Require Import F64.
From S2P Require Import PositionContract.
From S2P Require Import QuoteLifecycle.
From S2P Require Import QuoteControl.
From S2P Require Import MakerInventory.

Open Scope Z_scope.

(** ** Binary settlement *)

Record BinarySettlementPayout : Type := mkPayout { payout_yes : f64; payout_no : f64 }.

Definition is_terminal_payout (value : f64) : bool := f64_eq value ZERO_F64 || f64_eq value UNIT_F64.

(** [BinarySettlementPayout::new]. *)
Definition payout_new (yes no : f64) : option BinarySettlementPayout :=
  if negb (is_terminal_payout yes) || negb (is_terminal_payout no) || f64_eq yes no then None
  else Some (mkPayout yes no).

Definition leg_payout (p : BinarySettlementPayout) (leg : Leg) : f64 :=
  match leg with LegYes => payout_yes p | LegNo => payout_no p end.

Record BinarySettlementLot : Type := mkLot {
  lot_leg : Leg;
  lot_side : QuoteSide;
  lot_quantity : f64;
  lot_entry_price : f64;
}.

Record BinarySettlementLotResult : Type := mkLotResult {
  lr_payout_per_share : f64;
  lr_terminal_value : f64;
  lr_entry_cashflow : f64;
  lr_realized_pnl : f64;
  lr_closed_quantity : f64;
  lr_closed_net_yes : f64;
}.

Record BinarySettlementResult : Type := mkSettlementResult {
  sr_terminal_value : f64;
  sr_entry_cashflow : f64;
  sr_realized_pnl : f64;
  sr_closed_quantity : f64;
  sr_closed_net_yes : f64;
}.

Definition result_flat : BinarySettlementResult := mkSettlementResult ZERO_F64 ZERO_F64 ZERO_F64 ZERO_F64 ZERO_F64.

Definition finite_only (value : f64) : option f64 := if is_finite value then Some value else None.
Definition checked_product (lhs rhs : f64) : option f64 := finite_only (f64_mul lhs rhs).
Definition finite_sum (lhs rhs : f64) : option f64 := finite_only (f64_add lhs rhs).
Definition finite_difference (lhs rhs : f64) : option f64 := finite_only (f64_sub lhs rhs).
Definition sanitize_quantity (value : f64) : option f64 := if is_positive_finite value then Some value else None.

Definition add_lot (r : BinarySettlementResult) (lot : BinarySettlementLotResult) : option BinarySettlementResult :=
  terminal_value ← finite_sum (sr_terminal_value r) (lr_terminal_value lot);
  entry_cashflow ← finite_sum (sr_entry_cashflow r) (lr_entry_cashflow lot);
  realized_pnl ← finite_sum (sr_realized_pnl r) (lr_realized_pnl lot);
  closed_quantity ← finite_sum (sr_closed_quantity r) (lr_closed_quantity lot);
  closed_net_yes ← finite_sum (sr_closed_net_yes r) (lr_closed_net_yes lot);
  Some (mkSettlementResult terminal_value entry_cashflow realized_pnl closed_quantity closed_net_yes).

Definition settle_binary_lot (payout : BinarySettlementPayout) (lot : BinarySettlementLot)
    : option BinarySettlementLotResult :=
  quantity ← sanitize_quantity (lot_quantity lot);
  entry_price ← sanitize_probability (lot_entry_price lot);
  let payout_per_share := leg_payout payout (lot_leg lot) in
  terminal_value ← checked_product quantity payout_per_share;
  entry_value ← checked_product quantity entry_price;
  let entry_cashflow := match lot_side lot with QuoteBuy => f64_neg entry_value | QuoteSell => entry_value end in
  realized_pnl ← match lot_side lot with
                 | QuoteBuy => finite_difference terminal_value entry_value
                 | QuoteSell => finite_difference entry_value terminal_value
                 end;
  closed_net_yes ← signed_net_yes (lot_leg lot) (lot_side lot) quantity;
  Some (mkLotResult payout_per_share terminal_value entry_cashflow realized_pnl quantity closed_net_yes).

(** The loop of [settle_binary_lots]. *)
Fixpoint settle_lots_from (payout : BinarySettlementPayout) (r : BinarySettlementResult)
    (lots : list BinarySettlementLot) : option BinarySettlementResult :=
  match lots with
  | [] => Some r
  | lot :: lots =>
      settled ← settle_binary_lot payout lot;
      r ← add_lot r settled;
      settle_lots_from payout r lots
  end.

Definition settle_binary_lots (payout : BinarySettlementPayout) (lots : list BinarySettlementLot)
    : option BinarySettlementResult :=
  settle_lots_from payout result_flat lots.

(** ** The payout of a market family *)

(** [updown::settlement_payout_from_reference_prices]: a close at the strike pays YES. *)
Definition updown_settlement_payout (close_price strike_price : f64) : option BinarySettlementPayout :=
  if negb (is_positive_finite close_price) || negb (is_positive_finite strike_price) then None
  else if f64_ge close_price strike_price then payout_new UNIT_F64 ZERO_F64 else payout_new ZERO_F64 UNIT_F64.

Definition unsupported_settlement_payout (close_price strike_price : f64) : option BinarySettlementPayout := None.

(** Of [VALIDATION_BINDINGS], the key and the settlement payout. *)
Definition settlement_bindings : list (text * (f64 → f64 → option BinarySettlementPayout)) :=
  [(lit "updown", updown_settlement_payout); (lit "outcome_group", unsupported_settlement_payout);
   (lit "static_binary_event", unsupported_settlement_payout);
   (lit "hyperliquid_instrument", unsupported_settlement_payout)].

(** [settlement_payout_from_reference_prices_for_family_with_bindings]. *)
Fixpoint family_settlement_payout (family_key : text) (close_price strike_price : f64)
    (bindings : list (text * (f64 → f64 → option BinarySettlementPayout))) : option BinarySettlementPayout :=
  match bindings with
  | [] => None
  | (key, payout) :: bindings =>
      if bool_decide (key = family_key) then payout close_price strike_price
      else family_settlement_payout family_key close_price strike_price bindings
  end.

Inductive BinaryRuntimeSettlementBlockReason : Type := ReferencePayoutUnavailable | LotSettlementFailed.

Record BinaryRuntimeSettlementDecision : Type := mkRuntimeDecision {
  rd_payout : option BinarySettlementPayout;
  rd_result : option BinarySettlementResult;
  rd_blocked_by : option BinaryRuntimeSettlementBlockReason;
}.

Definition settle_binary_runtime_reference_prices (family_key : text) (reference_close_price strike_price : f64)
    (lots : list BinarySettlementLot) : BinaryRuntimeSettlementDecision :=
  match family_settlement_payout family_key reference_close_price strike_price settlement_bindings with
  | None => mkRuntimeDecision None None (Some ReferencePayoutUnavailable)
  | Some payout =>
      match settle_binary_lots payout lots with
      | None => mkRuntimeDecision (Some payout) None (Some LotSettlementFailed)
      | Some result => mkRuntimeDecision (Some payout) (Some result) None
      end
  end.

(** ** The facts *)

Inductive SettlementBookingErrorReason : Type :=
| ResolutionFeedMissing
| SettlementAlreadyBooked
| SettlementInputInvalid
| SettlementBlocked.

Record SettlementFact : Type := mkSettlementFact {
  sf_strategy_id : text;
  sf_settlement_key : text;
  sf_market_id : text;
  sf_position_id : text;
  sf_instrument_id : text;
  sf_product_id : text;
  sf_outcome_side : OutcomeSide;
  sf_entry_order_side : OrderSide;
  sf_quantity : text;
  sf_entry_price : text;
  sf_family_key : text;
  sf_strike_price : text;
  sf_resolution_instrument_id : text;
  sf_resolution_ts_event_ns : Z;
  sf_reference_close_price : text;
  sf_payout_per_share : text;
  sf_terminal_value : text;
  sf_realized_pnl : text;
  sf_settlement_currency : text;
}.

Record SettlementBookingErrorFact : Type := mkBookingErrorFact {
  be_strategy_id : text;
  be_settlement_key : text;
  be_market_id : option text;
  be_position_id : option text;
  be_instrument_id : option text;
  be_resolution_instrument_id : option text;
  be_reason : SettlementBookingErrorReason;
  be_detail : text;
  be_observed_at_ns : Z;
}.

(** The lifecycle record a terminal settlement carries is left out. *)
Record TerminalSettlementFact : Type := mkTerminalFact {
  tf_settlement_key : text;
  tf_booking_error : SettlementBookingErrorFact;
}.

Inductive SettlementRecoveryEvent : Type :=
| EventSettlement (fact : SettlementFact)
| EventTerminalSettlement (fact : TerminalSettlementFact).

Definition event_key (e : SettlementRecoveryEvent) : text :=
  match e with
  | EventSettlement fact => sf_settlement_key fact
  | EventTerminalSettlement fact => tf_settlement_key fact
  end.

(** [RecoveredSettlementOutcome] has the constructors of the event, with the same facts. *)
Definition RecoveredSettlementOutcome : Type := SettlementRecoveryEvent.

Record SettlementRecoveryFacts : Type := mkSettlementRecovery {
  recovered_outcomes : BTreeMap text RecoveredSettlementOutcome;
}.

Record BookingRecoveryFacts : Type := mkBookingRecovery {
  recovered_booking_error_keys : gset text;
  recovered_terminal_keys : gset text;
}.

(** [SettlementRecoveryFacts::apply]. *)
Definition settlement_apply (facts : SettlementRecoveryFacts) (e : SettlementRecoveryEvent)
    : Result SettlementRecoveryFacts text :=
  match bt_get (recovered_outcomes facts) (event_key e) with
  | Some _ => Err (lit "duplicate or conflicting terminal settlement outcome for settlement_key `" ++
                   event_key e ++ lit "`")
  | None => Ok (mkSettlementRecovery (bt_insert (recovered_outcomes facts) (event_key e) e))
  end.

(** [BookingRecoveryFacts::apply]; only terminal settlements are booking events. *)
Definition booking_apply (facts : BookingRecoveryFacts) (e : SettlementRecoveryEvent) : BookingRecoveryFacts :=
  match e with
  | EventSettlement _ => facts
  | EventTerminalSettlement fact =>
      mkBookingRecovery ({[tf_settlement_key fact]} ∪ recovered_booking_error_keys facts)
        ({[tf_settlement_key fact]} ∪ recovered_terminal_keys facts)
  end.

(** The settlement projections of a log. *)
Fixpoint replay_settlements (settlement : SettlementRecoveryFacts) (booking : BookingRecoveryFacts)
    (log : list SettlementRecoveryEvent) : Result (SettlementRecoveryFacts * BookingRecoveryFacts) text :=
  match log with
  | [] => Ok (settlement, booking)
  | e :: log =>
      settlement ←? settlement_apply settlement e;
      replay_settlements settlement (booking_apply booking e) log
  end.

Definition recover_settlements (log : list SettlementRecoveryEvent)
    : Result (SettlementRecoveryFacts * BookingRecoveryFacts) text :=
  replay_settlements (mkSettlementRecovery []) (mkBookingRecovery ∅ ∅) log.

(** ** Booking *)

Record SettlementPositionKey : Type := mkPositionKey {
  pk_settlement_key : text;
  pk_position_id : text;
  pk_interval_end_ms : option Z;
}.

Inductive TerminalSettlementEligibilityReason : Type := MarketExpired.

Record TerminalSettlementEligibility : Type := mkEligibility {
  el_settlement_key : text;
  el_position_id : text;
  el_observed_at_ns : Z;
  el_reason : TerminalSettlementEligibilityReason;
}.

Definition terminal_settlement_eligibility (position : SettlementPositionKey) (observed_at_ns : Z)
    : Result TerminalSettlementEligibility text :=
  let observed_at_ms := observed_at_ns / NANOS_PER_MILLI_U64 in
  if match pk_interval_end_ms position with Some end_ms => end_ms <=? observed_at_ms | None => false end
  then Ok (mkEligibility (pk_settlement_key position) (pk_position_id position) observed_at_ns MarketExpired)
  else Err (lit "terminal settlement is ineligible for live-manageable or nonterminal position " ++
            pk_position_id position).

Record SettlementTerminalKeyDelta : Type := mkKeyDelta {
  kd_settlement_key : text;
  insert_booking_error_key : bool;
  insert_terminal_key : bool;
  remove_close_fetch_attempt : bool;
}.

Record SettlementBookingErrorTransition : Type := mkBookingErrorTransition {
  bt_eligibility : TerminalSettlementEligibility;
  bt_reason : SettlementBookingErrorReason;
  bt_detail : text;
  bt_key_delta : SettlementTerminalKeyDelta;
}.

(** [record_settlement_booking_error]. *)
Definition decide_settlement_booking_error (position : SettlementPositionKey) (reason : SettlementBookingErrorReason)
    (detail : text) (observed_at_ns : Z) (existing_booking_error_keys : gset text)
    : Result (option SettlementBookingErrorTransition) text :=
  if bool_decide (pk_settlement_key position ∈ existing_booking_error_keys) then Ok None
  else
    eligibility ←? terminal_settlement_eligibility position observed_at_ns;
    Ok (Some (mkBookingErrorTransition eligibility reason detail
                (mkKeyDelta (pk_settlement_key position) true true true))).

Inductive SettlementBookingSkipReason : Type := ResolutionTickMismatch | AlreadyTerminal.

Record ResolutionSettlementBooking : Type := mkBooking {
  bk_settlement_key : text;
  bk_lot : BinarySettlementLot;
  bk_payout_per_share : f64;
  bk_result : BinarySettlementResult;
  bk_key_delta : SettlementTerminalKeyDelta;
}.

Inductive ResolutionSettlementDecision : Type :=
| DecisionSkip (reason : SettlementBookingSkipReason)
| DecisionBookingError (reason : SettlementBookingErrorReason) (detail : text)
| DecisionBook (booking : ResolutionSettlementBooking).

(** [{:?}] of the block reason. *)
Definition debug_blocked_by (reason : option BinaryRuntimeSettlementBlockReason) : text :=
  match reason with
  | None => lit "None"
  | Some ReferencePayoutUnavailable => lit "Some(ReferencePayoutUnavailable)"
  | Some LotSettlementFailed => lit "Some(LotSettlementFailed)"
  end.

Section Booking.
Context {C : Type}.

(** What [SettlementCapability] offers: whether there is a sink, the recovered facts, the
    account and the currency. *)
Record SettlementCapability : Type := mkCapability {
  has_runtime_sink : bool;
  settlement_recovery : option SettlementRecoveryFacts;
  booking_recovery : option BookingRecoveryFacts;
  capability_account_id : option text;
  capability_currency : option C;
}.

Record ResolutionSettlementInput : Type := mkResolutionInput {
  ri_position : SettlementPositionKey;
  ri_resolution_ts_ns : Z;
  ri_family_key : text;
  ri_reference_close_price : f64;
  ri_strike_price : option f64;
  ri_lot : option BinarySettlementLot;
  ri_market_id_present : bool;
  ri_capability : option SettlementCapability;
}.

Definition input_invalid (detail : string) : ResolutionSettlementDecision :=
  DecisionBookingError SettlementInputInvalid (lit detail).

Definition try_book_resolution_settlement (input : ResolutionSettlementInput)
    (settled_position_keys booking_error_keys : gset text) : ResolutionSettlementDecision :=
  let resolution_ts_ms := ri_resolution_ts_ns input / NANOS_PER_MILLI_U64 in
  let key := pk_settlement_key (ri_position input) in
  match pk_interval_end_ms (ri_position input) with
  | None => input_invalid "settlement input missing interval end"
  | Some interval_end_ms =>
      if negb (interval_end_ms =? resolution_ts_ms) then DecisionSkip ResolutionTickMismatch
      else if bool_decide (key ∈ settled_position_keys) || bool_decide (key ∈ booking_error_keys)
      then DecisionSkip AlreadyTerminal
      else
        match ri_lot input with
        | None => input_invalid "settlement input missing outcome side"
        | Some lot =>
            match ri_strike_price input with
            | None => input_invalid "settlement input missing strike price"
            | Some strike_price =>
                let decision := settle_binary_runtime_reference_prices (ri_family_key input)
                                  (ri_reference_close_price input) strike_price [lot] in
                match rd_result decision with
                | None => DecisionBookingError SettlementBlocked
                            (lit "settlement blocked by " ++ debug_blocked_by (rd_blocked_by decision))
                | Some result =>
                    match rd_payout decision with
                    | None => DecisionBookingError SettlementBlocked (lit "settlement output missing payout")
                    | Some payout =>
                        match ri_capability input ≫= capability_currency with
                        | None => input_invalid "settlement input missing configured settlement currency"
                        | Some _ =>
                            if negb (ri_market_id_present input)
                            then input_invalid "settlement input missing market id"
                            else if match ri_capability input with
                                    | Some c => has_runtime_sink c && negb (is_some (capability_account_id c))
                                    | None => false
                                    end
                            then input_invalid "settlement input missing configured settlement account id"
                            else DecisionBook (mkBooking key lot (leg_payout payout (lot_leg lot)) result
                                                 (mkKeyDelta key false false true))
                        end
                    end
                end
            end
        end
  end.
End Booking.

(** ** Recovery *)

Record SettlementRecoveryDelta : Type := mkRecoveryDelta {
  rv_settled_position_keys : gset text;
  rv_terminal_settlement_keys : gset text;
  rv_settled_evidence : list SettlementFact;
  rv_terminal_evidence : list TerminalSettlementFact;
}.

Definition outcome_strategy_id (outcome : RecoveredSettlementOutcome) : text :=
  match outcome with
  | EventSettlement fact => sf_strategy_id fact
  | EventTerminalSettlement fact => be_strategy_id (tf_booking_error fact)
  end.

Definition as_settled (outcome : RecoveredSettlementOutcome) : option SettlementFact :=
  match outcome with EventSettlement fact => Some fact | _ => None end.
Definition as_terminal (outcome : RecoveredSettlementOutcome) : option TerminalSettlementFact :=
  match outcome with EventTerminalSettlement fact => Some fact | _ => None end.

Definition recover_settlement_facts (recovery : option SettlementRecoveryFacts) (strategy_id : text)
    (scope : gset text) : Result SettlementRecoveryDelta text :=
  match recovery with
  | None => Ok (mkRecoveryDelta ∅ ∅ [] [])
  | Some recovery =>
      let outcomes := recovered_outcomes recovery in
      let own (e : text * RecoveredSettlementOutcome) := bool_decide (outcome_strategy_id e.2 = strategy_id) in
      match find (λ e, own e && negb (bool_decide (e.1 ∈ scope))) outcomes with
      | Some (key, _) =>
          Err (lit "durable settlement outcome `" ++ key ++ lit "` for strategy `" ++ strategy_id ++
               lit "` is absent from the authoritative NT recovery scope")
      | None =>
          let scoped := filter (λ e, own e && bool_decide (e.1 ∈ scope)) outcomes in
          let settled := filter (λ e, is_some (as_settled e.2)) scoped in
          let terminal := filter (λ e, is_some (as_terminal e.2)) scoped in
          Ok (mkRecoveryDelta (list_to_set (fst <$> settled)) (list_to_set (fst <$> terminal))
                (omap (λ e, as_settled e.2) scoped) (omap (λ e, as_terminal e.2) scoped))
      end
  end.

Record BookingRecoveryDelta : Type := mkBookingDelta {
  bd_booking_error_keys : gset text;
  bd_terminal_settlement_keys : gset text;
}.

Definition recover_booking_facts (recovery : option BookingRecoveryFacts) (scope : gset text) : BookingRecoveryDelta :=
  match recovery with
  | None => mkBookingDelta ∅ ∅
  | Some recovery =>
      mkBookingDelta (recovered_booking_error_keys recovery ∩ scope) (recovered_terminal_keys recovery ∩ scope)
  end.

Arguments SettlementCapability C : clear implicits.
Arguments ResolutionSettlementInput C : clear implicits.

(** The tests [settled_yes_buy_books_terminal_payout_minus_entry_cost] and
    [tie_at_strike_resolves_to_yes_payout], with an entry price that is a double. *)
Example settled_yes_buy :
  let decision := settle_binary_runtime_reference_prices (lit "updown") (f64_of 100 0) (f64_of 100 0)
                    [mkLot LegYes QuoteBuy (f64_of 4 0) HALF_F64] in
  rd_blocked_by decision = None ∧
  match rd_payout decision, rd_result decision with
  | Some payout, Some result =>
      f64_eq (leg_payout payout LegYes) UNIT_F64 ∧ f64_eq (leg_payout payout LegNo) ZERO_F64 ∧
      f64_eq (sr_terminal_value result) (f64_of 4 0) ∧ f64_eq (sr_realized_pnl result) (f64_of 2 0) ∧
      f64_eq (sr_entry_cashflow result) (f64_of (-2) 0) ∧ f64_eq (sr_closed_net_yes result) (f64_of 4 0)
  | _, _ => False
  end.
Proof. vm_compute. split_and!; done. Qed.
