(* ===== verification/TakerSettlement.v ===== *)
(** * How the edge taker books settlements

    The handlers of [src/src/strategies/binary_oracle_edge_taker/mod.rs] around a
    settlement: the resolution tick that books it, the retries of the close fetch with the
    terminal booking error, and the recovery at start.  They compose [TakerExposure],
    [Settlement], the durable sink of [src/src/bolt_v3_current_evidence/record.rs] and the
    runtime sink of [src/src/bolt_v3_live_node.rs], which is the loss protection.

    The world keeps the active market, the durable log of settlement facts and what was
    handed to the runtime sink.  That sink, with a state of its own, is a parameter of the
    model.  What the node's cache says of open positions, whether an append is committed
    and how a cancel is routed are arguments.  Left out, because they change none of this: the evidence of order
    lifecycles, the health report and subscriptions; the market data of the tracked
    position are operations of [TakerExposure].  The log holds the facts of one strategy. *)

From Stdlib Require Import ZArith Lia SpecFloat.
From stdpp Require Import sorting strings gmap numbers list.
From S2P Require Import Prelude.
From S2P Require Import RustText.
From S2P Require Import BTree.
From S2P Require Import NtTypes.
From S2P Require Import F64.
From S2P Require Import PositionContract.
From S2P Require Import DecimalAmount.
From S2P Require Import LossProtection.
From S2P Require Import QuoteLifecycle.
From S2P Require Import QuoteControl.
From S2P Require Import MakerInventory.
From S2P Require Import Settlement.
From S2P Require Import TakerExposure.

Open Scope Z_scope.

(** What the strategy prints and reads of the platform's values. *)
Class TakerPlatform `{NtTypes} (Venue : Type) := {
  position_to_string : PositionId → text;
  instrument_id_to_string : InstrumentId → text;
  instrument_symbol : InstrumentId → text;
  instrument_venue : InstrumentId → Venue;
  quantity_to_string : Quantity → text;
  quantity_as_f64 : Quantity → f64;
  f64_to_string : f64 → text;                       (* [Display] of a double *)
  venue_eq_dec :: EqDecision Venue;
}.

(** ** The durable sink *)

(** [DurableSink::append]: committed, rejected before anything was written, or
    indeterminate, in which case the record may be durable and the sink is poisoned. *)
Inductive AppendOutcome : Type := AppendCommitted | AppendRejected | AppendIndeterminate (durable : bool).

Inductive ResolutionReportSubscriptionOutcome : Type := Dispatched | MissingRoute | AssetBindingRejected.

Inductive CancelRouting : Type := CancelSkippedByPolicy | CancelReturned | CancelErrored | CancelRouteFailed.

Record TakerConfig : Type := mkTakerConfig {
  tc_strategy_id : text;
  tc_rotating_market_family : text;
  tc_market_exit_max_attempts : Z;
  tc_retry_interval_seconds : Z;
}.

Record SettlementCloseFetchAttemptState : Type := mkCloseFetch {
  cf_interval_end_ms : Z;
  cf_attempt_count : Z;
  cf_last_attempt_ms : option Z;
}.

(** Of an [IndexPriceUpdate]. *)
Record IndexPriceUpdate : Type := mkIndexPrice {
  ip_instrument_id : text;
  ip_value : f64;
  ip_ts_event : Z;
}.

(** [str::rsplit_once('-')], the part after the last dash. *)
Fixpoint after_last_dash (s : text) : option text :=
  match s with
  | [] => None
  | c :: s =>
      match after_last_dash s with
      | Some rest => Some rest
      | None => if c =? 45 then Some s else None
      end
  end.

Definition saturating_add_u64 (a b : Z) : Z := Z.min (a + b) u64_max.
Definition saturating_mul_u64 (a b : Z) : Z := Z.min (a * b) u64_max.

Section Taker.
Context `{NT : NtTypes} {Venue : Type} `{TP : !TakerPlatform Venue} {Book D C W : Type}.
Context `{DT : DecimalText D} `{CO : CurrencyOps C}.
Context (cfg : TakerConfig) (settlement_kind : text) (resolution_instrument_id : option text)
        (append_io : nat → AppendOutcome) (cancel_io : ClientOrderId → CancelRouting)
        (sink_record : PositionRealizedPnlObservation D C → Rust W (Result unit text)).

Record TakerWorld : Type := mkTakerWorld {
  tw_exposure : ExposureOwner Venue Book;
  tw_active : ActiveMarket (Book := Book);
  settled_position_keys : gset text;
  settlement_booking_error_keys : gset text;
  terminal_settlement_keys : gset text;
  settlement_close_fetch_attempts : gmap text SettlementCloseFetchAttemptState;
  tw_capability : option (SettlementCapability C);
  tw_log : list SettlementRecoveryEvent;
  tw_healthy : bool;
  tw_appends : nat;
  tw_delivered : list (PositionRealizedPnlObservation D C);
  tw_sink : W;
}.

Implicit Types (w : TakerWorld) (position : OpenPositionState Book).
Abbreviation Tk := (Rust TakerWorld).

Definition with_exposure (f : ExposureOwner Venue Book → ExposureOwner Venue Book) w : TakerWorld :=
  mkTakerWorld (f (tw_exposure w)) (tw_active w) (settled_position_keys w) (settlement_booking_error_keys w)
    (terminal_settlement_keys w) (settlement_close_fetch_attempts w) (tw_capability w) (tw_log w) (tw_healthy w)
    (tw_appends w) (tw_delivered w) (tw_sink w).

Definition with_active (active : ActiveMarket (Book := Book)) w : TakerWorld :=
  mkTakerWorld (tw_exposure w) active (settled_position_keys w) (settlement_booking_error_keys w)
    (terminal_settlement_keys w) (settlement_close_fetch_attempts w) (tw_capability w) (tw_log w) (tw_healthy w)
    (tw_appends w) (tw_delivered w) (tw_sink w).

Definition with_keys (settled errors terminal : gset text) w : TakerWorld :=
  mkTakerWorld (tw_exposure w) (tw_active w) settled errors terminal (settlement_close_fetch_attempts w) (tw_capability w)
    (tw_log w) (tw_healthy w) (tw_appends w) (tw_delivered w) (tw_sink w).

Definition with_attempts (f : gmap text SettlementCloseFetchAttemptState → gmap text SettlementCloseFetchAttemptState)
    w : TakerWorld :=
  mkTakerWorld (tw_exposure w) (tw_active w) (settled_position_keys w) (settlement_booking_error_keys w)
    (terminal_settlement_keys w) (f (settlement_close_fetch_attempts w)) (tw_capability w) (tw_log w) (tw_healthy w)
    (tw_appends w) (tw_delivered w) (tw_sink w).

Definition with_log (log : list SettlementRecoveryEvent) (healthy : bool) w : TakerWorld :=
  mkTakerWorld (tw_exposure w) (tw_active w) (settled_position_keys w) (settlement_booking_error_keys w)
    (terminal_settlement_keys w) (settlement_close_fetch_attempts w) (tw_capability w) log healthy
    (S (tw_appends w)) (tw_delivered w) (tw_sink w).

Definition with_delivered (o : PositionRealizedPnlObservation D C) (sink : W) w : TakerWorld :=
  mkTakerWorld (tw_exposure w) (tw_active w) (settled_position_keys w) (settlement_booking_error_keys w)
    (terminal_settlement_keys w) (settlement_close_fetch_attempts w) (tw_capability w) (tw_log w) (tw_healthy w)
    (tw_appends w) (tw_delivered w ++ [o]) sink.

(** ** Evidence and the runtime sink *)

(** [record_settlement] and [record_terminal_settlement]. *)
Definition append_fact (e : SettlementRecoveryEvent) : Tk (Result unit text) := λ w,
  if tw_healthy w then
    match append_io (tw_appends w) with
    | AppendCommitted => Some (Ok tt, with_log (tw_log w ++ [e]) true w)
    | AppendRejected => Some (Err (lit "rejected"), with_log (tw_log w) true w)
    | AppendIndeterminate durable =>
        Some (Err (lit "commit indeterminate"), with_log (if durable then tw_log w ++ [e] else tw_log w) false w)
    end
  else Some (Err (lit "sink poisoned"), w).

(** [record_loss_governor_position_realized_pnl] of the runtime sink. *)
Definition deliver (o : PositionRealizedPnlObservation D C) : Tk (Result unit text) := λ w,
  '(r, sink) ← sink_record o (tw_sink w); Some (r, with_delivered o sink w).

(** ** Keys and positions *)

Definition settlement_product_id (instrument_id : InstrumentId) : Result text text :=
  match after_last_dash (instrument_symbol instrument_id) with
  | Some ((_ :: _) as product) => Ok product
  | _ => Err (lit "settlement product id is unbound for instrument `" ++
              instrument_id_to_string instrument_id ++ lit "`")
  end.

Definition settlement_key_for_position position : Result text text :=
  product ←? settlement_product_id (op_instrument_id position);
  Ok (product ++ lit ":" ++ position_to_string (op_position_id position)).

Definition settlement_position_key position (settlement_key : text) : SettlementPositionKey :=
  mkPositionKey settlement_key (position_to_string (op_position_id position)) (interval_end_ms (op_lifecycle position)).

Definition settlement_leg_for_outcome (side : OutcomeSide) : Leg :=
  match side with OutcomeUp => LegYes | OutcomeDown => LegNo end.

Record PositionMaterializationSpec : Type := mkSpec {
  sp_instrument_id : InstrumentId;
  sp_position_id : PositionId;
  sp_entry_order_side : OrderSide;
  sp_side : PositionSide;
  sp_quantity : Quantity;
  sp_avg_px_open : f64;
}.

Definition open_position_from_nt_projection (m : ManagedPositionContext Book) (spec : PositionMaterializationSpec)
    : option (OpenPositionState Book) :=
  if position_eqb (sp_position_id spec) (mp_position_id m) && instrument_eqb (sp_instrument_id spec) (mp_instrument_id m)
  then Some (mkOpenPosition (mp_lifecycle m) (mp_instrument_id m) (mp_position_id m) (sp_entry_order_side spec)
               (sp_side spec) (sp_quantity spec) (sp_avg_px_open spec) (mp_book m))
  else None.

(** [managed_position] and [settlement_position_candidate]; [nt] is
    [nt_open_position_projection]. *)
Definition settlement_position_candidate (nt : PositionId → option PositionMaterializationSpec) w
    : option (OpenPositionState Book) :=
  m ← managed_position_context (owner_state (tw_exposure w));
  spec ← nt (mp_position_id m);
  open_position_from_nt_projection m spec.

Definition settlement_currency_of w : option C := tw_capability w ≫= capability_currency.
Definition settlement_account_id w : option text := tw_capability w ≫= capability_account_id.
Definition settlement_runtime_sink w : bool :=
  match tw_capability w with Some c => has_runtime_sink c | None => false end.

(** [settlement_position_realized_pnl_observation]. *)
Definition pnl_observation (account_id : text) (fact : SettlementFact) (currency : C)
    : Result (PositionRealizedPnlObservation D C) text :=
  pnl ←? ok_or (d_from_str (sf_realized_pnl fact))
           (lit "settlement evidence realized_pnl parse failed for key `" ++ sf_settlement_key fact ++ lit "`");
  Ok (mkPositionObservation account_id (sf_instrument_id fact) (sf_position_id fact) (Some (sf_settlement_key fact))
        (mkObservation settlement_kind (sf_resolution_ts_event_ns fact) pnl currency) false true).

(** [expect] on the account is a panic. *)
Definition apply_settlement_runtime_effects (fact : SettlementFact) (currency : C) : Tk (Result unit text) :=
  sink ← rust_get settlement_runtime_sink;
  if negb sink then mret (Ok tt)
  else
    account ← rust_get settlement_account_id;
    account_id ← lift_panic account;
    match pnl_observation account_id fact currency with
    | Err e => mret (Err e)
    | Ok o => deliver o
    end.

(** [perform_entry_cancellation_effect]; the exposure is settled unless the route failed. *)
Definition perform_entry_cancellation_effect (effect : EntryCancellationEffect) : Tk unit :=
  match effect with
  | CancellationRoute client_order_id token =>
      match cancel_io client_order_id with
      | CancelSkippedByPolicy => rust_modify (with_exposure (λ o, settle_entry_cancellation o token RestoreWorking))
      | CancelReturned | CancelErrored =>
          rust_modify (with_exposure (λ o, settle_entry_cancellation o token RetainPending))
      | CancelRouteFailed => mret tt
      end
  | _ => mret tt
  end.

(** The release of the exposure both settlement paths end with. *)
Definition release_settled : Tk unit :=
  o ← rust_get tw_exposure;
  let '(cancellation, o) := observe_settlement o in
  rust_modify (with_exposure (λ _, o)) ;;
  perform_entry_cancellation_effect cancellation ;;
  active ← rust_get tw_active;
  rust_modify (with_exposure (λ o, sync_exposure_context_from_active o active)).

Definition enter_blind_settlement_recovery : Tk unit :=
  rust_modify (with_exposure (λ o, enter_blind_recovery o SettlementEvidenceRecoveryFailed)).

(** ** Booking errors *)

Definition settlement_booking_error_evidence position (settlement_key : text) (reason : SettlementBookingErrorReason)
    (detail : text) (observed_at_ns : Z) : SettlementBookingErrorFact :=
  mkBookingErrorFact (tc_strategy_id cfg) settlement_key (lc_market_id (op_lifecycle position))
    (Some (position_to_string (op_position_id position))) (Some (instrument_id_to_string (op_instrument_id position)))
    resolution_instrument_id reason detail observed_at_ns.

Definition insert_keys (delta : SettlementTerminalKeyDelta) w : TakerWorld :=
  let key := kd_settlement_key delta in
  with_keys (settled_position_keys w)
    (if insert_booking_error_key delta then {[key]} ∪ settlement_booking_error_keys w
     else settlement_booking_error_keys w)
    (if insert_terminal_key delta then {[key]} ∪ terminal_settlement_keys w else terminal_settlement_keys w) w.

Definition drop_attempt (delta : SettlementTerminalKeyDelta) w : TakerWorld :=
  if remove_close_fetch_attempt delta then with_attempts (delete (kd_settlement_key delta)) w else w.

Definition apply_terminal_settlement_transition (transition : SettlementBookingErrorTransition)
    (booking_error : SettlementBookingErrorFact) : Tk (Result unit text) :=
  append_fact (EventTerminalSettlement (mkTerminalFact (el_settlement_key (bt_eligibility transition)) booking_error)) ;;!
  rust_modify (insert_keys (bt_key_delta transition)) ;;
  rust_modify (drop_attempt (bt_key_delta transition)) ;;
  release_settled ;;
  mret (Ok tt).

Definition record_settlement_booking_error position (settlement_key : text) (reason : SettlementBookingErrorReason)
    (detail : text) (observed_at_ns : Z) : Tk (Result unit text) :=
  errors ← rust_get settlement_booking_error_keys;
  match decide_settlement_booking_error (settlement_position_key position settlement_key) reason detail
          observed_at_ns errors with
  | Err e => mret (Err e)
  | Ok None => mret (Ok tt)
  | Ok (Some transition) =>
      apply_terminal_settlement_transition transition
        (settlement_booking_error_evidence position (el_settlement_key (bt_eligibility transition))
           (bt_reason transition) (bt_detail transition) observed_at_ns)
  end.

(** The key is booked or terminal. *)
Definition key_done (settlement_key : text) w : bool :=
  bool_decide (settlement_key ∈ settled_position_keys w) || bool_decide (settlement_key ∈ settlement_booking_error_keys w).

Definition record_missing_interval_end_settlement_booking_error position (observed_at_ns : Z)
    : Tk (Result unit text) :=
  if is_some (interval_end_ms (op_lifecycle position)) then mret (Ok tt)
  else
    match settlement_key_for_position position with
    | Err e => mret (Err e)
    | Ok settlement_key =>
        done_before ← rust_get (key_done settlement_key);
        if (done_before : bool) then mret (Ok tt)
        else record_settlement_booking_error position settlement_key SettlementInputInvalid
               (lit "settlement input missing interval end") observed_at_ns
    end.

Definition settlement_close_retry_due (last_attempt_ms : option Z) (now_ms retry_interval_ms : Z) : bool :=
  match last_attempt_ms with
  | None => true
  | Some last => retry_interval_ms <=? u64_saturating_sub now_ms last
  end.

(** The attempt state the code works on: inserted if absent, reset for another interval. *)
Definition close_fetch_state (attempts : gmap text SettlementCloseFetchAttemptState) (settlement_key : text)
    (interval_end_ms : Z) : SettlementCloseFetchAttemptState :=
  let fresh := mkCloseFetch interval_end_ms 0 None in
  match attempts !! settlement_key with
  | Some state => if cf_interval_end_ms state =? interval_end_ms then state else fresh
  | None => fresh
  end.

Definition retry_settlement_close_fetch_or_record_terminal_failure position (settlement_key : text)
    (interval_end_ms now_ms : Z) (subscribe : ResolutionReportSubscriptionOutcome) : Tk (Result unit text) :=
  attempts ← rust_get settlement_close_fetch_attempts;
  let state := close_fetch_state attempts settlement_key interval_end_ms in
  rust_modify (with_attempts (<[settlement_key := state]>)) ;;
  let retry_due := settlement_close_retry_due (cf_last_attempt_ms state) now_ms
                     (saturating_mul_u64 (tc_retry_interval_seconds cfg) MILLIS_PER_SECOND_U64) in
  let observed_at_ns := saturating_mul_u64 now_ms NANOS_PER_MILLI_U64 in
  let failed (detail : string) :=
    record_settlement_booking_error position settlement_key ResolutionFeedMissing (lit detail) observed_at_ns in
  if tc_market_exit_max_attempts cfg <=? cf_attempt_count state then
    if retry_due
    then failed "resolution feed missing after settlement close fetch attempts exhausted; settlement not booked"
    else mret (Ok tt)
  else if negb retry_due then mret (Ok tt)
  else
    match subscribe with
    | Dispatched =>
        rust_modify (with_attempts (<[settlement_key :=
          mkCloseFetch (cf_interval_end_ms state) (saturating_add_u64 (cf_attempt_count state) 1) (Some now_ms)]>)) ;;
        mret (Ok tt)
    | MissingRoute => failed "resolution feed route unavailable for settlement close fetch; settlement not booked"
    | AssetBindingRejected =>
        failed "resolution feed asset binding rejected settlement close fetch; settlement not booked"
    end.

Definition check_resolution_feed_outage_at_market_end (nt : PositionId → option PositionMaterializationSpec)
    (now_ms : Z) (subscribe : ResolutionReportSubscriptionOutcome) : Tk (Result unit text) :=
  candidate ← rust_get (settlement_position_candidate nt);
  match candidate with
  | None => mret (Ok tt)
  | Some position =>
      match interval_end_ms (op_lifecycle position) with
      | None =>
          record_missing_interval_end_settlement_booking_error position (saturating_mul_u64 now_ms NANOS_PER_MILLI_U64) ;;!
          mret (Ok tt)
      | Some interval_end_ms =>
          if now_ms <? interval_end_ms then mret (Ok tt)
          else
            match settlement_key_for_position position with
            | Err e => mret (Err e)
            | Ok settlement_key =>
                done_before ← rust_get (key_done settlement_key);
                if (done_before : bool) then mret (Ok tt)
                else retry_settlement_close_fetch_or_record_terminal_failure position settlement_key interval_end_ms
                       now_ms subscribe
            end
      end
  end.

(** ** The resolution tick *)

Definition settlement_evidence position (settlement_key market_id product_id : text) (update : IndexPriceUpdate)
    (currency : C) (outcome_side : OutcomeSide) (strike_price payout_per_share terminal_value realized_pnl : f64)
    : SettlementFact :=
  {| sf_strategy_id := tc_strategy_id cfg; sf_settlement_key := settlement_key; sf_market_id := market_id;
     sf_position_id := position_to_string (op_position_id position);
     sf_instrument_id := instrument_id_to_string (op_instrument_id position); sf_product_id := product_id;
     sf_outcome_side := outcome_side; sf_entry_order_side := op_entry_order_side position;
     sf_quantity := quantity_to_string (op_quantity position);
     sf_entry_price := f64_to_string (op_avg_px_open position);
     sf_family_key := tc_rotating_market_family cfg; sf_strike_price := f64_to_string strike_price;
     sf_resolution_instrument_id := ip_instrument_id update; sf_resolution_ts_event_ns := ip_ts_event update;
     sf_reference_close_price := f64_to_string (ip_value update);
     sf_payout_per_share := f64_to_string payout_per_share; sf_terminal_value := f64_to_string terminal_value;
     sf_realized_pnl := f64_to_string realized_pnl; sf_settlement_currency := currency_code currency |}.

Definition settlement_lot position : option BinarySettlementLot :=
  side ← lc_outcome_side (op_lifecycle position);
  Some (mkLot (settlement_leg_for_outcome side) QuoteBuy (quantity_as_f64 (op_quantity position))
          (op_avg_px_open position)).

(** What follows a decision to book. *)
Definition commit_settlement_booking position (booking : ResolutionSettlementBooking) (update : IndexPriceUpdate)
    : Tk (Result unit text) :=
  outcome_side ← lift_panic (lc_outcome_side (op_lifecycle position));
  strike_price ← lift_panic (settlement_strike (op_lifecycle position));
  configured ← rust_get settlement_currency_of;
  currency ← lift_panic configured;
  market_id ← lift_panic (lc_market_id (op_lifecycle position));
  match settlement_product_id (op_instrument_id position) with
  | Err e => mret (Err e)
  | Ok product_id =>
      let fact := settlement_evidence position (bk_settlement_key booking) market_id product_id update currency
                    outcome_side strike_price (bk_payout_per_share booking) (sr_terminal_value (bk_result booking))
                    (sr_realized_pnl (bk_result booking)) in
      append_fact (EventSettlement fact) ;;!
      rust_modify (λ w, with_keys ({[bk_settlement_key booking]} ∪ settled_position_keys w)
                          (settlement_booking_error_keys w) (terminal_settlement_keys w) w) ;;
      rust_modify (drop_attempt (bk_key_delta booking)) ;;
      effects ← apply_settlement_runtime_effects fact currency;
      match effects with
      | Err _ => enter_blind_settlement_recovery ;; mret (Ok tt)
      | Ok _ => release_settled ;; mret (Ok tt)
      end
  end.

(** [try_book_resolution_settlement] of the strategy. *)
Definition taker_book_resolution_settlement (nt : PositionId → option PositionMaterializationSpec)
    (update : IndexPriceUpdate) : Tk (Result unit text) :=
  candidate ← rust_get (settlement_position_candidate nt);
  match candidate with
  | None => mret (Ok tt)
  | Some position =>
      match settlement_key_for_position position with
      | Err e => mret (Err e)
      | Ok settlement_key =>
          w ← rust_get id;
          let decision :=
            try_book_resolution_settlement
              (mkResolutionInput (settlement_position_key position settlement_key) (ip_ts_event update)
                 (tc_rotating_market_family cfg) (ip_value update) (settlement_strike (op_lifecycle position))
                 (settlement_lot position) (is_some (lc_market_id (op_lifecycle position))) (tw_capability w))
              (settled_position_keys w) (settlement_booking_error_keys w) in
          match decision with
          | DecisionSkip _ => mret (Ok tt)
          | DecisionBookingError reason detail =>
              record_settlement_booking_error position settlement_key reason detail (ip_ts_event update) ;;!
              mret (Ok tt)
          | DecisionBook booking => commit_settlement_booking position booking update
          end
      end
  end.

(** ** Start *)

(** The replay of the effects of recovered settlements; [false] when one failed. *)
Fixpoint replay_effects (facts : list SettlementFact) : Tk bool :=
  match facts with
  | [] => mret true
  | fact :: facts =>
      configured ← rust_get settlement_currency_of;
      match configured with
      | None => mret false
      | Some currency =>
          if negb (bool_decide (currency_code currency = sf_settlement_currency fact)) then mret false
          else
            effects ← apply_settlement_runtime_effects fact currency;
            match effects with Err _ => mret false | Ok _ => replay_effects facts end
      end
  end.

Fixpoint collect_keys (positions : list (OpenPositionState Book)) : Result (gset text) text :=
  match positions with
  | [] => Ok ∅
  | position :: positions =>
      key ←? settlement_key_for_position position;
      keys ←? collect_keys positions;
      Ok ({[key]} ∪ keys)
  end.

Definition recover_settlement_bootstrap_from_scope (scope : list (OpenPositionState Book)) : Tk bool :=
  capability ← rust_get tw_capability;
  match capability ≫= settlement_recovery with
  | None => mret true
  | Some recovery =>
      let blind := enter_blind_settlement_recovery ;; mret false in
      match collect_keys scope with
      | Err _ => blind
      | Ok keys =>
          match recover_settlement_facts (Some recovery) (tc_strategy_id cfg) keys with
          | Err _ => blind
          | Ok delta =>
              let booking := recover_booking_facts (capability ≫= booking_recovery) keys in
              replayed ← replay_effects (rv_settled_evidence delta);
              if negb replayed then blind
              else
                rust_modify (λ w,
                  with_keys (settled_position_keys w ∪ rv_settled_position_keys delta)
                    (settlement_booking_error_keys w ∪ bd_booking_error_keys booking)
                    (terminal_settlement_keys w ∪ rv_terminal_settlement_keys delta
                     ∪ bd_terminal_settlement_keys booking) w) ;;
                mret true
          end
      end
  end.

Definition bootstrapped_recovery_reason position (execution_venue : Venue) : BlindRecoveryReason Venue :=
  if decide (instrument_venue (op_instrument_id position) = execution_venue) then
    if is_observed_open_side (op_side position)
    then RestartOpenPosition (op_instrument_id position) (op_position_id position)
    else InvalidBootstrappedPosition (op_entry_order_side position) (op_side position)
  else ForeignVenuePosition (instrument_venue (op_instrument_id position)) execution_venue.

(** [bootstrap_recovery_from_cache]; [cached] is what the cache lists of the strategy's open
    and closed positions at the venue, or nothing when the probe panics. *)
Definition bootstrap_recovery_from_cache
    (cached : option (list (OpenPositionState Book) * list (OpenPositionState Book))) (execution_venue : Venue)
    : Tk unit :=
  match cached with
  | None => rust_modify (with_exposure (λ o, enter_blind_recovery o CacheProbeFailed))
  | Some (open, closed) =>
      recovered ← recover_settlement_bootstrap_from_scope (open ++ closed);
      if negb recovered then mret tt
      else
        match open with
        | [] => rust_modify (with_exposure observe_clean_start)
        | [position] =>
            rust_modify (with_exposure (λ o, enter_blind_recovery o (bootstrapped_recovery_reason position execution_venue)))
        | _ =>
            rust_modify (with_exposure (λ o, enter_blind_recovery o (MultipleOpenPositions (Z.of_nat (length open)))))
        end
  end.

(** A new process on the log of the old one: the facts are recovered, the strategy starts
    from nothing and bootstraps. *)
Definition start_process (sink : bool) (account_id : option text) (currency : option C)
    (cached : option (list (OpenPositionState Book) * list (OpenPositionState Book))) (execution_venue : Venue)
    (runtime : W) w : Result (option TakerWorld) text :=
  recovered ←? recover_settlements (tw_log w);
  let fresh := mkTakerWorld owner_new (tw_active w) ∅ ∅ ∅ ∅
                 (Some (mkCapability sink (Some recovered.1) (Some recovered.2) account_id currency))
                 (tw_log w) true (tw_appends w) [] runtime in
  Ok (snd <$> bootstrap_recovery_from_cache cached execution_venue fresh).

End Taker.
