(* ===== verification/TakerSettlementFacts.v ===== *)
(** * Settlements of the edge taker: recorded once, delivered once

    The histories of a strategy's settlements: starts on the durable log, resolution ticks,
    close-fetch retries, changes of the exposure and appends that are refused or whose
    commit is indeterminate, in any order.  No settlement key is recorded twice, so the log
    never makes a start fail; nothing is handed to the runtime sink that is not durable,
    and no key twice in a process; and unless the strategy is blind or its sink poisoned,
    every settlement of the log has reached the runtime sink. *)

From Stdlib Require Import ZArith Lia SpecFloat.
From stdpp Require Import sorting strings gmap numbers list.
From S2P Require Import Prelude.
From S2P Require Import RustText.
From S2P Require Import BTree.
From S2P Require Import NtTypes.
From S2P Require Import F64.
From S2P Require Import PositionContract.
From S2P Require Import DecimalAmount.
From S2P Require Import LossProtection.
From S2P Require Import QuoteLifecycle.
From S2P Require Import QuoteControl.
From S2P Require Import MakerInventory.
From S2P Require Import Settlement.
From S2P Require Import TakerExposure.
From S2P Require Import TakerExposureFacts.
From S2P Require Import TakerSettlement.

Open Scope Z_scope.

(** ** The projections of a log *)

Lemma bt_insert_fresh `{OrdLaws A} {V} (m : BTreeMap A V) k v :
  bt_sorted m → bt_get m k = None → bt_insert m k v ≡ₚ (k, v) :: m.
Proof.
  intros Hm Hk. rewrite <-(bt_remove_insert m k v Hk) at 2. apply bt_remove_Some.
  unfold bt_insert. by rewrite bt_get_upsert, Hk.
Qed.

Definition keyed (e : SettlementRecoveryEvent) : text * RecoveredSettlementOutcome := (event_key e, e).

(** A log without duplicate keys is replayed: the outcomes are its events. *)
Lemma replay_settlements_ok log : ∀ settlement booking,
  bt_sorted (recovered_outcomes settlement) →
  NoDup (bt_keys (recovered_outcomes settlement) ++ (event_key <$> log)) →
  ∃ settlement' booking', replay_settlements settlement booking log = Ok (settlement', booking') ∧
    bt_sorted (recovered_outcomes settlement') ∧
    recovered_outcomes settlement' ≡ₚ recovered_outcomes settlement ++ (keyed <$> log) ∧
    (∀ key, key ∈ recovered_booking_error_keys booking' ↔
       key ∈ recovered_booking_error_keys booking ∨ ∃ fact, EventTerminalSettlement fact ∈ log ∧ tf_settlement_key fact = key).
Proof.
  induction log as [|e log IH]; intros settlement booking Hs Hnd; cbn.
  { exists settlement, booking. rewrite app_nil_r. split_and!; try done. set_solver. }
  assert (Hfresh : bt_get (recovered_outcomes settlement) (event_key e) = None).
  { apply bt_get_None; [done|]. intros Hin. apply NoDup_app in Hnd as (_ & Hnd & _). by apply (Hnd _ Hin); left. }
  unfold settlement_apply. rewrite Hfresh. cbn.
  pose proof (bt_insert_fresh _ _ e Hs Hfresh) as Hp.
  destruct (IH (mkSettlementRecovery (bt_insert (recovered_outcomes settlement) (event_key e) e)) (booking_apply booking e))
    as (s' & b' & -> & Hs' & Hp' & Hb').
  - cbn. by apply bt_upsert_sorted.
  - cbn. unfold bt_keys in *. rewrite Hp. csimpl in *. by rewrite <-Permutation_middle in Hnd.
  - exists s', b'. split_and!; try done.
    + rewrite Hp'. cbn. rewrite Hp. by rewrite <-Permutation_middle.
    + intros key. rewrite Hb'. destruct e as [fact|fact]; cbn; [set_solver|]. split.
      * intros [Hin|(f & ? & ?)]; [|right; exists f; set_solver].
        apply elem_of_union in Hin as [->%elem_of_singleton|?]; [right; exists fact; set_solver|by left].
      * intros [?|(f & Hf & <-)]; [left; set_solver|].
        apply elem_of_cons in Hf as [[= ->]|?]; [left; set_solver|right; eauto].
Qed.

Lemma recover_settlements_ok log :
  NoDup (event_key <$> log) →
  ∃ settlement booking, recover_settlements log = Ok (settlement, booking) ∧
    recovered_outcomes settlement ≡ₚ keyed <$> log ∧
    (∀ key, key ∈ recovered_booking_error_keys booking ↔
       ∃ fact, EventTerminalSettlement fact ∈ log ∧ tf_settlement_key fact = key).
Proof.
  intros Hnd. destruct (replay_settlements_ok log (mkSettlementRecovery []) (mkBookingRecovery ∅ ∅))
    as (s & b & Hr & _ & Hp & Hb); [constructor|done|].
  exists s, b. split_and!; [done|done|]. intros key. rewrite Hb. set_solver.
Qed.

(** A duplicate makes the recovery fail. *)
Lemma replay_settlements_NoDup log : ∀ settlement booking r,
  bt_sorted (recovered_outcomes settlement) →
  replay_settlements settlement booking log = Ok r →
  NoDup (event_key <$> log) ∧ ∀ key, key ∈ bt_keys (recovered_outcomes settlement) → key ∉ event_key <$> log.
Proof.
  induction log as [|e log IH]; intros settlement booking r Hs Hr; csimpl; [split; [constructor|set_solver]|].
  cbn in Hr. unfold settlement_apply in Hr.
  destruct (bt_get (recovered_outcomes settlement) (event_key e)) as [|] eqn:Hfresh; [done|]. cbn in Hr.
  apply IH in Hr as [Hnd Hin]; [|by apply bt_upsert_sorted]. cbn in Hin. unfold bt_insert in Hin.
  apply bt_get_None in Hfresh; [|done]. split.
  - constructor; [|done]. apply Hin, bt_upsert_keys. by left.
  - intros key Hkey. rewrite not_elem_of_cons. split; [by intros ->|]. apply Hin, bt_upsert_keys. by right.
Qed.

Lemma filter_all {A} (P : A → Prop) `{∀ x, Decision (P x)} (l : list A) : (∀ x, x ∈ l → P x) → filter P l = l.
Proof.
  induction l as [|x l IH]; intros HP; [done|]. rewrite filter_cons_True by (apply HP; by left).
  by rewrite IH by (intros y Hy; apply HP; by right).
Qed.

(** What a strategy recovers of a log of its own that its scope covers. *)
Lemma recover_own log settlement booking strategy_id scope delta :
  recovered_outcomes settlement ≡ₚ keyed <$> log →
  (∀ key, key ∈ recovered_booking_error_keys booking ↔
     ∃ fact, EventTerminalSettlement fact ∈ log ∧ tf_settlement_key fact = key) →
  NoDup (event_key <$> log) →
  Forall (λ e, outcome_strategy_id e = strategy_id) log →
  recover_settlement_facts (Some settlement) strategy_id scope = Ok delta →
  rv_settled_evidence delta ≡ₚ omap as_settled log ∧
  ∀ e, e ∈ log → event_key e ∈ rv_settled_position_keys delta ∪
                   bd_booking_error_keys (recover_booking_facts (Some booking) scope).
Proof.
  intros Hp Hb Hnd Hown Hr. unfold recover_settlement_facts in Hr.
  destruct (find _ _) as [[k ?]|] eqn:Hfind; [done|]. injection Hr as <-. cbn.
  set (outcomes := recovered_outcomes settlement) in *.
  assert (Hscope : ∀ x, x ∈ outcomes → outcome_strategy_id x.2 = strategy_id ∧ x.1 ∈ scope).
  { intros x Hx. assert (Hown' : outcome_strategy_id x.2 = strategy_id).
    { rewrite Hp in Hx. apply list_elem_of_fmap in Hx as (e & -> & He). cbn.
      by apply (proj1 (Forall_forall _ _) Hown). }
    split; [done|]. apply list_elem_of_In in Hx.
    pose proof (find_none _ _ Hfind x Hx) as Hn. cbn in Hn. rewrite bool_decide_true in Hn by done. cbn in Hn.
    apply negb_false_iff in Hn. by apply bool_decide_eq_true in Hn. }
  rewrite (filter_all _ outcomes) by (intros x Hx; destruct (Hscope x Hx); by rewrite !bool_decide_true).
  split.
  - rewrite Hp. clear. induction log as [|e log IH]; [done|]. cbn. destruct (as_settled e); cbn; by rewrite IH.
  - intros e He. apply elem_of_union. destruct e as [fact|fact].
    + left. apply elem_of_list_to_set, list_elem_of_fmap. exists (keyed (EventSettlement fact)). split; [done|].
      apply list_elem_of_filter. split; [done|]. rewrite Hp. by apply list_elem_of_fmap_2.
    + right. apply elem_of_intersection. split; [apply Hb; eauto|].
      destruct (Hscope (keyed (EventTerminalSettlement fact))) as [_ ?]; [|done].
      rewrite Hp. by apply list_elem_of_fmap_2.
Qed.

Section Facts.
Context `{NT : NtTypes} {Venue : Type} `{TP : !TakerPlatform Venue} {Book D C W : Type}.
Context `{DT : DecimalText D} `{CO : CurrencyOps C}.
Context (cfg : TakerConfig) (settlement_kind : text) (resolution_instrument_id : option text)
        (append_io : nat → AppendOutcome) (cancel_io : ClientOrderId → CancelRouting)
        (sink_record : PositionRealizedPnlObservation D C → Rust W (Result unit text)).

#[local] Notation World := (TakerWorld (Venue := Venue) (Book := Book) (D := D) (C := C) (W := W)).
#[local] Notation append_fact := (append_fact append_io).
#[local] Notation release_settled := (release_settled cancel_io).
#[local] Notation apply_settlement_runtime_effects :=
  (apply_settlement_runtime_effects settlement_kind sink_record).
#[local] Notation record_settlement_booking_error :=
  (record_settlement_booking_error cfg resolution_instrument_id append_io cancel_io).
#[local] Notation record_missing_interval_end_settlement_booking_error :=
  (record_missing_interval_end_settlement_booking_error cfg resolution_instrument_id append_io cancel_io).
#[local] Notation check_resolution_feed_outage_at_market_end :=
  (check_resolution_feed_outage_at_market_end cfg resolution_instrument_id append_io cancel_io).
#[local] Notation taker_book_resolution_settlement :=
  (taker_book_resolution_settlement cfg settlement_kind resolution_instrument_id append_io cancel_io sink_record).
#[local] Notation commit_settlement_booking :=
  (commit_settlement_booking cfg settlement_kind append_io cancel_io sink_record).
#[local] Notation start_process := (start_process cfg settlement_kind sink_record).

Implicit Types (w : World) (position : OpenPositionState Book).

(** ** Histories

    An [AppendIndeterminate] that is durable, followed by a start, is also a crash after
    the append. *)
Inductive taker_step (w : World) : World → Prop :=
| step_start sink account_id currency cached venue runtime w' :
    start_process sink account_id currency cached venue runtime w = Ok (Some w') → taker_step w w'
| step_exposure op : op_allowed (tw_exposure w) op → taker_step w (with_exposure (exposure_apply op) w)
| step_active active : taker_step w (with_active active w)
| step_resolution nt update r w' :
    taker_book_resolution_settlement nt update w = Some (r, w') → taker_step w w'
| step_outage nt now_ms subscribe r w' :
    check_resolution_feed_outage_at_market_end nt now_ms subscribe w = Some (r, w') → taker_step w w'
| step_exit nt position observed_at_ns r w' :
    settlement_position_candidate nt w = Some position →
    record_missing_interval_end_settlement_booking_error position observed_at_ns w = Some (r, w') → taker_step w w'.

Inductive taker_reachable : World → Prop :=
| taker_reachable_first w :
    tw_log w = [] → tw_delivered w = [] → taker_reachable w
| taker_reachable_step w w' : taker_reachable w → taker_step w w' → taker_reachable w'.

(** ** The invariant *)

Definition delivered_keys w : list (option text) := event_id <$> tw_delivered w.

(** The observation of a durable settlement. *)
Definition observed_of w (o : PositionRealizedPnlObservation D C) : Prop :=
  ∃ fact currency account_id, EventSettlement fact ∈ tw_log w ∧
    currency_code currency = sf_settlement_currency fact ∧
    pnl_observation settlement_kind account_id fact currency = Ok o.

Record base_ok w : Prop := mkBaseOk {
  base_keys : NoDup (event_key <$> tw_log w);
  base_own : Forall (λ e, outcome_strategy_id e = tc_strategy_id cfg) (tw_log w);
  base_delivered : NoDup (delivered_keys w);
  base_from : ∀ o, o ∈ tw_delivered w → observed_of w o;
}.

(** Every event of the log is booked, and every settlement but [due] delivered. *)
Definition all_known (due : option text) w : Prop :=
  ∀ e, e ∈ tw_log w → key_done (event_key e) w = true ∧
    ∀ fact, e = EventSettlement fact → settlement_runtime_sink w = true →
      due ≠ Some (sf_settlement_key fact) → Some (sf_settlement_key fact) ∈ delivered_keys w.

Definition known due w : Prop :=
  tw_healthy w = true → is_blind_recovery (tw_exposure w) = false → all_known due w.

Definition settlements_ok due w : Prop := base_ok w ∧ known due w.

Lemma pnl_observation_key account_id fact (currency : C) (o : PositionRealizedPnlObservation D C) :
  pnl_observation settlement_kind account_id fact currency = Ok o → event_id o = Some (sf_settlement_key fact).
Proof. unfold pnl_observation. destruct (d_from_str _); cbn; [by intros [= <-]|done]. Qed.

Lemma delivered_logged w key : base_ok w → Some key ∈ delivered_keys w → key ∈ event_key <$> tw_log w.
Proof.
  intros Hb (o & Ho & Hin)%list_elem_of_fmap. destruct (base_from w Hb o Hin) as (fact & c & a & Hf & _ & Hobs).
  apply pnl_observation_key in Hobs. rewrite Hobs in Ho. injection Ho as ->.
  apply list_elem_of_fmap. by exists (EventSettlement fact).
Qed.

(** ** What keeps it *)

Lemma blind_kept op o : op_allowed o op → is_blind_recovery o = true →
  is_blind_recovery (exposure_apply (Venue := Venue) (Book := Book) op o) = true.
Proof.
  unfold is_blind_recovery. intros Hal Hb. destruct (owner_state o) as [| | | | | | | | |reason] eqn:Hs; try done.
  by destruct (apply_blind o op reason Hal Hs) as (reason' & ->).
Qed.

Lemma ok_exposure due f w :
  (is_blind_recovery (tw_exposure w) = true → is_blind_recovery (f (tw_exposure w)) = true) →
  settlements_ok due w → settlements_ok due (with_exposure f w).
Proof.
  intros Hf [[??? Hfrom] Hk]. split; [by constructor|]. intros Hh Hnb. cbn in Hh, Hnb.
  apply (Hk Hh). destruct (is_blind_recovery (tw_exposure w)); [|done]. by rewrite Hf in Hnb.
Qed.

Lemma ok_attempts due f w : settlements_ok due w → settlements_ok due (with_attempts f w).
Proof. intros [[??? Hfrom] Hk]. split; [by constructor|exact Hk]. Qed.

Lemma ok_blinded due w reason : base_ok w → settlements_ok due (with_exposure (λ o, enter_blind_recovery o reason) w).
Proof. intros [??? Hfrom]. split; [by constructor|]. done. Qed.

Lemma release_settled_safe due w :
  settlements_ok due w → safe (release_settled : Rust World unit) w (λ _, settlements_ok due).
Proof.
  intros Hok. unfold TakerSettlement.release_settled. repeat runs_step.
  pose proof (blind_kept OpSettlement (tw_exposure w) I) as Hblind. cbn in Hblind.
  destruct (observe_settlement (tw_exposure w)) as [effect o] eqn:Ho. cbn in Hblind. repeat runs_step.
  assert (Hok' : settlements_ok due (with_exposure (λ _, o) w)) by (by apply ok_exposure).
  apply (safe_mono _ _ (λ _, settlements_ok due)).
  - unfold perform_entry_cancellation_effect. destruct effect as [|id token| |]; try by repeat runs_step.
    destruct (cancel_io id); repeat runs_step; try done; (apply ok_exposure; [|done]);
      [by apply (blind_kept (OpSettleCancellation token RestoreWorking))
      |by apply (blind_kept (OpSettleCancellation token RetainPending))..].
  - intros [] w1 Hok1. repeat runs_step. apply ok_exposure; [|done].
    by apply (blind_kept (OpSyncActive (tw_active w1))).
Qed.

(** A position to settle is held by an exposure that is not blind. *)
Lemma candidate_not_blind nt w position :
  settlement_position_candidate nt w = Some position → is_blind_recovery (tw_exposure w) = false.
Proof.
  unfold settlement_position_candidate, is_blind_recovery. intros Hc.
  destruct (owner_state (tw_exposure w)); done.
Qed.

Lemma key_done_fresh w key :
  settlements_ok None w → is_blind_recovery (tw_exposure w) = false → key_done key w = false → tw_healthy w = true →
  key ∉ event_key <$> tw_log w.
Proof.
  intros [_ Hk] Hnb Hkey Hh (e & -> & He)%list_elem_of_fmap. destruct (Hk Hh Hnb e He) as [Hd _]. congruence.
Qed.

(** ** Appends *)

Lemma base_append e w (healthy : bool) :
  base_ok w → event_key e ∉ event_key <$> tw_log w → outcome_strategy_id e = tc_strategy_id cfg →
  base_ok (with_log (tw_log w ++ [e]) healthy w).
Proof.
  intros [Hnd Hown Hdel Hfrom] He Hs. constructor; cbn.
  - rewrite fmap_app. apply NoDup_app. csimpl. split_and!; [done|set_solver|apply NoDup_singleton].
  - by apply Forall_app_2; [|apply Forall_singleton].
  - done.
  - intros o Ho. destruct (Hfrom o Ho) as (fact & c & a & Hf & ?). exists fact, c, a. split; [set_solver|done].
Qed.

Lemma append_fact_safe e w :
  settlements_ok None w → (tw_healthy w = true → event_key e ∉ event_key <$> tw_log w) →
  outcome_strategy_id e = tc_strategy_id cfg →
  safe (append_fact e : Rust World _) w (λ r w', match r with
    | Ok _ => tw_healthy w = true ∧ w' = with_log (tw_log w ++ [e]) true w
    | Err _ => settlements_ok None w'
    end).
Proof.
  intros Hok He Hs r w' Hr. destruct Hok as [Hb Hk]. unfold TakerSettlement.append_fact in Hr.
  destruct (tw_healthy w) eqn:Hh; [|by simplify_eq/=]. destruct (append_io (tw_appends w)) as [| |[]]; simplify_eq/=.
  - done.
  - split; [by destruct Hb; constructor|]. intros _ Hnb. by apply (Hk Hh Hnb).
  - split; [by apply base_append; [|apply He|]|done].
  - split; [by destruct Hb; constructor|done].
Qed.

(** The event in the log and its key inserted. *)
Lemma appended_ok e w settled errors terminal (due : option text) :
  settlements_ok None w → is_blind_recovery (tw_exposure w) = false → tw_healthy w = true →
  event_key e ∉ event_key <$> tw_log w → outcome_strategy_id e = tc_strategy_id cfg →
  settled_position_keys w ⊆ settled → settlement_booking_error_keys w ⊆ errors → event_key e ∈ settled ∪ errors →
  (∀ fact, e = EventSettlement fact → due = Some (sf_settlement_key fact)) →
  settlements_ok due (with_keys settled errors terminal (with_log (tw_log w ++ [e]) true w)).
Proof.
  intros [Hb Hk] Hnb Hh He Hs Hset Herr Hin Hdue. split.
  - destruct (base_append e w true Hb He Hs). by constructor.
  - intros _ _ e' He'. cbn in He'. unfold key_done, delivered_keys. cbn. apply elem_of_app in He' as [He'|He'].
    + destruct (Hk Hh Hnb e' He') as [Hd Hdel]. split.
      * unfold key_done in Hd. rewrite orb_true_iff, !bool_decide_eq_true in Hd |- *. set_solver.
      * intros fact -> Hsink _. by apply (Hdel fact).
    + apply list_elem_of_singleton in He' as ->. split.
      * rewrite orb_true_iff, !bool_decide_eq_true. set_solver.
      * intros fact -> _ Hn. by rewrite (Hdue fact eq_refl) in Hn.
Qed.

(** ** The runtime sink *)

(** What a delivery changes. *)
Definition delivery w w' : Prop :=
  ∃ os sink, w' = mkTakerWorld (tw_exposure w) (tw_active w) (settled_position_keys w) (settlement_booking_error_keys w)
    (terminal_settlement_keys w) (settlement_close_fetch_attempts w) (tw_capability w) (tw_log w) (tw_healthy w)
    (tw_appends w) (tw_delivered w ++ os) sink.

Lemma delivery_refl w : delivery w w.
Proof. exists [], (tw_sink w). rewrite app_nil_r. by destruct w. Qed.

Lemma delivery_trans w1 w2 w3 : delivery w1 w2 → delivery w2 w3 → delivery w1 w3.
Proof. intros (os & s & ->) (os' & s' & ->). exists (os ++ os'), s'. cbn. by rewrite app_assoc. Qed.

Lemma delivery_keys w w' key : delivery w w' → key ∈ delivered_keys w → key ∈ delivered_keys w'.
Proof. intros (os & s & ->). unfold delivered_keys. cbn. rewrite fmap_app. set_solver. Qed.

Lemma effects_safe fact currency w :
  base_ok w → EventSettlement fact ∈ tw_log w → Some (sf_settlement_key fact) ∉ delivered_keys w →
  currency_code currency = sf_settlement_currency fact →
  safe (apply_settlement_runtime_effects fact currency : Rust World _) w (λ r w',
    base_ok w' ∧ delivery w w' ∧
    (∀ key, key ∈ delivered_keys w' → key = Some (sf_settlement_key fact) ∨ key ∈ delivered_keys w) ∧
    (is_ok r = true → settlement_runtime_sink w = true → Some (sf_settlement_key fact) ∈ delivered_keys w')).
Proof.
  intros Hb Hf Hnot Hcur. unfold TakerSettlement.apply_settlement_runtime_effects. do 2 runs_step.
  destruct (settlement_runtime_sink w) eqn:Hsink; cbn; [|by runs_step; split_and!; auto using delivery_refl].
  do 4 runs_step. intros account_id _.
  destruct (pnl_observation settlement_kind account_id fact currency) as [o|e] eqn:Hobs.
  2:{ by runs_step; split_and!; auto using delivery_refl. }
  intros r w' Hr. unfold deliver in Hr. destruct (sink_record o (tw_sink w)) as [[r0 sink]|]; [|done].
  injection Hr as -> <-. pose proof (pnl_observation_key _ _ _ _ Hobs) as Hkey.
  unfold with_delivered, delivered_keys. cbn. rewrite fmap_app. csimpl. rewrite Hkey. split_and!.
  - destruct Hb as [Hnd Hown Hdel Hfrom]. constructor; cbn; [done..| |].
    + unfold delivered_keys in *. cbn. rewrite fmap_app. csimpl. rewrite Hkey. apply NoDup_app.
      split_and!; [done|set_solver|apply NoDup_singleton].
    + intros o' [Ho|Ho]%elem_of_app.
      * destruct (Hfrom o' Ho) as (f & c & a & ?). by exists f, c, a.
      * apply list_elem_of_singleton in Ho as ->. by exists fact, currency, account_id.
  - by exists [o], sink.
  - intros key. set_solver.
  - set_solver.
Qed.

(** ** Booking *)

Lemma delivered_known fact w w' :
  known (Some (sf_settlement_key fact)) w → delivery w w' →
  (settlement_runtime_sink w = true → Some (sf_settlement_key fact) ∈ delivered_keys w') → known None w'.
Proof.
  intros Hk Hd Hkey Hh Hnb e He. pose proof Hd as Hd'. destruct Hd' as (os & sink & ->).
  destruct (Hk Hh Hnb e He) as [Hdone Hdel]. split; [exact Hdone|]. intros f Hf Hsink _.
  destruct (decide (sf_settlement_key f = sf_settlement_key fact)) as [->|Hne]; [by apply Hkey|].
  apply (delivery_keys w _ _ Hd), (Hdel f Hf Hsink). congruence.
Qed.

Lemma drop_attempt_ok due delta w : settlements_ok due w → settlements_ok due (drop_attempt delta w).
Proof. unfold drop_attempt. destruct (remove_close_fetch_attempt delta); [apply ok_attempts|done]. Qed.

Lemma drop_attempt_fields delta w :
  tw_log (drop_attempt delta w) = tw_log w ∧ tw_delivered (drop_attempt delta w) = tw_delivered w.
Proof. unfold drop_attempt. by destruct (remove_close_fetch_attempt delta). Qed.

Lemma commit_safe position booking update w :
  settlements_ok None w → is_blind_recovery (tw_exposure w) = false → key_done (bk_settlement_key booking) w = false →
  safe (commit_settlement_booking position booking update : Rust World _) w (λ _, settlements_ok None).
Proof.
  intros Hok Hnb Hkey. unfold TakerSettlement.commit_settlement_booking.
  do 2 runs_step. intros side _. do 2 runs_step. intros strike _. do 4 runs_step. intros currency _.
  do 2 runs_step. intros market_id _.
  destruct (settlement_product_id _) as [product|e]; [|by runs_step].
  set (fact := settlement_evidence _ _ _ _ _ _ _ _ _ _ _ _).
  assert (Hfresh : tw_healthy w = true → event_key (EventSettlement fact) ∉ event_key <$> tw_log w)
    by (by apply key_done_fresh).
  runs_step. eapply safe_mono; [by apply append_fact_safe|].
  intros [|e] w1; [intros [Hh ->]|done]. repeat runs_step.
  set (w2 := drop_attempt _ _).
  assert (Hok2 : settlements_ok (Some (sf_settlement_key fact)) w2).
  { apply drop_attempt_ok. apply (appended_ok (EventSettlement fact)); [done|done|done|by apply Hfresh|done|..]; cbn.
    - set_solver.
    - done.
    - set_solver.
    - by intros ? [= <-]. }
  destruct Hok2 as [Hb2 Hk2].
  assert (Hlog : tw_log w2 = tw_log w ++ [EventSettlement fact]) by exact (proj1 (drop_attempt_fields _ _)).
  assert (Hdel : tw_delivered w2 = tw_delivered w) by exact (proj2 (drop_attempt_fields _ _)).
  eapply safe_mono; [apply (effects_safe fact); [done|..|done]|].
  - rewrite Hlog. set_solver.
  - unfold delivered_keys. rewrite Hdel. intros Hin%(delivered_logged w); [|by apply Hok]. by apply Hfresh.
  - intros [|e] w3 (Hb3 & Hd & _ & Hsink); cbn in Hsink; repeat runs_step.
    + eapply safe_mono; [apply release_settled_safe; split; [exact Hb3|]|].
      { apply (delivered_known fact w2); auto. }
      intros [] w4 Hok4. by runs_step.
    + unfold enter_blind_settlement_recovery. repeat runs_step. by apply ok_blinded.
Qed.

Lemma record_error_safe position key reason detail observed_at_ns w :
  settlements_ok None w → is_blind_recovery (tw_exposure w) = false → key_done key w = false →
  safe (record_settlement_booking_error position key reason detail observed_at_ns : Rust World _) w
    (λ _, settlements_ok None).
Proof.
  intros Hok Hnb Hkey. unfold TakerSettlement.record_settlement_booking_error. do 2 runs_step.
  destruct (decide_settlement_booking_error _ _ _ _ _) as [[transition|]|e] eqn:Hdec; [|by runs_step..].
  unfold decide_settlement_booking_error, terminal_settlement_eligibility in Hdec.
  repeat case_match; simplify_eq/=. unfold apply_terminal_settlement_transition. cbn.
  set (e := EventTerminalSettlement _).
  assert (Hfresh : tw_healthy w = true → event_key e ∉ event_key <$> tw_log w) by (by apply key_done_fresh).
  runs_step. eapply safe_mono; [by apply append_fact_safe|].
  intros [|err] w1; [intros [Hh ->]|done]. repeat runs_step.
  eapply safe_mono; [apply release_settled_safe, drop_attempt_ok, (appended_ok e);
    [done|done|done|by apply Hfresh|done|..]; cbn|].
  - done.
  - set_solver.
  - set_solver.
  - done.
  - intros [] w2 Hok2. by runs_step.
Qed.

(** ** The handlers *)

(** Without the end of the interval no booking error is eligible. *)
Lemma record_error_no_interval position key reason detail observed_at_ns w :
  interval_end_ms (op_lifecycle position) = None →
  (record_settlement_booking_error position key reason detail observed_at_ns : Rust World _) w =
  Some (if bool_decide (key ∈ settlement_booking_error_keys w) then Ok tt
        else Err (lit "terminal settlement is ineligible for live-manageable or nonterminal position " ++
                  position_to_string (op_position_id position)), w).
Proof.
  intros Hend. unfold TakerSettlement.record_settlement_booking_error, mbind, rust_bind, rust_get,
    decide_settlement_booking_error, terminal_settlement_eligibility. cbn. rewrite Hend. cbn.
  by destruct (bool_decide (key ∈ settlement_booking_error_keys w)).
Qed.

(** What a decision says of the keys. *)
Lemma booking_decision_keys (input : ResolutionSettlementInput C) settled errors :
  let key := pk_settlement_key (ri_position input) in
  match try_book_resolution_settlement input settled errors with
  | DecisionSkip _ => True
  | DecisionBookingError _ _ => pk_interval_end_ms (ri_position input) = None ∨ key ∉ settled ∧ key ∉ errors
  | DecisionBook booking => bk_settlement_key booking = key ∧ key ∉ settled ∧ key ∉ errors
  end.
Proof.
  cbn. unfold try_book_resolution_settlement, input_invalid.
  destruct (pk_interval_end_ms (ri_position input)) as [end_ms|]; [|by left].
  destruct (end_ms =? _); [|done]. cbn. destruct (_ || _) eqn:Hkeys; [done|].
  rewrite orb_false_iff, !bool_decide_eq_false in Hkeys.
  repeat case_match; simplify_eq; by auto.
Qed.

Lemma resolution_safe nt update w :
  settlements_ok None w → safe (taker_book_resolution_settlement nt update : Rust World _) w (λ _, settlements_ok None).
Proof.
  intros Hok. unfold TakerSettlement.taker_book_resolution_settlement. do 2 runs_step.
  destruct (settlement_position_candidate nt w) as [position|] eqn:Hc; [|by runs_step].
  pose proof (candidate_not_blind nt w position Hc) as Hnb.
  destruct (settlement_key_for_position position) as [key|e]; [|by runs_step]. do 2 runs_step.
  pose proof (booking_decision_keys (mkResolutionInput (settlement_position_key position key) (ip_ts_event update)
    (tc_rotating_market_family cfg) (ip_value update) (settlement_strike (op_lifecycle position))
    (settlement_lot position) (is_some (lc_market_id (op_lifecycle position))) (tw_capability w))
    (settled_position_keys w) (settlement_booking_error_keys w)) as Hdec. cbn in Hdec. cbn.
  destruct (try_book_resolution_settlement _ _ _) as [reason|reason detail|booking]; [by runs_step|..].
  - runs_step. apply (safe_mono _ _ (λ _, settlements_ok None)); [|by intros [|] ? ?; try runs_step]. destruct Hdec as [Hend|[Hs He]].
    + intros r w'. rewrite (record_error_no_interval _ _ _ _ _ _ Hend). by intros [= _ <-].
    + apply record_error_safe; [done|done|]. unfold key_done. by rewrite !bool_decide_false.
  - destruct Hdec as (Hkey & Hs & He). apply commit_safe; [done|done|]. rewrite Hkey. unfold key_done.
    by rewrite !bool_decide_false.
Qed.

Lemma missing_interval_safe nt position observed_at_ns w :
  settlements_ok None w → settlement_position_candidate nt w = Some position →
  safe (record_missing_interval_end_settlement_booking_error position observed_at_ns : Rust World _) w
    (λ _, settlements_ok None).
Proof.
  intros Hok Hc%candidate_not_blind. unfold TakerSettlement.record_missing_interval_end_settlement_booking_error.
  destruct (is_some _); [by runs_step|]. destruct (settlement_key_for_position position) as [key|e]; [|by runs_step].
  do 2 runs_step. destruct (key_done key w) eqn:Hkey; [by runs_step|]. by apply record_error_safe.
Qed.

Lemma retry_safe position key end_ms now_ms subscribe w :
  settlements_ok None w → is_blind_recovery (tw_exposure w) = false → key_done key w = false →
  safe (retry_settlement_close_fetch_or_record_terminal_failure cfg resolution_instrument_id append_io cancel_io
          position key end_ms now_ms subscribe : Rust World _) w (λ _, settlements_ok None).
Proof.
  intros Hok Hnb Hkey. unfold retry_settlement_close_fetch_or_record_terminal_failure. repeat runs_step.
  set (state := close_fetch_state _ _ _).
  set (w1 := with_attempts (<[key := state]>) w).
  assert (Hok1 : settlements_ok None w1) by (by apply ok_attempts).
  destruct (_ <=? _), (settlement_close_retry_due _ _ _), subscribe; cbn; repeat runs_step;
    first [done | by apply record_error_safe | by apply ok_attempts].
Qed.

Lemma outage_safe nt now_ms subscribe w :
  settlements_ok None w →
  safe (check_resolution_feed_outage_at_market_end nt now_ms subscribe : Rust World _) w (λ _, settlements_ok None).
Proof.
  intros Hok. unfold TakerSettlement.check_resolution_feed_outage_at_market_end. do 2 runs_step.
  destruct (settlement_position_candidate nt w) as [position|] eqn:Hc; [|by runs_step].
  destruct (interval_end_ms (op_lifecycle position)) as [end_ms|].
  - destruct (now_ms <? end_ms); [by runs_step|].
    destruct (settlement_key_for_position position) as [key|e]; [|by runs_step].
    do 2 runs_step. destruct (key_done key w) eqn:Hkey; [by runs_step|].
    apply retry_safe; [done|by eapply candidate_not_blind|done].
  - runs_step. eapply safe_mono; [by eapply missing_interval_safe|]. by intros [|] ? ?; try runs_step.
Qed.

(** ** Start *)

Lemma replay_safe facts : ∀ w,
  base_ok w → (∀ fact, fact ∈ facts → EventSettlement fact ∈ tw_log w) →
  NoDup (sf_settlement_key <$> facts) →
  (∀ fact, fact ∈ facts → Some (sf_settlement_key fact) ∉ delivered_keys w) →
  safe (replay_effects settlement_kind sink_record facts : Rust World bool) w (λ replayed w',
    base_ok w' ∧ delivery w w' ∧
    (replayed = true → settlement_runtime_sink w = true →
     ∀ fact, fact ∈ facts → Some (sf_settlement_key fact) ∈ delivered_keys w')).
Proof.
  induction facts as [|fact facts IH]; intros w Hb Hlog Hnd Hnot; cbn.
  { runs_step. split_and!; [done|apply delivery_refl|set_solver]. }
  do 2 runs_step. csimpl in Hnd. apply NoDup_cons in Hnd as [Hfact Hnd].
  destruct (settlement_currency_of w) as [currency|]; [|by runs_step; split_and!; auto using delivery_refl].
  destruct (bool_decide _) eqn:Hcur; cbn; [|by runs_step; split_and!; auto using delivery_refl].
  apply bool_decide_eq_true in Hcur. runs_step.
  eapply safe_mono; [apply (effects_safe fact); [done|apply Hlog; by left|apply Hnot; by left|done]|].
  intros [|e] w1 (Hb1 & Hd1 & Honly & Hsink); [|by runs_step; split_and!].
  pose proof Hd1 as (os & sink & Hw1).
  eapply safe_mono; [apply IH|].
  - done.
  - intros f Hf. rewrite Hw1. apply Hlog. by right.
  - done.
  - intros f Hf Hin. destruct (Honly _ Hin) as [[= Heq]|Hin']; [|apply (Hnot f); [by right|done]].
    apply Hfact. rewrite <-Heq. by apply list_elem_of_fmap_2.
  - intros replayed w2 (Hb2 & Hd2 & Hall). split_and!; [done|by eapply delivery_trans|].
    intros -> Hs f Hf. apply elem_of_cons in Hf as [->|Hf].
    + eapply delivery_keys; [done|]. by apply Hsink.
    + apply Hall; [done| |done]. by rewrite Hw1.
Qed.

(** Knowing all of the log, whatever becomes of the exposure. *)
Lemma all_known_ok w f : base_ok w → all_known None w → settlements_ok None (with_exposure f w).
Proof. intros [??? Hfrom] Hk. split; [by constructor|]. intros _ _. exact Hk. Qed.

Lemma enter_blind_safe w :
  base_ok w → safe (blind ← enter_blind_settlement_recovery; mret false : Rust World bool) w
    (λ recovered w', recovered = false ∧ settlements_ok None w').
Proof. intros Hb. unfold enter_blind_settlement_recovery. repeat runs_step. split; [done|by apply ok_blinded]. Qed.

(** The recovered facts are the log's own, so a scope that covers them books all of it. *)
Lemma recovery_safe scope settlement booking w :
  base_ok w → tw_delivered w = [] →
  tw_capability w ≫= settlement_recovery = Some settlement →
  tw_capability w ≫= booking_recovery = Some booking →
  recover_settlements (tw_log w) = Ok (settlement, booking) →
  safe (recover_settlement_bootstrap_from_scope cfg settlement_kind sink_record scope : Rust World bool) w
    (λ recovered w', if recovered : bool then base_ok w' ∧ all_known None w' else settlements_ok None w').
Proof.
  intros Hb Hdel Hset Hbook Hrec. unfold recover_settlement_bootstrap_from_scope. do 2 runs_step. rewrite Hset, Hbook.
  assert (Hblind : ∀ w', base_ok w' →
    safe (_ ← enter_blind_settlement_recovery; mret false : Rust World bool) w'
      (λ recovered w'', if recovered : bool then base_ok w'' ∧ all_known None w'' else settlements_ok None w'')).
  { intros w' Hb'. eapply safe_mono; [by apply enter_blind_safe|]. by intros ? ? [-> ?]. }
  destruct (collect_keys scope) as [keys|e]; [|by apply Hblind].
  destruct (recover_settlement_facts _ _ _) as [delta|e] eqn:Hdelta; [|by apply Hblind].
  destruct (recover_settlements_ok (tw_log w) (base_keys w Hb)) as (s & b & Hr & Hp & Hbk).
  rewrite Hrec in Hr. injection Hr as <- <-.
  destruct (recover_own (tw_log w) settlement booking _ keys delta Hp Hbk (base_keys w Hb) (base_own w Hb) Hdelta)
    as [Hev Hkeys].
  assert (Hfacts : ∀ fact, fact ∈ rv_settled_evidence delta ↔ EventSettlement fact ∈ tw_log w).
  { intros fact. rewrite Hev, list_elem_of_omap. split; [|intros ?; by exists (EventSettlement fact)].
    by intros ([f|f] & ? & [= ->]). }
  runs_step. eapply safe_mono; [apply replay_safe|].
  - done.
  - intros fact. by rewrite Hfacts.
  - rewrite Hev. eapply (sublist_NoDup _ (event_key <$> tw_log w)); [apply Hb|]. clear.
    induction (tw_log w) as [|[f|f] log IH]; csimpl; [constructor|by apply sublist_skip|by apply sublist_cons].
  - intros fact _. unfold delivered_keys. rewrite Hdel. set_solver.
  - intros [] w1 (Hb1 & Hd & Hall); cbn; [|by apply Hblind]. repeat runs_step.
    destruct Hd as (os & sink & ->). split; [by destruct Hb1; constructor|].
    intros e He. cbn in He. split.
    + unfold key_done. rewrite orb_true_iff, !bool_decide_eq_true. cbn. specialize (Hkeys e He). set_solver.
    + intros fact -> Hs _. by apply Hall; [|exact Hs|apply Hfacts].
Qed.

Lemma bootstrap_safe cached venue settlement booking w :
  base_ok w → tw_delivered w = [] →
  tw_capability w ≫= settlement_recovery = Some settlement →
  tw_capability w ≫= booking_recovery = Some booking →
  recover_settlements (tw_log w) = Ok (settlement, booking) →
  safe (bootstrap_recovery_from_cache cfg settlement_kind sink_record cached venue : Rust World unit) w
    (λ _, settlements_ok None).
Proof.
  intros Hb Hdel Hset Hbook Hrec. unfold bootstrap_recovery_from_cache.
  destruct cached as [[opened closed]|]; [|runs_step; by apply ok_blinded].
  runs_step. eapply safe_mono; [by eapply recovery_safe|].
  intros [] w1 H1; cbn; [|by runs_step]. destruct H1 as [Hb1 Hk1].
  destruct opened as [|position [|]]; runs_step; by apply all_known_ok.
Qed.

Lemma start_safe sink account_id currency cached venue runtime w w' :
  base_ok w → start_process sink account_id currency cached venue runtime w = Ok (Some w') → settlements_ok None w'.
Proof.
  intros Hb Hstart. unfold TakerSettlement.start_process in Hstart.
  destruct (recover_settlements (tw_log w)) as [[settlement booking]|e] eqn:Hrec; [|done]. cbn in Hstart.
  destruct (bootstrap_recovery_from_cache _ _ _ _ _ _) as [[[] w1]|] eqn:Hboot; [|done]. injection Hstart as <-.
  eapply (bootstrap_safe cached venue settlement booking); [..|exact Hboot]; try done.
  destruct Hb as [Hnd Hown _ _]. constructor; cbn; [done..|constructor|set_solver].
Qed.

Lemma taker_step_ok w w' : settlements_ok None w → taker_step w w' → settlements_ok None w'.
Proof.
  intros Hok. destruct 1 as [sink account_id currency cached venue runtime w' Hstart|op Hal|active|nt update r w' Hr
    |nt now_ms subscribe r w' Hr|nt position observed_at_ns r w' Hc Hr].
  - eapply start_safe; [|exact Hstart]. apply Hok.
  - apply ok_exposure; [|done]. by apply blind_kept.
  - destruct Hok as [[??? Hfrom] Hk]. split; [by constructor|exact Hk].
  - exact (resolution_safe nt update w Hok _ _ Hr).
  - exact (outage_safe nt now_ms subscribe w Hok _ _ Hr).
  - exact (missing_interval_safe nt position observed_at_ns w Hok Hc _ _ Hr).
Qed.

Lemma taker_reachable_ok w : taker_reachable w → settlements_ok None w.
Proof.
  induction 1 as [w Hlog Hdel|w w' _ IH Hstep]; [|by eapply taker_step_ok].
  split.
  - constructor; unfold delivered_keys; rewrite ?Hlog, ?Hdel; [constructor..|set_solver].
  - intros _ _ e. rewrite Hlog. set_solver.
Qed.

(** C11: in every history of starts, resolution ticks, close-fetch retries, exposure changes
    and failing appends, no settlement key is recorded twice, so the recovery of the log
    succeeds at every start; what was handed to the runtime sink is the observation of a
    durable settlement, no key twice in a process; and unless the exposure is blind or the
    sink poisoned, every event of the log counts as booked and every settlement in it has
    been handed to a configured runtime sink. *)
Theorem settlements_recorded_and_delivered_once w :
  taker_reachable w →
  NoDup (event_key <$> tw_log w) ∧ is_ok (recover_settlements (tw_log w)) = true ∧
  NoDup (event_id <$> tw_delivered w) ∧
  (∀ o, o ∈ tw_delivered w → observed_of w o) ∧
  (is_blind_recovery (tw_exposure w) = false → tw_healthy w = true →
   ∀ e, e ∈ tw_log w → key_done (event_key e) w = true ∧
     ∀ fact, e = EventSettlement fact → settlement_runtime_sink w = true →
       ∃ o, o ∈ tw_delivered w ∧ event_id o = Some (sf_settlement_key fact)).
Proof.
  intros [[Hnd Hown Hdel Hfrom] Hk]%taker_reachable_ok. split_and!; [done| |done|done|].
  - by destruct (recover_settlements_ok _ Hnd) as (s & b & -> & _).
  - intros Hnb Hh e He. destruct (Hk Hh Hnb e He) as [Hd Hdeliver]. split; [done|]. intros fact -> Hs.
    destruct (proj1 (list_elem_of_fmap _ _ _) (Hdeliver fact eq_refl Hs ltac:(done))) as (o & Hkey & Ho). by exists o.
Qed.

(** C40: while the lifecycle of a position lacks the end of its interval, nothing settles it
    and nothing records that it cannot be settled: the booking error the handlers mean to
    record is ineligible, so the resolution tick, the outage check and the check that
    precedes every exit attempt change nothing, and fail unless its key was done before. *)
Theorem missing_interval_never_settles nt position w :
  settlement_position_candidate nt w = Some position →
  interval_end_ms (op_lifecycle position) = None →
  let ineligible := lit "terminal settlement is ineligible for live-manageable or nonterminal position " ++
                    position_to_string (op_position_id position) in
  (∀ observed_at_ns, record_missing_interval_end_settlement_booking_error position observed_at_ns w =
     Some (key ←? settlement_key_for_position position; if key_done key w then Ok tt else Err ineligible, w)) ∧
  (∀ now_ms subscribe, check_resolution_feed_outage_at_market_end nt now_ms subscribe w =
     Some (key ←? settlement_key_for_position position; if key_done key w then Ok tt else Err ineligible, w)) ∧
  (∀ update, taker_book_resolution_settlement nt update w =
     Some (key ←? settlement_key_for_position position;
           if bool_decide (key ∈ settlement_booking_error_keys w) then Ok tt else Err ineligible, w)).
Proof.
  intros Hc Hend ineligible.
  assert (Hexit : ∀ observed_at_ns, record_missing_interval_end_settlement_booking_error position observed_at_ns w =
     Some (key ←? settlement_key_for_position position; if key_done key w then Ok tt else Err ineligible, w)).
  { intros observed_at_ns. unfold TakerSettlement.record_missing_interval_end_settlement_booking_error. rewrite Hend.
    cbn. destruct (settlement_key_for_position position) as [key|e]; [|done].
    unfold mbind, rust_bind, rust_get. destruct (key_done key w) eqn:Hkey; cbn; [by rewrite Hkey|].
    rewrite (record_error_no_interval _ _ _ _ _ _ Hend). rewrite Hkey. unfold key_done in Hkey.
    apply orb_false_iff in Hkey as [_ ->]. done. }
  split_and!; [done|..].
  - intros now_ms subscribe. unfold TakerSettlement.check_resolution_feed_outage_at_market_end.
    unfold mbind, rust_bind at 1, rust_get. rewrite Hc, Hend.
    unfold try_bind, mbind, rust_bind. rewrite Hexit.
    destruct (settlement_key_for_position position) as [key|e]; cbn; [by destruct (key_done key w)|done].
  - intros update. unfold TakerSettlement.taker_book_resolution_settlement.
    unfold mbind, rust_bind at 1, rust_get. rewrite Hc.
    destruct (settlement_key_for_position position) as [key|e]; [|done].
    unfold rust_bind. cbn. unfold try_book_resolution_settlement. cbn. rewrite Hend. cbn.
    unfold try_bind, mbind, rust_bind. rewrite (record_error_no_interval _ _ _ _ _ _ Hend).
    by destruct (bool_decide _).
Qed.
End Facts.

(** ** A history *)

Module SettlementDemo.
#[local] Instance nt : NtTypes := demo_nt.

(** Whole doubles print as their digits. *)
Definition whole_text (v : f64) : text :=
  match v with
  | S754_finite s m e => d_to_string (if s then - Z.shiftl (Z.pos m) e else Z.shiftl (Z.pos m) e)
  | _ => d_to_string 0
  end.

#[local] Instance platform : TakerPlatform unit :=
  {| position_to_string := id; instrument_id_to_string := id; instrument_symbol := id;
     instrument_venue := λ _, tt; quantity_to_string := d_to_string;
     quantity_as_f64 := λ q, f64_of q 0; f64_to_string := whole_text |}.

#[local] Instance text_currency : CurrencyOps text :=
  {| currency_eq_dec := _; currency_code := id; currency_try_from_str := Some |}.

Definition config : TakerConfig := mkTakerConfig (lit "taker") (lit "updown") 3 1.
Definition committed (n : nat) : AppendOutcome := AppendCommitted.
Definition returned (id : ClientOrderId) : CancelRouting := CancelReturned.
Definition usd : text := lit "USD".

Abbreviation World := (TakerWorld (Venue := unit) (Book := unit) (D := Z) (C := text) (W := list Z)).

(** A runtime sink that keeps the profits. *)
Definition keep (o : PositionRealizedPnlObservation Z text) : Rust (list Z) (Result unit text) :=
  λ s, Some (Ok tt, s ++ [realized_pnl (observed o)]).

Abbreviation reachable :=
  (taker_reachable config (lit "settlement") None committed returned keep).

Definition idle : ActiveMarket (Book := unit) := mkActiveMarket None None None None None None (None, tt) (None, tt).
Definition first : World := mkTakerWorld owner_new idle ∅ ∅ ∅ ∅ None [] true 0 [] [].

Definition started (r : Result (option World) text) : World :=
  match r with Ok (Some w) => w | _ => first end.
Definition after {A} (r : option (A * World)) : World := match r with Some (_, w) => w | None => first end.

Definition boot (closed : list (OpenPositionState unit)) (w : World) : World :=
  started (start_process config (lit "settlement") keep true (Some (lit "account")) (Some usd)
             (Some ([], closed)) tt [] w).

Definition entry (l : BoltV3PositionMarketLifecycle) : PendingEntryState unit :=
  mkPendingEntry (lit "entry-1") (Some 5) l (lit "up-7") tt.
Definition held (l : BoltV3PositionMarketLifecycle) : ManagedPositionContext unit :=
  mkManaged l (pe_instrument_id (entry l)) (lit "position-1") tt.
Definition spec (l : BoltV3PositionMarketLifecycle) (id : PositionId) : option PositionMaterializationSpec :=
  Some (mkSpec (mp_instrument_id (held l)) (mp_position_id (held l)) OrderBuy PositionLong 4 HALF_F64).
Definition held_position (l : BoltV3PositionMarketLifecycle) : OpenPositionState unit :=
  mkOpenPosition l (mp_instrument_id (held l)) (mp_position_id (held l)) OrderBuy PositionLong 4 HALF_F64 tt.

(** Four shares bought at a half, of a market with a strike of 100. *)
Definition known_market : BoltV3PositionMarketLifecycle :=
  from_entry_context (Some (lit "market")) (Some OutcomeUp) (Some (f64_of 100 0)) None (Some 900000) None None.

Definition holding (l : BoltV3PositionMarketLifecycle) : World :=
  with_exposure (exposure_apply (OpMaterialize (held l) false CacheProbeFailed))
    (with_exposure (exposure_apply (OpArm (entry l))) (boot [] first)).

Definition close_at_101 : IndexPriceUpdate := mkIndexPrice (lit "index") (f64_of 101 0) 900000000000.

Definition after_close : World :=
  after (taker_book_resolution_settlement config (lit "settlement") None committed returned keep
           (spec known_market) close_at_101 (holding known_market)).
Definition restarted : World := boot [held_position known_market] after_close.

Lemma booted closed (w : World) :
  reachable w →
  match start_process config (lit "settlement") keep true (Some (lit "account")) (Some usd) (Some ([], closed)) tt [] w with
  | Ok (Some _) => true | _ => false end = true →
  reachable (boot closed w).
Proof.
  intros Hw Hs. unfold boot. destruct (start_process _ _ _ _ _ _ _ _ _ w) as [[w'|]|] eqn:Hr; [|done|done].
  eapply taker_reachable_step; [exact Hw|]. eapply step_start. exact Hr.
Qed.

Lemma holding_reachable l : reachable (holding l).
Proof.
  assert (H0 : reachable (boot [] first)).
  { apply booted; [apply taker_reachable_first; reflexivity|]. vm_compute. reflexivity. }
  assert (H1 : reachable (with_exposure (exposure_apply (OpArm (entry l))) (boot [] first))).
  { eapply taker_reachable_step; [exact H0|]. exact (step_exposure _ _ _ _ _ _ (boot [] first) (OpArm (entry l)) I). }
  eapply taker_reachable_step; [exact H1|].
  exact (step_exposure _ _ _ _ _ _ (with_exposure (exposure_apply (OpArm (entry l))) (boot [] first))
           (OpMaterialize (held l) false CacheProbeFailed) I).
Qed.

Lemma after_close_reachable : reachable after_close.
Proof.
  eapply taker_reachable_step; [apply (holding_reachable known_market)|].
  unfold after_close. destruct (taker_book_resolution_settlement _ _ _ _ _ _ _ _ _) as [[r w]|] eqn:Hr.
  - eapply step_resolution. exact Hr.
  - exfalso. revert Hr. vm_compute. discriminate.
Qed.
Lemma restarted_reachable : reachable restarted.
Proof. apply booted; [apply after_close_reachable|]. vm_compute. reflexivity. Qed.

(** Booked at the close, a profit of 4 - 2; after a restart the same key is booked and
    delivered to the new process. *)
Lemma settlements_recorded_and_delivered_once_witness :
  length (tw_log after_close) = 1%nat ∧ tw_log restarted = tw_log after_close ∧
  tw_sink after_close = [2] ∧ tw_sink restarted = [2] ∧
  entry_gate (tw_exposure after_close) = GateOpen ∧ entry_gate (tw_exposure restarted) = GateOpen ∧
  NoDup (event_key <$> tw_log restarted) ∧ NoDup (event_id <$> tw_delivered restarted) ∧
  is_ok (recover_settlements (tw_log restarted)) = true.
Proof.
  destruct (settlements_recorded_and_delivered_once config (lit "settlement") None committed returned keep
              restarted restarted_reachable) as (Hkeys & Hrec & Hdel & _ & _).
  split_and!; [vm_compute; reflexivity|vm_compute; reflexivity|vm_compute; reflexivity|vm_compute; reflexivity
    |vm_compute; reflexivity|vm_compute; reflexivity|exact Hkeys|exact Hdel|exact Hrec].
Defined.

(** A position recovered without its market. *)
Definition lost : World := holding lifecycle_missing.

Lemma missing_interval_never_settles_witness :
  settlement_position_candidate (spec lifecycle_missing) lost = Some (held_position lifecycle_missing) ∧
  check_resolution_feed_outage_at_market_end config None committed returned (spec lifecycle_missing) 900000 Dispatched
    lost =
  Some (Err (lit "terminal settlement is ineligible for live-manageable or nonterminal position position-1"), lost).
Proof.
  assert (Hc : settlement_position_candidate (spec lifecycle_missing) lost = Some (held_position lifecycle_missing))
    by reflexivity.
  split; [exact Hc|].
  destruct (missing_interval_never_settles config (lit "settlement") None committed returned keep
              (spec lifecycle_missing) (held_position lifecycle_missing) lost Hc eq_refl) as (_ & Hout & _).
  refine (eq_trans (Hout 900000 Dispatched) _).
  refine (f_equal (λ r, Some (r, lost)) _). vm_compute. reflexivity.
Defined.
End SettlementDemo.
