(* ===== verification/LossFeed.v ===== *)
(** * The runtime feed of the loss governor

    [src/src/bolt_v3_loss_runtime_feed.rs]: from the account states, portfolio snapshots
    and position events of the node, the figures the loss governor judges.  A complete set
    is published to submit admission and to the halt handler.

    The feed's struct is grouped into records by what its functions touch.  The loss inputs
    of submit admission are the three fields [update_loss_snapshot],
    [update_loss_source_observations] and [update_loss_freshness] set; the calls of the
    halt handler are kept in order.  [None] is the panic of a decimal operation that
    overflows.  The handlers [subscribe_loss_governor_runtime_feed] installs do what
    [on_portfolio_snapshot], [on_account_state] and [on_position_event] do. *)

From Stdlib Require Import ZArith Lia.
From stdpp Require Import sorting strings gmap numbers list.
From S2P Require Import Prelude.
From S2P Require Import RustText.
From S2P Require Import BTree.
From S2P Require Import NtTypes.
From S2P Require Import DecimalAmount.
From S2P Require Import LossGovernor.
From S2P Require Import LossProtection.
From S2P Require Import SubmitAdmissionState.

Open Scope Z_scope.

Inductive PerTradePnlSource : Type := PortfolioBaseline | PnlPositionEvent.

#[global] Instance PerTradePnlSource_eq_dec : EqDecision PerTradePnlSource.
Proof. solve_decision. Defined.

Section Feed.
Context `{NT : NtTypes} {D C : Type} `{DO : DecimalOps D} `{CO : CurrencyOps C}.

Definition account_eqb (a b : AccountId) : bool := match ord_cmp a b with Eq => true | _ => false end.

(** ** Events of the node *)

Record Money : Type := mkMoney { money_currency : C; money_decimal : D }.

Record PortfolioSnapshot : Type := mkPortfolio {
  pf_account_id : AccountId;
  pf_base_currency : option C;
  unrealized_pnls : list Money;
  realized_pnls : list Money;
  pf_total_equity : list Money;
  pf_ts_event : Z;
  pf_ts_init : Z;
}.

(** Of the balances, the totals. *)
Record AccountState : Type := mkAccountState {
  ac_account_id : AccountId;
  ac_base_currency : option C;
  balances : list Money;
  ac_ts_event : Z;
  ac_ts_init : Z;
}.

Record PositionEventHead : Type := mkHead {
  pv_account_id : AccountId;
  pv_position_id : PositionId;
  pv_ts_event : Z;
  pv_ts_init : Z;
}.

Inductive PositionEvent : Type :=
| PositionOpened (head : PositionEventHead) (currency : C)
| PositionChanged (head : PositionEventHead) (realized_pnl : option Money) (unrealized_pnl : Money)
| PositionClosed (head : PositionEventHead) (realized_pnl : option Money) (unrealized_pnl : Money)
| PositionAdjusted (head : PositionEventHead) (pnl_change : option Money).

Definition position_event_head (e : PositionEvent) : PositionEventHead :=
  match e with
  | PositionOpened head _ | PositionChanged head _ _ | PositionClosed head _ _ | PositionAdjusted head _ => head
  end.

(** ** State *)

Record LossGovernorRuntimeFeedConfig : Type := mkFeedConfig {
  fc_account_id : AccountId;
  rolling_window_ns : Z;
  active_position_pnl_max_entries : Z;
}.

Record TimedDecimal : Type := mkTimed { td_value : D; td_observed_at_ns : Z }.

(** [previous_daily_pnl] to [rolling_pnl]. *)
Record RollingState : Type := mkRolling {
  previous_daily_pnl : option TimedDecimal;
  previous_total_equity : option TimedDecimal;
  rolling_samples : list TimedDecimal;
  feed_rolling_pnl : option TimedDecimal;
}.

(** [per_trade_pnl] to [last_position_pnl]. *)
Record PositionPnlState : Type := mkPositionPnl {
  feed_per_trade_pnl : option TimedDecimal;
  per_trade_pnl_source : option PerTradePnlSource;
  active_position_pnls : BTreeMap PositionId TimedDecimal;
  active_position_pnl_overflow_floor : option TimedDecimal;
  last_position_pnl : option TimedDecimal;
}.

(** [daily_pnl], the equity figures and the baseline. *)
Record EquityState : Type := mkEquity {
  feed_daily_pnl : option TimedDecimal;
  feed_current_equity : option TimedDecimal;
  feed_peak_equity : option TimedDecimal;
  account_state_equity_baseline : option TimedDecimal;
  portfolio_pnl_observed : bool;
}.

Record LossGovernorRuntimeFeedState : Type := mkFeedState {
  feed_currency : option C;
  feed_rolling : RollingState;
  feed_positions : PositionPnlState;
  feed_equity : EquityState;
  feed_freshness : BoltV3LossFreshness;
  latest_snapshot : option (LossSnapshot D);
  feed_observations : LossSourceObservationTimestamps;
}.

Definition feed_state_new : LossGovernorRuntimeFeedState :=
  mkFeedState None (mkRolling None None [] None) (mkPositionPnl None None [] None None)
    (mkEquity None None None None false) freshness_empty None unobserved.

(** The feed with what it writes to: the loss inputs of submit admission and the handler. *)
Record FeedWorld : Type := mkFeedWorld {
  fw_state : LossGovernorRuntimeFeedState;
  fw_loss_snapshot : option (LossSnapshot D);
  fw_loss_observations : LossSourceObservationTimestamps;
  fw_loss_freshness : BoltV3LossFreshness;
  fw_calls : list (option (LossSnapshot D) * Z * LossSourceObservationTimestamps);
}.

Implicit Types (s : LossGovernorRuntimeFeedState) (p : PositionPnlState) (r : RollingState) (q : EquityState).

(** ** Position profits *)

Definition worse_timed_decimal (current : option TimedDecimal) (candidate : TimedDecimal) : TimedDecimal :=
  match current with
  | Some current => if d_leb (td_value current) (td_value candidate) then current else candidate
  | None => candidate
  end.

(** [Iterator::min_by_key] over the values: the first of equal minima. *)
Definition min_by_value (l : list TimedDecimal) : option TimedDecimal :=
  match l with
  | [] => None
  | t :: l => Some (foldl (λ acc t, if d_gtb (td_value acc) (td_value t) then t else acc) t l)
  end.

Definition opt_list {A} (o : option A) : list A := match o with Some a => [a] | None => [] end.

Definition position_pnls p : list TimedDecimal :=
  bt_values (active_position_pnls p) ++ opt_list (active_position_pnl_overflow_floor p) ++ opt_list (last_position_pnl p).

Definition refresh_effective_per_trade_pnl p : PositionPnlState :=
  match min_by_value (position_pnls p) with
  | Some worst =>
      mkPositionPnl (Some worst) (Some PnlPositionEvent) (active_position_pnls p)
        (active_position_pnl_overflow_floor p) (last_position_pnl p)
  | None => p
  end.

Definition record_position_pnl p (position_id : PositionId) (position_pnl : TimedDecimal)
    (closed reset_completed_position_pnl : bool) (max_entries : Z) : PositionPnlState :=
  let last := if reset_completed_position_pnl then None else last_position_pnl p in
  let active := active_position_pnls p in
  let '(active, floor) :=
    if closed then (bt_remove active position_id, active_position_pnl_overflow_floor p)
    else if is_some (bt_get active position_id) || (Z.of_nat (length active) <? max_entries)
    then (bt_insert active position_id position_pnl, active_position_pnl_overflow_floor p)
    else (active, Some (worse_timed_decimal (active_position_pnl_overflow_floor p) position_pnl)) in
  let last := if reset_completed_position_pnl then last else Some position_pnl in
  refresh_effective_per_trade_pnl (mkPositionPnl (feed_per_trade_pnl p) (per_trade_pnl_source p) active floor last).

Definition restamp (observed_at_ns : Z) (t : TimedDecimal) : TimedDecimal := mkTimed (td_value t) observed_at_ns.

Definition refresh_per_trade_pnl_clock p (observed_at_ns : Z) : PositionPnlState :=
  if bool_decide (per_trade_pnl_source p = Some PnlPositionEvent) then
    refresh_effective_per_trade_pnl
      (mkPositionPnl (feed_per_trade_pnl p) (per_trade_pnl_source p)
         (prod_map id (restamp observed_at_ns) <$> active_position_pnls p)
         (restamp observed_at_ns <$> active_position_pnl_overflow_floor p)
         (restamp observed_at_ns <$> last_position_pnl p))
  else mkPositionPnl (Some (mkTimed d_zero observed_at_ns)) (Some PortfolioBaseline) (active_position_pnls p)
         (active_position_pnl_overflow_floor p) (last_position_pnl p).

(** ** Rolling profit *)

(** [Iterator::sum] of decimals: panics on overflow. *)
Definition d_sum (l : list D) : option D :=
  foldl (λ acc d, acc ← acc; d_checked_add acc d) (Some d_zero) l.

(** [while front().is_some_and(older) { pop_front() }]. *)
Fixpoint pop_older (oldest_accepted : Z) (samples : list TimedDecimal) : list TimedDecimal :=
  match samples with
  | sample :: samples' =>
      if td_observed_at_ns sample <? oldest_accepted then pop_older oldest_accepted samples' else samples
  | [] => []
  end.

(** The delta of a new daily figure; a figure that starts again from zero is its own delta
    when the equity moved by it. *)
Definition rolling_delta r (daily_pnl current_equity : D) : option (option D) :=
  match previous_daily_pnl r with
  | None => Some None
  | Some previous =>
      cumulative_delta ← d_sub daily_pnl (td_value previous);
      match previous_total_equity r with
      | Some previous_equity =>
          equity_delta ← d_sub current_equity (td_value previous_equity);
          Some (Some (if negb (d_eqb cumulative_delta daily_pnl) && d_eqb equity_delta daily_pnl
                      then daily_pnl else cumulative_delta))
      | None => Some (Some cumulative_delta)
      end
  end.

Definition update_rolling_pnl r (daily_pnl current_equity : D) (observed_at_ns window_ns : Z) : option RollingState :=
  delta ← rolling_delta r daily_pnl current_equity;
  let samples := rolling_samples r ++ opt_list ((λ d, mkTimed d observed_at_ns) <$> delta) in
  let samples := pop_older (u64_saturating_sub observed_at_ns window_ns) samples in
  rolling_pnl ← d_sum (td_value <$> samples);
  Some (mkRolling (Some (mkTimed daily_pnl observed_at_ns)) (Some (mkTimed current_equity observed_at_ns)) samples
          (Some (mkTimed rolling_pnl observed_at_ns))).

(** ** Equity *)

Definition preserve_or_raise_peak_equity (peak : option TimedDecimal) (current_equity : D) (observed_at_ns : Z)
    : option TimedDecimal :=
  match peak with
  | Some p => if d_gtb (td_value p) current_equity then peak else Some (mkTimed current_equity observed_at_ns)
  | None => Some (mkTimed current_equity observed_at_ns)
  end.

(** [daily_pnl], [current_equity] and [peak_equity] as both events set them. *)
Definition set_equity q (daily_pnl current_equity : D) (observed_at_ns : Z) : EquityState :=
  mkEquity (Some (mkTimed daily_pnl observed_at_ns)) (Some (mkTimed current_equity observed_at_ns))
    (preserve_or_raise_peak_equity (feed_peak_equity q) current_equity observed_at_ns)
    (account_state_equity_baseline q) (portfolio_pnl_observed q).

(** ** Money *)

(** The loops that look for one currency; the inner [None] is a second one. *)
Fixpoint single_currency (currency : option C) (moneys : list Money) : option C :=
  match moneys with
  | [] => currency
  | m :: moneys =>
      match currency with
      | Some existing =>
          if negb (bool_decide (existing = money_currency m)) then None else single_currency currency moneys
      | None => single_currency (Some (money_currency m)) moneys
      end
  end.

Definition portfolio_currency (snapshot : PortfolioSnapshot) : option C :=
  match pf_base_currency snapshot with
  | Some c => Some c
  | None => single_currency None (unrealized_pnls snapshot ++ realized_pnls snapshot ++ pf_total_equity snapshot)
  end.

Definition account_currency (state : AccountState) : option C :=
  match ac_base_currency state with Some c => Some c | None => single_currency None (balances state) end.

(** [sum_money] and [account_total_equity]: nothing found is [Some None]. *)
Definition sum_money (moneys : list Money) (currency : C) : option (option D) :=
  match filter (λ m, bool_decide (money_currency m = currency)) moneys with
  | [] => Some None
  | found => total ← d_sum (money_decimal <$> found); Some (Some total)
  end.

Definition combined_position_pnl (realized_pnl : option Money) (unrealized_pnl : Money) : option (option D) :=
  match realized_pnl with
  | Some realized =>
      if bool_decide (money_currency realized = money_currency unrealized_pnl)
      then total ← d_checked_add (money_decimal realized) (money_decimal unrealized_pnl); Some (Some total)
      else Some None
  | None => Some (Some (money_decimal unrealized_pnl))
  end.

Record PositionPnlFact : Type := mkPnlFact {
  fact_account_id : AccountId;
  fact_position_id : PositionId;
  fact_currency : C;
  fact_per_trade_pnl : option D;
  fact_observed_at_ns : Z;
  fact_closed : bool;
  fact_reset_completed : bool;
}.

Definition pnl_fact (head : PositionEventHead) (currency : C) (pnl : option D) (closed reset : bool) : PositionPnlFact :=
  mkPnlFact (pv_account_id head) (pv_position_id head) currency pnl (pv_ts_event head) closed reset.

Definition position_pnl_fact (e : PositionEvent) : option (option PositionPnlFact) :=
  let valued head (realized : option Money) (unrealized : Money) (closed : bool) : option (option PositionPnlFact) :=
    pnl ← (combined_position_pnl realized unrealized : option (option D));
    Some (pnl ← (pnl : option D); Some (pnl_fact head (money_currency unrealized) (Some pnl) closed false)) in
  match e with
  | PositionOpened head currency => Some (Some (pnl_fact head currency (Some d_zero) false true))
  | PositionChanged head realized unrealized => valued head realized unrealized false
  | PositionClosed head realized unrealized => valued head realized unrealized true
  | PositionAdjusted head pnl_change =>
      Some (change ← pnl_change; Some (pnl_fact head (money_currency change) None false false))
  end.

(** ** The feed *)

Context (config : LossGovernorRuntimeFeedConfig) (has_handler : bool).
Abbreviation Feed := (Rust FeedWorld).

(** [?] on an option. *)
Definition try_some {A B} (o : option A) (k : A → Feed (option B)) : Feed (option B) :=
  match o with Some a => k a | None => mret None end.

Definition modify_state (f : LossGovernorRuntimeFeedState → LossGovernorRuntimeFeedState) : Feed unit :=
  rust_modify (λ w, mkFeedWorld (f (fw_state w)) (fw_loss_snapshot w) (fw_loss_observations w) (fw_loss_freshness w)
                      (fw_calls w)).
Definition get_state : Feed LossGovernorRuntimeFeedState := rust_get fw_state.

Definition set_currency (currency : C) s : LossGovernorRuntimeFeedState :=
  mkFeedState (Some currency) (feed_rolling s) (feed_positions s) (feed_equity s) (feed_freshness s)
    (latest_snapshot s) (feed_observations s).
Definition set_rolling r s : LossGovernorRuntimeFeedState :=
  mkFeedState (feed_currency s) r (feed_positions s) (feed_equity s) (feed_freshness s) (latest_snapshot s)
    (feed_observations s).
Definition set_positions p s : LossGovernorRuntimeFeedState :=
  mkFeedState (feed_currency s) (feed_rolling s) p (feed_equity s) (feed_freshness s) (latest_snapshot s)
    (feed_observations s).
Definition set_equity_state q s : LossGovernorRuntimeFeedState :=
  mkFeedState (feed_currency s) (feed_rolling s) (feed_positions s) q (feed_freshness s) (latest_snapshot s)
    (feed_observations s).
Definition set_freshness (freshness : BoltV3LossFreshness) s : LossGovernorRuntimeFeedState :=
  mkFeedState (feed_currency s) (feed_rolling s) (feed_positions s) (feed_equity s) freshness (latest_snapshot s)
    (feed_observations s).
Definition set_latest (snapshot : LossSnapshot D) s : LossGovernorRuntimeFeedState :=
  mkFeedState (feed_currency s) (feed_rolling s) (feed_positions s) (feed_equity s) (feed_freshness s) (Some snapshot)
    (feed_observations s).
Definition set_observations (observations : LossSourceObservationTimestamps) s : LossGovernorRuntimeFeedState :=
  mkFeedState (feed_currency s) (feed_rolling s) (feed_positions s) (feed_equity s) (feed_freshness s)
    (latest_snapshot s) observations.

Definition saturating_inc (n : Z) : Z := Z.min (n + 1) u64_max.

Definition record_portfolio_snapshot_freshness (at_ns : Z) (f : BoltV3LossFreshness) : BoltV3LossFreshness :=
  mkFreshness (account_state_count f) (saturating_inc (portfolio_snapshot_count f)) (position_event_count f)
    (last_account_state_ts_ns f) (Some at_ns) (last_position_event_ts_ns f).
Definition record_account_state_freshness (at_ns : Z) (f : BoltV3LossFreshness) : BoltV3LossFreshness :=
  mkFreshness (saturating_inc (account_state_count f)) (portfolio_snapshot_count f) (position_event_count f)
    (Some at_ns) (last_portfolio_snapshot_ts_ns f) (last_position_event_ts_ns f).
Definition record_position_event_freshness (at_ns : Z) (f : BoltV3LossFreshness) : BoltV3LossFreshness :=
  mkFreshness (account_state_count f) (portfolio_snapshot_count f) (saturating_inc (position_event_count f))
    (last_account_state_ts_ns f) (last_portfolio_snapshot_ts_ns f) (Some at_ns).

(** The freshness recorded and passed on. *)
Definition note_freshness (record : BoltV3LossFreshness → BoltV3LossFreshness) : Feed unit :=
  modify_state (λ s, set_freshness (record (feed_freshness s)) s) ;;
  rust_modify (λ w, mkFeedWorld (fw_state w) (fw_loss_snapshot w) (fw_loss_observations w)
                      (feed_freshness (fw_state w)) (fw_calls w)).

(** The observation recorded and passed on. *)
Definition note_observation (record : LossSourceObservationTimestamps → LossSourceObservationTimestamps) : Feed unit :=
  modify_state (λ s, set_observations (record (feed_observations s)) s) ;;
  rust_modify (λ w, mkFeedWorld (fw_state w) (fw_loss_snapshot w) (feed_observations (fw_state w))
                      (fw_loss_freshness w) (fw_calls w)).

Definition accept_currency (currency : C) : Feed bool :=
  s ← get_state;
  match feed_currency s with
  | Some existing => mret (bool_decide (existing = currency))
  | None => modify_state (set_currency currency) ;; mret true
  end.

Definition snapshot_of s : option (LossSnapshot D) :=
  per_trade ← feed_per_trade_pnl (feed_positions s);
  daily ← feed_daily_pnl (feed_equity s);
  rolling ← feed_rolling_pnl (feed_rolling s);
  equity ← feed_current_equity (feed_equity s);
  peak ← feed_peak_equity (feed_equity s);
  Some (mkLossSnapshot (Some NtLossRuntimeFeed)
          (Z.min (Z.min (Z.min (td_observed_at_ns per_trade) (td_observed_at_ns daily)) (td_observed_at_ns rolling))
             (td_observed_at_ns equity))
          (Some (td_value per_trade)) (Some (td_value daily)) (Some (td_value rolling)) (Some (td_value equity))
          (Some (td_value peak)) (feed_observations s)).

Definition publish_if_complete : Feed (option (LossSnapshot D)) :=
  s ← get_state;
  match snapshot_of s with
  | None => mret None
  | Some snapshot =>
      rust_modify (λ w, mkFeedWorld (fw_state w) (Some snapshot) (source_observations snapshot)
                          (fw_loss_freshness w) (fw_calls w)) ;;
      modify_state (set_latest snapshot) ;;
      mret (Some snapshot)
  end.

Definition on_portfolio_snapshot_without_halt_action (snapshot : PortfolioSnapshot) : Feed (option (LossSnapshot D)) :=
  if negb (account_eqb (pf_account_id snapshot) (fc_account_id config)) then mret None
  else
    let at_ns := pf_ts_event snapshot in
    note_freshness (record_portfolio_snapshot_freshness at_ns) ;;
    try_some (portfolio_currency snapshot) (λ currency,
      accepted ← accept_currency currency;
      if negb accepted then mret None
      else
        note_observation (λ o, mkObservations (last_account_state_observed_at_ns o) (Some at_ns)
                                 (last_position_event_observed_at_ns o)) ;;
        daily ← lift_panic (sum_money (realized_pnls snapshot ++ unrealized_pnls snapshot) currency);
        try_some daily (λ daily_pnl,
          equity ← lift_panic (sum_money (pf_total_equity snapshot) currency);
          try_some equity (λ current_equity,
            s ← get_state;
            rolling ← lift_panic (update_rolling_pnl (feed_rolling s) daily_pnl current_equity at_ns
                                    (rolling_window_ns config));
            modify_state (λ s,
              let q := feed_equity s in
              set_equity_state
                (set_equity (mkEquity (feed_daily_pnl q) (feed_current_equity q) (feed_peak_equity q)
                               (account_state_equity_baseline q) true) daily_pnl current_equity at_ns)
                (set_positions (refresh_per_trade_pnl_clock (feed_positions s) at_ns) (set_rolling rolling s))) ;;
            publish_if_complete))).

Definition on_account_state_without_halt_action (state : AccountState) : Feed (option (LossSnapshot D)) :=
  if negb (account_eqb (ac_account_id state) (fc_account_id config)) then mret None
  else
    let at_ns := ac_ts_event state in
    note_freshness (record_account_state_freshness at_ns) ;;
    try_some (account_currency state) (λ currency,
      accepted ← accept_currency currency;
      if negb accepted then mret None
      else
        note_observation (λ o, mkObservations (Some at_ns) (last_portfolio_snapshot_observed_at_ns o)
                                 (last_position_event_observed_at_ns o)) ;;
        equity ← lift_panic (sum_money (balances state) currency);
        try_some equity (λ current_equity,
          s ← get_state;
          let q := feed_equity s in
          if portfolio_pnl_observed q then
            let daily_pnl := from_option td_value d_zero (feed_daily_pnl q) in
            let rolling_pnl := from_option td_value d_zero (feed_rolling_pnl (feed_rolling s)) in
            modify_state (λ s,
              set_equity_state (set_equity (feed_equity s) daily_pnl current_equity at_ns)
                (set_positions (refresh_per_trade_pnl_clock (feed_positions s) at_ns)
                   (set_rolling (mkRolling (Some (mkTimed daily_pnl at_ns)) (Some (mkTimed current_equity at_ns))
                                   (rolling_samples (feed_rolling s)) (Some (mkTimed rolling_pnl at_ns))) s))) ;;
            publish_if_complete
          else
            let baseline := from_option id (mkTimed current_equity at_ns) (account_state_equity_baseline q) in
            daily_pnl ← lift_panic (d_sub current_equity (td_value baseline));
            rolling ← lift_panic (update_rolling_pnl (feed_rolling s) daily_pnl current_equity at_ns
                                    (rolling_window_ns config));
            modify_state (λ s,
              let q := feed_equity s in
              set_equity_state
                (set_equity (mkEquity (feed_daily_pnl q) (feed_current_equity q) (feed_peak_equity q) (Some baseline)
                               (portfolio_pnl_observed q)) daily_pnl current_equity at_ns)
                (set_positions (refresh_per_trade_pnl_clock (feed_positions s) at_ns) (set_rolling rolling s))) ;;
            publish_if_complete)).

Definition on_position_event_without_halt_action (event : PositionEvent) : Feed (option (LossSnapshot D)) :=
  let head := position_event_head event in
  if negb (account_eqb (pv_account_id head) (fc_account_id config)) then mret None
  else
    note_freshness (record_position_event_freshness (pv_ts_event head)) ;;
    fact ← lift_panic (position_pnl_fact event);
    try_some fact (λ fact,
      if negb (account_eqb (fact_account_id fact) (fc_account_id config)) then mret None
      else
        accepted ← accept_currency (fact_currency fact);
        if negb accepted then mret None
        else
          note_observation (λ o, mkObservations (last_account_state_observed_at_ns o)
                                   (last_portfolio_snapshot_observed_at_ns o) (Some (pv_ts_init head))) ;;
          match fact_per_trade_pnl fact with
          | Some pnl =>
              modify_state (λ s, set_positions
                (record_position_pnl (feed_positions s) (fact_position_id fact) (mkTimed pnl (fact_observed_at_ns fact))
                   (fact_closed fact) (fact_reset_completed fact) (active_position_pnl_max_entries config)) s)
          | None => mret tt
          end ;;
          publish_if_complete).

Definition invoke_halt_action (snapshot : option (LossSnapshot D)) (now_ns : Z) : Feed unit :=
  rust_modify (λ w,
    if has_handler
    then mkFeedWorld (fw_state w) (fw_loss_snapshot w) (fw_loss_observations w) (fw_loss_freshness w)
           (fw_calls w ++ [(snapshot, now_ns, feed_observations (fw_state w))])
    else w).

(** An event that reaches the feed: of another account it does nothing. *)
Inductive FeedEvent : Type :=
| FeedPortfolio (snapshot : PortfolioSnapshot)
| FeedAccount (state : AccountState)
| FeedPosition (event : PositionEvent).

Definition event_account (e : FeedEvent) : AccountId :=
  match e with
  | FeedPortfolio snapshot => pf_account_id snapshot
  | FeedAccount state => ac_account_id state
  | FeedPosition event => pv_account_id (position_event_head event)
  end.

Definition event_ts_init (e : FeedEvent) : Z :=
  match e with
  | FeedPortfolio snapshot => pf_ts_init snapshot
  | FeedAccount state => ac_ts_init state
  | FeedPosition event => pv_ts_init (position_event_head event)
  end.

Definition on_event_without_halt_action (e : FeedEvent) : Feed (option (LossSnapshot D)) :=
  match e with
  | FeedPortfolio snapshot => on_portfolio_snapshot_without_halt_action snapshot
  | FeedAccount state => on_account_state_without_halt_action state
  | FeedPosition event => on_position_event_without_halt_action event
  end.

(** [on_portfolio_snapshot], [on_account_state] and [on_position_event]. *)
Definition on_event (e : FeedEvent) : Feed (option (LossSnapshot D)) :=
  if negb (account_eqb (event_account e) (fc_account_id config)) then mret None
  else
    snapshot ← on_event_without_halt_action e;
    invoke_halt_action snapshot (event_ts_init e) ;;
    mret snapshot.

Definition feed_new : FeedWorld := mkFeedWorld feed_state_new None unobserved freshness_empty [].

Fixpoint feed_run (events : list FeedEvent) (w : FeedWorld) : option FeedWorld :=
  match events with
  | [] => Some w
  | e :: events => '(_, w) ← on_event e w; feed_run events w
  end.
End Feed.
