(* ===== verification/LossFeedFacts.v ===== *)
(** * The feed of the loss governor does not hide a loss

    The histories of the feed: any sequence of portfolio snapshots, account states and
    position events.  The per-trade figure it publishes is at most the last reported
    profit of every open position, also of those beyond the configured number of entries;
    the published equity peak is at least the current equity; and a position whose
    loss reaches the configured limit makes the governor refuse. *)

From Stdlib Require Import ZArith Lia.
From stdpp Require Import sorting strings gmap numbers list.
From S2P Require Import Prelude.
From S2P Require Import RustText.
From S2P Require Import BTree.
From S2P Require Import NtTypes.
From S2P Require Import DecimalAmount.
From S2P Require Import LossGovernor.
From S2P Require Import LossProtection.
From S2P Require Import SubmitAdmissionState.
From S2P Require Import LossFeed.

Open Scope Z_scope.

Section Facts.
Context `{NT : NtTypes} {D C : Type} `{DL : DecimalLaws D} `{CO : CurrencyOps C}.
Context (config : LossGovernorRuntimeFeedConfig) (has_handler : bool).

#[local] Notation World := (FeedWorld (D := D) (C := C)).
#[local] Notation Event := (FeedEvent (D := D) (C := C)).
#[local] Notation State := (LossGovernorRuntimeFeedState (D := D) (C := C)).
#[local] Notation Timed := (TimedDecimal (D := D)).
#[local] Notation Positions := (PositionPnlState (D := D)).

Implicit Types (w : World) (e : Event) (s : State) (p : Positions) (pid : PositionId).

(** ** What the events report *)

Definition position_is (a b : PositionId) : bool := match ord_cmp a b with Eq => true | _ => false end.

Lemma position_is_eq a b : position_is a b = true ↔ a = b.
Proof. unfold position_is. rewrite <-(cmp_eq a b). by destruct (ord_cmp a b). Qed.

(** The profit a position event of the account reports in the currency; [None] after a
    close. *)
Definition reported (cur : C) e : option (PositionId * option D) :=
  match e with
  | FeedPosition event =>
      if account_eqb (pv_account_id (position_event_head event)) (fc_account_id config) then
        match position_pnl_fact event with
        | Some (Some fact) =>
            if bool_decide (fact_currency fact = cur)
            then (λ v, (fact_position_id fact, if fact_closed fact then None else Some v)) <$> fact_per_trade_pnl fact
            else None
        | _ => None
        end
      else None
  | _ => None
  end.

Definition note_report (cur : C) (pid : PositionId) (acc : option D) e : option D :=
  match reported cur e with
  | Some (pid', report) => if position_is pid' pid then report else acc
  | None => acc
  end.

(** The last reported profit of a position that is open. *)
Definition open_report (cur : C) (events : list Event) (pid : PositionId) : option D :=
  foldl (note_report cur pid) None events.

Lemma open_report_app cur events e pid :
  open_report cur (events ++ [e]) pid = note_report cur pid (open_report cur events pid) e.
Proof. unfold open_report. by rewrite foldl_app. Qed.

(** The amounts of an event are on the grid. *)
Definition amounts_exact e : Prop :=
  match e with
  | FeedPortfolio snapshot => ∀ cur t, sum_money (pf_total_equity snapshot) cur = Some (Some t) → d_exact t
  | FeedAccount state => ∀ cur t, sum_money (balances state) cur = Some (Some t) → d_exact t
  | FeedPosition event =>
      ∀ fact v, position_pnl_fact event = Some (Some fact) → fact_per_trade_pnl fact = Some v → d_exact v
  end.

(** ** The worst of the positions *)

Lemma foldl_min (l : list Timed) : ∀ acc,
  d_exact (td_value acc) → Forall (λ t, d_exact (td_value t)) l →
  let m := foldl (λ acc t, if d_gtb (td_value acc) (td_value t) then t else acc) acc l in
  d_exact (td_value m) ∧ ∀ t, t ∈ acc :: l → d_value (td_value m) ≤ d_value (td_value t).
Proof.
  induction l as [|x l IH]; intros acc Hacc Hl; cbn; [split; [done|]; intros t ->%list_elem_of_singleton; lia|].
  apply Forall_cons in Hl as [Hx Hl]. rewrite d_gtb_value by done.
  destruct (Z.ltb_spec (d_value (td_value x)) (d_value (td_value acc))) as [Hlt|Hge].
  - destruct (IH x Hx Hl) as [He Hm]. split; [done|]. intros t [->|Ht]%elem_of_cons; [|by apply Hm].
    assert (d_value (td_value (foldl (λ acc t, if d_gtb (td_value acc) (td_value t) then t else acc) x l))
            ≤ d_value (td_value x)) by (apply Hm; left). lia.
  - destruct (IH acc Hacc Hl) as [He Hm]. split; [done|]. intros t [->|[->|Ht]%elem_of_cons]%elem_of_cons.
    + apply Hm. left.
    + assert (d_value (td_value (foldl (λ acc t, if d_gtb (td_value acc) (td_value t) then t else acc) acc l))
            ≤ d_value (td_value acc)) by (apply Hm; left). lia.
    + apply Hm. by right.
Qed.

Lemma min_by_value_spec (l : list Timed) :
  Forall (λ t, d_exact (td_value t)) l → l ≠ [] →
  ∃ m, min_by_value l = Some m ∧ d_exact (td_value m) ∧ ∀ t, t ∈ l → d_value (td_value m) ≤ d_value (td_value t).
Proof.
  destruct l as [|x l]; [done|]. intros [Hx Hl]%Forall_cons _. eexists. split; [reflexivity|]. by apply foldl_min.
Qed.

(** ** Position profits *)

Definition pnl_ok p : Prop :=
  bt_sorted (active_position_pnls p) ∧
  Forall (λ t, d_exact (td_value t)) (position_pnls p) ∧
  (position_pnls p ≠ [] →
   per_trade_pnl_source p = Some PnlPositionEvent ∧ feed_per_trade_pnl p = min_by_value (position_pnls p)) ∧
  (is_Some (per_trade_pnl_source p) → is_Some (feed_per_trade_pnl p)).

(** The position's profit is in the map, or beyond it but not below the floor. *)
Definition covered p pid (v : D) : Prop :=
  (∃ t, bt_get (active_position_pnls p) pid = Some t ∧ td_value t = v) ∨
  (∃ f, active_position_pnl_overflow_floor p = Some f ∧ d_exact v ∧ d_value (td_value f) ≤ d_value v).

Lemma covered_bound p pid v :
  pnl_ok p → covered p pid v →
  ∃ t, feed_per_trade_pnl p = Some t ∧ d_exact (td_value t) ∧ d_exact v ∧ d_value (td_value t) ≤ d_value v.
Proof.
  intros (Hs & Hex & Hmin & _) Hc.
  assert (Hin : ∃ t, t ∈ position_pnls p ∧ d_exact v ∧ d_value (td_value t) ≤ d_value v).
  { destruct Hc as [(t & Ht & <-)|(f & Hf & Hv & Hle)].
    - apply bt_get_Some in Ht; [|done].
      assert (Hin : t ∈ position_pnls p).
      { unfold position_pnls. apply elem_of_app. left. apply list_elem_of_fmap. by exists (pid, t). }
      exists t. split; [done|]. split; [by apply (proj1 (Forall_forall _ _) Hex)|lia].
    - exists f. split; [|done]. unfold position_pnls. rewrite Hf. set_solver. }
  destruct Hin as (t & Hin & Hv & Hle).
  assert (Hne : position_pnls p ≠ []) by (intros Hn; rewrite Hn in Hin; set_solver).
  destruct (Hmin Hne) as [_ ->]. destruct (min_by_value_spec _ Hex Hne) as (m & -> & Hm & Hall).
  exists m. split_and!; try done. specialize (Hall t Hin). lia.
Qed.

Lemma refresh_ok p :
  bt_sorted (active_position_pnls p) → Forall (λ t, d_exact (td_value t)) (position_pnls p) →
  (is_Some (per_trade_pnl_source p) → is_Some (feed_per_trade_pnl p)) →
  pnl_ok (refresh_effective_per_trade_pnl p).
Proof.
  intros Hs Hex Hsome. unfold refresh_effective_per_trade_pnl.
  destruct (min_by_value (position_pnls p)) as [m|] eqn:Hm; split_and!; try done.
  intros Hne. destruct (min_by_value_spec _ Hex Hne) as (m & Hm' & _). congruence.
Qed.

Lemma refresh_maps p :
  active_position_pnls (refresh_effective_per_trade_pnl p) = active_position_pnls p ∧
  active_position_pnl_overflow_floor (refresh_effective_per_trade_pnl p) = active_position_pnl_overflow_floor p.
Proof. unfold refresh_effective_per_trade_pnl. by destruct (min_by_value _). Qed.

Lemma refresh_covered p pid v : covered (refresh_effective_per_trade_pnl p) pid v ↔ covered p pid v.
Proof. unfold covered. by destruct (refresh_maps p) as [-> ->]. Qed.

(** Restamped entries keep their values. *)
Lemma restamp_get (at_ns : Z) (m : BTreeMap PositionId Timed) pid :
  bt_get (prod_map id (restamp at_ns) <$> m) pid = restamp at_ns <$> bt_get m pid.
Proof.
  induction m as [|[k t] m IH]; [done|]. cbn. destruct (ord_cmp pid k); [done|done|]. exact IH.
Qed.

Lemma restamp_keys (at_ns : Z) (m : BTreeMap PositionId Timed) :
  bt_keys (prod_map id (restamp at_ns) <$> m) = bt_keys m.
Proof. unfold bt_keys. induction m as [|[k t] m IH]; [done|]. cbn. by rewrite IH. Qed.

Definition restamped (at_ns : Z) p : Positions :=
  mkPositionPnl (feed_per_trade_pnl p) (per_trade_pnl_source p)
    (prod_map id (restamp at_ns) <$> active_position_pnls p)
    (restamp at_ns <$> active_position_pnl_overflow_floor p) (restamp at_ns <$> last_position_pnl p).

Lemma restamped_pnls at_ns p : position_pnls (restamped at_ns p) = restamp at_ns <$> position_pnls p.
Proof.
  unfold position_pnls. cbn. rewrite !fmap_app. f_equal; [|f_equal].
  - unfold bt_values. induction (active_position_pnls p) as [|[k t] m IH]; [done|]. cbn. by rewrite IH.
  - by destruct (active_position_pnl_overflow_floor p).
  - by destruct (last_position_pnl p).
Qed.

Lemma restamped_covered at_ns p pid v : covered p pid v → covered (restamped at_ns p) pid v.
Proof.
  intros [(t & Ht & <-)|(f & Hf & ? & ?)]; [left|right]; cbn.
  - rewrite restamp_get, Ht. by exists (restamp at_ns t).
  - rewrite Hf. by exists (restamp at_ns f).
Qed.

Lemma clock_ok p at_ns :
  pnl_ok p → pnl_ok (refresh_per_trade_pnl_clock p at_ns) ∧
  (∀ pid v, covered p pid v → covered (refresh_per_trade_pnl_clock p at_ns) pid v).
Proof.
  intros Hp. pose proof Hp as (Hs & Hex & Hmin & Hsome). unfold refresh_per_trade_pnl_clock.
  case_bool_decide as Hsrc.
  - change (mkPositionPnl _ _ _ _ _) with (restamped at_ns p). split.
    + apply refresh_ok.
      * unfold bt_sorted, restamped. cbn [active_position_pnls]. by rewrite restamp_keys.
      * rewrite restamped_pnls. by apply Forall_fmap.
      * exact Hsome.
    + intros pid v Hc. apply refresh_covered. by apply restamped_covered.
  - split; [|done]. split_and!; try done. intros Hne. exfalso. by apply Hsrc, Hmin.
Qed.

Lemma worse_timed_value (floor : option Timed) (t : Timed) :
  Forall (λ t, d_exact (td_value t)) (opt_list floor) → d_exact (td_value t) →
  d_exact (td_value (worse_timed_decimal floor t)) ∧
  d_value (td_value (worse_timed_decimal floor t)) ≤ d_value (td_value t) ∧
  (∀ f, floor = Some f → d_value (td_value (worse_timed_decimal floor t)) ≤ d_value (td_value f)).
Proof.
  intros Hf Ht. unfold worse_timed_decimal. destruct floor as [f|]; [|split_and!; [done|lia|done]].
  apply Forall_cons in Hf as [Hf _]. cbn in Hf. rewrite d_leb_value by assumption.
  destruct (Z.leb_spec (d_value (td_value f)) (d_value (td_value t))).
  - split_and!; [done|lia|]. intros ? [= <-]. lia.
  - split_and!; [done|lia|]. intros ? [= <-]. lia.
Qed.

Lemma record_ok p pid t closed reset max_entries :
  pnl_ok p → d_exact (td_value t) →
  let p' := record_position_pnl p pid t closed reset max_entries in
  pnl_ok p' ∧ (∀ pid' v, pid' ≠ pid → covered p pid' v → covered p' pid' v) ∧
  (closed = false → covered p' pid (td_value t)).
Proof.
  intros (Hs & Hex & _ & Hsome) Ht. unfold position_pnls in Hex. rewrite !Forall_app in Hex. destruct Hex as (Hact & Hfloor & Hlast).
  unfold record_position_pnl.
  set (last := if reset then if reset then None else last_position_pnl p else Some t).
  assert (Hl : Forall (λ t, d_exact (td_value t)) (opt_list (if reset then if reset then None else last_position_pnl p else Some t)))
    by (destruct reset; cbn; by repeat constructor).
  fold last in Hl. destruct closed.
  - split_and!; [|intros pid' v Hne Hc; apply refresh_covered|done].
    + apply refresh_ok; [by apply bt_remove_sorted| |exact Hsome]. unfold position_pnls. cbn. rewrite !Forall_app.
      split_and!; [|done|done]. apply Forall_forall. intros x (kv & -> & Hkv)%list_elem_of_fmap.
      apply (proj1 (Forall_forall _ _) Hact). apply list_elem_of_fmap. exists kv. split; [done|].
      by eapply bt_remove_elem.
    + destruct Hc as [(x & Hx & <-)|Hf]; [left|by right]. exists x. split; [|done]. cbn. by rewrite bt_get_remove_ne.
  - destruct (is_some (bt_get (active_position_pnls p) pid) || _).
    + split_and!; [|intros pid' v Hne Hc; apply refresh_covered|intros _; apply refresh_covered].
      * apply refresh_ok; [by apply bt_upsert_sorted| |exact Hsome]. unfold position_pnls. cbn. rewrite !Forall_app.
        split_and!; [|done|done]. apply Forall_forall. intros x (kv & -> & Hkv)%list_elem_of_fmap.
        destruct kv as [k x]. cbn in *. apply bt_get_Some in Hkv; [|by apply bt_upsert_sorted].
        destruct (position_is k pid) eqn:Hk; [apply position_is_eq in Hk as ->|].
        -- unfold bt_insert in Hkv. rewrite bt_get_upsert in Hkv by done. injection Hkv as <-.
           by destruct (bt_get (active_position_pnls p) pid).
        -- unfold bt_insert in Hkv. rewrite bt_get_upsert_ne in Hkv
             by (intros ->; by rewrite (proj2 (position_is_eq pid pid)) in Hk). apply bt_get_Some in Hkv; [|done].
           apply (proj1 (Forall_forall _ _) Hact). apply list_elem_of_fmap. by exists (k, x).
      * destruct Hc as [(x & Hx & <-)|Hf]; [left|by right]. exists x. split; [|done]. cbn.
        unfold bt_insert. by rewrite bt_get_upsert_ne.
      * left. cbn. unfold bt_insert. rewrite bt_get_upsert by done. eexists. split; [reflexivity|].
        by destruct (bt_get (active_position_pnls p) pid).
    + destruct (worse_timed_value (active_position_pnl_overflow_floor p) t Hfloor Ht) as (Hwe & Hwt & Hwf).
      split_and!; [|intros pid' v Hne Hc; apply refresh_covered|intros _; apply refresh_covered].
      * apply refresh_ok; [done| |exact Hsome]. unfold position_pnls. cbn. rewrite Forall_app. split; [done|by constructor].
      * destruct Hc as [Hx|(f & Hf & Hv & Hle)]; [by left|right]. eexists. split; [reflexivity|]. split; [done|].
        specialize (Hwf f Hf). lia.
      * right. eexists. split; [reflexivity|]. done.
Qed.

(** ** The invariant of a history *)

(** The snapshot has the figures of the state. *)
Definition figures_of s (snap : LossSnapshot D) : Prop :=
  ∃ snap0, snapshot_of s = Some snap0 ∧
    (per_trade_pnl snap, daily_pnl snap, rolling_pnl snap, current_equity snap, peak_equity snap) =
    (per_trade_pnl snap0, daily_pnl snap0, rolling_pnl snap0, current_equity snap0, peak_equity snap0) ∧
    snapshot_observed_at_ns snap = snapshot_observed_at_ns snap0 ∧ snapshot_source snap = Some NtLossRuntimeFeed.

Definition equity_ok (q : EquityState (D := D)) : Prop :=
  (∀ c, feed_current_equity q = Some c → d_exact (td_value c) ∧ ∃ peak, feed_peak_equity q = Some peak ∧
     d_value (td_value c) ≤ d_value (td_value peak)) ∧
  (∀ peak, feed_peak_equity q = Some peak → d_exact (td_value peak)).

(** What holds of the figures, whatever was published. *)
Record figures_ok (events : list Event) s : Prop := mkFiguresOk {
  fo_positions : pnl_ok (feed_positions s);
  fo_unset : feed_currency s = None → ∀ cur pid, open_report cur events pid = None;
  fo_reports : ∀ cur pid v, feed_currency s = Some cur → open_report cur events pid = Some v →
    covered (feed_positions s) pid v;
  fo_equity : equity_ok (feed_equity s);
}.

Record feed_ok (events : list Event) w : Prop := mkFeedOk {
  fo_figures : figures_ok events (fw_state w);
  fo_latest : ∀ snap, latest_snapshot (fw_state w) = Some snap → figures_of (fw_state w) snap;
  fo_published : fw_loss_snapshot w = latest_snapshot (fw_state w);
}.

(** An event that reports no profit in a currency the feed can have. *)
Definition silent s' e : Prop :=
  (∀ cur, feed_currency s' = Some cur → reported cur e = None) ∧
  (feed_currency s' = None → ∀ cur, reported cur e = None).

(** The currency is kept, or set for the first time. *)
Definition currency_step s s' : Prop := feed_currency s' = feed_currency s ∨ feed_currency s = None.

Lemma figures_silent events e s s' :
  figures_ok events s → feed_positions s' = feed_positions s → feed_equity s' = feed_equity s →
  currency_step s s' → silent s' e → figures_ok (events ++ [e]) s'.
Proof.
  intros [Hp Hu Hr Hq] Hpos Heq Hcur [Hs Hn]. constructor; rewrite ?Hpos, ?Heq; try done.
  - intros Hnone cur pid. rewrite open_report_app. unfold note_report. rewrite (Hn Hnone cur).
    destruct Hcur as [Hc|Hc]; [apply Hu; congruence|by apply Hu].
  - intros cur pid v Hsome. rewrite open_report_app. unfold note_report. rewrite (Hs cur Hsome).
    destruct Hcur as [Hc|Hc]; [apply Hr; congruence|]. by rewrite (Hu Hc cur pid).
Qed.

(** Same figures and publications. *)
Definition same_core w w' : Prop :=
  feed_positions (fw_state w') = feed_positions (fw_state w) ∧
  feed_equity (fw_state w') = feed_equity (fw_state w) ∧
  feed_rolling (fw_state w') = feed_rolling (fw_state w) ∧
  latest_snapshot (fw_state w') = latest_snapshot (fw_state w) ∧
  fw_loss_snapshot w' = fw_loss_snapshot w.

Lemma same_core_refl w : same_core w w.
Proof. by split_and!. Qed.

Lemma same_core_trans w1 w2 w3 : same_core w1 w2 → same_core w2 w3 → same_core w1 w3.
Proof. unfold same_core. intuition congruence. Qed.

Lemma snapshot_same s s' snap :
  feed_positions s' = feed_positions s → feed_equity s' = feed_equity s → feed_rolling s' = feed_rolling s →
  figures_of s snap → figures_of s' snap.
Proof.
  unfold figures_of, snapshot_of. intros -> -> -> (snap0 & Hs & Hfig & Hat & Hsrc).
  destruct (feed_per_trade_pnl _) as [per|]; [|done]. destruct (feed_daily_pnl _) as [daily|]; [|done].
  destruct (feed_rolling_pnl _) as [rolling|]; [|done]. destruct (feed_current_equity _) as [equity|]; [|done].
  destruct (feed_peak_equity _) as [peak|]; [|done]. cbn in *. injection Hs as <-. cbn in *.
  eexists. split; [reflexivity|]. by cbn.
Qed.

Lemma feed_silent events e w w' :
  feed_ok events w → same_core w w' → currency_step (fw_state w) (fw_state w') → silent (fw_state w') e →
  feed_ok (events ++ [e]) w'.
Proof.
  intros [Hf Hl Hp] (Hpos & Heq & Hroll & Hlat & Hpub) Hcur Hs. constructor.
  - by eapply figures_silent.
  - intros snap. rewrite Hlat. intros Hsnap%Hl. by eapply snapshot_same.
  - congruence.
Qed.

Lemma snapshot_of_source s snap : snapshot_of s = Some snap → snapshot_source snap = Some NtLossRuntimeFeed.
Proof.
  unfold snapshot_of. destruct (feed_per_trade_pnl _), (feed_daily_pnl _), (feed_rolling_pnl _),
    (feed_current_equity _), (feed_peak_equity _); cbn; try done. by intros [= <-].
Qed.

Lemma publish_ok events w :
  figures_ok events (fw_state w) → (∀ snap, latest_snapshot (fw_state w) = Some snap → is_Some (snapshot_of (fw_state w))) →
  fw_loss_snapshot w = latest_snapshot (fw_state w) →
  safe (publish_if_complete : Rust World _) w (λ _, feed_ok events).
Proof.
  intros Hf Hc Hp. unfold publish_if_complete, get_state, modify_state. do 2 runs_step.
  destruct (snapshot_of (fw_state w)) as [snap|] eqn:Hsnap; repeat runs_step.
  - destruct Hf. constructor; cbn; [by constructor| |done]. intros ? [= <-]. exists snap. split_and!; try done.
    by eapply snapshot_of_source.
  - constructor; [done| |done]. intros snap Hlat. by destruct (Hc snap Hlat).
Qed.

Lemma raise_peak (q : EquityState (D := D)) daily_pnl equity at_ns :
  equity_ok q → d_exact equity → equity_ok (set_equity q daily_pnl equity at_ns).
Proof.
  intros [_ Hpeak] He. split; cbn.
  - intros c [= <-]. split; [done|]. unfold preserve_or_raise_peak_equity.
    destruct (feed_peak_equity q) as [peak|]; [|eexists; split; [done|cbn; lia]]. specialize (Hpeak peak eq_refl).
    rewrite d_gtb_value by done. destruct (Z.ltb_spec (d_value equity) (d_value (td_value peak)));
      eexists; (split; [reflexivity|]); cbn; lia.
  - unfold preserve_or_raise_peak_equity. intros peak. destruct (feed_peak_equity q) as [old|]; [|by intros [= <-]].
    destruct (d_gtb _ _); [|by intros [= <-]]. intros [= <-]. by apply Hpeak.
Qed.

(** After a snapshot or an account state the figures are complete. *)
Lemma clock_some p at_ns : pnl_ok p → is_Some (feed_per_trade_pnl (refresh_per_trade_pnl_clock p at_ns)).
Proof.
  intros [(_ & _ & _ & Hsome) _]%(clock_ok p at_ns). apply Hsome. unfold refresh_per_trade_pnl_clock.
  case_bool_decide as Hsrc; [|by eexists]. unfold refresh_effective_per_trade_pnl.
  destruct (min_by_value _); cbn; [by eexists|]. rewrite Hsrc. by eexists.
Qed.

(** ** The handlers *)

(** Nothing but the currency, the freshness and the observations changed. *)
Definition quiet w w' : Prop := same_core w w' ∧ currency_step (fw_state w) (fw_state w').

Lemma quiet_ok events e w w' : feed_ok events w → quiet w w' → silent (fw_state w') e → feed_ok (events ++ [e]) w'.
Proof. intros Hok [Hc Hs]. by eapply feed_silent. Qed.

Lemma note_freshness_safe record w w0 : quiet w0 w →
  safe (note_freshness record : Rust World unit) w (λ _ w', quiet w0 w' ∧
    feed_currency (fw_state w') = feed_currency (fw_state w)).
Proof. intros Hq. unfold note_freshness, modify_state. repeat runs_step. split; [exact Hq|done]. Qed.

Lemma note_observation_safe record w w0 : quiet w0 w →
  safe (note_observation record : Rust World unit) w (λ _ w', quiet w0 w' ∧
    feed_currency (fw_state w') = feed_currency (fw_state w)).
Proof. intros Hq. unfold note_observation, modify_state. repeat runs_step. split; [exact Hq|done]. Qed.

Lemma accept_currency_safe currency w w0 : quiet w0 w → feed_currency (fw_state w) = feed_currency (fw_state w0) →
  safe (accept_currency currency : Rust World bool) w (λ accepted w', quiet w0 w' ∧
    if accepted : bool then feed_currency (fw_state w') = Some currency
    else ∃ other, feed_currency (fw_state w') = Some other ∧ other ≠ currency).
Proof.
  intros [Hc Hs] Heq. unfold accept_currency, get_state, modify_state. do 2 runs_step.
  destruct (feed_currency (fw_state w)) as [other|] eqn:Hcur; repeat runs_step.
  - split; [by split|]. case_bool_decide as Ho; [by rewrite Hcur, Ho|]. by exists other.
  - split; [|done]. split; [exact Hc|]. right. by rewrite <-Heq.
Qed.

Lemma figures_update events s s' :
  figures_ok events s → feed_currency s' = feed_currency s → pnl_ok (feed_positions s') →
  (∀ pid v, covered (feed_positions s) pid v → covered (feed_positions s') pid v) → equity_ok (feed_equity s') →
  figures_ok events s'.
Proof.
  intros [Hp Hu Hr Hq] Hcur Hp' Hc Hq'. constructor; rewrite ?Hcur; try done.
  intros cur pid v Hsome Hv. by eapply Hc, Hr.
Qed.

(** The figures both equity events set, then published. *)
Lemma set_figures_safe events (rolling : State → RollingState (D := D)) (prep : EquityState (D := D) → EquityState) daily_pnl equity at_ns w :
  feed_ok events w → d_exact equity → (∀ s, is_Some (feed_rolling_pnl (rolling s))) → (∀ q, equity_ok q → equity_ok (prep q)) →
  safe (modify_state (λ s,
          set_equity_state (set_equity (prep (feed_equity s)) daily_pnl equity at_ns)
            (set_positions (refresh_per_trade_pnl_clock (feed_positions s) at_ns) (set_rolling (rolling s) s))) ;;
        publish_if_complete : Rust World _) w (λ _, feed_ok events).
Proof.
  intros [Hf Hl Hp] He Hroll Hprep. unfold modify_state at 1. do 2 runs_step.
  destruct (clock_ok (feed_positions (fw_state w)) at_ns) as [Hpos Hcov]; [apply Hf|].
  apply publish_ok; [|intros snap _|exact Hp].
  - eapply figures_update; [exact Hf|reflexivity|exact Hpos|exact Hcov|].
    apply raise_peak; [|done]. apply Hprep, Hf.
  - destruct (Hroll (fw_state w)) as [r Hr]. destruct (clock_some (feed_positions (fw_state w)) at_ns) as [t Ht]; [apply Hf|].
    unfold snapshot_of. cbn. rewrite Ht, Hr. cbn. unfold preserve_or_raise_peak_equity.
    destruct (feed_peak_equity _) as [peak|]; cbn; [|by eexists]. destruct (d_gtb _ _); by eexists.
Qed.

Lemma update_rolling_some r daily_pnl equity at_ns window r' :
  update_rolling_pnl (D := D) r daily_pnl equity at_ns window = Some r' → is_Some (feed_rolling_pnl r').
Proof.
  unfold update_rolling_pnl. destruct (rolling_delta r daily_pnl equity); [|done]. cbn.
  destruct (d_sum _); [|done]. cbn. intros [= <-]. by eexists.
Qed.

Lemma silent_other s e : (∀ cur, reported cur e = None) → silent s e.
Proof. by intros He. Qed.

Lemma portfolio_safe events snapshot w :
  feed_ok events w → amounts_exact (FeedPortfolio snapshot) →
  safe (on_portfolio_snapshot_without_halt_action config snapshot : Rust World _) w
    (λ _, feed_ok (events ++ [FeedPortfolio snapshot])).
Proof.
  intros Hok Hex. unfold on_portfolio_snapshot_without_halt_action. cbn in Hex.
  assert (Hquiet : ∀ w', quiet w w' → feed_ok (events ++ [FeedPortfolio snapshot]) w')
    by (intros w' Hq; eapply quiet_ok; [done|done|by apply silent_other]).
  assert (Hq0 : quiet w w) by (split; [apply same_core_refl|by left]).
  destruct (account_eqb _ _); cbn [negb]; [|runs_step; by apply Hquiet].
  runs_step. eapply safe_mono; [by apply (note_freshness_safe _ w w)|]. intros [] w1 [Hq1 Hc1].
  unfold try_some. destruct (portfolio_currency snapshot) as [currency|]; [|runs_step; by apply Hquiet].
  runs_step. eapply safe_mono; [by apply (accept_currency_safe currency w1 w)|]. intros [] w2 [Hq2 Hc2]; cbn [negb];
    [|runs_step; by apply Hquiet].
  runs_step. eapply safe_mono; [by apply (note_observation_safe _ w2 w)|]. intros [] w3 [Hq3 Hc3].
  do 2 runs_step. intros daily _. destruct daily as [daily_pnl|]; [|runs_step; by apply Hquiet].
  do 2 runs_step. intros equity Hequity. destruct equity as [current_equity|]; [|runs_step; by apply Hquiet].
  unfold get_state. do 4 runs_step. intros rolling Hroll.
  apply (set_figures_safe (events ++ [FeedPortfolio snapshot]) (λ _, rolling) (λ q, mkEquity (feed_daily_pnl q)
    (feed_current_equity q) (feed_peak_equity q) (account_state_equity_baseline q) true));
    [by apply Hquiet|by eapply Hex|intros _; by eapply update_rolling_some|done].
Qed.

Lemma account_safe events state w :
  feed_ok events w → amounts_exact (FeedAccount state) →
  safe (on_account_state_without_halt_action config state : Rust World _) w
    (λ _, feed_ok (events ++ [FeedAccount state])).
Proof.
  intros Hok Hex. unfold on_account_state_without_halt_action. cbn in Hex.
  assert (Hquiet : ∀ w', quiet w w' → feed_ok (events ++ [FeedAccount state]) w')
    by (intros w' Hq; eapply quiet_ok; [done|done|by apply silent_other]).
  assert (Hq0 : quiet w w) by (split; [apply same_core_refl|by left]).
  destruct (account_eqb _ _); cbn [negb]; [|runs_step; by apply Hquiet].
  runs_step. eapply safe_mono; [by apply (note_freshness_safe _ w w)|]. intros [] w1 [Hq1 Hc1].
  unfold try_some. destruct (account_currency state) as [currency|]; [|runs_step; by apply Hquiet].
  runs_step. eapply safe_mono; [by apply (accept_currency_safe currency w1 w)|]. intros [] w2 [Hq2 Hc2]; cbn [negb];
    [|runs_step; by apply Hquiet].
  runs_step. eapply safe_mono; [by apply (note_observation_safe _ w2 w)|]. intros [] w3 [Hq3 Hc3].
  do 2 runs_step. intros equity Hequity. destruct equity as [current_equity|]; [|runs_step; by apply Hquiet].
  unfold get_state. do 2 runs_step. destruct (portfolio_pnl_observed _).
  - apply (set_figures_safe (events ++ [FeedAccount state])
      (λ s, mkRolling (Some (mkTimed _ _)) (Some (mkTimed _ _)) (rolling_samples (feed_rolling s)) (Some (mkTimed _ _)))
      (λ q, q)); [by apply Hquiet|by eapply Hex|by eexists|done].
  - do 2 runs_step. intros daily _. do 2 runs_step. intros rolling Hroll.
    apply (set_figures_safe (events ++ [FeedAccount state]) (λ _, rolling) (λ q, mkEquity (feed_daily_pnl q)
      (feed_current_equity q) (feed_peak_equity q) _ (portfolio_pnl_observed q)));
      [by apply Hquiet|by eapply Hex|intros _; by eapply update_rolling_some|done].
Qed.

Lemma record_some p pid t closed reset max_entries :
  is_Some (feed_per_trade_pnl p) → is_Some (feed_per_trade_pnl (record_position_pnl p pid t closed reset max_entries)).
Proof.
  intros Hp. unfold record_position_pnl. case_match. unfold refresh_effective_per_trade_pnl.
  by destruct (min_by_value _); [eexists|].
Qed.

(** A report of a profit reaches the map or the floor, and is published. *)
Lemma record_safe events e pid v at_ns (closed : bool) reset max_entries cur w0 w :
  feed_ok events w0 → quiet w0 w → feed_currency (fw_state w) = Some cur → d_exact v →
  reported cur e = Some (pid, if closed then None else Some v) →
  safe (modify_state (λ s, set_positions
          (record_position_pnl (feed_positions s) pid (mkTimed v at_ns) closed reset max_entries) s) ;;
        publish_if_complete : Rust World _) w (λ _, feed_ok (events ++ [e])).
Proof.
  intros [Hf Hl Hp] [(Hpos & Heq & Hroll & Hlat & Hpub) Hcs] Hcur Hv Hrep. unfold modify_state at 1. do 2 runs_step.
  destruct Hf as [Hpo Hu Hr Hq].
  destruct (record_ok (feed_positions (fw_state w)) pid (mkTimed v at_ns) closed reset max_entries)
    as (Hok & Hother & Hown); [by rewrite Hpos|done|].
  apply publish_ok; cbn; [constructor; cbn|..].
  - exact Hok.
  - by rewrite Hcur.
  - rewrite Hcur. intros cur' pid' v' [= <-]. rewrite open_report_app. unfold note_report. rewrite Hrep.
    destruct (position_is pid pid') eqn:Hpid; [apply position_is_eq in Hpid as <-|].
    + destruct closed; [done|]. intros [= <-]. by apply Hown.
    + intros Ho. apply Hother; [intros ->; by rewrite (proj2 (position_is_eq pid pid)) in Hpid|]. rewrite Hpos.
      destruct Hcs as [Hc|Hc]; [eapply Hr; [|exact Ho]; congruence|]. by rewrite (Hu Hc) in Ho.
  - by rewrite Heq.
  - intros snap. rewrite Hlat. intros (snap0 & Hs & _)%Hl. unfold snapshot_of in *. cbn. rewrite Heq, Hroll.
    pose proof (record_some (feed_positions (fw_state w)) pid (mkTimed v at_ns) closed reset max_entries) as Hsome.
    rewrite Hpos in Hsome |- *. destruct (feed_per_trade_pnl (feed_positions (fw_state w0))) as [t|]; [|done].
    destruct Hsome as [t' ->]; [by eexists|]. cbn in *.
    destruct (feed_daily_pnl _), (feed_rolling_pnl _), (feed_current_equity _), (feed_peak_equity _); done || by eexists.
  - by rewrite Hpub, Hlat.
Qed.

Lemma position_safe events event w :
  feed_ok events w → amounts_exact (FeedPosition event) →
  safe (on_position_event_without_halt_action config event : Rust World _) w
    (λ _, feed_ok (events ++ [FeedPosition event])).
Proof.
  intros Hok Hex. unfold on_position_event_without_halt_action. cbn in Hex.
  assert (Hq0 : quiet w w) by (split; [apply same_core_refl|by left]).
  destruct (account_eqb _ _) eqn:Hacc; cbn [negb].
  2:{ runs_step. eapply quiet_ok; [done|done|]. apply silent_other. intros cur. cbn. by rewrite Hacc. }
  runs_step. eapply safe_mono; [by apply (note_freshness_safe _ w w)|]. intros [] w1 [Hq1 Hc1].
  do 2 runs_step. intros fact Hfact. unfold try_some. destruct fact as [fact|].
  2:{ runs_step. eapply quiet_ok; [done|done|]. apply silent_other. intros cur. cbn. by rewrite Hacc, Hfact. }
  destruct (account_eqb (fact_account_id fact) _) eqn:Hacc'; cbn [negb].
  2:{ exfalso. assert (fact_account_id fact = pv_account_id (position_event_head event)) as Heq; [|congruence].
      destruct event as [h c|h r u|h r u|h ch]; cbn in Hfact |- *.
      - by injection Hfact as <-.
      - destruct (combined_position_pnl r u) as [[?|]|]; cbn in Hfact; try done. by injection Hfact as <-.
      - destruct (combined_position_pnl r u) as [[?|]|]; cbn in Hfact; try done. by injection Hfact as <-.
      - destruct ch; cbn in Hfact; [|done]. by injection Hfact as <-. }
  runs_step. eapply safe_mono; [by apply (accept_currency_safe (fact_currency fact) w1 w)|].
  intros [] w2 [Hq2 Hc2]; cbn [negb].
  2:{ runs_step. eapply quiet_ok; [done|done|]. destruct Hc2 as (other & Hc2 & Hne). split; [|by rewrite Hc2].
      rewrite Hc2. intros cur [= <-]. cbn. rewrite Hacc, Hfact. by rewrite bool_decide_false. }
  runs_step. eapply safe_mono; [by apply (note_observation_safe _ w2 w)|]. intros [] w3 [Hq3 Hc3].
  destruct (fact_per_trade_pnl fact) as [v|] eqn:Hv.
  - eapply (record_safe events _ (fact_position_id fact) v _ _ _ _ (fact_currency fact) w); [done|done|congruence| |].
    + by eapply Hex.
    + cbn. rewrite Hacc, Hfact, bool_decide_true by done. by rewrite Hv.
  - do 2 runs_step. assert (Hok3 : feed_ok (events ++ [FeedPosition event]) w3).
    { eapply quiet_ok; [done|done|]. split; [|by rewrite Hc3, Hc2]. rewrite Hc3, Hc2. intros cur [= <-]. cbn.
      rewrite Hacc, Hfact, bool_decide_true by done. by rewrite Hv. }
    destruct Hok3 as [Hf Hl Hp]. apply publish_ok; [done| |done]. intros snap (snap0 & Hs & _)%Hl. by eexists.
Qed.

Lemma on_event_safe events e w :
  feed_ok events w → amounts_exact e →
  safe (on_event config has_handler e : Rust World _) w (λ _, feed_ok (events ++ [e])).
Proof.
  intros Hok Hex. unfold on_event. destruct (account_eqb (event_account e) _) eqn:Hacc; cbn [negb].
  - runs_step. apply (safe_mono _ _ (λ _, feed_ok (events ++ [e]))).
    + destruct e; [by apply portfolio_safe|by apply account_safe|by apply position_safe].
    + intros snap w1 Hok1. unfold invoke_halt_action. repeat runs_step. destruct has_handler; [|done].
      destruct Hok1. by constructor.
  - runs_step. eapply quiet_ok; [done|split; [apply same_core_refl|by left]|]. apply silent_other. intros cur.
    destruct e; [done|done|]. cbn in *. by rewrite Hacc.
Qed.

Lemma feed_run_ok events : ∀ seen w w',
  feed_ok seen w → Forall amounts_exact events → feed_run config has_handler events w = Some w' →
  feed_ok (seen ++ events) w'.
Proof.
  induction events as [|e events IH]; intros seen w w' Hok Hex Hrun.
  { injection Hrun as <-. by rewrite app_nil_r. }
  cbn in Hrun. destruct (on_event config has_handler e w) as [[r w1]|] eqn:He; [|done]. cbn in Hrun.
  apply Forall_cons in Hex as [Hexe Hex]. change (e :: events) with ([e] ++ events). rewrite app_assoc.
  eapply IH; [|done|exact Hrun]. exact (on_event_safe seen e w Hok Hexe _ _ He).
Qed.

Lemma feed_new_ok : feed_ok [] (feed_new (D := D) (C := C)).
Proof.
  constructor; [constructor|done|done]; cbn; try done.
  split_and!; [constructor|constructor|done|by intros []].
Qed.

(** The published figures are not better than what was reported. *)
Lemma published_figures events w snap cur :
  feed_run config has_handler events feed_new = Some w → Forall amounts_exact events →
  feed_currency (fw_state w) = Some cur → fw_loss_snapshot w = Some snap →
  (∀ pid v, open_report cur events pid = Some v →
     ∃ pnl, per_trade_pnl snap = Some pnl ∧ d_exact pnl ∧ d_exact v ∧ d_value pnl ≤ d_value v) ∧
  (∃ current peak, current_equity snap = Some current ∧ peak_equity snap = Some peak ∧ d_value current ≤ d_value peak).
Proof.
  intros Hrun Hex Hcur Hsnap. destruct (feed_run_ok events [] feed_new w feed_new_ok Hex Hrun) as [Hf Hl Hp].
  cbn in Hf, Hl, Hp. rewrite Hsnap in Hp. destruct (Hl snap (eq_sym Hp)) as (snap0 & Hs0 & Hfig & _).
  destruct Hf as [Hpo _ Hr [Hq _]]. unfold snapshot_of in Hs0.
  destruct (feed_per_trade_pnl _) as [per|] eqn:Hper; [|done].
  destruct (feed_daily_pnl _) as [daily|]; [|done]. destruct (feed_rolling_pnl _) as [rolling|]; [|done].
  destruct (feed_current_equity _) as [equity|]; [|done]. destruct (feed_peak_equity _) as [peak|]; [|done].
  cbn in Hs0. injection Hs0 as <-. cbn in Hfig. injection Hfig as Hper' _ _ Heq Hpk. split.
  - intros pid v Hv. destruct (covered_bound _ pid v Hpo (Hr cur pid v Hcur Hv)) as (t & Ht & ? & ? & ?).
    rewrite Hper in Ht. injection Ht as <-. by exists (td_value per).
  - destruct (Hq equity eq_refl) as (_ & peak' & [= <-] & Hle). by exists (td_value equity), (td_value peak).
Qed.

(** The feed does not hide the loss of an open position: in every history of portfolio
    snapshots, account states and position events, when the last reported profit of some
    open position is a loss that reaches the configured per-trade limit, whatever the
    other positions report and however many there are, the governor does not accept the
    published snapshot, and if it may judge it names the per-trade limit. *)
Lemma open_position_loss_halts events w cur pid v snap policy limit now decision :
  feed_run config has_handler events feed_new = Some w → Forall amounts_exact events →
  feed_currency (fw_state w) = Some cur → open_report cur events pid = Some v →
  fw_loss_snapshot w = Some snap →
  max_per_trade_loss policy = Some limit → d_exact limit → loss_breaches v limit = true →
  evaluate_loss_admission policy (Some snap) now = Some decision →
  loss_accepted decision = false ∧
  (judgeable policy snap now → PerTradeLossLimit ∈ halt_reasons decision).
Proof.
  intros Hrun Hex Hcur Hv Hsnap Hlim Hle Hb Hdec.
  destruct (published_figures events w snap cur Hrun Hex Hcur Hsnap) as [Hfig _].
  destruct (Hfig pid v Hv) as (pnl & Hpnl & Hpe & Hve & Hval).
  assert (Hbreach : loss_breaches pnl limit = true).
  { unfold loss_breaches in *. rewrite !andb_true_iff in *. destruct d_zero_exact as [Hz Hz0].
    destruct (d_neg_exact pnl Hpe) as [Hn Hnv]. destruct (d_neg_exact v Hve) as [Hn' Hnv'].
    destruct Hb as [Hb1 Hb2]. rewrite d_ltb_value in Hb1 by done. rewrite d_geb_value in Hb2 by done.
    rewrite d_ltb_value, d_geb_value by done. rewrite Hnv, Hz0. rewrite Hz0 in Hb1. rewrite Hnv' in Hb2. lia. }
  unfold evaluate_loss_admission in Hdec. rewrite evaluate_cases in Hdec. cbn in Hdec.
  case_decide as Hj; [|by injection Hdec as <-].
  unfold checked_reasons in Hdec. rewrite Hlim, Hpnl in Hdec. cbn in Hdec. rewrite Hbreach in Hdec.
  destruct (drawdown_check _ _ _) as [drawdown|]; [|done]. cbn in Hdec. injection Hdec as <-.
  split; [done|]. intros _. left.
Qed.
End Facts.

(** ** A run: one entry configured, the loss is of the second position *)

Module LossFeedDemo.
#[local] Instance nt : NtTypes := demo_nt.
#[local] Instance text_currency : CurrencyOps text :=
  {| currency_eq_dec := _; currency_code := id; currency_try_from_str := Some |}.

Definition usd : text := lit "USD".
Definition config : LossGovernorRuntimeFeedConfig := mkFeedConfig (lit "account") 1000 1.
Definition policy : LossGovernorPolicy Z := mkLossPolicy 50 (Some 100) None None None.

Definition head (id : text) (at_ns : Z) : PositionEventHead := mkHead (lit "account") id at_ns at_ns.
Definition changed (id : text) (at_ns pnl : Z) : FeedEvent (D := Z) (C := text) :=
  FeedPosition (PositionChanged (head id at_ns) None (mkMoney usd pnl)).

(** The second position is beyond the one entry; the balance completes the figures. *)
Definition events : list (FeedEvent (D := Z) (C := text)) :=
  [ FeedPosition (PositionOpened (head (lit "p1") 10) usd);
    FeedPosition (PositionOpened (head (lit "p2") 11) usd);
    changed (lit "p2") 12 (-120);
    changed (lit "p1") 13 5;
    FeedAccount (mkAccountState (lit "account") None [mkMoney usd 900; mkMoney usd 100] 14 14) ].

Definition final : FeedWorld (D := Z) (C := text) :=
  match feed_run config true events feed_new with Some w => w | None => feed_new end.
Definition published : LossSnapshot Z :=
  match fw_loss_snapshot final with
  | Some s => s
  | None => mkLossSnapshot None 0 None None None None None unobserved
  end.
Definition verdict : LossAdmissionDecision :=
  match evaluate_loss_admission policy (Some published) 20 with
  | Some d => d
  | None => loss_rejected StaleLossSnapshot (not_evaluated 20)
  end.

Lemma events_exact : Forall amounts_exact events.
Proof.
  repeat constructor; cbn.
  1-4: intros fact v [= <-] [= <-]; vm_compute; by intros.
  intros cur t. unfold sum_money. cbn. case_bool_decide; cbn; [|done]. intros [= <-]. vm_compute. by intros.
Qed.

Lemma events_publish : feed_run config true events feed_new = Some final ∧ fw_loss_snapshot final = Some published.
Proof.
  assert (Hrun : is_some (feed_run config true events feed_new) = true) by (vm_compute; reflexivity).
  assert (Hpub : is_some (fw_loss_snapshot final) = true) by (vm_compute; reflexivity).
  split; [unfold final; by destruct (feed_run config true events feed_new)|].
  unfold published. by destruct (fw_loss_snapshot final).
Qed.

Lemma verdict_is : evaluate_loss_admission policy (Some published) 20 = Some verdict.
Proof.
  assert (Hsome : is_some (evaluate_loss_admission policy (Some published) 20) = true) by (vm_compute; reflexivity).
  unfold verdict. by destruct (evaluate_loss_admission policy (Some published) 20).
Qed.

Lemma open_position_loss_halts_witness :
  loss_accepted verdict = false ∧ PerTradeLossLimit ∈ halt_reasons verdict.
Proof.
  destruct events_publish as [Hrun Hpub].
  destruct (open_position_loss_halts config true events final usd (lit "p2") (-120) published policy 100 20 verdict
              Hrun events_exact eq_refl eq_refl Hpub eq_refl ltac:(vm_compute; by intros) eq_refl verdict_is)
    as [Hno Hnamed].
  split; [exact Hno|]. apply Hnamed. split_and!; [by eexists|vm_compute; by intros|vm_compute; by intros|reflexivity].
Defined.
End LossFeedDemo.
